(* ===== verification/_CoqProject ===== *)
-Q . S2P
Prelude.v
Lexing.v
PyDict.v
PyVal.v
Effects.v
PyNum.v
PgMisc.v
Json.v
Collections.v
Utils.v
Tags.v
DcsData.v
GlobalConfig.v
Slots.v
SlotsAdvance.v
NodeSlots.v
NodeSlotsProps.v
Citus.v
CitusHandler.v
CitusProps.v
CitusTransition.v
CitusTasks.v
CitusNode.v
Dcs.v
SyncNames.v
Sync.v
SyncProps.v
SyncSpec.v
Quorum.v
QuorumSafety.v
QuorumSteady.v
QuorumProgress.v
AsyncExec.v
Rewind.v
RewindProps.v
Failsafe.v
Race.v
RaceProps.v
HaSync.v
Watchdog.v
RaftStore.v
RaftLease.v
RaftDcs.v
MySQLConn.v
MySQL.v
Mgr.v
MySQLTrace.v
MgrElect.v
MgrProps.v
MgrAgree.v
MySQLProps.v
MysqlVersion.v
ApiStatus.v
ApiLease.v
ApiActions.v
ApiProps.v
HaState.v
HaLock.v
HaDemote.v
HaFollow.v
HaActions.v
HaCycle.v
HaTrace.v
HaSafety.v
HaProps.v
HaExamples.v
HaDuty.v
Validator.v
ValidatorSpec.v
ValidatorLeaf.v
ValidatorSchema.v
ValidatorProps.v
Config.v
ConfigEnv.v
ConfigProps.v
Retry.v
Etcd3Cache.v
Etcd3.v
Etcd3Lease.v
Etcd3Refine.v
