(* ===== verification/Prelude.v ===== *)
(** * Metatroni: a verification library for the Patroni/Metatroni HA agent

    Metatroni is an agent that runs beside each PostgreSQL (or MySQL) server of a cluster.  The
    agents share keys in a distributed store (the DCS): the leader key, /sync, /status,
    /config, /failover, /failsafe and one key per member.  Every few seconds the agent runs
    one cycle of the HA loop: it reads the cluster, takes or renews the leader key, and
    promotes, demotes, starts or follows accordingly.

    ** The parts and where they are modelled

    Shared libraries.  [Prelude] (strings, lists, tactics), [Lexing] (characters and scanners),
    [PyDict] (insertion-ordered dictionaries), [PyVal] (Python values, exceptions, the
    exception monad [exc]), [Effects] (the state-and-exception monad [eff] and its triples),
    [PyNum] (numbers as Python reads and prints them), [Json] (json.dumps and json.loads).

    Data and settings.
    - [Collections]: src/patroni/collections.py, [CaseInsensitiveSet] and [CaseInsensitiveDict]
      as the modules [CISet] and [CIDict].
    - [Utils]: src/patroni/utils.py, parsing, units, comparison and
      [patch_config].
    - [PgMisc]: src/patroni/postgresql/misc.py, versions and WAL positions.
    - [Tags]: src/patroni/tags.py, the interface [Tags] as a type class.
    - [DcsData]: src/patroni/dcs/__init__.py, the keys of the DCS as records ([Member],
      [Leader], [Failover], [ClusterConfig], [SyncState], [Status], [Cluster]) with their
      [from_node] factories.
    - [GlobalConfig]: src/patroni/global_config.py.
    - [Validator], [ValidatorLeaf], [ValidatorSchema]: src/patroni/validator.py, the walk over a
      configuration in step with a schema, the validators of single settings over the class
      [ValidatorOs] of files, sockets and programs, and the schema of the agent.  [ValidatorSpec]: the
      reference definition [conforms]; [ValidatorProps]: what an accepted configuration has.
    - [Config]: src/patroni/config.py, the class [Config] with the merge of the defaults, the DCS and the local configuration,
      over the classes [ConfigFiles] and [CacheFiles] of the files; [ConfigEnv]: the configuration in environment
      variables; [ConfigProps]: the states of [Config] over its life, [config_run], and what all of them have.

    The DCS client.
    - [Slots]: the methods of [Cluster] about replication slots.
    - [Dcs]: [AbstractDCS], over the class [Backend] of its abstract methods: cached
      views, /status, /failsafe, retained slots, the leader, failover and sync keys.

    - [RaftStore]: src/patroni/dcs/raft.py, [KVStoreTTL]: the replicated commands, the calls of a node,
      the expiration of keys, over the class [RaftNet] of the Raft library pysyncobj.
    - [RaftDcs]: [Raft], an instance of [Backend].
    - [RaftLease]: the abstract specification [Lease] of the leader key, the step relation
      [raft_step] of agents over the store, and the refinement.

    - [Retry]: [Retry] and [polling_loop] of src/patroni/utils.py, with their termination.
    - [Etcd3Cache]: the watcher of src/patroni/dcs/etcd3.py, [KVCache], and its convergence.  [Etcd3]: the
      requests of the client and the methods of [Etcd3], over the class [EtcdNet] of the servers, the clock and
      the cache; every request is recorded.  [Etcd3Lease]: what the methods may send.
    - [Etcd3Refine]: [EtcdStore] and [EtcdPromises] (what etcd promises), the step relation [etcd_step] of
      agents over one store, and its refinement of [Lease].

    Replication slots of a node, src/patroni/postgresql/slots.py.
    - [SlotsAdvance]: the thread that advances logical slots; [NodeSlots], [NodeSlotsProps]: the
      handler that makes the slots of the server those that the cluster wants, over the class
      [PgSlots] of the server's queries; its commands are recorded with the state they were given in and the slots known then.

    Multi-node clusters, src/patroni/postgresql/mpp/.
    - [Citus]: the nodes and groups of Citus and the transition between two topologies, over the order
      [SetOrder] of Python's sets; [CitusHandler]: the handler of the table pg_dist_node and its
      thread, over the class [CitusDb]; [CitusNode]: the group of a node, settings and slots.
    - [CitusProps] (what Citus promises, [PgDistTable], and the rows of a group, [holds]),
      [CitusTransition]: correctness of the transition; [CitusTasks]: the step relation
      [citus_step] of the threads; [CitusNode] also has the properties of settings and of slots.

    Synchronous replication.
    - [SyncNames]: the text of synchronous_standby_names (quoting, lexer,
      parser), src/patroni/postgresql/sync.py.
    - [Sync], [SyncProps], [SyncSpec]: [_ReplicaList] and [SyncHandler] of the
      same file, over the class [SyncPostgres].
    - [Quorum], [QuorumSafety], [QuorumSteady], [QuorumProgress]:
      src/patroni/quorum.py, [QuorumStateResolver] as a generator monad.
    - [HaSync]: the functions of [Ha] that keep synchronous_standby_names and
      /sync in step.

    The watchdog.
    - [Watchdog]: src/patroni/watchdog/base.py and linux.py, over the class
      [WatchdogOs] of the system calls and the law [WatchdogKernel].

    MySQL, src/patroni/mysql/.
    - [MySQLConn]: connection.py over the class [Pymysql] of the driver and the clock; every
      statement is recorded.  [MySQL]: the handler of __init__.py, with the waits of
      postmaster.py; [Mgr]: its group replication part.
    - [MySQLTrace]: which statements a method executes; [MgrElect], [MgrAgree]: what the server
      promises ([GtidServer]; [Responsive] for a server that answers) and the reference election [elect]; [MgrProps] (on
      a scripted server), [MySQLProps]: the properties.
    - [MysqlVersion]: versioning.py and the sizes of initcmd.py.

    The REST API, src/patroni/api.py.
    - [ApiStatus]: the status of the node and the status codes of the health checks;
      [ApiLease]: who answers as the primary, over the abstract lease.
    - [ApiActions], [ApiProps]: access control, routing and the handlers that change something, over
      the interface [ApiNode] of the agent; what a request asked for is in its log.

    The agent, src/patroni/ha.py.
    - [Race], [RaceProps]: [_MemberStatus], the leader race, failover candidates
      and manual failover without a leader, over the class [RaceNode].
    - [Failsafe]: the class [Failsafe].
    - [Rewind], [RewindProps]: src/patroni/postgresql/rewind.py, the class [Rewind] over the interface
      [RewindNode] of PostgreSQL, the leader and the programs that are called; the results of calls are recorded.
    - [AsyncExec]: src/patroni/async_executor.py, [CriticalTask] and
      [AsyncExecutor], and the step relation [step] of the threads that use them.
    - [HaState]: the object [Ha] ([Race.Ha] and [Fields]) with the components it calls ([loop]),
      and the class [HaNode] of those that are not modelled.  Every call is recorded as an
      [event] of the log, and the other threads may change the world before each call
      ([env_step]).
    - [HaLock] (leader key, view of the cluster, member key), [HaDemote] (stop of PostgreSQL,
      [demote] in all modes), [HaFollow] (follow, recover, promote), [HaActions] (failover
      requests, restarts, bootstrap, reinitialization, failsafe calls) and [HaCycle]
      ([process_unhealthy_cluster], [process_healthy_cluster], [_run_cycle], [run_cycle],
      [shutdown], [watch]): the methods of [Ha] under their own names.  A long method is
      split at its [if]s into definitions that the method's definition composes.
      An event has the result of the call, so that what a theorem says of an answer is about the answer that was given.
    - [HaTrace]: for every method the kinds of events it may record (its footprint);
      [HaSafety], [HaProps], [HaDuty]: the properties of the cycle; [HaExamples]: a scripted
      world in which whole cycles are run.

    ** What the theorems show

    - No loss on failover: what the quorum resolver writes keeps every quorum in touch with
      every set of synchronous nodes after each transition, and it reaches the desired state
      ([QuorumProgress]); /sync and synchronous_standby_names agree at every moment of a
      reconfiguration ([HaSync]); a winner of the race has every commit that a quorum
      confirmed and is not behind the candidates it asked, in quorum mode the voters among them ([RaceProps]).
    - One primary: a promotion only under a leader key granted in the same cycle, a primary
      without the key is demoted, the key is given up after the stop, and the watchdog is
      kept alive only after the key was renewed or all members accepted the failsafe mode ([HaProps], [HaDuty]); at most one background
      action, the recorded one ([AsyncExec]).
    - The lease: the leader key of the Raft store refines an abstract lease, lasts until its end less
      the clock skew, and versions that were read protect from lost updates ([RaftLease]); the leader key
      of etcd with the lease it is attached to refines the same specification ([Etcd3Refine]), and the cache
      of keys converges to those of etcd ([Etcd3Cache]);
      a required watchdog is activated only when it runs with a timeout that is at most the configured one (or 0) and no shorter
      than the pause between cycles, but for a device that cannot be disabled ([Watchdog]); the timeouts of the configuration leave time for
      two retries in a lease ([ConfigProps]).
    - One replication group: only the holder of the leader lock forms a MySQL group, with a GTID
      set that contains all others that were seen; two nodes that elect a member elect the same, and with a server that answers
      both elect one ([MgrAgree]);
      a node that joins never forms a second group ([MgrProps]).
    - Routing of clients: /sync, /quorum and /async divide the replicas ([ApiStatus]); two nodes
      answer as the primary only at the very end of a lease ([ApiLease]).  Requests: nobody without
      access changes anything but over POST /mpp, and the /failover key is only written when the cluster
      permits it ([ApiProps]).
    - Metadata of Citus: the statements of a transition never break the uniqueness of names and leave the
      rows that the new topology asks for, with an old primary that is left out when the new one was never registered
      ([CitusTransition]); one task per group ([CitusTasks]).
    - Rewind: a node is only left as it is when its position is on the history of the primary, and
      pg_rewind is only run on a stopped node from a primary that has run a checkpoint ([RewindProps]).
    - Configuration: the validation reports no error exactly on the configurations that the schema
      describes, in schemas that do not look at the whole document, and accepted ones have the named
      sections with their types and bounds ([ValidatorProps]); managed parameters are valid and the settings of the node itself are
      local ([ConfigProps]).
    - Bookkeeping: slots are kept while their members may need them ([Slots],
      [Dcs]); every command of the slot handler has its reason in the slots that are wanted
      ([NodeSlotsProps]); the client's copy of /status is coherent.
    - Round trips of what is written and read back: /sync, /status, synchronous_standby_names,
      WAL positions, tags.
    - Termination of retries with a deadline ([Retry]) and of the searches over replicatefrom tags, and the inputs on which they do not
      end.  The theorems of these names that end in [_diverges], and
      [race_doubles_members], [keyword_prefix_unparsable], [own_slot_counted],
      [resolve_error_on_wanted_jump], [async_cancel_race], [expiry_not_retried], [failed_stop_releases],
      [rewind_retries_forever], [clean_race_spins], [bin_dir_unchecked], [default_stack_size_rejected], [bin_name_raises], [old_primary_unregistered],
      [replaced_task_never_woken], [take_leader_unleased], [late_write_resurrects], [citus_slot_stops_handler],
      [same_node_schedule_unanswered], [bad_reinitialize_runs], [mysql_lag_ignores_position], [failed_bootstrap_leaves_flag], [failed_status_bootstraps], [failed_chmod_removes_cache], [promote_hides_failures], [stop_unchecked],
      [semi_sync_majority] and [semi_sync_profile] show
      behaviour that differs from what the code's comments say or mean.

    ** Conventions and bounds

    - Integers are unbounded ([Z]), as in Python.  Strings are ASCII text.
    - Exceptions are values: [exc A] and [eff S A]; what a method did before it raised stays.
    - Loops that are not structural have fuel: the quorum loop of [HaSync] takes [sync_fuel] (1000)
      rounds, where the code stops after [loop_wait] seconds; the recursions over tags of
      [Slots] and [Sync] are shown to end within as many rounds as there are members, or
      never; [poll_until] of [MySQL] has a round for each pause until its deadline and one more
      ([waits_end]); [while_not_sync_standby] has one round of fuel for each interval until its end.
    - Locks: a cycle runs under the executor's lock, so the executor does not change during
      it; the threads of the executor are the steps of [AsyncExec.step].
    - The log of [HaState] holds the calls with their results; log messages, metrics and
      notifications to systemd are not modelled.

    ** Not modelled

    The other DCS backends (of etcd: HTTP, authentication, the choice of a server, API v2), the sockets of the REST API, the command line, the configuration files of PostgreSQL,
    bootstrap, the configuration files and the cloning of MySQL and the daemon are not modelled: most are clients of external
    services.  What the agent relies on of them is in the classes
    [Backend], [SyncPostgres], [SyncDcs], [RaceNode] and [HaNode].  Of [Cluster] and [Member]
    the splitting of connection URLs (urllib) is not modelled. *)
From stdpp Require Export prelude gmap strings list sorting.
From Stdlib Require Export Ascii ZArith Lia.

Declare Scope py_scope.
Delimit Scope py_scope with py.
#[global] Open Scope py_scope.

(** ** Python strings

    Strings are [String.string]; the model covers ASCII text (names, keys,
    configuration values), on which [str.lower], [str.strip] and the ordering
    of Python agree with the definitions below. *)
Module Str.

(** [str.lower] on one character. *)
Definition lower_ascii (c : ascii) : ascii :=
  let n := nat_of_ascii c in
  if decide (65 ≤ n ∧ n ≤ 90) then ascii_of_nat (n + 32) else c.

Fixpoint lower (s : string) : string :=
  match s with
  | EmptyString => EmptyString
  | String c s' => String (lower_ascii c) (lower s')
  end.

(** [str.isspace] on one ASCII character, what [str.strip] removes. *)
Definition is_space (c : ascii) : bool :=
  let n := nat_of_ascii c in
  bool_decide ((9 ≤ n ∧ n ≤ 13) ∨ (28 ≤ n ∧ n ≤ 32)).

Fixpoint lstrip (s : string) : string :=
  match s with
  | EmptyString => EmptyString
  | String c s' => if is_space c then lstrip s' else s
  end.

(** Removes trailing white space. *)
Fixpoint rstrip (s : string) : string :=
  match s with
  | EmptyString => EmptyString
  | String c s' =>
      match rstrip s' with
      | EmptyString => if is_space c then EmptyString else String c EmptyString
      | t => String c t
      end
  end.

Definition strip (s : string) : string := lstrip (rstrip s).

Fixpoint rev (s : string) : string :=
  match s with
  | EmptyString => EmptyString
  | String c s' => (rev s' +:+ String c EmptyString)%string
  end.

(** [s.split(sep)] for a one-character separator: never empty. *)
Fixpoint split_on (sep : ascii) (s : string) : list string :=
  match s with
  | EmptyString => [EmptyString]
  | String c s' =>
      if decide (c = sep) then EmptyString :: split_on sep s'
      else match split_on sep s' with
           | w :: ws => String c w :: ws
           | [] => [String c EmptyString]
           end
  end.

(** [sep.join(l)] *)
Fixpoint join (sep : string) (l : list string) : string :=
  match l with
  | [] => EmptyString
  | [x] => x
  | x :: l' => (x +:+ sep +:+ join sep l')%string
  end.

(** [sorted(l)] for a list of strings. *)
Definition sorted (l : list string) : list string := merge_sort String.le l.

(** Every character of [s] satisfies [p]. *)
Fixpoint all (p : ascii → bool) (s : string) : bool :=
  match s with
  | EmptyString => true
  | String c s' => p c && all p s'
  end.

Lemma lower_ascii_idemp c : lower_ascii (lower_ascii c) = lower_ascii c.
Proof. by destruct c as [[] [] [] [] [] [] [] []]. Qed.

Lemma lower_idemp s : lower (lower s) = lower s.
Proof. induction s as [|c s IH]; simpl; [done|]. by rewrite lower_ascii_idemp, IH. Qed.

Lemma sorted_perm l : sorted l ≡ₚ l.
Proof. apply merge_sort_Permutation. Qed.

Lemma sorted_Sorted l : StronglySorted String.le (sorted l).
Proof. apply (StronglySorted_merge_sort String.le). Qed.

Lemma elem_of_sorted x l : x ∈ sorted l ↔ x ∈ l.
Proof. by rewrite sorted_perm. Qed.

Lemma length_sorted l : length (sorted l) = length l.
Proof. by rewrite sorted_perm. Qed.
Lemma join_cons sep x y l : join sep (x :: y :: l) = (x +:+ sep +:+ join sep (y :: l))%string.
Proof. done. Qed.

Lemma str_app_cons c s1 s2 : (String c s1 +:+ s2)%string = String c (s1 +:+ s2)%string.
Proof. done. Qed.

Lemma str_app_single c s : (String c EmptyString +:+ s)%string = String c s.
Proof. done. Qed.

Lemma str_app_assoc s1 s2 s3 : ((s1 +:+ s2) +:+ s3)%string = (s1 +:+ (s2 +:+ s3))%string.
Proof. induction s1 as [|c s1 IH]; [done|]. exact (f_equal (String c) IH). Qed.

Lemma str_app_nil_r s : (s +:+ EmptyString)%string = s.
Proof. induction s as [|c s IH]; [done|]. exact (f_equal (String c) IH). Qed.

Lemma str_length_app s1 s2 : String.length (s1 +:+ s2)%string = (String.length s1 + String.length s2)%nat.
Proof. induction s1 as [|c s1 IH]; [done|]. exact (f_equal S IH). Qed.

Lemma all_app p s1 s2 : all p (s1 +:+ s2)%string = all p s1 && all p s2.
Proof. induction s1 as [|c s1 IH]; simpl; [done|]. rewrite IH. by destruct (p c). Qed.

End Str.

(** ** Python slices *)

(** [l[:n]]: a negative [n] counts from the end. *)
Definition slice_to {A} (n : Z) (l : list A) : list A :=
  if decide (0 ≤ n)%Z then take (Z.to_nat n) l
  else take (length l - Z.to_nat (- n)) l.

Lemma slice_to_sublist {A} n (l : list A) x : x ∈ slice_to n l → x ∈ l.
Proof.
  unfold slice_to. case_decide; intros Hx; apply list_elem_of_lookup_1 in Hx as [i Hi];
    apply lookup_take_Some in Hi as [Hi _]; by apply list_elem_of_lookup_2 in Hi.
Qed.

(** ** Finite sets of names *)

Lemma size_union_single (X : gset string) x : (size (X ∪ {[x]}) ≤ size X + 1)%nat.
Proof.
  rewrite size_union_alt.
  assert (size ({[x]} ∖ X : gset string) ≤ size ({[x]} : gset string))%nat as H
    by (apply subseteq_size; set_solver).
  rewrite size_singleton in H. lia.
Qed.

Lemma diff_diff_inter (X Y : gset string) : X ∖ (X ∖ Y) = X ∩ Y.
Proof. apply set_eq. intros x. destruct (decide (x ∈ Y)); set_solver. Qed.

Lemma union_diff_same (X Y : gset string) : X ⊆ Y → X ∪ Y ∖ X = Y.
Proof. intros. symmetry. by apply union_difference_L. Qed.

Lemma diff_partial_inter (X Y R : gset string) :
  R ⊆ X ∖ Y → (X ∖ R) ∖ ((X ∖ Y) ∩ (X ∖ R)) = X ∩ Y.
Proof. intros HR. apply set_eq. intros x. destruct (decide (x ∈ Y)); set_solver. Qed.

Lemma union_diff_more (X Y Z : gset string) :
  X ⊆ Y → Z ⊆ Y ∖ X → (X ∪ Z) ∪ (Y ∖ X) ∖ (X ∪ Z) = Y.
Proof.
  intros ? ?. replace ((Y ∖ X) ∖ (X ∪ Z)) with (Y ∖ (X ∪ Z)) by set_solver.
  apply union_diff_same. set_solver.
Qed.

Lemma size_list_to_set_le (l : list string) : (size (list_to_set l : gset string) ≤ length l)%nat.
Proof.
  induction l as [|x l IH]; [done|]. simpl. rewrite size_union_alt, size_singleton.
  pose proof (subseteq_size (list_to_set l ∖ {[x]}) (list_to_set l : gset string) ltac:(set_solver)). lia.
Qed.

(** An increasing sequence of subsets of [U] that stays as it is once two consecutive terms
    are equal does not change after [size U] terms. *)
Lemma chain_stable (D : nat → gset string) (U : gset string) :
  (∀ n, D n ⊆ D (S n)) → (∀ n, D n ⊆ U) → (∀ n, D n = D (S n) → D (S n) = D (S (S n))) →
  ∀ n, (size U ≤ n)%nat → D n = D (S n).
Proof.
  intros Hinc Hsub Hstep n Hn. destruct (decide (D n = D (S n))) as [|Hne]; [done|exfalso].
  assert (∀ k, (k ≤ S n)%nat → (k ≤ size (D k))%nat) as Hgrow.
  { induction k as [|k IH]; intros Hk; [lia|]. destruct (decide (D k = D (S k))) as [He|Hd].
    - exfalso. apply Hne. clear -Hstep He Hk. assert (∃ j, n = k + j)%nat as [j ->] by (exists (n - k)%nat; lia).
      clear Hk. induction j as [|j IH]; [by rewrite Nat.add_0_r|]. rewrite Nat.add_succ_r. by apply Hstep.
    - assert (D k ⊂ D (S k)) as Hs by (specialize (Hinc k); set_solver). apply subset_size in Hs. lia. }
  pose proof (Hgrow (S n) ltac:(lia)). pose proof (subseteq_size _ _ (Hsub (S n))). lia.
Qed.
