(* ===== verification/Lexing.v ===== *)
(** * Lexing of text

    Character classes, spans of characters and decimal numbers, shared by the
    parsers of configuration values, of JSON and of
    [synchronous_standby_names]. *)
From stdpp Require Import pretty.
From S2P Require Import Prelude.

Open Scope string_scope.
Open Scope Z_scope.

(** ** Characters and spans *)

Definition is_digit (c : ascii) : bool := bool_decide (48 ≤ nat_of_ascii c ≤ 57)%nat.
Definition is_octdigit (c : ascii) : bool := bool_decide (48 ≤ nat_of_ascii c ≤ 55)%nat.
Definition is_hexdigit (c : ascii) : bool :=
  let n := nat_of_ascii c in
  bool_decide ((48 ≤ n ≤ 57) ∨ (97 ≤ n ≤ 102) ∨ (65 ≤ n ≤ 70))%nat.

(** The value of a digit in any base up to 16. *)
Definition digit_value (c : ascii) : Z :=
  let n := Z.of_nat (nat_of_ascii c) in
  if n <=? 57 then n - 48 else if n <=? 70 then n - 55 else n - 87.

(** The longest prefix of characters satisfying [p], and the rest. *)
Fixpoint span (p : ascii → bool) (s : string) : string * string :=
  match s with
  | EmptyString => ("", "")
  | String c s' => if p c then let '(a, b) := span p s' in (String c a, b) else ("", s)
  end.

Definition digits_value (base : Z) (s : string) : Z :=
  foldl (λ acc c, acc * base + digit_value c) 0 (String.list_ascii_of_string s).

(** [[-+]?] at the start: the sign is negative, and what follows. *)
Definition sign (s : string) : bool * string :=
  match s with
  | String c s' =>
      if Ascii.eqb c "-" then (true, s') else if Ascii.eqb c "+" then (false, s') else (false, s)
  | EmptyString => (false, s)
  end.

Definition signed (neg : bool) (z : Z) : Z := if neg then - z else z.

(** [int(s)]: surrounding white space, a sign, digits with single underscores
    between them. *)
Fixpoint uint_from (acc : Z) (s : string) : option Z :=
  match s with
  | "" => Some acc
  | String c s' =>
      if is_digit c then uint_from (acc * 10 + digit_value c) s'
      else if Ascii.eqb c "_" then
        match s' with
        | String d s'' => if is_digit d then uint_from (acc * 10 + digit_value d) s'' else None
        | "" => None
        end
      else None
  end.

Definition uint (s : string) : option Z :=
  match s with
  | String c _ => if is_digit c then uint_from 0 s else None
  | "" => None
  end.

Definition int_of_string (s : string) : option Z :=
  let '(neg, t) := sign (Str.strip s) in
  match uint t with Some z => Some (signed neg z) | None => None end.

(** ** Printed integers *)

Definition nonzero_digit (c : ascii) : bool := is_digit c && negb (Ascii.eqb c "0").

(** [s] is the decimal notation of [n], without a superfluous zero. *)
Definition decimal (n : Z) (s : string) : Prop :=
  Str.all is_digit s = true ∧ digits_value 10 s = n ∧
  match s with "" => n = 0 | String c _ => nonzero_digit c = true end.

Lemma digits_value_app b s1 s2 :
  digits_value b (s1 +:+ s2) =
  digits_value b s1 * b ^ Z.of_nat (String.length s2) + digits_value b s2.
Proof.
  unfold digits_value.
  assert (∀ s acc, foldl (λ acc c, acc * b + digit_value c) acc (String.list_ascii_of_string s)
    = acc * b ^ Z.of_nat (String.length s) +
      foldl (λ acc c, acc * b + digit_value c) 0 (String.list_ascii_of_string s)) as H.
  { induction s as [|c s IH]; intros acc; [simpl; lia|]. cbn [String.list_ascii_of_string foldl].
    rewrite (IH (acc * b + digit_value c)), (IH (0 * b + digit_value c)).
    cbn [String.length]. rewrite Nat2Z.inj_succ, Z.pow_succ_r by lia. ring. }
  generalize 0 at 1 2. induction s1 as [|c s1 IH]; intros acc; simpl; [apply H|]. by rewrite IH.
Qed.

Lemma pretty_N_digit (d : N) : (d < 10)%N →
  is_digit (pretty_N_char d) = true ∧ digit_value (pretty_N_char d) = Z.of_N d ∧
  ((0 < d)%N → nonzero_digit (pretty_N_char d) = true).
Proof.
  intros Hd. assert (d = 0 ∨ d = 1 ∨ d = 2 ∨ d = 3 ∨ d = 4 ∨ d = 5 ∨ d = 6 ∨ d = 7 ∨ d = 8 ∨ d = 9)%N
    as H by lia.
  repeat destruct H as [->|H]; try subst d; vm_compute; split_and!; done.
Qed.

Lemma pretty_N_go_decimal (x : N) : ∃ ds, decimal (Z.of_N x) ds ∧ ∀ s, pretty_N_go x s = ds +:+ s.
Proof.
  induction (N.lt_wf_0 x) as [x _ IH]. destruct (decide (x = 0)%N) as [->|Hx].
  { exists "". done. }
  destruct (IH (x `div` 10)%N) as (ds & (Ha & Hv & Hh) & Hs); [apply N.div_lt; lia|].
  destruct (pretty_N_digit (x `mod` 10)%N) as (H1 & H2 & H3); [apply N.mod_lt; lia|].
  pose proof (N.div_mod x 10 ltac:(done)) as Hdm.
  exists (ds +:+ String (pretty_N_char (x `mod` 10)) ""). repeat split.
  - rewrite Str.all_app, Ha. simpl. by rewrite H1.
  - rewrite digits_value_app, Hv. unfold digits_value at 1. simpl. rewrite H2. lia.
  - destruct ds as [|c ds]; [|done]. simpl. apply H3. lia.
  - intros s. rewrite pretty_N_go_step, Hs by lia. by rewrite Str.str_app_assoc.
Qed.

Lemma pretty_pos_decimal (p : positive) : decimal (Zpos p) (pretty p).
Proof.
  destruct (pretty_N_go_decimal (Npos p)) as (ds & Hd & Hs).
  unfold pretty, pretty_positive, pretty, pretty_N. rewrite decide_False, Hs by done.
  by rewrite Str.str_app_nil_r.
Qed.

Lemma pretty_digits z : 0 ≤ z → Str.all is_digit (pretty z) = true ∧ digits_value 10 (pretty z) = z ∧ pretty z ≠ "".
Proof.
  intros Hz. destruct z as [|p|p]; [by vm_compute| |lia]. change (pretty (Zpos p)) with (pretty p).
  destruct (pretty_pos_decimal p) as (Ha & Hv & Hh). split_and!; [done|done|]. intros He. by rewrite He in Hh.
Qed.

Lemma span_all p s : Str.all p s = true → span p s = (s, "").
Proof. induction s as [|c s IH]; simpl; [done|]. intros [-> H]%andb_prop. by rewrite IH. Qed.

Lemma strip_no_space s : Str.all (λ c, negb (Str.is_space c)) s = true → Str.strip s = s.
Proof.
  intros H. unfold Str.strip.
  assert (Str.rstrip s = s) as ->.
  { revert H. induction s as [|c s IH]; simpl; [done|]. intros [Hc H]%andb_prop.
    rewrite IH by done. destruct s; [|done]. by destruct (Str.is_space c). }
  destruct s as [|c s]; [done|]. simpl in *. by destruct (Str.is_space c).
Qed.

Lemma all_impl (p q : ascii → bool) s :
  (∀ c, p c = true → q c = true) → Str.all p s = true → Str.all q s = true.
Proof.
  intros Hpq. induction s as [|c s IH]; simpl; [done|]. intros [Hc H]%andb_prop.
  by rewrite (Hpq c Hc), IH.
Qed.

Lemma digit_not_space c : is_digit c = true → negb (Str.is_space c) = true.
Proof. unfold is_digit, Str.is_space. intros H%bool_decide_eq_true. rewrite bool_decide_eq_false_2; [done|lia]. Qed.

(** The first character of a text satisfies no [p]. *)
Definition stops (p : ascii → bool) (s : string) : bool :=
  match s with "" => true | String c _ => negb (p c) end.

Lemma span_app p s rest : Str.all p s = true → stops p rest = true → span p (s +:+ rest) = (s, rest).
Proof.
  intros Ha Hr. induction s as [|c s IH]; simpl in *.
  - destruct rest as [|c rest]; [done|]. simpl in *. by destruct (p c).
  - apply andb_prop in Ha as [-> Ha]. by rewrite IH.
Qed.

Lemma digits_value_cons b c s :
  digits_value b (String c s) = digit_value c * b ^ Z.of_nat (String.length s) + digits_value b s.
Proof. rewrite <-(Str.str_app_single c s), digits_value_app. unfold digits_value at 1. simpl. lia. Qed.

Lemma uint_from_digits s acc : Str.all is_digit s = true →
  uint_from acc s = Some (acc * 10 ^ Z.of_nat (String.length s) + digits_value 10 s).
Proof.
  revert acc. induction s as [|c s IH]; intros acc; [intros; simpl; f_equal; unfold digits_value; simpl; lia|].
  cbn [Str.all uint_from String.length]. intros [Hc Hs]%andb_prop. rewrite Hc, IH, digits_value_cons by done.
  rewrite Nat2Z.inj_succ, Z.pow_succ_r by lia. f_equal. ring.
Qed.

(** A printed integer: its strip is itself, and its sign is what it begins with. *)
Lemma sign_decimal (neg : bool) n s : decimal (Zpos n) s →
  Str.strip ((if neg then "-" else "") +:+ s) = (if neg then "-" else "") +:+ s ∧
  sign ((if neg then "-" else "") +:+ s) = (neg, s).
Proof.
  intros (Ha & Hv & Hh). split.
  - apply strip_no_space. rewrite Str.all_app, (all_impl _ _ s digit_not_space Ha). by destruct neg.
  - destruct s as [|c s]; [done|]. destruct neg; [done|]. simpl. unfold nonzero_digit, is_digit in Hh.
    destruct (Ascii.eqb_spec c "-") as [->|]; [done|]. by destruct (Ascii.eqb_spec c "+") as [->|].
Qed.

Lemma int_of_string_pretty z : int_of_string (pretty z) = Some z.
Proof.
  assert (∀ neg p, int_of_string ((if (neg : bool) then "-" else "") +:+ pretty p) = Some (signed neg (Zpos p))) as H.
  { intros neg p. pose proof (pretty_pos_decimal p) as Hd. destruct (sign_decimal neg p _ Hd) as [H1 H2].
    unfold int_of_string. rewrite H1, H2. destruct Hd as (Ha & Hv & Hh).
    unfold uint. destruct (pretty p) as [|c s] eqn:E; [done|].
    cbn [Str.all] in Ha. pose proof Ha as [Hc _]%andb_prop. rewrite Hc, uint_from_digits by done.
    by rewrite Hv. }
  destruct z as [|p|p]; [done | apply (H false p) | apply (H true p)].
Qed.

(** ** Searching in a text *)

(** The text before and after the first occurrence of [p] *)
Fixpoint cut (p s : string) : option (string * string) :=
  if String.prefix p s then Some ("", String.substring (String.length p) (String.length s) s)
  else match s with
       | "" => None
       | String c s => '(a, b) ← cut p s; Some (String c a, b)
       end.

(** [p in s] *)
Definition has_text (p s : string) : bool := match cut p s with Some _ => true | None => false end.

Definition newline : string := String (ascii_of_nat 10) "".
Definition lines (s : string) : list string := Str.split_on (ascii_of_nat 10) s.

(** ** Splitting and joining *)

Definition lacks (sep : ascii) (s : string) : bool := Str.all (λ c, negb (Ascii.eqb c sep)) s.

Lemma split_on_lacks sep s : lacks sep s = true → Str.split_on sep s = [s].
Proof.
  unfold lacks. induction s as [|c s IH]; [done|]. cbn [Str.all Str.split_on]. intros [Hc Hs]%andb_prop.
  case_decide as Heq; [subst; by rewrite Ascii.eqb_refl in Hc|]. by rewrite IH.
Qed.

Lemma split_on_app sep s t : lacks sep s = true → Str.split_on sep (s +:+ String sep t) = s :: Str.split_on sep t.
Proof.
  unfold lacks. induction s as [|c s IH]; [intros _; change ("" +:+ String sep t) with (String sep t); cbn [Str.split_on]; by rewrite decide_True|].
  rewrite Str.str_app_cons. cbn [Str.all Str.split_on]. intros [Hc Hs]%andb_prop.
  case_decide as Heq; [subst; by rewrite Ascii.eqb_refl in Hc|]. by rewrite IH.
Qed.

Lemma split_join sep l : l ≠ [] → Forall (λ s, lacks sep s = true) l →
  Str.split_on sep (Str.join (String sep "") l) = l.
Proof.
  induction l as [|x l IH]; [done|]. intros _ [Hx Hl]%Forall_cons.
  destruct l as [|y l]; [by apply split_on_lacks|].
  rewrite Str.join_cons, Str.str_app_single, split_on_app by done. f_equal. by apply IH.
Qed.

(** *** ... and lower case *)

Lemma lower_ascii_facts c :
  Str.is_space (Str.lower_ascii c) = Str.is_space c ∧ (Ascii.eqb (Str.lower_ascii c) "," = Ascii.eqb c ",").
Proof. destruct c as [[] [] [] [] [] [] [] []]; split; reflexivity. Qed.

Lemma lower_strip s : Str.strip (Str.lower s) = Str.lower (Str.strip s).
Proof.
  unfold Str.strip. assert (Str.rstrip (Str.lower s) = Str.lower (Str.rstrip s)) as ->.
  { induction s as [|c s IH]; [done|]. cbn [Str.lower Str.rstrip]. rewrite IH.
    destruct (lower_ascii_facts c) as [-> _]. destruct (Str.rstrip s) as [|c' t]; cbn [Str.lower]; [|done].
    by destruct (Str.is_space c). }
  induction (Str.rstrip s) as [|c t IH]; [done|]. cbn [Str.lower Str.lstrip].
  destruct (lower_ascii_facts c) as [-> _]. by destruct (Str.is_space c).
Qed.

Lemma lower_split s : Str.split_on "," (Str.lower s) = map Str.lower (Str.split_on "," s).
Proof.
  induction s as [|c s IH]; [done|]. cbn [Str.lower Str.split_on]. rewrite IH.
  destruct (lower_ascii_facts c) as [_ He].
  destruct (Ascii.eqb_spec c ",") as [->|Hne]; [by rewrite !decide_True by done|].
  rewrite (decide_False (P := c = ","%char)) by done.
  rewrite decide_False by (intros Hc; by rewrite Hc in He).
  by destruct (Str.split_on "," s).
Qed.
