(* ===== verification/PyDict.v ===== *)
(** * Python's [dict]

  An insertion-ordered dictionary with string keys: the association list of
  its items in iteration order.  Assigning an existing key keeps its place,
  assigning a new one appends it, as [dict] does since Python 3.7. *)
From S2P Require Import Prelude.

Abbreviation dict V := (list (string * V)).

Module Dict.
Section dict.
Context {V : Type}.
Implicit Types (d : dict V) (k : string) (v : V).

(** [d.get(k)] *)
Fixpoint get k d : option V :=
  match d with
  | [] => None
  | (k', v) :: d' => if decide (k = k') then Some v else get k d'
  end.

(** [k in d] *)
Definition mem k d : bool := if get k d then true else false.

(** [d[k] = v] *)
Fixpoint set k v d : dict V :=
  match d with
  | [] => [(k, v)]
  | (k', v') :: d' => if decide (k = k') then (k', v) :: d' else (k', v') :: set k v d'
  end.

(** [d.pop(k, None)] and [del d[k]], without the value. *)
Definition del k d : dict V := filter (λ kv, kv.1 ≠ k) d.

(** [list(d.keys())] and [list(d.values())] *)
Definition keys d : list string := d.*1.
Definition values d : list V := d.*2.

(** [d.update(d')] *)
Definition update d d' : dict V := foldl (λ acc kv, set kv.1 kv.2 acc) d d'.

(** [{k: v for k, v in items}]: a later pair overrides an earlier one. *)
Definition of_items (l : list (string * V)) : dict V := update [] l.

(** The invariant of every Python dict: a key occurs once. *)
Definition wf d : Prop := NoDup (keys d).

Lemma get_set_eq k v d : get k (set k v d) = Some v.
Proof.
  induction d as [|[k' v'] d IH]; simpl; [by rewrite decide_True|].
  case_decide; simpl; [by rewrite decide_True | by rewrite decide_False].
Qed.

Lemma get_set_ne k k' v d : k ≠ k' → get k (set k' v d) = get k d.
Proof.
  intros Hne. induction d as [|[k0 v0] d IH]; simpl; [by rewrite decide_False|].
  case_decide as H1; simpl; repeat case_decide; congruence.
Qed.

Lemma get_set k k' v d : get k (set k' v d) = if decide (k = k') then Some v else get k d.
Proof. case_decide; [subst; apply get_set_eq | by apply get_set_ne]. Qed.

Lemma get_del_eq k d : get k (del k d) = None.
Proof.
  induction d as [|[k' v'] d IH]; [done|]. unfold del in *. rewrite filter_cons; simpl.
  case_decide; simpl; [rewrite decide_False by congruence|]; done.
Qed.

Lemma get_del_ne k k' d : k ≠ k' → get k (del k' d) = get k d.
Proof.
  intros Hne. induction d as [|[k0 v0] d IH]; [done|]. unfold del in *.
  rewrite filter_cons; simpl. repeat case_decide; simpl; repeat case_decide; try done; naive_solver.
Qed.

Lemma get_Some_elem k v d : get k d = Some v → (k, v) ∈ d.
Proof.
  induction d as [|[k' v'] d IH]; simpl; [done|].
  case_decide; intros; simplify_eq; [left | right; auto].
Qed.

Lemma elem_get k v d : wf d → (k, v) ∈ d → get k d = Some v.
Proof.
  unfold wf, keys. induction d as [|[k' v'] d IH]; [by intros ? ?%elem_of_nil|]. simpl.
  intros [Hni Hnd]%NoDup_cons [Heq|Hin]%elem_of_cons; [simplify_eq; by rewrite decide_True|].
  case_decide; [|auto]. subst. destruct Hni. by apply (list_elem_of_fmap_2 fst _ (k', v)).
Qed.

Lemma set_same k v d : get k d = Some v → set k v d = d.
Proof.
  induction d as [|[k' v'] d IH]; simpl; [done|]. case_decide; intros; simplify_eq; [done|].
  f_equal. auto.
Qed.

Lemma get_None k d : get k d = None ↔ k ∉ keys d.
Proof.
  induction d as [|[k' v'] d IH]; [by split; [intros _ ?%elem_of_nil|]|]. unfold keys in *. simpl.
  rewrite not_elem_of_cons. case_decide; naive_solver.
Qed.

Lemma mem_true k d : mem k d = true ↔ k ∈ keys d.
Proof.
  unfold mem. destruct (get k d) as [v|] eqn:E.
  - apply get_Some_elem, (list_elem_of_fmap_2 fst) in E. naive_solver.
  - apply get_None in E. naive_solver.
Qed.

Lemma mem_false k d : mem k d = false ↔ k ∉ keys d.
Proof. rewrite <-mem_true. by destruct (mem k d). Qed.

Lemma mem_false_get k d : mem k d = false → get k d = None.
Proof. unfold mem. by destruct (get k d). Qed.

Lemma elem_of_keys_set k k' v d : k ∈ keys (set k' v d) ↔ k = k' ∨ k ∈ keys d.
Proof.
  rewrite <-!mem_true. unfold mem. rewrite get_set. case_decide; naive_solver.
Qed.

Lemma elem_of_keys_del k k' d : k ∈ keys (del k' d) ↔ k ≠ k' ∧ k ∈ keys d.
Proof.
  rewrite <-!mem_true. unfold mem. destruct (decide (k = k')) as [->|Hne].
  - rewrite get_del_eq. naive_solver.
  - rewrite get_del_ne by done. naive_solver.
Qed.

Lemma wf_nil : wf [].
Proof. apply NoDup_nil_2. Qed.

Lemma wf_set k v d : wf d → wf (set k v d).
Proof.
  unfold wf. induction d as [|[k' v'] d IH]; simpl.
  - intros _. apply NoDup_singleton.
  - intros [Hni Hnd]%NoDup_cons. case_decide; simpl; apply NoDup_cons; split; auto.
  rewrite elem_of_keys_set. naive_solver.
Qed.

Lemma wf_del k d : wf d → wf (del k d).
Proof.
  unfold wf, keys, del. intros Hnd. eapply sublist_NoDup; [exact Hnd|].
  apply fmap_sublist, sublist_filter.
Qed.

Lemma wf_update d d' : wf d → wf (update d d').
Proof.
  revert d. unfold update. induction d' as [|[k v] d' IH]; simpl; auto using wf_set.
Qed.

Lemma wf_of_items l : wf (of_items l).
Proof. apply wf_update, wf_nil. Qed.

Lemma set_absent k v d : k ∉ keys d → set k v d = d ++ [(k, v)].
Proof.
  induction d as [|[k' v'] d IH]; unfold keys in *; simpl; [done|]. rewrite not_elem_of_cons.
  intros [Hne Hni]. rewrite decide_False by done. f_equal. auto.
Qed.

Lemma update_wf d d' : wf (d ++ d') → update d d' = d ++ d'.
Proof.
  unfold wf, update. revert d. induction d' as [|[k v] d' IH]; intros d; simpl.
  - by rewrite app_nil_r.
  - intros Hnd. assert (k ∉ keys d) as Hk.
    { unfold keys in *. rewrite fmap_app in Hnd. apply NoDup_app in Hnd as (_ & Hd & _). simpl in Hd.
      intros Hin. apply (Hd k Hin). left. }
    rewrite set_absent by done. rewrite (IH (d ++ [(k, v)])); rewrite <-app_assoc; done.
Qed.

Lemma of_items_wf d : wf d → of_items d = d.
Proof. apply (update_wf []). Qed.

Lemma elem_of_keys_update k d d' : k ∈ keys (update d d') ↔ k ∈ keys d ∨ k ∈ keys d'.
Proof.
  unfold update. revert d. induction d' as [|[k' v'] d' IH]; intros d; simpl.
  - rewrite elem_of_nil. naive_solver.
  - rewrite IH, elem_of_keys_set. unfold keys. simpl. rewrite elem_of_cons. naive_solver.
Qed.

Lemma Forall_set (P : string * V → Prop) k v d : P (k, v) → Forall P d → Forall P (set k v d).
Proof.
  intros Hp. induction 1 as [|[k' v'] d Hd Hf IH]; simpl; [by repeat constructor|].
  case_decide; [subst|]; by constructor.
Qed.

Lemma Forall_of_items (P : string * V → Prop) l : Forall P l → Forall P (of_items l).
Proof.
  unfold of_items, update. intros Hl. assert (Forall P []) as H0 by constructor. revert H0.
  generalize ([] : dict V). induction Hl as [|[k v] l Hp Hl IH]; intros d Hd; simpl; [done|].
  by apply IH, Forall_set.
Qed.

Lemma get_filter (p : string * V → bool) d k :
  wf d → get k (List.filter p d) = match get k d with
                                   | Some v => if p (k, v) then Some v else None
                                   | None => None
                                   end.
Proof.
  unfold wf, keys. induction d as [|[k' v] d IH]; simpl; [done|].
  intros [Hni Hnd]%NoDup_cons. case_decide as Hk; [subst|].
  - destruct (p (k', v)); simpl; [by rewrite decide_True|]. rewrite IH by done.
    assert (get k' d = None) as -> by (by apply get_None). done.
  - destruct (p (k', v)); simpl; [rewrite decide_False by done|]; auto.
Qed.

(** [d.update({k: v for k in l})] *)
Lemma get_update_const k v (l : list string) d :
  get k (update d (map (λ x, (x, v)) l)) = if decide (k ∈ l) then Some v else get k d.
Proof.
  unfold update. revert d. induction l as [|x l IH]; intros d; [by rewrite decide_False by set_solver|]. simpl.
  rewrite IH, get_set. repeat case_decide; set_solver.
Qed.
End dict.
End Dict.

Create HintDb dict.
#[export] Hint Resolve Dict.wf_nil Dict.wf_set Dict.wf_del Dict.wf_update Dict.wf_of_items : dict.
#[export] Hint Rewrite @Dict.get_set_eq @Dict.get_del_eq @Dict.elem_of_keys_set @Dict.elem_of_keys_del
@Dict.elem_of_keys_update : dict.

(** A literal dictionary has distinct keys. *)
Ltac solve_wf :=
  unfold Dict.wf, Dict.keys; cbn;
  repeat (apply NoDup_cons; split; [rewrite ?elem_of_cons, ?elem_of_nil; naive_solver|]);
  apply NoDup_nil_2.
