(* ===== verification/PyVal.v ===== *)
(** * Dynamic values and exceptions of Python

    [pyval] is a value decoded from JSON or YAML: the data Patroni keeps in the
    DCS and in its configuration.  Fractional numbers do not occur as values of
    this type (the numbers of [patroni.utils] are those of [PyNum]).  [exc] is
    the result of a computation that may raise. *)
From stdpp Require Export pretty.
From S2P Require Import Prelude PyDict.

Inductive pyval :=
  | VNone
  | VBool (b : bool)
  | VInt (z : Z)
  | VStr (s : string)
  | VList (l : list pyval)
  | VDict (d : list (string * pyval)).

(** Induction with hypotheses for the elements of lists and dictionaries. *)
Section pyval_ind'.
Context (P : pyval → Prop).
Context (Hnone : P VNone) (Hbool : ∀ b, P (VBool b)) (Hint : ∀ z, P (VInt z))
  (Hstr : ∀ s, P (VStr s)) (Hlist : ∀ l, Forall P l → P (VList l))
  (Hdict : ∀ d, Forall (λ kv, P kv.2) d → P (VDict d)).

Fixpoint pyval_ind' (v : pyval) : P v :=
  match v with
  | VNone => Hnone
  | VBool b => Hbool b
  | VInt z => Hint z
  | VStr s => Hstr s
  | VList l => Hlist l ((fix go l : Forall P l :=
      match l with
      | [] => Forall_nil_2 P
      | x :: l' => Forall_cons_2 P x l' (pyval_ind' x) (go l')
      end) l)
  | VDict d => Hdict d ((fix go d : Forall (λ kv, P kv.2) d :=
      match d with
      | [] => Forall_nil_2 _
      | (k, x) :: d' => Forall_cons_2 (λ kv, P kv.2) (k, x) d' (pyval_ind' x) (go d')
      end) d)
  end.
End pyval_ind'.

(** Structural equality; Python's [==] on dictionaries ignores the order of the
    keys, see [Utils.deep_compare] for the comparison Patroni uses. *)
Fixpoint pyval_eqb (v w : pyval) {struct v} : bool :=
  match v, w with
  | VNone, VNone => true
  | VBool a, VBool b => Bool.eqb a b
  | VInt a, VInt b => (a =? b)%Z
  | VStr a, VStr b => (a =? b)%string
  | VList a, VList b =>
      (fix go a b := match a, b with
                     | [], [] => true
                     | x :: a, y :: b => pyval_eqb x y && go a b
                     | _, _ => false
                     end) a b
  | VDict a, VDict b =>
      (fix go a b := match a, b with
                     | [], [] => true
                     | (k, x) :: a, (k', y) :: b => (k =? k')%string && pyval_eqb x y && go a b
                     | _, _ => false
                     end) a b
  | _, _ => false
  end.

Lemma pyval_eqb_eq v w : pyval_eqb v w = true ↔ v = w.
Proof.
  revert w. induction v as [|b|z|s|l IH|d IH] using pyval_ind'; intros [|b'|z'|s'|l'|d']; simpl;
    try done.
  - rewrite Bool.eqb_true_iff. naive_solver.
  - rewrite Z.eqb_eq. naive_solver.
  - rewrite String.eqb_eq. naive_solver.
  - revert l'. induction IH as [|x l Hx _ IHl]; intros [|y l']; try done.
    rewrite andb_true_iff, Hx, IHl. naive_solver.
  - revert d'. induction IH as [|[k x] d Hx _ IHd]; intros [|[k' y] d']; try done.
    rewrite !andb_true_iff, String.eqb_eq, (Hx y), IHd. naive_solver.
Qed.

#[export] Instance pyval_eq_dec : EqDecision pyval.
Proof.
  intros v w. destruct (pyval_eqb v w) eqn:E.
  - left. by apply pyval_eqb_eq.
  - right. intros ->. assert (pyval_eqb w w = true) by (by apply pyval_eqb_eq). congruence.
Defined.

(** [bool(v)] *)
Definition truthy (v : pyval) : bool :=
  match v with
  | VNone => false
  | VBool b => b
  | VInt z => negb (z =? 0)%Z
  | VStr s => negb (s =? "")%string
  | VList l => negb (length l =? 0)%nat
  | VDict d => negb (length d =? 0)%nat
  end.

(** [a or b] *)
Definition py_or (a b : pyval) : pyval := if truthy a then a else b.

(** [isinstance(v, dict)], [isinstance(v, str)] as projections. *)
Definition as_dict (v : pyval) : option (dict pyval) :=
  match v with VDict d => Some d | _ => None end.
Definition as_str (v : pyval) : option string :=
  match v with VStr s => Some s | _ => None end.

(** [d.get(k)] and [d.get(k, default)] *)
Definition vget (k : string) (d : dict pyval) : pyval := default VNone (Dict.get k d).
Definition vget_or (k : string) (dflt : pyval) (d : dict pyval) : pyval := default dflt (Dict.get k d).

(** ** [str] and [repr] *)

Definition hex_digit (n : nat) : ascii :=
  ascii_of_nat (if (n <? 10)%nat then 48 + n else 87 + n).

Definition contains (c : ascii) (s : string) : bool :=
  negb (Str.all (λ a, negb (Ascii.eqb a c)) s).

(** The escape of one character in a string literal quoted with [q]. *)
Definition repr_char (q c : ascii) : string :=
  let n := nat_of_ascii c in
  if Ascii.eqb c q || (n =? 92)%nat then String "\" (String c "")
  else if (n =? 10)%nat then "\n"
  else if (n =? 13)%nat then "\r"
  else if (n =? 9)%nat then "\t"
  else if (n <? 32)%nat || (n =? 127)%nat
  then String "\" (String "x" (String (hex_digit (n / 16)) (String (hex_digit (n mod 16)) "")))
  else String c "".

Fixpoint concat_chars (f : ascii → string) (s : string) : string :=
  match s with
  | EmptyString => ""
  | String c s' => f c +:+ concat_chars f s'
  end.

Definition squote : ascii := "'".
Definition dquote : ascii := ascii_of_nat 34.

Definition repr_str (s : string) : string :=
  let q := if contains squote s && negb (contains dquote s) then dquote else squote in
  String q (concat_chars (repr_char q) s +:+ String q "").

Fixpoint repr (v : pyval) : string :=
  match v with
  | VNone => "None"
  | VBool true => "True"
  | VBool false => "False"
  | VInt z => pretty z
  | VStr s => repr_str s
  | VList l => "[" +:+ Str.join ", " (map repr l) +:+ "]"
  | VDict d => "{" +:+ Str.join ", " (map (λ kv, repr_str kv.1 +:+ ": " +:+ repr kv.2) d) +:+ "}"
  end.

(** [str(v)] *)
Definition py_str (v : pyval) : string :=
  match v with VStr s => s | _ => repr v end.

(** ** Exceptions

    [DatabaseError] is [psycopg.Error]; [EtcdException] to [FailedPrecondition] are [etcd.EtcdException] and
    its subclasses; [OtherException] stands for every other subclass of [Exception]; [SystemExit], what
    [sys.exit] raises, is not one. *)

Inductive pyexn :=
  | ValueError | TypeError | KeyError | IndexError | OverflowError
  | ZeroDivisionError | AttributeError | RecursionError | AssertionFailure | QuorumException | DCSError
  | PostgresException | PostgresConnectionException | DatabaseError | OSError | PatroniFatalException | SystemExit
  | WatchdogError | RetryFailedError | ReturnFalseException
  | EtcdException | EtcdConnectionFailed | EtcdClientError | LeaseNotFound | DeadlineExceeded | FailedPrecondition
  | OtherException.

Inductive exc (A : Type) := Ok (a : A) | Raise (e : pyexn).
Arguments Ok {A} a.
Arguments Raise {A} e.

#[export] Instance exc_ret : MRet exc := λ A a, Ok a.
#[export] Instance exc_bind : MBind exc := λ A B f m,
  match m with Ok a => f a | Raise e => Raise e end.
#[export] Instance exc_fmap : FMap exc := λ A B f m,
  match m with Ok a => Ok (f a) | Raise e => Raise e end.

Lemma exc_bind_ok {A B} (m : exc A) (f : A → exc B) b : (m ≫= f) = Ok b → ∃ a, m = Ok a ∧ f a = Ok b.
Proof. destruct m as [a|e]; [|done]. by exists a. Qed.

(** Splits a hypothesis that a bind succeeds. *)
Tactic Notation "exc_inv" hyp(H) "as" ident(a) := apply exc_bind_ok in H as (a & ? & H).

(** [try: m except: h], for the exceptions [p] accepts. *)
Definition catch {A} (p : pyexn → bool) (m h : exc A) : exc A :=
  match m with Raise e => if p e then h else m | Ok a => Ok a end.
