(* ===== verification/Effects.v ===== *)
(** * Computations with a state that may raise

    [eff S] is the monad of the methods that change an object and the world around
    it: a computation takes the state, returns a value or raises, and in both cases
    leaves a state behind.  [sort_by] is the stable sort of [list.sort]. *)
From S2P Require Import Prelude PyVal.

Definition eff (S A : Type) : Type := S → exc A * S.

#[export] Instance eff_ret S : MRet (eff S) := λ A a s, (Ok a, s).
#[export] Instance eff_bind S : MBind (eff S) := λ A B f m s,
  let '(r, s') := m s in match r with Ok a => f a s' | Raise e => (Raise e, s') end.

Section eff.
Context {S : Type}.

Definition gets {A} (f : S → A) : eff S A := λ s, (Ok (f s), s).
Definition puts (f : S → S) : eff S () := λ s, (Ok (), f s).
Definition lift_exc {A} (r : exc A) : eff S A := λ s, (r, s).
Definition eff_when (b : bool) (m : eff S ()) : eff S () := if b then m else mret ().

(** [for x in l: f(x)] *)
Fixpoint for_each {A} (l : list A) (f : A → eff S ()) : eff S () :=
  match l with
  | [] => mret ()
  | x :: l' => f x;; for_each l' f
  end.

(** [try: m except: h] for every exception [p] accepts *)
Definition try_except {A} (p : pyexn → bool) (m h : eff S A) : eff S A := λ s,
  let '(r, s') := m s in
  match r with Raise e => if p e then h s' else (r, s') | Ok _ => (r, s') end.

Lemma eff_bind_ok {A B} (m : eff S A) (f : A → eff S B) s b s' :
  (m ≫= f) s = (Ok b, s') → ∃ a s1, m s = (Ok a, s1) ∧ f a s1 = (Ok b, s').
Proof.
  unfold mbind, eff_bind. destruct (m s) as [[a|e] s1]; [|done]. intros H. by exists a, s1.
Qed.

(** What a loop preserves, whatever the end of a round *)
Lemma for_each_inv {A} (P : S → Prop) (l : list A) f :
  (∀ x s, x ∈ l → P s → P (f x s).2) → ∀ s, P s → P (for_each l f s).2.
Proof.
  induction l as [|x l IH]; intros Hf s Hs; [done|]. cbn [for_each]. unfold mbind, eff_bind.
  pose proof (Hf x s ltac:(constructor) Hs) as H1. destruct (f x s) as [[[]|e] s1]; simpl in *; [|done].
  apply IH; [|done]. intros y s2 Hy. apply Hf. by constructor.
Qed.
End eff.

(** ** Triples

    [triple P m Q R]: run in a state with [P], [m] returns in a state with [Q], or raises in
    one with [R]. *)
Definition triple {S A} (P : S → Prop) (m : eff S A) (Q : A → S → Prop) (R : S → Prop) : Prop :=
  ∀ s, P s → match m s with (Ok a, s') => Q a s' | (Raise _, s') => R s' end.

Section triple.
Context {S : Type}.
Implicit Types (P R : S → Prop).

Lemma triple_ret {A} (a : A) P (Q : A → S → Prop) R : (∀ s, P s → Q a s) → triple P (eff_ret S A a) Q R.
Proof. intros H s Hp. by apply H. Qed.

Lemma triple_bind {A B} P (m : eff S A) (f : A → eff S B) (Q : A → S → Prop) Q' R :
  triple P m Q R → (∀ a, triple (Q a) (f a) Q' R) → triple P (eff_bind S A B f m) Q' R.
Proof.
  intros Hm Hf s Hp. unfold eff_bind. specialize (Hm s Hp). destruct (m s) as [[a|e] s']; [by apply Hf|done].
Qed.

Lemma triple_conseq {A} P (m : eff S A) (Q Q' : A → S → Prop) P' R R' :
  triple P m Q R → (∀ s, P' s → P s) → (∀ a s, Q a s → Q' a s) → (∀ s, R s → R' s) → triple P' m Q' R'.
Proof. intros Hm Hp Hq Hr s Hs. specialize (Hm s (Hp s Hs)). destruct (m s) as [[a|e] s']; auto. Qed.

Lemma triple_gets {A} (f : S → A) P (Q : A → S → Prop) R : (∀ s, P s → Q (f s) s) → triple P (gets f) Q R.
Proof. intros H s Hp. by apply H. Qed.

Lemma triple_lift {A} (r : exc A) P (Q : A → S → Prop) R :
  (∀ a s, r = Ok a → P s → Q a s) → (∀ s, P s → R s) → triple P (lift_exc r) Q R.
Proof. intros H HR s Hp. unfold lift_exc. destruct r as [a|e]; [by apply H|by apply HR]. Qed.

Lemma triple_pure {A} (φ : Prop) P (m : eff S A) Q R : (φ → triple P m Q R) → triple (λ s, φ ∧ P s) m Q R.
Proof. intros H s [Hφ Hp]. by apply H. Qed.
End triple.

(** ** What a computation adds to a log

    [adds P m]: the log, a list of the state whose last entry comes first, grows by entries that satisfy [P]. *)
Section adds.
Context {S E : Type} (log : S → list E).
Implicit Types (P Q : E → Prop).

Definition adds P {A} (m : eff S A) : Prop := ∀ s, ∃ new, log (m s).2 = (new ++ log s)%list ∧ Forall P new.

Lemma adds_bind P {A B} (m : eff S A) (f : A → eff S B) : adds P m → (∀ a, adds P (f a)) → adds P (eff_bind S A B f m).
Proof.
  intros Hm Hf s. unfold eff_bind. destruct (Hm s) as (n1 & H1 & Hn1). destruct (m s) as [[a|e] s1]; [|by exists n1].
  destruct (Hf a s1) as (n2 & H2 & Hn2). exists (n2 ++ n1)%list. rewrite H2. simpl in H1. rewrite H1, app_assoc.
  split; [done|by apply Forall_app].
Qed.

Lemma adds_mono P Q {A} (m : eff S A) : (∀ e, P e → Q e) → adds P m → adds Q m.
Proof. intros HPQ Hm s. destruct (Hm s) as (n & ? & Hn). exists n. split; [done|]. eapply Forall_impl; [exact Hn|done]. Qed.

Lemma adds_keep P {A} (m : eff S A) : (∀ s, log (m s).2 = log s) → adds P m.
Proof. intros H s. exists []. by rewrite H. Qed.

Lemma adds_one P {A} (m : eff S A) e : P e → (∀ s, log (m s).2 = e :: log s) → adds P m.
Proof. intros He H s. exists [e]. rewrite H. by repeat constructor. Qed.

Lemma adds_each P {A} (l : list A) (f : A → eff S ()) : (∀ x, adds P (f x)) → adds P (for_each l f).
Proof. intros Hf. induction l as [|x l IH]; [by apply adds_keep|]. cbn [for_each]. by apply adds_bind. Qed.

Lemma adds_each_in P {A} (l : list A) (f : A → eff S ()) : (∀ x, x ∈ l → adds P (f x)) → adds P (for_each l f).
Proof.
  induction l as [|x l IH]; intros Hf; [by apply adds_keep|]. cbn [for_each].
  apply adds_bind; [apply Hf; constructor|]. intros _. apply IH. intros y Hy. apply Hf. by constructor.
Qed.

(** Where the value that is computed is known *)
Lemma adds_lift_bind P {A B} (r : exc A) (f : A → eff S B) : (∀ a, r = Ok a → adds P (f a)) → adds P (eff_bind S A B f (lift_exc r)).
Proof. intros Hf. destruct r as [a|e]; [exact (Hf a eq_refl)|]. by apply adds_keep. Qed.

Lemma adds_ret_bind P {A B} (a : A) (f : A → eff S B) : adds P (f a) → adds P (eff_bind S A B f (eff_ret S A a)).
Proof. done. Qed.

Lemma adds_gets_bind P {A B} (g : S → A) (f : A → eff S B) : (∀ s, adds P (f (g s))) → adds P (eff_bind S A B f (gets g)).
Proof. intros Hf s. exact (Hf s s). Qed.

Lemma adds_try P {A} p (m h : eff S A) : adds P m → adds P h → adds P (try_except p m h).
Proof.
  intros Hm Hh s. unfold try_except. destruct (Hm s) as (n1 & H1 & Hn1). destruct (m s) as [[a|e] s1]; [by exists n1|].
  destruct (p e); [|by exists n1]. destruct (Hh s1) as (n2 & H2 & Hn2). exists (n2 ++ n1)%list. simpl in H1. rewrite H2, H1, app_assoc.
  split; [done|by apply Forall_app].
Qed.
End adds.

(** The entries of one run *)
Section adds_at.
Context {S E : Type} (log : S → list E) (P : E → Prop).

Definition adds_at {A} (m : eff S A) (s : S) : Prop := ∃ new, log (m s).2 = (new ++ log s)%list ∧ Forall P new.

Lemma adds_at_bind {A B} (m : eff S A) (f : A → eff S B) s :
  adds_at m s → (∀ a s', m s = (Ok a, s') → adds_at (f a) s') → adds_at (eff_bind S A B f m) s.
Proof.
  intros (n1 & H1 & Hn1) Hf. unfold adds_at, eff_bind. destruct (m s) as [[a|e] s1]; [|by exists n1].
  destruct (Hf a s1 eq_refl) as (n2 & H2 & Hn2). exists (n2 ++ n1)%list. rewrite H2. simpl in H1. rewrite H1, app_assoc.
  split; [done|by apply Forall_app].
Qed.

Lemma adds_at_gets {A B} (g : S → A) (f : A → eff S B) s : adds_at (f (g s)) s → adds_at (eff_bind S A B f (gets g)) s.
Proof. done. Qed.

Lemma adds_at_lift {A B} (r : exc A) (f : A → eff S B) s : (∀ a, r = Ok a → adds_at (f a) s) → adds_at (eff_bind S A B f (lift_exc r)) s.
Proof. intros Hf. destruct r as [a|e]; [exact (Hf a eq_refl)|]. by exists []. Qed.

Lemma adds_at_try {A} p (m h : eff S A) s : adds_at m s → (∀ s', adds_at h s') → adds_at (try_except p m h) s.
Proof.
  intros (n1 & H1 & Hn1) Hh. unfold adds_at, try_except. destruct (m s) as [[a|e] s1]; [by exists n1|].
  destruct (p e); [|by exists n1]. destruct (Hh s1) as (n2 & H2 & Hn2). exists (n2 ++ n1)%list. simpl in H1. rewrite H2, H1, app_assoc.
  split; [done|by apply Forall_app].
Qed.
End adds_at.

(** ** What is known of the value that a computation returns *)
Section yields.
Context {S : Type}.

Definition yields {A} (Q : A → Prop) (m : eff S A) : Prop := ∀ s a s', m s = (Ok a, s') → Q a.

Lemma yields_ret {A} (Q : A → Prop) a : Q a → yields Q (eff_ret S A a).
Proof. by intros Hq s a' s' [= <- <-]. Qed.

Lemma yields_lift {A} (Q : A → Prop) r : (∀ a, r = Ok a → Q a) → yields Q (lift_exc r).
Proof. intros Hq s a s'. unfold lift_exc. intros [= ? <-]. by apply Hq. Qed.

Lemma yields_bind {A B} (Q : B → Prop) (m : eff S A) (f : A → eff S B) : (∀ a, yields Q (f a)) → yields Q (eff_bind S A B f m).
Proof. intros Hf s b s'. unfold eff_bind. destruct (m s) as [[a|e] s1]; [by apply Hf|done]. Qed.

Lemma yields_bind_known {A B} (R : A → Prop) (Q : B → Prop) (m : eff S A) (f : A → eff S B) :
  yields R m → (∀ a, R a → yields Q (f a)) → yields Q (eff_bind S A B f m).
Proof. intros Hm Hf s b s'. unfold eff_bind. destruct (m s) as [[a|e] s1] eqn:E; [|done]. apply Hf. by eapply Hm. Qed.

Lemma adds_bind_known {E A B} (log : S → list E) P (R : A → Prop) (m : eff S A) (f : A → eff S B) :
  adds log P m → yields R m → (∀ a, R a → adds log P (f a)) → adds log P (eff_bind S A B f m).
Proof.
  intros Hm Hy Hf s. unfold eff_bind. destruct (Hm s) as (n1 & H1 & Hn1). destruct (m s) as [[a|e] s1] eqn:E1; [|by exists n1].
  destruct (Hf a (Hy _ _ _ E1) s1) as (n2 & H2 & Hn2). exists (n2 ++ n1)%list. rewrite H2. simpl in H1. rewrite H1, app_assoc.
  split; [done|by apply Forall_app].
Qed.
End yields.

(** Splits a hypothesis that a bind succeeds. *)
Ltac eff_inv H :=
  let a := fresh "a" in let s := fresh "s" in let H1 := fresh "Hm" in
  apply eff_bind_ok in H as (a & s & H1 & H).

(** ** Stable sorting *)

Section sort.
Context {A : Type} (leb : A → A → bool).

Fixpoint insert_by (x : A) (l : list A) : list A :=
  match l with
  | [] => [x]
  | y :: l' => if leb x y then x :: l else y :: insert_by x l'
  end.

(** [sorted(l)] by [leb], equal elements in their order *)
Definition sort_by (l : list A) : list A := foldr insert_by [] l.

Lemma insert_by_perm x l : insert_by x l ≡ₚ x :: l.
Proof.
  induction l as [|y l IH]; simpl; [done|]. destruct (leb x y); [done|]. rewrite IH. by constructor.
Qed.

Lemma sort_by_perm l : sort_by l ≡ₚ l.
Proof. induction l as [|x l IH]; simpl; [done|]. by rewrite insert_by_perm, IH. Qed.

Lemma elem_of_sort_by x l : x ∈ sort_by l ↔ x ∈ l.
Proof. by rewrite sort_by_perm. Qed.

Hypothesis leb_total : ∀ x y, leb x y = true ∨ leb y x = true.
Hypothesis leb_trans : ∀ x y z, leb x y = true → leb y z = true → leb x z = true.

Lemma insert_by_sorted x l :
  StronglySorted (λ x y, leb x y = true) l → StronglySorted (λ x y, leb x y = true) (insert_by x l).
Proof.
  induction 1 as [|y l Hs IH Hall]; simpl; [by repeat constructor|].
  destruct (leb x y) eqn:E.
  - constructor; [by constructor|]. constructor; [done|]. eapply Forall_impl; [exact Hall|]. intros z Hz. by eapply leb_trans.
  - constructor; [done|]. rewrite insert_by_perm. constructor; [|done]. by destruct (leb_total x y); [congruence|].
Qed.

Lemma sort_by_sorted l : StronglySorted (λ x y, leb x y = true) (sort_by l).
Proof. induction l as [|x l IH]; simpl; [constructor|]. by apply insert_by_sorted. Qed.
End sort.

(** Sorting by one order what is sorted by another: the second breaks the ties of the first. *)
Lemma sort_by_stable {A} (leb leb' : A → A → bool) l :
  (∀ x y, leb x y = true ∨ leb y x = true) →
  (∀ x y z, leb x y = true → leb y z = true → leb x z = true) →
  StronglySorted (λ x y, leb' x y = true) l →
  StronglySorted (λ x y, leb x y = true ∧ (leb y x = true → leb' x y = true)) (sort_by leb l).
Proof.
  intros Htot Htr. induction 1 as [|x l Hs IH Hall]; simpl; [constructor|].
  assert (Forall (λ y, leb' x y = true) (sort_by leb l)) as Hall' by (by rewrite sort_by_perm).
  clear Hs Hall. induction IH as [|y l' Hs IH Hy]; simpl; [by repeat constructor|].
  apply Forall_cons in Hall' as [Hxy Hall']. destruct (leb x y) eqn:E.
  - constructor; [by constructor|]. constructor; [done|].
    apply Forall_forall. intros z Hz. rewrite Forall_forall in Hy, Hall'. split; [|auto].
    eapply Htr; [exact E|]. by apply Hy.
  - constructor; [auto|]. rewrite insert_by_perm. constructor; [|done].
    destruct (Htot x y) as [|Hyx]; [congruence|]. split; [done|congruence].
Qed.
