(* ===== verification/PyNum.v ===== *)
(** * Numbers of Python

    [num] is an [int] or a [float].  Floats are IEEE 754 binary64 values, with
    the correctly rounded operations of the standard library's [SpecFloat]. *)
From Stdlib Require Import SpecFloat.
From S2P Require Import Prelude PyDict PyVal.

Open Scope Z_scope.

Definition prec : Z := 53.
Definition emax : Z := 1024.

Inductive num := NInt (z : Z) | NFloat (f : spec_float).

(** The binary64 value nearest to an integer: [inf] when it is out of range. *)
Definition float_of_Z (z : Z) : spec_float := binary_normalize prec emax z 0 false.

(** [float(z)] and the implicit conversion of an [int] operand. *)
Definition to_float (n : num) : exc spec_float :=
  match n with
  | NFloat f => Ok f
  | NInt z => match float_of_Z z with
              | S754_infinity _ => Raise OverflowError
              | f => Ok f
              end
  end.

(** An exact (unrounded) integer as an operand of a rounding operation. *)
Definition exact (z : Z) : spec_float :=
  match z with
  | Z0 => S754_zero false
  | Zpos p => S754_finite false p 0
  | Zneg p => S754_finite true p 0
  end.

(** [a / b]: true division; between two [int]s it is correctly rounded. *)
Definition num_div (a b : num) : exc num :=
  match a, b with
  | NInt _, NInt 0 => Raise ZeroDivisionError
  | NInt x, NInt y =>
      match SFdiv prec emax (exact x) (exact y) with
      | S754_infinity _ => Raise OverflowError
      | f => Ok (NFloat f)
      end
  | _, _ =>
      x ← to_float a; y ← to_float b;
      match y with
      | S754_zero _ => Raise ZeroDivisionError
      | _ => Ok (NFloat (SFdiv prec emax x y))
      end
  end.

(** [a * b] *)
Definition num_mul (a b : num) : exc num :=
  match a, b with
  | NInt x, NInt y => Ok (NInt (x * y))
  | _, _ => x ← to_float a; y ← to_float b; Ok (NFloat (SFmul prec emax x y))
  end.

(** [m / 2^k] rounded to the nearest integer, ties to even. *)
Definition round_half_even (m k : Z) : Z :=
  let d := 2 ^ k in
  let q := m / d in
  let r := m mod d in
  match Z.compare (2 * r) d with
  | Lt => q
  | Gt => q + 1
  | Eq => if Z.even q then q else q + 1
  end.

(** [round(n)] *)
Definition num_round (n : num) : exc Z :=
  match n with
  | NInt z => Ok z
  | NFloat (S754_zero _) => Ok 0
  | NFloat (S754_infinity _) => Raise OverflowError
  | NFloat S754_nan => Raise ValueError
  | NFloat (S754_finite s m e) =>
      let a := if 0 <=? e then Zpos m * 2 ^ e else round_half_even (Zpos m) (- e) in
      Ok (if s then - a else a)
  end.

(** [a == b], exact also between an [int] and a [float]. *)
Definition num_eqb (a b : num) : bool :=
  let rat n : option (Z * Z) :=
    match n with
    | NInt z => Some (z, 0)
    | NFloat (S754_zero _) => Some (0, 0)
    | NFloat (S754_finite s m e) => Some (if s then Zneg m else Zpos m, e)
    | NFloat _ => None
    end in
  match rat a, rat b with
  | Some (m1, e1), Some (m2, e2) =>
      let e := Z.min e1 e2 in m1 * 2 ^ (e1 - e) =? m2 * 2 ^ (e2 - e)
  | None, None =>
      match a, b with
      | NFloat (S754_infinity s), NFloat (S754_infinity s') => Bool.eqb s s'
      | _, _ => false
      end
  | _, _ => false
  end.

(** [float(text)] for the decimal [mant * 10^ex] with the given sign: correctly
    rounded. *)
Definition float_of_decimal (neg : bool) (mant ex : Z) : spec_float :=
  let f :=
    if mant =? 0 then S754_zero false
    else if 0 <=? ex then float_of_Z (mant * 10 ^ ex)
    else SFdiv prec emax (exact mant) (exact (10 ^ (- ex))) in
  if neg then SFopp f else f.

Example float_tenth : float_of_decimal false 1 (-1) = S754_finite false 7205759403792794 (-56).
Proof. reflexivity. Qed.

Example round_halves :
  (num_round (NFloat (float_of_decimal false 25 (-1))),
   num_round (NFloat (float_of_decimal true 35 (-1)))) = (Ok 2, Ok (-4)).
Proof. reflexivity. Qed.

Lemma num_round_int z : num_round (NInt z) = Ok z.
Proof. done. Qed.
