(* ===== verification/PgMisc.v ===== *)
(** * Versions and WAL positions ([patroni/postgresql/misc.py])

    The integer form of a server version, WAL positions in the notation of PostgreSQL, and
    the timeline history file. *)
From stdpp Require Import pretty.
From S2P Require Import Prelude Lexing PyVal.

Open Scope string_scope.
Open Scope Z_scope.

(** ** Hexadecimal numbers *)

(** [int(s, 16)]: surrounding white space, a sign, an optional [0x], digits with single
    underscores between them or after the prefix *)
Fixpoint hex_from (acc : Z) (s : string) : option Z :=
  match s with
  | "" => Some acc
  | String c s' =>
      if is_hexdigit c then hex_from (acc * 16 + digit_value c) s'
      else if Ascii.eqb c "_" then
        match s' with
        | String d s'' => if is_hexdigit d then hex_from (acc * 16 + digit_value d) s'' else None
        | "" => None
        end
      else None
  end.

Definition hex_uint (s : string) : option Z :=
  match s with
  | String c _ => if is_hexdigit c then hex_from 0 s else None
  | "" => None
  end.

Definition hex_prefixed (s : string) : option Z :=
  match s with
  | String "0" (String x (String c s')) =>
      if Ascii.eqb x "x" || Ascii.eqb x "X" then hex_uint (if Ascii.eqb c "_" then s' else String c s') else hex_uint s
  | _ => hex_uint s
  end.

Definition int_of_hex (s : string) : option Z :=
  let '(neg, t) := sign (Str.strip s) in
  match hex_prefixed t with Some z => Some (signed neg z) | None => None end.

(** [format(n, 'X')], and [format(n, '08X')] *)
Definition hex_char (d : Z) : ascii := ascii_of_nat (Z.to_nat (if d <? 10 then 48 + d else 55 + d)).

Fixpoint hex_digits (fuel : nat) (n : Z) (acc : string) : string :=
  let acc := String (hex_char (n mod 16)) acc in
  match fuel with
  | O => acc
  | S fuel => if n <? 16 then acc else hex_digits fuel (n / 16) acc
  end.

Definition upper_hex (n : Z) : string := hex_digits (Z.to_nat (Z.log2 n)) n "".

Fixpoint pad (width : nat) (fill : ascii) (s : string) : string :=
  match width with
  | O => s
  | S w => if (S w <=? String.length s)%nat then s else String fill (pad w fill s)
  end.

(** ** Positions *)

(** [format_lsn]; the high half of a negative number is negative. *)
Definition format_lsn (lsn : Z) (full : bool) : string :=
  let hi := Z.shiftr lsn 32 in
  let lo := upper_hex (Z.land lsn 0xFFFFFFFF) in
  (if hi <? 0 then "-" +:+ upper_hex (- hi) else upper_hex hi) +:+ "/" +:+ (if full then pad 8 "0" lo else lo).

(** [parse_lsn] *)
Definition parse_lsn (lsn : string) : exc Z :=
  let need o := match o with Some z => Ok z | None => Raise ValueError end in
  match Str.split_on "/" lsn with
  | hi :: rest =>
      a ← need (int_of_hex hi);
      match rest with
      | lo :: _ => b ← need (int_of_hex lo); mret (a * 0x100000000 + b)
      | [] => Raise IndexError
      end
  | [] => Raise IndexError
  end.

(** One line of [parse_history]: nothing for a line that is not one of three fields *)
Definition parse_history_line (line : string) : option (Z * Z * string) :=
  match Str.split_on (ascii_of_nat 9) (Str.strip line) with
  | [tl; lsn; reason] =>
      match int_of_string tl, parse_lsn lsn with
      | Some t, Ok l => Some (t, l, reason)
      | _, _ => None
      end
  | _ => None
  end.

(** [parse_history] *)
Definition parse_history (data : string) : list (Z * Z * string) :=
  omap parse_history_line (Str.split_on (ascii_of_nat 10) data).

(** ** Versions *)

Fixpoint all_ints (l : list string) : option (list Z) :=
  match l with
  | [] => Some []
  | s :: l' => match int_of_string s, all_ints l' with Some z, Some zs => Some (z :: zs) | _, _ => None end
  end.

(** ['{0:02d}'.format(c)] *)
Definition two_digits (c : Z) : string :=
  if c <? 0 then pretty c else pad 2 "0" (pretty c).

(** [postgres_version_to_int]; the joined components need not be a number again. *)
Definition postgres_version_to_int (pg_version : string) : exc Z :=
  match all_ints (Str.split_on "." pg_version) with
  | None => Raise PostgresException
  | Some components =>
      let n := length components in
      if (n <? 2)%nat || ((n =? 2)%nat && (match components with c :: _ => c <? 10 | [] => false end)) || (3 <? n)%nat
      then Raise PostgresException
      else
        let components := match components with [a; b] => [a; 0; b] | _ => components end in
        match int_of_string (Str.join "" (map two_digits components)) with
        | Some z => Ok z
        | None => Raise ValueError
        end
  end.

(** [postgres_major_version_to_int] *)
Definition postgres_major_version_to_int (pg_version : string) : exc Z := postgres_version_to_int (pg_version +:+ ".0").

(** [get_major_from_minor_version] *)
Definition get_major_from_minor_version (version : Z) : Z := version `div` 100 * 100.

Example misc_examples :
  (postgres_version_to_int "9.5.3", postgres_version_to_int "9.3.13", postgres_version_to_int "10.1",
   postgres_version_to_int "10", postgres_version_to_int "9.6", postgres_version_to_int "a.b.c",
   postgres_major_version_to_int "10", postgres_major_version_to_int "9.6", postgres_version_to_int "10.-1.3",
   parse_lsn "1/D0", format_lsn 0x1000000D0 false, format_lsn 0x1000000D0 true, parse_lsn "1")
  = (Ok 90503, Ok 90313, Ok 100001, Raise PostgresException, Raise PostgresException, Raise PostgresException,
     Ok 100000, Ok 90600, Raise ValueError, Ok 0x1000000D0, "1/D0", "1/000000D0", Raise IndexError).
Proof. vm_compute. reflexivity. Qed.

(** * Positions and versions are read as they were written

    [parse_lsn] inverts [format_lsn]; the integer form of a version orders versions. *)

(** ** Hexadecimal notation *)

(** [s] is a hexadecimal notation of [n], and not empty. *)
Definition hexadecimal (n : Z) (s : string) : Prop :=
  Str.all is_hexdigit s = true ∧ digits_value 16 s = n ∧ s ≠ "".

Lemma hex_char_facts d : 0 ≤ d < 16 → is_hexdigit (hex_char d) = true ∧ digit_value (hex_char d) = d.
Proof.
  intros Hd. assert (∃ k : nat, (k < 16)%nat ∧ d = Z.of_nat k) as (k & Hk & ->) by (exists (Z.to_nat d); lia).
  clear Hd. do 16 (destruct k as [|k]; [by vm_compute|]). lia.
Qed.

Lemma hex_digits_spec fuel n acc : 0 ≤ n < 16 ^ (Z.of_nat fuel + 1) →
  ∃ ds, hexadecimal n ds ∧ hex_digits fuel n acc = ds +:+ acc.
Proof.
  revert n acc. induction fuel as [|fuel IH]; intros n acc Hn.
  - assert (0 ≤ n < 16) as Hn' by (cbn in Hn; lia). cbn [hex_digits]. rewrite Z.mod_small by done.
    destruct (hex_char_facts n Hn') as [H1 H2]. exists (String (hex_char n) ""). split; [|done].
    split_and!; [simpl; by rewrite H1|unfold digits_value; simpl; lia|done].
  - cbn [hex_digits]. destruct (hex_char_facts (n mod 16) ltac:(apply Z.mod_pos_bound; lia)) as [H1 H2].
    destruct (Z.ltb_spec n 16).
    + exists (String (hex_char (n mod 16)) ""). split; [|done].
      split_and!; [simpl; by rewrite H1| |done]. unfold digits_value; simpl. rewrite H2, Z.mod_small; lia.
    + destruct (IH (n / 16) (String (hex_char (n mod 16)) acc)) as (ds & (Ha & Hv & Hne) & Hds).
      { split; [apply Z.div_pos; lia|]. apply Z.div_lt_upper_bound; [lia|].
        rewrite <-Z.pow_succ_r by lia. replace (Z.succ (Z.of_nat fuel + 1)) with (Z.of_nat (S fuel) + 1) by lia. apply Hn. }
      exists (ds +:+ String (hex_char (n mod 16)) ""). split; [split_and!|].
      * rewrite Str.all_app, Ha. simpl. by rewrite H1.
      * rewrite digits_value_app, Hv. unfold digits_value at 1. simpl. rewrite H2.
        pose proof (Z.div_mod n 16 ltac:(done)). lia.
      * by destruct ds.
      * rewrite Hds. by rewrite Str.str_app_assoc.
Qed.

Lemma upper_hex_spec n : 0 ≤ n → hexadecimal n (upper_hex n).
Proof.
  intros Hn. destruct (hex_digits_spec (Z.to_nat (Z.log2 n)) n "") as (ds & Hd & He).
  - split; [done|]. rewrite Z2Nat.id by apply Z.log2_nonneg. destruct (Z.eq_dec n 0) as [->|]; [done|].
    pose proof (Z.log2_spec n ltac:(lia)) as [_ Hlt]. eapply Z.lt_le_trans; [exact Hlt|].
    apply (Z.pow_le_mono_l 2 16). lia.
  - unfold upper_hex. rewrite He, Str.str_app_nil_r. exact Hd.
Qed.

Lemma pad_spec w n s : hexadecimal n s → hexadecimal n (pad w "0" s).
Proof.
  intros H. induction w as [|w IH]; [done|]. cbn [pad]. destruct (_ <=? _)%nat; [done|].
  destruct IH as (Ha & Hv & _). split_and!; [by simpl|by rewrite digits_value_cons|done].
Qed.

Lemma hex_from_digits s acc : Str.all is_hexdigit s = true →
  hex_from acc s = Some (acc * 16 ^ Z.of_nat (String.length s) + digits_value 16 s).
Proof.
  revert acc. induction s as [|c s IH]; intros acc; [intros; simpl; f_equal; unfold digits_value; simpl; lia|].
  cbn [Str.all hex_from String.length]. intros [Hc Hs]%andb_prop. rewrite Hc, IH, digits_value_cons by done.
  rewrite Nat2Z.inj_succ, Z.pow_succ_r by lia. f_equal. ring.
Qed.

Lemma hex_prefixed_digits n s : hexadecimal n s → hex_prefixed s = Some n.
Proof.
  intros (Ha & Hv & Hne).
  assert (hex_uint s = Some n) as Hu.
  { destruct s as [|c s]; [done|]. unfold hex_uint. pose proof Ha as [Hc _]%andb_prop.
    rewrite Hc, hex_from_digits by done. by rewrite Hv. }
  destruct s as [|a [|x [|c s]]]; [done| | |].
  1,2: unfold hex_prefixed; by repeat case_match.
  cbn [Str.all] in Ha. apply andb_prop in Ha as [_ [Hx _]%andb_prop].
  unfold hex_prefixed. rewrite Hu. repeat case_match; try done;
  match goal with H : _ || _ = true |- _ => apply orb_true_iff in H as [?%Ascii.eqb_eq|?%Ascii.eqb_eq] end; by subst.
Qed.

Lemma hexdigit_facts c : is_hexdigit c = true → negb (Str.is_space c) = true ∧ Ascii.eqb c "-" = false ∧
  Ascii.eqb c "+" = false ∧ negb (Ascii.eqb c "/") = true.
Proof. by destruct c as [[] [] [] [] [] [] [] []]; vm_compute. Qed.

Lemma int_of_hex_digits n s (neg : bool) : hexadecimal n s →
  int_of_hex ((if neg then "-" else "") +:+ s) = Some (signed neg n).
Proof.
  intros H. pose proof H as (Ha & _ & Hne). unfold int_of_hex.
  rewrite strip_no_space.
  2: { rewrite Str.all_app, (all_impl _ _ s (λ c Hc, proj1 (hexdigit_facts c Hc)) Ha). by destruct neg. }
  destruct s as [|c s]; [done|]. pose proof Ha as [Hc _]%andb_prop. apply hexdigit_facts in Hc as (_ & H1 & H2 & _).
  assert (sign ((if neg then "-" else "") +:+ String c s) = (neg, String c s)) as ->.
  { destruct neg; [done|]. simpl. by rewrite H1, H2. }
  by rewrite (hex_prefixed_digits n).
Qed.

Lemma hexadecimal_lacks n s : hexadecimal n s → lacks "/" s = true.
Proof. intros (Ha & _). apply (all_impl _ _ s (λ c Hc, proj2 (proj2 (proj2 (hexdigit_facts c Hc)))) Ha). Qed.

(** A position printed by [format_lsn], padded or not, is read back by [parse_lsn], for every
    integer: also one beyond 64 bits or negative. *)
Theorem lsn_roundtrip lsn full : parse_lsn (format_lsn lsn full) = Ok lsn.
Proof.
  unfold format_lsn. set (hi := Z.shiftr lsn 32).
  assert (Z.land lsn 0xFFFFFFFF = lsn mod 2 ^ 32) as -> by (change 0xFFFFFFFF with (Z.ones 32); by rewrite Z.land_ones).
  assert (hexadecimal (lsn mod 2 ^ 32) (if full then pad 8 "0" (upper_hex (lsn mod 2 ^ 32)) else upper_hex (lsn mod 2 ^ 32))) as Hlo.
  { pose proof (upper_hex_spec (lsn mod 2 ^ 32) ltac:(apply Z.mod_pos_bound; lia)). destruct full; [by apply pad_spec|done]. }
  set (lo := if full then _ else _) in *.
  assert (∃ (neg : bool) s, hexadecimal (Z.abs hi) s ∧ signed neg (Z.abs hi) = hi ∧
    (if hi <? 0 then "-" +:+ upper_hex (- hi) else upper_hex hi) = (if neg then "-" else "") +:+ s) as (neg & s & Hs & Hsg & ->).
  { destruct (Z.ltb_spec hi 0).
    - exists true, (upper_hex (- hi)). replace (Z.abs hi) with (- hi) by lia. split_and!; [apply upper_hex_spec; lia|simpl; lia|done].
    - exists false, (upper_hex hi). replace (Z.abs hi) with hi by lia. split_and!; [apply upper_hex_spec; lia|done|done]. }
  unfold parse_lsn.
  assert (Str.split_on "/" (((if neg then "-" else "") +:+ s) +:+ "/" +:+ lo) = [(if neg then "-" else "") +:+ s; lo]) as ->.
  { change ("/" +:+ lo) with (String "/" lo). rewrite split_on_app, split_on_lacks; [done|by eapply hexadecimal_lacks|].
    unfold lacks. rewrite Str.all_app. fold (lacks "/" s). rewrite (hexadecimal_lacks _ _ Hs). by destruct neg. }
  assert (int_of_hex lo = Some (lsn mod 2 ^ 32)) as Hl by exact (int_of_hex_digits _ _ false Hlo).
  rewrite (int_of_hex_digits _ _ _ Hs), Hsg. cbn [mbind exc_bind]. rewrite Hl. cbn. f_equal.
  unfold hi. rewrite Z.shiftr_div_pow2 by lia. pose proof (Z.div_mod lsn (2 ^ 32) ltac:(done)). lia.
Qed.

(** ** Versions *)

(** The text of a version *)
Definition version_text (v : list Z) : string := Str.join "." (map pretty v).

Lemma all_ints_text v : Forall (λ z, 0 ≤ z) v → v ≠ [] → all_ints (Str.split_on "." (version_text v)) = Some v.
Proof.
  intros Hv Hne. unfold version_text. rewrite split_join.
  - clear Hne. induction Hv as [|z v Hz Hv IH]; [done|]. cbn [map all_ints]. by rewrite int_of_string_pretty, IH.
  - by destruct v.
  - apply Forall_map. eapply Forall_impl; [exact Hv|]. intros z Hz. destruct (pretty_digits z Hz) as (Ha & _).
    refine (all_impl _ _ _ _ Ha). intros c Hc. by destruct c as [[] [] [] [] [] [] [] []]; vm_compute in Hc |- *.
Qed.

Lemma int_of_string_digits s : Str.all is_digit s = true → s ≠ "" → int_of_string s = Some (digits_value 10 s).
Proof.
  intros Ha Hne. unfold int_of_string. rewrite strip_no_space by exact (all_impl _ _ s digit_not_space Ha).
  destruct s as [|c s]; [done|]. cbn [Str.all] in Ha. pose proof Ha as [Hc _]%andb_prop.
  assert (sign (String c s) = (false, String c s)) as ->.
  { unfold is_digit in Hc. simpl. destruct (Ascii.eqb_spec c "-") as [->|]; [done|]. by destruct (Ascii.eqb_spec c "+") as [->|]. }
  unfold uint. by rewrite Hc, uint_from_digits.
Qed.

Lemma pad_digits w n s : Str.all is_digit s = true ∧ digits_value 10 s = n ∧ s ≠ "" →
  Str.all is_digit (pad w "0" s) = true ∧ digits_value 10 (pad w "0" s) = n ∧ pad w "0" s ≠ "".
Proof.
  intros H. induction w as [|w IH]; [done|]. cbn [pad]. destruct (_ <=? _)%nat; [done|].
  destruct IH as (Ha & Hv & _). split_and!; [by simpl|by rewrite digits_value_cons|done].
Qed.

Lemma two_digits_spec z : 0 ≤ z → Str.all is_digit (two_digits z) = true ∧ digits_value 10 (two_digits z) = z ∧ two_digits z ≠ "".
Proof.
  intros Hz. unfold two_digits. destruct (Z.ltb_spec z 0); [lia|]. by apply pad_digits, pretty_digits.
Qed.

Lemma two_digits_length z : 0 ≤ z < 100 → String.length (two_digits z) = 2%nat.
Proof.
  intros Hz. assert (∃ k : nat, (k < 100)%nat ∧ z = Z.of_nat k) as (k & Hk & ->) by (exists (Z.to_nat z); lia).
  clear Hz. assert (Forall (λ k, String.length (two_digits (Z.of_nat k)) = 2%nat) (seq 0 100)) as Hall.
  { apply (bool_decide_unpack _). vm_compute. done. }
  rewrite Forall_forall in Hall. apply Hall, elem_of_seq. lia.
Qed.

Lemma join_three a b c : 0 ≤ a → 0 ≤ b < 100 → 0 ≤ c < 100 →
  int_of_string (Str.join "" (map two_digits [a; b; c])) = Some (a * 10000 + b * 100 + c).
Proof.
  intros Ha Hb Hc. change (Str.join "" (map two_digits [a; b; c])) with (two_digits a +:+ two_digits b +:+ two_digits c).
  destruct (two_digits_spec a Ha) as (A1 & A2 & A3), (two_digits_spec b (proj1 Hb)) as (B1 & B2 & B3),
    (two_digits_spec c (proj1 Hc)) as (C1 & C2 & C3).
  rewrite int_of_string_digits.
  - rewrite !digits_value_app, A2, B2, C2, !Str.str_length_app, !two_digits_length by done. f_equal. lia.
  - by rewrite !Str.all_app, A1, B1, C1.
  - by destruct (two_digits a).
Qed.

(** While the components after the first are below 100, the integer of a version is that
    of its base-100 digits, so that integers compare as versions do; a version of two
    components stands for one with a zero between them, and its major version is what
    [postgres_major_version_to_int] makes of the first component. *)
Theorem version_number a b c : 0 ≤ a → 0 ≤ b < 100 → 0 ≤ c < 100 →
  postgres_version_to_int (version_text [a; b; c]) = Ok (a * 10000 + b * 100 + c) ∧
  (10 ≤ a → postgres_version_to_int (version_text [a; c]) = Ok (a * 10000 + c) ∧
            postgres_major_version_to_int (pretty a) = Ok (get_major_from_minor_version (a * 10000 + c))) ∧
  (a < 10 → postgres_version_to_int (version_text [a; c]) = Raise PostgresException).
Proof.
  intros Ha Hb Hc.
  assert (∀ x, 10 ≤ a → 0 ≤ x < 100 → postgres_version_to_int (version_text [a; x]) = Ok (a * 10000 + x)) as H2.
  { intros x Ha' Hx. unfold postgres_version_to_int. rewrite all_ints_text; [|repeat constructor; lia|done].
    cbn [length Nat.ltb Nat.leb Nat.eqb orb andb]. destruct (Z.ltb_spec a 10); [lia|].
    rewrite join_three by lia. f_equal. lia. }
  split_and!.
  - unfold postgres_version_to_int. rewrite all_ints_text; [|repeat constructor; lia|done]. simpl length. cbn [Nat.ltb Nat.leb Nat.eqb orb andb].
    by rewrite join_three.
  - intros Ha'. split; [by apply H2|]. unfold postgres_major_version_to_int.
    change (pretty a +:+ ".0") with (version_text [a; 0]). rewrite H2 by lia. unfold get_major_from_minor_version. f_equal.
    replace (a * 10000 + c) with (c + (a * 100) * 100) by lia. rewrite Z.div_add, (Z.div_small c) by lia. lia.
  - intros Ha'. unfold postgres_version_to_int. rewrite all_ints_text; [|repeat constructor; lia|done].
    cbn [length Nat.ltb Nat.leb Nat.eqb orb andb]. by destruct (Z.ltb_spec a 10); [|lia].
Qed.

Lemma version_number_witness : postgres_version_to_int (version_text [9; 6; 24]) = Ok 90624.
Proof. apply (version_number 9 6 24); lia. Defined.
