(* ===== verification/Json.v ===== *)
(** * JSON texts

    The values Patroni keeps in the DCS are JSON documents.  [Json] is the
    interface the components use: [json.dumps(v, separators=(',', ':'))],
    [json.loads(s)] and the round trip between them.  The instance is the
    [json] module on the values of [PyVal]: texts whose numbers are integers and
    whose characters are below U+0100; on any other text [loads] is [ValueError],
    as it is on a malformed one. *)
From S2P Require Import Prelude Lexing PyDict PyVal.

Open Scope string_scope.

(** Python values that are JSON documents: every key of a dictionary occurs once. *)
Fixpoint json_wf (v : pyval) : Prop :=
  match v with
  | VList l => foldr (λ x P, json_wf x ∧ P) True l
  | VDict d => Dict.wf d ∧ foldr (λ kv P, json_wf kv.2 ∧ P) True d
  | _ => True
  end.

Class Json := {
  dumps : pyval → string;
  loads : string → exc pyval;
  loads_dumps : ∀ v, json_wf v → loads (dumps v) = Ok v;
  loads_error : ∀ s e, loads s = Raise e → e = ValueError;
  loads_empty : loads "" = Raise ValueError;
}.

Module JsonText.

(** ** [json.dumps], with [ensure_ascii] *)
Definition escape (c : ascii) : string :=
  let n := nat_of_ascii c in
  if Ascii.eqb c dquote then String "\" (String dquote "")
  else if (n =? 92)%nat then "\\"
  else if (n =? 8)%nat then "\b"
  else if (n =? 9)%nat then "\t"
  else if (n =? 10)%nat then "\n"
  else if (n =? 12)%nat then "\f"
  else if (n =? 13)%nat then "\r"
  else if (n <? 32)%nat || (126 <? n)%nat
  then "\u00" +:+ String (hex_digit (n / 16)) (String (hex_digit (n mod 16)) "")
  else String c "".

Definition quote (s : string) : string :=
  String dquote (concat_chars escape s +:+ String dquote "").

Fixpoint dumps (v : pyval) : string :=
  match v with
  | VNone => "null"
  | VBool true => "true"
  | VBool false => "false"
  | VInt z => pretty z
  | VStr s => quote s
  | VList l => "[" +:+ Str.join "," (map dumps l) +:+ "]"
  | VDict d => "{" +:+ Str.join "," (map (λ kv, quote kv.1 +:+ ":" +:+ dumps kv.2) d) +:+ "}"
  end.

(** ** [json.loads] *)
Definition is_ws (c : ascii) : bool :=
  let n := nat_of_ascii c in (n =? 32)%nat || (n =? 9)%nat || (n =? 10)%nat || (n =? 13)%nat.

Fixpoint skip_ws (s : string) : string :=
  match s with
  | "" => ""
  | String c s' => if is_ws c then skip_ws s' else s
  end.

(** The text after the character [a], when it starts with it. *)
Definition expect (a : ascii) (s : string) : option string :=
  match s with String c r => if Ascii.eqb c a then Some r else None | "" => None end.

(** The code point of [\uXXXX], below U+0100. *)
Definition code_point (a b c d : ascii) : option ascii :=
  if is_hexdigit c && is_hexdigit d && Ascii.eqb a "0" && Ascii.eqb b "0"
  then Some (ascii_of_nat (Z.to_nat (digit_value c * 16 + digit_value d))) else None.

Definition push (c : ascii) (r : option (string * string)) : option (string * string) :=
  match r with Some (t, rest) => Some (String c t, rest) | None => None end.

(** The rest of a string literal after its opening quote. *)
Fixpoint literal (s : string) : option (string * string) :=
  match s with
  | "" => None
  | String c r =>
      if Ascii.eqb c dquote then Some ("", r)
      else if Ascii.eqb c "\" then
        match r with
        | String e r' =>
            if Ascii.eqb e "u" then
              match r' with
              | String h1 (String h2 (String h3 (String h4 r''))) =>
                  match code_point h1 h2 h3 h4 with
                  | Some c' => push c' (literal r'')
                  | None => None
                  end
              | _ => None
              end
            else
              match nat_of_ascii e with
              | 34 | 92 | 47 => push e (literal r')
              | 98 => push (ascii_of_nat 8) (literal r')
              | 116 => push (ascii_of_nat 9) (literal r')
              | 110 => push (ascii_of_nat 10) (literal r')
              | 102 => push (ascii_of_nat 12) (literal r')
              | 114 => push (ascii_of_nat 13) (literal r')
              | _ => None
              end
        | "" => None
        end
      else if (nat_of_ascii c <? 32)%nat then None
      else push c (literal r)
  end.

(** What may not follow an integer: the rest of a float. *)
Definition float_part (c : ascii) : bool :=
  Ascii.eqb c "." || Ascii.eqb c "e" || Ascii.eqb c "E".

Definition integer (s : string) : option (Z * string) :=
  let '(neg, s) := match expect "-" s with Some s' => (true, s') | None => (false, s) end in
  match s with
  | String c r =>
      if Ascii.eqb c "0" then (if stops float_part r then Some (0%Z, r) else None)
      else if is_digit c then
        let '(ds, r) := span is_digit s in
        if stops float_part r
        then Some (if neg then (- digits_value 10 ds)%Z else digits_value 10 ds, r) else None
      else None
  | "" => None
  end.

(** The text after the prefix [w]. *)
Fixpoint drop_prefix (w s : string) : option string :=
  match w with
  | "" => Some s
  | String c w' => match expect c s with Some s' => drop_prefix w' s' | None => None end
  end.

Definition keyword (w : string) (v : pyval) (s : string) : option (pyval * string) :=
  match drop_prefix w s with Some r => Some (v, r) | None => None end.

Fixpoint value (fuel : nat) (s : string) : option (pyval * string) :=
  match fuel with
  | O => None
  | S f =>
      match s with
      | "" => None
      | String c r =>
          if Ascii.eqb c dquote then '(t, r') ← literal r; Some (VStr t, r')
          else if Ascii.eqb c "[" then
            match expect "]" (skip_ws r) with
            | Some r' => Some (VList [], r')
            | None => '(l, r') ← elements f (skip_ws r); Some (VList l, r')
            end
          else if Ascii.eqb c "{" then
            match expect "}" (skip_ws r) with
            | Some r' => Some (VDict [], r')
            | None => '(d, r') ← members f (skip_ws r); Some (VDict (Dict.of_items d), r')
            end
          else if Ascii.eqb c "n" then keyword "null" VNone s
          else if Ascii.eqb c "t" then keyword "true" (VBool true) s
          else if Ascii.eqb c "f" then keyword "false" (VBool false) s
          else '(z, r') ← integer s; Some (VInt z, r')
      end
  end
with elements (fuel : nat) (s : string) : option (list pyval * string) :=
  match fuel with
  | O => None
  | S f =>
      '(v, r) ← value f s;
      match expect "," (skip_ws r) with
      | Some r' => '(l, r') ← elements f (skip_ws r'); Some (v :: l, r')
      | None => r' ← expect "]" (skip_ws r); Some ([v], r')
      end
  end
with members (fuel : nat) (s : string) : option (list (string * pyval) * string) :=
  match fuel with
  | O => None
  | S f =>
      r ← expect dquote s;
      '(k, r) ← literal r;
      r ← expect ":" (skip_ws r);
      '(v, r) ← value f (skip_ws r);
      match expect "," (skip_ws r) with
      | Some r' => '(d, r') ← members f (skip_ws r'); Some ((k, v) :: d, r')
      | None => r' ← expect "}" (skip_ws r); Some ([(k, v)], r')
      end
  end.

Definition loads (s : string) : exc pyval :=
  match value (S (String.length s)) (skip_ws s) with
  | Some (v, r) => if (skip_ws r =? "")%string then Ok v else Raise ValueError
  | None => Raise ValueError
  end.

(** ** The round trip *)

Lemma literal_escape c s : literal (escape c +:+ s) = push c (literal s).
Proof. by destruct c as [[] [] [] [] [] [] [] []]. Qed.

Lemma literal_quote s rest : literal (concat_chars escape s +:+ String dquote rest) = Some (s, rest).
Proof.
  induction s as [|c s IH]; [done|]. cbn [concat_chars].
  by rewrite Str.str_app_assoc, literal_escape, IH.
Qed.

(** A text that begins a value. *)
Definition starts (s : string) : bool :=
  match s with
  | String c _ => negb (is_ws c) && negb (Ascii.eqb c "]") && negb (Ascii.eqb c "}")
  | "" => false
  end.

Lemma starts_app s r : starts s = true → starts (s +:+ r) = true.
Proof. by destruct s. Qed.

Lemma skip_ws_starts s : starts s = true → skip_ws s = s.
Proof. destruct s as [|c s]; [done|]. simpl. by destruct (is_ws c). Qed.

Lemma expect_starts s : starts s = true → expect "]" s = None ∧ expect "}" s = None.
Proof.
  destruct s as [|c s]; [done|]. simpl. destruct (is_ws c), (Ascii.eqb c "]"), (Ascii.eqb c "}"); done.
Qed.

Definition follows (s : string) : bool := stops is_digit s && stops float_part s.

Lemma digit_start c : is_digit c = true →
  is_ws c = false ∧ Ascii.eqb c "]" = false ∧ Ascii.eqb c "}" = false ∧ Ascii.eqb c "-" = false ∧
  Ascii.eqb c dquote = false ∧ Ascii.eqb c "[" = false ∧ Ascii.eqb c "{" = false ∧
  Ascii.eqb c "n" = false ∧ Ascii.eqb c "t" = false ∧ Ascii.eqb c "f" = false.
Proof. destruct c as [[] [] [] [] [] [] [] []]; by vm_compute. Qed.

Lemma integer_decimal (neg : bool) p s rest : decimal (Zpos p) s → follows rest = true →
  integer ((if neg then "-" else "") +:+ s +:+ rest) = Some (if neg then Zneg p else Zpos p, rest).
Proof.
  intros (Ha & Hv & Hh) [H1 H2]%andb_prop. destruct s as [|c s]; [done|].
  unfold nonzero_digit in Hh. apply andb_prop in Hh as [Hd Hz]. apply negb_true_iff in Hz.
  destruct (digit_start c Hd) as (_ & _ & _ & Hm & _).
  assert (match expect "-" ((if neg then "-" else "") +:+ String c s +:+ rest) with
          | Some s' => (true, s') | None => (false, (if neg then "-" else "") +:+ String c s +:+ rest) end
          = (neg, String c s +:+ rest)) as Hs.
  { destruct neg; [done|]. simpl. by rewrite Hm. }
  unfold integer. rewrite Hs. rewrite Str.str_app_cons. cbv iota beta. rewrite Hz, Hd.
  rewrite <-Str.str_app_cons, span_app, H2, Hv by done. by destruct neg.
Qed.

Lemma starts_dumps v : starts (dumps v) = true.
Proof.
  destruct v as [|[]|[|p|p]| | |]; try done.
  cbn [dumps]. change (pretty (Zpos p)) with (pretty p).
  destruct (pretty_pos_decimal p) as (Ha & _ & Hh). destruct (pretty p) as [|c s]; [done|].
  cbn [Str.all] in Ha. apply andb_prop in Ha as [Hd _]. unfold starts.
  by destruct (digit_start c Hd) as (-> & -> & -> & _).
Qed.

Definition value_ok (v : pyval) : Prop := ∀ f rest,
  (String.length (dumps v) < f)%nat → follows rest = true → value f (dumps v +:+ rest) = Some (v, rest).

Lemma value_integer (c : ascii) s f r :
  is_digit c = true ∨ c = "-"%char → integer (String c s) = Some r →
  value (S f) (String c s) = Some (VInt r.1, r.2).
Proof.
  intros Hc Hi. cbn [value]. destruct r as [z r].
  destruct Hc as [Hd| ->]; [|by rewrite Hi].
  destruct (digit_start c Hd) as (_ & _ & _ & _ & -> & -> & -> & -> & -> & ->). by rewrite Hi.
Qed.

Lemma value_int z : value_ok (VInt z).
Proof.
  intros [|f] rest Hf Hr; [lia|]. cbn [dumps].
  destruct z as [|p|p].
  - apply andb_prop in Hr as [_ Hr]. apply (value_integer _ _ _ (0%Z, rest)); [by left|].
    cbn. by rewrite Hr.
  - pose proof (pretty_pos_decimal p) as Hd. change (pretty (Zpos p)) with (pretty p).
    pose proof (integer_decimal false p _ rest Hd Hr) as Hi. simpl in Hi.
    destruct Hd as (Ha & _ & Hh). destruct (pretty p) as [|c s]; [done|].
    apply (value_integer _ _ _ (Zpos p, rest)); [|done]. left. by apply andb_prop in Ha as [? _].
  - pose proof (integer_decimal true p _ rest (pretty_pos_decimal p) Hr) as Hi.
    apply (value_integer _ _ _ (Zneg p, rest)); [by right|done].
Qed.

Lemma value_str s : value_ok (VStr s).
Proof.
  intros [|f] rest Hf Hr; [lia|]. cbn [dumps]. unfold quote. rewrite Str.str_app_cons. cbn [value].
  rewrite Ascii.eqb_refl, Str.str_app_assoc, Str.str_app_cons. by rewrite literal_quote.
Qed.

Lemma skip_ws_nows c s : is_ws c = false → skip_ws (String c s) = String c s.
Proof. simpl. by intros ->. Qed.

Lemma expect_eq c s : expect c (String c s) = Some s.
Proof. unfold expect. by rewrite Ascii.eqb_refl. Qed.

Lemma elements_dumps x l : Forall value_ok (x :: l) → ∀ f rest,
  (String.length (Str.join "," (map dumps (x :: l))) + 1 < f)%nat →
  elements f (Str.join "," (map dumps (x :: l)) +:+ String "]" rest) = Some (x :: l, rest).
Proof.
  revert x. induction l as [|y l IH]; intros x [Hx Hl]%Forall_cons [|f] rest Hf; try lia.
  - cbn [map Str.join elements] in *. by rewrite Hx by (done || lia).
  - assert (map dumps (x :: y :: l) = dumps x :: dumps y :: map dumps l) as He by done.
    rewrite He, Str.join_cons, !Str.str_length_app in Hf. rewrite He, Str.join_cons, !Str.str_app_assoc.
    change (dumps y :: map dumps l) with (map dumps (y :: l)) in *.
    cbn [elements]. rewrite Hx; [|lia|done]. cbn [mbind option_bind].
    rewrite Str.str_app_single, skip_ws_nows, expect_eq, skip_ws_starts.
    + rewrite IH; [done..|]. simpl in *. lia.
    + apply starts_app. destruct l; [apply starts_dumps|]. apply starts_app, starts_dumps.
    + done.
Qed.

Definition member_text (kv : string * pyval) : string := quote kv.1 +:+ ":" +:+ dumps kv.2.

Lemma member_text_app k v s :
  member_text (k, v) +:+ s = String dquote (concat_chars escape k +:+ String dquote (String ":" (dumps v +:+ s))).
Proof. unfold member_text, quote. simpl fst; simpl snd. by rewrite !Str.str_app_assoc, Str.str_app_cons, !Str.str_app_assoc. Qed.

(** One member of an object: its key, the colon and its value. *)
Lemma member_dumps f k v rest : value_ok v → (String.length (dumps v) < f)%nat → follows rest = true →
  members (S f) (member_text (k, v) +:+ rest) =
  match expect "," (skip_ws rest) with
  | Some r => '(d, r) ← members f (skip_ws r); Some ((k, v) :: d, r)
  | None => r ← expect "}" (skip_ws rest); Some ([(k, v)], r)
  end.
Proof.
  intros Hv Hf Hr. rewrite member_text_app. cbn [members]. rewrite expect_eq. cbn [mbind option_bind].
  rewrite literal_quote. cbn [mbind option_bind].
  rewrite skip_ws_nows, expect_eq by done. cbn [mbind option_bind].
  rewrite skip_ws_starts by (apply starts_app, starts_dumps). by rewrite Hv.
Qed.

Lemma members_dumps x l : Forall (λ kv, value_ok kv.2) (x :: l) → ∀ f rest,
  (String.length (Str.join "," (map member_text (x :: l))) + 1 < f)%nat →
  members f (Str.join "," (map member_text (x :: l)) +:+ String "}" rest) = Some (x :: l, rest).
Proof.
  assert (∀ kv, String.length (dumps kv.2) ≤ String.length (member_text kv))%nat as Hlen.
  { intros [k v]. unfold member_text. rewrite !Str.str_length_app. simpl. lia. }
  revert x. induction l as [|y l IH]; intros [k v] [Hx Hl]%Forall_cons [|f] rest Hf; try lia;
    pose proof (Hlen (k, v)); simpl fst in *; simpl snd in *.
  - cbn [map Str.join] in *. by rewrite member_dumps by (done || lia).
  - assert (map member_text ((k, v) :: y :: l) = member_text (k, v) :: member_text y :: map member_text l) as He by done.
    rewrite He, Str.join_cons, !Str.str_length_app in Hf. rewrite He, Str.join_cons, !Str.str_app_assoc.
    change (member_text y :: map member_text l) with (map member_text (y :: l)) in *.
    rewrite member_dumps; [|done|lia|done].
    rewrite Str.str_app_single, skip_ws_nows, expect_eq, skip_ws_starts.
    + rewrite IH; [done..|]. simpl in *. lia.
    + apply starts_app. destruct y, l; reflexivity.
    + done.
Qed.

Lemma value_dumps v : json_wf v → value_ok v.
Proof.
  induction v as [| b|z|s|l IH|d IH] using pyval_ind'; intros Hwf; [| |apply value_int|apply value_str| |].
  - intros [|f] rest Hf Hr; [lia|]. done.
  - intros [|f] rest Hf Hr; [lia|]. by destruct b.
  - assert (Forall value_ok l) as Hall.
    { clear -IH Hwf. induction IH; simpl in *; constructor; naive_solver. }
    intros [|f] rest Hf Hr; [lia|]. destruct l as [|x l]; [done|].
    cbn [dumps] in *. rewrite !Str.str_length_app in Hf. rewrite !Str.str_app_assoc, !Str.str_app_single.
    assert (starts (Str.join "," (map dumps (x :: l)) +:+ String "]" rest) = true) as Hs.
    { apply starts_app. destruct l; [apply starts_dumps|]. apply starts_app, starts_dumps. }
    unfold value; fold value elements members. simpl Ascii.eqb. cbv iota.
    rewrite skip_ws_starts, (proj1 (expect_starts _ Hs)) by done.
    rewrite elements_dumps; [done|done|]. simpl String.length in Hf at 1 3. lia.
  - destruct Hwf as [Hw Hvs]. assert (Forall (λ kv, value_ok kv.2) d) as Hall.
    { clear -IH Hvs. induction IH; simpl in *; constructor; naive_solver. }
    intros [|f] rest Hf Hr; [lia|]. destruct d as [|x d]; [done|].
    cbn [dumps] in *. fold member_text in *. change (map _ (x :: d)) with (map member_text (x :: d)) in *.
    rewrite !Str.str_length_app in Hf. rewrite !Str.str_app_assoc, !Str.str_app_single.
    assert (starts (Str.join "," (map member_text (x :: d)) +:+ String "}" rest) = true) as Hs.
    { apply starts_app. destruct x, d; reflexivity. }
    unfold value; fold value elements members. simpl Ascii.eqb. cbv iota.
    rewrite skip_ws_starts, (proj2 (expect_starts _ Hs)) by done.
    rewrite members_dumps; [|done|simpl String.length in Hf at 1 3; lia].
    simpl. by rewrite Dict.of_items_wf.
Qed.

Lemma loads_dumps v : json_wf v → loads (dumps v) = Ok v.
Proof.
  intros Hwf. unfold loads. rewrite skip_ws_starts by apply starts_dumps.
  pose proof (value_dumps v Hwf (S (String.length (dumps v))) "") as H.
  rewrite Str.str_app_nil_r in H. by rewrite H by (done || lia).
Qed.

Lemma loads_error s e : loads s = Raise e → e = ValueError.
Proof. unfold loads. repeat case_match; congruence. Qed.

End JsonText.

#[export] Instance json_text : Json := {
  dumps := JsonText.dumps;
  loads := JsonText.loads;
  loads_dumps := JsonText.loads_dumps;
  loads_error := JsonText.loads_error;
  loads_empty := eq_refl;
}.

Lemma dumps_nonempty `{!Json} v : json_wf v → truthy (VStr (dumps v)) = true.
Proof.
  intros Hwf. destruct (dumps v) as [|c s] eqn:E; [|done]. pose proof (loads_dumps v Hwf) as Hl.
  by rewrite E, loads_empty in Hl.
Qed.
