(* ===== verification/Collections.v ===== *)
(** * Case-insensitive collections ([patroni/collections.py])

    [CISet] models [CaseInsensitiveSet]: [_values] maps the lower-cased value to
    the value with the case it was last added with.  [CIDict] models
    [CaseInsensitiveDict], whose [_values] maps the lower-cased key to the pair
    of the original key and the value.

    The operators of [CaseInsensitiveSet] come from [collections.abc.MutableSet],
    which builds the result with the constructor from an iteration over the
    operands: the definitions below follow those mixins, iteration order
    included ([a & b] iterates over [b], so it keeps the case of [b]).

    [CISet.elems] is the set a [CISet] denotes (lower-cased names); two sets with
    the same denotation are equal for Python's [==], written [a ≡ b]. *)
From S2P Require Import Prelude PyDict.

Module CISet.

Record t := Mk { values_ : dict string }.

(** [add] *)
Definition add (v : string) (s : t) : t := Mk (Dict.set (Str.lower v) v (values_ s)).

(** [__init__] and [_from_iterable] *)
Definition of_list (l : list string) : t := foldl (λ s v, add v s) (Mk []) l.

Definition empty : t := of_list [].

(** [__iter__] *)
Definition to_list (s : t) : list string := Dict.values (values_ s).

(** [__contains__] on a string *)
Definition mem (v : string) (s : t) : bool := Dict.mem (Str.lower v) (values_ s).

(** [__len__] *)
Definition len (s : t) : nat := length (values_ s).

(** [bool(s)], through [__len__] *)
Definition truthy (s : t) : bool := negb (len s =? 0)%nat.

(** [discard] *)
Definition discard (v : string) (s : t) : t := Mk (Dict.del (Str.lower v) (values_ s)).

(** [__le__], hence [issubset]; [__lt__]; [__eq__] *)
Definition le (a b : t) : bool :=
  if (len b <? len a)%nat then false else forallb (λ v, mem v b) (to_list a).
Definition issubset (a b : t) : bool := le a b.
Definition lt (a b : t) : bool := (len a <? len b)%nat && le a b.
Definition eqb (a b : t) : bool := (len a =? len b)%nat && le a b.

(** [__or__], [__and__], [__sub__] *)
Definition union (a b : t) : t := of_list (to_list a ++ to_list b).
Definition inter (a b : t) : t := of_list (List.filter (λ v, mem v a) (to_list b)).
Definition diff (a b : t) : t := of_list (List.filter (λ v, negb (mem v b)) (to_list a)).

(** [__isub__] (the operands are distinct objects) and [__iand__] *)
Definition isub (a b : t) : t := foldl (λ s v, discard v s) a (to_list b).
Definition iand (a b : t) : t := foldl (λ s v, discard v s) a (to_list (diff a b)).

(** Every value is stored under its lower-cased form, once. *)
Definition wf (s : t) : Prop :=
  Dict.wf (values_ s) ∧ Forall (λ kv, kv.1 = Str.lower kv.2) (values_ s).

(** The set of names denoted. *)
Definition elems (s : t) : gset string := list_to_set (Dict.keys (values_ s)).

#[export] Instance equiv_inst : Equiv t := λ a b, elems a = elems b.
#[export] Instance equiv_equivalence : Equivalence (≡@{t}).
Proof. split; unfold equiv, equiv_inst; repeat intro; congruence. Qed.

(** ** The invariant *)

Lemma wf_add v s : wf s → wf (add v s).
Proof.
  intros [Hd Hf]. split; [by apply Dict.wf_set|]. simpl. revert Hf. clear Hd.
  induction (values_ s) as [|[k' v'] d IH]; simpl; [by intros; constructor|].
  intros [Hk Hf]%Forall_cons. case_decide; constructor; simpl in *; auto.
Qed.

Lemma wf_fold_add l s : wf s → wf (foldl (λ s v, add v s) s l).
Proof. revert s. induction l as [|x l IH]; simpl; auto using wf_add. Qed.

Lemma wf_of_list l : wf (of_list l).
Proof. apply wf_fold_add. split; [apply Dict.wf_nil | constructor]. Qed.

Lemma wf_discard v s : wf s → wf (discard v s).
Proof.
  intros [Hd Hf]. split; [by apply Dict.wf_del|]. unfold discard, Dict.del. simpl.
  apply Forall_forall. intros x [_ Hx]%list_elem_of_filter. by eapply Forall_forall in Hf.
Qed.

Lemma wf_fold_discard l s : wf s → wf (foldl (λ s v, discard v s) s l).
Proof. revert s. induction l as [|x l IH]; simpl; auto using wf_discard. Qed.

Lemma wf_empty : wf empty.
Proof. apply wf_of_list. Qed.
Lemma wf_union a b : wf (union a b).
Proof. apply wf_of_list. Qed.
Lemma wf_inter a b : wf (inter a b).
Proof. apply wf_of_list. Qed.
Lemma wf_diff a b : wf (diff a b).
Proof. apply wf_of_list. Qed.
Lemma wf_isub a b : wf a → wf (isub a b).
Proof. apply wf_fold_discard. Qed.
Lemma wf_iand a b : wf a → wf (iand a b).
Proof. apply wf_fold_discard. Qed.

(** ** Denotation of the operations *)

Lemma elem_of_elems k s : k ∈ elems s ↔ k ∈ Dict.keys (values_ s).
Proof. unfold elems. by rewrite elem_of_list_to_set. Qed.

Lemma mem_elems v s : mem v s = bool_decide (Str.lower v ∈ elems s).
Proof.
  unfold mem. case_bool_decide as H; rewrite elem_of_elems in H.
  - by apply Dict.mem_true. - by apply Dict.mem_false.
Qed.

Lemma elems_add v s : elems (add v s) = {[Str.lower v]} ∪ elems s.
Proof.
  apply set_eq. intros k. rewrite elem_of_elems. simpl. rewrite Dict.elem_of_keys_set.
  rewrite elem_of_union, elem_of_singleton, elem_of_elems. done.
Qed.

Lemma elems_fold_add l s :
  elems (foldl (λ s v, add v s) s l) = list_to_set (Str.lower <$> l) ∪ elems s.
Proof.
  revert s. induction l as [|x l IH]; intros s; simpl; [set_solver|].
  rewrite IH, elems_add. set_solver.
Qed.

Lemma elems_of_list l : elems (of_list l) = list_to_set (Str.lower <$> l).
Proof. unfold of_list. rewrite elems_fold_add. unfold elems; simpl. set_solver. Qed.

Lemma elems_empty : elems empty = ∅.
Proof. done. Qed.

Lemma elems_discard v s : elems (discard v s) = elems s ∖ {[Str.lower v]}.
Proof.
  apply set_eq. intros k. rewrite elem_of_difference, !elem_of_elems. simpl.
  rewrite Dict.elem_of_keys_del. set_solver.
Qed.

Lemma elems_fold_discard l s :
  elems (foldl (λ s v, discard v s) s l) = elems s ∖ list_to_set (Str.lower <$> l).
Proof.
  revert s. induction l as [|x l IH]; intros s; simpl; [set_solver|].
  rewrite IH, elems_discard. set_solver.
Qed.

(** Lower-casing the values of a well-formed set gives its keys. *)
Lemma lower_to_list s : wf s → Str.lower <$> to_list s = Dict.keys (values_ s).
Proof.
  intros [_ Hf]. unfold to_list, Dict.values, Dict.keys. rewrite <-list_fmap_compose.
  apply list_fmap_ext. intros i [k v] Hi. simpl.
  eapply Forall_lookup_1 in Hf; [|done]. done.
Qed.

Lemma elems_to_list s : wf s → elems s = list_to_set (Str.lower <$> to_list s).
Proof. intros Hs. unfold elems. by rewrite lower_to_list. Qed.

Lemma elem_of_to_list v s : wf s → v ∈ to_list s → Str.lower v ∈ elems s.
Proof.
  intros Hs Hv. rewrite elems_to_list by done. apply elem_of_list_to_set.
  by apply list_elem_of_fmap_2.
Qed.

Lemma elems_lower k s : wf s → k ∈ elems s → Str.lower k = k.
Proof.
  intros Hs. rewrite elems_to_list, elem_of_list_to_set by done.
  intros (v & -> & _)%list_elem_of_fmap_1. apply Str.lower_idemp.
Qed.

Lemma elems_union a b : wf a → wf b → elems (union a b) = elems a ∪ elems b.
Proof.
  intros Ha Hb. unfold union. rewrite elems_of_list, fmap_app, list_to_set_app_L.
  by rewrite <-!elems_to_list.
Qed.

Lemma elems_filter (p : string → bool) (q : gset string) s :
  wf s → (∀ v, p v = bool_decide (Str.lower v ∈ q)) →
  elems (of_list (List.filter p (to_list s))) = elems s ∩ q.
Proof.
  intros Hs Hp. rewrite elems_of_list. apply set_eq. intros k.
  rewrite elem_of_list_to_set, elem_of_intersection, list_elem_of_fmap.
  rewrite (elems_to_list s) by done. rewrite elem_of_list_to_set, list_elem_of_fmap.
  setoid_rewrite list_elem_of_In. setoid_rewrite filter_In. setoid_rewrite Hp.
  setoid_rewrite bool_decide_eq_true. naive_solver.
Qed.

Lemma elems_inter a b : wf b → elems (inter a b) = elems a ∩ elems b.
Proof.
  intros Hb. unfold inter. rewrite (elems_filter _ (elems a)) by auto using mem_elems.
  set_solver.
Qed.

Lemma elems_diff a b : wf a → elems (diff a b) = elems a ∖ elems b.
Proof.
  intros Ha. unfold diff. apply set_eq. intros k.
  rewrite elems_of_list, elem_of_list_to_set, elem_of_difference, list_elem_of_fmap.
  rewrite (elems_to_list a) by done. rewrite elem_of_list_to_set, list_elem_of_fmap.
  setoid_rewrite list_elem_of_In. setoid_rewrite filter_In. setoid_rewrite mem_elems.
  setoid_rewrite negb_true_iff. setoid_rewrite bool_decide_eq_false. naive_solver.
Qed.

Lemma elems_isub a b : wf b → elems (isub a b) = elems a ∖ elems b.
Proof. intros Hb. unfold isub. by rewrite elems_fold_discard, <-elems_to_list. Qed.

Lemma elems_iand a b : wf a → elems (iand a b) = elems a ∩ elems b.
Proof.
  intros Ha. unfold iand. rewrite elems_fold_discard, <-elems_to_list by apply wf_diff.
  rewrite elems_diff by done. apply set_eq. intros k. destruct (decide (k ∈ elems b)); set_solver.
Qed.

Lemma len_size s : wf s → len s = size (elems s).
Proof.
  intros [Hd _]. unfold len, elems. rewrite size_list_to_set by done.
  unfold Dict.keys. by rewrite length_fmap.
Qed.

Lemma le_elems a b : wf a → wf b → le a b = bool_decide (elems a ⊆ elems b).
Proof.
  intros Ha Hb. unfold le. rewrite !len_size by done.
  destruct (Nat.ltb_spec (size (elems b)) (size (elems a))) as [Hlt|Hge].
  - rewrite bool_decide_false; [done|]. intros Hsub%subseteq_size. lia.
  - apply eq_bool_prop_intro. rewrite bool_decide_spec, Is_true_true, forallb_forall.
    setoid_rewrite <-list_elem_of_In. setoid_rewrite mem_elems.
    setoid_rewrite bool_decide_eq_true. rewrite (elems_to_list a) by done.
    split.
    + intros H k. rewrite elem_of_list_to_set, list_elem_of_fmap. naive_solver.
    + intros H v Hv. apply H, elem_of_list_to_set, list_elem_of_fmap_2, Hv.
Qed.

Lemma lt_elems a b : wf a → wf b → lt a b = bool_decide (elems a ⊂ elems b).
Proof.
  intros Ha Hb. unfold lt. rewrite le_elems, !len_size by done.
  apply eq_bool_prop_intro. rewrite andb_True, !bool_decide_spec, Is_true_true, Nat.ltb_lt.
  split.
  - intros [Hlt Hsub]. split; [done|]. intros Hsub'%subseteq_size. lia.
  - intros Hsub. split; [by apply subset_size | apply Hsub].
Qed.

Lemma eqb_elems a b : wf a → wf b → eqb a b = bool_decide (elems a = elems b).
Proof.
  intros Ha Hb. unfold eqb. rewrite le_elems, !len_size by done.
  apply eq_bool_prop_intro. rewrite andb_True, !bool_decide_spec, Is_true_true, Nat.eqb_eq.
  split; [|intros ->; by split].
  intros [Hlen Hsub]. apply set_subseteq_size_eq; [done | lia].
Qed.

Lemma truthy_elems s : wf s → truthy s = bool_decide (elems s ≠ ∅).
Proof.
  intros Hs. unfold truthy. rewrite len_size by done.
  destruct (Nat.eqb_spec (size (elems s)) 0) as [H|H]; simpl; symmetry.
  - apply bool_decide_false. intros Hn. by apply Hn, leibniz_equiv, size_empty_inv.
  - apply bool_decide_true. intros He. rewrite He, size_empty in H. done.
Qed.

(** The first [n] values of a reordering of a set: [n] distinct members of it. *)
Lemma size_slice n (l : list string) t : wf t → l ≡ₚ to_list t → (0 ≤ n)%Z →
  Z.of_nat (size (elems (of_list (slice_to n l)))) = Z.min n (Z.of_nat (size (elems t))).
Proof.
  intros Ht Hl Hn. rewrite elems_of_list.
  assert (NoDup (Str.lower <$> l)) as Hnd.
  { rewrite Hl. rewrite lower_to_list by done. apply Ht. }
  assert (length l = size (elems t)) as Hlen.
  { rewrite Hl, <-len_size by done. unfold to_list, Dict.values, len. by rewrite length_fmap. }
  unfold slice_to. rewrite decide_True by done. rewrite size_list_to_set.
  - rewrite length_fmap, length_take, Hlen. lia.
  - rewrite fmap_take. eapply sublist_NoDup; [exact Hnd|]. apply sublist_take.
Qed.

Lemma slice_subset n (l : list string) t : wf t → l ≡ₚ to_list t →
  elems (of_list (slice_to n l)) ⊆ elems t.
Proof.
  intros Ht Hl x. rewrite elems_of_list, elem_of_list_to_set.
  intros (y & -> & Hy)%list_elem_of_fmap_1. apply slice_to_sublist in Hy.
  rewrite Hl in Hy. by apply elem_of_to_list.
Qed.

#[export] Instance add_proper v : Proper ((≡) ==> (≡)) (add v).
Proof. intros a b H. unfold equiv, equiv_inst in *. by rewrite !elems_add, H. Qed.
#[export] Instance mem_proper v : Proper ((≡) ==> (=)) (mem v).
Proof. intros a b H. unfold equiv, equiv_inst in *. by rewrite !mem_elems, H. Qed.
End CISet.

Create HintDb ciset.
#[export] Hint Resolve CISet.wf_of_list CISet.wf_add CISet.wf_discard CISet.wf_empty CISet.wf_union
  CISet.wf_inter CISet.wf_diff CISet.wf_isub CISet.wf_iand : ciset.
#[export] Hint Rewrite CISet.elems_of_list CISet.elems_add CISet.elems_empty CISet.elems_discard : ciset.
#[export] Hint Rewrite CISet.elems_union CISet.elems_inter CISet.elems_diff CISet.elems_isub
  CISet.elems_iand CISet.le_elems CISet.lt_elems CISet.eqb_elems CISet.truthy_elems CISet.len_size
  using (eauto 3 with ciset) : ciset.

#[global] Arguments CISet.empty : simpl never.
#[global] Arguments CISet.elems : simpl never.
#[global] Arguments CISet.union : simpl never.
#[global] Arguments CISet.inter : simpl never.
#[global] Arguments CISet.diff : simpl never.
#[global] Arguments CISet.truthy : simpl never.

Module CIDict.
Section dict.
Context {V : Type}.

Definition t : Type := dict (string * V).

(** [__setitem__], [__getitem__] ([None] is [KeyError]), [__contains__], [__delitem__] *)
Definition set (k : string) (v : V) (d : t) : t := Dict.set (Str.lower k) (k, v) d.
Definition get (k : string) (d : t) : option V := snd <$> Dict.get (Str.lower k) d.
Definition mem (k : string) (d : t) : bool := Dict.mem (Str.lower k) d.
Definition del (k : string) (d : t) : t := Dict.del (Str.lower k) d.

(** [__init__], from the items of a dictionary *)
Definition of_dict (items : dict V) : t := foldl (λ d kv, set kv.1 kv.2 d) [] items.

(** [__iter__] yields the keys as they were last set; [keys] the lower-cased ones *)
Definition iter (d : t) : list string := map fst (Dict.values d).
Definition keys (d : t) : list string := Dict.keys d.
Definition values (d : t) : list V := map snd (Dict.values d).
Definition len (d : t) : nat := length d.

(** [copy] *)
Definition copy (d : t) : t := of_dict (map (λ kv, kv.2) d).

Lemma get_of_set k k' v d : get k (set k' v d) = if decide (Str.lower k = Str.lower k') then Some v else get k d.
Proof. unfold get, set. rewrite Dict.get_set. by case_decide. Qed.

Lemma mem_get k d : mem k d = true ↔ is_Some (get k d).
Proof.
  unfold mem, get, Dict.mem. destruct (Dict.get _ d) as [[k0 v]|]; simpl; split; [by eexists|done|done|by intros [? ?]].
Qed.

Lemma mem_set k k' v d : mem k (set k' v d) = bool_decide (Str.lower k = Str.lower k') || mem k d.
Proof.
  unfold mem, set, Dict.mem. rewrite Dict.get_set. case_decide as Hc.
  - by rewrite bool_decide_eq_true_2. - by rewrite bool_decide_eq_false_2.
Qed.

Lemma get_case k k' d : Str.lower k = Str.lower k' → get k d = get k' d.
Proof. unfold get. by intros ->. Qed.

(** Each value under the lower-cased form of its key *)
Definition wf (d : t) : Prop := Dict.wf d ∧ Forall (λ kv, kv.1 = Str.lower kv.2.1) d.

Lemma wf_setitem k v d : wf d → wf (set k v d).
Proof. intros [Hd Hf]. split; [by apply Dict.wf_set|]. by apply Dict.Forall_set. Qed.

Lemma wf_fold (items : dict V) d : wf d → wf (foldl (λ d kv, set kv.1 kv.2 d) d items).
Proof. revert d. induction items as [|kv items IH]; intros d Hd; [done|]. by apply IH, wf_setitem. Qed.

Lemma wf_of_dict items : wf (of_dict items).
Proof. apply wf_fold. split; [apply Dict.wf_nil|constructor]. Qed.

Lemma Forall_fold (P : string * V → Prop) (items : dict V) d :
  Forall P items → Forall (λ kv, P kv.2) d → Forall (λ kv, P kv.2) (foldl (λ d kv, set kv.1 kv.2 d) d items).
Proof.
  intros Hi. revert d. induction Hi as [|[k v] items Hp Hi IH]; intros d Hd; [done|]. apply IH.
  unfold set. by apply Dict.Forall_set.
Qed.

Lemma lower_iter d : wf d → Str.lower <$> iter d = keys d.
Proof.
  intros [_ Hf]. unfold iter, keys, Dict.values, Dict.keys. induction Hf as [|[k [n v]] d Hk Hf IH]; [done|].
  simpl in *. f_equal; [done|]. exact IH.
Qed.
End dict.
Arguments t : clear implicits.
End CIDict.
