(* ===== verification/Utils.v ===== *)
(** * Utility functions ([patroni/utils.py])

    Parsing of configuration values (booleans, integers and reals with units),
    their comparison, and the comparison and patching of nested dictionaries. *)
From S2P Require Import Prelude Lexing PyDict PyVal PyNum.

Open Scope string_scope.
Open Scope Z_scope.

(** ** Lexing of numbers: the regular expressions of the module *)

(** [HEX_RE], [OCT_RE], [DEC_RE]: the integer matched at the start and the rest. *)
Definition hex_re (s : string) : option (Z * string) :=
  let '(neg, s) := sign s in
  match s with
  | String "0" (String "x" s) =>
      let '(ds, rest) := span is_hexdigit s in
      if ds =? "" then None else Some (signed neg (digits_value 16 ds), rest)
  | _ => None
  end%string.

Definition oct_re (s : string) : option (Z * string) :=
  let '(neg, s) := sign s in
  match s with
  | String "0" s => let '(ds, rest) := span is_octdigit s in
                    Some (signed neg (digits_value 8 ds), rest)
  | _ => None
  end.

Definition dec_re (s : string) : option (Z * string) :=
  let '(neg, s) := sign s in
  match s with
  | String c rest =>
      if Ascii.eqb c "0" then Some (0, rest)
      else if is_digit c then
        let '(ds, rest) := span is_digit s in Some (signed neg (digits_value 10 ds), rest)
      else None
  | EmptyString => None
  end.

(** [strtol], on the string form of the value; [strict] only changes the value
    returned when nothing matches. *)
Definition strtol_str (text : string) : option Z * string :=
  let value := Str.strip text in
  match hex_re value with
  | Some (n, rest) => (Some n, rest)
  | None => match oct_re value with
            | Some (n, rest) => (Some n, rest)
            | None => match dec_re value with
                      | Some (n, rest) => (Some n, rest)
                      | None => (None, value)
                      end
            end
  end.

Definition strtol (value : pyval) (strict : bool) : option Z * string :=
  match strtol_str (py_str value) with
  | (None, rest) => (if strict then None else Some 1, rest)
  | r => r
  end.

(** The exponent part of [DBL_RE] and the rest; the text itself when there is none. *)
Definition exponent (s : string) : Z * string :=
  match s with
  | String c s' =>
      if Ascii.eqb c "e" || Ascii.eqb c "E" then
        let '(neg, s'') := sign s' in
        let '(ds, rest) := span is_digit s'' in
        if (ds =? "")%string then (0, s) else (signed neg (digits_value 10 ds), rest)
      else (0, s)
  | EmptyString => (0, s)
  end.

(** [DBL_RE]: the float matched at the start and the rest. *)
Definition dbl_re (s : string) : option (num * string) :=
  let '(neg, s) := sign s in
  let '(ints, rest) := span is_digit s in
  let '(frac, rest) :=
    match rest with
    | String "." rest' => let '(ds, rest'') := span is_digit rest' in
                          if (ds =? "")%string then ("", rest) else (ds, rest'')
    | _ => ("", rest)
    end in
  if ((ints =? "") && (frac =? ""))%string then None else
  let '(ex, rest) := exponent rest in
  Some (NFloat (float_of_decimal neg (digits_value 10 (ints +:+ frac))
                  (ex - Z.of_nat (String.length frac))), rest).

(** [strtod] *)
Definition strtod (value : pyval) : option num * string :=
  let text := Str.strip (py_str value) in
  match dbl_re text with
  | Some (f, rest) => (Some f, rest)
  | None => (None, text)
  end.

(** ** Units *)

(** [n ** -1] *)
Definition inv (n : Z) : num := NFloat (SpecFloat.SFdiv prec emax (exact 1) (exact n)).

(** [get_conversion_table] *)
Definition memory_unit_conversion_table : dict (dict num) :=
  [("TB", [("B", NInt (1024^4)); ("kB", NInt (1024^3)); ("MB", NInt (1024^2))]);
   ("GB", [("B", NInt (1024^3)); ("kB", NInt (1024^2)); ("MB", NInt 1024)]);
   ("MB", [("B", NInt (1024^2)); ("kB", NInt 1024); ("MB", NInt 1)]);
   ("kB", [("B", NInt 1024); ("kB", NInt 1); ("MB", inv 1024)]);
   ("B", [("B", NInt 1); ("kB", inv 1024); ("MB", inv (1024^2))])].

Definition time_unit_conversion_table : dict (dict num) :=
  [("d", [("ms", NInt (1000 * 60^2 * 24)); ("s", NInt (60^2 * 24)); ("min", NInt (60 * 24))]);
   ("h", [("ms", NInt (1000 * 60^2)); ("s", NInt (60^2)); ("min", NInt 60)]);
   ("min", [("ms", NInt (1000 * 60)); ("s", NInt 60); ("min", NInt 1)]);
   ("s", [("ms", NInt 1000); ("s", NInt 1); ("min", inv 60)]);
   ("ms", [("ms", NInt 1); ("s", inv 1000); ("min", inv (1000 * 60))]);
   ("us", [("ms", inv 1000); ("s", inv (1000^2)); ("min", inv (1000^2 * 60))])].

Definition get_conversion_table (base_unit : string) : dict (dict num) :=
  if decide (base_unit ∈ ["B"; "kB"; "MB"]) then memory_unit_conversion_table
  else if decide (base_unit ∈ ["ms"; "s"; "min"]) then time_unit_conversion_table
  else [].

(** [dict(zip(tbl, itertools.islice(tbl, 1, None)))]: each unit's next smaller one. *)
Definition round_order (tbl : dict (dict num)) : dict string :=
  Dict.of_items (zip (Dict.keys tbl) (tail (Dict.keys tbl))).

(** [convert_tbl[unit][base_unit]] *)
Definition factor (tbl : dict (dict num)) (unit base_unit : string) : option num :=
  row ← Dict.get unit tbl; Dict.get base_unit row.

(** [convert_to_base_unit] *)
Definition convert_to_base_unit (value : num) (unit : string) (base_unit : pyval) : exc (option num) :=
  let '(base_value, base_unit) := strtol base_unit false in
  let base_value := default 1 base_value in
  let convert_tbl := get_conversion_table base_unit in
  match factor convert_tbl unit base_unit with
  | None => mret None
  | Some k =>
      bv ← to_float (NInt base_value);
      ratio ← num_div k (NFloat bv);
      value ← num_mul value ratio;
      match Dict.get unit (round_order convert_tbl) with
      | Some smaller =>
          match factor convert_tbl smaller base_unit with
          | Some multiplier =>
              m ← to_float multiplier;
              q ← num_div value (NFloat m);
              r ← num_round q;
              value ← num_mul (NInt r) multiplier;
              mret (Some value)
          | None => Raise KeyError
          end
      | None => mret (Some value)
      end
  end.

(** ** Parsing and comparing values *)

Definition starts_dot_or_exp (s : string) : bool :=
  match s with
  | String c _ => Ascii.eqb c "." || Ascii.eqb c "e" || Ascii.eqb c "E"
  | EmptyString => false
  end.

(** [parse_bool] *)
Definition parse_bool (value : pyval) : option bool :=
  let value := Str.lower (py_str value) in
  if decide (value ∈ ["on"; "true"; "yes"; "1"]) then Some true
  else if decide (value ∈ ["off"; "false"; "no"; "0"]) then Some false
  else None.

(** [parse_int]; the condition of the source reduces to the first character of the
    remainder, which starts with a dot in its first disjunct. *)
Definition parse_int (value : pyval) (base_unit : pyval) : exc (option Z) :=
  let '(val, unit) := strtol value true in
  let '(val, unit) :=
    if (bool_decide (val = None) && String.prefix "." unit) || starts_dot_or_exp unit
    then strtod value else (NInt <$> val, unit) in
  match val with
  | None => mret None
  | Some val =>
      let unit := Str.strip unit in
      if (unit =? "")%string then z ← num_round val; mret (Some z) else
      val ← convert_to_base_unit val unit base_unit;
      match val with
      | Some val => z ← num_round val; mret (Some z)
      | None => mret None
      end
  end.

(** [parse_real] *)
Definition parse_real (value : pyval) (base_unit : pyval) : exc (option num) :=
  let '(val, unit) := strtod value in
  match val with
  | None => mret None
  | Some val =>
      let unit := Str.strip unit in
      if (unit =? "")%string then mret (Some val) else convert_to_base_unit val unit base_unit
  end.

(** The result of a converter of [compare_values]. *)
Inductive converted := CBool (b : bool) | CNum (n : num) | CStr (s : string).

Definition converted_eqb (a b : converted) : bool :=
  match a, b with
  | CBool x, CBool y => Bool.eqb x y
  | CNum x, CNum y => num_eqb x y
  | CStr x, CStr y => (x =? y)%string
  | _, _ => false
  end.

Definition converter (vartype : string) (value unit : pyval) : exc (option converted) :=
  if decide (vartype = "bool") then Ok (CBool <$> parse_bool value)
  else if decide (vartype = "integer") then
    r ← parse_int value unit; Ok (CNum ∘ NInt <$> (r : option Z))
  else if decide (vartype = "real") then r ← parse_real value unit; Ok (CNum <$> (r : option num))
  else if decide (vartype = "enum") then Ok (Some (CStr (Str.lower (py_str value))))
  else Ok (Some (CStr (py_str value))).

(** [compare_values] *)
Definition compare_values (vartype : string) (unit settings_value config_value : pyval) : exc bool :=
  old_converted ← converter vartype settings_value VNone;
  new_converted ← converter vartype config_value unit;
  mret (match old_converted, new_converted with
        | Some a, Some b => converted_eqb a b
        | _, _ => false
        end).

(** [convert_int_from_base_unit] *)
Fixpoint first_exact_unit (tbl : dict (dict num)) (base_value : Z) (base_unit : string) : exc (option string) :=
  match tbl with
  | [] => mret None
  | (unit, row) :: tbl' =>
      match Dict.get base_unit row with
      | None => Raise KeyError
      | Some multiplier =>
          let small := match multiplier with
                       | NInt m => m <=? 1
                       | NFloat _ => true   (* the fractional factors are below one *)
                       end in
          let exact_multiple := match multiplier with
                                | NInt m => base_value mod m =? 0
                                | NFloat _ => false
                                end in
          if small || exact_multiple then
            q ← num_div (NInt base_value) multiplier;
            r ← num_round q;
            mret (Some (pretty r +:+ unit))
          else first_exact_unit tbl' base_value base_unit
      end
  end.

Definition convert_int_from_base_unit (base_value : Z) (base_unit : pyval) : exc (option string) :=
  let '(mult, base_unit) := strtol base_unit false in
  first_exact_unit (get_conversion_table base_unit) (base_value * default 1 mult) base_unit.

(** ** Hosts, ports and URIs *)

(** [s.rsplit(sep, 1)]: the text before the last separator and the one after it. *)
Fixpoint rsplit1 (sep : ascii) (s : string) : option (string * string) :=
  match s with
  | "" => None
  | String c s' =>
      match rsplit1 sep s' with
      | Some (a, b) => Some (String c a, b)
      | None => if Ascii.eqb c sep then Some ("", s') else None
      end
  end.

(** [s.strip(chars)] *)
Fixpoint lstrip_chars (p : ascii → bool) (s : string) : string :=
  match s with
  | "" => ""
  | String c s' => if p c then lstrip_chars p s' else s
  end.

Definition strip_chars (p : ascii → bool) (s : string) : string :=
  Str.rev (lstrip_chars p (Str.rev (lstrip_chars p s))).

Definition is_bracket (c : ascii) : bool := Ascii.eqb c "[" || Ascii.eqb c "]".

(** [split_host_port]; the default port is appended to the list of parts, and the
    second part is the one used. *)
Definition split_host_port (value : string) (default_port : pyval) : exc (string * Z) :=
  let '(host, port) := match rsplit1 ":" value with
                       | Some (h, p) => (h, p)
                       | None => (value, py_str default_port)
                       end in
  let host := if contains ":" host
              then Str.join "," (map (λ h, strip_chars is_bracket (Str.strip h)) (Str.split_on "," host))
              else host in
  match int_of_string port with
  | Some p => Ok (host, p)
  | None => Raise ValueError
  end.

(** [uri], for a host and a port given separately. *)
Definition uri (proto : pyval) (host port : pyval) (path user : string) : exc string :=
  host ← match host with
         | VStr h => Ok (if contains ":" h && negb (String.prefix "[" h) && negb (String.prefix "]" (Str.rev h))
                         then "[" +:+ h +:+ "]" else h)
         | VBool true => Raise TypeError
         | VInt n => if n =? 0 then Ok "0" else Raise TypeError
         | _ => Ok (py_str host)   (* a list is assumed not to hold a colon *)
         end;
  let port := if truthy port then ":" +:+ py_str port else "" in
  let path := if negb (path =? "")%string && negb (String.prefix "/" path) then "/" +:+ path else path in
  let user := if (user =? "")%string then "" else user +:+ "@" in
  mret (py_str proto +:+ "://" +:+ user +:+ host +:+ port +:+ path).

Example uri_examples :
  (split_host_port "127.0.0.1,192.168.0.101:5400" (VInt 5432), split_host_port "[fe80::1]:5400" (VInt 5432),
   uri (VStr "postgresql") (VStr "fe80::1") (VInt 5432) "" "")
  = (Ok ("127.0.0.1,192.168.0.101", 5400), Ok ("fe80::1", 5400), Ok "postgresql://[fe80::1]:5432").
Proof. vm_compute. reflexivity. Qed.

(** [int(value)] *)
Definition py_int (value : pyval) : exc Z :=
  match value with
  | VInt z => Ok z
  | VBool b => Ok (if b then 1 else 0)
  | VStr s => match int_of_string s with Some z => Ok z | None => Raise ValueError end
  | _ => Raise TypeError
  end.

(** ** Nested dictionaries *)

(** [deep_compare]; the second argument is compared under the keys of the first. *)
Fixpoint deep_compare_val (v w : pyval) {struct v} : bool :=
  match v with
  | VDict d =>
      match w with
      | VDict d' =>
          bool_decide (list_to_set (C := gset string) (Dict.keys d) = list_to_set (Dict.keys d')) &&
          forallb (λ kv, match Dict.get kv.1 d' with
                         | Some w => deep_compare_val kv.2 w
                         | None => false
                         end) d
      | _ => false
      end
  | _ => (py_str v =? py_str w)%string
  end.

Definition deep_compare (obj1 obj2 : dict pyval) : bool := deep_compare_val (VDict obj1) (VDict obj2).

(** [patch_config]: the patched configuration and whether it was changed. *)
Fixpoint patch_value (value : pyval) (old : option pyval) {struct value} : option pyval * bool :=
  match value with
  | VNone => (None, match old with Some VNone | None => false | Some _ => true end)
  | VDict data =>
      match old with
      | Some (VDict config) =>
          let '(config', changed) :=
            foldl (λ acc kv,
              let '(config, changed) := acc in
              match patch_value kv.2 (Dict.get kv.1 config) with
              | (None, c) => (Dict.del kv.1 config, changed || c)
              | (Some v, c) => (Dict.set kv.1 v config, changed || c)
              end) (config, false) data in
          (Some (VDict config'), changed)
      | _ => (Some value, true)
      end
  | _ => match old with
         | Some o => if (py_str o =? py_str value)%string then (Some o, false) else (Some value, true)
         | None => (Some value, true)
         end
  end.

Definition patch_config (config data : dict pyval) : dict pyval * bool :=
  match patch_value (VDict data) (Some (VDict config)) with
  | (Some (VDict config'), changed) => (config', changed)
  | _ => (config, false)
  end.

(** The documented examples of the module. *)
Example parse_int_examples :
  map (λ a, parse_int (VStr a.1) (VStr a.2))
    [("1", ""); (" 0x400 MB ", "16384kB"); ("1MB", "kB"); ("1000 ms", "s"); ("1TB", "GB");
     ("nonsense", "kB"); ("6GB", "16MB"); ("4097.4kB", "kB"); ("4097.5kB", "kB"); ("-070", "")]
  = map Ok [Some 1; Some 64; Some 1024; Some 1; None; None; Some 384; Some 4097; Some 4098; Some (-56)].
Proof. vm_compute. reflexivity. Qed.

Example compare_values_examples :
  (compare_values "enum" VNone (VStr "remote_write") (VStr "REMOTE_WRITE"),
   compare_values "string" VNone (VStr "remote_write") (VStr "REMOTE_WRITE"),
   compare_values "real" VNone (VStr "1e-06") (VStr "0.000001"),
   compare_values "integer" (VStr "MB") (VStr "6GB") (VStr "6GB"),
   compare_values "integer" (VStr "2MB") (VInt 524288) (VStr "1TB"))
  = (Ok true, Ok false, Ok true, Ok false, Ok true).
Proof. vm_compute. reflexivity. Qed.

Example convert_int_examples :
  (convert_int_from_base_unit 1024 (VStr "kB"), convert_int_from_base_unit 1025 (VStr "kB"),
   convert_int_from_base_unit 4 (VStr "256MB"), convert_int_from_base_unit 1024 (VStr "KB"))
  = (Ok (Some "1MB"), Ok (Some "1025kB"), Ok (Some "1GB"), Ok None).
Proof. vm_compute. reflexivity. Qed.

(** * Properties of the utility functions

    Integers survive their printing, and [patch_config] computes the merge of the
    two configurations it is given and reports changes truthfully. *)

(** ** Printed integers *)

(** The lexer reads back a printed integer, in decimal. *)
Lemma strtol_str_decimal neg n s : decimal (Zpos n) s →
  strtol_str ((if (neg : bool) then "-" else "") +:+ s) = (Some (signed neg (Zpos n)), "").
Proof.
  intros Hdec. destruct (sign_decimal neg n s Hdec) as [Hstrip Hsign].
  destruct Hdec as (Ha & Hv & Hh). unfold strtol_str. rewrite Hstrip.
  destruct s as [|c s]; [done|].
  unfold nonzero_digit in Hh. apply andb_prop in Hh as [Hd Hz].
  apply negb_true_iff in Hz. unfold hex_re, oct_re, dec_re. rewrite !Hsign.
  rewrite Hz, Hd, (span_all is_digit), Hv by done.
  clear -Hz. destruct c as [[] [] [] [] [] [] [] []]; done.
Qed.

Lemma strtol_pretty z : strtol (VInt z) true = (Some z, "") ∧ strtol (VStr (pretty z)) true = (Some z, "").
Proof.
  assert (strtol_str (pretty z) = (Some z, "")) as H.
  { destruct z as [|p|p]; [done| |].
    - apply (strtol_str_decimal false p), pretty_pos_decimal.
    - apply (strtol_str_decimal true p), pretty_pos_decimal. }
  unfold strtol. simpl. by rewrite H.
Qed.

(** A decimal integer survives being printed and parsed: [parse_int] reads back
    [str(z)] and [z] itself as [z], whatever the base unit, and [compare_values]
    finds the two forms of a number equal. *)
Theorem parse_int_printed z unit :
  parse_int (VStr (pretty z)) unit = Ok (Some z) ∧ parse_int (VInt z) unit = Ok (Some z) ∧
  compare_values "integer" unit (VStr (pretty z)) (VInt z) = Ok true.
Proof.
  assert (parse_int (VStr (pretty z)) unit = Ok (Some z) ∧ parse_int (VInt z) unit = Ok (Some z)
    ∧ parse_int (VStr (pretty z)) VNone = Ok (Some z)) as (H1 & H2 & H3).
  { unfold parse_int. destruct (strtol_pretty z) as [-> ->]. done. }
  split_and!; [done..|]. unfold compare_values, converter. simpl. rewrite H3. simpl. rewrite H2.
  apply (f_equal Ok), Z.eqb_refl.
Qed.

(** ** Patching *)

(** A dictionary of a configuration has each key once, at every level. *)
Fixpoint deep_wf (v : pyval) : Prop :=
  match v with
  | VDict d => Dict.wf d ∧ foldr (λ kv P, deep_wf kv.2 ∧ P) True d
  | _ => True
  end.

(** No value is [None], at any level. *)
Fixpoint none_free (v : pyval) : Prop :=
  match v with
  | VNone => False
  | VDict d => foldr (λ kv P, none_free kv.2 ∧ P) True d
  | _ => True
  end.

(** [patch_value], one key of the patch at a time. *)
Definition patch_step (acc : dict pyval * bool) (kv : string * pyval) : dict pyval * bool :=
  match patch_value kv.2 (Dict.get kv.1 acc.1) with
  | (None, c) => (Dict.del kv.1 acc.1, acc.2 || c)
  | (Some v, c) => (Dict.set kv.1 v acc.1, acc.2 || c)
  end.

Lemma patch_value_dict data config :
  patch_value (VDict data) (Some (VDict config)) =
  let r := foldl patch_step (config, false) data in (Some (VDict r.1), r.2).
Proof.
  simpl.
  assert (∀ acc, foldl (λ acc kv,
      let '(config0, changed) := acc in
      match patch_value kv.2 (Dict.get kv.1 config0) with
      | (Some v, c) => (Dict.set kv.1 v config0, changed || c)
      | (None, c) => (Dict.del kv.1 config0, changed || c)
      end) acc data = foldl patch_step acc data) as ->.
  { induction data as [|kv data IH]; intros [c b]; simpl; [done|]. rewrite <-IH.
    unfold patch_step. simpl. by destruct (patch_value _ _) as [[]]. }
  by destruct (foldl patch_step _ _).
Qed.

Lemma patch_config_fold config data : patch_config config data = foldl patch_step (config, false) data.
Proof. unfold patch_config. rewrite patch_value_dict. simpl. by destruct (foldl _ _ _). Qed.

Lemma get_patch_step_ne k acc kv : k ≠ kv.1 → Dict.get k (patch_step acc kv).1 = Dict.get k acc.1.
Proof.
  intros Hne. unfold patch_step. destruct (patch_value _ _) as [[v|] c]; simpl.
  - by rewrite Dict.get_set_ne. - by rewrite Dict.get_del_ne.
Qed.

Lemma get_patch_step_eq acc kv :
  Dict.get kv.1 (patch_step acc kv).1 = (patch_value kv.2 (Dict.get kv.1 acc.1)).1.
Proof.
  unfold patch_step. destruct (patch_value _ _) as [[v|] c]; simpl.
  - by rewrite Dict.get_set_eq. - by rewrite Dict.get_del_eq.
Qed.

(** What one level of the patch does to each key, and when it reports a change. *)
Lemma get_patch_fold k data acc : Dict.wf data →
  Dict.get k (foldl patch_step acc data).1 =
  match Dict.get k data with
  | Some v => (patch_value v (Dict.get k acc.1)).1
  | None => Dict.get k acc.1
  end.
Proof.
  unfold Dict.wf, Dict.keys. revert acc. induction data as [|[k' v'] data IH]; intros acc; simpl; [done|].
  intros [Hni Hnd]%NoDup_cons. rewrite IH by done. case_decide as Hk; [subst|].
  - assert (Dict.get k' data = None) as -> by (by apply Dict.get_None). apply (get_patch_step_eq acc (k', v')).
  - by rewrite get_patch_step_ne.
Qed.

Lemma patch_fold_changed data acc : Dict.wf data →
  (foldl patch_step acc data).2 = false ↔
  acc.2 = false ∧ Forall (λ kv, (patch_value kv.2 (Dict.get kv.1 acc.1)).2 = false) data.
Proof.
  unfold Dict.wf, Dict.keys. revert acc. induction data as [|[k v] data IH]; intros acc; simpl; [naive_solver|].
  intros [Hni Hnd]%NoDup_cons. rewrite IH by done. rewrite Forall_cons.
  assert (Forall (λ kv, (patch_value kv.2 (Dict.get kv.1 (patch_step acc (k, v)).1)).2 = false) data
    ↔ Forall (λ kv, (patch_value kv.2 (Dict.get kv.1 acc.1)).2 = false) data) as ->.
  { rewrite !Forall_forall. apply forall_proper. intros [k' v']. simpl.
    split; intros H Hin; specialize (H Hin); rewrite get_patch_step_ne in *; try done; simpl;
      intros ->; by apply Hni, (list_elem_of_fmap_2 fst _ (k, v')). }
  assert ((patch_step acc (k, v)).2 = acc.2 || (patch_value v (Dict.get k acc.1)).2) as ->.
  { unfold patch_step. simpl. by destruct (patch_value _ _) as [[]]. }
  rewrite orb_false_iff. simpl. tauto.
Qed.

Lemma deep_wf_get d k v : deep_wf (VDict d) → Dict.get k d = Some v → deep_wf v.
Proof.
  intros [_ H]. revert H. induction d as [|[k' v'] d IH]; simpl; [done|]. intros [Hv H].
  case_decide; naive_solver.
Qed.

Lemma deep_wf_Forall d : deep_wf (VDict d) → Dict.wf d ∧ Forall (λ kv, deep_wf kv.2) d.
Proof. intros [Hw H]. split; [done|]. clear Hw. induction d; simpl in *; constructor; naive_solver. Qed.

Lemma none_free_get d k v : none_free (VDict d) → Dict.get k d = Some v → none_free v.
Proof.
  simpl. induction d as [|[k' v'] d IH]; simpl; [done|]. intros [Hv H]. case_decide; naive_solver.
Qed.

Lemma dict_del_absent k (d : dict pyval) : Dict.get k d = None → Dict.del k d = d.
Proof.
  unfold Dict.del. induction d as [|[k' v'] d IH]; simpl; [done|]. case_decide; [done|]. intros.
  rewrite filter_cons_True by (simpl; congruence). f_equal. auto.
Qed.

Definition is_leaf (v : pyval) : bool := match v with VNone | VDict _ => false | _ => true end.

Lemma patch_leaf v old : is_leaf v = true →
  patch_value v old = match old with
                      | Some o => if (py_str o =? py_str v)%string then (Some o, false) else (Some v, true)
                      | None => (Some v, true)
                      end.
Proof. by destruct v. Qed.

Lemma patch_leaf_again v old : is_leaf v = true → (patch_value v (patch_value v old).1).2 = false.
Proof.
  intros Hl. rewrite (patch_leaf _ old) by done.
  destruct old as [o|]; [destruct (String.eqb_spec (py_str o) (py_str v)) as [He|]|]; simpl fst;
    rewrite patch_leaf by done; by rewrite ?He, String.eqb_refl.
Qed.

(** A patch applied to itself changes nothing. *)
Lemma patch_self v : deep_wf v → (patch_value v (Some v)).2 = false.
Proof.
  induction v as [| | | | |d IH] using pyval_ind'; intros Hwf; try done;
    try (rewrite patch_leaf by done; by rewrite String.eqb_refl).
  apply deep_wf_Forall in Hwf as [Hw Hall]. rewrite patch_value_dict. simpl.
  apply patch_fold_changed; [done|]. split; [done|]. simpl. apply Forall_forall. intros [k v] Hin.
  rewrite (Dict.elem_get k v) by done. rewrite Forall_forall in IH, Hall. apply (IH _ Hin), (Hall _ Hin).
Qed.

Lemma patch_value_again v old : deep_wf v → (patch_value v (patch_value v old).1).2 = false.
Proof.
  revert old. induction v as [| | | | |d IH] using pyval_ind'; intros old Hwf.
  1: by destruct old as [[]|].
  1-4: by apply patch_leaf_again.
  destruct old as [[| | | | |config]|]; try by apply (patch_self (VDict d)).
  pose proof (deep_wf_Forall _ Hwf) as [Hw Hall]. rewrite patch_value_dict. simpl fst.
  rewrite patch_value_dict. simpl snd. apply patch_fold_changed; [done|]. split; [done|].
  simpl. apply Forall_forall. intros [k v] Hin. rewrite get_patch_fold by done.
  rewrite (Dict.elem_get k v) by done. rewrite Forall_forall in IH, Hall. apply (IH _ Hin), (Hall _ Hin).
Qed.

(** A patch that reports no change makes none. *)
Lemma patch_value_unchanged v old : deep_wf v → (∀ o, old = Some o → none_free o) →
  (patch_value v old).2 = false → (patch_value v old).1 = old.
Proof.
  revert old. induction v as [| | | | |d IH] using pyval_ind'; intros old Hwf Hnf.
  1: destruct old as [[]|]; try done; by destruct (Hnf VNone eq_refl).
  1-4: rewrite patch_leaf by done; destruct old as [o|]; [by case_match|done].
  destruct old as [[| | | | |config]|]; try done. rewrite patch_value_dict. simpl fst; simpl snd.
  pose proof (deep_wf_Forall _ Hwf) as [Hw Hall]. intros [_ Hf]%patch_fold_changed; [|done].
  assert (Forall (λ kv, (patch_value kv.2 (Dict.get kv.1 config)).1 = Dict.get kv.1 config) d) as Hsame.
  { rewrite Forall_forall in *. intros kv Hin. apply (IH _ Hin); auto.
    intros o Ho. by eapply none_free_get, Ho; apply Hnf. }
  do 2 f_equal. enough (∀ c, (foldl patch_step (config, c) d).1 = config) by done. clear -Hsame Hf.
  induction Hsame as [|[k v] d Hkv Hd IHd]; intros c; [done|]. apply Forall_cons in Hf as [H Hf].
  simpl in *. unfold patch_step at 2. simpl. destruct (patch_value v _) as [w c'] eqn:E. simpl in *. subst.
  destruct (Dict.get k config) as [v'|] eqn:Hg.
  - rewrite Dict.set_same by done. by apply IHd.
  - rewrite dict_del_absent by done. by apply IHd.
Qed.

(** What [patch_config] reports is true: when it returns [False] the
    configuration is exactly the one it was given, provided it holds no null value. *)
Theorem patch_config_unchanged config data :
  deep_wf (VDict data) → none_free (VDict config) →
  (patch_config config data).2 = false → (patch_config config data).1 = config.
Proof.
  intros Hwf Hnf. rewrite patch_config_fold. intros Hc.
  pose proof (patch_value_unchanged (VDict data) (Some (VDict config)) Hwf) as H.
  rewrite patch_value_dict in H. simpl in H.
  assert (Some (VDict (foldl patch_step (config, false) data).1) = Some (VDict config)) as Heq.
  { apply H; [|done]. by intros o [= <-]. }
  by injection Heq.
Qed.

(** Applying the same patch a second time is never reported as a change, whatever
    the first application did. *)
Theorem patch_config_again config data :
  deep_wf (VDict data) → (patch_config (patch_config config data).1 data).2 = false.
Proof.
  intros Hwf. pose proof (patch_value_again (VDict data) (Some (VDict config)) Hwf) as H.
  rewrite patch_value_dict in H. cbn [fst] in H. rewrite patch_value_dict in H.
  by rewrite !patch_config_fold.
Qed.

(** The value at a path of keys. *)
Fixpoint vpath (p : list string) (v : pyval) : option pyval :=
  match p, v with
  | [], _ => Some v
  | k :: p', VDict d => match Dict.get k d with Some w => vpath p' w | None => None end
  | _, _ => None
  end.

(** The patch says nothing about the path. *)
Fixpoint skips (p : list string) (v : pyval) : bool :=
  match p, v with
  | k :: p', VDict d => match Dict.get k d with Some w => skips p' w | None => true end
  | _, _ => false
  end.

Lemma get_patch_config k config data : Dict.wf data →
  Dict.get k (foldl patch_step (config, false) data).1 =
  match Dict.get k data with
  | Some v => (patch_value v (Dict.get k config)).1
  | None => Dict.get k config
  end.
Proof. apply (get_patch_fold k data (config, false)). Qed.

Lemma patch_sets p v old w : deep_wf v → is_leaf w = true → vpath p v = Some w →
  ∃ r w', (patch_value v old).1 = Some r ∧ vpath p r = Some w' ∧ py_str w' = py_str w.
Proof.
  revert v old. induction p as [|k p IH]; intros v old Hwf Hl Hp; simpl in Hp.
  - simplify_eq. rewrite patch_leaf by done. destruct old as [o|]; [|naive_solver].
    destruct (String.eqb_spec (py_str o) (py_str w)); naive_solver.
  - destruct v as [| | | | |d]; try done. destruct (Dict.get k d) as [v|] eqn:Hk; [|done].
    assert ((∃ config, old = Some (VDict config)) ∨ (patch_value (VDict d) old).1 = Some (VDict d)) as [[config ->]|Hr].
    { destruct old as [[]|]; naive_solver. }
    + destruct (IH v (Dict.get k config)) as (r & w' & Hr & Hv & Hw); eauto using deep_wf_get.
      rewrite patch_value_dict. simpl fst. eexists _, w'. split; [done|]. split; [|done]. simpl.
      rewrite get_patch_config, Hk, Hr by apply Hwf. done.
    + rewrite Hr. exists (VDict d), w. simpl. by rewrite Hk.
Qed.

Lemma patch_keeps p v o w : deep_wf v → skips p v = true → vpath p o = Some w →
  ∃ r, (patch_value v (Some o)).1 = Some r ∧ vpath p r = Some w.
Proof.
  revert v o. induction p as [|k p IH]; intros v o Hwf Hs Hp; [done|].
  destruct v as [| | | | |d]; try done. destruct o as [| | | | |config]; try done.
  rewrite patch_value_dict. simpl in *. eexists; split; [done|]. simpl.
  rewrite get_patch_config by apply Hwf.
  destruct (Dict.get k config) as [o|] eqn:Ho; [|done].
  destruct (Dict.get k d) as [v|] eqn:Hk; [|done].
  destruct (IH v o) as (r & -> & ?); eauto using deep_wf_get.
Qed.

Lemma patch_removes p k v o : deep_wf v → vpath (p ++ [k]) v = Some VNone →
  (∃ d, vpath p o = Some (VDict d)) →
  ∃ r, (patch_value v (Some o)).1 = Some r ∧ vpath (p ++ [k]) r = None.
Proof.
  revert v o. induction p as [|k' p IH]; intros v o Hwf Hv [d' Ho]; simpl in *.
  - simplify_eq. destruct v as [| | | | |d]; try done. destruct (Dict.get k d) as [[]|] eqn:Hk; simplify_eq.
    rewrite patch_value_dict. simpl. eexists; split; [done|]. simpl.
    by rewrite get_patch_config, Hk by apply Hwf.
  - destruct v as [| | | | |d]; try done. destruct o as [| | | | |config]; try done.
    destruct (Dict.get k' d) as [v|] eqn:Hk; [|done]. destruct (Dict.get k' config) as [o|] eqn:Hc; [|done].
    rewrite patch_value_dict. simpl. eexists; split; [done|]. simpl.
    rewrite get_patch_config, Hk, Hc by apply Hwf.
    destruct (IH v o) as (r & -> & ?); eauto using deep_wf_get.
Qed.

(** The patched configuration is the merge: every value of the patch is found
    at its path (up to its string form), every key the patch sets to null is gone
    from the dictionaries the configuration had, and every path the patch does not
    mention keeps its value. *)
Theorem patch_config_merge config data (p : list string) :
  deep_wf (VDict data) →
  let after := VDict (patch_config config data).1 in
  (∀ w, vpath p (VDict data) = Some w → is_leaf w = true →
     ∃ w', vpath p after = Some w' ∧ py_str w' = py_str w) ∧
  (∀ w, skips p (VDict data) = true → vpath p (VDict config) = Some w → vpath p after = Some w) ∧
  (∀ k d, vpath (p ++ [k]) (VDict data) = Some VNone → vpath p (VDict config) = Some (VDict d) →
     vpath (p ++ [k]) after = None).
Proof.
  intros Hwf after.
  assert ((patch_value (VDict data) (Some (VDict config))).1 = Some after) as Ha.
  { rewrite patch_value_dict. unfold after. by rewrite patch_config_fold. }
  split_and!.
  - intros w Hp Hl. destruct (patch_sets p _ (Some (VDict config)) w Hwf Hl Hp) as (r & w' & ? & ? & ?).
    naive_solver.
  - intros w Hs Hp. destruct (patch_keeps p _ _ w Hwf Hs Hp) as (r & ? & ?). naive_solver.
  - intros k d Hp Hd. destruct (patch_removes p k _ (VDict config) Hwf Hp) as (r & ? & ?); naive_solver.
Qed.

(** ** Witnesses *)

Definition a_config : dict pyval :=
  [("ttl", VInt 30); ("postgresql", VDict [("use_slots", VBool true); ("parameters", VDict [])])].
Definition a_patch : dict pyval :=
  [("ttl", VStr "20"); ("postgresql", VDict [("use_slots", VNone)])].

Lemma a_patch_wf : deep_wf (VDict a_patch).
Proof. repeat split; by apply (bool_decide_unpack _). Qed.

Lemma patch_config_unchanged_witness :
  (patch_config a_config [("ttl", VStr "30")]).1 = a_config.
Proof.
  apply (patch_config_unchanged a_config [("ttl", VStr "30")]); [|done|done].
  repeat split. by apply (bool_decide_unpack _).
Defined.

Lemma patch_config_again_witness :
  (patch_config (patch_config a_config a_patch).1 a_patch).2 = false.
Proof. apply (patch_config_again a_config a_patch), a_patch_wf. Defined.

Lemma patch_config_merge_witness :
  vpath ["postgresql"; "use_slots"] (VDict (patch_config a_config a_patch).1) = None ∧
  vpath ["postgresql"; "parameters"] (VDict (patch_config a_config a_patch).1) = Some (VDict []).
Proof.
  split.
  - destruct (patch_config_merge a_config a_patch ["postgresql"] a_patch_wf) as (_ & _ & H).
    by eapply (H "use_slots").
  - destruct (patch_config_merge a_config a_patch ["postgresql"; "parameters"] a_patch_wf) as (_ & H & _).
    by apply H.
Defined.
