(* ===== verification/Tags.v ===== *)
(** * Tags of a node ([patroni/tags.py])

    [Tags] is the interface of the abstract class: an object that has a [tags]
    dictionary.  Its properties are defined for every implementation. *)
From S2P Require Import Prelude PyDict PyVal PyNum Utils.

Open Scope string_scope.
Open Scope Z_scope.

(** The abstract property [tags]. *)
Class Tags (A : Type) := tags : A → dict pyval.

(** A node's own [tags] section is an implementation. *)
#[export] Instance tags_section : Tags (dict pyval) := id.

(** [_filter_tags] *)
Definition keep_tag (tags : dict pyval) (item : string * pyval) : bool :=
  let '(tag, value) := item in
  bool_decide (tag ∉ ["clonefrom"; "nofailover"; "noloadbalance"; "nosync"; "nostream"])
  || truthy value
  || ((tag =? "nofailover")%string && Dict.mem "failover_priority" tags)
  || ((tag =? "nosync")%string && Dict.mem "sync_priority" tags).

Definition _filter_tags (tags : dict pyval) : dict pyval := List.filter (keep_tag tags) tags.

Section properties.
Context {A : Type} `{!Tags A}.
Implicit Types (self : A).

(** [clonefrom]: the value itself, used by its truth value. *)
Definition clonefrom_tag self : pyval := vget_or "clonefrom" (VBool false) (tags self).

(** [_priority_tag] *)
Definition _priority_tag self (bool_name priority_name : string) : exc Z :=
  let from_tags := vget bool_name (tags self) in
  priority ← parse_int (vget priority_name (tags self)) VNone;
  mret (if truthy from_tags then 0 else default 1 (priority : option Z)).

(** [_bool_tag] *)
Definition _bool_tag self (bool_name priority_name : string) : exc bool :=
  match vget bool_name (tags self) with
  | VNone =>
      priority ← parse_int (vget priority_name (tags self)) VNone;
      mret (match (priority : option Z) with Some p => p <=? 0 | None => false end)
  | from_tags => mret (truthy from_tags)
  end.

Definition nofailover self : exc bool := _bool_tag self "nofailover" "failover_priority".
Definition failover_priority self : exc Z := _priority_tag self "nofailover" "failover_priority".
Definition noloadbalance self : bool := truthy (vget_or "noloadbalance" (VBool false) (tags self)).
Definition nosync self : exc bool := _bool_tag self "nosync" "sync_priority".
Definition sync_priority self : exc Z := _priority_tag self "nosync" "sync_priority".
Definition replicatefrom self : pyval := vget "replicatefrom" (tags self).
Definition nostream self : bool := default false (parse_bool (vget "nostream" (tags self))).
End properties.

(** ** Properties *)

Lemma vget_filter k (d : dict pyval) : Dict.wf d →
  vget k (_filter_tags d) = vget k d ∨
  truthy (vget k d) = false ∧ vget k (_filter_tags d) = VNone ∧
  k ∈ ["clonefrom"; "nofailover"; "noloadbalance"; "nosync"; "nostream"] ∧
  (k = "nofailover" → Dict.get "failover_priority" d = None) ∧
  (k = "nosync" → Dict.get "sync_priority" d = None).
Proof.
  intros Hwf. unfold vget, _filter_tags. rewrite Dict.get_filter by done.
  destruct (Dict.get k d) as [v|] eqn:Hg; [|by left].
  destruct (keep_tag d (k, v)) eqn:Hk; [by left|]. right. simpl.
  unfold keep_tag in Hk. rewrite !orb_false_iff, !andb_false_iff in Hk.
  destruct Hk as [[[H1%bool_decide_eq_false H2] H3] H4].
  split_and!; [done|done|by destruct (decide (k ∈ ["clonefrom"; "nofailover"; "noloadbalance"; "nosync"; "nostream"]))| |];
    intros ->; [destruct H3 as [H|H] | destruct H4 as [H|H]]; try done; by apply Dict.mem_false_get.
Qed.

Lemma vget_filter_other k (d : dict pyval) : Dict.wf d →
  k ∉ ["clonefrom"; "nofailover"; "noloadbalance"; "nosync"; "nostream"] →
  vget k (_filter_tags d) = vget k d.
Proof. intros Hwf Hk. by destruct (vget_filter k d Hwf) as [|(_ & _ & ? & _)]. Qed.

Lemma truthy_filter k (d : dict pyval) : Dict.wf d → truthy (vget k (_filter_tags d)) = truthy (vget k d).
Proof. intros Hwf. by destruct (vget_filter k d Hwf) as [->|(-> & -> & _)]. Qed.

Lemma truthy_vget_or_false k (d : dict pyval) : truthy (vget_or k (VBool false) d) = truthy (vget k d).
Proof. unfold vget_or, vget. by destruct (Dict.get k d). Qed.

Lemma priority_tag_filter (d : dict pyval) b p : Dict.wf d → p ∈ ["failover_priority"; "sync_priority"] →
  _priority_tag (_filter_tags d) b p = _priority_tag d b p.
Proof.
  intros Hwf Hp. unfold _priority_tag. cbv zeta. unfold tags, tags_section, id.
  rewrite truthy_filter, vget_filter_other; [done|done|set_solver|done].
Qed.

Lemma bool_tag_filter (d : dict pyval) b p : Dict.wf d → p ∈ ["failover_priority"; "sync_priority"] →
  (vget b d ≠ VNone → vget b (_filter_tags d) = VNone → Dict.get p d = None) →
  _bool_tag (_filter_tags d) b p = _bool_tag d b p.
Proof.
  intros Hwf Hp Hsync. unfold _bool_tag, tags, tags_section, id.
  rewrite (vget_filter_other p) by set_solver.
  destruct (vget_filter b d Hwf) as [->|(Hf & Hn & _)]; [done|].
  rewrite Hn. destruct (decide (vget b d = VNone)) as [->|Hne]; [done|].
  assert (vget p d = VNone) as -> by (unfold vget; by rewrite Hsync).
  destruct (vget b d) as [|[]| | | |]; try done; by rewrite Hf.
Qed.

(** Publishing only the filtered tags loses nothing: every tag property of a node
    reads the same from the tags it publishes as from the ones it is configured with. *)
Theorem filter_tags_transparent (configured : dict pyval) :
  Dict.wf configured →
  let published := _filter_tags configured in
  truthy (clonefrom_tag published) = truthy (clonefrom_tag configured) ∧
  nofailover published = nofailover configured ∧
  failover_priority published = failover_priority configured ∧
  noloadbalance published = noloadbalance configured ∧
  nosync published = nosync configured ∧
  sync_priority published = sync_priority configured ∧
  replicatefrom published = replicatefrom configured ∧
  nostream published = nostream configured.
Proof.
  intros Hwf published. subst published. split_and!.
  - unfold clonefrom_tag, tags, tags_section, id. by rewrite !truthy_vget_or_false, truthy_filter.
  - apply bool_tag_filter; [done|set_solver|]. intros Hne Hn.
    destruct (vget_filter "nofailover" configured Hwf) as [H|(_ & _ & _ & H & _)]; [congruence|auto].
  - apply priority_tag_filter; [done|set_solver].
  - unfold noloadbalance, tags, tags_section, id. by rewrite !truthy_vget_or_false, truthy_filter.
  - apply bool_tag_filter; [done|set_solver|]. intros Hne Hn.
    destruct (vget_filter "nosync" configured Hwf) as [H|(_ & _ & _ & _ & H)]; [congruence|auto].
  - apply priority_tag_filter; [done|set_solver].
  - unfold replicatefrom, tags, tags_section, id. apply vget_filter_other; [done|set_solver].
  - unfold nostream, tags, tags_section, id.
    destruct (vget_filter "nostream" configured Hwf) as [->|(Hf & -> & _)]; [done|].
    destruct (vget "nostream" configured) as [|[]|[]|[]|[]|[]]; done.
Qed.

(** The two ways to bar a node from promotion (or from being synchronous) agree:
    a node is barred only if its priority is not positive, and when the boolean tag
    is not set the two are equivalent. *)
Theorem bool_tag_priority {A} `{!Tags A} (self : A) bool_name priority_name b p :
  _bool_tag self bool_name priority_name = Ok b →
  _priority_tag self bool_name priority_name = Ok p →
  (b = true → p <= 0) ∧ (vget bool_name (tags self) = VNone → b = false → 0 < p).
Proof.
  unfold _bool_tag, _priority_tag. cbv zeta.
  destruct (parse_int _ _) as [prio|e]; simpl; [|done].
  destruct (vget bool_name (tags self)); simpl; intros [= <-] [= <-]; split; try done.
  - destruct prio as [z|]; simpl; [|done]. by intros ?%Z.leb_le.
  - intros _. destruct prio as [z|]; simpl; [|done]. by intros ?%Z.leb_gt.
  - by intros ->.
  - by intros ->.
  - by intros ->.
  - by intros ->.
  - by intros ->.
Qed.

Lemma filter_tags_transparent_witness :
  nofailover (_filter_tags [("nofailover", VBool false); ("failover_priority", VInt 0); ("nosync", VBool false)])
  = Ok false.
Proof.
  destruct (filter_tags_transparent
    [("nofailover", VBool false); ("failover_priority", VInt 0); ("nosync", VBool false)]) as (_ & -> & _);
    [by apply (bool_decide_unpack _)|]. vm_compute. reflexivity.
Defined.

Lemma bool_tag_priority_witness :
  _bool_tag [("failover_priority", VStr "0")] "nofailover" "failover_priority" = Ok true ∧ 0 <= 0.
Proof.
  split; [vm_compute; reflexivity|].
  apply (bool_tag_priority (A := dict pyval) [("failover_priority", VStr "0")] "nofailover" "failover_priority" true 0);
    vm_compute; reflexivity.
Defined.
