(* ===== verification/DcsData.v ===== *)
(** * The data kept in the DCS ([patroni/dcs/__init__.py], first part)

    The named tuples that represent the keys of a cluster in the Distributed
    Configuration Store - [Member], [Leader], [Failover], [ClusterConfig],
    [SyncState], [TimelineHistory], [Status] and [Cluster] - with their
    factories [from_node] and their properties.  A version or session is any
    value.  A field whose type is only an annotation in the source holds any
    JSON value ([pyval]); a property that requires a string raises on others.

    Dates are values of the interface [Datetime] ([dateutil.parser.parse] and
    [isoformat] are not code of the repository). *)
From S2P Require Import Prelude Lexing PyDict PyVal PyNum Json Utils Tags.

Open Scope string_scope.
Open Scope Z_scope.

Class Datetime := {
  datetime : Type;
  date_parse : pyval → exc datetime;
  isoformat : datetime → string;
  parse_isoformat : ∀ d, date_parse (VStr (isoformat d)) = Ok d;
  isoformat_nonempty : ∀ d, isoformat d ≠ "";
}.

(** Dates as texts, after a mark *)
Definition text_datetime : Datetime := {|
  datetime := string;
  date_parse v := match v with VStr (String _ s) => Ok s | _ => Raise ValueError end;
  isoformat s := String "@" s;
  parse_isoformat d := eq_refl;
  isoformat_nonempty d := λ H, match H with end;
|}.

(** ** Slot names *)

Definition slot_char (c : ascii) : bool :=
  is_digit c || Ascii.eqb c "_" || bool_decide (97 ≤ nat_of_ascii c ≤ 122)%nat.

(** [f"u{ord(c):04d}"] for a character of the model *)
Definition code_point_text (c : ascii) : string :=
  let n := Z.of_nat (nat_of_ascii c) in
  "u0" +:+ pretty (n / 100) +:+ pretty (n / 10 mod 10) +:+ pretty (n mod 10).

Definition replace_char (c : ascii) : string :=
  if slot_char c then String c ""
  else if Ascii.eqb c "-" || Ascii.eqb c "." then "_" else code_point_text c.

(** [slot_name_from_member_name]; [s[0:63]] *)
Definition slot_name_from_member_name (member_name : string) : string :=
  String.substring 0 63 (concat_chars replace_char (Str.lower member_name)).

(** ** Members *)

Record Member := MkMember { m_version : pyval; m_name : string; m_session : pyval; m_data : dict pyval }.

#[export] Instance member_tags : Tags Member := λ m,
  match vget_or "tags" (VDict []) (m_data m) with VDict d => d | _ => [] end.

(** [json.loads] of a value read from the DCS: not a string is [TypeError] *)
Definition json_loads `{!Json} (value : pyval) : exc pyval :=
  match value with VStr s => loads s | _ => Raise TypeError end.

(** [data = json.loads(value)] when it is a dictionary, [{}] on any caught error *)
Definition loads_dict `{!Json} (value : pyval) : option (dict pyval) :=
  match json_loads value with Ok (VDict d) => Some d | _ => None end.

Definition starts_with_db (value : string) : bool :=
  String.prefix "postgres" value || String.prefix "mysql" value.

(** [Member.from_node]; the URL format of the first versions is split by
    [parse_connection_string] (urllib). *)
Definition member_from_node `{!Json} (parse_connection_string : string → pyval * pyval)
    (version : pyval) (name : string) (session : pyval) (value : string) : Member :=
  let data :=
    if starts_with_db value then
      let '(conn_url, api_url) := parse_connection_string value in
      [("conn_url", conn_url); ("api_url", api_url)]
    else default [] (loads_dict (VStr value)) in
  MkMember version name session data.

(** [Member.conn_url]: the value and the data after memoising it *)
Definition conn_url (m : Member) : exc (pyval * Member) :=
  if truthy (vget "conn_url" (m_data m)) then mret (vget "conn_url" (m_data m), m)
  else if truthy (vget "conn_kwargs" (m_data m)) then
    match vget "conn_kwargs" (m_data m) with
    | VDict kw =>
        let db_type := vget_or "db_type" (VStr "postgresql") kw in
        let default_port := VInt (if pyval_eqb db_type (VStr "mysql") then 3306 else 5432) in
        url ← uri db_type (vget "host" kw) (vget_or "port" default_port kw) "" "";
        mret (VStr url, MkMember (m_version m) (m_name m) (m_session m) (Dict.set "conn_url" (VStr url) (m_data m)))
    | _ => Raise AttributeError
    end
  else mret (VNone, m).

Definition api_url (m : Member) : pyval := vget "api_url" (m_data m).

(** [Member.clonefrom]: the tag and a connection URL *)
Definition member_clonefrom (m : Member) : exc bool :=
  if truthy (clonefrom_tag m) then r ← conn_url m; mret (truthy r.1) else mret false.

Definition state (m : Member) : pyval := vget_or "state" (VStr "unknown") (m_data m).
Definition is_running (m : Member) : bool := pyval_eqb (state m) (VStr "running").

Fixpoint all_some {A} (l : list (option A)) : option (list A) :=
  match l with
  | [] => Some []
  | Some x :: l' => match all_some l' with Some r => Some (x :: r) | None => None end
  | None :: _ => None
  end.

(** [Member.patroni_version]: every failure is caught *)
Definition patroni_version (m : Member) : option (list Z) :=
  match vget "version" (m_data m) with
  | VStr s => if (s =? "")%string then None else all_some (map int_of_string (Str.split_on "." s))
  | _ => None
  end.

(** Comparison of tuples of integers *)
Fixpoint tuple_ltb (a b : list Z) : bool :=
  match a, b with
  | _, [] => false
  | [], _ :: _ => true
  | x :: a', y :: b' => (x <? y) || ((x =? y) && tuple_ltb a' b')
  end.

(** [Member.lsn], [receive_lsn], [replay_lsn] *)
Definition lsn_of (key mysql_key : string) (m : Member) : exc (option Z) :=
  parse_int (py_or (vget key (m_data m)) (vget mysql_key (m_data m))) VNone.
Definition lsn : Member → exc (option Z) := lsn_of "xlog_location" "binlog_position".
Definition receive_lsn : Member → exc (option Z) := lsn_of "receive_lsn" "receive_binlog_position".
Definition replay_lsn : Member → exc (option Z) := lsn_of "replay_lsn" "replay_binlog_position".

(** [RemoteMember] *)
Definition remote_member (name : string) (data : dict pyval) : Member := MkMember (VInt (-1)) name VNone data.
Definition ALLOWED_KEYS : list string :=
  ["primary_slot_name"; "create_replica_methods"; "restore_command"; "archive_cleanup_command";
   "recovery_min_apply_delay"; "no_replication_slot"].
Definition remote_member_getattr (m : Member) (name : string) : pyval :=
  if decide (name ∈ ALLOWED_KEYS) then vget name (m_data m) else VNone.

(** ** The leader *)

Record Leader := MkLeader { l_version : pyval; l_session : pyval; l_member : Member }.

Definition l_name (l : Leader) : string := m_name (l_member l).
Definition l_timeline (l : Leader) : pyval := vget "timeline" (m_data (l_member l)).

Definition checkpoint_after_promote (l : Leader) : option bool :=
  match patroni_version (l_member l) with
  | Some ((_ :: _) as version) =>
      if tuple_ltb [1; 5; 6] version then
        Some (bool_decide (vget "role" (m_data (l_member l)) ∈ [VStr "master"; VStr "primary"]) &&
              negb (Dict.mem "checkpoint_after_promote" (m_data (l_member l))))
      else None
  | _ => None
  end.

(** ** Failover requests *)

Record Failover `{!Datetime} := MkFailover {
  f_version : pyval; f_leader : pyval; f_candidate : pyval; f_scheduled_at : option datetime
}.
Arguments MkFailover {_} _ _ _ _.

Definition failover_of_dict `{!Datetime} (version : pyval) (data : dict pyval) : exc Failover :=
  if truthy (vget "scheduled_at" data) then
    d ← date_parse (vget "scheduled_at" data);
    mret (MkFailover version (vget "leader" data) (vget "member" data) (Some d))
  else mret (MkFailover version (vget "leader" data) (vget "member" data) None).

(** [Failover.from_node]: a falsy [scheduled_at] is kept as it is by the code, and
    read only for its truth value. *)
Definition failover_from_node `{!Json, !Datetime} (version : pyval) (value : pyval) : exc Failover :=
  match value with
  | VDict data => failover_of_dict version data
  | _ =>
      if truthy value then
        match json_loads value with
        | Ok (VDict data) => failover_of_dict version data
        | Ok _ => failover_of_dict version []
        | Raise ValueError =>
            match value with
            | VStr s =>
                let t := map Str.strip (Str.split_on ":" s) in
                mret (MkFailover version (VStr (default "" (t !! 0%nat)))
                        (match t !! 1%nat with Some c => VStr c | None => VNone end) None)
            | _ => Raise ValueError
            end
        | Raise e => Raise e
        end
      else failover_of_dict version []
  end.

(** [Failover.__len__]; [bool(failover)] *)
Definition failover_len `{!Datetime} (f : Failover) : nat :=
  ((if truthy (f_leader f) then 1 else 0) + (if truthy (f_candidate f) then 1 else 0))%nat.
Definition failover_truthy `{!Datetime} (f : Failover) : bool := negb (failover_len f =? 0)%nat.

(** ** The dynamic configuration *)

Record ClusterConfig := MkConfig { c_version : pyval; c_data : dict pyval; c_modify_version : pyval }.

(** [ClusterConfig.from_node]; [modify_version] is [VNone] when not given *)
Definition config_from_node `{!Json} (version value modify_version : pyval) : ClusterConfig :=
  let '(data, modify_version) :=
    match loads_dict value with Some d => (d, modify_version) | None => ([], VInt 0) end in
  MkConfig version data (if decide (modify_version = VNone) then version else modify_version).

(** ** The synchronisation state *)

Record SyncState := MkSync { s_version : pyval; s_leader : pyval; s_sync_standby : pyval; s_quorum : Z }.

Definition sync_empty (version : pyval) : SyncState := MkSync version VNone VNone 0.

(** The body of the [try] of [SyncState.from_node] *)
Definition sync_of_value (version : pyval) (value : exc pyval) : exc SyncState :=
  value ← value;
  match value with
  | VDict d =>
      let leader := vget "leader" d in
      let quorum := vget "quorum" d in
      q ← (if truthy leader && truthy quorum then py_int quorum else Ok 0);
      mret (MkSync version leader (vget "sync_standby" d) q)
  | _ => Raise AssertionFailure
  end.

(** [SyncState.from_node] *)
Definition sync_from_node `{!Json} (version : pyval) (value : pyval) : SyncState :=
  let parsed := match value with VStr s => if truthy value then loads s else Ok value | _ => Ok value end in
  match sync_of_value version parsed with Ok s => s | Raise _ => sync_empty version end.

Definition s_is_empty (s : SyncState) : bool := negb (truthy (s_leader s)).

(** [_str_to_list] *)
Definition _str_to_list (value : string) : list string :=
  List.filter (λ a, negb (a =? "")%string) (map Str.strip (Str.split_on "," value)).

(** A value that must be a string: the attribute access of a method of [str] *)
Definition need_str (v : pyval) : exc string :=
  match v with VStr s => Ok s | _ => Raise AttributeError end.

Fixpoint need_strs (l : list pyval) : exc (list string) :=
  match l with
  | [] => mret []
  | v :: l' => s ← need_str v; r ← need_strs l'; mret (s :: r)
  end.

Definition voters (s : SyncState) : exc (list string) :=
  if negb (s_is_empty s) && truthy (s_sync_standby s)
  then v ← need_str (s_sync_standby s); mret (_str_to_list v) else mret [].

(** [members]; the leader, of whatever type, comes first *)
Definition sync_members (s : SyncState) : exc (list pyval) :=
  if truthy (s_leader s) then v ← voters s; mret (s_leader s :: map VStr v) else mret [].

(** [a or ''] for a value that is then concatenated to a string *)
Definition or_empty (v : pyval) : exc string :=
  match v with
  | VStr s => Ok s
  | _ => if truthy v then Raise TypeError else Ok ""
  end.

(** [matches]; [name] is a string or [None] *)
Definition matches (s : SyncState) (name : option string) (check_leader : bool) : exc bool :=
  match name with
  | Some n =>
      if negb (n =? "")%string && negb (s_is_empty s) then
        standby ← or_empty (s_sync_standby s);
        tail ← (if check_leader then l ← or_empty (s_leader s); mret ("," +:+ l) else mret "");
        mret (bool_decide (Str.lower n ∈ _str_to_list (Str.lower (standby +:+ tail))))
      else mret false
  | None => mret false
  end.

(** [leader_matches] *)
Definition leader_matches (s : SyncState) (name : option string) : exc bool :=
  match name with
  | Some n =>
      if negb (n =? "")%string && negb (s_is_empty s) then
        l ← need_str (s_leader s); mret (Str.lower n =? Str.lower l)%string
      else mret false
  | None => mret false
  end.

(** ** Timeline history *)

Record TimelineHistory := MkHistory { h_version : pyval; h_value : pyval; h_lines : list pyval }.

Definition history_from_node `{!Json} (version value : pyval) : TimelineHistory :=
  MkHistory version value (match json_loads value with Ok (VList l) => l | _ => [] end).

(** ** The [/status] key *)

Record Status := MkStatus { last_lsn : Z; st_slots : option (dict pyval); retain_slots : list pyval }.

Definition status_empty : Status := MkStatus 0 None [].

Definition status_is_empty (s : Status) : bool :=
  (last_lsn s =? 0) && (if st_slots s is Some _ then false else true) &&
  (if retain_slots s is [] then true else false).

(** A field that may itself be a JSON text *)
Definition nested_json `{!Json} (v : pyval) : exc pyval :=
  match v with VStr s => loads s | _ => Ok v end.

(** [Status.from_node] *)
Definition status_from_node `{!Json} (value : pyval) : Status :=
  match nested_json value with
  | Raise _ => status_empty
  | Ok (VInt n) => MkStatus n None []
  | Ok (VBool b) => MkStatus (if b then 1 else 0) None []
  | Ok (VDict d) =>
      let last_lsn := match py_int (vget_or "optime" (VStr "") d) with Ok n => n | Raise _ => 0 end in
      let slots := match nested_json (vget "slots" d) with Ok (VDict s) => Some s | _ => None end in
      let retain_slots := match nested_json (vget "retain_slots" d) with Ok (VList l) => l | _ => [] end in
      MkStatus last_lsn slots retain_slots
  | Ok _ => status_empty
  end.

(** ** The cluster *)

Inductive Cluster `{!Datetime} := MkCluster {
  initialize : option string;
  config : option ClusterConfig;
  leader : option Leader;
  status : Status;
  members : list Member;
  failover : option Failover;
  sync : SyncState;
  history : option TimelineHistory;
  failsafe : option (dict pyval);
  workers : list (Z * Cluster);
}.
Arguments MkCluster {_} _ _ _ _ _ _ _ _ _ _.

(** [Cluster.empty] *)
Definition cluster_empty `{!Datetime} : Cluster :=
  MkCluster None None None status_empty [] None (sync_empty VNone) None None [].

Section cluster.
Context `{!Datetime}.
Implicit Types (c : Cluster).

Definition is_none {A} (o : option A) : bool := if o is Some _ then false else true.
Definition is_nil {A} (l : list A) : bool := if l is [] then true else false.

(** [is_empty]; [__len__], hence [bool(cluster)] *)
Definition is_empty c : bool :=
  is_none (initialize c) && is_none (config c) && is_none (leader c) && status_is_empty (status c) &&
  is_nil (members c) && is_none (failover c) && bool_decide (s_version (sync c) = VNone) &&
  is_none (history c) && is_none (failsafe c) && is_nil (workers c).
Definition cluster_len c : nat := if is_empty c then 0%nat else 1%nat.
Definition cluster_truthy c : bool := negb (cluster_len c =? 0)%nat.

Definition leader_name c : option string := l_name <$> leader c.

(** [is_unlocked] *)
Definition is_unlocked c : bool :=
  match leader_name c with Some n => (n =? "")%string | None => true end.

Definition has_member c (member_name : pyval) : bool :=
  existsb (λ m, pyval_eqb (VStr (m_name m)) member_name) (members c).

Definition find_member c (member_name : pyval) : option Member :=
  List.find (λ m, pyval_eqb (VStr (m_name m)) member_name) (members c).

(** [get_member] *)
Definition get_member c (member_name : pyval) (fallback_to_leader : bool) : option (Member + Leader) :=
  match find_member c member_name with
  | Some m => Some (inl m)
  | None => if fallback_to_leader then inr <$> leader c else None
  end.

(** [l] without the elements on which [p] is false; the first exception is raised *)
Fixpoint filterM {A} (p : A → exc bool) (l : list A) : exc (list A) :=
  match l with
  | [] => mret []
  | x :: l' => b ← p x; r ← filterM p l'; mret (if b : bool then x :: r else r)
  end.

(** [get_clone_member]; [rand n] is [randint(0, n - 1)] *)
Definition get_clone_member c (rand : nat → nat) (exclude_name : string) : exc (option (Member + Leader)) :=
  let exclude := exclude_name :: match leader c with Some l => [l_name l] | None => [] end in
  candidates ← filterM (λ m,
    b ← member_clonefrom m;
    mret (b && is_running m && bool_decide (m_name m ∉ exclude))) (members c);
  match candidates with
  | [] => mret (inr <$> leader c)
  | _ => match candidates !! rand (length candidates) with
         | Some m => mret (Some (inl m))
         | None => Raise IndexError
         end
  end.

(** [timeline] *)
Definition timeline c : Z :=
  match history c with
  | None => 0
  | Some h =>
      match last (h_lines h) with
      | Some line =>
          let first := match line with
                       | VList (x :: _) => py_int x
                       | VStr (String ch _) => py_int (VStr (String ch ""))
                       | _ => Raise ValueError
                       end in
          match first with Ok n => n + 1 | Raise _ => 0 end
      | None => if pyval_eqb (h_value h) (VStr "[]") then 1 else 0
      end
  end.

(** [min_version]: the least element is the first of the sorted list *)
Definition min_version c : option (list Z) :=
  let versions := omap (λ m, match patroni_version m with Some ((_ :: _) as v) => Some v | _ => None end) (members c) in
  match versions with
  | [] => None
  | v :: vs => Some (foldl (λ acc v, if tuple_ltb v acc then v else acc) v vs)
  end.

(** [slots] *)
Fixpoint mapM_items {A B} (f : A → exc B) (d : dict A) : exc (dict B) :=
  match d with
  | [] => mret []
  | (k, v) :: d' => r ← f v; d'' ← mapM_items f d'; mret ((k, r) :: d'')
  end.

Definition slots c : exc (dict Z) :=
  mapM_items (λ v, n ← parse_int v VNone; mret (default 0 (n : option Z))) (default [] (st_slots (status c))).
End cluster.
