(* ===== verification/GlobalConfig.v ===== *)
(** * The global configuration ([patroni/global_config.py])

    The module object's state is the dictionary [__config]; its properties are
    functions of that state.  [deepcopy] is the identity on immutable values. *)
From S2P Require Import Prelude PyDict PyVal PyNum Utils Tags DcsData.

Open Scope string_scope.
Open Scope Z_scope.

Definition GlobalConfig := dict pyval.

(** [__init__] *)
Definition global_config_init : GlobalConfig := [].

Section from_cluster.
Context `{!Datetime}.

(** [_cluster_has_valid_config]: the configuration it has, when it is valid *)
Definition _cluster_has_valid_config (cluster : option Cluster) : option ClusterConfig :=
  match cluster with
  | Some c =>
      if cluster_truthy c then
        match config c with
        | Some conf => if truthy (c_modify_version conf) then Some conf else None
        | None => None
        end
      else None
  | None => None
  end.

(** [update]; [default] is [None] or a dictionary *)
Definition update (self : GlobalConfig) (cluster : option Cluster) (default : option (dict pyval)) : GlobalConfig :=
  match _cluster_has_valid_config cluster with
  | Some conf => c_data conf
  | None => match default with
            | Some ((_ :: _) as d) => d
            | _ => self
            end
  end.

(** [from_cluster] *)
Definition from_cluster (self : GlobalConfig) (cluster : option Cluster) : GlobalConfig :=
  match _cluster_has_valid_config cluster with
  | None => self
  | Some _ => update global_config_init cluster None
  end.
End from_cluster.

Section getters.
Implicit Types (self : GlobalConfig) (name mode : string).

Definition get self name : pyval := vget name self.

(** [check_mode] *)
Definition check_mode self mode : bool := default false (parse_bool (get self mode)).

Definition is_paused self : bool := check_mode self "pause".

Definition is_quorum_commit_mode self : bool :=
  (Str.lower (py_str (get self "synchronous_mode")) =? "quorum")%string.

Definition get_standby_cluster_config self : pyval := get self "standby_cluster".

Definition is_standby_cluster self : bool :=
  match get_standby_cluster_config self with
  | VDict config => existsb (λ p, truthy (vget p config)) ["host"; "port"; "restore_command"]
  | _ => false
  end.

Definition is_synchronous_mode self : bool :=
  (check_mode self "synchronous_mode" || is_quorum_commit_mode self) && negb (is_standby_cluster self).

Definition is_synchronous_mode_strict self : bool := check_mode self "synchronous_mode_strict".

(** [get_int] *)
Definition get_int self name (dflt : Z) (base_unit : pyval) : exc Z :=
  ret ← parse_int (get self name) base_unit;
  mret (default dflt (ret : option Z)).

Definition min_synchronous_nodes self : Z := if is_synchronous_mode_strict self then 1 else 0.

Definition synchronous_node_count self : exc Z :=
  n ← get_int self "synchronous_node_count" 1 VNone;
  mret (Z.max n (min_synchronous_nodes self)).

Definition maximum_lag_on_failover self : exc Z := get_int self "maximum_lag_on_failover" 1048576 VNone.
Definition maximum_lag_on_syncnode self : exc Z := get_int self "maximum_lag_on_syncnode" (-1) VNone.

Definition primary_start_timeout self : exc Z :=
  if Dict.mem "primary_start_timeout" self then get_int self "primary_start_timeout" 300 VNone
  else get_int self "master_start_timeout" 300 VNone.

Definition primary_stop_timeout self : exc Z :=
  if Dict.mem "primary_stop_timeout" self then get_int self "primary_stop_timeout" 0 VNone
  else get_int self "master_stop_timeout" 0 VNone.

Definition ignore_slots_matchers self : pyval := py_or (get self "ignore_slots") (VList []).

Definition max_timelines_history self : exc Z := get_int self "max_timelines_history" 0 VNone.

(** [use_slots] *)
Definition use_slots self : exc bool :=
  match py_or (get self "postgresql") (VDict []) with
  | VDict pg => mret (default false (parse_bool (vget_or "use_slots" (VBool true) pg)))
  | _ => Raise AttributeError
  end.

(** [permanent_slots] *)
Definition permanent_slots self : pyval :=
  py_or (get self "permanent_replication_slots")
    (py_or (get self "permanent_slots") (py_or (get self "slots") (VDict []))).

Definition member_slots_ttl self : exc Z := get_int self "member_slots_ttl" 1800 (VStr "s").
End getters.

(** ** Properties *)

Section properties.
Context `{!Datetime}.
Implicit Types (self : GlobalConfig) (c : Cluster).

Lemma valid_config_spec c conf :
  _cluster_has_valid_config (Some c) = Some conf ↔
  config c = Some conf ∧ truthy (c_modify_version conf) = true.
Proof.
  unfold _cluster_has_valid_config. split.
  - destruct (cluster_truthy c); [|done]. destruct (config c) as [conf'|]; [|done].
    destruct (truthy _) eqn:E; naive_solver.
  - intros [Hc Ht]. assert (cluster_truthy c = true) as ->.
    { unfold cluster_truthy, cluster_len, is_empty. rewrite Hc. by destruct (is_none _). }
    by rewrite Hc, Ht.
Qed.

(** Losing the DCS never loses the configuration: whatever sequence of cluster
    views is seen, the configuration in force is that of the last view that had a
    valid one, the initial one if there was none. *)
Theorem update_keeps_last_valid self (views : list (option Cluster)) :
  foldl (λ g v, update g v None) self views =
  default self (c_data <$> last (omap _cluster_has_valid_config views)).
Proof.
  revert self. induction views as [|v views IH]; intros self; [done|]. simpl. rewrite IH.
  unfold update. destruct (_cluster_has_valid_config v) as [conf|]; [|done].
  rewrite last_cons. by destruct (last _).
Qed.

End properties.
