(* ===== verification/Slots.v ===== *)
(** * Replication slots of a cluster ([patroni/dcs/__init__.py], [Cluster])

    Which replication slots a node must have: the slots of the members that may
    stream from it, the retained slots of absent members and the permanent slots
    of the configuration.  Log messages are not modelled. *)
From S2P Require Import Prelude Lexing PyDict PyVal PyNum Utils Tags DcsData GlobalConfig.

Open Scope string_scope.
Open Scope Z_scope.

(** [PostgresqlRole] *)
Inductive PostgresqlRole :=
  PRIMARY | MASTER | STANDBY_LEADER | REPLICA | DEMOTED | UNINITIALIZED | PROMOTED.

#[export] Instance role_eq_dec : EqDecision PostgresqlRole.
Proof. solve_decision. Defined.

(** What the slots code reads of a [Postgresql] object *)
Record Postgresql := MkPostgresql { pg_name : string; pg_role : PostgresqlRole; can_advance_slots : bool }.

(** An object with tags: a [Member], or the running node itself. *)
Inductive node := NMember (m : Member) | NSelf (own_tags : dict pyval).

#[export] Instance node_tags : Tags node := λ n,
  match n with NMember m => tags m | NSelf d => d end.

(** [is_logical_slot], [is_physical_slot] *)
Definition is_logical_slot (value : pyval) : bool :=
  match value with
  | VDict d => pyval_eqb (vget_or "type" (VStr "logical") d) (VStr "logical")
               && truthy (vget "database" d) && truthy (vget "plugin" d)
  | _ => false
  end.

Definition is_physical_slot (value : pyval) : bool :=
  negb (truthy value) ||
  match value with
  | VDict d => negb (is_logical_slot value) && pyval_eqb (vget_or "type" (VStr "physical") d) (VStr "physical")
  | _ => false
  end.

(** [slot_name_re.match]: [$] also matches before a final newline *)
Definition slot_name_re (name : string) : bool :=
  let ok s := Str.all slot_char s && (1 <=? String.length s)%nat && (String.length s <=? 63)%nat in
  ok name || match Str.rev name with
             | String c s => Ascii.eqb c (ascii_of_nat 10) && ok (Str.rev s)
             | "" => false
             end.

Section slots.
Context `{!Datetime} (g : GlobalConfig) (c : Cluster).

(** ** Permanent slots *)

(** [{slot_name_from_member_name(m.name): m.lsn or 0 for m in self.members if m.replicatefrom}] *)
Fixpoint cascading_lsns (ms : list Member) : exc (list (string * Z)) :=
  match ms with
  | [] => mret []
  | m :: ms' =>
      if truthy (replicatefrom m) then
        l ← lsn m; rest ← cascading_lsns ms';
        mret ((slot_name_from_member_name (m_name m), default 0 (l : option Z)) :: rest)
      else cascading_lsns ms'
  end.

(** The [lsn] of one permanent slot *)
Definition permanent_lsn (lsns slots : dict Z) (name : string) (value : pyval) : Z :=
  Z.max (if is_physical_slot value then default 0 (Dict.get name lsns) else 0) (default 0 (Dict.get name slots)).

Definition permanent_slot (lsns slots : dict Z) (name : string) (value : pyval) : pyval :=
  let value := if truthy value then value else VDict [] in
  match value with
  | VDict d =>
      let lsn := permanent_lsn lsns slots name value in
      if lsn =? 0 then VDict (Dict.del "lsn" d) else VDict (Dict.set "lsn" (VInt lsn) d)
  | _ => value
  end.

(** [__permanent_slots] *)
Definition __permanent_slots : exc (dict pyval) :=
  lsns ← cascading_lsns (members c);
  slots ← slots c;
  match permanent_slots g with
  | VDict ret => mret (map (λ kv, (kv.1, permanent_slot (Dict.of_items lsns) slots kv.1 kv.2)) ret)
  | _ => Raise AttributeError
  end.

(** The filter of [permanent_physical_slots]; a physical slot is a dictionary there *)
Definition physical_here (value : pyval) : bool :=
  is_physical_slot value &&
  match value with
  | VDict d => negb (pyval_eqb (vget "cluster_type" d)
                       (VStr (if is_standby_cluster g then "primary" else "standby")))
  | _ => true
  end.

Definition permanent_physical_slots : exc (dict pyval) :=
  p ← __permanent_slots; mret (List.filter (λ kv, physical_here kv.2) p).

Definition __permanent_logical_slots : exc (dict pyval) :=
  p ← __permanent_slots; mret (List.filter (λ kv, is_logical_slot kv.2) p).

(** ** The cascade of a node *)

(** The loop of [get_slot_name_on_primary]; [None] when it runs out of fuel *)
Fixpoint cascade_loop (fuel : nat) (seen_nodes : gset string) (name : string) (n : node) : option (option string) :=
  match fuel with
  | O => None
  | S fuel =>
      let seen_nodes := {[ name ]} ∪ seen_nodes in
      if nostream n then Some None else
      let rf := replicatefrom n in
      let from := if truthy rf && negb (pyval_eqb rf (VStr name)) then find_member c rf else None in
      match from with
      | None => Some (Some (slot_name_from_member_name name))
      | Some m =>
          if decide (m_name m ∈ seen_nodes) then Some None
          else cascade_loop fuel seen_nodes (m_name m) (NMember m)
      end
  end.

(** [get_slot_name_on_primary]: the members and the node itself are enough rounds,
    see [cascade_terminates]. *)
Definition get_slot_name_on_primary (name : string) (n : node) : option string :=
  default None (cascade_loop (S (length (members c))) ∅ name n).

(** ** Slots of the members *)

Definition leader_filter (name : string) (m : Member) : bool :=
  pyval_eqb (replicatefrom m) VNone || pyval_eqb (replicatefrom m) (VStr name) ||
  negb (has_member c (replicatefrom m)).

Definition replica_filter (name : string) (m : Member) : bool :=
  pyval_eqb (replicatefrom m) (VStr name) && negb (bool_decide (Some (m_name m) = leader_name c)).

Definition runs_as_leader (role : PostgresqlRole) : bool :=
  bool_decide (role = PRIMARY ∨ role = STANDBY_LEADER).

(** [expected_active] *)
Definition expected_active (name : string) (role : PostgresqlRole) : Member → bool :=
  if runs_as_leader role then leader_filter name else replica_filter name.

(** The members that get a slot *)
Definition slot_members (name : string) (role : PostgresqlRole) (nofailover can_advance : bool) : exc (list Member) :=
  let members := List.filter (λ m, negb (m_name m =? name)%string && negb (nostream m)) (members c) in
  ttl ← (if can_advance then member_slots_ttl g else Ok 0);
  mret (if can_advance && (0 <? ttl)
        then List.filter (λ m, negb nofailover || pyval_eqb (replicatefrom m) (VStr name)) members
        else List.filter (expected_active name role) members).

(** The slot of one member, and the loop over the members *)
Definition member_slot (slots : dict Z) (name : string) (role : PostgresqlRole) (m : Member) : exc pyval :=
  let lsn0 := default 0 (Dict.get (slot_name_from_member_name (m_name m)) slots) in
  let old_leader := match leader c with
                    | Some l => match patroni_version (l_member l) with
                                | Some ((_ :: _) as v) => tuple_ltb v [4; 0; 0]
                                | _ => false
                                end
                    | None => false
                    end in
  lsn1 ← (if truthy (replicatefrom m) || old_leader
          then l ← lsn m; mret (Z.max (default 0 (l : option Z)) lsn0) else mret lsn0);
  mret (VDict [("type", VStr "physical"); ("lsn", VInt lsn1); ("expected_active", VBool (expected_active name role m))]).

Fixpoint members_loop (slots : dict Z) (name : string) (role : PostgresqlRole) (ms : list Member)
    (ret : dict pyval) : exc (dict pyval) :=
  match ms with
  | [] => mret ret
  | m :: ms' =>
      s ← member_slot slots name role m;
      members_loop slots name role ms' (Dict.set (slot_name_from_member_name (m_name m)) s ret)
  end.

(** The names in [retain_slots]; a name that is not a string is outside the model *)
Fixpoint slot_names (l : list pyval) : exc (list string) :=
  match l with
  | [] => mret []
  | VStr s :: l' => r ← slot_names l'; mret (s :: r)
  | _ :: _ => Raise TypeError
  end.

(** [_get_members_slots] *)
Definition _get_members_slots (name : string) (role : PostgresqlRole) (nofailover can_advance : bool)
    : exc (dict pyval) :=
  use ← use_slots g;
  if negb use then mret [] else
  ms ← slot_members name role nofailover can_advance;
  slots ← slots c;
  ret ← members_loop slots name role ms [];
  retained ← slot_names (retain_slots (status c));
  let own := slot_name_from_member_name name in
  let kept := List.filter (λ s, negb nofailover && negb (Dict.mem s ret) && negb (s =? own)%string) retained in
  mret (Dict.update ret (map (λ s, (s, VDict [("type", VStr "physical")])) kept)).

(** ** Merging with the permanent slots *)

(** [topology]: whose slot each member's slot hangs from, if any *)
Fixpoint topology_of (ms : list Member) : exc (list (string * pyval)) :=
  match ms with
  | [] => mret []
  | m :: ms' =>
      from ← (if truthy (replicatefrom m)
              then s ← need_str (replicatefrom m); mret (VStr (slot_name_from_member_name s))
              else mret (replicatefrom m));
      rest ← topology_of ms';
      mret ((slot_name_from_member_name (m_name m), from) :: rest)
  end.

(** One round of the loop of [_merge_permanent_slots]: the slots and the disabled
    logical slots *)
Definition merge_slot (topology : dict pyval) (name : string) (role : PostgresqlRole) (can_advance : bool)
    (acc : dict pyval * list string) (item : string * pyval) : dict pyval * list string :=
  let '(slots, disabled) := acc in
  let '(slot_name, value) := item in
  if negb (slot_name_re slot_name) then acc else
  match (if truthy value then value else VDict [("type", VStr "physical")]) with
  | VDict d =>
      let d := if Dict.mem "type" d then d
               else Dict.set "type" (VStr (if truthy (vget "database" d) && truthy (vget "plugin" d)
                                           then "logical" else "physical")) d in
      if pyval_eqb (vget "type" d) (VStr "physical") then
        if negb (Dict.mem slot_name slots) && negb (slot_name =? name)%string then
          let active := negb (truthy (vget slot_name topology)) && runs_as_leader role in
          (Dict.set slot_name (VDict (Dict.set "expected_active" (VBool active) d)) slots, disabled)
        else acc
      else if is_logical_slot (VDict d) then
        if negb can_advance then (slots, (disabled ++ [slot_name])%list)
        else if Dict.mem slot_name slots then acc
        else (Dict.set slot_name (VDict d) slots, disabled)
      else acc
  | _ => acc
  end.

(** [_merge_permanent_slots] *)
Definition _merge_permanent_slots (slots permanent_slots : dict pyval) (name : string) (role : PostgresqlRole)
    (can_advance : bool) : exc (dict pyval * list string) :=
  let name := slot_name_from_member_name name in
  topology ← topology_of (members c);
  mret (foldl (merge_slot (Dict.of_items topology) name role can_advance) (slots, []) permanent_slots).

(** [_get_permanent_slots] *)
Definition _get_permanent_slots (pg : Postgresql) (n : node) (role : PostgresqlRole) : exc (dict pyval) :=
  use ← use_slots g;
  if negb use then mret [] else
  nofail ← nofailover n;
  if nofail : bool then mret [] else
  if is_standby_cluster g || is_none (get_slot_name_on_primary (pg_name pg) n) then
    if can_advance_slots pg || bool_decide (role = STANDBY_LEADER) then permanent_physical_slots else mret []
  else if can_advance_slots pg || bool_decide (role = PRIMARY) then __permanent_slots
  else __permanent_logical_slots.

Definition node_name (pg : Postgresql) (n : node) : string :=
  match n with NMember m => m_name m | NSelf _ => pg_name pg end.

(** [get_replication_slots] *)
Definition get_replication_slots (pg : Postgresql) (n : node) (role : option PostgresqlRole) : exc (dict pyval) :=
  let name := node_name pg n in
  let role := default (pg_role pg) role in
  nofail ← nofailover n;
  slots ← _get_members_slots name role nofail (can_advance_slots pg);
  permanent ← _get_permanent_slots pg n role;
  r ← _merge_permanent_slots slots permanent name role (can_advance_slots pg);
  mret r.1.

(** [has_permanent_slots] *)
Definition has_permanent_slots (pg : Postgresql) (n : node) : exc bool :=
  nofail ← nofailover n;
  members_slots ← _get_members_slots (pg_name pg) REPLICA nofail (can_advance_slots pg);
  permanent ← _get_permanent_slots pg n REPLICA;
  r ← _merge_permanent_slots members_slots permanent (pg_name pg) REPLICA (can_advance_slots pg);
  mret ((length members_slots <? length r.1)%nat || existsb (λ kv, is_physical_slot kv.2) permanent).

(** [maybe_filter_permanent_slots] *)
Definition maybe_filter_permanent_slots (pg : Postgresql) (slots : dict Z) : exc (dict Z) :=
  ttl ← member_slots_ttl g;
  if 0 <? ttl then mret slots else
  permanent ← _get_permanent_slots pg (NMember (remote_member "" [])) REPLICA;
  let members_slots := map (λ m, slot_name_from_member_name (m_name m)) (members c) in
  mret (List.filter (λ kv,
    match Dict.get kv.1 permanent with
    | Some v => is_physical_slot v || (is_logical_slot v && bool_decide (kv.1 ∉ members_slots))
    | None => false
    end) slots).

(** [_has_permanent_logical_slots] *)
Definition _has_permanent_logical_slots (pg : Postgresql) (n : node) : exc bool :=
  slots ← get_replication_slots pg n (Some REPLICA);
  mret (existsb (λ kv, match kv.2 with VDict d => pyval_eqb (vget "type" d) (VStr "logical") | _ => false end) slots).

(** [any(p(x) for x in l)]: stops at the first true *)
Fixpoint anyM {A} (p : A → exc (option bool)) (l : list A) : exc (option bool) :=
  match l with
  | [] => mret (Some false)
  | x :: l' => b ← p x;
               match b with
               | Some true => mret (Some true)
               | Some false => anyM p l'
               | None => mret None
               end
  end.

(** [should_enforce_hot_standby_feedback]; [None] when it runs out of fuel *)
Fixpoint enforce_feedback (fuel : nat) (pg : Postgresql) (n : node) : exc (option bool) :=
  match fuel with
  | O => mret None
  | S fuel =>
      b ← _has_permanent_logical_slots pg n;
      if b : bool then mret (Some true) else
      use ← use_slots g;
      if negb use then mret (Some false) else
      let name := node_name pg n in
      match get_slot_name_on_primary name n with
      | None | Some "" => mret (Some false)
      | Some _ =>
          anyM (λ m, enforce_feedback fuel pg (NMember m))
            (List.filter (replica_filter name) (members c))
      end
  end.

Definition should_enforce_hot_standby_feedback (pg : Postgresql) (n : node) : exc (option bool) :=
  enforce_feedback (S (S (length (members c)))) pg n.
End slots.

(** * Properties of replication slots

    Cascading replication always ends at a node that streams from the primary or
    is recognised as broken; the decision on [hot_standby_feedback] terminates
    unless a member replicates from itself; the members that may stream from a node
    have a slot on it, and permanent slots never displace them. *)

(** ** Names of slots *)

Lemma all_substring p s n : Str.all p s = true → Str.all p (String.substring 0 n s) = true.
Proof.
  revert n. induction s as [|c s IH]; intros [|n]; try done. simpl. intros [-> H]%andb_prop. by rewrite IH.
Qed.

Lemma length_substring s n : (String.length (String.substring 0 n s) ≤ n)%nat.
Proof. revert n. induction s as [|c s IH]; intros [|n]; simpl; try lia. specialize (IH n). lia. Qed.

Lemma all_concat_chars p f s : (∀ c, Str.all p (f c) = true) → Str.all p (concat_chars f s) = true.
Proof. intros Hf. induction s as [|c s IH]; simpl; [done|]. by rewrite Str.all_app, Hf, IH. Qed.

Lemma replace_char_ok c : Str.all slot_char (replace_char c) = true ∧ replace_char c ≠ "".
Proof.
  destruct c as [[] [] [] [] [] [] [] []]; (split; [vm_compute; reflexivity|vm_compute; discriminate]).
Qed.

(** Every member name translates to a valid slot name of PostgreSQL: 1 to 63 lower
    case letters, digits and underscores, which the check of permanent slot names
    accepts. *)
Theorem slot_name_valid (member_name : string) :
  member_name ≠ "" →
  let s := slot_name_from_member_name member_name in
  Str.all slot_char s = true ∧ (1 ≤ String.length s ≤ 63)%nat ∧ slot_name_re s = true.
Proof.
  intros Hne s.
  assert (Str.all slot_char s = true) as Ha.
  { apply all_substring, all_concat_chars. intros c. apply replace_char_ok. }
  assert (1 ≤ String.length s ≤ 63)%nat as Hl.
  { split; [|apply length_substring]. subst s. unfold slot_name_from_member_name.
    destruct member_name as [|c n]; [done|]. cbn [Str.lower concat_chars].
    destruct (replace_char (Str.lower_ascii c)) as [|c' r] eqn:E; [by apply replace_char_ok in E|].
    rewrite Str.str_app_cons. simpl. lia. }
  split_and!; [done|lia|lia|]. unfold slot_name_re. rewrite Ha.
  destruct (Nat.leb_spec 1 (String.length s)); [|lia]. by destruct (Nat.leb_spec (String.length s) 63); [|lia].
Qed.

Section cascade.
Context `{!Datetime} (g : GlobalConfig) (c : Cluster).
Implicit Types (m : Member) (n : node) (name : string).

(** The member a node streams from, [None] for the primary *)
Definition upstream name n : option Member :=
  let rf := replicatefrom n in
  if truthy rf && negb (pyval_eqb rf (VStr name)) then find_member c rf else None.

Definition member_names : gset string := list_to_set (map m_name (members c)).

Lemma find_member_name key m : find_member c key = Some m → key = VStr (m_name m) ∧ m ∈ members c.
Proof.
  unfold find_member. intros Hf. apply List.find_some in Hf as [Hin Heq].
  apply pyval_eqb_eq in Heq. split; [done|by apply list_elem_of_In].
Qed.

Lemma find_member_again key m : find_member c key = Some m → find_member c (VStr (m_name m)) = Some m.
Proof. intros Hf. by destruct (find_member_name _ _ Hf) as [<- _]. Qed.

Lemma upstream_spec name n m : upstream name n = Some m →
  replicatefrom n = VStr (m_name m) ∧ m ∈ members c ∧ m_name m ≠ name ∧ find_member c (VStr (m_name m)) = Some m.
Proof.
  unfold upstream. destruct (truthy _) eqn:Ht; [|done]. simpl.
  destruct (pyval_eqb (replicatefrom n) (VStr name)) eqn:He; [done|]. simpl. intros Hf.
  pose proof (find_member_name _ _ Hf) as [Hr Hin]. split_and!; [done|done| |by eapply find_member_again].
  intros Hn. rewrite Hr, Hn in He. assert (pyval_eqb (VStr name) (VStr name) = true) by (by apply pyval_eqb_eq).
  congruence.
Qed.

Lemma cascade_loop_step fuel seen name n :
  cascade_loop c (S fuel) seen name n =
  if nostream n then Some None else
  match upstream name n with
  | None => Some (Some (slot_name_from_member_name name))
  | Some m => if decide (m_name m ∈ {[ name ]} ∪ seen) then Some None
              else cascade_loop c fuel ({[ name ]} ∪ seen) (m_name m) (NMember m)
  end.
Proof. done. Qed.

Lemma cascade_enough fuel seen name n :
  (size (member_names ∖ ({[ name ]} ∪ seen)) < fuel)%nat → cascade_loop c fuel seen name n ≠ None.
Proof.
  revert seen name n. induction fuel as [|fuel IH]; intros seen name n Hf; [lia|].
  rewrite cascade_loop_step. destruct (nostream n); [done|].
  destruct (upstream name n) as [m|] eqn:Hu; [|done]. case_decide as Hs; [done|]. apply IH.
  apply upstream_spec in Hu as (_ & Hin & _).
  assert (m_name m ∈ member_names) as Hm.
  { unfold member_names. apply elem_of_list_to_set, (list_elem_of_fmap_2 m_name), Hin. }
  assert (size (member_names ∖ ({[ m_name m ]} ∪ ({[ name ]} ∪ seen))) < size (member_names ∖ ({[ name ]} ∪ seen)))%nat; [|lia].
  apply subset_size. split; [set_solver|]. intros Hsub. specialize (Hsub (m_name m)). set_solver.
Qed.

Lemma size_member_names : (size member_names ≤ length (members c))%nat.
Proof. unfold member_names. etrans; [apply size_list_to_set_le|]. by rewrite length_map. Qed.

(** The search for the slot on the primary visits each member at most once: it ends
    for every configuration of [replicatefrom] tags, cycles included. *)
Theorem cascade_terminates name n : cascade_loop c (S (length (members c))) ∅ name n ≠ None.
Proof.
  apply cascade_enough. pose proof size_member_names as Hsz.
  pose proof (subseteq_size (member_names ∖ ({[name]} ∪ ∅)) member_names ltac:(set_solver)). lia.
Qed.
(** [name], with the tags of [n], streams from the primary through [root], [k] hops up. *)
Inductive streams_through : nat → string → node → string → Prop :=
  | streams_directly name n :
      nostream n = false → upstream name n = None → streams_through 0 name n name
  | streams_from k name n m root :
      nostream n = false → upstream name n = Some m →
      streams_through k (m_name m) (NMember m) root → streams_through (S k) name n root.

Lemma streams_unique k k' name n root root' :
  streams_through k name n root → streams_through k' name n root' → k = k' ∧ root = root'.
Proof.
  intros Hs. revert k'. induction Hs as [name n Hn Hu|k name n m root Hn Hu Hs IH]; intros k' Hs';
    inversion Hs' as [|? ? ? m' ? ? Hu' Hs'']; subst; try congruence; [done|].
  assert (m' = m) as -> by congruence. destruct (IH _ Hs'') as [-> ->]. done.
Qed.

Lemma cascade_loop_sound fuel seen name n s :
  cascade_loop c fuel seen name n = Some (Some s) →
  ∃ k root, streams_through k name n root ∧ s = slot_name_from_member_name root.
Proof.
  revert seen name n. induction fuel as [|fuel IH]; intros seen name n; [done|].
  rewrite cascade_loop_step. destruct (nostream n) eqn:Hn; [done|].
  destruct (upstream name n) as [m|] eqn:Hu.
  - case_decide; [done|]. intros Hl. destruct (IH _ _ _ Hl) as (k & root & Hs & ->).
    exists (S k), root. split; [by eapply streams_from|done].
  - intros [= <-]. exists 0%nat, name. split; [by apply streams_directly|done].
Qed.

(** Every name already seen is further from the root than the node at hand. *)
Definition behind (k : nat) (seen : gset string) : Prop :=
  ∀ x, x ∈ seen → ∃ k' m root, (k < k')%nat ∧ find_member c (VStr x) = Some m ∧
    streams_through k' x (NMember m) root.

Lemma cascade_loop_complete fuel seen k name m root :
  find_member c (VStr name) = Some m → streams_through k name (NMember m) root →
  behind k seen → cascade_loop c fuel seen name (NMember m) ≠ None →
  cascade_loop c fuel seen name (NMember m) = Some (Some (slot_name_from_member_name root)).
Proof.
  revert seen k name m. induction fuel as [|fuel IH]; intros seen k name m Hf Hs Hb; [done|].
  rewrite cascade_loop_step. inversion Hs as [? ? Hn Hu|k' ? ? m' ? Hn Hu Hs']; subst; rewrite Hn, Hu; [done|].
  apply upstream_spec in Hu as (_ & _ & _ & Hf').
  assert (behind k' ({[ name ]} ∪ seen)) as Hb'.
  { intros x [->%elem_of_singleton|Hx]%elem_of_union; [exists (S k'), m, root; split_and!; [lia|done..]|].
    destruct (Hb x Hx) as (k'' & m'' & r & ? & ? & ?). exists k'', m'', r. split_and!; [lia|done..]. }
  case_decide as Hin.
  - destruct (Hb' _ Hin) as (k'' & m'' & r & Hlt & Hfm & Hs''). assert (m'' = m') as -> by congruence.
    destruct (streams_unique _ _ _ _ _ _ Hs' Hs''). lia.
  - by apply IH with k'.
Qed.

(** The slot found on the primary is the slot of the node through which this node
    streams: when a slot is returned there is a path of [replicatefrom] tags up to a
    node that streams from the primary itself, no node on it having WAL streaming
    disabled, and the slot is that node's; conversely for a member of the cluster a
    path is always found. *)
Theorem cascade_correct name n s :
  (get_slot_name_on_primary c name n = Some s →
   ∃ k root, streams_through k name n root ∧ s = slot_name_from_member_name root) ∧
  (∀ k m root, n = NMember m → find_member c (VStr name) = Some m → streams_through k name n root →
   get_slot_name_on_primary c name n = Some (slot_name_from_member_name root)).
Proof.
  pose proof (cascade_enough (S (length (members c))) ∅ name n) as Ht. unfold get_slot_name_on_primary.
  split.
  - destruct (cascade_loop _ _ _ _ _) as [[r|]|] eqn:E; simpl; intros [= ->]. by eapply cascade_loop_sound.
  - intros k m root -> Hf Hs. rewrite (cascade_loop_complete _ ∅ k name m root); [done|done|done|set_solver|].
    apply Ht. pose proof size_member_names as Hsz.
    pose proof (subseteq_size (member_names ∖ ({[name]} ∪ ∅)) member_names ltac:(set_solver)). lia.
Qed.

(** ** [hot_standby_feedback] *)

(** What the keys under [/members] guarantee, and what an operator must not configure *)
Definition unique_names : Prop := NoDup (map m_name (members c)).
Definition no_self_replication : Prop :=
  ∀ m, m ∈ members c → m_name m ≠ "" ∧ replicatefrom m ≠ VStr (m_name m).

Lemma find_member_self m : unique_names → m ∈ members c → find_member c (VStr (m_name m)) = Some m.
Proof.
  unfold unique_names, find_member. induction (members c) as [|m' ms IH]; [by intros _ ?%elem_of_nil|].
  cbn [map List.find]. intros [Hni Hnd]%NoDup_cons [->|Hin]%elem_of_cons.
  - by assert (pyval_eqb (VStr (m_name m')) (VStr (m_name m')) = true) as -> by (by apply pyval_eqb_eq).
  - destruct (pyval_eqb (VStr (m_name m')) (VStr (m_name m))) eqn:E; [|by apply IH].
    apply pyval_eqb_eq in E. injection E as E'. destruct Hni. rewrite E'. by apply (list_elem_of_fmap_2 m_name).
Qed.

(** The members on a path, counted from the root, are all different. *)
Lemma streams_names k m root : unique_names → m ∈ members c → streams_through k (m_name m) (NMember m) root →
  ∃ l, length l = S k ∧ NoDup l ∧ (∀ x, x ∈ l → x ∈ map m_name (members c) ∧
    ∃ j m' r, (j ≤ k)%nat ∧ find_member c (VStr x) = Some m' ∧ streams_through j x (NMember m') r).
Proof.
  intros Hnd. revert m. induction k as [|k IH]; intros m Hin Hs.
  - exists [m_name m]. split_and!; [done|apply NoDup_singleton|]. intros x ->%list_elem_of_singleton.
    split; [by apply (list_elem_of_fmap_2 m_name)|]. exists 0%nat, m, root.
    split_and!; [done|by apply find_member_self|done].
  - inversion Hs as [|? ? ? m' ? Hn Hu Hs']; subst. apply upstream_spec in Hu as (_ & Hin' & _ & _).
    destruct (IH m' Hin' Hs') as (l & Hl & Hndl & Hall). exists (m_name m :: l). split_and!; [simpl; lia| |].
    + apply NoDup_cons. split; [|done]. intros Hx. destruct (Hall _ Hx) as (_ & j & m'' & r & Hj & Hf & Hs'').
      rewrite find_member_self in Hf by done. simplify_eq.
      destruct (streams_unique _ _ _ _ _ _ Hs Hs''). lia.
    + intros x [->|Hx]%elem_of_cons.
      * split; [by apply (list_elem_of_fmap_2 m_name)|]. exists (S k), m, root.
        split_and!; [done|by apply find_member_self|done].
      * destruct (Hall _ Hx) as (? & j & m'' & r & ? & ? & ?). split; [done|]. exists j, m'', r. split_and!; [lia|done..].
Qed.

Lemma streams_bounded k m root : unique_names → m ∈ members c →
  streams_through k (m_name m) (NMember m) root → (k < length (members c))%nat.
Proof.
  intros Hnd Hin Hs. destruct (streams_names k m root Hnd Hin Hs) as (l & Hl & Hndl & Hall).
  assert (length l ≤ length (map m_name (members c)))%nat as Hle.
  { apply submseteq_length, NoDup_submseteq; [done|]. intros x Hx. by destruct (Hall x Hx). }
  rewrite length_map in Hle. lia.
Qed.

Lemma anyM_decides {A} (p : A → exc (option bool)) l :
  (∀ x, x ∈ l → p x ≠ Ok None) → anyM p l ≠ Ok None.
Proof.
  induction l as [|x l IH]; intros Hp; [done|]. simpl. pose proof (Hp x ltac:(left)) as Hx.
  destruct (p x) as [[[]|]|e]; simpl; try done. apply IH. intros y Hy. apply Hp. by right.
Qed.

(** A member found below [name] is one hop further from the root than [name]. *)
Lemma below m m0 k root : unique_names → no_self_replication →
  m0 ∈ members c → m ∈ List.filter (replica_filter c (m_name m0)) (members c) →
  streams_through k (m_name m) (NMember m) root →
  ∃ k', k = S k' ∧ streams_through k' (m_name m0) (NMember m0) root.
Proof.
  intros Hnd Hself Hin0 Hin Hs. apply list_elem_of_In, List.filter_In in Hin as [Hin%list_elem_of_In Hf].
  unfold replica_filter in Hf. apply andb_prop in Hf as [Hrf%pyval_eqb_eq _].
  assert (upstream (m_name m) (NMember m) = Some m0) as Hu.
  { unfold upstream. change (replicatefrom (NMember m)) with (replicatefrom m). pose proof (Hself m Hin) as [_ Hne].
    rewrite Hrf in Hne |- *. assert (pyval_eqb (VStr (m_name m0)) (VStr (m_name m)) = false) as ->.
    { destruct (pyval_eqb _ _) eqn:E; [|done]. by apply pyval_eqb_eq in E. }
    destruct (truthy (VStr (m_name m0))) eqn:Ht; [by apply find_member_self|].
    destruct (Hself m0 Hin0) as [Hne0 _]. simpl in Ht. by destruct (m_name m0). }
  inversion Hs as [? ? ? Hu'|k' ? ? m' ? Hn Hu' Hs']; subst; [congruence|]. exists k'. split; [done|]. congruence.
Qed.

Lemma enforce_decides fuel pg m : unique_names → no_self_replication → m ∈ members c →
  (0 < fuel)%nat → (∀ k root, streams_through k (m_name m) (NMember m) root → (length (members c) < k + fuel)%nat) →
  enforce_feedback g c fuel pg (NMember m) ≠ Ok None.
Proof.
  intros Hnd Hself. revert m. induction fuel as [|fuel IH]; intros m Hin Hpos Hfuel; [lia|]. cbn [enforce_feedback].
  destruct (_has_permanent_logical_slots g c pg (NMember m)) as [[]|e]; simpl; try done.
  destruct (use_slots g) as [[]|e]; simpl; try done.
  destruct (get_slot_name_on_primary c (m_name m) (NMember m)) as [s|] eqn:Hs; [|done].
  destruct s as [|ch s]; [done|]. apply anyM_decides. intros x Hx.
  assert (x ∈ members c) as Hinx.
  { apply list_elem_of_In, List.filter_In in Hx as [Hx _]. by apply list_elem_of_In. }
  apply cascade_correct in Hs as (k & root & Hk & _). pose proof (Hfuel _ _ Hk) as Hlt.
  pose proof (streams_bounded _ _ _ Hnd Hin Hk). apply IH; [done|lia|].
  intros k' root' Hk'. destruct (below x m k' root' Hnd Hself Hin Hx Hk') as (k'' & -> & Hk'').
  destruct (streams_unique _ _ _ _ _ _ Hk Hk''). lia.
Qed.

(** Deciding whether [hot_standby_feedback] is needed terminates: with member names
    that are the keys they come from, and no member replicating from itself, the
    recursion down the cascade ends whatever the [replicatefrom] tags are. *)
Theorem hot_standby_feedback_terminates pg n :
  unique_names → no_self_replication → should_enforce_hot_standby_feedback g c pg n ≠ Ok None.
Proof.
  intros Hnd Hself. unfold should_enforce_hot_standby_feedback.
  remember (S (length (members c))) as fuel eqn:Hfuel. cbn [enforce_feedback].
  destruct (_has_permanent_logical_slots g c pg n) as [[]|e]; simpl; try done.
  destruct (use_slots g) as [[]|e]; simpl; try done.
  destruct (get_slot_name_on_primary _ _ _) as [s|]; [|done]. destruct s as [|ch s]; [done|].
  apply anyM_decides. intros x Hx.
  assert (x ∈ members c) as Hinx.
  { apply list_elem_of_In, List.filter_In in Hx as [Hx _]. by apply list_elem_of_In. }
  apply enforce_decides; [done|done|done|lia|lia].
Qed.
End cascade.

(** ** A member that replicates from itself *)

(** Two nodes, the second tagged to replicate from itself *)
Definition self_replicating `{!Datetime} : Cluster :=
  MkCluster None None (Some (MkLeader VNone VNone (MkMember VNone "a" VNone []))) status_empty
    [MkMember VNone "a" VNone [];
     MkMember VNone "b" VNone [("tags", VDict [("replicatefrom", VStr "b")])]]
    None (sync_empty VNone) None None [].

(** A member whose [replicatefrom] tag is its own name, which the search for the slot on
    the primary treats as no tag at all, makes the decision on [hot_standby_feedback]
    recurse for ever: no recursion depth is enough. *)
Theorem hot_standby_feedback_diverges `{!Datetime} (fuel : nat) :
  let b := NMember (MkMember VNone "b" VNone [("tags", VDict [("replicatefrom", VStr "b")])]) in
  get_slot_name_on_primary self_replicating "b" b = Some "b" ∧
  enforce_feedback [] self_replicating fuel (MkPostgresql "b" REPLICA true) b = Ok None.
Proof.
  intros b. split; [done|]. induction fuel as [|fuel IH]; [done|]. cbn [enforce_feedback].
  assert (_has_permanent_logical_slots [] self_replicating (MkPostgresql "b" REPLICA true) b = Ok false) as ->
    by (vm_compute; reflexivity).
  assert (use_slots [] = Ok true) as -> by (vm_compute; reflexivity).
  assert (get_slot_name_on_primary self_replicating (node_name (MkPostgresql "b" REPLICA true) b) b = Some "b") as ->
    by (vm_compute; reflexivity).
  assert (List.filter (replica_filter self_replicating (node_name (MkPostgresql "b" REPLICA true) b))
    (members self_replicating) = [MkMember VNone "b" VNone [("tags", VDict [("replicatefrom", VStr "b")])]]) as ->
    by (vm_compute; reflexivity).
  cbn -[enforce_feedback]. fold b. by rewrite IH.
Qed.

(** ** The slots of a node *)

Section node_slots.
Context `{!Datetime} (g : GlobalConfig) (c : Cluster).

Definition slot_of (m : Member) : string := slot_name_from_member_name (m_name m).

Lemma members_loop_other slots name role ms ret ret' k :
  members_loop c slots name role ms ret = Ok ret' → k ∉ map slot_of ms → Dict.get k ret' = Dict.get k ret.
Proof.
  revert ret. induction ms as [|m ms IH]; intros ret; simpl; [by intros [= ->]|].
  destruct (member_slot _ _ _ _ _) as [s|e]; [|done]. simpl. rewrite not_elem_of_cons.
  intros Hl [Hne Hni]. rewrite (IH _ Hl Hni). by apply Dict.get_set_ne.
Qed.

Lemma member_slot_form slots name role m s : member_slot c slots name role m = Ok s →
  ∃ lsn, s = VDict [("type", VStr "physical"); ("lsn", VInt lsn); ("expected_active", VBool (expected_active c name role m))].
Proof.
  unfold member_slot. case_match; simpl; [destruct (lsn m); simpl|]; intros [= <-]; eauto.
Qed.

Lemma members_loop_get slots name role ms ret ret' m :
  members_loop c slots name role ms ret = Ok ret' → NoDup (map slot_of ms) → m ∈ ms →
  ∃ lsn, Dict.get (slot_of m) ret' = Some (VDict [("type", VStr "physical"); ("lsn", VInt lsn);
                                                  ("expected_active", VBool (expected_active c name role m))]).
Proof.
  revert ret. induction ms as [|m' ms IH]; intros ret; [by intros _ _ ?%elem_of_nil|].
  cbn [members_loop map]. destruct (member_slot _ _ _ _ _) as [s|e] eqn:Hs; [|done]. simpl.
  intros Hl [Hni Hnd]%NoDup_cons [->|Hin]%elem_of_cons; [|by eapply IH].
  rewrite (members_loop_other _ _ _ _ _ _ _ Hl Hni). rewrite Dict.get_set_eq.
  destruct (member_slot_form _ _ _ _ _ Hs) as [l ->]. eauto.
Qed.

Lemma get_update_new {V} k (d d' : dict V) v :
  Dict.get k d = Some v → k ∉ Dict.keys d' → Dict.get k (Dict.update d d') = Some v.
Proof.
  unfold Dict.update, Dict.keys. revert d. induction d' as [|[k' v'] d' IH]; intros d Hg; simpl; [done|].
  rewrite not_elem_of_cons. intros [Hne Hni]. apply IH; [|done]. by rewrite Dict.get_set_ne.
Qed.

(** The slots written before the retained ones are kept. *)
Lemma members_slots_get name role nofailover adv ret ms m :
  use_slots g = Ok true → slot_members g c name role nofailover adv = Ok ms →
  _get_members_slots g c name role nofailover adv = Ok ret → NoDup (map slot_of ms) → m ∈ ms →
  ∃ lsn, Dict.get (slot_of m) ret = Some (VDict [("type", VStr "physical"); ("lsn", VInt lsn);
                                                 ("expected_active", VBool (expected_active c name role m))]).
Proof.
  intros Hu Hms Hr Hnd Hin. unfold _get_members_slots in Hr. rewrite Hu, Hms in Hr. simpl in Hr.
  destruct (slots c) as [lsns|]; [|done]. simpl in Hr.
  destruct (members_loop _ _ _ _ _ _) as [r|] eqn:Hl; [|done]. simpl in Hr.
  destruct (slot_names _) as [retained|]; [|done]. simpl in Hr. injection Hr as <-.
  destruct (members_loop_get _ _ _ _ _ _ _ Hl Hnd Hin) as [l Hg]. exists l. apply get_update_new; [done|].
  unfold Dict.keys. rewrite <-list_fmap_compose.
  intros (s & Hsm & Hs)%list_elem_of_fmap. simpl in Hsm. subst s. apply list_elem_of_In, List.filter_In in Hs as [_ Hs].
  unfold Dict.mem in Hs. rewrite Hg in Hs. by rewrite andb_false_r in Hs.
Qed.

Lemma slot_members_sublist name role nofailover adv ms : slot_members g c name role nofailover adv = Ok ms →
  ∃ p, ms = List.filter p (members c).
Proof.
  assert (∀ p q (l : list Member), List.filter p (List.filter q l) = List.filter (λ m, q m && p m) l) as Hff.
  { intros p q l. induction l as [|x l IH]; [done|]. simpl. destruct (q x) eqn:E; simpl; rewrite IH; by destruct (p x). }
  unfold slot_members. destruct (if adv then _ else _) as [ttl|]; [|done]. cbn -[List.filter].
  intros [= <-]. case_match; rewrite Hff; eauto.
Qed.

Lemma NoDup_map_filter (f : Member → string) p l : NoDup (map f l) → NoDup (map f (List.filter p l)).
Proof.
  induction l as [|x l IH]; simpl; [done|]. intros [Hni Hnd]%NoDup_cons. destruct (p x); simpl; [|auto].
  apply NoDup_cons. split; [|auto]. intros (y & Hy & Hin)%list_elem_of_fmap. apply Hni.
  apply list_elem_of_In, List.filter_In in Hin as [Hin%list_elem_of_In _]. rewrite Hy. by apply (list_elem_of_fmap_2 f).
Qed.

Lemma merge_slot_keeps topology name role adv acc item k v :
  Dict.get k acc.1 = Some v → Dict.get k (merge_slot topology name role adv acc item).1 = Some v.
Proof.
  destruct acc as [sl dis], item as [s w]. cbn [fst]. intros Hg.
  assert (∀ x, Dict.mem s sl = false → Dict.get k (Dict.set s x sl) = Some v) as Hset.
  { intros x Hm. rewrite Dict.get_set_ne; [done|]. intros ->. unfold Dict.mem in Hm. by rewrite Hg in Hm. }
  unfold merge_slot. destruct (slot_name_re s); cbn [negb]; [|done].
  destruct (if truthy w then _ else _) as [| | | | |d]; try done. cbv zeta.
  destruct (Dict.mem s sl) eqn:Hm; cbn [negb andb].
  - by repeat case_match.
  - repeat case_match; cbn [fst]; auto.
Qed.

(** Merging never displaces a slot that is already there. *)
Lemma merge_keeps sl permanent name role adv r k v :
  _merge_permanent_slots c sl permanent name role adv = Ok r → Dict.get k sl = Some v → Dict.get k r.1 = Some v.
Proof.
  unfold _merge_permanent_slots. cbv zeta. destruct (topology_of _) as [t|]; [|done]. simpl. intros [= <-] Hg.
  assert (Dict.get k (sl, @nil string).1 = Some v) as H' by done. revert H'. generalize (sl, @nil string).
  induction permanent as [|item permanent IH]; intros acc Ha; simpl; [done|]. apply IH. by apply merge_slot_keeps.
Qed.

(** A node that runs as a leader has a slot expected to be active for every member that
    may stream from it: each other member with WAL streaming whose [replicatefrom] tag
    is absent, names this node or names no member, provided slots are in use, the node
    may be a failover target and no two members share a slot name.  Permanent slots of
    the same name do not displace it. *)
Theorem leader_has_member_slots pg n role slots m :
  get_replication_slots g c pg n (Some role) = Ok slots →
  use_slots g = Ok true → nofailover n = Ok false → runs_as_leader role = true →
  NoDup (map slot_of (members c)) →
  m ∈ members c → m_name m ≠ node_name pg n → nostream m = false →
  (replicatefrom m = VNone ∨ replicatefrom m = VStr (node_name pg n) ∨ has_member c (replicatefrom m) = false) →
  ∃ lsn, Dict.get (slot_of m) slots =
    Some (VDict [("type", VStr "physical"); ("lsn", VInt lsn); ("expected_active", VBool true)]).
Proof.
  intros Hr Hu Hnf Hlead Hnd Hin Hne Hst Hf. unfold get_replication_slots in Hr. rewrite Hnf in Hr. simpl in Hr.
  destruct (_get_members_slots _ _ _ _ _ _) as [ret|] eqn:Hret; [|done]. simpl in Hr.
  destruct (_get_permanent_slots _ _ _ _ _) as [perm|]; [|done]. simpl in Hr.
  destruct (_merge_permanent_slots _ _ _ _ _ _) as [r|] eqn:Hm; [|done]. simpl in Hr. injection Hr as <-.
  destruct (slot_members g c (node_name pg n) role false (can_advance_slots pg)) as [ms|] eqn:Hms.
  2: { unfold _get_members_slots in Hret. rewrite Hu, Hms in Hret. done. }
  assert (expected_active c (node_name pg n) role m = true) as Ha.
  { unfold expected_active, leader_filter. rewrite Hlead, !orb_true_iff, !pyval_eqb_eq.
    destruct Hf as [Hf|[Hf|Hf]]; [by left; left|by left; right|right; by rewrite Hf]. }
  assert (m ∈ ms) as Hmm.
  { unfold slot_members in Hms. destruct (if can_advance_slots pg then _ else _) as [ttl|]; [|done].
    cbn -[List.filter] in Hms. injection Hms as <-.
    assert (m ∈ List.filter (λ m, negb (m_name m =? node_name pg n)%string && negb (nostream m)) (members c)) as H0.
    { apply list_elem_of_In, List.filter_In. split; [by apply list_elem_of_In|]. rewrite Hst.
      by destruct (String.eqb_spec (m_name m) (node_name pg n)). }
    apply list_elem_of_In in H0. case_match; apply list_elem_of_In, List.filter_In; by split. }
  destruct (slot_members_sublist _ _ _ _ _ Hms) as [p ->].
  destruct (members_slots_get _ _ _ _ _ _ m Hu Hms Hret) as [l Hg]; [by apply NoDup_map_filter|done|].
  exists l. rewrite Ha in Hg. by eapply merge_keeps.
Qed.
End node_slots.

(** ** Witnesses *)

Lemma slot_name_valid_witness :
  slot_name_from_member_name "Node-1.example" = "node_1_example" ∧
  slot_name_re (slot_name_from_member_name "Node-1.example") = true.
Proof. split; [reflexivity|]. by apply (slot_name_valid "Node-1.example"). Defined.

Definition member (name from : string) : Member :=
  MkMember VNone name VNone [("tags", VDict (if (from =? "")%string then [] else [("replicatefrom", VStr from)]))].

(** [a] is the leader, [b] streams from it, [c] from [b]; [d] and [e] from each other *)
Definition cascading : @Cluster text_datetime :=
  MkCluster None None (Some (MkLeader VNone VNone (member "a" ""))) status_empty
    [member "a" ""; member "b" ""; member "c" "b"; member "d" "e"; member "e" "d"]
    None (sync_empty VNone) None None [].

Lemma cascade_correct_witness :
  get_slot_name_on_primary cascading "c" (NMember (member "c" "b")) = Some "b" ∧
  ∃ k root, streams_through cascading k "c" (NMember (member "c" "b")) root ∧ "b" = slot_name_from_member_name root.
Proof.
  split; [vm_compute; reflexivity|].
  apply (cascade_correct cascading "c" (NMember (member "c" "b")) "b"). vm_compute. reflexivity.
Defined.

Lemma hot_standby_feedback_terminates_witness :
  should_enforce_hot_standby_feedback [] cascading (MkPostgresql "b" REPLICA true) (NMember (member "d" "e")) ≠ Ok None.
Proof.
  apply (hot_standby_feedback_terminates [] cascading).
  - by apply (bool_decide_unpack _).
  - intros m Hm. cbn in Hm. rewrite !elem_of_cons, elem_of_nil in Hm.
    destruct Hm as [->|[->|[->|[->|[->|[]]]]]]; split; done.
Defined.

Lemma leader_has_member_slots_witness : ∃ slots lsn,
  get_replication_slots [("slots", VDict [("b", VNone)])] cascading (MkPostgresql "a" PRIMARY true)
    (NMember (member "a" "")) (Some PRIMARY) = Ok slots ∧
  Dict.get "b" slots =
    Some (VDict [("type", VStr "physical"); ("lsn", VInt lsn); ("expected_active", VBool true)]).
Proof.
  eexists.
  destruct (leader_has_member_slots [("slots", VDict [("b", VNone)])] cascading (MkPostgresql "a" PRIMARY true)
    (NMember (member "a" "")) PRIMARY _ (member "b" "") ltac:(vm_compute; reflexivity)) as [lsn H];
    try (vm_compute; reflexivity).
  - assert (map slot_of (members cascading) = ["a"; "b"; "c"; "d"; "e"]) as -> by (vm_compute; reflexivity).
    by apply (bool_decide_unpack _).
  - by apply (list_elem_of_lookup_2 _ 1).
  - done.
  - left. vm_compute. reflexivity.
  - exists lsn. split; [|exact H]. vm_compute. reflexivity.
Defined.
