(* ===== verification/SlotsAdvance.v ===== *)
(** * The thread that advances logical slots ([patroni/postgresql/slots.py], [SlotsAdvanceThread])

    The main thread schedules positions; the thread takes them one by one, without the lock while PostgreSQL
    advances a slot.  What the main thread does meanwhile is a list of its calls. *)
From S2P Require Import Prelude PyDict PyVal Effects.

Open Scope string_scope.
Open Scope Z_scope.

(** [_copy_slots], [_failed], [_scheduled]: a [defaultdict] of dictionaries *)
Record Advance := MkAdvance { copy_slots : list string; adv_failed : bool; scheduled : dict (dict Z) }.

Definition advance_init : Advance := MkAdvance [] false [].

(** ** The sections under the lock *)

(** [self._scheduled[database][name] = value] *)
Definition put_scheduled (database name : string) (value : Z) (a : Advance) : Advance :=
  MkAdvance (copy_slots a) (adv_failed a)
    (Dict.set database (Dict.set name value (default [] (Dict.get database (scheduled a)))) (scheduled a)).

Definition schedule_slot (database : string) (a : Advance) (slot : string * Z) : Advance :=
  if bool_decide (slot.1 ∈ copy_slots a) then a else put_scheduled database slot.1 slot.2 a.

(** [schedule] *)
Definition schedule (advance_slots : dict (dict Z)) (a : Advance) : (bool * list string) * Advance :=
  let a := foldl (λ a db, foldl (schedule_slot db.1) a db.2) a advance_slots in
  ((adv_failed a, copy_slots a), MkAdvance [] false (scheduled a)).

(** [clean] *)
Definition clean (a : Advance) : Advance := advance_init.

(** [self._scheduled.get(database, {}).get(slot, 0)] *)
Definition scheduled_lsn (database slot : string) (a : Advance) : Z :=
  default 0 (Dict.get slot (default [] (Dict.get database (scheduled a)))).

(** How the query ended: it failed, and whether the slot has to be copied *)
Inductive outcome := Advanced | Failed (copy : bool).
Definition is_failed (o : outcome) : bool := match o with Advanced => false | Failed _ => true end.
Definition wants_copy (o : outcome) : bool := match o with Failed c => c | Advanced => false end.

Definition note_failure (slot : string) (o : outcome) (a : Advance) : Advance :=
  if negb (bool_decide (scheduled a = [])) && is_failed o then
    MkAdvance (if wants_copy o && negb (bool_decide (slot ∈ copy_slots a)) then copy_slots a ++ [slot] else copy_slots a)%list
      true (scheduled a)
  else a.

(** The removal of the slot: reading a [defaultdict] adds a missing key, which stays when the slot is not in it. *)
Definition pop_scheduled (database slot : string) (a : Advance) : exc () * Advance :=
  let slots := default [] (Dict.get database (scheduled a)) in
  let put d := MkAdvance (copy_slots a) (adv_failed a) d in
  if Dict.mem slot slots then
    let slots := Dict.del slot slots in
    (Ok (), put (if bool_decide (slots = []) then Dict.del database (scheduled a) else Dict.set database slots (scheduled a)))
  else (Raise KeyError, put (Dict.set database slots (scheduled a))).

(** The section at the end of [sync_slot] *)
Definition finish (database slot : string) (lsn : Z) (o : outcome) (a : Advance) : exc () * Advance :=
  let a := note_failure slot o a in
  if wants_copy o || ((scheduled_lsn database slot a =? lsn) && Dict.mem database (scheduled a))
  then pop_scheduled database slot a else (Ok (), a).

(** ** The thread *)

(** What the main thread may do while a query runs *)
Inductive main_call := CallSchedule (advance_slots : dict (dict Z)) | CallClean.
Definition main_step (a : Advance) (c : main_call) : Advance :=
  match c with CallSchedule s => (schedule s a).2 | CallClean => clean a end.

Class AdvanceDb (W : Type) := {
  (* a connection to the database *)
  db_connect : string → W → exc () * W;
  (* pg_replication_slot_advance, and the calls of the main thread while it runs *)
  db_advance : string → string → Z → W → (outcome * list main_call) * W;
}.

Section thread.
Context {W : Type} `{!AdvanceDb W}.

Definition advM (A : Type) : Type := eff (Advance * W) A.
#[global] Instance advM_ret : MRet advM := eff_ret _.
#[global] Instance advM_bind : MBind advM := eff_bind _.

Definition sync_slot (database slot : string) (lsn : Z) : advM () := λ s,
  let '((o, calls), w) := db_advance database slot lsn s.2 in
  let '(r, a) := finish database slot lsn o (foldl main_step s.1 calls) in
  (r, (a, w)).

Definition sync_slots_in_database (database : string) (slots : list string) : advM () :=
  (λ s, let '(r, w) := db_connect database s.2 in (r, (s.1, w)));;
  for_each slots (λ slot,
    lsn ← gets (λ s, scheduled_lsn database slot s.1);
    if lsn =? 0 then mret () else sync_slot database slot lsn).

(** [sync_slots]: an exception ends the work on its database. *)
Definition sync_slots : advM () :=
  databases ← gets (λ s, Dict.keys (scheduled s.1));
  for_each databases (λ database,
    slots ← gets (λ s, Dict.keys (default [] (Dict.get database (scheduled s.1))));
    match slots with
    | [] => mret ()
    | _ => try_except (λ _, true) (sync_slots_in_database database slots) (mret ())
    end).

(** Whether [run] waits before the next round *)
Definition waits (a : Advance) : bool := bool_decide (scheduled a = []).

(** Rounds of [run] without a wait: [None] when the thread waits before they are over *)
Fixpoint rounds (n : nat) (s : Advance * W) : option (Advance * W) :=
  match n with
  | O => Some s
  | S n => if waits s.1 then None else rounds n (sync_slots s).2
  end.
End thread.

(** ** What the thread guarantees *)

(** No database without slots is scheduled. *)
Definition tidy (a : Advance) : Prop := ∀ db slots, Dict.get db (scheduled a) = Some slots → slots ≠ [].

Lemma set_nonempty {V} k (v : V) d : Dict.set k v d ≠ [].
Proof. by destruct d as [|[k' v'] d]; simpl; [|case_decide]. Qed.

Lemma tidy_put db n v a : tidy a → tidy (put_scheduled db n v a).
Proof.
  intros Ht db' slots. unfold put_scheduled. simpl. rewrite Dict.get_set. case_decide as Hd; [|by apply Ht].
  intros [= <-]. apply set_nonempty.
Qed.

Lemma tidy_schedule s a : tidy a → tidy (schedule s a).2.
Proof.
  intros Ht. unfold schedule. simpl. change (tidy (foldl (λ a db, foldl (schedule_slot db.1) a db.2) a s)).
  revert a Ht. induction s as [|[db slots] s IH]; intros a Ht; [done|]. simpl. apply IH. clear IH s.
  revert a Ht. induction slots as [|[n v] slots IH]; intros a Ht; [done|]. simpl. apply IH. unfold schedule_slot. simpl.
  case_bool_decide; [done|]. by apply tidy_put.
Qed.

Lemma tidy_note slot o a : tidy a → tidy (note_failure slot o a).
Proof. intros Ht. unfold note_failure. by destruct (_ && _). Qed.

Lemma tidy_pop db slot a : tidy a → Dict.mem slot (default [] (Dict.get db (scheduled a))) = true →
  ∃ a', pop_scheduled db slot a = (Ok (), a') ∧ tidy a'.
Proof.
  intros Ht Hm. unfold pop_scheduled. rewrite Hm. eexists. split; [done|]. intros db' slots. simpl.
  case_bool_decide as He.
  - destruct (decide (db = db')) as [->|]; [by rewrite Dict.get_del_eq|]. rewrite Dict.get_del_ne by done. apply Ht.
  - rewrite Dict.get_set. case_decide; [by intros [= <-]|apply Ht].
Qed.

Definition is_scheduled (db slot : string) (a : Advance) : Prop := Dict.mem slot (default [] (Dict.get db (scheduled a))) = true.

Lemma scheduled_is db slot a : scheduled_lsn db slot a ≠ 0 → is_scheduled db slot a.
Proof. unfold scheduled_lsn, is_scheduled, Dict.mem. by destruct (Dict.get slot _). Qed.

Lemma dict_mem_set {V} k k' (v : V) d : Dict.mem k d = true → Dict.mem k (Dict.set k' v d) = true.
Proof. unfold Dict.mem. rewrite Dict.get_set. by case_decide. Qed.

Lemma put_keeps db slot db' n v a : is_scheduled db slot a → is_scheduled db slot (put_scheduled db' n v a).
Proof.
  unfold is_scheduled, put_scheduled. simpl. intros Hs. rewrite Dict.get_set. case_decide as Hd; [subst|done]. simpl. by apply dict_mem_set.
Qed.

Lemma schedule_keeps db slot s a : is_scheduled db slot a → is_scheduled db slot (schedule s a).2.
Proof.
  intros Hs. unfold schedule. simpl. change (is_scheduled db slot (foldl (λ a db, foldl (schedule_slot db.1) a db.2) a s)).
  revert a Hs. induction s as [|[db' slots] s IH]; intros a Hs; [done|]. simpl. apply IH. clear IH s.
  revert a Hs. induction slots as [|[n v] slots IH]; intros a Hs; [done|]. simpl. apply IH. unfold schedule_slot. simpl.
  case_bool_decide; [done|]. by apply put_keeps.
Qed.

Definition only_schedules (calls : list main_call) : Prop := Forall (λ c, c ≠ CallClean) calls.

Lemma calls_keep db slot calls a : only_schedules calls → tidy a → is_scheduled db slot a →
  tidy (foldl main_step a calls) ∧ is_scheduled db slot (foldl main_step a calls).
Proof.
  intros Hc. revert a. induction Hc as [|c calls Hc _ IH]; intros a Ht Hs; [done|]. simpl. destruct c as [s|]; [|done].
  apply IH; [by apply tidy_schedule|by apply schedule_keeps].
Qed.

Lemma note_scheduled slot o a : scheduled (note_failure slot o a) = scheduled a.
Proof. unfold note_failure. by destruct (_ && _). Qed.

Lemma finish_scheduled db slot lsn o a : tidy a → is_scheduled db slot a →
  ∃ a', finish db slot lsn o a = (Ok (), a') ∧ tidy a' ∧
    (wants_copy o = false → scheduled_lsn db slot a ≠ lsn → a' = note_failure slot o a).
Proof.
  intros Ht Hs. unfold finish. assert (scheduled_lsn db slot (note_failure slot o a) = scheduled_lsn db slot a) as Hl.
  { unfold scheduled_lsn. by rewrite note_scheduled. }
  rewrite Hl, note_scheduled. pose proof (tidy_note slot o a Ht) as Ht'.
  destruct (tidy_pop db slot (note_failure slot o a)) as (a' & Hp & Htp); [done|by rewrite note_scheduled|].
  destruct (wants_copy o); simpl; [by exists a'|]. destruct (Z.eqb_spec (scheduled_lsn db slot a) lsn) as [He|Hne]; simpl.
  - destruct (Dict.mem db (scheduled a)); [by exists a'|]. by exists (note_failure slot o a).
  - by exists (note_failure slot o a).
Qed.

(** C38: while the main thread only schedules - it does not clean the schedule meanwhile, see [clean_race_spins] - the thread
    goes on without an error after it has advanced a slot to the position it had taken, whatever was scheduled meanwhile; no
    database is left without slots, so that the thread can wait; and a newer position of that slot is still scheduled, unless
    the slot has to be copied because the advance failed. *)
Theorem advance_keeps_newer {W} `{!AdvanceDb W} db slot lsn (a : Advance) (w w' : W) o calls :
  tidy a → lsn = scheduled_lsn db slot a → lsn ≠ 0 →
  db_advance db slot lsn w = ((o, calls), w') → only_schedules calls →
  ∃ a', sync_slot db slot lsn (a, w) = (Ok (), (a', w')) ∧ tidy a' ∧
    let newer := scheduled_lsn db slot (foldl main_step a calls) in
    (wants_copy o = false → newer ≠ lsn → scheduled_lsn db slot a' = newer).
Proof.
  intros Ht Hlsn Hne Hq Hc. destruct (calls_keep db slot calls a Hc Ht) as [Ht1 Hs1]; [apply scheduled_is; congruence|].
  destruct (finish_scheduled db slot lsn o _ Ht1 Hs1) as (a' & Hf & Ht' & Hn). exists a'. unfold sync_slot. simpl. rewrite Hq, Hf.
  split_and!; [done..|]. intros Hw Hnew. rewrite (Hn Hw Hnew). unfold scheduled_lsn. by rewrite note_scheduled.
Qed.

(** The thread that was cleaned while a slot could not be advanced *)
Definition emptied (db : string) : Advance := MkAdvance [] false [(db, [])].

(** When the main thread cleans the schedule while an advance is running (it does when the node is promoted), and that
    advance fails because the WAL is gone, the thread never waits again: the removal raises [KeyError] after reading the
    [defaultdict] has put the database back without slots, and from then on every round of [run] does nothing, at once, for as
    long as nothing is scheduled. *)
Theorem clean_race_spins {W} `{!AdvanceDb W} db slot lsn (a : Advance) (w w' : W) n :
  db_advance db slot lsn w = ((Failed true, [CallClean]), w') →
  sync_slot db slot lsn (a, w) = (Raise KeyError, (emptied db, w')) ∧ rounds n (emptied db, w') = Some (emptied db, w').
Proof.
  intros Hq. split.
  - unfold sync_slot. simpl. rewrite Hq. unfold finish, pop_scheduled, note_failure. simpl. done.
  - induction n as [|n IH]; [done|]. cbn [rounds]. unfold waits. simpl (scheduled _).
    rewrite bool_decide_eq_false_2 by done.
    assert (sync_slots (emptied db, w') = (Ok (), (emptied db, w'))) as ->; [|done].
    unfold sync_slots, gets, mbind, advM_bind, eff_bind. cbn. unfold mbind, eff_bind. cbn.
    by rewrite decide_True.
Qed.

(** ** Examples *)

(** Databases in which every advance ends in the same way, with the same calls meanwhile *)
#[local] Instance scripted : AdvanceDb (outcome * list main_call) := {|
  db_connect _ w := (Ok (), w);
  db_advance _ _ _ w := (w, w);
|}.

Definition one_slot (lsn : Z) : Advance := MkAdvance [] false [("db", [("s", lsn)])].

Lemma advance_keeps_newer_witness :
  ∃ a', sync_slot "db" "s" 100 (one_slot 100, (Advanced, [CallSchedule [("db", [("s", 200)])]]))
          = (Ok (), (a', (Advanced, [CallSchedule [("db", [("s", 200)])]]))) ∧ tidy a' ∧
    let newer := 200 in (false = false → newer ≠ 100 → scheduled_lsn "db" "s" a' = newer).
Proof.
  apply (advance_keeps_newer "db" "s" 100 (one_slot 100) (Advanced, [CallSchedule [("db", [("s", 200)])]])
    (Advanced, [CallSchedule [("db", [("s", 200)])]]) Advanced [CallSchedule [("db", [("s", 200)])]]); try done.
  - intros db slots. simpl. case_decide; [by intros [= <-]|done].
  - by repeat constructor.
Defined.

Lemma clean_race_spins_witness :
  sync_slot "db" "s" 100 (one_slot 100, (Failed true, [CallClean])) = (Raise KeyError, (emptied "db", (Failed true, [CallClean])))
  ∧ rounds 1000 (emptied "db", (Failed true, [CallClean])) = Some (emptied "db", (Failed true, [CallClean])).
Proof. exact (clean_race_spins "db" "s" 100 (one_slot 100) (Failed true, [CallClean]) (Failed true, [CallClean]) 1000 eq_refl). Defined.
