(* ===== verification/NodeSlots.v ===== *)
(** * Replication slots of a node ([patroni/postgresql/slots.py], [SlotsHandler])

    What one cycle does with the slots of a PostgreSQL: it loads them, drops those that are not wanted, creates
    and advances physical ones, creates logical ones on a primary, and schedules their advance or copy on a
    replica.  Every command for PostgreSQL is recorded. *)
From S2P Require Import Prelude Lexing PyDict PyVal Effects PgMisc DcsData GlobalConfig Slots SlotsAdvance.

Open Scope string_scope.
Open Scope Z_scope.

(** A slot as a dictionary of its attributes *)
Abbreviation slot := (dict pyval).

(** [d[key]] *)
Definition item (key : string) (d : slot) : exc pyval := match Dict.get key d with Some v => Ok v | None => Raise KeyError end.
Definition as_number (v : pyval) : exc Z := match v with VInt z => Ok z | VBool b => Ok (if b then 1 else 0) | _ => Raise TypeError end.

(** [compare_slots] *)
Definition compare_slots (s1 s2 : slot) (dbid : string) : exc bool :=
  t1 ← item "type" s1;
  t2 ← item "type" s2;
  if negb (pyval_eqb t1 t2) then mret false else
  if pyval_eqb t1 (VStr "physical") then mret true else
  if negb (pyval_eqb (vget dbid s1) (vget dbid s2)) then mret false else
  p1 ← item "plugin" s1; p2 ← item "plugin" s2; mret (pyval_eqb p1 p2).

(** [_copy_items] *)
Fixpoint copy_items (src dst : slot) (keys : list string) : exc slot :=
  match keys with
  | [] => mret dst
  | k :: keys => v ← item k src; copy_items src (Dict.set k v dst) keys
  end.
Definition logical_items : list string := ["datoid"; "catalog_xmin"; "confirmed_flush_lsn"].
Definition physical_items : list string := ["restart_lsn"; "xmin"].

(** ** The state *)

(** Commands for PostgreSQL *)
Inductive slot_command :=
  | DropSlot (name : string)
  | CreatePhysical (name : string)
  | AdvancePhysical (name : string) (lsn : Z)
  | CreateLogical (database name : string) (plugin : pyval)
  | ScheduleAdvance (slots : dict (dict Z))
  | InstallSlot (name : string).

Record SlotsHandler (W : Type) := MkSlotsHandler {
  schedule_load : bool;                         (* [_schedule_load_slots] *)
  force_check : bool;                           (* [_force_readiness_check] *)
  known_slots : dict slot;                      (* [_replication_slots] *)
  processing_queue : dict (option Z);           (* [_logical_slots_processing_queue] *)
  advance : Advance;
  commands : list (W * dict slot * slot_command); (* with the state that PostgreSQL had, and the slots known then *)
}.
Arguments MkSlotsHandler {W}.
Arguments schedule_load {W}.
Arguments force_check {W}.
Arguments known_slots {W}.
Arguments processing_queue {W}.
Arguments advance {W}.
Arguments commands {W}.

(** A row of pg_replication_slots *)
Record SlotRow := MkSlotRow {
  sr_name : string; sr_type : string; sr_xmin : pyval; sr_restart : pyval; sr_plugin : pyval; sr_database : pyval;
  sr_datoid : pyval; sr_catalog_xmin : pyval; sr_confirmed : pyval;
}.

Class PgSlots `{!Datetime} (W : Type) := {
  ps_major_version : W → Z;
  ps_is_primary : W → bool;
  ps_replay_lsn : W → Z;
  ps_config : W → GlobalConfig;
  ps_postgresql : W → Postgresql;
  ps_load : W → exc (list SlotRow) * W;
  (* the row of the drop: active, dropped *)
  ps_drop : string → W → exc (option (bool * bool)) * W;
  ps_create_physical : string → W → exc () * W;
  ps_advance : string → string → W → exc () * W;
  (* a cursor of a database, and the creation of a slot in it *)
  ps_cursor : string → W → exc () * W;
  ps_create_logical : string → string → pyval → W → exc () * W;
  (* on the leader: catalog_xmin of the slots, outside of recovery *)
  ps_leader_slots : Leader → list string → W → exc (list (string * option Z)) * W;
  (* slots to be copied, with the contents of their state file *)
  ps_leader_copy : Leader → list string → W → exc (list (string * slot)) * W;
  ps_leader_connect : Leader → W → exc () * W;
  ps_stop : W → exc bool * W;
  ps_start : W → exc () * W;
  ps_install : string → slot → W → exc () * W;
  (* [mpp_handler.ignore_replication_slot] *)
  ps_mpp_ignore : slot → W → exc bool;
}.

(** The columns and the values of [load_replication_slots] *)
Definition loaded_slot (major_version : Z) (r : SlotRow) : slot :=
  if (sr_type r =? "logical")%string then
    ([("type", VStr (sr_type r)); ("plugin", sr_plugin r); ("database", sr_database r); ("datoid", sr_datoid r)]
     ++ (if (100000 <=? major_version)%Z then [("catalog_xmin", sr_catalog_xmin r); ("confirmed_flush_lsn", sr_confirmed r)] else []))%list
  else [("type", VStr (sr_type r)); ("xmin", sr_xmin r); ("restart_lsn", sr_restart r)].

Definition is_type (t : string) (v : slot) : bool := pyval_eqb (vget "type" v) (VStr t).

(** The handler of a new object, after [schedule] *)
Definition slots_init {W : Type} (major_version : Z) : SlotsHandler W :=
  let value := 90400 <=? major_version in MkSlotsHandler value value [] [] advance_init [].

Section handler.
Context `{!Datetime} {W : Type} `{!PgSlots W}.

Definition slotM (A : Type) : Type := eff (SlotsHandler W * W) A.
#[global] Instance slotM_ret : MRet slotM := eff_ret _.
#[global] Instance slotM_bind : MBind slotM := eff_bind _.

Definition self : slotM (SlotsHandler W) := gets fst.
Definition look {A} (f : W → A) : slotM A := gets (λ s, f s.2).
Definition modify (f : SlotsHandler W → SlotsHandler W) : slotM () := puts (λ s, (f s.1, s.2)).
Definition invoke {A} (op : W → exc A * W) : slotM A := λ s, let '(r, w) := op s.2 in (r, (s.1, w)).

Definition set_load (b : bool) : slotM () :=
  modify (λ h, MkSlotsHandler b (force_check h) (known_slots h) (processing_queue h) (advance h) (commands h)).
Definition set_force (b : bool) : slotM () :=
  modify (λ h, MkSlotsHandler (schedule_load h) b (known_slots h) (processing_queue h) (advance h) (commands h)).
Definition set_known (d : dict slot) : slotM () :=
  modify (λ h, MkSlotsHandler (schedule_load h) (force_check h) d (processing_queue h) (advance h) (commands h)).
Definition set_queue (q : dict (option Z)) : slotM () :=
  modify (λ h, MkSlotsHandler (schedule_load h) (force_check h) (known_slots h) q (advance h) (commands h)).
Definition set_advance (a : Advance) : slotM () :=
  modify (λ h, MkSlotsHandler (schedule_load h) (force_check h) (known_slots h) (processing_queue h) a (commands h)).
Definition command (c : slot_command) : slotM () :=
  puts (λ s, let h := s.1 in
    (MkSlotsHandler (schedule_load h) (force_check h) (known_slots h) (processing_queue h) (advance h) ((s.2, known_slots h, c) :: commands h), s.2)).

(** [try: m except Exception: h] *)
Definition guard (m h : slotM ()) : slotM () := try_except (λ _, true) m h.

(** ** Loading *)

(** [schedule(value)]; without a value the version decides *)
Definition schedule (value : option bool) : slotM () :=
  v ← look ps_major_version;
  let value := default (90400 <=? v) value in
  set_load value;; set_force value.

Definition load_replication_slots : slotM () :=
  h ← self; v ← look ps_major_version;
  if (90400 <=? v) && schedule_load h then
    rows ← invoke ps_load;
    let slots := Dict.of_items (map (λ r, (sr_name r, loaded_slot v r)) rows) in
    set_known slots;; set_load false;;
    if force_check h then
      set_queue (map (λ kv, (kv.1, None)) (List.filter (λ kv, is_type "logical" kv.2) slots));; set_force false
    else mret ()
  else mret ().

(** One slot of the host in [process_permanent_slots]: its position, and the known slot with new values, or nothing when it is
    not the same slot *)
Definition process_slot (value known : slot) : exc (option (pyval * slot)) :=
  same ← compare_slots value known "datoid";
  if negb same then mret None else
  t ← item "type" value;
  if pyval_eqb t (VStr "logical")
  then pos ← item "confirmed_flush_lsn" value; known ← copy_items value known logical_items; mret (Some (pos, known))
  else pos ← item "restart_lsn" value; known ← copy_items value known physical_items; mret (Some (pos, known)).

Fixpoint process_slots (slots : dict slot) (ret : dict pyval) : slotM (dict pyval) :=
  match slots with
  | [] => mret ret
  | (name, value) :: slots =>
      h ← self;
      match Dict.get name (known_slots h) with
      | None => process_slots slots ret
      | Some known =>
          r ← lift_exc (process_slot value known);
          match r with
          | Some (pos, known) => set_known (Dict.set name known (known_slots h));; process_slots slots (Dict.set name pos ret)
          | None => set_load true;; process_slots slots ret
          end
      end
  end.

(** [process_permanent_slots], for rows with their names *)
Definition process_permanent_slots (rows : list (string * slot)) : slotM (dict pyval) :=
  let slots := Dict.of_items rows in
  ret ← process_slots slots [];
  h ← self;
  (if existsb (λ name, negb (Dict.mem name slots)) (Dict.keys (known_slots h)) then set_load true else mret ());;
  mret ret.

(** ** Dropping *)

Definition matcher_matches (name : string) (sl matcher : slot) : bool :=
  (pyval_eqb (vget "name" matcher) VNone || pyval_eqb (vget "name" matcher) (VStr name)) &&
  forallb (λ a, negb (truthy (vget a matcher)) || pyval_eqb (vget a matcher) (vget a sl)) ["database"; "plugin"; "type"].

(** The configured matchers; one that is not a dictionary is an error when it is reached *)
Fixpoint any_matcher (name : string) (sl : slot) (l : list pyval) : exc bool :=
  match l with
  | [] => mret false
  | VDict m :: l => if matcher_matches name sl m then mret true else any_matcher name sl l
  | _ :: _ => Raise AttributeError
  end.

(** [ignore_replication_slot] *)
Definition ignore_replication_slot (c : Cluster) (name : string) (sl : slot) (w : W) : exc bool :=
  matched ← match config c, ignore_slots_matchers (ps_config w) with
            | Some _, VList l => any_matcher name sl l
            | Some _, _ => Raise TypeError
            | None, _ => mret false
            end;
  if matched : bool then mret true else ps_mpp_ignore sl w.

(** [drop_replication_slot]: active, dropped *)
Definition drop_replication_slot (name : string) : slotM (bool * bool) :=
  command (DropSlot name);;
  r ← invoke (ps_drop name);
  mret (default (false, false) r).

Definition _drop_replication_slot (name : string) : slotM () :=
  r ← drop_replication_slot name;
  if (r : bool * bool).2 then h ← self; set_known (Dict.del name (known_slots h)) else set_load true.

(** The slots that are not wanted, in some order: that of the dictionary *)
Definition drop_unknown (c : Cluster) (name : string) : slotM () :=
  h ← self;
  w ← look id;
  match Dict.get name (known_slots h) with
  | None => lift_exc (Raise KeyError)
  | Some sl =>
      if is_paused (ps_config w) then mret () else
      ignored ← lift_exc (ignore_replication_slot c name sl w);
      if ignored : bool then mret () else _drop_replication_slot name
  end.

Definition drop_changed (name : string) (value : slot) : slotM () :=
  h ← self;
  match Dict.get name (known_slots h) with
  | None => mret ()
  | Some known =>
      same ← lift_exc (compare_slots value known "database");
      if same : bool then mret () else
      r ← drop_replication_slot name;
      if bool_decide (r = (false, true)) then h ← self; set_known (Dict.del name (known_slots h)) else set_load true
  end.

Definition _drop_incorrect_slots (c : Cluster) (slots : dict slot) : slotM () :=
  h ← self;
  for_each (List.filter (λ n, negb (Dict.mem n slots)) (Dict.keys (known_slots h))) (drop_unknown c);;
  for_each slots (λ kv, drop_changed kv.1 kv.2).

(** ** Physical slots *)

(** Copies the position and xmin of the slot on the host, and drops a slot that nobody is expected to use but that keeps an
    xmin; the wanted slot with the copied values *)
Definition refresh_physical (clean_inactive : bool) (name : string) (value : slot) : slotM slot :=
  h ← self; pg ← look ps_postgresql;
  match Dict.get name (known_slots h) with
  | Some known =>
      t ← (if can_advance_slots pg then lift_exc (item "type" known) else mret VNone);
      if pyval_eqb t (VStr "physical") then
        value ← lift_exc (copy_items known value physical_items);
        xmin ← lift_exc (item "xmin" value);
        (if clean_inactive && pyval_eqb (vget "expected_active" value) (VBool false) && truthy xmin
         then _drop_replication_slot name else mret ());;
        mret value
      else mret value
  | None => mret value
  end.

(** Creates a slot that is missing, or advances one that is not expected to be in use *)
Definition create_or_advance (name : string) (value : slot) : slotM () :=
  h ← self; pg ← look ps_postgresql;
  match Dict.get name (known_slots h) with
  | None => command (CreatePhysical name);; guard (invoke (ps_create_physical name)) (mret ());; set_load true
  | Some known =>
      t ← (if can_advance_slots pg then lift_exc (item "type" known) else mret VNone);
      xmin ← (if pyval_eqb t (VStr "physical") && negb (pyval_eqb (vget "expected_active" value) (VBool true))
              then lift_exc (item "xmin" value) else mret (VBool true));
      if truthy xmin then mret () else
      let restart_lsn := vget "restart_lsn" value in
      if negb (truthy restart_lsn) then _drop_replication_slot name else
      let lsn := vget "lsn" value in
      if negb (truthy lsn) then mret () else
      l ← lift_exc (as_number lsn); r ← lift_exc (as_number restart_lsn);
      if r <? l then command (AdvancePhysical name l);; guard (invoke (ps_advance name (format_lsn l false))) (mret ())
      else mret ()
  end.

(** [_ensure_physical_slots]: the wanted slots with their new values *)
Fixpoint _ensure_physical_slots (slots : dict slot) (clean_inactive : bool) : slotM (dict slot) :=
  match slots with
  | [] => mret []
  | (name, value) :: slots =>
      t ← lift_exc (item "type" value);
      value ← (if pyval_eqb t (VStr "physical")
               then value ← refresh_physical clean_inactive name value; create_or_advance name value;; mret value
               else mret value);
      slots ← _ensure_physical_slots slots clean_inactive;
      mret ((name, value) :: slots)
  end.

(** ** Logical slots of a primary *)

(** The wanted slots with the values of those that exist, and those to be created *)
Fixpoint split_logical (known slots : dict slot) : exc (dict slot * dict slot) :=
  match slots with
  | [] => mret ([], [])
  | (name, value) :: slots =>
      t ← item "type" value;
      if pyval_eqb t (VStr "logical") then
        let k := default [] (Dict.get name known) in
        if truthy (vget "datoid" k) then
          value ← copy_items k value logical_items; r ← split_logical known slots; mret ((name, value) :: r.1, r.2)
        else _ ← item "database" value; r ← split_logical known slots; mret ((name, value) :: r.1, (name, value) :: r.2)
      else r ← split_logical known slots; mret ((name, value) :: r.1, r.2)
  end.

(** The databases, in the order in which they are first named *)
Definition slot_database (value : slot) : exc string := d ← item "database" value; match d with VStr s => mret s | _ => Raise TypeError end.

Fixpoint databases (new : dict slot) : exc (list string) :=
  match new with
  | [] => mret []
  | (_, value) :: new => d ← slot_database value; r ← databases new; mret (d :: List.filter (λ x, negb (x =? d)%string) r)
  end.

Definition of_database (db : string) (new : dict slot) : dict slot :=
  List.filter (λ kv, pyval_eqb (vget "database" kv.2) (VStr db)) new.

(** One slot: whether it stays among the wanted ones *)
Definition create_logical (db : string) (name : string) (value : slot) : slotM bool :=
  plugin ← lift_exc (item "plugin" value);
  command (CreateLogical db name plugin);;
  ok ← try_except (λ _, true) (invoke (ps_create_logical db name plugin);; mret true) (mret false);
  set_load true;; mret ok.

Fixpoint create_all (db : string) (new slots : dict slot) : slotM (dict slot) :=
  match new with
  | [] => mret slots
  | (name, value) :: new => ok ← create_logical db name value; create_all db new (if ok : bool then slots else Dict.del name slots)
  end.

Fixpoint create_in (dbs : list string) (new slots : dict slot) : slotM (dict slot) :=
  match dbs with
  | [] => mret slots
  | db :: dbs => invoke (ps_cursor db);; slots ← create_all db (of_database db new) slots; create_in dbs new slots
  end.

(** [_ensure_logical_slots_primary] *)
Definition _ensure_logical_slots_primary (slots : dict slot) : slotM (dict slot) :=
  h ← self;
  r ← lift_exc (split_logical (known_slots h) slots);
  dbs ← lift_exc (databases r.2);
  create_in dbs r.2 r.1.

(** ** Logical slots of a replica *)

(** What one wanted slot leads to: the slot with new values, an advance, a copy *)
Inductive logical_plan := Keep | AdvanceTo (database : string) (lsn : Z) | CopyIt.

Definition plan_logical (known : dict slot) (replay_lsn : Z) (name : string) (value : slot) : exc (slot * logical_plan) :=
  t ← item "type" value;
  if negb (pyval_eqb t (VStr "logical")) then mret (value, Keep) else
  match Dict.get name known with
  | Some k =>
      same ← compare_slots value k "database";
      if negb same then mret (value, Keep) else
      value ← copy_items k value logical_items;
      match Dict.get "lsn" value with
      | None => mret (value, Keep)
      | Some lsn =>
          l ← as_number lsn;
          let advance_value := Z.min l replay_lsn in
          c ← item "confirmed_flush_lsn" value; c ← as_number c;
          if c <? advance_value then d ← slot_database value; mret (value, AdvanceTo d advance_value) else mret (value, Keep)
      end
  | None => mret (value, if Dict.mem "lsn" value then CopyIt else Keep)
  end.

(** The wanted slots, the slots to be advanced by database, and those to be copied, which are not wanted yet *)
Fixpoint plan_slots (known slots : dict slot) (replay_lsn : Z) : exc (dict slot * list (string * string * Z) * list string) :=
  match slots with
  | [] => mret ([], [], [])
  | (name, value) :: slots =>
      p ← plan_logical known replay_lsn name value;
      r ← plan_slots known slots replay_lsn;
      let '(rest, adv, copies) := r in
      mret (match p.2 with
            | Keep => ((name, p.1) :: rest, adv, copies)
            | AdvanceTo db l => ((name, p.1) :: rest, (db, name, l) :: adv, copies)
            | CopyIt => (rest, adv, name :: copies)
            end)
  end.

(** [defaultdict(dict)] of the advances *)
Definition by_database (adv : list (string * string * Z)) : dict (dict Z) :=
  foldl (λ d x, let '(db, name, l) := x in Dict.set db (Dict.set name l (default [] (Dict.get db d))) d) [] adv.

(** [_ensure_logical_slots_replica]: the wanted slots, and the names of those to be copied from the primary *)
Definition _ensure_logical_slots_replica (slots : dict slot) : slotM (dict slot * list string) :=
  h ← self; replay ← look ps_replay_lsn;
  r ← lift_exc (plan_slots (known_slots h) slots replay);
  let '(slots, adv, create) := r in
  command (ScheduleAdvance (by_database adv));;
  let '((error, copies), a) := SlotsAdvance.schedule (by_database adv) (advance h) in
  set_advance a;;
  (if error then set_load true else mret ());;
  mret (slots, (create ++ copies)%list).

(** ** Whether copied logical slots are ready *)

(** [primary_logical <= primary_physical <= standby]; a comparison with [None] is an error *)
Definition slot_ready (primary_logical : option Z) (primary_physical : option Z) (standby : slot) : exc bool :=
  match standby, primary_physical with
  | [], _ => mret true
  | _, None => mret false
  | _, Some phys =>
      match primary_logical with
      | None => Raise TypeError
      | Some l => if l <=? phys then s ← as_number (vget_or "catalog_xmin" (VInt 0) standby); mret (phys <=? s) else mret false
      end
  end.

(** [_ready_logical_slots] *)
Definition _ready_logical_slots (primary_physical : option Z) : slotM () :=
  h ← self;
  for_each (processing_queue h) (λ kv,
    h ← self;
    ready ← lift_exc (slot_ready kv.2 primary_physical (default [] (Dict.get kv.1 (known_slots h))));
    if ready : bool then set_queue (Dict.del kv.1 (processing_queue h)) else mret ()).

(** [check_logical_slots_readiness]; [name_on_primary] is [get_slot_name_on_primary], an unknown name finds nothing. *)
Definition check_logical_slots_readiness (c : Cluster) (name_on_primary : option string) : slotM bool :=
  h ← self;
  match processing_queue h, leader c with
  | _ :: _, Some l =>
      let unready := map fst (List.filter (λ kv, is_none kv.2) (processing_queue h)) in
      r ← (λ s, match invoke (ps_leader_slots l (unready ++ option_list name_on_primary)%list) s with
                | (Ok rows, s') => (Ok (Some rows), s') | (Raise _, s') => (Ok None, s') end);
      match (r : option (list (string * option Z))) with
      | None => mret false
      | Some rows =>
          let slots := Dict.of_items rows in
          match name_on_primary ≫= (λ n, pair n <$> Dict.get n slots) with
          | None => mret false
          | Some (n, None) => mret false
          | Some (n, Some catalog_xmin) =>
              set_queue (Dict.update (processing_queue h) (Dict.del n slots));;
              _ready_logical_slots (Some catalog_xmin);; mret true
          end
      end
  | _, _ => _ready_logical_slots None;; mret true
  end.

(** ** A cycle *)

(** Every value of [get_replication_slots] is a dictionary. *)
Fixpoint as_slots (d : dict pyval) : exc (dict slot) :=
  match d with
  | [] => mret []
  | (k, VDict v) :: d => r ← as_slots d; mret ((k, v) :: r)
  | _ :: _ => Raise TypeError
  end.

(** Physical slots with an xmin are only cleaned with a known leader, by a replica or by a primary that runs as one. *)
Definition may_clean (c : Cluster) (name : string) (is_primary : bool) : bool :=
  negb (is_unlocked c) && (match leader c with Some l => negb (l_name l =? name)%string | None => false end || is_primary).

Definition sync_body (c : Cluster) (own_tags : dict pyval) : slotM (list string) :=
  load_replication_slots;;
  g ← look ps_config; pg ← look ps_postgresql; w ← look id;
  slots ← lift_exc (d ← get_replication_slots g c pg (NSelf own_tags) None; as_slots d);
  _drop_incorrect_slots c slots;;
  slots ← _ensure_physical_slots slots (may_clean c (pg_name pg) (ps_is_primary w));
  primary ← look ps_is_primary;
  if primary : bool then
    set_queue [];;
    slots ← _ensure_logical_slots_primary slots;
    set_known slots;; mret []
  else
    check_logical_slots_readiness c (get_slot_name_on_primary c (pg_name pg) (NSelf own_tags));;
    r ← _ensure_logical_slots_replica slots;
    set_known r.1;; mret r.2.

(** [sync_replication_slots] *)
Definition sync_replication_slots (c : Cluster) (own_tags : dict pyval) : slotM (list string) :=
  v ← look ps_major_version;
  if (90400 <=? v) && negb (is_none (config c))
  then try_except (λ _, true) (sync_body c own_tags) (set_load true;; mret [])
  else mret [].

(** ** Copying logical slots from the primary *)

(** The slots that may be copied: those of the configuration with the same attributes, up to the first error *)
Fixpoint slots_to_copy (rows : list (string * slot)) (slots acc : dict slot) : dict slot :=
  match rows with
  | [] => acc
  | (name, sl) :: rows =>
      match Dict.get name slots with
      | Some wanted => match compare_slots sl wanted "database" with
                       | Ok same => slots_to_copy rows slots (if same : bool then Dict.set name sl acc else acc)
                       | Raise _ => acc
                       end
      | None => slots_to_copy rows slots acc
      end
  end.

Definition install_slot (name : string) (sl : slot) : slotM () :=
  command (InstallSlot name);;
  invoke (ps_install name sl);;
  h ← self; set_queue (Dict.set name None (processing_queue h)).

(** [copy_logical_slots] *)
Definition copy_logical_slots (c : Cluster) (own_tags : dict pyval) (create_slots : list string) : slotM () :=
  match leader c with
  | None => mret ()
  | Some l =>
      g ← look ps_config; pg ← look ps_postgresql;
      slots ← lift_exc (d ← get_replication_slots g c pg (NSelf own_tags) (Some REPLICA); as_slots d);
      invoke (ps_leader_connect l);;
      copies ← try_except (λ _, true) (rows ← invoke (ps_leader_copy l create_slots); mret (slots_to_copy rows slots [])) (mret []);
      match copies with
      | [] => mret ()
      | _ =>
          stopped ← invoke ps_stop;
          if stopped : bool then
            h ← self; set_advance (clean (advance h));;
            for_each copies (λ kv, install_slot kv.1 kv.2);;
            invoke ps_start
          else mret ()
      end
  end.

(** [on_promote] *)
Definition on_promote : slotM () := h ← self; set_advance (clean (advance h)).
End handler.
