(* ===== verification/NodeSlotsProps.v ===== *)
(** * What a cycle does with the slots of a node

    Every command for PostgreSQL has its reason in the slots that the cluster wants on this node. *)
From S2P Require Import Prelude Lexing PyDict PyVal Effects PgMisc DcsData GlobalConfig Slots SlotsAdvance NodeSlots.

Open Scope string_scope.
Open Scope Z_scope.

Section props.
Context `{!Datetime} {W : Type} `{!PgSlots W}.

(** ** Reasons *)

Definition expected_unused (v : slot) : Prop := is_type "physical" v = true ∧ vget "expected_active" v ≠ VBool true.

(** Why a command may be given: by the slots that the cluster wants on the node, the slots that the handler knew when it gave the
    command, and the state that PostgreSQL had then *)
Definition justified (c : Cluster) (desired : dict slot) (x : W * dict slot * slot_command) : Prop :=
  let '(w, known, command) := x in
  match command with
  | DropSlot name => ∃ k, Dict.get name known = Some k ∧
      (Dict.mem name desired = false ∧ is_paused (ps_config w) = false ∧ ignore_replication_slot c name k w = Ok false ∨
       (∃ v, (name, v) ∈ desired ∧ compare_slots v k "database" = Ok false) ∨
       (∃ v, (name, v) ∈ desired ∧ expected_unused v ∧ vget "type" k = VStr "physical" ∧
          (truthy (vget "restart_lsn" k) = false ∧ truthy (vget "xmin" k) = false ∨
           vget "expected_active" v = VBool false ∧ truthy (vget "xmin" k) = true)))
  | CreatePhysical name => Dict.get name known = None ∧ ∃ v, (name, v) ∈ desired ∧ is_type "physical" v = true
  | AdvancePhysical name lsn =>
      ∃ v k r, (name, v) ∈ desired ∧ expected_unused v ∧ as_number (vget "lsn" v) = Ok lsn ∧
        Dict.get name known = Some k ∧ vget "type" k = VStr "physical" ∧ truthy (vget "xmin" k) = false ∧
        as_number (vget "restart_lsn" k) = Ok r ∧ r < lsn
  | CreateLogical database name plugin =>
      truthy (vget "datoid" (default [] (Dict.get name known))) = false ∧
      ∃ v, (name, v) ∈ desired ∧ is_type "logical" v = true ∧ vget "database" v = VStr database ∧ vget "plugin" v = plugin
  | ScheduleAdvance slots =>
      ∀ db names name lsn, Dict.get db slots = Some names → Dict.get name names = Some lsn →
        ∃ v k l r, (name, v) ∈ desired ∧ is_type "logical" v = true ∧ vget "database" v = VStr db ∧
          as_number (vget "lsn" v) = Ok l ∧ lsn = Z.min l (ps_replay_lsn w) ∧
          Dict.get name known = Some k ∧ compare_slots v k "database" = Ok true ∧
          as_number (vget "confirmed_flush_lsn" k) = Ok r ∧ r < lsn
  | InstallSlot _ => False
  end.

Definition runs (P : W * dict slot * slot_command → Prop) {A} (m : slotM (W := W) A) : Prop := adds (λ s : SlotsHandler W * W, commands s.1) P m.

Lemma runs_invoke P {A} (op : W → exc A * W) : runs P (invoke op).
Proof. apply adds_keep. intros s. unfold invoke. by destruct (op s.2). Qed.

Definition runs_at (P : W * dict slot * slot_command → Prop) {A} (m : slotM (W := W) A) s : Prop :=
  adds_at (λ s : SlotsHandler W * W, commands s.1) P m s.

Lemma runs_at_bind P {A B} (m : slotM (W := W) A) (f : A → slotM (W := W) B) s :
  runs_at P m s → (∀ a, runs P (f a)) → runs_at P (m ≫= f) s.
Proof. intros Hm Hf. apply adds_at_bind; [exact Hm|]. intros a s' _. apply Hf. Qed.

Lemma runs_at_bind_in P {A B} (m : slotM (W := W) A) (f : A → slotM (W := W) B) s :
  runs_at P m s → (∀ a s', m s = (Ok a, s') → runs_at P (f a) s') → runs_at P (m ≫= f) s.
Proof. intros Hm Hf. apply adds_at_bind; [exact Hm|exact Hf]. Qed.

Lemma runs_from P {A} (m : slotM (W := W) A) : (∀ s, runs_at P m s) → runs P m.
Proof. done. Qed.

Lemma runs_at_self P {B} (f : SlotsHandler W → slotM (W := W) B) s : runs_at P (f s.1) s → runs_at P (self ≫= f) s.
Proof. done. Qed.

Lemma runs_at_look P {A B} (g : W → A) (f : A → slotM (W := W) B) s : runs_at P (f (g s.2)) s → runs_at P (look g ≫= f) s.
Proof. done. Qed.

Lemma runs_at_lift P {A B} (r : exc A) (f : A → slotM (W := W) B) s :
  (∀ a, r = Ok a → runs_at P (f a) s) → runs_at P (lift_exc r ≫= f) s.
Proof. apply adds_at_lift. Qed.

Lemma runs_at_command (P : W * dict slot * slot_command → Prop) {A} x (f : () → slotM (W := W) A) s :
  P (s.2, known_slots s.1, x) → runs P (f ()) → runs_at P (command (W := W) x ≫= f) s.
Proof. intros Hx Hf. apply runs_at_bind; [|by intros []]. exists [(s.2, known_slots s.1, x)]. split; [done|]. by repeat constructor. Qed.
End props.

Create HintDb slotruns.
#[export] Hint Resolve runs_invoke : slotruns.

Ltac runs_step :=
  lazymatch goal with
  | |- adds _ ?P ?m => change (runs P m); try runs_step
  | |- runs _ (mbind _ (lift_exc _)) => apply adds_lift_bind; let a := fresh "a" in let E := fresh "E" in intros a E; cbn beta iota zeta
  | |- runs _ (mbind _ self) => apply adds_gets_bind; let s := fresh "s" in intros s; cbn beta iota zeta
  | |- runs _ (mbind _ (look _)) => apply adds_gets_bind; let s := fresh "s" in intros s; cbn beta iota zeta
  | |- runs _ (mbind _ _) => apply adds_bind; [|let a := fresh "a" in intros a; cbn beta iota zeta]
  | |- runs _ (match ?x with _ => _ end) => destruct x eqn:?; try discriminate
  | |- runs _ (let '_ := ?x in _) => destruct x eqn:?
  | |- runs _ (try_except _ _ _) => apply adds_try
  | |- runs _ (guard _ _) => apply adds_try
  | |- runs _ ?m =>
      lazymatch m with
      | mret _ => idtac | lift_exc _ => idtac | gets _ => idtac | puts _ => idtac | self => idtac | look _ => idtac | modify _ => idtac
      | set_load _ => idtac | set_force _ => idtac | set_known _ => idtac | set_queue _ => idtac | set_advance _ => idtac
      end; by apply adds_keep
  end.
Ltac runs_auto := repeat (first [solve [eauto 2 with slotruns] | runs_step]).

Section justified.
Context `{!Datetime} {W : Type} `{!PgSlots W} (c : Cluster) (desired : dict slot).
Abbreviation ok := (justified (W := W) c desired).

(** A drop that is justified *)
Lemma runs_at_drop name s : ok (s.2, known_slots s.1, DropSlot name) → runs_at ok (_drop_replication_slot (W := W) name) s.
Proof.
  intros Hj. unfold _drop_replication_slot, drop_replication_slot. apply runs_at_bind; [|intros r; runs_auto].
  apply runs_at_command; [done|runs_auto].
Qed.

Lemma runs_load P : runs P (load_replication_slots (W := W)).
Proof. unfold load_replication_slots. runs_auto. Qed.

Lemma runs_unknown name : Dict.mem name desired = false → runs ok (drop_unknown (W := W) c name).
Proof.
  intros Hm. apply runs_from. intros s. unfold drop_unknown. apply runs_at_self, runs_at_look. cbn [id].
  destruct (Dict.get name (known_slots s.1)) as [k|] eqn:Ek; [|by exists []]. destruct (is_paused (ps_config s.2)) eqn:Ep; [by exists []|].
  apply runs_at_lift. intros ignored E. destruct ignored; [by exists []|]. apply runs_at_drop. exists k. split; [done|]. by left.
Qed.

Lemma runs_changed name value : (name, value) ∈ desired → runs ok (drop_changed (W := W) name value).
Proof.
  intros Hv. apply runs_from. intros s. unfold drop_changed. apply runs_at_self.
  destruct (Dict.get name (known_slots s.1)) as [k|] eqn:Ek; [|by exists []].
  apply runs_at_lift. intros same E. destruct same; [by exists []|]. unfold drop_replication_slot. apply runs_at_bind; [|intros r; runs_auto].
  apply runs_at_command; [|runs_auto]. exists k. split; [done|]. right; left. by exists value.
Qed.

Lemma runs_incorrect : runs ok (_drop_incorrect_slots (W := W) c desired).
Proof.
  unfold _drop_incorrect_slots. apply adds_gets_bind. intros s. apply adds_bind.
  - apply adds_each_in. intros n Hn. apply runs_unknown. apply list_elem_of_In, List.filter_In in Hn as [_ Hn].
    by apply negb_true_iff in Hn.
  - intros _. apply adds_each_in. intros [n v] Hn. by apply runs_changed.
Qed.

(** ** Physical slots *)

(** A wanted slot, into which the position and the xmin of the slot on the host may have been copied when it is a physical one *)
Definition wanted (name : string) (value : slot) : Prop :=
  ∃ v, (name, v) ∈ desired ∧
    (value = v ∨ is_type "physical" v = true ∧ ∀ k, k ∉ physical_items → Dict.get k value = Dict.get k v).

Lemma item_vget key (d : slot) v : item key d = Ok v → vget key d = v.
Proof. unfold item, vget. destruct (Dict.get key d); [by intros [= ->]|done]. Qed.

Lemma copy_items_other src keys dst v k : copy_items src dst keys = Ok v → k ∉ keys → Dict.get k v = Dict.get k dst.
Proof.
  revert dst. induction keys as [|k' keys IH]; intros dst Hc Hk; [by injection Hc as <-|].
  cbn [copy_items] in Hc. destruct (item k' src) as [x|e]; [|done]. rewrite (IH (Dict.set k' x dst) Hc) by set_solver.
  apply Dict.get_set_ne. set_solver.
Qed.

(** The copied attributes are those of the slot on the host. *)
Lemma copy_items_copied src keys dst v k : copy_items src dst keys = Ok v → k ∈ keys → vget k v = vget k src.
Proof.
  revert dst. induction keys as [|k' keys IH]; intros dst Hc Hk; [by apply elem_of_nil in Hk|].
  cbn [copy_items] in Hc. destruct (item k' src) as [x|e] eqn:Ex; [|done].
  destruct (decide (k ∈ keys)) as [Hin|Hni]; [by eapply IH|]. apply elem_of_cons in Hk as [->|]; [|done].
  apply item_vget in Ex. subst x. unfold vget at 1. rewrite (copy_items_other _ _ _ _ _ Hc Hni), Dict.get_set_eq. done.
Qed.

(** What [refresh_physical] leaves: the value as it was, for a slot that it does not look at; or the values of the host, with
    everything else as it was, unless the slot was dropped for its xmin. *)
Definition host_slot (s : SlotsHandler W * W) (name : string) (k : slot) : Prop :=
  Dict.get name (known_slots s.1) = Some k ∧ can_advance_slots (ps_postgresql s.2) = true ∧ vget "type" k = VStr "physical".

Definition refreshed (name : string) (v : slot) (s : SlotsHandler W * W) (value : slot) (s' : SlotsHandler W * W) : Prop :=
  (value = v ∧ s' = s ∧ ∀ k, ¬ host_slot s name k) ∨
  (∃ k, host_slot s name k ∧ copy_items k v physical_items = Ok value ∧ (s' = s ∨ truthy (vget "xmin" value) = true)).

Lemma refresh_says clean name v s value s' : refresh_physical (W := W) clean name v s = (Ok value, s') → refreshed name v s value s'.
Proof.
  unfold refresh_physical, refreshed, host_slot, mbind, slotM_bind, eff_bind, self, look, gets, lift_exc, mret, slotM_ret, eff_ret.
  destruct (Dict.get name (known_slots s.1)) as [k|]; [|intros [= <- <-]; left; naive_solver].
  destruct (can_advance_slots (ps_postgresql s.2)) eqn:Ec; [|intros [= <- <-]; left; naive_solver].
  destruct (item "type" k) as [t|e] eqn:Et; [|done]. apply item_vget in Et. destruct (pyval_eqb t (VStr "physical")) eqn:Ep.
  2:{ intros [= <- <-]. left. split_and!; [done|done|]. intros k' ([= <-] & _ & Hk). rewrite Et in Hk. by rewrite Hk in Ep. }
  apply pyval_eqb_eq in Ep. subst t. destruct (copy_items k v physical_items) as [v'|e] eqn:Ev; [|done].
  destruct (item "xmin" v') as [x|e] eqn:Ex; [|done]. apply item_vget in Ex. subst x.
  destruct (clean && _ && truthy (vget "xmin" v')) eqn:Ed.
  - apply andb_prop in Ed as [_ Ed]. destruct (_drop_replication_slot name s) as [[[]|e] s1]; [|done]. intros [= <- <-]. right. exists k.
    split_and!; [done..|by right].
  - intros [= <- <-]. right. exists k. split_and!; [done..|by left].
Qed.

Lemma refreshed_wanted name v s value s' :
  (name, v) ∈ desired → is_type "physical" v = true → refreshed name v s value s' → wanted name value.
Proof.
  intros Hv Ht [(-> & _)|(k & _ & Hc & _)]; exists v; split; [done|by left|done|right]. split; [done|].
  intros k' Hk. by eapply copy_items_other.
Qed.

Lemma copied_other src v value k : copy_items src v physical_items = Ok value → k ∉ physical_items → vget k value = vget k v.
Proof. intros Hc Hk. unfold vget. by rewrite (copy_items_other _ _ _ _ _ Hc Hk). Qed.

Lemma runs_at_refresh clean name v s :
  (name, v) ∈ desired → is_type "physical" v = true → runs_at ok (refresh_physical (W := W) clean name v) s.
Proof.
  intros Hv Ht. unfold refresh_physical. apply runs_at_self, runs_at_look.
  destruct (Dict.get name (known_slots s.1)) as [k|] eqn:Ek; [|by exists []].
  destruct (can_advance_slots _); [|by exists []]. apply runs_at_lift. intros t Et%item_vget.
  destruct (pyval_eqb t _) eqn:Ep; [|by exists []]. apply pyval_eqb_eq in Ep. subst t. apply runs_at_lift. intros v' Hc.
  apply runs_at_lift. intros x Hx%item_vget. apply runs_at_bind; [|intros _; runs_auto].
  destruct (clean && _ && truthy x) eqn:Ed; [|by exists []]. apply andb_prop in Ed as [[_ Ed]%andb_prop Hx'].
  apply pyval_eqb_eq in Ed. subst x.
  rewrite (copied_other _ _ _ "expected_active" Hc) in Ed by set_solver. rewrite (copy_items_copied _ _ _ _ "xmin" Hc) in Hx' by set_solver.
  apply runs_at_drop. exists k. split; [done|]. right; right. exists v. split_and!; [done| |done|by right].
  split; [done|by rewrite Ed].
Qed.

Lemma runs_at_create_or_advance name v s0 value s : (name, v) ∈ desired → is_type "physical" v = true →
  refreshed name v s0 value s → runs_at ok (create_or_advance (W := W) name value) s.
Proof.
  intros Hv Ht Hr. unfold create_or_advance. apply runs_at_self, runs_at_look.
  destruct (Dict.get name (known_slots s.1)) as [k|] eqn:Ek.
  2:{ apply runs_at_command; [|runs_auto]. split; [done|by exists v]. }
  apply runs_at_bind_in; [destruct (can_advance_slots _); by exists []|]. intros t s1 Et.
  assert (s1 = s ∧ (t = VNone ∨ host_slot s name k ∧ t = VStr "physical" ∨ pyval_eqb t (VStr "physical") = false)) as [-> Hcase].
  { unfold host_slot. destruct (can_advance_slots (ps_postgresql s.2)); [|injection Et as <- <-; by split; [|left]].
    unfold lift_exc in Et. destruct (item "type" k) as [t'|] eqn:Ei; [|done]. injection Et as <- <-. split; [done|].
    apply item_vget in Ei. destruct (pyval_eqb t' (VStr "physical")) eqn:Ep; [|by right; right].
    apply pyval_eqb_eq in Ep. subst t'. by right; left. }
  destruct (pyval_eqb t (VStr "physical")) eqn:Ep; cbn [andb]; [|by exists []].
  destruct Hcase as [->|[[Hhost ->]|?]]; [done| |done].
  destruct Hr as [(-> & -> & Hno)|(k0 & Hh & Hc & [->|Hx])].
  - by destruct (Hno k).
  - assert (k0 = k) as -> by (destruct Hh as [Hh _]; congruence).
    destruct (pyval_eqb (vget "expected_active" value) (VBool true)) eqn:Ea; cbn [negb]; [by exists []|].
    assert (expected_unused v) as Hu.
    { split; [done|]. rewrite <-(copied_other _ _ _ "expected_active" Hc) by set_solver. intros E. by rewrite E in Ea. }
    apply runs_at_lift. intros x Hx%item_vget. subst x. rewrite (copy_items_copied _ _ _ _ "xmin" Hc) by set_solver.
    destruct (truthy (vget "xmin" k)) eqn:Exm; [by exists []|].
    rewrite (copy_items_copied _ _ _ _ "restart_lsn" Hc) by set_solver. destruct Hhost as (_ & _ & Hk).
    destruct (truthy (vget "restart_lsn" k)) eqn:Er; cbn [negb].
    2:{ apply runs_at_drop. exists k. split; [done|]. right; right. exists v. split_and!; [done..|by left]. }
    rewrite (copied_other _ _ _ "lsn" Hc) by set_solver. destruct (truthy (vget "lsn" v)); cbn [negb]; [|by exists []].
    apply runs_at_lift. intros l Hl. apply runs_at_lift. intros r Hr. destruct (r <? l) eqn:Elt; [|by exists []]. apply Z.ltb_lt in Elt.
    apply runs_at_command; [by exists v, k, r|runs_auto].
  - destruct (pyval_eqb (vget "expected_active" value) (VBool true)); cbn [negb]; [by exists []|].
    apply runs_at_lift. intros x Hx'%item_vget. subst x. rewrite Hx. by exists [].
Qed.

(** One wanted slot *)
Definition ensure_physical (clean : bool) (name : string) (v : slot) : slotM (W := W) slot :=
  value ← refresh_physical clean name v; create_or_advance name value;; mret value.

Lemma runs_ensure_one clean name v :
  (name, v) ∈ desired → is_type "physical" v = true → runs ok (ensure_physical clean name v) ∧ yields (wanted name) (ensure_physical clean name v).
Proof.
  intros Hv Ht. unfold ensure_physical. split.
  - apply runs_from. intros s. apply runs_at_bind_in; [by apply runs_at_refresh|]. intros value s1 Hr%refresh_says.
    apply runs_at_bind; [by eapply runs_at_create_or_advance|intros []; runs_auto].
  - intros s value s' Hs. unfold mbind, slotM_bind, eff_bind in Hs.
    destruct (refresh_physical clean name v s) as [[v1|e] s1] eqn:E; [|done]. apply refresh_says in E.
    destruct (create_or_advance name v1 s1) as [[[]|e] s2]; [|done]. injection Hs as <- _. by eapply refreshed_wanted.
Qed.

(** The values of the wanted slots *)
Definition all_wanted (slots : dict slot) : Prop := Forall (λ kv, wanted kv.1 kv.2) slots.

Lemma runs_ensure_physical clean slots :
  slots ⊆ desired → runs ok (_ensure_physical_slots (W := W) slots clean) ∧ yields all_wanted (_ensure_physical_slots (W := W) slots clean).
Proof.
  induction slots as [|[name v] slots IH]; intros Hs; [split; [by apply adds_keep|by apply yields_ret; constructor]|].
  destruct IH as [IH1 IH2]; [set_solver|]. assert ((name, v) ∈ desired) as Hv by set_solver. cbn [_ensure_physical_slots].
  assert (∀ t, item "type" v = Ok t →
    let m := if pyval_eqb t (VStr "physical") then ensure_physical clean name v else mret v in runs ok m ∧ yields (wanted name) m) as Hone.
  { intros t Ht%item_vget. cbn zeta. destruct (pyval_eqb t (VStr "physical")) eqn:E.
    - apply runs_ensure_one; [done|]. unfold is_type. by rewrite Ht.
    - split; [by apply adds_keep|apply yields_ret]. exists v. by split; [|left]. }
  split.
  - apply adds_lift_bind. intros t Ht. destruct (Hone t Ht) as [H1 _].
    apply adds_bind; [exact H1|]. intros v'. apply adds_bind; [exact IH1|intros ?; runs_auto].
  - apply (yields_bind_known (λ t, item "type" v = Ok t)); [by apply yields_lift|]. intros t Ht.
    destruct (Hone t Ht) as [_ H2]. eapply yields_bind_known; [exact H2|].
    intros v' Hv'. eapply yields_bind_known; [exact IH2|]. intros sl Hsl. apply yields_ret. by constructor.
Qed.

(** ** Logical slots *)

(** A logical slot is wanted as the cluster gave it. *)
Lemma wanted_logical name value : wanted name value → vget "type" value = VStr "logical" → (name, value) ∈ desired.
Proof.
  intros (v & Hv & [->|[Ht Hk]]) Hl; [done|]. unfold is_type in Ht. assert (vget "type" v = vget "type" value) as He.
  { unfold vget. rewrite Hk; [done|]. unfold physical_items. set_solver. }
  by rewrite He, Hl in Ht.
Qed.

Definition new_slot (known : dict slot) (name : string) (value : slot) : Prop :=
  (name, value) ∈ desired ∧ is_type "logical" value = true ∧ truthy (vget "datoid" (default [] (Dict.get name known))) = false.

Lemma split_logical_wanted known slots r :
  all_wanted slots → split_logical known slots = Ok r → Forall (λ kv, new_slot known kv.1 kv.2) r.2.
Proof.
  revert r. induction slots as [|[name value] slots IH]; intros r Hs Hr; [by injection Hr as <-|].
  apply Forall_cons in Hs as [Hv Hs]. cbn [split_logical] in Hr. cbn [fst snd] in *. exc_inv Hr as t.
  destruct (pyval_eqb t (VStr "logical")) eqn:Et; [|exc_inv Hr as r'; injection Hr as <-; by apply (IH r')].
  destruct (truthy _) eqn:Ed.
  - exc_inv Hr as v. exc_inv Hr as r'. injection Hr as <-. by apply (IH r').
  - exc_inv Hr as v. exc_inv Hr as r'. injection Hr as <-. constructor; [|by apply (IH r')]. apply pyval_eqb_eq in Et. subst t.
    assert (vget "type" value = VStr "logical") as Hl by by apply item_vget. split_and!; [by apply wanted_logical| |done].
    unfold is_type. cbn [fst snd]. by rewrite Hl.
Qed.

(** What creates logical slots does not change the known ones. *)
Definition same_known {A} (m : slotM (W := W) A) : Prop := ∀ s, known_slots (m s).2.1 = known_slots s.1.

Lemma same_known_bind {A B} (m : slotM (W := W) A) (f : A → slotM B) : same_known m → (∀ a, same_known (f a)) → same_known (m ≫= f).
Proof.
  intros Hm Hf s. unfold mbind, slotM_bind, eff_bind. specialize (Hm s). destruct (m s) as [[a|e] s1]; [|done]. by rewrite Hf.
Qed.

Lemma same_known_create db name value : same_known (create_logical (W := W) db name value).
Proof.
  unfold create_logical. apply same_known_bind; [by intros ?|]. intros plugin. apply same_known_bind; [by intros ?|]. intros [].
  apply same_known_bind; [|intros b; by apply same_known_bind].
  intros s. unfold try_except, invoke, mbind, slotM_bind, eff_bind. by destruct (ps_create_logical _ _ _ _) as [[[]|e] w].
Qed.

Lemma runs_at_create_logical known db name value s : known_slots s.1 = known →
  new_slot known name value → vget "database" value = VStr db → runs_at ok (create_logical (W := W) db name value) s.
Proof.
  intros Hk (Hw & Ht & Hn) Hd. unfold create_logical. apply runs_at_lift. intros p Hp%item_vget. apply runs_at_command.
  - rewrite Hk. split; [done|]. by exists value.
  - apply adds_bind; [apply adds_try; runs_auto|intros b; runs_auto].
Qed.

Lemma runs_at_create_all known db new slots s : known_slots s.1 = known →
  Forall (λ kv, new_slot known kv.1 kv.2 ∧ vget "database" kv.2 = VStr db) new →
  runs_at ok (create_all (W := W) db new slots) s ∧ known_slots (create_all db new slots s).2.1 = known.
Proof.
  revert slots s. induction new as [|[name value] new IH]; intros slots s Hk Hn; [split; [by exists []|done]|].
  apply Forall_cons in Hn as [[H1 H2] Hn]. cbn [create_all]. pose proof (same_known_create db name value s) as Hs. split.
  - apply runs_at_bind_in; [by eapply runs_at_create_logical|]. intros b s1 E. rewrite E in Hs. apply IH; [by rewrite <-Hk|done].
  - unfold mbind, slotM_bind, eff_bind. destruct (create_logical db name value s) as [[b|e] s1]; simpl in Hs; [|by rewrite <-Hk].
    apply IH; [by rewrite <-Hk|done].
Qed.

Lemma runs_at_create_in known dbs new slots s : known_slots s.1 = known → Forall (λ kv, new_slot known kv.1 kv.2) new →
  runs_at ok (create_in (W := W) dbs new slots) s.
Proof.
  intros Hk Hn. revert slots s Hk. induction dbs as [|db dbs IH]; intros slots s Hk; [by exists []|]. cbn [create_in].
  assert (Forall (λ kv, new_slot known kv.1 kv.2 ∧ vget "database" kv.2 = VStr db) (of_database db new)) as Hd.
  { apply Forall_forall. intros kv Hkv. apply list_elem_of_In, List.filter_In in Hkv as [Hkv Hdb].
    rewrite Forall_forall in Hn. split; [by apply Hn, list_elem_of_In|by apply pyval_eqb_eq]. }
  apply runs_at_bind_in; [apply runs_invoke|]. intros [] s1 E.
  assert (known_slots s1.1 = known) as Hk1. { unfold invoke in E. destruct (ps_cursor db s.2) as [r w]. by injection E as _ <-. }
  destruct (runs_at_create_all known db (of_database db new) slots s1 Hk1 Hd) as [H1 H2].
  apply runs_at_bind_in; [exact H1|]. intros slots' s2 E2. apply IH. by rewrite E2 in H2.
Qed.

(** An advance that was planned with these known slots at a replay position *)
Definition planned (known : dict slot) (replay : Z) (db name : string) (lsn : Z) : Prop :=
  ∃ v k l r, (name, v) ∈ desired ∧ is_type "logical" v = true ∧ vget "database" v = VStr db ∧
    as_number (vget "lsn" v) = Ok l ∧ lsn = Z.min l replay ∧
    Dict.get name known = Some k ∧ compare_slots v k "database" = Ok true ∧
    as_number (vget "confirmed_flush_lsn" k) = Ok r ∧ r < lsn.

Lemma plan_logical_planned known replay name value v db lsn :
  wanted name value → plan_logical known replay name value = Ok (v, AdvanceTo db lsn) → planned known replay db name lsn.
Proof.
  intros Hw Hp. unfold plan_logical in Hp. exc_inv Hp as t. destruct (pyval_eqb t (VStr "logical")) eqn:Et; [|done].
  cbn [negb] in Hp. destruct (Dict.get name known) as [k|] eqn:Ek; [|by destruct (Dict.mem _ _)].
  destruct (compare_slots value k "database") as [same|] eqn:Es; [|done]. cbn [mbind exc_bind] in Hp. destruct same; [|done]. cbn [negb] in Hp.
  destruct (copy_items k value logical_items) as [v1|] eqn:Ev; [|done]. cbn [mbind exc_bind] in Hp.
  assert (∀ key, key ∉ logical_items → vget key v1 = vget key value) as Hother.
  { intros key Hkey. unfold vget. by rewrite (copy_items_other _ _ _ _ _ Ev Hkey). }
  destruct (Dict.get "lsn" v1) as [l|] eqn:El; [|done]. exc_inv Hp as z. exc_inv Hp as c0. exc_inv Hp as c1.
  destruct (c1 <? Z.min z replay) eqn:Elt; [|done]. exc_inv Hp as d. injection Hp as <- <- <-.
  apply pyval_eqb_eq in Et. subst t. assert (vget "type" value = VStr "logical") as Hl by by apply item_vget.
  exists value, k, z, c1. split_and!; [by apply wanted_logical| | | |done|done|done| |by apply Z.ltb_lt].
  - unfold is_type. by rewrite Hl.
  - rewrite <-(Hother "database") by (unfold logical_items; set_solver).
    match goal with H : slot_database v1 = Ok d |- _ => unfold slot_database in H; exc_inv H as x; rename H into Hx end.
    destruct x; try done. injection Hx as <-. by apply item_vget.
  - rewrite <-(Hother "lsn") by (unfold logical_items; set_solver). unfold vget. by rewrite El.
  - rewrite <-(copy_items_copied _ _ _ _ "confirmed_flush_lsn" Ev) by (unfold logical_items; set_solver).
    match goal with H : item "confirmed_flush_lsn" v1 = Ok c0 |- _ => apply item_vget in H as -> end. done.
Qed.

Lemma plan_slots_planned known slots replay r :
  all_wanted slots → plan_slots known slots replay = Ok r → Forall (λ x, planned known replay x.1.1 x.1.2 x.2) r.1.2.
Proof.
  revert r. induction slots as [|[name value] slots IH]; intros r Hs Hr; [by injection Hr as <-|].
  apply Forall_cons in Hs as [Hv Hs]. cbn [plan_slots] in Hr. exc_inv Hr as p. exc_inv Hr as q.
  destruct q as [[rest adv] copies]. injection Hr as <-. destruct p as [v plan].
  match goal with H : plan_slots _ _ _ = Ok _ |- _ => specialize (IH _ Hs H) end.
  destruct plan as [|db l|]; cbn [fst snd] in *; [done| |done]. constructor; [|done]. by eapply plan_logical_planned.
Qed.

Lemma by_database_planned (P : string → string → Z → Prop) adv d :
  Forall (λ x, P x.1.1 x.1.2 x.2) adv →
  (∀ db names name lsn, Dict.get db d = Some names → Dict.get name names = Some lsn → P db name lsn) →
  ∀ db names name lsn,
    Dict.get db (foldl (λ d x, let '(db, name, l) := x in Dict.set db (Dict.set name l (default [] (Dict.get db d))) d) d adv) = Some names →
    Dict.get name names = Some lsn → P db name lsn.
Proof.
  intros Ha. revert d. induction Ha as [|[[db0 n0] l0] adv H0 Ha IH]; intros d Hd; [done|]. cbn [foldl]. apply IH.
  intros db names name lsn. rewrite Dict.get_set. case_decide as E; [|by apply Hd]. subst db0. intros [= <-].
  rewrite Dict.get_set. case_decide as E; [by intros [= <-]; subst name|]. destruct (Dict.get db d) as [ns|] eqn:Ed; [|done].
  by apply Hd.
Qed.

Lemma runs_logical_replica slots : all_wanted slots → runs ok (_ensure_logical_slots_replica (W := W) slots).
Proof.
  intros Hs. apply runs_from. intros s. unfold _ensure_logical_slots_replica. apply runs_at_self, runs_at_look.
  apply runs_at_lift. intros [[rest adv] copies] Hp. apply runs_at_command.
  - pose proof (plan_slots_planned _ _ _ _ Hs Hp) as Hadv. cbn [fst snd] in Hadv. unfold justified, by_database. cbn [fst snd].
    intros db names name lsn Hdb Hname.
    exact (by_database_planned (planned (known_slots s.1) (ps_replay_lsn s.2)) adv [] Hadv ltac:(done) db names name lsn Hdb Hname).
  - apply adds_gets_bind. intros s'. cbn beta. runs_auto.
Qed.

Lemma runs_logical_primary slots : all_wanted slots → runs ok (_ensure_logical_slots_primary (W := W) slots).
Proof.
  intros Hs. apply runs_from. intros s. unfold _ensure_logical_slots_primary. apply runs_at_self. apply runs_at_lift. intros r Hr.
  apply runs_at_lift. intros dbs _. eapply runs_at_create_in; [done|]. by eapply split_logical_wanted.
Qed.

(** Readiness gives no command. *)
Lemma runs_ready x : runs ok (_ready_logical_slots (W := W) x).
Proof. unfold _ready_logical_slots. apply adds_gets_bind. intros s. apply adds_each. intros kv. runs_auto. Qed.

Lemma runs_readiness n : runs ok (check_logical_slots_readiness (W := W) c n).
Proof.
  unfold check_logical_slots_readiness. apply adds_gets_bind. intros s.
  destruct (processing_queue s.1) as [|q0 q]; [|destruct (leader c) as [l|]];
    try (apply adds_bind; [apply runs_ready|intros ?; by apply adds_keep]).
  apply adds_bind.
  - apply adds_keep. intros s'. unfold invoke. by destruct (ps_leader_slots _ _ _) as [[rows|e] w].
  - intros [rows|]; [|by apply adds_keep]. destruct (n ≫= _) as [[n' [x|]]|]; [|by apply adds_keep..].
    apply adds_bind; [runs_auto|]. intros _. apply adds_bind; [apply runs_ready|intros _; by apply adds_keep].
Qed.
End justified.

(** ** The cycle *)
Section cycle.
Context `{!Datetime} {W : Type} `{!PgSlots W} (c : Cluster) (own_tags : dict pyval).

(** The slots that the cluster wants on this node *)
Definition desired_slots (w : W) : exc (dict slot) :=
  d ← get_replication_slots (ps_config w) c (ps_postgresql w) (NSelf own_tags) None; as_slots d.

Lemma runs_sync_rest d clean (s' : SlotsHandler W * W) :
  runs (justified (W := W) c d)
    (_drop_incorrect_slots c d;;
     slots ← _ensure_physical_slots d clean;
     primary ← look ps_is_primary;
     if primary : bool then
       set_queue [];;
       slots ← _ensure_logical_slots_primary slots;
       set_known slots;; mret []
     else
       check_logical_slots_readiness c (get_slot_name_on_primary c (pg_name (ps_postgresql s'.2)) (NSelf own_tags));;
       r ← _ensure_logical_slots_replica slots;
       set_known r.1;; mret r.2).
Proof.
  apply adds_bind; [apply runs_incorrect|intros _].
  destruct (runs_ensure_physical c d clean d) as [H1 H2]; [done|].
  eapply adds_bind_known; [exact H1|exact H2|]. intros slots Hs. apply adds_gets_bind. intros s.
  destruct (ps_is_primary s.2).
  - apply adds_bind; [runs_auto|intros _]. apply adds_bind; [by apply runs_logical_primary|intros ?; runs_auto].
  - apply adds_bind; [apply runs_readiness|intros _]. apply adds_bind; [by apply runs_logical_replica|intros ?; runs_auto].
Qed.

End cycle.

(** ** A cycle of a primary *)
#[local] Existing Instance text_datetime.

Definition kept_config : dict pyval := [("slots", VDict [("kept", VDict [("type", VStr "physical")])])].

(** A PostgreSQL with one slot, that nobody wants *)
#[local] Instance one_slot : PgSlots () := {|
  ps_major_version _ := 160000; ps_is_primary _ := true; ps_replay_lsn _ := 0; ps_config _ := kept_config;
  ps_postgresql _ := MkPostgresql "a" PRIMARY true;
  ps_load w := (Ok [MkSlotRow "old" "physical" VNone (VInt 100) VNone VNone VNone VNone VNone], w); ps_drop _ w := (Ok (Some (false, true)), w);
  ps_create_physical _ w := (Ok (), w); ps_advance _ _ w := (Ok (), w); ps_cursor _ w := (Ok (), w);
  ps_create_logical _ _ _ w := (Ok (), w); ps_leader_slots _ _ w := (Ok [], w); ps_leader_copy _ _ w := (Ok [], w);
  ps_leader_connect _ w := (Ok (), w); ps_stop w := (Ok true, w); ps_start w := (Ok (), w); ps_install _ _ w := (Ok (), w);
  ps_mpp_ignore _ _ := Ok false;
|}.

Definition one_slot_cluster : Cluster :=
  MkCluster None (Some (MkConfig (VInt 1) kept_config (VInt 1))) None status_empty [] None (sync_empty VNone) None None [].

(** The first cycle drops it and creates the one of the configuration; PostgreSQL is then read again, and without the drop
    having had an effect it is dropped once more. *)
Example first_cycles :
  let cycle s := (sync_replication_slots one_slot_cluster [] s).2 in
  let s := cycle (slots_init 160000, ()) in
  map snd (commands s.1) = [CreatePhysical "kept"; DropSlot "old"] ∧ schedule_load s.1 = true ∧
  map snd (commands (cycle s).1) = [CreatePhysical "kept"; DropSlot "old"; CreatePhysical "kept"; DropSlot "old"].
Proof. by vm_compute. Qed.
