(* ===== verification/Citus.v ===== *)
(** * Groups of Citus nodes ([patroni/postgresql/mpp/citus.py], [PgDistNode], [PgDistGroup])

    The rows of "pg_dist_node" that belong to one group, and the changes that lead from one topology to another.
    A group is a set of nodes that are equal when host and port are; a node is the object itself, so that an
    attribute that is assigned changes the node in the group.  Yielded nodes are collected before any of them is
    used; none is changed after it was yielded. *)
From S2P Require Import Prelude PyDict PyVal.

Open Scope string_scope.
Open Scope Z_scope.

(** ** Nodes *)

Record PgDistNode := MkNode { host : string; port : Z; role : string; nodeid : option Z }.

#[export] Instance PgDistNode_eq_dec : EqDecision PgDistNode.
Proof. solve_decision. Defined.

(** [__eq__] *)
Definition same (a b : PgDistNode) : bool := (host a =? host b)%string && (port a =? port b).

Definition is_primary (n : PgDistNode) : bool := (role n =? "primary")%string || (role n =? "demoted")%string.

Definition as_tuple (include_nodeid : bool) (n : PgDistNode) : string * Z * string * option Z :=
  (host n, port n, role n, if include_nodeid then nodeid n else None).

Definition set_role (r : string) (n : PgDistNode) : PgDistNode := MkNode (host n) (port n) r (nodeid n).
Definition set_nodeid (i : option Z) (n : PgDistNode) : PgDistNode := MkNode (host n) (port n) (role n) i.

(** [not nodeid] *)
Definition no_nodeid (n : PgDistNode) : bool := match nodeid n with None => true | Some z => z =? 0 end.

(** ** Sets of nodes, in the order in which they are visited *)
Abbreviation nodes := (list PgDistNode).

Definition has (n : PgDistNode) (l : nodes) : bool := existsb (same n) l.
Definition get (n : PgDistNode) (l : nodes) : option PgDistNode := List.find (same n) l.
Definition add (n : PgDistNode) (l : nodes) : nodes := if has n l then l else (l ++ [n])%list.
Definition discard (n : PgDistNode) (l : nodes) : nodes := List.filter (λ m, negb (same n m)) l.
Definition without (l l' : nodes) : nodes := List.filter (λ n, negb (has n l')) l.

(** The object [n] with the attributes it has now *)
Definition put (n : PgDistNode) (l : nodes) : nodes := map (λ m, if same n m then n else m) l.

Definition primary (l : nodes) : option PgDistNode := List.find is_primary l.

Record PgDistGroup := MkGroup { groupid : Z; members : nodes; failover : bool }.

(** [PgDistGroup(groupid, nodes)] *)
Definition new_group (g : Z) (l : nodes) : PgDistGroup := MkGroup g (foldl (λ acc n, add n acc) [] l) false.

(** [equals]: the groups have the same id and the same sets of tuples *)
Definition subset_tuples (check : bool) (a b : nodes) : bool :=
  forallb (λ n, existsb (λ m, bool_decide (as_tuple check n = as_tuple check m)) b) a.
Definition equals (a b : PgDistGroup) (check_nodeid : bool) : bool :=
  (groupid a =? groupid b) && subset_tuples check_nodeid (members a) (members b) && subset_tuples check_nodeid (members b) (members a).

(** The order in which a new set is visited, which Python does not determine *)
Class SetOrder := {
  set_order : nodes → nodes;
  set_order_perm l : set_order l ≡ₚ l;
}.

(** ** The transition *)

(** The new group ([self]), the old one, the nodes that were added and those that are gone, and what was yielded, last first *)
Record Tr := MkTr { self : nodes; old : nodes; moved : bool; added : nodes; gone : nodes; out : nodes }.

Definition yield_ (n : PgDistNode) (t : Tr) : Tr := MkTr (self t) (old t) (moved t) (added t) (gone t) (n :: out t).
Definition with_self (l : nodes) (t : Tr) : Tr := MkTr l (old t) (moved t) (added t) (gone t) (out t).
Definition with_old (l : nodes) (t : Tr) : Tr := MkTr (self t) l (moved t) (added t) (gone t) (out t).
Definition with_added (l : nodes) (t : Tr) : Tr := MkTr (self t) (old t) (moved t) l (gone t) (out t).
Definition with_gone (l : nodes) (t : Tr) : Tr := MkTr (self t) (old t) (moved t) (added t) l (out t).
Definition set_moved (t : Tr) : Tr := MkTr (self t) (old t) true (added t) (gone t) (out t).

(** An attribute of a node of [self] is assigned, and the node is yielded. *)
Definition emit (n : PgDistNode) (t : Tr) : Tr := yield_ n (with_self (put n (self t)) t).

(** The new primary was registered as a secondary, [np_old]: its row is used for a new secondary when the old primary is gone,
    and otherwise for the old primary, which leaves its own row first. *)
Definition vacate (op np_old : PgDistNode) (op_new : option PgDistNode) (t : Tr) : PgDistNode * bool * Tr :=
  match op_new, added t with
  | None, a :: rest =>
      let op := set_role "secondary" op in
      (op, true, with_old (put op (old t)) (emit (set_nodeid (nodeid np_old) a) (with_added rest t)))
  | _, _ =>
      if (role op =? "primary")%string then
        let op := set_role "demoted" op in (op, false, yield_ op (with_old (put op (old t)) t))
      else (op, false, t)
  end.

Definition promoted_registered (np op np_old : PgDistNode) (op_new : option PgDistNode) (t : Tr) : PgDistNode * Tr :=
  let '(op, used, t) := vacate op np_old op_new t in
  let '(op_new, t) :=
    match op_new with
    | None => if used : bool then (None, t) else
                let n := MkNode (host op) (port op) (role np_old) None in (Some n, with_self (add n (self t)) t)
    | Some _ => (op_new, t)
    end in
  (op, match op_new with Some n => emit (set_nodeid (nodeid np_old) n) t | None => t end).

(** The new primary was never registered, and the old one may take the row of a secondary that is gone. *)
Definition promoted_unknown (op : PgDistNode) (op_new : option PgDistNode) (t : Tr) : Tr :=
  match gone t with
  | [] => t
  | g :: rest =>
      let '(op_new, t) :=
        match op_new with
        | None => if (role op =? "demoted")%string && (length (added t) <? length (gone t))%nat then
                    let n := MkNode (host op) (port op) "secondary" None in (Some n, with_self (add n (self t)) t)
                  else (None, t)
        | Some _ => (op_new, t)
        end in
      match op_new with Some n => emit (set_nodeid (nodeid g) n) (with_gone rest t) | None => t end
  end.

Definition failover_step (np op : PgDistNode) (t : Tr) : Tr :=
  let t := set_moved t in
  let np_old := get np (old t) in
  let op_new := get op (self t) in
  match np_old with
  | Some n => let '(op, t) := promoted_registered np op n op_new t in emit (set_nodeid (nodeid op) np) t
  | None => promoted_unknown op op_new (emit (set_nodeid (nodeid op) np) t)
  end.

Definition primary_step (np : PgDistNode) (op : option PgDistNode) (t : Tr) : Tr :=
  match op with
  | None => yield_ np t
  | Some op =>
      if same op np then
        let np := set_nodeid (nodeid op) np in
        let t := with_self (put np (self t)) t in
        if (role op =? role np)%string then t else yield_ np (set_moved t)
      else failover_step np op t
  end.

(** Nodes of the new group take the row of the secondary that they were. *)
Definition fill_node (old : nodes) (n : PgDistNode) : PgDistNode :=
  if negb (is_primary n) && no_nodeid n then
    match get n (List.filter (λ v, negb (is_primary v)) old) with Some v => set_nodeid (nodeid v) n | None => n end
  else n.
Definition fill (t : Tr) : Tr := with_self (map (fill_node (old t)) (self t)) t.

(** New nodes take the rows of secondaries that are gone. *)
Fixpoint reuse (added gone : nodes) (t : Tr) : Tr :=
  match added, gone with
  | a :: added, g :: gone => reuse added gone (emit (set_nodeid (nodeid g) a) t)
  | _, _ => with_added added (with_gone gone t)
  end.

(** Rows are only removed or added when the primary was not moved; otherwise the group stays as it is. *)
Definition drop_gone (t : Tr) : Tr :=
  foldl (λ t g, if moved t then with_self (add g (self t)) t else yield_ (MkNode (host g) (port g) "" None) t) t (gone t).
Definition add_new (t : Tr) : Tr :=
  foldl (λ t a, if moved t then with_self (discard a (self t)) t else yield_ a t) t (added t).

Section transition.
Context `{!SetOrder}.

Definition start (new prev : PgDistGroup) (np : PgDistNode) (op : option PgDistNode) : Tr :=
  let gone := without (without (members prev) (members new)) (option_list op) in
  let added := without (without (members new) (members prev)) [np] in
  MkTr (members new) (members prev) (failover prev) (set_order added) (set_order gone) [].

(** [transition]: what is yielded, the new group and the old one *)
Definition transition (new prev : PgDistGroup) : exc (nodes * PgDistGroup * PgDistGroup) :=
  match primary (members new) with
  | None => Raise AssertionFailure
  | Some np =>
      let op := primary (members prev) in
      let t := fill (primary_step np op (start new prev np op)) in
      let t := add_new (drop_gone (reuse (added t) (gone t) t)) in
      Ok (rev (out t), MkGroup (groupid new) (self t) (moved t), MkGroup (groupid prev) (old t) (failover prev))
  end.
End transition.
