(* ===== verification/CitusHandler.v ===== *)
(** * The handler of Citus metadata ([patroni/postgresql/mpp/citus.py], [PgDistTask], [CitusHandler])

    A thread of the coordinator's leader changes "pg_dist_node" by tasks.  A switchover of a group is a transaction
    that stays open between the tasks "before_demote", "before_promote" and "after_promote".  A task is an object:
    it is identified by a number, and whoever waits for it is woken by that number. *)
From stdpp Require Import gmap.
From S2P Require Import Prelude PyDict PyVal Effects Tags DcsData Citus.

Open Scope string_scope.
Open Scope Z_scope.

(** ** Tasks *)

Record PgDistTask := MkTask {
  t_id : nat;
  t_group : PgDistGroup;
  t_event : string;
  t_timeout : option Z;
  t_cooldown : Z;
  t_deadline : Z;
}.

(** [cooldown or 10000] *)
Definition cooldown_or_default (cooldown : option Z) : Z :=
  match cooldown with Some z => if z =? 0 then 10000 else z | None => 10000 end.

Definition new_task (id : nat) (g : Z) (l : nodes) (event : string) (timeout cooldown : option Z) : PgDistTask :=
  MkTask id (new_group g l) event timeout (cooldown_or_default cooldown) 0.

(** [__eq__] *)
Definition task_eqb (a b : PgDistTask) : bool := (t_event a =? t_event b)%string && equals (t_group a) (t_group b) false.
(** [==] with the result of a [get] *)
Definition is_task (a : PgDistTask) (b : option PgDistTask) : bool := match b with Some b => task_eqb a b | None => false end.

Definition with_group (g : PgDistGroup) (t : PgDistTask) : PgDistTask :=
  MkTask (t_id t) g (t_event t) (t_timeout t) (t_cooldown t) (t_deadline t).
Definition with_deadline (d : Z) (t : PgDistTask) : PgDistTask :=
  MkTask (t_id t) (t_group t) (t_event t) (t_timeout t) (t_cooldown t) d.
Definition with_failover (b : bool) (t : PgDistTask) : PgDistTask :=
  with_group (MkGroup (groupid (t_group t)) (members (t_group t)) b) t.

(** A task is a set: it is true when it has nodes. *)
Definition nonempty (t : option PgDistTask) : option PgDistTask :=
  match t with Some x => match members (t_group x) with [] => None | _ => t end | None => None end.

(** ** The state *)

Record CitusHandler := MkCitus {
  pg_dist_group : gmap Z PgDistTask;
  tasks : list PgDistTask;
  in_flight : option PgDistTask;
  schedule_load : bool;                  (* [_schedule_load_pg_dist_group] *)
  ready_to_run : bool;
  next_id : nat;                         (* of the next task object *)
  woken : list nat;                      (* tasks whose event is set *)
}.

(** [__init__] *)
Definition citus_init : CitusHandler := MkCitus ∅ [] None true false 0 [].

(** What other threads may call *)
Inductive other_call := AddTask (g : Z) (l : nodes) (event : string) (timeout cooldown : option Z) | OnDemote | RebuildCache.

(** The database of the coordinator and the environment *)
Class CitusDb (W : Type) := {
  cd_select : W → exc (list (Z * PgDistNode)) * W;
  cd_update_node : Z → string → Z → Z → W → exc () * W;
  cd_add_node : string → Z → Z → string → W → exc Z * W;
  cd_remove_node : string → Z → W → exc () * W;
  cd_command : string → W → exc () * W;
  cd_time : W → Z;
  (* the calls of other threads while a task is processed *)
  cd_meanwhile : W → list other_call * W;
}.

(** [urlparse(conn_url)]: hostname and port *)
Class UrlParse := urlparse : pyval → exc (option string * option Z).

Section handler.
Context {W : Type} `{!CitusDb W, !SetOrder}.

Definition cM (A : Type) : Type := eff (CitusHandler * W) A.
#[global] Instance cM_ret : MRet cM := eff_ret _.
#[global] Instance cM_bind : MBind cM := eff_bind _.

Definition self : cM CitusHandler := gets fst.
Definition modify (f : CitusHandler → CitusHandler) : cM () := puts (λ s, (f s.1, s.2)).

Definition put_groups (g : gmap Z PgDistTask) (h : CitusHandler) : CitusHandler :=
  MkCitus g (tasks h) (in_flight h) (schedule_load h) (ready_to_run h) (next_id h) (woken h).
Definition put_tasks (l : list PgDistTask) (h : CitusHandler) : CitusHandler :=
  MkCitus (pg_dist_group h) l (in_flight h) (schedule_load h) (ready_to_run h) (next_id h) (woken h).
Definition put_flight (t : option PgDistTask) (h : CitusHandler) : CitusHandler :=
  MkCitus (pg_dist_group h) (tasks h) t (schedule_load h) (ready_to_run h) (next_id h) (woken h).
Definition put_load (b : bool) (h : CitusHandler) : CitusHandler :=
  MkCitus (pg_dist_group h) (tasks h) (in_flight h) b (ready_to_run h) (next_id h) (woken h).
Definition put_ready (h : CitusHandler) : CitusHandler :=
  MkCitus (pg_dist_group h) (tasks h) (in_flight h) (schedule_load h) true (next_id h) (woken h).
Definition wake (id : nat) (h : CitusHandler) : CitusHandler :=
  MkCitus (pg_dist_group h) (tasks h) (in_flight h) (schedule_load h) (ready_to_run h) (next_id h) (id :: woken h).

(** [schedule_cache_rebuild] *)
Definition schedule_cache_rebuild : CitusHandler → CitusHandler := put_load true.

(** [on_demote] *)
Definition on_demote (h : CitusHandler) : CitusHandler := put_flight None (put_tasks [] (put_groups ∅ h)).

(** [query]: after an error nothing is in flight any more, and the cache is read again. *)
Definition query {A} (op : W → exc A * W) : cM A := λ s,
  let '(r, w) := op s.2 in
  match r with
  | Ok a => (Ok a, (s.1, w))
  | Raise e => (Raise e, (schedule_cache_rebuild (put_flight None s.1), w))
  end.

(** ** The cache *)

(** The rows by group *)
Definition add_row (cache : gmap Z PgDistTask) (id : nat) (row : Z * PgDistNode) : gmap Z PgDistTask :=
  let t := default (new_task id row.1 [] "after_promote" None None) (cache !! row.1) in
  <[row.1 := with_group (MkGroup row.1 (add row.2 (members (t_group t))) false) t]> cache.

Fixpoint add_rows (cache : gmap Z PgDistTask) (id : nat) (rows : list (Z * PgDistNode)) : gmap Z PgDistTask * nat :=
  match rows with
  | [] => (cache, id)
  | row :: rows => add_rows (add_row cache id row) (match cache !! row.1 with Some _ => id | None => S id end) rows
  end.

(** [load_pg_dist_group] *)
Definition load_pg_dist_group : cM bool :=
  h ← self;
  if negb (schedule_load h) then mret true else
  modify (put_load false);;
  r ← try_except (λ _, true) (rows ← query cd_select; mret (Some rows)) (mret None);
  match r with
  | None => mret false
  | Some rows =>
      modify (λ h, let '(cache, id) := add_rows ∅ (next_id h) rows in
        MkCitus cache (tasks h) (in_flight h) (schedule_load h) (ready_to_run h) id (woken h));;
      mret true
  end.

(** ** Tasks *)

(** [find_task_by_groupid] *)
Fixpoint find_task_by_groupid (g : Z) (l : list PgDistTask) : option nat :=
  match l with
  | [] => None
  | t :: l => if groupid (t_group t) =? g then Some 0%nat else S <$> find_task_by_groupid g l
  end.

(** [self._tasks.pop(i)] *)
Definition pop_at (i : nat) (l : list PgDistTask) : list PgDistTask := (take i l ++ drop (S i) l)%list.

(** The loop of [pick_task]: tasks that the cache shows to be done are removed. *)
Fixpoint skip_done (fuel : nat) (cache : gmap Z PgDistTask) (l : list PgDistTask) : option nat * list PgDistTask :=
  match fuel with
  | O => (None, l)
  | S fuel =>
      match (match find_task_by_groupid 0 l with Some i => Some i | None => match l with [] => None | _ => Some 0%nat end end) with
      | None => (None, l)
      | Some i =>
          match l !! i with
          | Some t => if is_task t (cache !! groupid (t_group t)) then skip_done fuel cache (pop_at i l) else (Some i, l)
          | None => (None, l)
          end
      end
  end.

(** [pick_task]: the index, the task, and the tasks that stay *)
Definition pick_task (h : CitusHandler) : option (nat * PgDistTask) * CitusHandler :=
  match nonempty (in_flight h) with
  | Some f =>
      (match find_task_by_groupid (groupid (t_group f)) (tasks h) with Some i => pair i <$> tasks h !! i | None => None end, h)
  | None =>
      let '(i, l) := skip_done (S (length (tasks h))) (pg_dist_group h) (tasks h) in
      (match i with Some i => pair i <$> l !! i | None => None end, put_tasks l h)
  end.

(** [update_node] *)
Definition update_node (g : Z) (n : PgDistNode) (cooldown : Z) : cM PgDistNode :=
  if negb (bool_decide (role n ∈ ["primary"; "secondary"; "demoted"])) then query (cd_remove_node (host n) (port n));; mret n
  else match nodeid n with
  | Some id => query (cd_update_node id (host n +:+ (if (role n =? "demoted")%string then "-demoted" else "")) (port n) cooldown);; mret n
  | None =>
      if negb (role n =? "demoted")%string then
        id ← query (cd_add_node (host n) (port n) g (role n)); mret (set_nodeid (Some id) n)
      else mret n
  end.

Definition with_members (l : nodes) (t : PgDistTask) : PgDistTask :=
  with_group (MkGroup (groupid (t_group t)) l (failover (t_group t))) t.

(** The nodes in turn; an id that was given to a node of the task stays in it. *)
Fixpoint update_nodes (l : nodes) (t : PgDistTask) : cM PgDistTask :=
  match l with
  | [] => mret t
  | n :: l =>
      n' ← update_node (groupid (t_group t)) n (t_cooldown t);
      update_nodes l (if bool_decide (n' = n) then t else with_members (put n' (members (t_group t))) t)
  end.

(** The state that the task starts from, and where it is kept *)
Definition current_state (t : PgDistTask) (h : CitusHandler) : PgDistGroup :=
  match nonempty (in_flight h) with
  | Some f => t_group f
  | None => match nonempty (pg_dist_group h !! groupid (t_group t)) with
            | Some c => t_group c
            | None => new_group (groupid (t_group t)) []
            end
  end.
Definition put_current_state (t : PgDistTask) (g : PgDistGroup) (h : CitusHandler) : CitusHandler :=
  match nonempty (in_flight h) with
  | Some f => put_flight (Some (with_group g f)) h
  | None => match nonempty (pg_dist_group h !! groupid (t_group t)) with
            | Some c => put_groups (<[groupid (t_group t) := with_group g c]> (pg_dist_group h)) h
            | None => h
            end
  end.

(** [update_group] *)
Definition update_group (t : PgDistTask) (transaction : bool) : cM PgDistTask :=
  h ← self;
  r ← lift_exc (transition (t_group t) (current_state t h));
  let '(transitions, new, old) := r in
  let t := with_group new t in
  modify (put_current_state t old);;
  match transitions with
  | [] => mret t
  | _ =>
      let own := negb transaction && (1 <? length transitions)%nat in
      (if own then query (cd_command "BEGIN") else mret ());;
      t ← update_nodes transitions t;
      if own then query (cd_command "COMMIT");; mret (with_failover false t) else mret t
  end.

(** [process_task]: whether the cache is to be updated, and the task with its changes *)
Definition process_task (t : PgDistTask) : cM (bool * PgDistTask) :=
  h ← self;
  if (t_event t =? "after_promote")%string then
    t ← update_group t (negb (is_none (in_flight h)));
    h ← self;
    (if is_none (nonempty (in_flight h)) then mret () else query (cd_command "COMMIT"));;
    mret (true, with_failover false t)
  else
    now ← gets (λ s, cd_time s.2);
    let t := match t_timeout t with Some x => if x =? 0 then t else with_deadline (now + x) t | None => t end in
    (if is_none (nonempty (in_flight h)) then query (cd_command "BEGIN") else mret ());;
    t ← update_group t true;
    mret (false, t).

(** ** Requests for tasks *)

(** Whether [sync_meta_data] has to leave the group to a request over REST *)
Definition left_to_request (now : Z) (t : PgDistTask) (i : option nat) (h : CitusHandler) : bool :=
  match t_timeout t with
  | Some _ => false
  | None =>
      match i with
      | Some i => match tasks h !! i with Some o => negb (is_none (t_timeout o)) | None => false end
      | None => false
      end ||
      match nonempty (in_flight h) with
      | Some f => (groupid (t_group f) =? groupid (t_group t)) && negb (is_none (t_timeout f)) && (now <? t_deadline f)
      | None => false
      end
  end.

(** [_add_task] *)
Definition _add_task (now : Z) (t : PgDistTask) (h : CitusHandler) : bool * CitusHandler :=
  let g := groupid (t_group t) in
  let i := find_task_by_groupid g (tasks h) in
  if left_to_request now t i h then (false, h) else
  match i with
  | Some i =>
      match tasks h !! i with
      | Some o => if task_eqb t o then (false, h) else (true, put_tasks (<[i := t]> (tasks h)) h)
      | None => (false, h)
      end
  | None =>
      if schedule_load h || negb (is_task t (pg_dist_group h !! g)) ||
         match nonempty (in_flight h) with Some f => g =? groupid (t_group f) | None => false end
      then (true, put_tasks (tasks h ++ [t])%list h) else (false, h)
  end.

(** [PgDistTask(...)] and [_add_task] *)
Definition add_new_task (now : Z) (g : Z) (l : nodes) (event : string) (timeout cooldown : option Z) (h : CitusHandler) :
    option nat * CitusHandler :=
  let t := new_task (next_id h) g l event timeout cooldown in
  let h := MkCitus (pg_dist_group h) (tasks h) (in_flight h) (schedule_load h) (ready_to_run h) (S (next_id h)) (woken h) in
  let '(added, h) := _add_task now t h in
  (if added then Some (t_id t) else None, h).

Definition do_call (now : Z) (h : CitusHandler) (c : other_call) : CitusHandler :=
  match c with
  | AddTask g l event timeout cooldown => (add_new_task now g l event timeout cooldown h).2
  | OnDemote => on_demote h
  | RebuildCache => schedule_cache_rebuild h
  end.

(** ** The thread *)

Definition meanwhile : cM () := λ s,
  let '(calls, w) := cd_meanwhile s.2 in (Ok (), (foldl (do_call (cd_time s.2)) s.1 calls, w)).

(** The object in the list is the one that was changed. *)
Definition put_task (t : PgDistTask) (l : list PgDistTask) : list PgDistTask :=
  map (λ o, if (t_id o =? t_id t)%nat then t else o) l.

(** The section after a task was processed; [result] is the task as it is now and what [process_task] returned *)
Definition book (i : nat) (t : PgDistTask) (update_cache : option bool) : cM () :=
  h ← self;
  match tasks h with
  | [] => mret ()
  | _ =>
      (match update_cache with
       | Some true => modify (λ h, put_groups (<[groupid (t_group t) := t]> (pg_dist_group h)) h)
       | _ => mret ()
       end);;
      modify (put_flight (match update_cache with Some false => Some t | _ => None end));;
      match tasks h !! i with
      | None => lift_exc (Raise IndexError)
      | Some o => if (t_id o =? t_id t)%nat then modify (λ h, put_tasks (pop_at i (tasks h)) h) else mret ()
      end
  end.

(** One round of [process_tasks]: whether there may be more *)
Definition process_one : cM bool :=
  h ← self;
  loaded ← (if is_none (nonempty (in_flight h)) then load_pg_dist_group else mret true);
  if negb loaded then mret false else
  h ← self;
  let '(picked, h') := pick_task h in
  modify (λ _, h');;
  match picked with
  | None => mret false
  | Some (i, t) =>
      if is_none (nonempty (Some t)) then mret false else
      r ← try_except (λ _, true) (r ← process_task t; mret (Some r)) (mret None);
      let t' := match r with Some (_, t) => t | None => t end in
      modify (λ h, put_tasks (put_task t' (tasks h)) h);;
      meanwhile;;
      book i t' (fst <$> r);;
      modify (wake (t_id t));;
      mret true
  end.

(** [process_tasks], with one round of fuel for each task that is processed *)
Fixpoint process_tasks (fuel : nat) : cM () :=
  match fuel with
  | O => mret ()
  | S fuel => more ← process_one; if more : bool then process_tasks fuel else mret ()
  end.

(** The timeout of [run]: [Some None] to wait without one *)
Definition run_timeout (now : Z) (h : CitusHandler) : option Z :=
  if schedule_load h then Some (-1) else
  match nonempty (in_flight h) with
  | Some f => match tasks h with [] => None | _ => Some (t_deadline f - now) end
  | None => match tasks h with [] => None | _ => Some (-1) end
  end.

(** One round of [run]; its waiting is a step of the other threads. *)
Definition run_once (fuel : nat) : cM () :=
  h ← self;
  now ← gets (λ s, cd_time s.2);
  (match run_timeout now h with
   | Some z => if 0 <? z then meanwhile else
       if is_none (nonempty (in_flight h)) then mret () else query (cd_command "ROLLBACK");; modify (put_flight None)
   | None => meanwhile
   end);;
  process_tasks fuel.

(** ** Requests of the agent and over REST *)
Context `{!UrlParse, !Datetime}.

(** [_pg_dist_node] *)
Definition _pg_dist_node (r : string) (url : pyval) : option PgDistNode :=
  match urlparse url with
  | Ok (Some h, p) => if (h =? "")%string then None else Some (MkNode h (match p with Some p => if p =? 0 then 5432 else p | None => 5432 end) r None)
  | _ => None
  end.

(** The secondaries of [add_task] *)
Fixpoint secondaries (leader_name : string) (ms : list Member) : exc nodes :=
  match ms with
  | [] => mret []
  | m :: ms =>
      n ← (if negb (m_name m =? leader_name)%string && negb (noloadbalance m) && is_running m then
             url ← conn_url m; mret (if truthy url.1 then _pg_dist_node "secondary" url.1 else None)
           else mret None);
      r ← secondaries leader_name ms;
      mret (option_list n ++ r)%list
  end.

Definition request (g : Z) (l : nodes) (event : string) (timeout cooldown : option Z) : cM (option nat) :=
  λ s, let '(r, h) := add_new_task (cd_time s.2) g l event timeout cooldown s.1 in (Ok r, (h, s.2)).

(** [add_task]: the task, when it was added *)
Definition add_task (event : string) (g : Z) (ms : list Member) (leader_name : string) (leader_url : pyval) (timeout cooldown : option Z) :
    cM (option nat) :=
  match _pg_dist_node (if (event =? "before_demote")%string then "demoted" else "primary") leader_url with
  | None => mret None
  | Some p =>
      l ← lift_exc (secondaries leader_name ms);
      request g (p :: l) event timeout cooldown
  end.

(** [sync_meta_data]; [workers] are the clusters of the other groups. *)
Definition sync_worker (w : Z * Cluster) : cM () :=
  match leader w.2 with
  | None => mret ()
  | Some l =>
      url ← lift_exc (conn_url (l_member l));
      let d := m_data (l_member l) in
      if truthy url.1 && bool_decide (vget "role" d ∈ [VStr "master"; VStr "primary"]) && pyval_eqb (vget "state" d) (VStr "running")
      then add_task "after_promote" w.1 (DcsData.members w.2) (l_name l) url.1 None None;; mret ()
      else mret ()
  end.

Definition sync_meta_data (coordinator : bool) (name : string) (connection_string : pyval) (c : Cluster) (workers : list (Z * Cluster)) : cM () :=
  if negb coordinator then mret () else
  modify put_ready;;
  add_task "after_promote" 0 (DcsData.members c) name connection_string None None;;
  for_each workers sync_worker.

(** An event of a worker, with its items *)
Record mpp_event := MkEvent { e_type : string; e_group : Z; e_leader : pyval; e_timeout : Z; e_cooldown : Z }.

(** [handle_event]: the task to wait for *)
Definition handle_event (workers : list (Z * Cluster)) (e : mpp_event) : cM (option nat) :=
  h ← self;
  if negb (ready_to_run h) then mret None else
  match List.find (λ w, w.1 =? e_group e) workers with
  | Some (_, worker) =>
      match leader worker with
      | Some l =>
          if negb (pyval_eqb (VStr (l_name l)) (e_leader e)) then mret None else
          url ← lift_exc (conn_url (l_member l));
          if negb (truthy url.1) then mret None else
          t ← add_task (e_type e) (e_group e) (DcsData.members worker) (l_name l) url.1 (Some (e_timeout e)) (Some (e_cooldown e * 1000));
          mret (if (e_type e =? "before_demote")%string then t else None)
      | None => mret None
      end
  | None => mret None
  end.
End handler.
