(* ===== verification/CitusProps.v ===== *)
(** * What the transition of a Citus group leaves in "pg_dist_node"

    The statements of a transition are executed one after the other: none of them breaks the constraints of the
    table, and at the end its rows are those that the new group says. *)
From S2P Require Import Prelude PyDict PyVal Effects Citus CitusHandler.

Open Scope string_scope.
Open Scope Z_scope.

(** ** Sets *)

Definition key (n : PgDistNode) : string * Z := (host n, port n).

Lemma same_key a b : same a b = true ↔ key a = key b.
Proof.
  unfold same, key. rewrite andb_true_iff, String.eqb_eq, Z.eqb_eq. split; [by intros [-> ->]|by intros [= -> ->]].
Qed.

Lemma same_refl a : same a a = true.
Proof. by apply same_key. Qed.

Lemma same_false a b : same a b = false ↔ key a ≠ key b.
Proof. rewrite <-same_key. by destruct (same a b). Qed.

Lemma same_set_nodeid i a b : same a (set_nodeid i b) = same a b.
Proof. done. Qed.

Lemma has_keys n l : has n l = true ↔ key n ∈ (key <$> l).
Proof.
  unfold has. rewrite existsb_exists, list_elem_of_fmap. split.
  - intros (m & Hm & Hs%same_key). exists m. split; [done|by apply list_elem_of_In].
  - intros (m & Hk & Hm%list_elem_of_In). exists m. split; [done|by apply same_key].
Qed.

Lemma has_false n l : has n l = false ↔ key n ∉ (key <$> l).
Proof. rewrite <-has_keys. by destruct (has n l). Qed.

Lemma node_key_inj l a b : NoDup (key <$> l) → a ∈ l → b ∈ l → key a = key b → a = b.
Proof.
  induction l as [|x l IH]; [by intros _ ?%elem_of_nil|]. rewrite fmap_cons, NoDup_cons. intros [Hx Hl] Ha Hb Hk.
  apply elem_of_cons in Ha as [->|Ha]; apply elem_of_cons in Hb as [->|Hb]; [done| | |by apply IH].
  - destruct Hx. rewrite Hk. by apply list_elem_of_fmap_2.
  - destruct Hx. rewrite <-Hk. by apply list_elem_of_fmap_2.
Qed.

Lemma get_Some n l m : NoDup (key <$> l) → get n l = Some m ↔ m ∈ l ∧ key m = key n.
Proof.
  intros Hl. unfold get. split.
  - intros [Hm Hs]%List.find_some. apply same_key in Hs. split; [by apply list_elem_of_In|done].
  - intros [Hm Hk]. destruct (List.find (same n) l) as [x|] eqn:E.
    + apply List.find_some in E as [Hx Hs]. apply same_key in Hs. f_equal. apply (node_key_inj l); [done|by apply list_elem_of_In|done|congruence].
    + apply List.find_none with (x := m) in E; [|by apply list_elem_of_In]. apply same_false in E. congruence.
Qed.

Lemma get_node_None n l : get n l = None ↔ key n ∉ (key <$> l).
Proof.
  unfold get. rewrite <-has_false. unfold has. induction l as [|x l IH]; [done|]. simpl.
  destruct (same n x); simpl; [done|]. apply IH.
Qed.

Lemma get_perm n l l' : l ≡ₚ l' → NoDup (key <$> l) → get n l = get n l'.
Proof.
  intros Hp Hl. assert (NoDup (key <$> l')) as Hl' by (by rewrite <-Hp).
  destruct (get n l') as [m|] eqn:E; [|apply get_node_None; apply get_node_None in E; by rewrite Hp].
  apply get_Some in E as [Hm Hk]; [|done]. apply get_Some; [done|]. by rewrite Hp.
Qed.

Lemma put_keys n l : key <$> put n l = key <$> l.
Proof.
  unfold put. induction l as [|x l IH]; [done|]. cbn. rewrite IH. destruct (same n x) eqn:E; [|done].
  apply same_key in E. by rewrite E.
Qed.

Lemma put_perm n l l' : l ≡ₚ l' → put n l ≡ₚ put n l'.
Proof. intros Hp. unfold put. by rewrite Hp. Qed.

Lemma put_absent n l : key n ∉ (key <$> l) → put n l = l.
Proof.
  induction l as [|x l IH]; [done|]. rewrite fmap_cons, not_elem_of_cons. intros [Hx Hl]. unfold put. cbn. fold (put n l).
  rewrite IH by done. rewrite (proj2 (same_false n x)); done.
Qed.

Lemma put_head n x l : key n = key x → NoDup (key <$> x :: l) → put n (x :: l) = n :: l.
Proof.
  intros Hk. rewrite fmap_cons, NoDup_cons. intros [Hx Hl]. unfold put. cbn. rewrite (proj2 (same_key n x)) by done.
  f_equal. apply put_absent. by rewrite Hk.
Qed.

Lemma add_absent n l : key n ∉ (key <$> l) → add n l = (l ++ [n])%list.
Proof. intros Hn. unfold add. by rewrite (proj2 (has_false n l)). Qed.

Lemma discard_head n l : NoDup (key <$> n :: l) → discard n (n :: l) = l.
Proof.
  rewrite fmap_cons, NoDup_cons. intros [Hn Hl]. unfold discard. cbn. rewrite same_refl. cbn.
  clear Hl. induction l as [|x l IH]; [done|]. rewrite fmap_cons, not_elem_of_cons in Hn. destruct Hn as [Hx Hn]. cbn.
  rewrite (proj2 (same_false n x)) by done. cbn. by rewrite IH.
Qed.

Lemma discard_perm n l l' : l ≡ₚ l' → discard n l ≡ₚ discard n l'.
Proof.
  intros Hp. unfold discard. induction Hp as [|x l l' Hp IH|x y l|]; simpl.
  - done.
  - by destruct (same n x); simpl; rewrite IH.
  - destruct (same n x), (same n y); simpl; solve_Permutation.
  - by etrans.
Qed.

Lemma filter_split (p : PgDistNode → bool) l : l ≡ₚ (List.filter p l ++ List.filter (λ x, negb (p x)) l)%list.
Proof.
  induction l as [|x l IH]; [done|]. simpl. destruct (p x); simpl; rewrite IH at 1; [done|solve_Permutation].
Qed.

Lemma filter_fmap_sub (p : PgDistNode → bool) l : NoDup (key <$> l) → NoDup (key <$> List.filter p l).
Proof. rewrite (filter_split p l) at 1. rewrite fmap_app, NoDup_app. by intros [? _]. Qed.

Lemma filter_same n l m : NoDup (key <$> l) → get n l = m → List.filter (same n) l = option_list m.
Proof.
  intros Hl <-. induction l as [|x l IH]; [done|]. rewrite fmap_cons, NoDup_cons in Hl. destruct Hl as [Hx Hl].
  unfold get. simpl. destruct (same n x) eqn:E; [|by apply IH]. simpl. f_equal. rewrite IH by done.
  apply same_key in E. rewrite <-E in Hx. apply get_node_None in Hx. by rewrite Hx.
Qed.

Lemma primary_perm l l' : l ≡ₚ l' → (∀ a b, a ∈ l → b ∈ l → is_primary a = true → is_primary b = true → a = b) → primary l = primary l'.
Proof.
  intros Hp Hu. unfold primary. destruct (List.find is_primary l') as [m|] eqn:E'.
  - apply List.find_some in E' as [Hm Hr]. apply list_elem_of_In in Hm. rewrite <-Hp in Hm.
    destruct (List.find is_primary l) as [x|] eqn:E.
    + apply List.find_some in E as [Hx Hrx]. f_equal. apply Hu; [by apply list_elem_of_In|done..].
    + apply List.find_none with (x := m) in E; [congruence|by apply list_elem_of_In].
  - destruct (List.find is_primary l) as [x|] eqn:E; [|done]. apply List.find_some in E as [Hx Hr].
    apply List.find_none with (x := x) in E'; [congruence|]. apply list_elem_of_In. rewrite <-Hp. by apply list_elem_of_In.
Qed.

(** ** Two groups side by side

    [a] and [b] are different primaries of the groups [l] and [l']. *)
Definition secondary (n : PgDistNode) : Prop := role n = "secondary".
Definition others_in (a b : PgDistNode) (l l' : nodes) : nodes :=
  List.filter (λ n, has n l') (List.filter (λ n, negb (same b n)) (List.filter (λ n, negb (same a n)) l)).
Definition only_in (a : PgDistNode) (l l' : nodes) : nodes := without (without l l') [a].

Lemma filter_filter (p q : PgDistNode → bool) l : List.filter p (List.filter q l) = List.filter (λ x, q x && p x) l.
Proof. induction l as [|x l IH]; [done|]. simpl. destruct (q x); simpl; [destruct (p x); simpl; by rewrite IH|done]. Qed.

Lemma has_one n a : has n [a] = same a n.
Proof. unfold has, same. cbn. rewrite orb_false_r, (String.eqb_sym (host n)), (Z.eqb_sym (port n)). done. Qed.

Lemma eq_perm (l l' : nodes) : l = l' → l ≡ₚ l'.
Proof. by intros ->. Qed.

Lemma split_group a b l l' :
  NoDup (key <$> l) → a ∈ l → b ∈ l' → key a ≠ key b →
  l ≡ₚ (a :: option_list (get b l) ++ only_in a l l' ++ others_in a b l l')%list.
Proof.
  intros Hl Ha Hb Hab. rewrite (filter_split (same a) l) at 1.
  rewrite (filter_same a l (Some a)) by (done || by apply get_Some). simpl. f_equiv.
  set (l1 := List.filter (λ n, negb (same a n)) l).
  assert (NoDup (key <$> l1)) as Hl1 by by apply filter_fmap_sub.
  rewrite (filter_split (same b) l1) at 1. rewrite (filter_same b l1 (get b l)); [|done|].
  2:{ destruct (get b l) as [m|] eqn:E.
      - apply get_Some in E as [Hm Hk]; [|done]. apply get_Some; [done|]. split; [|done].
        apply list_elem_of_In, List.filter_In. split; [by apply list_elem_of_In|]. apply negb_true_iff, same_false. congruence.
      - apply get_node_None. apply get_node_None in E. intros (m & Hk & Hm)%list_elem_of_fmap. apply E. rewrite Hk.
        apply list_elem_of_fmap_2. apply list_elem_of_In, List.filter_In in Hm as [Hm _]. by apply list_elem_of_In. }
  f_equiv. rewrite (filter_split (λ n, negb (has n l'))). f_equiv.
  - unfold only_in, without, l1. rewrite !filter_filter. apply eq_perm. apply List.filter_ext_in. intros n _.
    rewrite has_one. destruct (same a n), (has n l') eqn:E; simpl; rewrite ?andb_false_r; try done.
    rewrite andb_true_r. apply negb_true_iff, same_false. intros Hk. apply has_false in E. apply E. rewrite <-Hk. by apply list_elem_of_fmap_2.
  - unfold others_in. fold l1. apply eq_perm, List.filter_ext. intros n. by rewrite negb_involutive.
Qed.

(** The same primary in both *)
Lemma split_same a b l l' :
  NoDup (key <$> l) → a ∈ l → key a = key b → l ≡ₚ (a :: only_in a l l' ++ others_in a b l l')%list.
Proof.
  intros Hl Ha Hab. rewrite (filter_split (same a) l) at 1.
  rewrite (filter_same a l (Some a)) by (done || by apply get_Some). simpl. f_equiv.
  etrans; [apply (filter_split (λ n, negb (has n l')))|]. f_equiv.
  - unfold only_in, without. rewrite !filter_filter. apply eq_perm. apply List.filter_ext. intros n.
    rewrite has_one. apply andb_comm.
  - unfold others_in. rewrite !filter_filter. apply eq_perm, List.filter_ext. intros n. rewrite negb_involutive.
    assert (same b n = same a n) as -> by (unfold same; unfold key in Hab; by injection Hab as -> ->). by destruct (same a n).
Qed.

(** Common secondaries take their rows. *)
Definition plain (l : nodes) : Prop := Forall secondary l.

Lemma secondary_not_primary n : secondary n → is_primary n = false.
Proof. unfold secondary, is_primary. by intros ->. Qed.

Lemma node_eq a b : key a = key b → role a = role b → nodeid a = nodeid b → a = b.
Proof. destruct a, b. unfold key. cbn. by intros [= -> ->] -> ->. Qed.

Lemma fill_known old n v :
  secondary n → nodeid n = None → NoDup (key <$> old) → v ∈ old → secondary v → key v = key n → fill_node old n = v.
Proof.
  intros Hn Hi Ho Hv Hs Hk. unfold fill_node, no_nodeid. rewrite (secondary_not_primary n Hn), Hi. cbn.
  rewrite (proj2 (get_Some n _ v (filter_fmap_sub _ _ Ho))).
  - apply node_eq; cbn; [done|by rewrite Hn, Hs|done].
  - split; [|done]. apply list_elem_of_In, List.filter_In. split; [by apply list_elem_of_In|]. by rewrite secondary_not_primary.
Qed.

Lemma fill_unknown old n : (∀ v, v ∈ old → is_primary v = false → key v ≠ key n) → fill_node old n = n.
Proof.
  intros Hv. unfold fill_node. destruct (_ && _); [|done]. rewrite (proj2 (get_node_None n _)); [done|].
  intros (v & Hk & Hin)%list_elem_of_fmap. apply list_elem_of_In, List.filter_In in Hin as [Hin Hp]. apply negb_true_iff in Hp.
  apply (Hv v); [by apply list_elem_of_In|done|done].
Qed.

(** The nodes in both sets, filled from [old], are those of the old one: [k] is what [l] has of them, [k'] what the old group has. *)
Lemma fill_common old (k k' : nodes) :
  NoDup (key <$> old) → NoDup (key <$> k) → NoDup (key <$> k') → plain k → plain k' → Forall (λ n, nodeid n = None) k →
  (∀ v, v ∈ k' → v ∈ old) → (∀ x, x ∈ (key <$> k) ↔ x ∈ (key <$> k')) → map (fill_node old) k ≡ₚ k'.
Proof.
  intros Ho Hk Hk' Hp Hp' Hi Hold Hkeys. unfold plain in *. rewrite Forall_forall in Hp, Hp', Hi.
  assert (∀ n, n ∈ k → fill_node old n ∈ k' ∧ key (fill_node old n) = key n) as Hfill.
  { intros n Hn. assert (key n ∈ (key <$> k')) as (v & Hv & Hin)%list_elem_of_fmap by by apply Hkeys, list_elem_of_fmap_2.
    rewrite (fill_known old n v); auto. }
  assert (key <$> map (fill_node old) k = key <$> k) as Hfk.
  { clear -Hfill. induction k as [|n k IH]; [done|]. cbn. f_equal; [apply Hfill; constructor|].
    apply IH. intros m Hm. apply Hfill. by constructor. }
  apply NoDup_Permutation.
  - apply (NoDup_fmap_1 key). by rewrite Hfk.
  - by apply (NoDup_fmap_1 key).
  - intros x. split.
    + intros (n & -> & Hn)%list_elem_of_fmap. by apply Hfill.
    + intros Hx. assert (key x ∈ (key <$> k)) as (n & Hn & Hin)%list_elem_of_fmap by by apply Hkeys, list_elem_of_fmap_2.
      apply list_elem_of_fmap. exists n. split; [|done]. destruct (Hfill n Hin) as [H1 H2].
      apply (node_key_inj k'); [done|done|done|congruence].
Qed.

Lemma others_in_spec a b l l' n : n ∈ others_in a b l l' ↔ n ∈ l ∧ key n ≠ key a ∧ key n ≠ key b ∧ key n ∈ (key <$> l').
Proof.
  unfold others_in. rewrite list_elem_of_In, !List.filter_In, !negb_true_iff, !same_false, has_keys, <-list_elem_of_In.
  split; intros; destruct_and!; split_and!; done || congruence.
Qed.

Lemma others_in_keys a b l l' x :
  x ∈ (key <$> others_in a b l l') ↔ x ∈ (key <$> l) ∧ x ∈ (key <$> l') ∧ x ≠ key a ∧ x ≠ key b.
Proof.
  split.
  - intros (n & -> & Hn%others_in_spec)%list_elem_of_fmap. destruct Hn as (? & ? & ? & ?). split_and!; [by apply list_elem_of_fmap_2|done..].
  - intros ((n & -> & Hn)%list_elem_of_fmap & ? & ? & ?). by apply list_elem_of_fmap_2, others_in_spec.
Qed.

Lemma only_in_spec a l l' n : n ∈ only_in a l l' ↔ n ∈ l ∧ key n ≠ key a ∧ key n ∉ (key <$> l').
Proof.
  unfold only_in, without. rewrite list_elem_of_In, !List.filter_In, !negb_true_iff, has_one, has_false, same_false, <-list_elem_of_In.
  split; intros; destruct_and!; split_and!; done || congruence.
Qed.

Lemma put_elem x l v : v ∈ l → key v ≠ key x → v ∈ put x l.
Proof.
  intros Hv Hk. unfold put. apply list_elem_of_fmap. exists v. split; [|done]. by rewrite (proj2 (same_false x v)).
Qed.

Lemma put_elem_inv x l v : v ∈ put x l → key v = key x → v = x.
Proof.
  intros (m & -> & Hm)%list_elem_of_fmap. destruct (same x m) eqn:E; [done|]. apply same_false in E. congruence.
Qed.

Lemma fill_primary old n : is_primary n = true → fill_node old n = n.
Proof. intros Hn. unfold fill_node. by rewrite Hn. Qed.

Lemma put_id x l : NoDup (key <$> l) → x ∈ l → put x l = l.
Proof.
  intros Hl Hx. unfold put. rewrite <-(map_id l) at 2. apply map_ext_in. intros m Hm%list_elem_of_In.
  destruct (same x m) eqn:E; [|done]. apply same_key in E. by apply (node_key_inj l).
Qed.

(** * The table "pg_dist_node"

    [PgDistTable] is what Citus promises of its functions, as the comments of [PgDistGroup.transition] have it: the
    names of the rows are unique, a row may always be changed, rows are only added and removed while the metadata is
    synchronised, which a change of a secondary's row leaves as it is.  [holds] relates the table to a group. *)

(** A row: nodename, nodeport, and whether it is the primary of its group *)
Abbreviation dist_row := (string * Z * bool)%type.

Class PgDistTable (W : Type) `{!CitusDb W} := {
  row : W → Z → option dist_row;
  synced : W → bool;
  row_update w id r h p c :
    row w id = Some r → (∀ id' r', row w id' = Some r' → r'.1 = (h, p) → id' = id) →
    ∃ w', cd_update_node id h p c w = (Ok (), w') ∧ (∀ i, row w' i = if decide (i = id) then Some (h, p, r.2) else row w i) ∧
      (r.2 = false → synced w = true → synced w' = true);
  row_add w h p g r :
    synced w = true → (∀ id x, row w id = Some x → x.1 ≠ (h, p)) →
    ∃ id w', cd_add_node h p g r w = (Ok id, w') ∧ row w id = None ∧
      (∀ i, row w' i = if decide (i = id) then Some (h, p, (r =? "primary")%string) else row w i) ∧ synced w' = true;
  row_remove w id h p b :
    synced w = true → row w id = Some (h, p, b) → (∀ id' r', row w id' = Some r' → r'.1 = (h, p) → id' = id) →
    ∃ w', cd_remove_node h p w = (Ok (), w') ∧ (∀ i, row w' i = if decide (i = id) then None else row w i) ∧ synced w' = true;
}.

(** The name of a node in the table *)
Definition name (n : PgDistNode) : string := host n +:+ (if (role n =? "demoted")%string then "-demoted" else "").
Definition label (n : PgDistNode) : string * Z := (name n, port n).
Definition entry (n : PgDistNode) : dist_row := (name n, port n, is_primary n).

(** A node that is in the table: not one to be removed *)
Definition listed (n : PgDistNode) : Prop := role n = "primary" ∨ role n = "secondary" ∨ role n = "demoted".

Lemma str_app_cancel_r s1 s2 t : s1 +:+ t = s2 +:+ t → s1 = s2.
Proof.
  intros H. revert s2 H. induction s1 as [|c s1 IH]; intros [|d s2] H; [done| | |].
  - apply (f_equal String.length) in H. rewrite !Str.str_length_app in H. simpl in H. lia.
  - apply (f_equal String.length) in H. rewrite !Str.str_length_app in H. simpl in H. lia.
  - rewrite !Str.str_app_cons in H. injection H as -> H. f_equal. by apply IH.
Qed.

Section table.
Context {W : Type} `{!CitusDb W, !PgDistTable W, !SetOrder}.

(** The keys in use, of which no host is another one with "-demoted", and the rows of the other groups, which have other names *)
Context (used : list (string * Z)) (others : Z → option dist_row).
Definition plain_hosts : Prop := ∀ a b, a ∈ used → b ∈ used → a.1 ≠ b.1 +:+ "-demoted".
Definition reserved (x : string * Z) : Prop := ∃ k, k ∈ used ∧ (x = k ∨ x = (k.1 +:+ "-demoted", k.2)).
Definition foreign : Prop := ∀ id r, others id = Some r → ¬ reserved r.1.

Lemma label_reserved n : key n ∈ used → reserved (label n).
Proof.
  intros Hn. exists (key n). split; [done|]. unfold label, name, key. cbn.
  destruct (role n =? "demoted")%string; [by right|left]. by rewrite Str.str_app_nil_r.
Qed.

Lemma label_ne a b : plain_hosts → key a ∈ used → key b ∈ used → key a ≠ key b → label a ≠ label b.
Proof.
  intros Hpl Ha Hb Hk. unfold label, name. pose proof (Hpl _ _ Ha Hb) as H1. pose proof (Hpl _ _ Hb Ha) as H2. unfold key in *. cbn in *.
  destruct (role a =? "demoted")%string, (role b =? "demoted")%string; rewrite ?Str.str_app_nil_r; intros [= E Hp].
  - apply str_app_cancel_r in E. congruence.
  - by apply H2.
  - by apply H1.
  - congruence.
Qed.

(** ** The rows of a group *)
Record holds (w : W) (l : nodes) : Prop := {
  h_in n : n ∈ l → ∃ id, nodeid n = Some id ∧ others id = None ∧ row w id = Some (entry n);
  h_out id : Some id ∉ (nodeid <$> l) → row w id = others id;
  h_ids : NoDup (nodeid <$> l);
  h_labels : NoDup (label <$> l);
  h_reserved n : n ∈ l → reserved (label n);
}.

#[export] Instance holds_proper w : Proper ((≡ₚ) ==> impl) (holds w).
Proof.
  intros l l' Hp [H1 H2 H3 H4 H5]. split.
  - intros n. rewrite <-Hp. apply H1.
  - intros id. rewrite <-Hp. apply H2.
  - by rewrite <-Hp.
  - by rewrite <-Hp.
  - intros n. rewrite <-Hp. apply H5.
Qed.

Lemma holds_perm w l l' : l ≡ₚ l' → holds w l → holds w l'.
Proof. by intros ->. Qed.

(** Whose row has a name of this group *)
Lemma holds_named w l id r : foreign → holds w l → row w id = Some r → reserved r.1 → ∃ n, n ∈ l ∧ nodeid n = Some id ∧ label n = r.1.
Proof.
  intros Hf Hh Hr Hres. destruct (decide (Some id ∈ (nodeid <$> l))) as [Hin|Hout].
  - apply list_elem_of_fmap in Hin as (n & Hid & Hn). exists n. split_and!; [done|done|].
    destruct (h_in _ _ Hh n Hn) as (id' & Hid' & _ & Hrow). assert (id' = id) as -> by congruence.
    rewrite Hr in Hrow. by injection Hrow as ->.
  - rewrite (h_out _ _ Hh id Hout) in Hr. by destruct (Hf _ _ Hr).
Qed.

(** A row is changed from a node to another one of the same kind. *)
Lemma holds_change w w' x l n :
  holds w (x :: l) → nodeid n = nodeid x → is_primary n = is_primary x → reserved (label n) → label n ∉ (label <$> l) →
  (∀ id, nodeid x = Some id → ∀ i, row w' i = if decide (i = id) then Some (entry n) else row w i) → holds w' (n :: l).
Proof.
  intros Hh Hid Hkind Hres Hlab Hrow. destruct (h_in _ _ Hh x) as (id & Hx & Ho & Hrx); [constructor|]. specialize (Hrow _ Hx).
  pose proof (h_ids _ _ Hh) as Hids. rewrite fmap_cons, NoDup_cons in Hids. destruct Hids as [Hnx Hids].
  pose proof (h_labels _ _ Hh) as Hlabs. rewrite fmap_cons, NoDup_cons in Hlabs. destruct Hlabs as [_ Hlabs].
  split.
  - intros m [->|Hm]%elem_of_cons; [exists id; rewrite Hrow, decide_True by done; split_and!; [congruence|done..]|].
    destruct (h_in _ _ Hh m) as (im & Him & Hom & Hrm); [by constructor|]. exists im. split_and!; [done..|].
    rewrite Hrow, decide_False; [done|]. intros ->. destruct Hnx. rewrite Hx, <-Him. by apply list_elem_of_fmap_2.
  - intros i. rewrite fmap_cons, not_elem_of_cons, Hid. intros [Hi Hl]. rewrite Hrow, decide_False by congruence.
    apply (h_out _ _ Hh). rewrite fmap_cons, not_elem_of_cons. done.
  - rewrite fmap_cons, NoDup_cons, Hid. done.
  - rewrite fmap_cons, NoDup_cons. done.
  - intros m [->|Hm]%elem_of_cons; [done|]. apply (h_reserved _ _ Hh). by constructor.
Qed.

(** ** Single statements *)

(** [update_node] executes a statement, which leaves the handler as it is. *)
Definition executes (g cooldown : Z) (n : PgDistNode) (w : W) (n' : PgDistNode) (w' : W) : Prop :=
  ∀ h, update_node g n cooldown (h, w) = (Ok n', (h, w')).

Lemma listed_true n : listed n → bool_decide (role n ∈ ["primary"; "secondary"; "demoted"]) = true.
Proof. unfold listed. intros [-> | [-> | ->]]; done. Qed.

Lemma update_executes g c w x l n :
  foreign → holds w (x :: l) → listed n → nodeid n = nodeid x → is_primary n = is_primary x → reserved (label n) →
  label n ∉ (label <$> l) →
  ∃ w', executes g c n w n w' ∧ holds w' (n :: l) ∧ (is_primary x = false → synced w = true → synced w' = true).
Proof.
  intros Hf Hh Hl Hid Hkind Hres Hlab. destruct (h_in _ _ Hh x) as (id & Hx & Ho & Hrx); [constructor|].
  destruct (row_update w id (entry x) (name n) (port n) c Hrx) as (w' & Hupd & Hrow & Hsync).
  { intros id' r' Hr' Hlab'. destruct (holds_named _ _ _ _ Hf Hh Hr') as (m & Hm & Him & Hlm); [by rewrite Hlab'|].
    apply elem_of_cons in Hm as [->|Hm]; [congruence|]. destruct Hlab. rewrite Hlab' in Hlm. change (label n) with (name n, port n).
    rewrite <-Hlm. by apply list_elem_of_fmap_2. }
  exists w'. split_and!; [|apply (holds_change w w' x l n); try done|done].
  - intros h. unfold update_node. rewrite listed_true by done. cbn [negb]. rewrite Hid, Hx. unfold mbind, cM_bind, eff_bind, query. cbn [snd].
    fold (name n). by rewrite Hupd.
  - intros id' Hid' i. assert (id' = id) as -> by congruence. rewrite Hrow. unfold entry. by rewrite Hkind.
Qed.

Lemma add_executes g c w l n :
  foreign → holds w l → synced w = true → role n = "primary" ∨ role n = "secondary" → nodeid n = None → reserved (label n) →
  label n ∉ (label <$> l) →
  ∃ id w', executes g c n w (set_nodeid (Some id) n) w' ∧ holds w' (set_nodeid (Some id) n :: l) ∧ synced w' = true.
Proof.
  intros Hf Hh Hs Hr Hid Hres Hlab.
  assert (name n = host n) as Hname. { unfold name. destruct Hr as [-> | ->]; apply Str.str_app_nil_r. }
  destruct (row_add w (host n) (port n) g (role n) Hs) as (id & w' & Hadd & Hnone & Hrow & Hs').
  { intros id r Hrow Heq. destruct (holds_named _ _ _ _ Hf Hh Hrow) as (m & Hm & _ & Hlm).
    - rewrite Heq. unfold label in Hres. by rewrite Hname in Hres.
    - destruct Hlab. unfold label at 1. rewrite Hname, <-Heq, <-Hlm. by apply list_elem_of_fmap_2. }
  assert (Some id ∉ (nodeid <$> l)) as Hfresh.
  { intros (m & Him & Hm)%list_elem_of_fmap. destruct (h_in _ _ Hh m Hm) as (im & Him' & _ & Hrm). congruence. }
  assert (others id = None) as Ho by by rewrite <-(h_out _ _ Hh id Hfresh).
  exists id, w'. split_and!; [| |done].
  - intros h. unfold update_node. rewrite listed_true by (unfold listed; tauto). cbn [negb]. rewrite Hid.
    destruct Hr as [Hr|Hr]; rewrite Hr; cbn; unfold mbind, cM_bind, eff_bind, query; cbn [snd]; rewrite <-Hr, Hadd; done.
  - pose proof Hh as [H1 H2 H3 H4 H5]. split.
    + intros m [->|Hm]%elem_of_cons.
      * exists id. rewrite Hrow, decide_True by done. split_and!; [done..|]. unfold entry, is_primary, name. cbn. fold (name n).
        rewrite Hname. by destruct Hr as [-> | ->].
      * destruct (H1 m Hm) as (im & Him & Hom & Hrm). exists im. split_and!; [done..|]. rewrite Hrow, decide_False; [done|]. congruence.
    + intros i. rewrite fmap_cons, not_elem_of_cons. intros [Hi Hl]. rewrite Hrow, decide_False by (cbn in Hi; congruence). by apply H2.
    + rewrite fmap_cons, NoDup_cons. done.
    + rewrite fmap_cons, NoDup_cons. done.
    + intros m [->|Hm]%elem_of_cons; [done|by apply H5].
Qed.

Lemma remove_executes g c w l x :
  foreign → holds w (x :: l) → synced w = true → role x = "secondary" →
  let n := MkNode (host x) (port x) "" None in
  ∃ w', executes g c n w n w' ∧ holds w' l ∧ synced w' = true.
Proof.
  intros Hf Hh Hs Hr n. pose proof Hh as [H1 H2 H3 H4 H5]. destruct (H1 x) as (id & Hx & Ho & Hrx); [constructor|].
  assert (label x = (host x, port x)) as Hlx. { unfold label, name. rewrite Hr. cbn. by rewrite Str.str_app_nil_r. }
  rewrite fmap_cons, NoDup_cons in H3. rewrite fmap_cons, NoDup_cons in H4. destruct H3 as [H3 H3'], H4 as [H4 H4'].
  destruct (row_remove w id (host x) (port x) (is_primary x) Hs) as (w' & Hrem & Hrow & Hs').
  - rewrite Hrx. unfold entry. by injection Hlx as ->.
  - intros id' r' Hr' Heq. destruct (holds_named _ _ _ _ Hf Hh Hr') as (m & Hm & Him & Hlm).
    + rewrite Heq, <-Hlx. apply H5. constructor.
    + apply elem_of_cons in Hm as [->|Hm]; [congruence|]. destruct H4. rewrite Hlx, <-Heq, <-Hlm. by apply list_elem_of_fmap_2.
  - exists w'. split_and!; [| |done].
    + intros h. subst n. unfold update_node. cbn. rewrite bool_decide_eq_false_2 by set_solver. cbn [negb].
      unfold mbind, cM_bind, eff_bind, query. cbn [snd]. by rewrite Hrem.
    + split; [|intros i Hi|done|done|intros m Hm; apply H5; by constructor].
      * intros m Hm. destruct (H1 m) as (im & Him & Hom & Hrm); [by constructor|]. exists im. split_and!; [done..|].
        rewrite Hrow, decide_False; [done|]. intros ->. destruct H3. rewrite Hx, <-Him. by apply list_elem_of_fmap_2.
      * rewrite Hrow. case_decide as E; [by subst|]. apply H2. rewrite fmap_cons, not_elem_of_cons. split; [congruence|done].
Qed.
End table.
