(* ===== verification/CitusTransition.v ===== *)
(** * Correctness of the transition of a Citus group

    The phases of [PgDistGroup.transition] one by one: what the table holds after what was yielded so far. *)
From stdpp Require Import gmap.
From S2P Require Import Prelude PyDict PyVal Effects Citus CitusHandler CitusProps.

Open Scope string_scope.
Open Scope Z_scope.

Section transition.
Context {W : Type} `{!CitusDb W, !PgDistTable W, !SetOrder}.
Context (used : list (string * Z)) (others : Z → option dist_row) (g cooldown : Z).
Context (Hplain : plain_hosts used) (Hforeign : foreign used others).
Abbreviation holds := (holds used others).
Abbreviation executes := (executes (W := W) g cooldown).

(** The nodes of a task that were yielded, the last one first, are executed one after the other. *)
Definition reaches (w : W) (l : nodes) (w' : W) : Prop :=
  ∀ h t rest, groupid (t_group t) = g → t_cooldown t = cooldown → update_nodes (rev l ++ rest)%list t (h, w) = update_nodes rest t (h, w').

Lemma reaches_nil w : reaches w [] w.
Proof. by intros h t rest _ _. Qed.

Lemma reaches_cons w l w1 n w2 : reaches w l w1 → executes n w1 n w2 → reaches w (n :: l) w2.
Proof.
  intros Hl Hn h t rest Hg Hc. cbn [rev]. rewrite <-app_assoc, Hl by done. cbn [app update_nodes].
  unfold mbind, cM_bind, eff_bind. rewrite Hg, Hc, Hn. by rewrite bool_decide_eq_true_2.
Qed.

(** [t] has been reached: its statements have brought the table to [l], and nothing but secondaries' rows was changed unless it says so. *)
Record reached (w0 : W) (t : Tr) (w : W) (l : nodes) : Prop := {
  rd_reaches : reaches w0 (out t) w;
  rd_holds : holds w l;
  rd_synced : moved t = false → synced w = true;
}.

Lemma reached_perm w0 t w l l' : l ≡ₚ l' → reached w0 t w l → reached w0 t w l'.
Proof. intros Hp [H1 H2 H3]. split; [done|by rewrite <-Hp|done]. Qed.

(** A node is yielded that replaces [x], whose row it has. *)
Lemma reached_yield w0 t w x l n :
  reached w0 t w (x :: l) → (is_primary x = true → moved t = true) → listed n → nodeid n = nodeid x → is_primary n = is_primary x →
  key n ∈ used → label n ∉ (label <$> l) → ∃ w', reached w0 (yield_ n t) w' (n :: l).
Proof.
  intros [H1 H2 H3] Hm Hl Hid Hk Hu Hlab.
  destruct (update_executes used others g cooldown w x l n Hforeign H2 Hl Hid Hk (label_reserved _ _ Hu) Hlab) as (w' & He & Hh & Hs).
  exists w'. split; [by eapply reaches_cons|done|]. cbn. intros Hf. apply Hs; [|by apply H3].
  destruct (is_primary x); [|done]. rewrite Hm in Hf; done.
Qed.

(** What does not concern the table *)
Lemma reached_same w0 t t' w l : out t' = out t → (moved t' = false → moved t = false) → reached w0 t w l → reached w0 t' w l.
Proof. intros Ho Hm [H1 H2 H3]. split; [by rewrite Ho|done|auto]. Qed.

(** [emit] for the node of the new group at [n]'s key *)
Lemma reached_emit w0 t w x l n :
  reached w0 t w (x :: l) → (is_primary x = true → moved t = true) → listed n → nodeid n = nodeid x → is_primary n = is_primary x →
  key n ∈ used → label n ∉ (label <$> l) → ∃ w', reached w0 (emit n t) w' (n :: l).
Proof.
  intros Hr Hm Hl Hid Hk Hu Hlab. unfold emit. apply (reached_yield w0 (with_self (put n (Citus.self t)) t) w x); try done.
  by eapply reached_same; [..|exact Hr].
Qed.

(** The label of a node is new when its key is. *)
Lemma fresh_label n (l : nodes) : key n ∈ used → (∀ m, m ∈ l → key m ∈ used ∧ key m ≠ key n) → label n ∉ (label <$> l).
Proof.
  intros Hn Hl (m & Hlab & Hm)%list_elem_of_fmap. destruct (Hl m Hm) as [Hu Hk]. by apply (label_ne used n m Hplain).
Qed.

Lemma keys_perm (l l' : nodes) : l ≡ₚ l' → NoDup (key <$> l) → NoDup (key <$> l').
Proof. by intros ->. Qed.

Lemma keys_app (l l' : nodes) : NoDup (key <$> l ++ l')%list → NoDup (key <$> l) ∧ NoDup (key <$> l') ∧ ∀ a b, a ∈ l → b ∈ l' → key a ≠ key b.
Proof.
  rewrite fmap_app, NoDup_app. intros (H1 & H2 & H3). split_and!; [done|done|]. intros a b Ha Hb Hk.
  apply (H2 (key a)); [by apply list_elem_of_fmap_2|]. rewrite Hk. by apply list_elem_of_fmap_2.
Qed.

(** ** After the primary *)

(** The state after [fill]: [c] are the nodes of the new group that have rows, the others are those to be added. *)
Record settled (w0 : W) (t : Tr) (w : W) (c : nodes) : Prop := {
  st_reached : reached w0 t w (c ++ gone t)%list;
  st_self : Citus.self t ≡ₚ (c ++ added t)%list;
  st_keys : NoDup (key <$> c ++ added t ++ gone t)%list;
  st_used : ∀ n, n ∈ (c ++ added t ++ gone t)%list → key n ∈ used;
  st_added : Forall (λ n, secondary n ∧ nodeid n = None) (added t);
  st_gone : plain (gone t);
}.

Lemma settled_reuse w0 a ad b go t w c :
  added t = a :: ad → gone t = b :: go → settled w0 t w c →
  ∃ w', settled w0 (with_added ad (with_gone go (emit (set_nodeid (nodeid b) a) t))) w' (set_nodeid (nodeid b) a :: c).
Proof.
  intros Ha Hb [Hr Hself Hkeys Hused Hadded Hgone]. rewrite Ha, Hb in *. apply Forall_cons in Hadded as [[Has Hai] Hadded].
  apply Forall_cons in Hgone as [Hbs Hgone]. set (a' := set_nodeid (nodeid b) a).
  assert (is_primary a' = false) as Hpa by by apply secondary_not_primary.
  destruct (reached_emit w0 t w b (c ++ go)%list a') as (w' & Hr').
  - eapply reached_perm; [|exact Hr]. solve_Permutation.
  - by rewrite (secondary_not_primary b).
  - by right; left.
  - done.
  - by rewrite Hpa, (secondary_not_primary b).
  - apply (Hused a). set_solver.
  - apply fresh_label; [apply (Hused a); set_solver|]. intros m Hm. split; [apply Hused; set_solver|].
    assert (NoDup (key <$> (c ++ go) ++ a :: b :: ad)%list) as Hk by (eapply keys_perm; [|exact Hkeys]; solve_Permutation).
    apply keys_app in Hk as (_ & _ & Hk). apply (Hk m a); [done|constructor].
  - assert (NoDup (key <$> (a :: c ++ ad) ++ b :: go)%list) as Hk by (eapply keys_perm; [|exact Hkeys]; solve_Permutation).
    apply keys_app in Hk as (Hk & _ & _). exists w'. split; cbn.
    + by eapply reached_same; [..|exact Hr'].
    + rewrite (put_perm _ _ _ Hself), (put_perm _ _ (a :: c ++ ad)%list) by solve_Permutation. by rewrite put_head.
    + change (NoDup (key <$> a :: c ++ ad ++ go)%list). assert (NoDup (key <$> (a :: c ++ ad ++ go) ++ [b])%list) as Hk'
        by (eapply keys_perm; [|exact Hkeys]; solve_Permutation). by apply keys_app in Hk' as (Hk' & _ & _).
    + intros n [->|Hn]%elem_of_cons; [apply (Hused a); set_solver|apply Hused; set_solver].
    + done.
    + done.
Qed.

Lemma reuse_fields ad go x y t : reuse ad go (with_added x (with_gone y t)) = reuse ad go t.
Proof. revert go t. induction ad as [|a ad IH]; intros [|b go] t; [done..|]. cbn [reuse]. by rewrite <-(IH go (emit _ t)). Qed.

Lemma settled_reuse_all w0 ad go t w c :
  added t = ad → gone t = go → settled w0 t w c →
  ∃ w' c', settled w0 (reuse ad go t) w' c' ∧ moved (reuse ad go t) = moved t ∧ (∀ n, n ∈ c → n ∈ c').
Proof.
  revert go t w c. induction ad as [|a ad IH]; intros go t w c Ha Hg Hs.
  - exists w, c. cbn. rewrite <-Ha, <-Hg. by destruct t.
  - destruct go as [|b go]; [exists w, c; cbn; rewrite <-Ha, <-Hg; by destruct t|].
    destruct (settled_reuse w0 a ad b go t w c Ha Hg Hs) as (w1 & H1). cbn [reuse].
    set (t1 := emit (set_nodeid (nodeid b) a) t) in *.
    destruct (IH go (with_added ad (with_gone go t1)) w1 (set_nodeid (nodeid b) a :: c)) as (w2 & c2 & H2 & H3 & H4); [done..|].
    rewrite reuse_fields in *. exists w2, c2. split_and!; [done|by rewrite H3|]. intros n Hn. apply H4. by constructor.
Qed.

(** ** Rows that are left *)

(** While the primary was moved: the group keeps what is gone, and does without what is new. *)
Lemma drop_gone_moved l t : moved t = true → NoDup (key <$> Citus.self t ++ l)%list →
  Citus.self (foldl (λ t g, if moved t then with_self (add g (Citus.self t)) t else yield_ (MkNode (host g) (port g) "" None) t) t l) ≡ₚ
    (Citus.self t ++ l)%list ∧
  let t' := foldl (λ t g, if moved t then with_self (add g (Citus.self t)) t else yield_ (MkNode (host g) (port g) "" None) t) t l in
  out t' = out t ∧ moved t' = true ∧ added t' = added t.
Proof.
  revert t. induction l as [|x l IH]; intros t Hm Hk; [by rewrite app_nil_r|]. cbn [foldl]. rewrite Hm.
  assert (key x ∉ (key <$> Citus.self t)) as Hx.
  { intros (y & Hy & Hin)%list_elem_of_fmap. apply keys_app in Hk as (_ & _ & Hk). apply (Hk y x); [done|constructor|done]. }
  rewrite (add_absent _ _ Hx). destruct (IH (with_self (Citus.self t ++ [x])%list t)) as (H1 & H2 & H3 & H4); [done| |].
  - cbn. eapply keys_perm; [|exact Hk]. solve_Permutation.
  - split; [rewrite H1; cbn; solve_Permutation|done].
Qed.

Lemma add_new_moved l t : moved t = true → NoDup (key <$> l) → ∀ c, Citus.self t ≡ₚ (l ++ c)%list → NoDup (key <$> l ++ c)%list →
  Citus.self (foldl (λ t a, if moved t then with_self (discard a (Citus.self t)) t else yield_ a t) t l) ≡ₚ c ∧
  let t' := foldl (λ t a, if moved t then with_self (discard a (Citus.self t)) t else yield_ a t) t l in
  out t' = out t ∧ moved t' = true.
Proof.
  revert t. induction l as [|x l IH]; intros t Hm Hl c Hs Hk; [done|]. cbn [foldl]. rewrite Hm.
  rewrite fmap_cons, NoDup_cons in Hl. destruct Hl as [_ Hl].
  destruct (IH (with_self (discard x (Citus.self t)) t)) with (c := c) as (H1 & H2 & H3); [done|done| | |done].
  - cbn. rewrite (discard_perm _ _ _ Hs). cbn [app]. by rewrite discard_head.
  - cbn [app] in Hk. rewrite fmap_cons, NoDup_cons in Hk. by destruct Hk.
Qed.

(** While it was not: what is gone is removed, *)
Lemma drop_gone_synced w0 c l t w :
  moved t = false → plain l → reached w0 t w (c ++ l)%list →
  ∃ w', let t' := foldl (λ t g, if moved t then with_self (add g (Citus.self t)) t else yield_ (MkNode (host g) (port g) "" None) t) t l in
    reached w0 t' w' c ∧ Citus.self t' = Citus.self t ∧ moved t' = false ∧ added t' = added t.
Proof.
  revert t w. induction l as [|x l IH]; intros t w Hm Hp Hr; [exists w; by rewrite app_nil_r in Hr|].
  apply Forall_cons in Hp as [Hx Hp]. cbn [foldl]. rewrite Hm. destruct Hr as [H1 H2 H3].
  assert (holds w (x :: c ++ l)%list) as H2' by (eapply holds_perm; [|exact H2]; solve_Permutation).
  destruct (remove_executes used others g cooldown w _ x Hforeign H2' (H3 Hm) Hx) as (w1 & He & Hh & Hs).
  destruct (IH (yield_ (MkNode (host x) (port x) "" None) t) w1 Hm Hp) as (w' & Hw'); [|by exists w'].
  split; [by eapply reaches_cons|done|done].
Qed.

(** and what is new is added. *)
Lemma add_new_synced l t : moved t = false →
  let t' := foldl (λ t a, if moved t then with_self (discard a (Citus.self t)) t else yield_ a t) t l in
  out t' = (rev l ++ out t)%list ∧ Citus.self t' = Citus.self t ∧ moved t' = false.
Proof.
  revert t. induction l as [|x l IH]; intros t Hm; [done|]. cbn [foldl rev]. rewrite Hm.
  destruct (IH (yield_ x t) Hm) as (H1 & H2 & H3). cbn zeta. rewrite H1, H2, H3. cbn. by rewrite <-app_assoc.
Qed.

Lemma adds_execute h l T w c :
  groupid (t_group T) = g → t_cooldown T = cooldown → holds w c → synced w = true → members (t_group T) ≡ₚ (c ++ l)%list →
  NoDup (key <$> c ++ l)%list → (∀ n, n ∈ (c ++ l)%list → key n ∈ used) →
  Forall (λ n, (role n = "primary" ∨ role n = "secondary") ∧ nodeid n = None) l →
  ∃ T' w', update_nodes l T (h, w) = (Ok T', (h, w')) ∧ holds w' (members (t_group T')) ∧
    (∀ n, n ∈ c → n ∈ members (t_group T')) ∧ key <$> members (t_group T') = key <$> members (t_group T).
Proof.
  revert T w c. induction l as [|x l IH]; intros T w c Hg Hc Hh Hs Hm Hk Hu Hl.
  - rewrite app_nil_r in Hm. exists T, w. split_and!; [done|by rewrite Hm|intros n; by rewrite Hm|done].
  - apply Forall_cons in Hl as [[Hr Hi] Hl].
    assert (NoDup (key <$> x :: (c ++ l))%list) as Hk' by (eapply keys_perm; [|exact Hk]; solve_Permutation).
    destruct (add_executes used others g cooldown w c x Hforeign Hh Hs Hr Hi) as (id & w1 & He & Hh1 & Hs1).
    { apply label_reserved, Hu. set_solver. }
    { apply fresh_label; [apply Hu; set_solver|]. intros m Hmc. split; [apply Hu; set_solver|].
      intros E. rewrite fmap_cons, NoDup_cons in Hk'. destruct Hk' as [Hx _]. apply Hx. rewrite <-E. apply list_elem_of_fmap_2. set_solver. }
    set (x' := set_nodeid (Some id) x) in *. cbn [update_nodes]. unfold mbind, cM_bind, eff_bind. rewrite Hg, Hc, He.
    rewrite bool_decide_eq_false_2 by (intros E; apply (f_equal nodeid) in E; cbn in E; congruence).
    destruct (IH (with_members (put x' (members (t_group T))) T) w1 (x' :: c)) as (T' & w' & H1 & H2 & H3 & H4); try done.
    + cbn. rewrite (put_perm _ _ _ Hm), (put_perm _ _ (x :: c ++ l)%list) by solve_Permutation. by rewrite put_head.
    + intros n [->|Hn]%elem_of_cons; [change (key x') with (key x)|]; apply Hu; set_solver.
    + exists T', w'. split_and!; [done|done| |rewrite H4; apply put_keys]. intros n Hn. apply H3. by constructor.
Qed.

(** ** From a settled state to the end *)
Definition finish (t : Tr) : Tr := let t := reuse (added t) (gone t) t in add_new (drop_gone t).

Lemma finish_holds h T w0 t w c :
  settled w0 t w c → groupid (t_group T) = g → t_cooldown T = cooldown → members (t_group T) = Citus.self (finish t) →
  ∃ T' w', update_nodes (rev (out (finish t))) T (h, w0) = (Ok T', (h, w')) ∧ holds w' (members (t_group T')) ∧
    (∀ n, n ∈ c → n ∈ members (t_group T')) ∧ key <$> members (t_group T') = key <$> members (t_group T).
Proof.
  intros Hs Hg Hc Hm. destruct (settled_reuse_all w0 (added t) (gone t) t w c eq_refl eq_refl Hs) as (w1 & c1 & Hs1 & Hmv & Hin).
  unfold finish in *. cbn zeta in *. set (t1 := reuse (added t) (gone t) t) in *. destruct Hs1 as [Hr1 Hself Hkeys Hused Hadded Hgone].
  destruct (moved t1) eqn:Hm1.
  - destruct (drop_gone_moved (gone t1) t1 Hm1) as (H1 & H2 & H3 & H4).
    { eapply keys_perm; [|exact Hkeys]. rewrite Hself. solve_Permutation. }
    fold (drop_gone t1) in *. set (t2 := drop_gone t1) in *. unfold add_new in *. rewrite H4 in *.
    destruct (add_new_moved (added t1) t2 H3) with (c := (c1 ++ gone t1)%list) as (H5 & H6 & H7).
    + apply keys_app in Hkeys as (_ & Hk & _). by apply keys_app in Hk as (Hk & _ & _).
    + rewrite H1, Hself. solve_Permutation.
    + eapply keys_perm; [|exact Hkeys]. solve_Permutation.
    + exists T, w1. rewrite H6, H2. rewrite <-(app_nil_r (rev _)), (rd_reaches _ _ _ _ Hr1) by done. split_and!; [done| | |done].
      * rewrite Hm. eapply holds_perm; [|apply (rd_holds _ _ _ _ Hr1)]. by rewrite H5.
      * intros n Hn. rewrite Hm, H5. apply elem_of_app. left. by apply Hin.
  - destruct (drop_gone_synced w0 c1 (gone t1) t1 w1 Hm1 Hgone Hr1) as (w2 & Hr2 & Hself2 & Hm2 & Had2).
    fold (drop_gone t1) in *. set (t2 := drop_gone t1) in *. unfold add_new in *. rewrite Had2 in *.
    destruct (add_new_synced (added t1) t2 Hm2) as (H1 & H2 & H3). cbn zeta in *.
    destruct (adds_execute h (added t1) T w2 c1) as (T' & w' & H4 & H5 & H6 & H7); try done.
    + apply (rd_holds _ _ _ _ Hr2).
    + by apply (rd_synced _ _ _ _ Hr2).
    + by rewrite Hm, H2, Hself2.
    + assert (NoDup (key <$> (c1 ++ added t1) ++ gone t1)%list) as Hk by (eapply keys_perm; [|exact Hkeys]; solve_Permutation).
      by apply keys_app in Hk as (Hk & _ & _).
    + intros n Hn. apply Hused. set_solver.
    + eapply Forall_impl; [exact Hadded|]. intros n [? ?]. split; [by right|done].
    + exists T', w'. rewrite H1, rev_app_distr, rev_involutive, (rd_reaches _ _ _ _ Hr2) by done.
      split_and!; [done|done| |done]. intros n Hn. by apply H6, Hin.
Qed.

(** ** From the start to a settled state *)
Section start.
Context (new_ old_ : nodes) (np op : PgDistNode) (w0 : W) (was_moved : bool).
Context (Hnew : NoDup (key <$> new_)) (Hnp : np ∈ new_) (Hnew_sec : ∀ n, n ∈ new_ → n ≠ np → secondary n) (Hnone : ∀ n, n ∈ new_ → nodeid n = None).
Context (Hold : NoDup (key <$> old_)) (Hop : op ∈ old_) (Hold_sec : ∀ n, n ∈ old_ → n ≠ op → secondary n).
Context (Hnpp : is_primary np = true) (Hopp : is_primary op = true).
Context (Hused : ∀ n, n ∈ new_ ∨ n ∈ old_ → key n ∈ used) (Hh0 : holds w0 old_) (Hs0 : was_moved = false → synced w0 = true).

Definition t0 : Tr := MkTr new_ old_ was_moved (set_order (only_in np new_ old_)) (set_order (only_in op old_ new_)) [].
Definition k' : nodes := others_in np op new_ old_.
Definition k : nodes := others_in op np old_ new_.

Lemma reached_start : reached w0 t0 w0 old_.
Proof. split; [apply reaches_nil|done|done]. Qed.

Lemma in_added n : n ∈ added t0 ↔ n ∈ new_ ∧ key n ≠ key np ∧ key n ∉ (key <$> old_).
Proof. cbn. rewrite set_order_perm. apply only_in_spec. Qed.

Lemma in_gone n : n ∈ gone t0 ↔ n ∈ old_ ∧ key n ≠ key op ∧ key n ∉ (key <$> new_).
Proof. cbn. rewrite set_order_perm. apply only_in_spec. Qed.

Lemma in_k n : n ∈ k ↔ n ∈ old_ ∧ key n ≠ key op ∧ key n ≠ key np ∧ key n ∈ (key <$> new_).
Proof. apply others_in_spec. Qed.

Lemma k_secondary : plain k.
Proof. apply Forall_forall. intros n (Hn & Hk & _)%in_k. apply Hold_sec; [done|]. by intros ->. Qed.

Lemma added_secondary n : n ∈ added t0 → secondary n ∧ nodeid n = None.
Proof. intros (Hn & Hk & _)%in_added. split; [|by apply Hnone]. apply Hnew_sec; [done|]. by intros ->. Qed.

Lemma gone_secondary n : n ∈ gone t0 → secondary n.
Proof. intros (Hn & Hk & _)%in_gone. apply Hold_sec; [done|]. by intros ->. Qed.

Lemma filter_keys (p : PgDistNode → bool) l : NoDup (key <$> l) → NoDup (key <$> List.filter p l).
Proof. apply filter_fmap_sub. Qed.

(** The three kinds of other nodes have different keys. *)
Lemma rest_keys : NoDup (key <$> added t0 ++ gone t0 ++ k)%list.
Proof.
  rewrite !fmap_app, !NoDup_app. split_and!.
  - cbn. rewrite set_order_perm. by repeat apply filter_keys.
  - intros x (n & -> & Hn)%list_elem_of_fmap. apply in_added in Hn as (Hn & _ & Hk). rewrite <-fmap_app.
    intros (m & Hm & [Hg|Hg]%elem_of_app)%list_elem_of_fmap; apply Hk; rewrite Hm; apply list_elem_of_fmap_2;
      [by apply in_gone in Hg as [? _]|by apply in_k in Hg as [? _]].
  - cbn. rewrite set_order_perm. by repeat apply filter_keys.
  - intros x (n & -> & Hn)%list_elem_of_fmap. apply in_gone in Hn as (Hn & _ & Hk).
    intros (m & Hm & Hg)%list_elem_of_fmap. apply Hk. rewrite Hm. by apply in_k in Hg as (_ & _ & _ & ?).
  - by repeat apply filter_keys.
Qed.

Lemma rest_known n : n ∈ (added t0 ++ gone t0 ++ k)%list → key n ≠ key np ∧ key n ∈ used ∧ key n ≠ key op.
Proof.
  assert (key np ∈ (key <$> new_)) as H1 by by apply list_elem_of_fmap_2.
  assert (key op ∈ (key <$> old_)) as H2 by by apply list_elem_of_fmap_2.
  intros [Hn|[Hn|Hn]%elem_of_app]%elem_of_app.
  - apply in_added in Hn as (Hn & Hk & Ho). split_and!; [done|by apply Hused; left|]. intros E. by rewrite E in Ho.
  - apply in_gone in Hn as (Hn & Hk & Ho). split_and!; [|by apply Hused; right|done]. intros E. by rewrite E in Ho.
  - apply in_k in Hn as (Hn & Hk & Hk' & _). split_and!; [done|by apply Hused; right|done].
Qed.

(** The nodes in both groups take their rows, whatever role the old primary has got. *)
Lemma fill_k' old : key <$> old = key <$> old_ → (∀ v, v ∈ old_ → key v ≠ key op → v ∈ old) → map (fill_node old) k' ≡ₚ k.
Proof.
  intros Hkeys Hin. apply fill_common.
  - by rewrite Hkeys.
  - by repeat apply filter_keys.
  - by repeat apply filter_keys.
  - apply Forall_forall. intros n (Hn & Hk & _)%others_in_spec. apply Hnew_sec; [done|]. by intros ->.
  - apply k_secondary.
  - apply Forall_forall. intros n (Hn & _)%others_in_spec. by apply Hnone.
  - intros v (Hv & Hk & _)%in_k. by apply Hin.
  - intros x. unfold k', k. rewrite !others_in_keys. naive_solver.
Qed.

Lemma fill_added old n : key <$> old = key <$> old_ → n ∈ added t0 → fill_node old n = n.
Proof.
  intros Hkeys (_ & _ & Hn)%in_added. apply fill_unknown. intros v Hv _ E. apply Hn. rewrite <-E, <-Hkeys. by apply list_elem_of_fmap_2.
Qed.

(** What [fill] makes of a state in which the nodes [f] have their rows *)
Lemma settle t w f :
  key <$> old t = key <$> old_ → (∀ v, v ∈ old_ → key v ≠ key op → v ∈ old t) →
  (∀ n, n ∈ f → fill_node (old t) n = n ∧ key n ∈ used) →
  (∀ n, n ∈ added t → n ∈ added t0) → (∀ n, n ∈ gone t → n ∈ gone t0) →
  Citus.self t ≡ₚ (f ++ added t ++ k')%list → reached w0 t w (f ++ gone t ++ k)%list → NoDup (key <$> f ++ added t ++ gone t ++ k)%list →
  settled w0 (fill t) w (f ++ k)%list.
Proof.
  intros Hkeys Hin Hf Ha Hg Hself Hr Hnd. split.
  - eapply reached_same; [..|eapply reached_perm; [|exact Hr]]; [done|done|cbn; solve_Permutation].
  - cbn. rewrite Hself, !map_app, (fill_k' (old t)) by done.
    assert (∀ l, (∀ n, n ∈ l → fill_node (old t) n = n) → map (fill_node (old t)) l = l) as Hid.
    { intros l Hl. rewrite <-(map_id l) at 2. apply map_ext_in. intros n Hn. apply Hl. by apply list_elem_of_In. }
    rewrite (Hid f), (Hid (added t)); [solve_Permutation|intros n Hn; apply fill_added; auto|intros n Hn; by apply Hf].
  - eapply keys_perm; [|exact Hnd]. cbn. solve_Permutation.
  - cbn. intros n Hn. assert (n ∈ f ∨ n ∈ (added t0 ++ gone t0 ++ k)%list) as [Hn'|Hn'] by set_solver.
    + by apply Hf.
    + by apply rest_known.
  - apply Forall_forall. intros n Hn. apply added_secondary. by apply Ha.
  - apply Forall_forall. intros n Hn. apply gone_secondary. by apply Hg.
Qed.

(** What is to be shown of each case: the new primary has the row of the old one. *)
Definition np' : PgDistNode := set_nodeid (nodeid op) np.
Definition moves (t : Tr) : Prop := ∃ w c, settled w0 (fill t) w c ∧ np' ∈ c.

Lemma keys_with f :
  NoDup (key <$> f) → (∀ n, n ∈ f → key n = key np ∨ key n = key op) → NoDup (key <$> f ++ added t0 ++ gone t0 ++ k)%list.
Proof.
  intros Hf Hk. rewrite fmap_app, NoDup_app. split_and!; [done| |apply rest_keys].
  intros x (n & -> & Hn)%list_elem_of_fmap (m & Hm & Hin)%list_elem_of_fmap. apply rest_known in Hin as (H1 & _ & H2).
  destruct (Hk n Hn); congruence.
Qed.

Lemma rest_labels n : key n ∈ used → (key n = key np ∨ key n = key op) → label n ∉ (label <$> gone t0 ++ k)%list.
Proof.
  intros Hu Hn. apply fresh_label; [done|]. intros m Hm. destruct (rest_known m) as (H1 & H2 & H3); [set_solver|].
  split; [done|]. destruct Hn; congruence.
Qed.

Lemma np_used : key np ∈ used.
Proof. apply Hused. by left. Qed.

Lemma np_listed : listed np'.
Proof.
  unfold listed, np'. cbn. revert Hnpp. unfold is_primary. rewrite orb_true_iff, !String.eqb_eq. tauto.
Qed.

Lemma same_primary : key op = key np → moves (primary_step np (Some op) t0).
Proof.
  intros Hk. unfold primary_step. rewrite (proj2 (same_key op np) Hk). fold np'.
  pose proof (split_same np op new_ old_ Hnew Hnp ltac:(done)) as Hn.
  pose proof (split_same op np old_ new_ Hold Hop Hk) as Ho.
  rewrite <-(set_order_perm (only_in np new_ old_)) in Hn. rewrite <-(set_order_perm (only_in op old_ new_)) in Ho.
  change (new_ ≡ₚ (np :: added t0 ++ k')%list) in Hn. change (old_ ≡ₚ (op :: gone t0 ++ k)%list) in Ho.
  assert (put np' new_ ≡ₚ (np' :: added t0 ++ k')%list) as Hself.
  { rewrite (put_perm _ _ _ Hn). rewrite put_head; [done|done|]. by eapply keys_perm. }
  set (t := with_self (put np' (Citus.self t0)) t0).
  assert (∀ w t1, old t1 = old_ → added t1 = added t0 → gone t1 = gone t0 → Citus.self t1 = put np' new_ →
    reached w0 t1 w (np' :: gone t0 ++ k)%list → moves t1) as Hmoves.
  { intros w t1 H1 H2 H3 H4 Hr. exists w, ([np'] ++ k)%list. split; [|by left]. apply settle; rewrite ?H1, ?H2, ?H3, ?H4; try done.
    - intros n ->%list_elem_of_singleton. split; [by apply fill_primary|apply np_used].
    - apply (keys_with [np']); [by repeat constructor; set_solver|]. intros n ->%list_elem_of_singleton. by left. }
  assert (reached w0 (set_moved t) w0 (op :: gone t0 ++ k)%list) as Hr.
  { eapply reached_same; [..|eapply reached_perm; [exact Ho|exact reached_start]]; done. }
  destruct (String.eqb_spec (role op) (role np')) as [E|E].
  - apply (Hmoves w0 t eq_refl eq_refl eq_refl eq_refl). assert (np' = op) as -> by by apply node_eq.
    eapply reached_same; [..|eapply reached_perm; [exact Ho|exact reached_start]]; done.
  - destruct (reached_yield w0 (set_moved t) w0 op (gone t0 ++ k)%list np') as (w & Hw); try done.
    + apply np_listed.
    + cbn. rewrite Hopp. apply Hnpp.
    + apply np_used.
    + apply rest_labels; [apply np_used|by left].
    + by apply (Hmoves w).
Qed.

Section failover.
Context (Hne : key np ≠ key op).

Lemma split_new : new_ ≡ₚ (np :: option_list (get op new_) ++ added t0 ++ k')%list.
Proof. cbn. rewrite set_order_perm. by apply split_group. Qed.

Lemma split_old : old_ ≡ₚ (op :: option_list (get np old_) ++ gone t0 ++ k)%list.
Proof. cbn. rewrite set_order_perm. by apply split_group. Qed.

Lemma op_used : key op ∈ used.
Proof. apply Hused. by right. Qed.

(** A node for the old primary in its new role *)
Definition for_op (n : PgDistNode) : Prop := key n = key op ∧ secondary n.

Lemma for_op_found n : get op new_ = Some n → for_op n.
Proof. intros [Hn Hk]%get_Some; [|done]. split; [done|]. apply Hnew_sec; [done|]. intros ->. by apply Hne. Qed.

Lemma fill_for_op old n i : for_op n → (∀ v, v ∈ old → key v = key op → is_primary v = true) → fill_node old (set_nodeid i n) = set_nodeid i n.
Proof.
  intros [Hk _] Ho. apply fill_unknown. intros v Hv Hp E. rewrite (Ho v Hv) in Hp; [done|]. rewrite E. exact Hk.
Qed.

Lemma op_in_old v : v ∈ old_ → key v = key op → is_primary v = true.
Proof. intros Hv Hk. by rewrite (node_key_inj old_ v op). Qed.

Lemma two_keys a b : key a ≠ key b → NoDup (key <$> [a; b]).
Proof. intros Hab. cbn. repeat constructor; set_solver. Qed.

(** *** The new primary was not registered. *)

Lemma unknown_taken t w n b rest :
  old t = old_ → added t = added t0 → gone t0 = b :: rest → moved t = true → for_op n →
  NoDup (key <$> Citus.self t) → Citus.self t ≡ₚ (np' :: n :: added t0 ++ k')%list → reached w0 t w (np' :: gone t0 ++ k)%list →
  moves (emit (set_nodeid (nodeid b) n) (with_gone rest t)).
Proof.
  intros Ht Ha Hg Hm Hn Hnds Hself Hr. set (n' := set_nodeid (nodeid b) n). pose proof Hn as [Hkn Hsn].
  assert (NoDup (key <$> [np'; n'])%list) as Hnd by (apply two_keys; change (key n') with (key n); by rewrite Hkn).
  assert (∀ x, x ∈ [np'; n'] → key x = key np ∨ key x = key op) as Hkeys by (intros x [->|[->|[]%elem_of_nil]%elem_of_cons]%elem_of_cons; [by left|by right]).
  pose proof (keys_with [np'; n'] Hnd Hkeys) as Hall. rewrite Hg in Hall.
  assert (secondary b) as Hb by (apply gone_secondary; rewrite Hg; constructor).
  destruct (reached_emit w0 (with_gone rest t) w b (np' :: rest ++ k)%list n') as (w' & Hr').
  - eapply reached_same; [..|eapply reached_perm; [|exact Hr]]; [done|done|]. rewrite Hg. solve_Permutation.
  - by rewrite (secondary_not_primary b).
  - by right; left.
  - done.
  - by rewrite !secondary_not_primary.
  - change (key n') with (key n). rewrite Hkn. apply op_used.
  - apply fresh_label; [change (key n') with (key n); rewrite Hkn; apply op_used|]. change (key n') with (key n). rewrite Hkn.
    intros m [->|Hm']%elem_of_cons; [split; [apply np_used|done]|].
    destruct (rest_known m) as (_ & ? & ?); [rewrite Hg; set_solver|]. done.
  - exists w', ([np'; n'] ++ k)%list. split; [|by left]. apply settle; cbn [Citus.self old emit yield_ with_self with_gone added gone]; rewrite ?Ht; try done.
    + intros x [->|[->|[]%elem_of_nil]%elem_of_cons]%elem_of_cons.
      * split; [by apply fill_primary|apply np_used].
      * split; [apply fill_for_op; [done|apply op_in_old]|]. change (key n') with (key n). rewrite Hkn. apply op_used.
    + intros x. by rewrite Ha.
    + intros x Hx. change (x ∈ gone t0). rewrite Hg. by constructor.
    + rewrite Ha, (put_perm _ _ _ Hself), (put_perm _ _ (n :: np' :: added t0 ++ k')%list) by solve_Permutation.
      rewrite put_head; [solve_Permutation|done|]. eapply keys_perm; [|exact Hnds]. rewrite Hself. solve_Permutation.
    + eapply reached_perm; [|exact Hr']. cbn. solve_Permutation.
    + rewrite Ha. assert (NoDup (key <$> ([np'; n'] ++ added t0 ++ rest ++ k) ++ [b])%list) as Hall' by (eapply keys_perm; [|exact Hall]; solve_Permutation).
      by apply keys_app in Hall' as (Hall' & _ & _).
Qed.

Lemma emit_np t w l :
  moved t = true → reached w0 t w (op :: l) → (∀ m, m ∈ l → key m ∈ used ∧ label m ≠ label np') →
  ∃ w', reached w0 (emit np' t) w' (np' :: l).
Proof.
  intros Hm Hr Hl. apply (reached_emit w0 t w op l np'); try done.
  - apply np_listed.
  - cbn. by rewrite Hopp.
  - apply np_used.
  - intros (m & Hlab & Hin)%list_elem_of_fmap. by destruct (Hl m Hin) as [_ ?].
Qed.

Lemma rest_label_np m : m ∈ (gone t0 ++ k)%list → key m ∈ used ∧ label m ≠ label np'.
Proof.
  intros Hm. destruct (rest_known m) as (H1 & H2 & H3); [set_solver|]. split; [done|]. apply (label_ne used); [done|done|apply np_used|done].
Qed.

Lemma unknown : get np old_ = None → (get op new_ = None ∨ gone t0 ≠ []) → moves (failover_step np op t0).
Proof.
  intros Hnone' Hcond. unfold failover_step. change (old (set_moved t0)) with old_. change (Citus.self (set_moved t0)) with new_.
  rewrite Hnone'. fold np'. pose proof split_new as Hn. pose proof split_old as Ho. rewrite Hnone' in Ho. cbn [option_list app] in Ho.
  destruct (emit_np (set_moved t0) w0 (gone t0 ++ k)%list) as (w1 & Hr1); [done| |apply rest_label_np|].
  { eapply reached_same; [..|eapply reached_perm; [exact Ho|exact reached_start]]; done. }
  set (t := emit np' (set_moved t0)) in *.
  assert (Citus.self t ≡ₚ (np' :: option_list (get op new_) ++ added t0 ++ k')%list) as Hself.
  { unfold t. cbn [Citus.self emit yield_ with_self set_moved]. rewrite (put_perm _ _ _ Hn). rewrite put_head; [done|done|]. by eapply keys_perm. }
  assert (NoDup (key <$> Citus.self t)) as Hnds by (change (Citus.self t) with (put np' new_); by rewrite put_keys).
  assert (get op new_ = None → moves t) as Hstay.
  { intros E. rewrite E in Hself. exists w1, ([np'] ++ k)%list. split; [|by left]. apply settle; try done.
    - intros n ->%list_elem_of_singleton. split; [by apply fill_primary|apply np_used].
    - apply (keys_with [np']); [by repeat constructor; set_solver|]. intros n ->%list_elem_of_singleton. by left. }
  unfold promoted_unknown. change (gone t) with (gone t0). change (added t) with (added t0).
  destruct (gone t0) as [|b rest] eqn:Eg; [apply Hstay; by destruct Hcond|].
  destruct (get op new_) as [n|] eqn:Eop.
  - apply (unknown_taken t w1 n b rest); try done; [by apply for_op_found|by rewrite Eg].
  - destruct ((role op =? "demoted")%string && _); [|by apply Hstay]. set (n := MkNode (host op) (port op) "secondary" None).
    assert (key n ∉ (key <$> Citus.self t)) as Habs by (change (Citus.self t) with (put np' new_); rewrite put_keys; by apply get_node_None in Eop).
    apply (unknown_taken (with_self (add n (Citus.self t)) t) w1 n b rest); try done.
    + cbn [Citus.self with_self]. rewrite (add_absent _ _ Habs), fmap_app, NoDup_app. split_and!; [done| |by repeat constructor; set_solver].
      intros x Hx ->%list_elem_of_singleton. done.
    + cbn [Citus.self with_self]. rewrite (add_absent _ _ Habs), Hself. cbn. solve_Permutation.
    + rewrite Eg. by eapply reached_same; [..|exact Hr1].
Qed.

(** *** The new primary was a secondary, [n0]. *)
Section registered.
Context (n0 : PgDistNode) (Hn0 : get np old_ = Some n0).

Lemma n0_secondary : n0 ∈ old_ ∧ key n0 = key np ∧ secondary n0.
Proof.
  apply get_Some in Hn0 as [Hin Hk]; [|done]. split_and!; [done|done|]. apply Hold_sec; [done|]. intros ->. by apply Hne.
Qed.

Lemma old_rows : old_ ≡ₚ (op :: n0 :: gone t0 ++ k)%list.
Proof. rewrite split_old at 1. by rewrite Hn0. Qed.

(** Its row goes to a new secondary. *)
Lemma registered_reuse a rest :
  get op new_ = None → added t0 = a :: rest →
  moves (emit np' (with_old (put (set_role "secondary" op) old_) (emit (set_nodeid (nodeid n0) a) (with_added rest (set_moved t0))))).
Proof.
  intros Hop_gone Ha. destruct n0_secondary as (Hin0 & Hk0 & Hs0'). set (a' := set_nodeid (nodeid n0) a).
  assert (a ∈ added t0) as Hin by (rewrite Ha; constructor). destruct (added_secondary a Hin) as [Has _].
  destruct (rest_known a) as (Ha1 & Ha2 & Ha3); [set_solver|].
  assert (NoDup (key <$> a :: rest ++ gone t0 ++ k)%list) as Hrest by (pose proof rest_keys as H0; by rewrite Ha in H0).
  assert (∀ m, m ∈ (gone t0 ++ k)%list → key m ≠ key a) as Hka.
  { intros m Hm. assert (NoDup (key <$> (gone t0 ++ k) ++ a :: rest)%list) as Hk by (eapply keys_perm; [|exact Hrest]; solve_Permutation).
    apply keys_app in Hk as (_ & _ & Hk). apply Hk; [done|constructor]. }
  destruct (reached_emit w0 (with_added rest (set_moved t0)) w0 n0 (op :: gone t0 ++ k)%list a') as (w1 & Hr1); try done.
  - eapply reached_same; [..|eapply reached_perm; [|exact reached_start]]; [done|done|]. rewrite old_rows. solve_Permutation.
  - by right; left.
  - by rewrite !secondary_not_primary.
  - apply fresh_label; [done|]. intros m [->|Hm]%elem_of_cons; [split; [apply op_used|done]|].
    split; [apply rest_known; set_solver|by apply Hka].
  - set (t := with_old (put (set_role "secondary" op) old_) (emit a' (with_added rest (set_moved t0)))).
    destruct (emit_np t w1 (a' :: gone t0 ++ k)%list) as (w2 & Hr2); [done| | |].
    + eapply reached_same; [..|eapply reached_perm; [|exact Hr1]]; [done|done|solve_Permutation].
    + intros m [->|Hm]%elem_of_cons; [|by apply rest_label_np]. split; [done|]. apply (label_ne used); [done|done|apply np_used|done].
    + exists w2, ([np'; a'] ++ k)%list. split; [|by left].
      assert (put np' (put a' new_) ≡ₚ (np' :: a' :: rest ++ k')%list) as Hself.
      { pose proof split_new as Hn. rewrite Hop_gone, Ha in Hn. cbn [option_list app] in Hn.
        assert (put a' new_ ≡ₚ (np :: a' :: rest ++ k')%list) as H1.
        { rewrite (put_perm _ _ _ Hn), (put_perm _ _ (a :: np :: rest ++ k')%list) by solve_Permutation.
          rewrite put_head; [solve_Permutation|done|]. eapply keys_perm; [|exact Hnew]. rewrite Hn. solve_Permutation. }
        rewrite (put_perm _ _ _ H1). rewrite put_head; [done|done|]. eapply keys_perm; [exact H1|]. by rewrite put_keys. }
      apply settle.
      * apply put_keys.
      * intros v Hv Hk. by apply put_elem.
      * intros x [->|[->|[]%elem_of_nil]%elem_of_cons]%elem_of_cons; [split; [by apply fill_primary|apply np_used]|].
        split; [|done]. apply in_added in Hin as (_ & _ & Hout). apply fill_unknown. intros v Hv _ E. apply Hout.
        change (key a) with (key a'). rewrite <-E, <-(put_keys (set_role "secondary" op) old_). by apply list_elem_of_fmap_2.
      * intros x Hx. rewrite Ha. by constructor.
      * done.
      * exact Hself.
      * eapply reached_perm; [|exact Hr2]. cbn. solve_Permutation.
      * pose proof (keys_with [np']) as Hk. rewrite Ha in Hk. apply Hk.
        -- by repeat constructor; set_solver.
        -- intros n ->%list_elem_of_singleton. by left.
Qed.

(** Its row goes to the old primary, which has left its own one. *)
Lemma registered_swap t w opx n :
  role opx = "demoted" → key opx = key op → nodeid opx = nodeid op → old t = put opx old_ → added t = added t0 → gone t = gone t0 →
  moved t = true → for_op n → NoDup (key <$> Citus.self t) → Citus.self t ≡ₚ (np :: n :: added t0 ++ k')%list →
  reached w0 t w (opx :: n0 :: gone t0 ++ k)%list → moves (emit np' (emit (set_nodeid (nodeid n0) n) t)).
Proof.
  intros Hrx Hkx Hix Hold' Ha Hg Hm Hn Hnds Hself Hr. destruct n0_secondary as (Hin0 & Hk0 & Hs0'). pose proof Hn as [Hkn Hsn].
  set (n' := set_nodeid (nodeid n0) n). assert (is_primary opx = true) as Hpx by (unfold is_primary; by rewrite Hrx).
  assert (key n' = key op) as Hkn' by done.
  assert (label n' = key op) as Hln. { unfold label, name. cbn. rewrite Hsn. cbn. rewrite Str.str_app_nil_r. exact Hkn. }
  assert (label opx ≠ key op) as Hlx.
  { unfold label, name. rewrite Hrx. cbn. rewrite <-Hkx. unfold key. intros [= E]. apply (f_equal String.length) in E.
    rewrite Str.str_length_app in E. simpl in E. lia. }
  destruct (reached_emit w0 t w n0 (opx :: gone t0 ++ k)%list n') as (w1 & Hr1); try done.
  - eapply reached_perm; [|exact Hr]. solve_Permutation.
  - by right; left.
  - by rewrite !secondary_not_primary.
  - rewrite Hkn'. apply op_used.
  - intros (m & Hlab & [->|Hm']%elem_of_cons)%list_elem_of_fmap; [congruence|].
    apply (rest_labels n'); [rewrite Hkn'; apply op_used|by right|]. rewrite Hlab. by apply list_elem_of_fmap_2.
  - destruct (reached_emit w0 (emit n' t) w1 opx (n' :: gone t0 ++ k)%list np') as (w2 & Hr2); try done.
    + eapply reached_perm; [|exact Hr1]. solve_Permutation.
    + apply np_listed.
    + rewrite Hpx. done.
    + apply np_used.
    + intros (m & Hlab & [->|Hm']%elem_of_cons)%list_elem_of_fmap.
      * by apply (label_ne used np' n'); [done|apply np_used|rewrite Hkn'; apply op_used|rewrite Hkn'|].
      * by destruct (rest_label_np m Hm') as [_ ?].
    + exists w2, ([np'; n'] ++ k)%list. split; [|by left]. apply settle; cbn [Citus.self old emit yield_ with_self added gone]; rewrite ?Hold', ?Ha, ?Hg; try done.
      * apply put_keys.
      * intros v Hv Hk. apply put_elem; [done|by rewrite Hkx].
      * intros x [->|[->|[]%elem_of_nil]%elem_of_cons]%elem_of_cons; [split; [by apply fill_primary|apply np_used]|].
        split; [|rewrite Hkn'; apply op_used]. apply fill_for_op; [done|]. intros v Hv Hk. by rewrite (put_elem_inv opx old_ v); [|done|rewrite Hkx].
      * assert (put n' (Citus.self t) ≡ₚ (np :: n' :: added t0 ++ k')%list) as H1.
        { rewrite (put_perm _ _ _ Hself), (put_perm _ _ (n :: np :: added t0 ++ k')%list) by solve_Permutation.
          rewrite put_head; [solve_Permutation|done|]. eapply keys_perm; [|exact Hnds]. rewrite Hself. solve_Permutation. }
        rewrite (put_perm _ _ _ H1). rewrite put_head; [done|done|]. eapply keys_perm; [exact H1|]. by rewrite put_keys.
      * apply keys_with; [apply two_keys; by rewrite Hkn'|].
        intros x [->|[->|[]%elem_of_nil]%elem_of_cons]%elem_of_cons; [by left|by right].
Qed.

Lemma registered : moves (failover_step np op t0).
Proof.
  destruct n0_secondary as (Hin0 & Hk0 & Hs0'). pose proof split_new as Hn.
  unfold failover_step. change (old (set_moved t0)) with old_. change (Citus.self (set_moved t0)) with new_. rewrite Hn0.
  unfold promoted_registered, vacate. change (added (set_moved t0)) with (added t0). change (old (set_moved t0)) with old_.
  assert (reached w0 (set_moved t0) w0 (op :: n0 :: gone t0 ++ k)%list) as Hr0.
  { eapply reached_same; [..|eapply reached_perm; [exact old_rows|exact reached_start]]; done. }
  (* the old primary leaves its row *)
  set (opx := if (role op =? "primary")%string then set_role "demoted" op else op).
  set (tx := if (role op =? "primary")%string then yield_ opx (with_old (put opx old_) (set_moved t0)) else set_moved t0).
  assert (role opx = "demoted" ∧ key opx = key op ∧ nodeid opx = nodeid op) as (Hrx & Hkx & Hix).
  { unfold opx. destruct (String.eqb_spec (role op) "primary") as [E|E]; [done|]. split_and!; [|done..].
    revert Hopp. unfold is_primary. rewrite orb_true_iff, !String.eqb_eq. by intros [?|?]. }
  assert (∃ w, reached w0 tx w (opx :: n0 :: gone t0 ++ k)%list) as (w1 & Hr1).
  { unfold tx, opx in *. destruct (role op =? "primary")%string; [|by exists w0].
    apply (reached_yield w0 (with_old (put (set_role "demoted" op) old_) (set_moved t0)) w0 op); try done.
    - by eapply reached_same; [..|exact Hr0].
    - by right; right.
    - apply op_used.
    - intros (m & Hlab & [->|Hm]%elem_of_cons)%list_elem_of_fmap.
      + apply (label_ne used (set_role "demoted" op) n0); [done|apply op_used|rewrite Hk0; apply np_used|rewrite Hk0; by apply not_eq_sym|done].
      + apply (rest_labels (set_role "demoted" op)); [apply op_used|by right|]. rewrite Hlab. by apply list_elem_of_fmap_2. }
  assert (old tx = put opx old_ ∧ added tx = added t0 ∧ gone tx = gone t0 ∧ moved tx = true ∧ Citus.self tx = new_) as (Hx1 & Hx2 & Hx3 & Hx4 & Hx5).
  { unfold tx, opx. destruct (role op =? "primary")%string; [done|]. split_and!; [|done..]. cbn [old set_moved]. by rewrite put_id. }
  assert (∀ x, moves (emit np' (let '(op_new, t) := match x with
      | None => let n := MkNode (host op) (port op) (role n0) None in (Some n, with_self (add n (Citus.self tx)) tx)
      | Some _ => (x, tx) end in match op_new with Some n => emit (set_nodeid (nodeid n0) n) t | None => t end)) ∨ get op new_ ≠ x) as Hswap.
  { intros x. destruct (decide (get op new_ = x)) as [Hg|]; [left|by right]. destruct x as [n|].
    - apply (registered_swap tx w1 opx n); try done; [by apply for_op_found|by rewrite Hx5|]. rewrite Hx5. by rewrite Hg in Hn.
    - set (n := MkNode (host op) (port op) (role n0) None).
      assert (key n ∉ (key <$> new_)) as Habs by by apply get_node_None in Hg.
      assert (Citus.self (with_self (add n (Citus.self tx)) tx) = (new_ ++ [n])%list) as Hself by (cbn [Citus.self with_self]; by rewrite Hx5, add_absent).
      apply (registered_swap (with_self (add n (Citus.self tx)) tx) w1 opx n); try done.
      + rewrite Hself, fmap_app, NoDup_app. split_and!; [done| |by repeat constructor; set_solver]. by intros y Hy ->%list_elem_of_singleton.
      + rewrite Hself. rewrite Hn at 1. rewrite Hg. cbn. solve_Permutation.
      + by eapply reached_same; [..|exact Hr1]. }
  assert ((if (role op =? "primary")%string then (set_role "demoted" op, false, yield_ (set_role "demoted" op) (with_old (put (set_role "demoted" op) old_) (set_moved t0)))
           else (op, false, set_moved t0)) = (opx, false, tx)) as Hvac by (unfold opx, tx; by destruct (role op =? "primary")%string).
  destruct (get op new_) as [n|] eqn:Eop.
  - cbn zeta. rewrite Hvac. cbn zeta. rewrite Hix. fold np'. by destruct (Hswap (Some n)).
  - destruct (added t0) as [|a rest] eqn:Ea.
    + cbn zeta. rewrite Hvac. cbn zeta. rewrite Hix. fold np'. cbn [host port] in Hswap.
      destruct (Hswap None) as [Hs|]; [|done]. cbn zeta in Hs. injection Hkx as Eh Ep. by rewrite Eh, Ep.
    + cbn zeta. by apply registered_reuse.
Qed.
End registered.
End failover.

(** The old primary keeps a row unless it is a secondary now that has none to take. *)
Lemma primary_moves :
  key op = key np ∨ get np old_ ≠ None ∨ get op new_ = None ∨ gone t0 ≠ [] → moves (primary_step np (Some op) t0).
Proof.
  intros Hcond. destruct (same op np) eqn:E.
  - apply same_primary. by apply same_key.
  - apply same_false in E. unfold primary_step. rewrite (proj2 (same_false op np) E).
    destruct (get np old_) as [n0|] eqn:E0; [apply (registered ltac:(congruence) n0 E0)|].
    apply unknown; [congruence|done|]. destruct Hcond as [?|[?|?]]; [congruence|done|done].
Qed.

Lemma promoted_registered_moved x y z n t : moved (promoted_registered x y z n t).2 = moved t.
Proof. unfold promoted_registered, vacate. destruct n, (added t); repeat case_match; simplify_eq; done. Qed.

Lemma promoted_unknown_moved x n t : moved (promoted_unknown x n t) = moved t.
Proof. unfold promoted_unknown. destruct (gone t), n; repeat case_match; simplify_eq; done. Qed.

(** As long as the primary was not moved, no node has come to the group or left it. *)
Lemma unmoved_keys : moved (primary_step np (Some op) t0) = false → key <$> Citus.self (primary_step np (Some op) t0) = key <$> new_.
Proof.
  unfold primary_step. destruct (same op np).
  - destruct (_ =? _)%string; intros _; apply put_keys.
  - unfold failover_step. change (old (set_moved t0)) with old_. change (Citus.self (set_moved t0)) with new_.
    destruct (get np old_) as [n0|].
    + pose proof (promoted_registered_moved np op n0 (get op new_) (set_moved t0)) as Hm.
      destruct (promoted_registered _ _ _ _ _) as [op' t]. cbn in *. by rewrite Hm.
    + by rewrite promoted_unknown_moved.
Qed.
End start.

Lemma fill_key old n : key (fill_node old n) = key n.
Proof. unfold fill_node. destruct (_ && _); [|done]. by destruct (get _ _). Qed.

Lemma fill_keys t : key <$> Citus.self (fill t) = key <$> Citus.self t.
Proof. cbn. induction (Citus.self t) as [|n l IH]; [done|]. cbn. f_equal; [apply fill_key|exact IH]. Qed.

Lemma reuse_keys ad go t : key <$> Citus.self (reuse ad go t) = key <$> Citus.self t ∧ moved (reuse ad go t) = moved t.
Proof.
  revert go t. induction ad as [|a ad IH]; intros [|b go] t; [done..|]. cbn [reuse].
  destruct (IH go (emit (set_nodeid (nodeid b) a) t)) as [-> ->]. split; [apply put_keys|done].
Qed.

Lemma rest_unmoved l (f : Tr → PgDistNode → Tr) t :
  (∀ t x, moved (f t x) = moved t ∧ (moved t = false → Citus.self (f t x) = Citus.self t)) →
  moved (foldl f t l) = moved t ∧ (moved t = false → Citus.self (foldl f t l) = Citus.self t).
Proof.
  intros Hf. revert t. induction l as [|x l IH]; intros t; [done|]. cbn [foldl]. destruct (IH (f t x)) as [H1 H2], (Hf t x) as [H3 H4].
  split; [congruence|]. intros Hm. rewrite H2 by congruence. by apply H4.
Qed.

Lemma finish_keys t : moved (finish t) = moved t ∧ (moved t = false → key <$> Citus.self (finish t) = key <$> Citus.self t).
Proof.
  unfold finish. cbn zeta. destruct (reuse_keys (added t) (gone t) t) as [H1 H2]. set (t1 := reuse _ _ t) in *.
  destruct (rest_unmoved (gone t1) (λ t g, if moved t then with_self (add g (Citus.self t)) t else yield_ (MkNode (host g) (port g) "" None) t) t1)
    as [H3 H4]. { intros t' x. destruct (moved t') eqn:E; by rewrite ?E. }
  fold (drop_gone t1) in *. set (t2 := drop_gone t1) in *.
  destruct (rest_unmoved (added t2) (λ t a, if moved t then with_self (discard a (Citus.self t)) t else yield_ a t) t2)
    as [H5 H6]. { intros t' x. destruct (moved t') eqn:E; by rewrite ?E. }
  fold (add_new t2) in *. split; [congruence|]. intros Hm. rewrite H6, H4 by congruence. done.
Qed.
End transition.

(** * The metadata of Citus: properties

    What a task leaves in the table, and what happens to the tasks. *)

(** ** A task *)

(** A set of nodes with one primary *)
Definition topology (l : nodes) (p : PgDistNode) : Prop :=
  NoDup (key <$> l) ∧ p ∈ l ∧ is_primary p = true ∧ ∀ n, n ∈ l → n ≠ p → secondary n.

Lemma topology_primary l p : topology l p → primary l = Some p.
Proof.
  intros (Hl & Hp & Hpp & Hs). unfold primary. destruct (List.find is_primary l) as [x|] eqn:E.
  - apply List.find_some in E as [Hx Hxp]. apply list_elem_of_In in Hx. destruct (decide (x = p)) as [->|Hne]; [done|].
    rewrite (secondary_not_primary x) in Hxp; [done|by apply Hs].
  - apply List.find_none with (x := p) in E; [congruence|by apply list_elem_of_In].
Qed.

(** Where the old primary ends up: it is the new one, gets the row of the new one, is gone, or can take the row of a node that is gone. *)
Definition row_for_old_primary (new prev : nodes) (np op : PgDistNode) : Prop :=
  key op = key np ∨ key np ∈ (key <$> prev) ∨ key op ∉ (key <$> new) ∨
  ∃ n, n ∈ prev ∧ key n ≠ key op ∧ key n ∉ (key <$> new).

(** C19: The transition of a group is correct, when the old and the new topology have one primary each, the table holds the
    old one, and there is a row for the old primary ([row_for_old_primary]: it is the new primary or gone, or the new primary or
    some node that is gone was registered; otherwise see [old_primary_unregistered]).  The statements are executed one after the
    other without breaking the uniqueness of names, and rows are only added or removed while the metadata is synchronised.  At
    the end the table holds exactly the nodes of the group that is kept as the task's, with their ids, besides the rows of the
    other groups; the new primary has the row that the old one had, and unless the primary was moved these nodes are those that
    were asked for. *)
Theorem transition_correct {W : Type} `{!CitusDb W, !PgDistTable W, !SetOrder} used others new prev np op T h (w : W) :
  topology (members new) np → (∀ n, n ∈ members new → nodeid n = None) → topology (members prev) op →
  plain_hosts used → foreign used others → (∀ n, n ∈ members new ∨ n ∈ members prev → key n ∈ used) →
  holds used others w (members prev) → (failover prev = false → synced w = true) →
  row_for_old_primary (members new) (members prev) np op →
  ∃ statements new' prev' T' w',
    transition new prev = Ok (statements, new', prev') ∧
    update_nodes statements (with_group new' T) (h, w) = (Ok T', (h, w')) ∧
    holds used others w' (members (t_group T')) ∧ set_nodeid (nodeid op) np ∈ members (t_group T') ∧
    (failover new' = false → key <$> members (t_group T') = key <$> members new).
Proof.
  intros Hnew Hnone Hold Hplain Hforeign Hused Hh Hs Hrow. unfold transition.
  rewrite (topology_primary _ _ Hnew), (topology_primary _ _ Hold). destruct Hnew as (Hn1 & Hn2 & Hn3 & Hn4), Hold as (Ho1 & Ho2 & Ho3 & Ho4).
  set (t := primary_step np (Some op) (start new prev np (Some op))).
  destruct (primary_moves used others (groupid new) (t_cooldown T) Hplain Hforeign (members new) (members prev) np op w (failover prev))
    as (w1 & c & Hset & Hin); try done.
  { destruct Hrow as [?|[?|[?|(n & Hn & Hk & Hout)]]]; [by left|right; left|right; right; left; by apply get_node_None|right; right; right].
    - intros E. by apply get_node_None in E.
    - intros E. assert (n ∈ gone (t0 (members new) (members prev) np op (failover prev))) as Hg by by apply in_gone.
      rewrite E in Hg. by apply elem_of_nil in Hg. }
  change (primary_step np (Some op) (t0 (members new) (members prev) np op (failover prev))) with t in Hset.
  set (new' := MkGroup (groupid new) (Citus.self (finish (fill t))) (moved (finish (fill t)))).
  destruct (finish_holds used others (groupid new) (t_cooldown T) Hplain Hforeign h (with_group new' T) w (fill t) w1 c Hset)
    as (T' & w' & H1 & H2 & H3 & H4); try done.
  eexists _, new', _, T', w'. split; [done|]. split_and!; [exact H1|done|by apply H3|].
  destruct (finish_keys (fill t)) as [Hm Hk]. intros Hmoved. change (moved (finish (fill t)) = false) in Hmoved. rewrite Hm in Hmoved.
  rewrite H4. change (key <$> Citus.self (finish (fill t)) = key <$> members new). rewrite Hk by done.
  rewrite fill_keys. by apply (unmoved_keys (members new) (members prev) np op (failover prev)).
Qed.

(** ** A table of rows *)
Section model.

Abbreviation Table := (gmap Z dist_row).

(** The ids of the rows with a name *)
Definition ids_named (h : string) (p : Z) (t : Table) : list Z :=
  (filter (λ kx, kx.2.1 = (h, p)) (map_to_list t)).*1.

#[local] Instance table_db : CitusDb Table := {|
  cd_select w := (Ok [], w);
  cd_update_node id h p _ w :=
    match w !! id with
    | Some r => if decide (Forall (λ i, i = id) (ids_named h p w)) then (Ok (), <[id := (h, p, r.2)]> w) else (Raise DatabaseError, w)
    | None => (Ok (), w)
    end;
  cd_add_node h p _ r w :=
    match ids_named h p w with
    | id :: _ => (Ok id, w)
    | [] => let id := fresh (dom w) in (Ok id, <[id := (h, p, (r =? "primary")%string)]> w)
    end;
  cd_remove_node h p w := match ids_named h p w with id :: _ => (Ok (), delete id w) | [] => (Raise DatabaseError, w) end;
  cd_command _ w := (Ok (), w);
  cd_time _ := 0;
  cd_meanwhile w := ([], w);
|}.

Lemma ids_named_spec h p w id : id ∈ ids_named h p w ↔ ∃ r, w !! id = Some r ∧ r.1 = (h, p).
Proof.
  unfold ids_named. rewrite list_elem_of_fmap. split.
  - intros ([i r] & -> & [Hr Hin%elem_of_map_to_list]%list_elem_of_filter). by exists r.
  - intros (r & Hr & Hn). exists (id, r). split; [done|]. apply list_elem_of_filter. split; [done|by apply elem_of_map_to_list].
Qed.

#[local] Program Instance table_rows : PgDistTable Table := {| row w i := w !! i; synced _ := true |}.
Next Obligation.
  intros w id r h p c Hr Hu. cbn [cd_update_node table_db]. rewrite Hr. rewrite decide_True.
  - eexists. split_and!; [done| |done]. intros i. case_decide as E; [by subst; rewrite lookup_insert_eq|by rewrite lookup_insert_ne].
  - apply Forall_forall. intros i (r' & Hr' & Hn)%ids_named_spec. by apply (Hu i r').
Qed.
Next Obligation.
  intros w h p g r _ Hu. cbn [cd_add_node table_db]. destruct (ids_named h p w) as [|i l] eqn:E.
  - eexists _, _. split_and!; [done| | |done].
    + apply not_elem_of_dom, is_fresh.
    + intros i. case_decide as Ei; [by subst; rewrite lookup_insert_eq|by rewrite lookup_insert_ne].
  - assert (i ∈ ids_named h p w) as Hi by (rewrite E; constructor). apply ids_named_spec in Hi as (x & Hx & Hn). by destruct (Hu i x).
Qed.
Next Obligation.
  intros w id h p b _ Hr Hu. cbn [cd_remove_node table_db]. assert (id ∈ ids_named h p w) as Hi by (apply ids_named_spec; by exists (h, p, b)).
  destruct (ids_named h p w) as [|i l] eqn:E; [by apply elem_of_nil in Hi|].
  assert (i ∈ ids_named h p w) as Hi' by (rewrite E; constructor). apply ids_named_spec in Hi' as (x & Hx & Hn).
  assert (i = id) as -> by by apply (Hu i x). eexists. split_and!; [done| |done]. intros j.
  case_decide as Ej; [by subst; rewrite lookup_delete_eq|by rewrite lookup_delete_ne].
Qed.

#[local] Instance in_order : SetOrder := {| set_order l := l; set_order_perm l := reflexivity l |}.

(** A failover in which the old primary and a secondary are gone and a new node has come *)
Definition w_prev : PgDistGroup := MkGroup 1 [MkNode "a" 5432 "primary" (Some 1); MkNode "b" 5432 "secondary" (Some 2); MkNode "c" 5432 "secondary" (Some 3)] false.
Definition w_new : PgDistGroup := MkGroup 1 [MkNode "b" 5432 "primary" None; MkNode "d" 5432 "secondary" None] false.
Definition w_table : Table := {[1 := ("a", 5432, true); 2 := ("b", 5432, false); 3 := ("c", 5432, false); 7 := ("coordinator", 5432, true)]}.
Definition w_used : list (string * Z) := [("a", 5432); ("b", 5432); ("c", 5432); ("d", 5432)].
Definition w_others (id : Z) : option dist_row := if decide (id = 7) then Some ("coordinator", 5432, true) else None.

Lemma w_plain : plain_hosts w_used.
Proof.
  intros a b Ha Hb. repeat (apply elem_of_cons in Ha as [->|Ha]; [|]); [..|by apply elem_of_nil in Ha];
    repeat (apply elem_of_cons in Hb as [->|Hb]; [|]); try done; by apply elem_of_nil in Hb.
Qed.

Lemma w_foreign : foreign w_used w_others.
Proof.
  intros id r. unfold w_others. case_decide; [|done]. intros [= <-] (x & Hx & Hr).
  repeat (apply elem_of_cons in Hx as [->|Hx]; [by destruct Hr|]). by apply elem_of_nil in Hx.
Qed.

Lemma w_holds : holds w_used w_others w_table (members w_prev).
Proof.
  split.
  - intros n Hn. cbn in Hn. repeat (apply elem_of_cons in Hn as [->|Hn]; [eexists; split_and!; [done|by vm_compute|by vm_compute]|]).
    by apply elem_of_nil in Hn.
  - intros id Hid. cbn in Hid. unfold w_others, w_table, row, table_rows. case_decide as E; [by subst; vm_compute|].
    rewrite !lookup_insert_ne by set_solver. by rewrite lookup_singleton_ne by set_solver.
  - by apply (bool_decide_unpack _).
  - by apply (bool_decide_unpack _).
  - intros n Hn. cbn in Hn. repeat (apply elem_of_cons in Hn as [->|Hn]; [apply label_reserved; apply (bool_decide_unpack _); by vm_compute|]).
    by apply elem_of_nil in Hn.
Qed.

Lemma transition_correct_witness :
  ∃ statements new' prev' T' w',
    transition w_new w_prev = Ok (statements, new', prev') ∧
    update_nodes statements (with_group new' (new_task 0 1 [] "after_promote" None None)) (citus_init, w_table) = (Ok T', (citus_init, w')) ∧
    holds w_used w_others w' (members (t_group T')) ∧ set_nodeid (Some 1) (MkNode "b" 5432 "primary" None) ∈ members (t_group T') ∧
    (failover new' = false → key <$> members (t_group T') = key <$> members w_new).
Proof.
  apply (transition_correct w_used w_others w_new w_prev (MkNode "b" 5432 "primary" None) (MkNode "a" 5432 "primary" (Some 1))).
  - split_and!; [by apply (bool_decide_unpack _)|by left|done|]. intros n [->|[->|[]%elem_of_nil]%elem_of_cons]%elem_of_cons; done.
  - intros n [->|[->|[]%elem_of_nil]%elem_of_cons]%elem_of_cons; done.
  - split_and!; [by apply (bool_decide_unpack _)|by left|done|].
    intros n [->|[->|[->|[]%elem_of_nil]%elem_of_cons]%elem_of_cons]%elem_of_cons; done.
  - apply w_plain.
  - apply w_foreign.
  - intros n [Hn|Hn]; repeat (apply elem_of_cons in Hn as [->|Hn]; [apply (bool_decide_unpack _); by vm_compute|]); by apply elem_of_nil in Hn.
  - apply w_holds.
  - done.
  - right; left. by apply (bool_decide_unpack _).
Defined.
End model.
