(* ===== verification/CitusTasks.v ===== *)
(** * The tasks of the Citus handler

    The thread that executes tasks and those that ask for them, as a step relation; what is true of the list of
    tasks in every state, and who is woken. *)
From stdpp Require Import gmap relations.
From S2P Require Import Prelude PyDict PyVal Effects DcsData Citus CitusHandler CitusProps.

Open Scope string_scope.
Open Scope Z_scope.

Abbreviation gid t := (groupid (t_group t)).

(** One task per group, and every task object is one that was made *)
Record wf_tasks (h : CitusHandler) : Prop := {
  wt_groups : NoDup ((λ t, gid t) <$> tasks h);
  wt_ids : NoDup (t_id <$> tasks h);
  wt_known t : t ∈ tasks h → (t_id t < next_id h)%nat;
}.

(** A task that nobody has in his list any more, and whose waiter was not woken *)
Record forgotten (i : nat) (h : CitusHandler) : Prop := {
  fg_known : (i < next_id h)%nat;
  fg_absent : i ∉ (t_id <$> tasks h);
  fg_asleep : i ∉ woken h;
}.

(** ** Lists *)

Lemma find_task_Some g l i : find_task_by_groupid g l = Some i → ∃ t, l !! i = Some t ∧ gid t = g.
Proof.
  revert i. induction l as [|t l IH]; intros i; [done|]. cbn. destruct (Z.eqb_spec (gid t) g) as [E|E].
  - intros [= <-]. by exists t.
  - intros (j & Hj & ->)%fmap_Some. by apply IH.
Qed.

Lemma find_task_None g l : find_task_by_groupid g l = None → g ∉ ((λ t, gid t) <$> l).
Proof.
  induction l as [|t l IH]; [intros _; apply not_elem_of_nil|]. cbn. destruct (Z.eqb_spec (gid t) g) as [E|E]; [done|].
  intros Hf%fmap_None. rewrite not_elem_of_cons. split; [congruence|by apply IH].
Qed.

Lemma pop_at_sub i l : sublist (pop_at i l) l.
Proof.
  unfold pop_at. rewrite <-delete_take_drop. apply sublist_delete.
Qed.

Lemma skip_done_sub n cache l : sublist (skip_done n cache l).2 l.
Proof.
  revert l. induction n as [|n IH]; intros l; [done|]. cbn [skip_done]. destruct (match find_task_by_groupid 0 l with Some _ => _ | None => _ end) as [i|]; [|done].
  destruct (l !! i) as [t|]; [|done]. destruct (is_task _ _); [|done]. etrans; [apply IH|apply pop_at_sub].
Qed.

Lemma skip_done_in n cache l i : (skip_done n cache l).1 = Some i → is_Some ((skip_done n cache l).2 !! i).
Proof.
  revert l. induction n as [|n IH]; intros l; [done|]. cbn [skip_done]. destruct (match find_task_by_groupid 0 l with Some _ => _ | None => _ end) as [j|]; [|done].
  destruct (l !! j) as [t|] eqn:E; [|done]. destruct (is_task _ _); [apply IH|]. cbn. intros [= <-]. by exists t.
Qed.

Lemma sub_wf h l : sublist l (tasks h) → wf_tasks h → wf_tasks (put_tasks l h).
Proof.
  intros Hs [H1 H2 H3]. split; cbn.
  - eapply sublist_NoDup; [exact H1|]. by apply fmap_sublist.
  - eapply sublist_NoDup; [exact H2|]. by apply fmap_sublist.
  - intros t Ht. apply H3. by apply (sublist_subseteq _ _ Hs).
Qed.

Lemma sub_forgotten i h l : sublist l (tasks h) → forgotten i h → forgotten i (put_tasks l h).
Proof.
  intros Hs [H1 H2 H3]. split; [done| |done]. cbn. contradict H2. revert H2. apply sublist_subseteq. by apply fmap_sublist.
Qed.

(** ** Requests *)

Lemma insert_NoDup {A} (l : list A) i x : NoDup l → x ∉ l → NoDup (<[i:=x]> l).
Proof.
  rewrite !NoDup_alt. intros Hl Hx j k y Hj Hk. apply list_lookup_insert_Some in Hj, Hk.
  destruct Hj as [(-> & <- & _)|[Hij Hj]], Hk as [(-> & Hxy & _)|[Hik Hk]]; [done| | |by eapply Hl].
  - destruct Hx. by eapply list_elem_of_lookup_2.
  - subst y. destruct Hx. by eapply list_elem_of_lookup_2.
Qed.

Lemma add_task_wf now t h : wf_tasks h → (t_id t < next_id h)%nat → t_id t ∉ (t_id <$> tasks h) → wf_tasks (_add_task now t h).2.
Proof.
  intros [H1 H2 H3] Hlt Hnew. unfold _add_task. destruct (left_to_request _ _ _ _); [done|].
  destruct (find_task_by_groupid _ _) as [i|] eqn:Ef.
  - apply find_task_Some in Ef as (o & Ho & Hg). rewrite Ho. destruct (task_eqb t o); [done|]. cbn. split; cbn.
    + rewrite list_fmap_insert, list_insert_id; [done|]. by rewrite list_lookup_fmap, Ho, <-Hg.
    + rewrite list_fmap_insert. by apply insert_NoDup.
    + intros x Hx. apply list_elem_of_lookup in Hx as (j & Hj). destruct (decide (i = j)) as [->|Hne].
      * rewrite list_lookup_insert_eq in Hj by (by eapply lookup_lt_Some). by injection Hj as <-.
      * rewrite list_lookup_insert_ne in Hj by done. apply H3. by eapply list_elem_of_lookup_2.
  - apply find_task_None in Ef. destruct (_ || _ || _); [|done]. cbn. split; cbn.
    + rewrite fmap_app, NoDup_app. split_and!; [done| |by repeat constructor; set_solver]. intros x Hx ->%list_elem_of_singleton. done.
    + rewrite fmap_app, NoDup_app. split_and!; [done| |by repeat constructor; set_solver]. intros x Hx ->%list_elem_of_singleton. done.
    + intros x [Hx| ->%list_elem_of_singleton]%elem_of_app; [by apply H3|done].
Qed.

(** What is kept in every state, and for a task that was forgotten, if there is one *)
Definition inv (o : option nat) (h : CitusHandler) : Prop := wf_tasks h ∧ match o with Some i => forgotten i h | None => True end.

Lemma inv_same o h h' : tasks h' = tasks h → woken h' = woken h → (next_id h ≤ next_id h')%nat → inv o h → inv o h'.
Proof.
  intros Ht Hw Hn [[H1 H2 H3] Hf]. split.
  - split; rewrite ?Ht; [done|done|]. intros t Hin. specialize (H3 t Hin). lia.
  - destruct o; [|done]. destruct Hf as [F1 F2 F3]. split; rewrite ?Ht, ?Hw; [lia|done|done].
Qed.

Lemma inv_sub o h l : sublist l (tasks h) → inv o h → inv o (put_tasks l h).
Proof. intros Hs [Hwf Hf]. split; [by apply sub_wf|]. destruct o; [by apply sub_forgotten|done]. Qed.

Lemma add_task_tasks now t h x : x ∈ (t_id <$> tasks (_add_task now t h).2) → x = t_id t ∨ x ∈ (t_id <$> tasks h).
Proof.
  unfold _add_task. destruct (left_to_request _ _ _ _); [by right|]. destruct (find_task_by_groupid _ _) as [i|].
  - destruct (tasks h !! i) as [o|] eqn:E; [|by right]. destruct (task_eqb t o); [by right|]. cbn.
    intros (y & -> & Hy)%list_elem_of_fmap. apply list_elem_of_lookup in Hy as (j & Hj).
    apply list_lookup_insert_Some in Hj as [(_ & -> & _)|[_ Hj]]; [by left|right].
    apply list_elem_of_fmap_2. by eapply list_elem_of_lookup_2.
  - destruct (_ || _ || _); [|by right]. cbn. rewrite fmap_app. intros [Hx|Hx]%elem_of_app; [by right|].
    left. by apply list_elem_of_singleton in Hx.
Qed.

Lemma add_task_rest now t h : woken (_add_task now t h).2 = woken h ∧ next_id (_add_task now t h).2 = next_id h.
Proof.
  unfold _add_task. destruct (left_to_request _ _ _ _); [done|]. destruct (find_task_by_groupid _ _) as [i|].
  - destruct (tasks h !! i) as [o|]; [|done]. by destruct (task_eqb t o).
  - by destruct (_ || _ || _).
Qed.

Lemma inv_call o now h c : inv o h → inv o (do_call now h c).
Proof.
  intros Hinv. destruct c as [g l event timeout cooldown| |].
  - cbn. unfold add_new_task. set (t := new_task _ _ _ _ _ _). set (h1 := MkCitus _ _ _ _ _ _ _).
    assert (inv o h1) as H1 by (apply (inv_same o h); [done|done|cbn; lia|done]). destruct H1 as [Hwf Hf].
    pose proof (add_task_rest now t h1) as [Hw Hn]. pose proof (add_task_tasks now t h1) as Ht. pose proof (add_task_wf now t h1 Hwf) as Hwf'.
    destruct (_add_task now t h1) as [b h2]. cbn in *. split.
    + apply Hwf'; [lia|]. intros (x & Hx & Hin)%list_elem_of_fmap. destruct Hinv as [[_ _ Hk] _]. specialize (Hk x Hin).
      lia.
    + destruct o as [i|]; [|done]. destruct Hf as [F1 F2 F3]. destruct Hinv as [_ [F1' _ _]].
      split; [cbn in *; lia| |by rewrite Hw]. intros [->|Hx]%Ht; [lia|done].
  - cbn. apply (inv_same o (put_tasks [] h)); [done|done|done|]. apply inv_sub; [apply sublist_nil_l|done].
  - by apply (inv_same o h).
Qed.

Lemma inv_calls o now h cs : inv o h → inv o (foldl (do_call now) h cs).
Proof. revert h. induction cs as [|c cs IH]; intros h Hh; [done|]. cbn. by apply IH, inv_call. Qed.

(** ** The thread *)
Section thread.
Context {W : Type} `{!CitusDb W, !SetOrder}.

(** A computation that does not touch the list of tasks, and wakes nobody *)
Definition quiet {A} (m : cM (W := W) A) : Prop :=
  ∀ s, tasks (m s).2.1 = tasks s.1 ∧ woken (m s).2.1 = woken s.1 ∧ (next_id s.1 ≤ next_id (m s).2.1)%nat.

Lemma quiet_bind {A B} (m : cM (W := W) A) (f : A → cM (W := W) B) : quiet m → (∀ a, quiet (f a)) → quiet (m ≫= f).
Proof.
  intros Hm Hf s. unfold mbind, cM_bind, eff_bind. destruct (Hm s) as (H1 & H2 & H3). destruct (m s) as [[a|e] s1]; [|done].
  destruct (Hf a s1) as (H4 & H5 & H6). cbn in *. split_and!; [congruence|congruence|lia].
Qed.

Lemma quiet_try {A} p (m h : cM (W := W) A) : quiet m → quiet h → quiet (try_except p m h).
Proof.
  intros Hm Hh s. unfold try_except. destruct (Hm s) as (H1 & H2 & H3). destruct (m s) as [[a|e] s1]; [done|].
  destruct (p e); [|done]. destruct (Hh s1) as (H4 & H5 & H6). cbn in *. split_and!; [congruence|congruence|lia].
Qed.

Lemma quiet_query {A} (op : W → exc A * W) : quiet (query op).
Proof. intros s. unfold query. by destruct (op s.2) as [[a|e] w]. Qed.

Lemma quiet_pure {A} (m : cM (W := W) A) : (∀ s, (m s).2.1 = s.1) → quiet m.
Proof. intros Hm s. by rewrite Hm. Qed.

Lemma quiet_modify (f : CitusHandler → CitusHandler) :
  (∀ h, tasks (f h) = tasks h ∧ woken (f h) = woken h ∧ (next_id h ≤ next_id (f h))%nat) → quiet (modify (W := W) f).
Proof. intros Hf s. apply Hf. Qed.

Lemma add_rows_id cache id rows : (id ≤ (add_rows cache id rows).2)%nat.
Proof.
  revert cache id. induction rows as [|r rows IH]; intros cache id; [done|]. cbn [add_rows]. etrans; [|apply IH].
  destruct (cache !! r.1); lia.
Qed.

Ltac quiet_step :=
  lazymatch goal with
  | |- quiet (mbind _ _) => apply quiet_bind; [|intros ?]
  | |- quiet (try_except _ _ _) => apply quiet_try
  | |- quiet (query _) => apply quiet_query
  | |- quiet (modify _) => apply quiet_modify; done
  | |- quiet (match ?x with _ => _ end) => destruct x
  | |- quiet (let '_ := ?x in _) => destruct x
  | |- quiet _ => by apply quiet_pure
  end.
Ltac quiet_auto := repeat (cbn beta iota zeta; quiet_step).

Lemma quiet_load : quiet load_pg_dist_group.
Proof.
  unfold load_pg_dist_group. apply quiet_bind; [by apply quiet_pure|intros h]. destruct (negb _); [by apply quiet_pure|].
  apply quiet_bind; [by apply quiet_modify|intros []]. apply quiet_bind; [quiet_auto|intros [rows|]; [|quiet_auto]].
  apply quiet_bind; [|intros ?; quiet_auto]. apply quiet_modify. intros h'. pose proof (add_rows_id ∅ (next_id h') rows).
  by destruct (add_rows ∅ (next_id h') rows).
Qed.

Lemma quiet_update_nodes l t : quiet (update_nodes l t).
Proof.
  revert t. induction l as [|n l IH]; intros t; [quiet_auto|]. cbn [update_nodes]. apply quiet_bind; [|intros n'; apply IH].
  unfold update_node. quiet_auto.
Qed.

Lemma quiet_update_group t b : quiet (update_group t b).
Proof.
  unfold update_group. apply quiet_bind; [quiet_auto|intros h]. apply quiet_bind; [quiet_auto|intros [[tr new] prev]].
  apply quiet_bind; [|intros _].
  - apply quiet_modify. intros h'. unfold put_current_state. repeat case_match; done.
  - destruct tr; [quiet_auto|]. apply quiet_bind; [quiet_auto|intros _]. apply quiet_bind; [apply quiet_update_nodes|intros t'; quiet_auto].
Qed.

Lemma quiet_process t : quiet (process_task t).
Proof.
  unfold process_task. apply quiet_bind; [quiet_auto|intros h]. destruct (_ =? _)%string.
  - apply quiet_bind; [apply quiet_update_group|intros t'; quiet_auto].
  - apply quiet_bind; [quiet_auto|intros now]. apply quiet_bind; [quiet_auto|intros _]. apply quiet_bind; [apply quiet_update_group|intros t'; quiet_auto].
Qed.

(** The task that comes back is the object that was processed. *)
Definition same_object (t t' : PgDistTask) : Prop := t_id t' = t_id t ∧ gid t' = gid t.

Lemma update_nodes_object l t : yields (same_object t) (update_nodes (W := W) l t).
Proof.
  revert t. induction l as [|n l IH]; intros t; [by apply yields_ret|]. cbn [update_nodes]. apply yields_bind. intros n'.
  intros s a s' Ha. destruct (IH _ s a s' Ha) as [H1 H2]. unfold same_object. rewrite H1, H2. by destruct (bool_decide _).
Qed.

Lemma transition_groupid new prev l new' prev' : transition new prev = Ok (l, new', prev') → groupid new' = groupid new.
Proof. unfold transition. destruct (primary _); [|done]. by intros [= _ <- _]. Qed.

Lemma update_group_object t b : yields (same_object t) (update_group (W := W) t b).
Proof.
  unfold update_group. apply yields_bind. intros h.
  apply (yields_bind_known (λ r, transition (t_group t) (current_state t h) = Ok r)); [by apply yields_lift|].
  intros [[tr new] prev] Htr. apply transition_groupid in Htr. apply yields_bind. intros _.
  assert (same_object t (with_group new t)) as Hs by done. destruct tr as [|n tr]; [by apply yields_ret|]. apply yields_bind. intros _.
  eapply yields_bind_known; [apply update_nodes_object|]. intros t' [H1 H2]. destruct Hs as [H3 H4].
  assert (same_object t t') as Ht' by (split; congruence).
  destruct (_ && _); [apply yields_bind; intros _|]; by apply yields_ret.
Qed.

Lemma process_object t : yields (λ r, same_object t r.2) (process_task (W := W) t).
Proof.
  unfold process_task. apply yields_bind. intros h. destruct (_ =? _)%string.
  - eapply yields_bind_known; [apply update_group_object|]. intros t' Ht'. apply yields_bind. intros h'. apply yields_bind. intros _. by apply yields_ret.
  - apply yields_bind. intros now. apply yields_bind. intros _. eapply yields_bind_known; [apply update_group_object|].
    intros t' Ht'. apply yields_ret. destruct Ht' as [H1 H2]. unfold same_object. cbn. rewrite H1, H2.
    destruct (t_timeout t) as [x|]; [by destruct (x =? 0)|done].
Qed.

Lemma put_task_ids t t' l : NoDup (t_id <$> l) → t ∈ l → same_object t t' →
  (t_id <$> put_task t' l) = (t_id <$> l) ∧ ((λ t, gid t) <$> put_task t' l) = ((λ t, gid t) <$> l).
Proof.
  intros Hnd Hin [Hi Hg].
  assert (∀ o, o ∈ l → t_id (if (t_id o =? t_id t')%nat then t' else o) = t_id o ∧ gid (if (t_id o =? t_id t')%nat then t' else o) = gid o) as Ho.
  { intros o Hol. destruct (Nat.eqb_spec (t_id o) (t_id t')) as [E|E]; [|done]. split; [done|]. rewrite Hg. f_equal. f_equal.
    rewrite Hi in E. clear -Hnd Hin Hol E. induction l as [|x l IH]; [by apply elem_of_nil in Hin|].
    rewrite fmap_cons, NoDup_cons in Hnd. destruct Hnd as [Hx Hl].
    apply elem_of_cons in Hin as [->|Hin]; apply elem_of_cons in Hol as [->|Hol]; [done| | |by apply IH].
    - destruct Hx. rewrite <-E. by apply list_elem_of_fmap_2.
    - destruct Hx. rewrite E. by apply list_elem_of_fmap_2. }
  clear Hnd Hin. induction l as [|o l IH]; [done|]. cbn. destruct (Ho o) as [-> ->]; [constructor|].
  destruct IH as [IH1 IH2]; [intros x Hx; apply Ho; by constructor|]. unfold put_task in *. split; by f_equal.
Qed.

Lemma inv_put_task o t t' h : inv o h → t ∈ tasks h → same_object t t' → inv o (put_tasks (put_task t' (tasks h)) h).
Proof.
  intros [[H1 H2 H3] Hf] Hin Hs. destruct (put_task_ids t t' (tasks h) H2 Hin Hs) as [E1 E2]. split.
  - split; cbn; [by rewrite E2|by rewrite E1|]. intros x Hx. assert (t_id x ∈ (t_id <$> tasks h)) as (y & -> & Hy)%list_elem_of_fmap.
    { rewrite <-E1. by apply list_elem_of_fmap_2. } by apply H3.
  - destruct o; [|done]. destruct Hf as [F1 F2 F3]. split; [done| |done]. cbn. by rewrite E1.
Qed.

Lemma pick_task_sub h r h' : pick_task h = (r, h') → (∃ l, h' = put_tasks l h ∧ sublist l (tasks h)) ∧ ∀ i t, r = Some (i, t) → t ∈ tasks h'.
Proof.
  unfold pick_task. destruct (nonempty (in_flight h)) as [f|].
  - intros [= <- <-]. split; [exists (tasks h); split; [by destruct h|done]|]. intros i t.
    destruct (find_task_by_groupid _ _) as [j|]; [|done]. intros (x & Hx & [= <- <-])%fmap_Some. by eapply list_elem_of_lookup_2.
  - pose proof (skip_done_sub (S (length (tasks h))) (pg_dist_group h) (tasks h)) as Hs.
    destruct (skip_done _ _ _) as [j l]. intros [= <- <-]. split; [by exists l|]. intros i t. destruct j as [j|]; [|done].
    intros (x & Hx & [= <- <-])%fmap_Some. by eapply list_elem_of_lookup_2.
Qed.

(** The invariant as a triple; what is in the list while nothing touches it *)
Abbreviation Inv o := (λ s : CitusHandler * W, inv o s.1).

Lemma triple_quiet {A} o (m : cM (W := W) A) : quiet m → triple (Inv o) m (λ _, Inv o) (Inv o).
Proof. intros Hm s Hs. destruct (Hm s) as (H1 & H2 & H3). destruct (m s) as [[a|e] s']; by apply (inv_same o s.1). Qed.

Lemma triple_quiet_in {A} o t (m : cM (W := W) A) : quiet m →
  triple (λ s, inv o s.1 ∧ t ∈ tasks s.1) m (λ _ s, inv o s.1 ∧ t ∈ tasks s.1) (λ s, inv o s.1 ∧ t ∈ tasks s.1).
Proof.
  intros Hm s [Hs Ht]. destruct (Hm s) as (H1 & H2 & H3).
  destruct (m s) as [[a|e] s']; cbn in *; (split; [by apply (inv_same o s.1)|by rewrite H1]).
Qed.

Lemma inv_meanwhile o s : inv o s.1 → inv o (meanwhile (W := W) s).2.1.
Proof. intros Hs. unfold meanwhile. destruct (cd_meanwhile s.2) as [calls w]. cbn. by apply inv_calls. Qed.

Lemma inv_book o i t b s : inv o s.1 → inv o (book (W := W) i t b s).2.1.
Proof.
  intros Hs. unfold book, mbind, cM_bind, eff_bind, self, gets. cbn. destruct (tasks s.1) as [|x l] eqn:El; [done|].
  assert (∀ g f, inv o (put_flight f (put_groups g s.1)) ∧ inv o (put_tasks (pop_at i (tasks s.1)) (put_flight f (put_groups g s.1)))) as Hinv.
  { intros g f. assert (inv o (put_flight f (put_groups g s.1))) as H1 by by apply (inv_same o s.1). split; [done|].
    apply inv_sub; [apply pop_at_sub|done]. }
  assert (∀ f, inv o (put_flight f s.1) ∧ inv o (put_tasks (pop_at i (tasks s.1)) (put_flight f s.1))) as Hinv'.
  { intros f. destruct (Hinv (pg_dist_group s.1) f). by destruct s.1. }
  destruct b as [[|]|]; cbn; rewrite ?El; destruct ((x :: l) !! i) as [y|]; cbn; try (destruct (_ =? _)%nat; cbn); rewrite <-?El;
    (apply Hinv || apply Hinv').
Qed.

Lemma inv_process_one o s : inv o s.1 → inv o (process_one (W := W) s).2.1.
Proof.
  intros Hs. enough (triple (Inv o) (process_one (W := W)) (λ _, Inv o) (Inv o)) as Ht.
  { specialize (Ht s Hs). by destruct (process_one s) as [[a|e] s']. }
  clear s Hs. unfold process_one. eapply triple_bind; [by apply (triple_quiet o), quiet_pure|]. intros h0. cbn beta.
  eapply triple_bind; [apply (triple_quiet o); destruct (is_none _); [apply quiet_load|by apply quiet_pure]|]. intros loaded. cbn beta.
  destruct (negb loaded); [by apply triple_ret|].
  intros s Hs. unfold mbind at 1, cM_bind at 1, eff_bind at 1. cbn [self gets].
  destruct (pick_task s.1) as [picked h'] eqn:Ep. apply pick_task_sub in Ep as [(l & -> & Hl) Hpick].
  unfold mbind at 1, cM_bind at 1, eff_bind at 1. cbn [modify puts].
  assert (inv o (put_tasks l s.1)) as Hs1 by by apply inv_sub. destruct picked as [[i t]|]; [|done].
  destruct (is_none _); [done|]. specialize (Hpick i t eq_refl). cbn in Hpick.
  assert (match o with Some j => j ≠ t_id t | None => True end) as Hne.
  { destruct o as [j|]; [|done]. destruct Hs1 as [_ [_ F _]]. intros ->. apply F. cbn. by apply list_elem_of_fmap_2. }
  set (P := λ s : CitusHandler * W, inv o s.1 ∧ t ∈ tasks s.1).
  set (t' := λ r : option (bool * PgDistTask), match r with Some (_, t') => t' | None => t end).
  refine (triple_bind P _ _ (λ r s, P s ∧ same_object t (t' r)) _ _ _ _ (put_tasks l s.1, s.2) (conj Hs1 Hpick)).
  - intros s1 Hs1'. assert (quiet (process_task t)) as Hq by apply quiet_process.
    pose proof (triple_quiet_in o t (process_task t) Hq s1 Hs1') as Ht. pose proof (process_object t s1) as Hobj.
    unfold try_except, mbind, cM_bind, eff_bind. destruct (process_task t s1) as [[[b x]|e] s2]; cbn in *.
    + split; [done|]. by apply (Hobj (b, x) s2).
    + by split.
  - intros r s2 [[Hs2 Hin] Hobj]. unfold mbind at 1, cM_bind at 1, eff_bind at 1. cbn [modify puts].
    assert (inv o (put_tasks (put_task (t' r) (tasks s2.1)) s2.1)) as Hs3 by by apply (inv_put_task o t).
    pose proof (inv_meanwhile o (put_tasks (put_task (t' r) (tasks s2.1)) s2.1, s2.2) Hs3) as Hs4.
    unfold mbind at 1, cM_bind at 1, eff_bind at 1. destruct (meanwhile _) as [[[]|e] s4]; [|done].
    pose proof (inv_book o i (t' r) (fst <$> r) s4 Hs4) as Hs5. unfold t' in *.
    unfold mbind at 1, cM_bind at 1, eff_bind at 1. destruct (book _ _ _ s4) as [[[]|e] s5]; [|done]. cbn in *.
    destruct Hs5 as [[W1 W2 W3] Hf]. split; [by split|]. destruct o as [j|]; [|done]. destruct Hf as [F1 F2 F3].
    split; [done|done|]. cbn. rewrite not_elem_of_cons. done.
Qed.

Lemma inv_process_tasks o n s : inv o s.1 → inv o (process_tasks (W := W) n s).2.1.
Proof.
  revert s. induction n as [|n IH]; intros s Hs; [done|]. cbn [process_tasks]. unfold mbind, cM_bind, eff_bind.
  pose proof (inv_process_one o s Hs) as H1. destruct (process_one s) as [[[|]|e] s1]; [by apply IH|done|done].
Qed.

Lemma inv_run_once o n s : inv o s.1 → inv o (run_once (W := W) n s).2.1.
Proof.
  intros Hs. unfold run_once, self, gets, mbind, cM_bind, eff_bind. cbn beta iota.
  set (m := match run_timeout (cd_time s.2) s.1 with Some z => _ | None => _ end).
  assert (inv o (m s).2.1) as Hm.
  { unfold m. destruct (run_timeout _ _) as [z|]; [|by apply inv_meanwhile]. destruct (0 <? z); [by apply inv_meanwhile|].
    destruct (is_none _); [done|]. unfold query. destruct (cd_command "ROLLBACK" s.2) as [[[]|e] w]; cbn; by apply (inv_same o s.1). }
  destruct (m s) as [[[]|e] s1]; [by apply inv_process_tasks|done].
Qed.

(** ** Steps *)

(** The thread goes round, another thread calls, [sync_meta_data] has said that the thread may start, or the environment changes. *)
Inductive citus_step : CitusHandler * W → CitusHandler * W → Prop :=
  | step_run n s : citus_step s (run_once n s).2
  | step_call c s : citus_step s (do_call (cd_time s.2) s.1 c, s.2)
  | step_ready s : citus_step s (put_ready s.1, s.2)
  | step_env s w : citus_step s (s.1, w).

Lemma inv_steps o s s' : rtc citus_step s s' → inv o s.1 → inv o s'.1.
Proof.
  induction 1 as [s|s s1 s' Hstep _ IH]; intros Hs; [done|]. apply IH. destruct Hstep as [n s|c s|s|s w].
  - by apply inv_run_once.
  - by apply inv_call.
  - by apply (inv_same o s.1).
  - done.
Qed.

(** C36: In every state that is reached there is at most one task for each group and no task is twice in the list. *)
Theorem one_task_per_group w s : rtc citus_step (citus_init, w) s →
  NoDup ((λ t, gid t) <$> tasks s.1) ∧ NoDup (t_id <$> tasks s.1).
Proof.
  intros Hs. destruct (inv_steps None _ _ Hs) as [[H1 H2 _] _]; [|done]. split; [|done]. split; [constructor|constructor|by intros t ?%elem_of_nil].
Qed.

(** A task that a call of another thread takes from the list between two rounds of this thread, because the node is demoted or the
    group has got a newer task, is never processed and nobody is woken for it: a request that waits for it waits forever.  (A task
    that is taken from the list while the thread processes it is woken all the same: the thread has it at hand.) *)
Theorem replaced_task_never_woken w s t c s' :
  rtc citus_step (citus_init, w) s → t ∈ tasks s.1 → t_id t ∉ woken s.1 →
  let h := do_call (cd_time s.2) s.1 c in
  t_id t ∉ (t_id <$> tasks h) → rtc citus_step (h, s.2) s' → t_id t ∉ woken s'.1.
Proof.
  intros Hs Hin Hw h Hout Hs'.
  assert (inv None s.1) as Hinv. { apply (inv_steps None _ _ Hs). split; [|done]. split; [constructor|constructor|by intros x ?%elem_of_nil]. }
  assert (inv (Some (t_id t)) h) as Hf; [|by destruct (inv_steps (Some (t_id t)) _ _ Hs' Hf) as [_ [_ _ ?]]].
  pose proof (inv_call None (cd_time s.2) s.1 c Hinv) as [Hwf _]. fold h in Hwf. split; [done|]. split; [|done|].
  - destruct Hinv as [[_ _ Hk] _]. specialize (Hk t Hin). unfold h. destruct c as [g l event timeout cooldown| |]; [|done|done].
    cbn. unfold add_new_task. set (h1 := MkCitus _ _ _ _ _ _ _). set (x := new_task _ _ _ _ _ _).
    pose proof (add_task_rest (cd_time s.2) x h1) as [_ Hn]. destruct (_add_task _ x h1) as [b h2]. cbn in *. lia.
  - unfold h. destruct c as [g l event timeout cooldown| |]; [|done|done]. cbn. unfold add_new_task.
    set (h1 := MkCitus _ _ _ _ _ _ _). set (x := new_task _ _ _ _ _ _).
    pose proof (add_task_rest (cd_time s.2) x h1) as [Hw' _]. destruct (_add_task _ x h1) as [b h2]. cbn in *. by rewrite Hw'.
Qed.
End thread.

(** ** Examples *)
Section examples.
#[local] Instance in_order : SetOrder := {| set_order l := l; set_order_perm l := reflexivity l |}.

(** A coordinator whose statements all succeed *)
#[local] Instance willing : CitusDb () := {|
  cd_select w := (Ok [], w); cd_update_node _ _ _ _ w := (Ok (), w); cd_add_node _ _ _ _ w := (Ok 1, w);
  cd_remove_node _ _ w := (Ok (), w); cd_command _ w := (Ok (), w); cd_time _ := 0; cd_meanwhile w := ([], w);
|}.

Definition demote_request : other_call := AddTask 1 [MkNode "a" 5432 "demoted" None] "before_demote" (Some 30) (Some 10000).
Definition requested : CitusHandler := do_call 0 citus_init demote_request.
Definition demote_task : PgDistTask := new_task 0 1 [MkNode "a" 5432 "demoted" None] "before_demote" (Some 30) (Some 10000).

Lemma one_task_per_group_witness :
  NoDup ((λ t, gid t) <$> tasks requested) ∧ NoDup (t_id <$> tasks requested).
Proof.
  apply (one_task_per_group (W := ()) () (requested, ())). apply rtc_once. exact (step_call demote_request (citus_init, ())).
Defined.

Lemma replaced_task_never_woken_witness : t_id demote_task ∉ woken (on_demote requested).
Proof.
  apply (replaced_task_never_woken (W := ()) () (requested, ()) demote_task OnDemote (on_demote requested, ())).
  - apply rtc_once. exact (step_call demote_request (citus_init, ())).
  - by left.
  - apply not_elem_of_nil.
  - apply not_elem_of_nil.
  - apply rtc_refl.
Defined.
End examples.

(** ** A node that is never registered *)

(** The group that a failover from the only registered node leaves *)
Definition moved_to (g : Z) (h1 h2 : string) (p1 p2 : Z) (id : Z) : PgDistGroup :=
  MkGroup g [MkNode h2 p2 "primary" (Some id); MkNode h1 p1 "secondary" None] true.

(** When the primary moves from the only node that is registered to one that is not, and the old primary stays as a secondary,
    only the row of the primary is changed.  The group in the cache then has the old primary, so that the next task with
    the same nodes is taken for done: the secondary is not registered. *)
Theorem old_primary_unregistered `{!SetOrder} g h1 h2 p1 p2 id now ti h :
  (h1, p1) ≠ (h2, p2) →
  let nodes := [MkNode h2 p2 "primary" None; MkNode h1 p1 "secondary" None] in
  let prev := MkGroup g [MkNode h1 p1 "primary" (Some id)] false in
  transition (new_group g nodes) prev = Ok ([MkNode h2 p2 "primary" (Some id)], moved_to g h1 h2 p1 p2 id, prev) ∧
  (∀ done, pg_dist_group h !! g = Some done → t_event done = "after_promote" → t_group done = moved_to g h1 h2 p1 p2 id →
     schedule_load h = false → in_flight h = None → find_task_by_groupid g (tasks h) = None →
     _add_task now (new_task ti g nodes "after_promote" None None) h = (false, h)).
Proof.
  intros Hne. cbn zeta.
  assert (∀ h p r i r' i', same (MkNode h p r i) (MkNode h p r' i') = true) as S0 by (intros; by apply same_key).
  assert (∀ r i r' i', same (MkNode h1 p1 r i) (MkNode h2 p2 r' i') = false) as S1 by (intros; by apply same_false).
  assert (∀ r i r' i', same (MkNode h2 p2 r i) (MkNode h1 p1 r' i') = false) as S2 by (intros; apply same_false; intros E; by apply Hne).
  assert (set_order [] = []) as Ho by apply Permutation_nil_r, set_order_perm.
  assert (new_group g [MkNode h2 p2 "primary" None; MkNode h1 p1 "secondary" None] =
          MkGroup g [MkNode h2 p2 "primary" None; MkNode h1 p1 "secondary" None] false) as Hg.
  { unfold new_group, add, has. cbn -[same]. by rewrite S1. }
  split.
  - rewrite Hg. unfold transition. cbn -[same set_order start]. unfold start, without, has.
    cbn -[same set_order]. rewrite ?S0, ?S1, ?S2. cbn -[same set_order]. rewrite ?S0, ?S1, ?S2. cbn -[same set_order]. rewrite Ho.
    unfold failover_step, get. cbn -[same set_order]. rewrite ?S0, ?S1, ?S2. cbn -[same set_order].
    unfold set_nodeid, fill_node, get. cbn -[same]. rewrite ?S0, ?S1, ?S2. cbn -[same]. by rewrite ?S1.
  - intros d Hd Hev Hgr Hload Hfl Hf. unfold _add_task. cbn -[equals new_group]. rewrite Hg. cbn -[equals].
    rewrite Hf, Hfl. cbn -[equals]. rewrite Hload, Hd. cbn -[equals]. unfold is_task, task_eqb. rewrite Hgr, Hev. cbn -[equals moved_to]. rewrite Hg.
    assert (equals (MkGroup g [MkNode h2 p2 "primary" None; MkNode h1 p1 "secondary" None] false) (moved_to g h1 h2 p1 p2 id) false = true) as ->; [|done].
    unfold equals, subset_tuples, moved_to, as_tuple. cbn. rewrite Z.eqb_refl. 
    assert (∀ x : string * Z * string * option Z, bool_decide (x = x) = true) as B by (intros x; by apply bool_decide_eq_true_2).
    by rewrite !B, !orb_true_r.
Qed.

Lemma old_primary_unregistered_witness :
  let nodes := [MkNode "b" 5432 "primary" None; MkNode "a" 5432 "secondary" None] in
  let prev := MkGroup 1 [MkNode "a" 5432 "primary" (Some 4)] false in
  let order : SetOrder := {| set_order l := l; set_order_perm l := reflexivity l |} in
  transition (new_group 1 nodes) prev = Ok ([MkNode "b" 5432 "primary" (Some 4)], moved_to 1 "a" "b" 5432 5432 4, prev) ∧
  (∀ done, pg_dist_group citus_init !! 1 = Some done → t_event done = "after_promote" → t_group done = moved_to 1 "a" "b" 5432 5432 4 →
     schedule_load citus_init = false → in_flight citus_init = None → find_task_by_groupid 1 (tasks citus_init) = None →
     _add_task 0 (new_task 0 1 nodes "after_promote" None None) citus_init = (false, citus_init)).
Proof.
  intros nodes prev order. apply (old_primary_unregistered 1 "a" "b" 5432 5432 4 0 0 citus_init). by intros [=].
Defined.
