(* ===== verification/CitusNode.v ===== *)
(** * A node of a multi-node cluster ([patroni/postgresql/mpp/__init__.py], [patroni/postgresql/mpp/citus.py])

    Which group a node belongs to, the settings that Citus needs, and the replication slots that Citus makes for
    itself, with what the slot handler does with them. *)
From S2P Require Import Prelude Lexing PyDict PyVal Effects PgMisc Utils DcsData GlobalConfig Slots SlotsAdvance NodeSlots NodeSlotsProps.

Open Scope string_scope.
Open Scope Z_scope.

(** ** The group *)

(** [Citus.validate_config] *)
Definition validate_config (config : pyval) : exc bool :=
  match config with
  | VDict d =>
      match vget "database" d with
      | VStr _ => g ← parse_int (vget "group" d) VNone; mret (negb (is_none g))
      | _ => mret false
      end
  | _ => mret false
  end.

(** The implementations of [AbstractMPP]: [Null], whose configuration is empty, and [Citus] *)
Inductive MPP := MppNull | MppCitus (config : dict pyval).

Definition mpp_config (m : MPP) : dict pyval := match m with MppNull => [] | MppCitus d => d end.

(** [is_enabled] *)
Definition is_enabled (m : MPP) : bool := negb (bool_decide (mpp_config m = [])).

(** [group]; [None] for [Null] *)
Definition group (m : MPP) : exc (option Z) :=
  match m with
  | MppNull => mret None
  | MppCitus d => v ← match Dict.get "group" d with Some v => Ok v | None => Raise KeyError end; z ← py_int v; mret (Some z)
  end.

Definition CITUS_COORDINATOR_GROUP_ID : Z := 0.
Definition coordinator_group_id (m : MPP) : option Z := match m with MppNull => None | MppCitus _ => Some CITUS_COORDINATOR_GROUP_ID end.

(** [type], [k8s_group_label] *)
Definition mpp_type (m : MPP) : string := match m with MppNull => "Null" | MppCitus _ => "Citus" end.
Definition k8s_group_label (m : MPP) : string := Str.lower (mpp_type m) +:+ "-group".

(** [is_coordinator], [is_worker] *)
Definition is_coordinator (m : MPP) : exc bool :=
  if is_enabled m then g ← group m; mret (bool_decide (g = coordinator_group_id m)) else mret false.
Definition is_worker (m : MPP) : exc bool :=
  if is_enabled m then c ← is_coordinator m; mret (negb c) else mret false.

(** [get_mpp], for the only module there is *)
Definition get_mpp (config : dict pyval) : exc MPP :=
  match Dict.get "citus" config with
  | None => mret MppNull
  | Some c => ok ← validate_config c; mret (if ok : bool then MppCitus (match c with VDict d => d | _ => [] end) else MppNull)
  end.

(** ** Settings *)

Definition is_zero (v : pyval) : bool := match v with VInt z => z =? 0 | VBool b => negb b | _ => false end.

(** [v * 2] *)
Definition twice (v : pyval) : exc pyval :=
  match v with
  | VInt z => Ok (VInt (z * 2))
  | VBool b => Ok (VInt (if b then 2 else 0))
  | VStr s => Ok (VStr (s +:+ s))
  | VList l => Ok (VList (l ++ l)%list)
  | _ => Raise TypeError
  end.

(** The libraries but citus *)
Definition other_libraries (text : string) : list string :=
  List.filter (λ el, negb (el =? "")%string && negb (el =? "citus")%string) (map Str.strip (Str.split_on "," text)).
Definition with_citus (text : string) : string := Str.join "," ("citus" :: other_libraries text).

(** [adjust_postgres_gucs]; [host] of the local connections is [local_host]. *)
Definition adjust_postgres_gucs (local_host : pyval) (parameters : dict pyval) : exc (dict pyval) :=
  match vget_or "shared_preload_libraries" (VStr "") parameters with
  | VStr text =>
      let parameters := Dict.set "shared_preload_libraries" (VStr (with_citus text)) parameters in
      n ← item "max_prepared_transactions" parameters;
      parameters ← (if is_zero n then
                      c ← item "max_connections" parameters; c2 ← twice c; mret (Dict.set "max_prepared_transactions" c2 parameters)
                    else mret parameters);
      let parameters := Dict.set "wal_level" (VStr "logical") parameters in
      mret (Dict.set "citus.local_hostname" local_host parameters)
  | _ => Raise AttributeError
  end.

(** ** Slots *)

(** [prefix] at the start of [s], and the rest *)
Fixpoint after (prefix s : string) : option string :=
  match prefix, s with
  | "", _ => Some s
  | String c p, String d t => if Ascii.eqb c d then after p t else None
  | _, "" => None
  end.

(** [_[1-9][0-9]*] as often as it is there *)
Fixpoint numbers (fuel : nat) (s : string) : nat * string :=
  match fuel with
  | O => (0%nat, s)
  | S fuel =>
      match s with
      | String "_" (String c rest) =>
          if nonzero_digit c then let '(n, r) := numbers fuel (span is_digit rest).2 in (S n, r) else (0%nat, s)
      | _ => (0%nat, s)
      end
  end.

(** [CITUS_SLOT_NAME_RE]: the kind of the slot *)
Definition citus_slot_kind (name : string) : option string :=
  match after "citus_shard_" name with
  | None => None
  | Some s =>
      match (match after "move" s with Some r => Some ("move", r) | None => pair "split" <$> after "split" s end) with
      | None => None
      | Some (kind, s) =>
          match after "_slot" s with
          | None => None
          | Some s => let '(n, r) := numbers 4 s in
                      if ((n =? 2) || (n =? 3))%nat && ((r =? "")%string || (r =? newline)%string) then Some kind else None
          end
      end
  end.

Definition plugin_of (kind : string) : pyval := if (kind =? "move")%string then VStr "pgoutput" else VStr "citus".

(** [CitusHandler.ignore_replication_slot] *)
Definition citus_ignore_replication_slot (primary : bool) (database : pyval) (sl : dict pyval) : exc bool :=
  if negb primary then mret false else
  t ← item "type" sl;
  if negb (pyval_eqb t (VStr "logical")) then mret false else
  d ← item "database" sl;
  if negb (pyval_eqb d database) then mret false else
  n ← item "name" sl;
  match n with
  | VStr n => match citus_slot_kind n with
              | None => mret false
              | Some kind => p ← item "plugin" sl; mret (pyval_eqb (plugin_of kind) p)
              end
  | _ => Raise TypeError
  end.

Example slot_names :
  (citus_slot_kind "citus_shard_move_slot_1_2_3", citus_slot_kind "citus_shard_split_slot_10_20", citus_slot_kind "citus_shard_move_slot_1",
   citus_slot_kind "citus_shard_move_slot_1_02", citus_slot_kind "citus_shard_move_slot_1_2_3_4")
  = (Some "move", Some "split", None, None, None).
Proof. vm_compute. reflexivity. Qed.

(** * Properties of a node of a multi-node cluster *)

(** ** Stripped text *)

Lemma rstrip_cons c s : Str.rstrip (String c s) = match Str.rstrip s with "" => if Str.is_space c then "" else String c "" | t => String c t end.
Proof. done. Qed.

Lemma rstrip_idemp s : Str.rstrip (Str.rstrip s) = Str.rstrip s.
Proof.
  induction s as [|c s IH]; [done|]. rewrite rstrip_cons. destruct (Str.rstrip s) as [|d t] eqn:E.
  - destruct (Str.is_space c) eqn:Ec; [done|]. cbn. by rewrite Ec.
  - rewrite (rstrip_cons c (String d t)), IH. done.
Qed.

Lemma rstrip_tail c s : Str.rstrip (String c s) = String c s → Str.rstrip s = s.
Proof.
  rewrite rstrip_cons. destruct (Str.rstrip s) as [|d t] eqn:E; [|by intros [= ->]].
  destruct (Str.is_space c); [done|]. by intros [= <-].
Qed.

Lemma rstrip_lstrip s : Str.rstrip s = s → Str.rstrip (Str.lstrip s) = Str.lstrip s.
Proof.
  induction s as [|c s IH]; [done|]. intros H. cbn [Str.lstrip]. destruct (Str.is_space c); [|done].
  apply IH. by eapply rstrip_tail.
Qed.

Lemma lstrip_idemp s : Str.lstrip (Str.lstrip s) = Str.lstrip s.
Proof. induction s as [|c s IH]; [done|]. cbn. destruct (Str.is_space c) eqn:E; [done|]. cbn. by rewrite E. Qed.

Lemma strip_idemp s : Str.strip (Str.strip s) = Str.strip s.
Proof. unfold Str.strip. rewrite rstrip_lstrip by apply rstrip_idemp. apply lstrip_idemp. Qed.

Lemma lacks_rstrip sep s : lacks sep s = true → lacks sep (Str.rstrip s) = true.
Proof.
  unfold lacks. induction s as [|c s IH]; [done|]. cbn [Str.all]. intros [Hc Hs]%andb_prop. rewrite rstrip_cons. specialize (IH Hs).
  destruct (Str.rstrip s); [destruct (Str.is_space c); [done|]|]; cbn [Str.all] in *; by rewrite Hc.
Qed.

Lemma lacks_lstrip sep s : lacks sep s = true → lacks sep (Str.lstrip s) = true.
Proof.
  unfold lacks. induction s as [|c s IH]; [done|]. cbn. intros [Hc Hs]%andb_prop. destruct (Str.is_space c); [by apply IH|]. cbn. by rewrite Hc.
Qed.

Lemma split_pieces sep s : Forall (λ w, lacks sep w = true) (Str.split_on sep s).
Proof.
  unfold lacks. induction s as [|c s IH]; [by repeat constructor|]. cbn [Str.split_on]. case_decide as E; [by constructor|].
  destruct (Str.split_on sep s) as [|w ws]; [repeat constructor|apply Forall_cons in IH as [Hw Hws]; constructor; [|done]]; cbn.
  - destruct (Ascii.eqb_spec c sep); [done|done].
  - destruct (Ascii.eqb_spec c sep); [done|by rewrite Hw].
Qed.

(** ** The settings of Citus *)

Definition library (s : string) : Prop := lacks "," s = true ∧ Str.strip s = s ∧ s ≠ "" ∧ s ≠ "citus".

Lemma other_libraries_ok text : Forall library (other_libraries text).
Proof.
  apply Forall_forall. intros s Hs. unfold other_libraries in Hs. apply list_elem_of_In, List.filter_In in Hs as [Hs Hb].
  apply andb_prop in Hb as [H1 H2]. apply negb_true_iff, String.eqb_neq in H1, H2.
  apply list_elem_of_In, list_elem_of_fmap in Hs as (w & -> & Hw). pose proof (split_pieces "," text) as Hp. rewrite Forall_forall in Hp.
  split_and!; [|apply strip_idemp|done|done]. unfold Str.strip. by apply lacks_lstrip, lacks_rstrip, Hp.
Qed.

Lemma other_libraries_join l : Forall library l → other_libraries (Str.join "," ("citus" :: l)) = l.
Proof.
  intros Hl. unfold other_libraries. rewrite split_join; [|done|].
  - transitivity (List.filter (λ el, negb (el =? "")%string && negb (el =? "citus")%string) (map Str.strip l)); [reflexivity|].
    induction Hl as [|s l (H1 & H2 & H3 & H4) Hl IH]; [done|]. cbn [map List.filter]. rewrite H2.
    rewrite (proj2 (String.eqb_neq s "") H3), (proj2 (String.eqb_neq s "citus") H4). cbn [negb andb]. by rewrite IH.
  - constructor; [done|]. eapply Forall_impl; [exact Hl|]. by intros s [? _].
Qed.

Lemma with_citus_idemp text : with_citus (with_citus text) = with_citus text.
Proof. unfold with_citus at 1. unfold with_citus at 1. by rewrite other_libraries_join by apply other_libraries_ok. Qed.

Lemma item_get k d v : item k d = Ok v ↔ Dict.get k d = Some v.
Proof. unfold item. destruct (Dict.get k d); split; by intros [= ->]. Qed.

Lemma twice_zero v w : is_zero v = true → twice v = Ok w → w = VInt 0.
Proof. destruct v as [|b|z| | |]; try done; cbn; [destruct b; [done|]; by intros _ [= <-]|]. by intros ->%Z.eqb_eq [= <-]. Qed.

Lemma twice_is_zero v w : twice v = Ok w → is_zero w = true → is_zero v = true.
Proof.
  destruct v as [|b|z| | |]; try done; cbn; intros [= <-]; cbn; try done; [by destruct b|].
  intros H%Z.eqb_eq. apply Z.eqb_eq. lia.
Qed.

(** C?: The settings of Citus: its library comes first and only once, before the others as they were, and adjusting the settings again
    changes nothing. *)
Theorem adjust_idempotent local_host p q : adjust_postgres_gucs local_host p = Ok q →
  (∃ text, vget_or "shared_preload_libraries" (VStr "") p = VStr text ∧
     vget "shared_preload_libraries" q = VStr (Str.join "," ("citus" :: other_libraries text)) ∧ Forall library (other_libraries text)) ∧
  adjust_postgres_gucs local_host q = Ok q.
Proof.
  unfold adjust_postgres_gucs at 1. destruct (vget_or _ _ p) as [| | |text| |] eqn:Et; try done.
  set (p1 := Dict.set "shared_preload_libraries" _ p). intros H. exc_inv H as n. exc_inv H as p2. injection H as <-.
  set (q := Dict.set "citus.local_hostname" local_host (Dict.set "wal_level" (VStr "logical") p2)).
  match goal with A : item _ p1 = Ok n, B : (if is_zero n then _ else _) = Ok p2 |- _ => rename A into Hn; rename B into Hp2 end.
  apply item_get in Hn.
  assert (∃ n', Dict.get "max_prepared_transactions" p2 = Some n' ∧
    (is_zero n' = true → ∃ c, Dict.get "max_connections" p2 = Some c ∧ twice c = Ok n') ∧
    Dict.get "shared_preload_libraries" p2 = Some (VStr (with_citus text))) as (n' & Hn' & Hc & Hl).
  { destruct (is_zero n) eqn:Ez.
    - exc_inv Hp2 as c. exc_inv Hp2 as c2. injection Hp2 as <-. exists c2. rewrite Dict.get_set_eq, !Dict.get_set_ne by done.
      match goal with A : item "max_connections" p1 = Ok c |- _ => apply item_get in A end. split_and!; [done| |by apply Dict.get_set_eq].
      intros _. by exists c.
    - injection Hp2 as <-. exists n. split_and!; [done|congruence|by apply Dict.get_set_eq]. }
  assert (Dict.get "shared_preload_libraries" q = Some (VStr (with_citus text))) as Hq by (unfold q; by rewrite !Dict.get_set_ne).
  split.
  - exists text. split_and!; [done|unfold vget; by rewrite Hq|apply other_libraries_ok].
  - unfold adjust_postgres_gucs, vget_or. rewrite Hq. change (default (VStr "") (Some (VStr (with_citus text)))) with (VStr (with_citus text)). cbn beta iota zeta.
    rewrite with_citus_idemp, (Dict.set_same _ _ q Hq).
    assert (item "max_prepared_transactions" q = Ok n') as ->.
    { apply item_get. unfold q. by rewrite !Dict.get_set_ne. }
    cbn [mbind exc_bind].
    assert ((if is_zero n' then c ← item "max_connections" q; c2 ← twice c; mret (Dict.set "max_prepared_transactions" c2 q) else mret q) = Ok q) as ->.
    { destruct (is_zero n') eqn:Ez; [|done]. destruct (Hc eq_refl) as (c & Hcc & Htw).
      assert (item "max_connections" q = Ok c) as -> by (apply item_get; unfold q; by rewrite !Dict.get_set_ne).
      cbn [mbind exc_bind]. rewrite Htw. cbn [mbind exc_bind]. rewrite Dict.set_same; [done|]. unfold q. by rewrite !Dict.get_set_ne. }
    cbn [mbind exc_bind]. unfold mret, exc_ret. f_equal.
    assert (Dict.set "wal_level" (VStr "logical") q = q) as ->.
    { apply Dict.set_same. unfold q. rewrite Dict.get_set_ne by done. apply Dict.get_set_eq. }
    apply Dict.set_same, Dict.get_set_eq.
Qed.

Lemma adjust_idempotent_witness :
  let p := [("max_connections", VInt 101); ("max_prepared_transactions", VInt 0); ("shared_preload_libraries", VStr "foo , citus, bar ")] in
  let q := [("max_connections", VInt 101); ("max_prepared_transactions", VInt 202); ("shared_preload_libraries", VStr "citus,foo,bar");
            ("wal_level", VStr "logical"); ("citus.local_hostname", VStr "/tmp")] in
  (∃ text, vget_or "shared_preload_libraries" (VStr "") p = VStr text ∧
     vget "shared_preload_libraries" q = VStr (Str.join "," ("citus" :: other_libraries text)) ∧ Forall library (other_libraries text)) ∧
  adjust_postgres_gucs (VStr "/tmp") q = Ok q.
Proof. apply (adjust_idempotent (VStr "/tmp")). by vm_compute. Defined.

(** ** Slots of Citus *)

(** What the slot handler loads has no name among its attributes. *)
Lemma loaded_slot_nameless v r : Dict.get "name" (loaded_slot v r) = None.
Proof. unfold loaded_slot. destruct (sr_type r =? "logical")%string; [|done]. by destruct (100000 <=? v). Qed.

Lemma citus_ignore_nameless db d :
  Dict.get "type" d = Some (VStr "logical") → Dict.get "database" d = Some db → Dict.get "name" d = None →
  citus_ignore_replication_slot true db d = Raise KeyError.
Proof.
  intros Ht Hd Hn. unfold citus_ignore_replication_slot, item, mbind, exc_bind. rewrite Ht, Hd, Hn. cbn [negb].
  by rewrite (proj2 (pyval_eqb_eq db db) eq_refl), (proj2 (pyval_eqb_eq (VStr "logical") (VStr "logical")) eq_refl).
Qed.

Lemma citus_ignore_loaded db v r :
  sr_type r = "logical" → sr_database r = db → citus_ignore_replication_slot true db (loaded_slot v r) = Raise KeyError.
Proof.
  intros Ht Hd. apply citus_ignore_nameless; [| |apply loaded_slot_nameless]; unfold loaded_slot; rewrite Ht; cbn; [done|by rewrite Hd].
Qed.

(** On the primary of a group of Citus a logical slot in its database that the cluster does not want, such as those of its own
    resharding, stops [drop_unknown] unless the cluster is paused or the configuration ignores the slot: asked whether the slot is to
    be ignored, Citus looks for a name that the slots which were loaded do not have.  The lemma is for a configuration without
    [ignore_slots]. *)
Theorem citus_slot_stops_handler `{!Datetime} {W : Type} `{!PgSlots W} c name r db s v :
  (∀ sl w, ps_mpp_ignore sl w = citus_ignore_replication_slot (ps_is_primary w) db sl) →
  ps_is_primary s.2 = true → is_paused (ps_config s.2) = false → ignore_slots_matchers (ps_config s.2) = VList [] →
  Dict.get name (known_slots s.1) = Some (loaded_slot v r) → sr_type r = "logical" → sr_database r = db →
  drop_unknown (W := W) c name s = (Raise KeyError, s).
Proof.
  intros Hcitus Hp Hpause Hm Hk Ht Hd. unfold drop_unknown, mbind, slotM_bind, eff_bind, self, look, gets. rewrite Hk. cbn [id]. rewrite Hpause.
  unfold ignore_replication_slot. rewrite Hm. cbn [any_matcher].
  assert ((match config c with Some _ => mret false | None => mret false end : exc bool) = Ok false) as -> by by destruct (config c).
  cbn [mbind exc_bind]. rewrite Hcitus, Hp, (citus_ignore_loaded db v r Ht Hd). done.
Qed.

#[local] Existing Instance text_datetime.

(** A primary of Citus on which shards are being moved *)
#[local] Instance moving : PgSlots () := {|
  ps_major_version _ := 160000; ps_is_primary _ := true; ps_replay_lsn _ := 0; ps_config _ := [];
  ps_postgresql _ := MkPostgresql "a" PRIMARY true; ps_load w := (Ok [], w); ps_drop _ w := (Ok None, w);
  ps_create_physical _ w := (Ok (), w); ps_advance _ _ w := (Ok (), w); ps_cursor _ w := (Ok (), w);
  ps_create_logical _ _ _ w := (Ok (), w); ps_leader_slots _ _ w := (Ok [], w); ps_leader_copy _ _ w := (Ok [], w);
  ps_leader_connect _ w := (Ok (), w); ps_stop w := (Ok true, w); ps_start w := (Ok (), w); ps_install _ _ w := (Ok (), w);
  ps_mpp_ignore sl _ := citus_ignore_replication_slot true (VStr "citus") sl;
|}.

Definition shard_move : SlotRow :=
  MkSlotRow "citus_shard_move_slot_1_2_3" "logical" VNone VNone (VStr "pgoutput") (VStr "citus") (VInt 5) (VInt 700) (VInt 100).

Lemma citus_slot_stops_handler_witness :
  let s := (MkSlotsHandler false false [("citus_shard_move_slot_1_2_3", loaded_slot 160000 shard_move)] [] advance_init [], ()) in
  drop_unknown cluster_empty "citus_shard_move_slot_1_2_3" s = (Raise KeyError, s).
Proof.
  intros s. by apply (citus_slot_stops_handler cluster_empty "citus_shard_move_slot_1_2_3" shard_move (VStr "citus") s 160000).
Defined.
