(* ===== verification/Dcs.v ===== *)
(** * The DCS client ([patroni/dcs/__init__.py], [AbstractDCS])

    [Backend] is the interface of the abstract methods each DCS implements, on a
    state [W] of the outside world; an operation may raise [DCSError] after having
    changed the world.  [AbstractDCS] holds the client's own state, and the
    methods are computations on both.  [time.time()] is [clock], in seconds.
    Locks and the [event] are not modelled: an operation is one step. *)
From S2P Require Import Prelude Lexing PyDict PyVal PyNum Json Utils Tags DcsData GlobalConfig Slots.

Open Scope string_scope.
Open Scope Z_scope.

Class Backend `{!Datetime} (W : Type) := {
  clock : W → Z;
  ttl : W → Z;
  _load_cluster : string → W → exc Cluster * W;
  _load_groups : string → W → exc (list (Z * Cluster)) * W;
  _write_leader_optime : string → W → exc bool * W;
  _write_status : string → W → exc bool * W;
  _write_failsafe : string → W → exc bool * W;
  _update_leader : option Leader → W → exc bool * W;
  attempt_to_acquire_leader : W → exc bool * W;
  set_failover_value : string → pyval → W → exc bool * W;
  set_sync_state_value : string → pyval → W → exc pyval * W;
  _delete_leader : Leader → W → exc bool * W;
}.

(** The MPP object: whether it is enabled, the group, whether this group is the
    coordinator's and the coordinator's group *)
Record AbstractMPP := MkMPP { mpp_enabled : bool; mpp_group : Z; mpp_coordinator : bool; coordinator_group_id : Z }.

Record AbstractDCS `{!Datetime} := MkDCS {
  _mpp : AbstractMPP;
  _name : string;
  _base_path : string;
  _cluster : option Cluster;
  _cluster_valid_till : Z;
  _last_lsn : pyval;
  _last_seen : Z;
  _last_status : dict pyval;
  _last_retain_slots : dict Z;
  _last_failsafe : option (dict pyval);
}.
Arguments MkDCS {_} _ _ _ _ _ _ _ _ _ _.

(** [re.sub('/+', '/', s)] *)
Fixpoint squeeze (s : string) : string :=
  match s with
  | String "/" ((String "/" _) as s') => squeeze s'
  | String c s' => String c (squeeze s')
  | "" => ""
  end.

Section client.
Context `{!Datetime} {W : Type} `{!Backend W} `{!Json}.
Implicit Types (d : AbstractDCS).

(** [__init__] *)
Definition dcs_init (mpp : AbstractMPP) (name namespace scope : string) : AbstractDCS :=
  MkDCS mpp name (squeeze (Str.join "/" [""; namespace; scope])) None 0 (VInt 0) 0
    [("retain_slots", VList [])] [] (Some []).

(** [client_path] *)
Definition client_path d (path : string) : string :=
  Str.join "/" (_base_path d ::
    (if mpp_enabled (_mpp d) then [pretty (mpp_group (_mpp d))] else []) ++
    [lstrip_chars (Ascii.eqb "/") path])%list.

Definition initialize_path d := client_path d "initialize".
Definition config_path d := client_path d "config".
Definition members_path d := client_path d "members/".
Definition member_path d := client_path d ("members/" +:+ _name d).
Definition leader_path d := client_path d "leader".
Definition failover_path d := client_path d "failover".
Definition history_path d := client_path d "history".
Definition status_path d := client_path d "status".
Definition leader_optime_path d := client_path d "optime/leader".
Definition sync_path d := client_path d "sync".
Definition failsafe_path d := client_path d "failsafe".

(** ** Computations *)

Definition dcsM (A : Type) : Type := AbstractDCS * W → exc A * (AbstractDCS * W).

#[global] Instance dcsM_ret : MRet dcsM := λ A a s, (Ok a, s).
#[global] Instance dcsM_bind : MBind dcsM := λ A B f m s,
  let '(r, s') := m s in match r with Ok a => f a s' | Raise e => (Raise e, s') end.

Definition self : dcsM AbstractDCS := λ s, (Ok s.1, s).
Definition modify (f : AbstractDCS → AbstractDCS) : dcsM () := λ s, (Ok (), (f s.1, s.2)).
Definition call {A} (op : W → exc A * W) : dcsM A := λ s, let '(r, w) := op s.2 in (r, (s.1, w)).
Definition lift {A} (r : exc A) : dcsM A := λ s, (r, s).
Definition time : dcsM Z := λ s, (Ok (clock s.2), s).
Definition get_ttl : dcsM Z := λ s, (Ok (ttl s.2), s).
(** [try: m except Exception: h; raise] *)
Definition on_error {A} (m : dcsM A) (h : dcsM ()) : dcsM A := λ s,
  let '(r, s') := m s in
  match r with Ok _ => (r, s') | Raise e => (Raise e, (h s').2) end.

Definition set_cluster_view (c : option Cluster) (valid_till : Z) d : AbstractDCS :=
  MkDCS (_mpp d) (_name d) (_base_path d) c valid_till (_last_lsn d) (_last_seen d)
    (_last_status d) (_last_retain_slots d) (_last_failsafe d).
Definition set_last_seen (t : Z) d : AbstractDCS :=
  MkDCS (_mpp d) (_name d) (_base_path d) (_cluster d) (_cluster_valid_till d) (_last_lsn d) t
    (_last_status d) (_last_retain_slots d) (_last_failsafe d).
Definition set_last_lsn (v : pyval) d : AbstractDCS :=
  MkDCS (_mpp d) (_name d) (_base_path d) (_cluster d) (_cluster_valid_till d) v (_last_seen d)
    (_last_status d) (_last_retain_slots d) (_last_failsafe d).
Definition set_last_status (st : dict pyval) d : AbstractDCS :=
  MkDCS (_mpp d) (_name d) (_base_path d) (_cluster d) (_cluster_valid_till d) (_last_lsn d) (_last_seen d)
    st (_last_retain_slots d) (_last_failsafe d).
Definition set_last_retain_slots (r : dict Z) d : AbstractDCS :=
  MkDCS (_mpp d) (_name d) (_base_path d) (_cluster d) (_cluster_valid_till d) (_last_lsn d) (_last_seen d)
    (_last_status d) r (_last_failsafe d).
Definition set_last_failsafe (f : option (dict pyval)) d : AbstractDCS :=
  MkDCS (_mpp d) (_name d) (_base_path d) (_cluster d) (_cluster_valid_till d) (_last_lsn d) (_last_seen d)
    (_last_status d) (_last_retain_slots d) f.

(** ** The view of the cluster *)

(** [__get_postgresql_cluster] without a path *)
Definition __get_postgresql_cluster : dcsM Cluster :=
  d ← self; call (_load_cluster (client_path d "")).

(** [get_mpp_coordinator]: every error is logged and gives [None] *)
Definition get_mpp_coordinator : dcsM (option Cluster) := λ s,
  let path := _base_path s.1 +:+ "/" +:+ pretty (coordinator_group_id (_mpp s.1)) +:+ "/" in
  let '(r, s') := call (_load_cluster path) s in
  (Ok (match r with Ok c => Some c | Raise _ => None end), s').

(** [groups.pop(group, default)] and the rest of the dictionary *)
Fixpoint pop_group (group : Z) (groups : list (Z * Cluster)) : option Cluster * list (Z * Cluster) :=
  match groups with
  | [] => (None, [])
  | (k, c) :: groups' =>
      if k =? group then (Some c, groups')
      else let '(r, rest) := pop_group group groups' in (r, (k, c) :: rest)
  end.

Fixpoint set_group (k : Z) (c : Cluster) (groups : list (Z * Cluster)) : list (Z * Cluster) :=
  match groups with
  | [] => [(k, c)]
  | (k', c') :: groups' => if k =? k' then (k', c) :: groups' else (k', c') :: set_group k c groups'
  end.

Definition set_workers (ws : list (Z * Cluster)) (c : Cluster) : Cluster :=
  MkCluster (initialize c) (config c) (leader c) (status c) (members c) (failover c) (sync c) (history c)
    (failsafe c) ws.

(** [_get_mpp_cluster] *)
Definition _get_mpp_cluster : dcsM Cluster :=
  d ← self;
  groups ← call (_load_groups (_base_path d +:+ "/"));
  let '(c, rest) := pop_group (coordinator_group_id (_mpp d)) groups in
  let c := default cluster_empty c in
  mret (set_workers (foldl (λ ws kc, set_group kc.1 kc.2 ws) (workers c) rest) c).

(** [reset_cluster] *)
Definition reset_cluster : dcsM () := modify (set_cluster_view None 0).

(** [get_cluster] *)
Definition get_cluster : dcsM Cluster :=
  d ← self;
  c ← on_error (if mpp_coordinator (_mpp d) then _get_mpp_cluster else __get_postgresql_cluster) reset_cluster;
  now ← time;
  t ← get_ttl;
  modify (set_cluster_view (Some c) (now + t));;
  now ← time;
  modify (set_last_seen now);;
  let st := [("optime", VInt (last_lsn (status c))); ("retain_slots", VList (retain_slots (status c)))] in
  let st := match st_slots (status c) with
            | Some ((_ :: _) as s) => Dict.set "slots" (VDict s) st
            | _ => st
            end in
  modify (set_last_status st);;
  modify (set_last_failsafe (failsafe c));;
  mret c.

(** [cluster] *)
Definition cached_cluster : dcsM (option Cluster) :=
  d ← self; now ← time;
  mret (if now <? _cluster_valid_till d then _cluster d else None).

(** ** The [/status] and [/failsafe] keys *)

(** The missing keys taken from the last known status *)
Definition carry_over (old : dict pyval) (value : dict pyval) (name : string) : dict pyval :=
  if negb (Dict.mem name value) && truthy (vget name old) then Dict.set name (vget name old) value else value.

Definition status_value (old value : dict pyval) : dict pyval :=
  List.filter (λ kv, negb (pyval_eqb kv.2 VNone)) (foldl (carry_over old) value ["slots"; "retain_slots"]).

(** [value[name]] *)
Definition need_key (name : string) (value : dict pyval) : exc pyval :=
  match Dict.get name value with Some v => Ok v | None => Raise KeyError end.

(** The first half of [write_status]: the [/status] key, when the value changed *)
Definition publish_status (value : dict pyval) : dcsM () :=
  d ← self;
  if deep_compare (_last_status d) value then mret ()
  else written ← call (_write_status (dumps (VDict value)));
       if written : bool then modify (set_last_status value) else mret ().

(** The second half: [/optime/leader], when an old member needs it *)
Definition publish_optime (value : dict pyval) : dcsM () :=
  c ← cached_cluster;
  match c with
  | Some c =>
      match (if cluster_truthy c then min_version c else None) with
      | Some ((_ :: _) as v) =>
          if tuple_ltb v [2; 1; 0] then
            d ← self;
            optime ← lift (need_key "optime" value);
            if negb (pyval_eqb (_last_lsn d) optime) then
              modify (set_last_lsn optime);;
              call (_write_leader_optime (py_str optime));;
              mret ()
            else mret ()
          else mret ()
      | _ => mret ()
      end
  | None => mret ()
  end.

(** [write_status] *)
Definition write_status (value : dict pyval) : dcsM () :=
  d ← self;
  let value := status_value (_last_status d) value in
  publish_status value;;
  publish_optime value.

(** [write_leader_optime] *)
Definition write_leader_optime (last_lsn : Z) : dcsM () := write_status [("optime", VInt last_lsn)].

(** [write_failsafe] *)
Definition write_failsafe (value : dict pyval) : dcsM () :=
  d ← self;
  if match _last_failsafe d with Some f => deep_compare f value | None => false end then mret ()
  else written ← call (_write_failsafe (dumps (VDict value)));
       if written : bool then modify (set_last_failsafe (Some value)) else mret ().

(** [_build_retain_slots]: the slots of members seen on this leader, and the expiry of
    those not seen for [member_slots_ttl] *)
Definition member_slot_names (name : string) (c : Cluster) : list string :=
  let '(names, found_self) :=
    foldl (λ acc m, ((if nostream m then acc.1 else slot_name_from_member_name (m_name m) :: acc.1),
                     (m_name m =? name)%string)) ([], false) (members c) in
  if found_self then names else slot_name_from_member_name name :: names.

Definition expire (now member_ttl : Z) (slots : dict Z) : dict Z :=
  List.filter (λ kv, negb (kv.2 + member_ttl <=? now)) slots.

Definition _build_retain_slots (g : GlobalConfig) (c : Cluster) (slots : option (dict Z)) : dcsM pyval :=
  timestamp ← time;
  d ← self;
  (match slots with
   | Some ((_ :: _) as slots) =>
       let names := member_slot_names (_name d) c in
       permanent ← lift (permanent_physical_slots g c);
       let seen := List.filter (λ s, bool_decide (s ∈ names) && negb (Dict.mem s permanent)) (Dict.keys slots) in
       modify (λ d, set_last_retain_slots
                 (Dict.update (_last_retain_slots d) (map (λ s, (s, timestamp)) seen)) d)
   | _ => mret ()
   end);;
  d ← self;
  member_ttl ← lift (match _last_retain_slots d with [] => Ok 0 | _ => member_slots_ttl g end);
  modify (λ d, set_last_retain_slots (expire timestamp member_ttl (_last_retain_slots d)) d);;
  d ← self;
  mret (match Str.sorted (Dict.keys (_last_retain_slots d)) with
        | [] => VNone
        | l => VList (map VStr l)
        end).

(** ** The leader key *)

(** [update_leader] *)
Definition update_leader (g : GlobalConfig) (c : Cluster) (last_lsn : option Z) (slots : option (dict Z))
    (failsafe : option (dict pyval)) : dcsM bool :=
  ret ← call (_update_leader (leader c));
  (match last_lsn with
   | Some lsn =>
       if (ret : bool) && negb (lsn =? 0) then
         retain ← _build_retain_slots g c slots;
         let sl := match slots with Some ((_ :: _) as s) => VDict (map (λ kv, (kv.1, VInt kv.2)) s) | _ => VNone end in
         write_status [("optime", VInt lsn); ("slots", sl); ("retain_slots", retain)]
       else mret ()
   | None => mret ()
   end);;
  (match failsafe with
   | Some f => if (ret : bool) then write_failsafe f else mret ()
   | None => mret ()
   end);;
  mret ret.

(** [acquire_leader_lock] *)
Definition acquire_leader_lock : dcsM bool :=
  ret ← call attempt_to_acquire_leader;
  ((if ret : bool then
     timestamp ← time;
     d ← self;
     retained ← lift (need_key "retain_slots" (_last_status d));
     match retained with
     | VList l => names ← lift (slot_names l);
                  modify (set_last_retain_slots (Dict.of_items (map (λ s, (s, timestamp)) names)))
     | _ => lift (Raise TypeError)
     end
   else mret ()) : dcsM ());;
  mret ret.

(** [delete_leader] *)
Definition delete_leader (l : option Leader) (last_lsn : option Z) : dcsM bool :=
  (match last_lsn with
   | Some lsn => if lsn =? 0 then mret () else write_status [("optime", VInt lsn)]
   | None => mret ()
   end);;
  match l with Some l => call (_delete_leader l) | None => mret false end.

(** ** The [/failover] and [/sync] keys *)

(** The value [manual_failover] writes; an argument is falsy when absent or empty *)
Definition failover_value (leader candidate : option string) (scheduled_at : option datetime) : dict pyval :=
  let given key v := match v with
                     | Some s => if (s =? "")%string then [] else [(key, VStr s)]
                     | None => []
                     end in
  (given "leader" leader ++ given "member" candidate ++
   match scheduled_at with Some t => [("scheduled_at", VStr (isoformat t))] | None => [] end)%list.

Definition manual_failover (leader candidate : option string) (scheduled_at : option datetime) (version : pyval)
    : dcsM bool :=
  call (set_failover_value (dumps (VDict (failover_value leader candidate scheduled_at))) version).

(** [sync_state] *)
Definition sync_state (leader : option string) (sync_standby : list string) (quorum : option Z) : dict pyval :=
  [("leader", match leader with Some l => VStr l | None => VNone end);
   ("quorum", match quorum with Some q => VInt q | None => VNone end);
   ("sync_standby", match sync_standby with [] => VNone | _ => VStr (Str.join "," (Str.sorted sync_standby)) end)].

(** [write_sync_state] *)
Definition write_sync_state (leader : option string) (sync_standby : list string) (quorum : option Z)
    (version : pyval) : dcsM (option SyncState) :=
  let sync_value := sync_state leader sync_standby quorum in
  ret ← call (set_sync_state_value (dumps (VDict sync_value)) version);
  mret (match ret with
        | VBool _ => None
        | _ => Some (sync_from_node ret (VDict sync_value))
        end).
End client.

(** Runs the primitive computations. *)
Ltac run_dcs :=
  cbv beta iota delta [mbind dcsM_bind mret dcsM_ret self lift modify call Dcs.time get_ttl on_error]; cbn [fst snd].

(** * Properties of the DCS client

    What a node writes under [/sync], [/status] and [/failover] is what the other
    nodes read; the copy of [/status] the client keeps stays the one in the DCS;
    replication slots of absent members are retained exactly as long as
    [member_slots_ttl] says. *)

(** ** The [/sync] key *)

(** A name that can stand in a comma separated list *)
Definition clean (name : string) : Prop :=
  name ≠ "" ∧ Str.strip name = name ∧ lacks "," name = true.

Lemma str_to_list_join names : Forall clean names → names ≠ [] → _str_to_list (Str.join "," names) = names.
Proof.
  intros Hc Hne. unfold _str_to_list. rewrite (split_join ",").
  - clear Hne. induction Hc as [|x l (Hx & Hs & _) Hl IH]; [done|]. cbn [map List.filter]. rewrite Hs.
    destruct (String.eqb_spec x ""); [done|]. cbn [negb]. by rewrite IH.
  - done.
  - eapply Forall_impl; [exact Hc|]. by intros x (_ & _ & ?).
Qed.

Lemma sorted_clean names : Forall clean names → Forall clean (Str.sorted names).
Proof. rewrite !Forall_forall. intros Hc x Hx. apply Hc. by apply Str.elem_of_sorted. Qed.

Lemma lower_str_to_list s : _str_to_list (Str.lower s) = map Str.lower (_str_to_list s).
Proof.
  unfold _str_to_list. rewrite lower_split. induction (Str.split_on "," s) as [|x l IH]; [done|].
  cbn [map List.filter]. rewrite lower_strip, IH.
  by destruct (Str.strip x) as [|c t].
Qed.

Lemma lower_app s t : Str.lower (s +:+ t) = Str.lower s +:+ Str.lower t.
Proof. induction s as [|c s IH]; [done|]. rewrite !Str.str_app_cons. cbn [Str.lower]. by rewrite IH. Qed.

Lemma split_on_concat sep s t :
  Str.split_on sep (s +:+ String sep t) = (Str.split_on sep s ++ Str.split_on sep t)%list.
Proof.
  induction s as [|c s IH].
  - change ("" +:+ String sep t) with (String sep t). cbn [Str.split_on]. by rewrite decide_True.
  - rewrite Str.str_app_cons. cbn [Str.split_on]. rewrite IH. case_decide; [done|].
    destruct (Str.split_on sep s) eqn:E; [|done]. by destruct s; simpl in E; repeat case_match.
Qed.

Lemma str_to_list_concat s t : _str_to_list (s +:+ "," +:+ t) = (_str_to_list s ++ _str_to_list t)%list.
Proof.
  unfold _str_to_list. rewrite Str.str_app_single, split_on_concat, map_app. apply List.filter_app.
Qed.

Lemma str_to_list_clean name : clean name → _str_to_list name = [name].
Proof. intros Hc. apply (str_to_list_join [name]); [by constructor|done]. Qed.

(** A node is found in the [/sync] key exactly when it is one of its voters, whatever
    the case of the letters; with [check_leader], also when it is the leader. *)
Theorem sync_matches (leader standby name : string) (version : pyval) (quorum : Z) (names : list string) :
  clean leader → name ≠ "" →
  let s := MkSync version (VStr leader) (VStr standby) quorum in
  voters s = Ok names →
  matches s (Some name) false = Ok (bool_decide (Str.lower name ∈ map Str.lower names)) ∧
  matches s (Some name) true =
    Ok (bool_decide (Str.lower name ∈ map Str.lower names ∨ Str.lower name = Str.lower leader)).
Proof.
  intros Hl Hn s Hv. pose proof (str_to_list_clean _ Hl) as Hll. destruct Hl as (Hl & _).
  assert (truthy (VStr leader) = true) as Ht by (by destruct leader).
  assert (names = _str_to_list standby) as ->.
  { subst s. unfold voters, s_is_empty in Hv. cbn [s_leader s_sync_standby] in Hv. rewrite Ht in Hv.
    cbn [negb andb] in Hv. destruct standby as [|ch standby]; [by injection Hv|]. by injection Hv. }
  unfold matches. subst s. unfold s_is_empty. cbn [s_leader s_sync_standby]. rewrite Ht.
  assert ((name =? "")%string = false) as -> by (by apply String.eqb_neq). cbn [negb andb or_empty].
  split; cbn [mbind exc_bind mret exc_ret or_empty].
  - by rewrite Str.str_app_nil_r, lower_str_to_list.
  - rewrite lower_str_to_list, str_to_list_concat, Hll, map_app.
    f_equal. apply bool_decide_ext. rewrite elem_of_app. cbn [map]. by rewrite list_elem_of_singleton.
Qed.

Section sync.
Context `{!Json}.

Lemma sync_state_json leader names quorum : json_wf (VDict (sync_state leader names quorum)).
Proof.
  unfold sync_state. split; [solve_wf|]. destruct leader, quorum, names; simpl; tauto.
Qed.

Lemma py_int_quorum q : (if truthy (VInt q) then py_int (VInt q) else Ok 0) = Ok q.
Proof. simpl. by destruct (Z.eqb_spec q 0) as [->|]. Qed.

Lemma sync_from_value version leader names q : leader ≠ "" →
  sync_from_node version (VDict (sync_state (Some leader) names (Some q))) =
  MkSync version (VStr leader) (match names with [] => VNone | _ => VStr (Str.join "," (Str.sorted names)) end) q.
Proof.
  intros Hl. assert (truthy (VStr leader) = true) as Ht by (by destruct leader).
  unfold sync_from_node, sync_of_value. cbn [mbind exc_bind]. set (d := sync_state _ _ _).
  assert (vget "leader" d = VStr leader) as -> by reflexivity.
  assert (vget "quorum" d = VInt q) as -> by reflexivity.
  assert (vget "sync_standby" d = match names with [] => VNone | _ => VStr (Str.join "," (Str.sorted names)) end)
    as -> by reflexivity.
  rewrite Ht. cbn [andb]. by rewrite py_int_quorum.
Qed.

(** The synchronisation state a leader writes is the one every node reads: the JSON
    text put in the DCS parses to the state returned to the writer, with the same
    leader, the same quorum and, sorted, the same nodes. *)
Theorem sync_state_roundtrip (leader : string) (names : list string) (quorum : Z) (version : pyval) :
  leader ≠ "" → Forall clean names →
  let value := VDict (sync_state (Some leader) names (Some quorum)) in
  let read := sync_from_node version (VStr (dumps value)) in
  read = sync_from_node version value ∧
  s_leader read = VStr leader ∧ s_quorum read = quorum ∧ voters read = Ok (Str.sorted names).
Proof.
  intros Hl Hc value read.
  assert (read = sync_from_node version value) as Heq.
  { subst read value. unfold sync_from_node at 1. pose proof (sync_state_json (Some leader) names (Some quorum)).
    by rewrite dumps_nonempty, loads_dumps. }
  split; [done|]. rewrite Heq. subst value. rewrite sync_from_value by done. split_and!; [done..|].
  unfold voters, s_is_empty. cbn [s_leader s_sync_standby].
  assert (truthy (VStr leader) = true) as -> by (by destruct leader). cbn [negb].
  destruct names as [|n names]; [done|]. cbn [andb need_str].
  pose proof (sorted_clean _ Hc) as Hs.
  assert (Str.sorted (n :: names) ≠ []) as Hne.
  { intros Hn. pose proof (Str.length_sorted (n :: names)) as Hlen. by rewrite Hn in Hlen. }
  assert (truthy (VStr (Str.join "," (Str.sorted (n :: names)))) = true) as ->.
  { destruct (Str.sorted (n :: names)) as [|x [|y l]]; [done| |];
      apply Forall_cons in Hs as [(Hx & _) _]; by destruct x. }
  simpl. by rewrite str_to_list_join.
Qed.
End sync.

(** ** The [/failover] key *)

Definition given (v : option string) : pyval :=
  match v with Some s => if (s =? "")%string then VNone else VStr s | None => VNone end.

Section failover.
Context `{!Json, !Datetime}.

Lemma failover_value_json leader candidate scheduled_at :
  json_wf (VDict (failover_value leader candidate scheduled_at)).
Proof.
  unfold failover_value. destruct leader as [l|], candidate as [c|], scheduled_at as [t|];
    repeat destruct (_ =? _)%string; (split; [solve_wf|simpl; tauto]).
Qed.

(** A switchover or failover request is read back as it was made: leader, candidate
    and scheduled time survive the JSON text put in the DCS; an empty name is no name. *)
Theorem failover_roundtrip leader candidate scheduled_at version :
  failover_from_node version (VStr (dumps (VDict (failover_value leader candidate scheduled_at)))) =
  Ok (MkFailover version (given leader) (given candidate) scheduled_at).
Proof.
  pose proof (failover_value_json leader candidate scheduled_at) as Hwf.
  unfold failover_from_node. rewrite dumps_nonempty by done. unfold json_loads.
  rewrite loads_dumps by done. unfold failover_of_dict. set (d := failover_value _ _ _).
  assert (vget "leader" d = given leader) as ->.
  { unfold d, failover_value, given. destruct leader as [l|], candidate as [c|], scheduled_at as [t|];
      repeat destruct (_ =? _)%string; reflexivity. }
  assert (vget "member" d = given candidate) as ->.
  { unfold d, failover_value, given. destruct leader as [l|], candidate as [c|], scheduled_at as [t|];
      repeat destruct (_ =? _)%string; reflexivity. }
  assert (vget "scheduled_at" d = match scheduled_at with Some t => VStr (isoformat t) | None => VNone end) as ->.
  { unfold d, failover_value. destruct leader as [l|], candidate as [c|], scheduled_at as [t|];
      repeat destruct (_ =? _)%string; reflexivity. }
  destruct scheduled_at as [t|]; [|done].
  assert (truthy (VStr (isoformat t)) = true) as ->.
  { pose proof (isoformat_nonempty t) as Hne. by destruct (isoformat t). }
  by rewrite parse_isoformat.
Qed.
End failover.

(** ** The [/status] key *)

Section status.
Context `{!Json}.

Definition opt_slots (slots : dict Z) : pyval :=
  match slots with [] => VNone | _ => VDict (map (λ kv, (kv.1, VInt kv.2)) slots) end.
Definition opt_names (names : list string) : pyval :=
  match names with [] => VNone | _ => VList (map VStr names) end.

Lemma json_wf_ints (slots : dict Z) : Dict.wf slots → json_wf (VDict (map (λ kv, (kv.1, VInt kv.2)) slots)).
Proof.
  intros Hwf. split.
  - unfold Dict.wf, Dict.keys in *. rewrite <-list_fmap_compose. exact Hwf.
  - clear Hwf. by induction slots.
Qed.

Lemma json_wf_names names : json_wf (VList (map VStr names)).
Proof. simpl. by induction names. Qed.

Lemma status_value_fresh lsn slots names :
  status_value [] [("optime", VInt lsn); ("slots", opt_slots slots); ("retain_slots", opt_names names)] =
  (("optime", VInt lsn) :: (if is_nil slots then [] else [("slots", opt_slots slots)])
    ++ (if is_nil names then [] else [("retain_slots", opt_names names)]))%list.
Proof. by destruct slots, names. Qed.

(** The status the leader publishes is what the other nodes read from [/status]: the
    WAL position, the positions of the slots (nothing when there is none) and the names
    of the retained slots. *)
Theorem status_roundtrip lsn (slots : dict Z) (names : list string) :
  Dict.wf slots →
  status_from_node (VStr (dumps (VDict (status_value []
    [("optime", VInt lsn); ("slots", opt_slots slots); ("retain_slots", opt_names names)])))) =
  MkStatus lsn (if is_nil slots then None else Some (map (λ kv, (kv.1, VInt kv.2)) slots)) (map VStr names).
Proof.
  intros Hwf. rewrite status_value_fresh.
  assert (json_wf (VDict (("optime", VInt lsn) :: (if is_nil slots then [] else [("slots", opt_slots slots)])
    ++ (if is_nil names then [] else [("retain_slots", opt_names names)])))) as Hj.
  { pose proof (json_wf_ints slots Hwf) as H1. pose proof (json_wf_names names) as H2.
    destruct slots, names; (split; [solve_wf|]); split_and?; try done. }
  unfold status_from_node, nested_json at 1. rewrite loads_dumps by done.
  by destruct slots, names.
Qed.
End status.

(** ** Retention of replication slots *)

Section retention.
Context `{!Datetime} {W : Type} `{!Backend W}.

(** The slot is seen on the leader, belongs to a member and is not permanent. *)
Definition observed (d : AbstractDCS) (c : Cluster) (slots : option (dict Z)) (permanent : dict pyval)
    (name : string) : Prop :=
  ∃ sl, slots = Some sl ∧ name ∈ Dict.keys sl ∧ name ∈ member_slot_names (_name d) c ∧ name ∉ Dict.keys permanent.

Definition seen_slots (d : AbstractDCS) (c : Cluster) (slots : option (dict Z)) (permanent : dict pyval) : list string :=
  match slots with
  | Some sl => List.filter (λ s, bool_decide (s ∈ member_slot_names (_name d) c) && negb (Dict.mem s permanent))
                 (Dict.keys sl)
  | None => []
  end.

Lemma elem_of_seen d c slots permanent name :
  name ∈ seen_slots d c slots permanent ↔ observed d c slots permanent name.
Proof.
  unfold seen_slots, observed. destruct slots as [sl|]; [|set_solver].
  rewrite list_elem_of_In, List.filter_In, <-list_elem_of_In, andb_true_iff, bool_decide_eq_true, negb_true_iff,
    Dict.mem_false. naive_solver.
Qed.

Lemma wf_expire now member_ttl (slots : dict Z) : Dict.wf slots → Dict.wf (expire now member_ttl slots).
Proof.
  unfold Dict.wf, Dict.keys, expire. induction slots as [|[k v] l IH]; simpl; [done|].
  intros [Hni Hnd]%NoDup_cons. destruct (negb _); simpl; [|auto]. apply NoDup_cons. split; [|auto].
  intros (kv & Hk & Hin)%list_elem_of_fmap. apply Hni. rewrite Hk. apply (list_elem_of_fmap_2 fst).
  apply list_elem_of_In, List.filter_In in Hin as [Hin _]. by apply list_elem_of_In.
Qed.

(** What one call computes *)
Lemma build_retain_slots_run g c slots d w permanent member_ttl :
  permanent_physical_slots g c = Ok permanent → member_slots_ttl g = Ok member_ttl →
  let after := Dict.update (_last_retain_slots d) (map (λ s, (s, clock w)) (seen_slots d c slots permanent)) in
  let kept := expire (clock w) member_ttl after in
  _build_retain_slots g c slots (d, w) =
    (Ok (opt_names (Str.sorted (Dict.keys kept))), (set_last_retain_slots kept d, w)).
Proof.
  intros Hp Httl after kept.
  assert (∀ d1, _last_retain_slots d1 = after → set_last_retain_slots kept d1 = set_last_retain_slots kept d →
    (d ← self;
     member_ttl ← lift (match _last_retain_slots d with [] => Ok 0 | _ => member_slots_ttl g end);
     modify (λ d, set_last_retain_slots (expire (clock w) member_ttl (_last_retain_slots d)) d);;
     d ← self;
     mret (match Str.sorted (Dict.keys (_last_retain_slots d)) with [] => VNone | l => VList (map VStr l) end)) (d1, w)
    = (Ok (opt_names (Str.sorted (Dict.keys kept))), (set_last_retain_slots kept d, w))) as Hrest.
  { intros d1 Ha Hs. run_dcs. rewrite Ha, Httl.
    assert ((match after with [] => Ok 0 | _ => Ok member_ttl end) = Ok (if after is [] then 0 else member_ttl)) as ->
      by (by destruct after).
    run_dcs.
    assert (expire (clock w) (if after is [] then 0 else member_ttl) after = kept) as -> by (by subst kept; destruct after).
    rewrite Hs. change (_last_retain_slots (set_last_retain_slots kept d)) with kept. by destruct (Str.sorted (Dict.keys kept)). }
  unfold _build_retain_slots. destruct slots as [[|kv sl]|].
  - apply Hrest; by destruct d.
  - run_dcs. rewrite Hp. apply Hrest; done.
  - apply Hrest; by destruct d.
Qed.

(** A replication slot is retained exactly while it has been seen less than
    [member_slots_ttl] ago: after the leader has built the list at time [now], the slots
    on it are those observed now or at a time [t] with [now < t + ttl], each with the
    time it was last observed; the list is sorted, and [None] when empty. *)
Theorem retention_policy g c slots d w permanent member_ttl :
  permanent_physical_slots g c = Ok permanent → member_slots_ttl g = Ok member_ttl →
  Dict.wf (_last_retain_slots d) →
  ∃ d', _build_retain_slots g c slots (d, w) = (Ok (opt_names (Str.sorted (Dict.keys (_last_retain_slots d')))), (d', w)) ∧
    Dict.wf (_last_retain_slots d') ∧
    ∀ name t, Dict.get name (_last_retain_slots d') = Some t ↔
      clock w < t + member_ttl ∧
      ((observed d c slots permanent name ∧ t = clock w) ∨
       (¬ observed d c slots permanent name ∧ Dict.get name (_last_retain_slots d) = Some t)).
Proof.
  intros Hp Httl Hwf.
  set (seen := seen_slots d c slots permanent).
  set (after := Dict.update (_last_retain_slots d) (map (λ s, (s, clock w)) seen)).
  assert (∀ name t, Dict.get name (expire (clock w) member_ttl after) = Some t ↔
      clock w < t + member_ttl ∧
      ((observed d c slots permanent name ∧ t = clock w) ∨
       (¬ observed d c slots permanent name ∧ Dict.get name (_last_retain_slots d) = Some t))) as Hget.
  { intros name t. unfold expire. rewrite Dict.get_filter by (unfold after; auto with dict).
    unfold after. rewrite Dict.get_update_const, <-elem_of_seen. fold seen.
    destruct (decide (name ∈ seen)); [|destruct (Dict.get name (_last_retain_slots d))]; simpl;
      repeat case_match; try naive_solver;
      repeat match goal with H : negb (_ <=? _) = true |- _ => apply negb_true_iff, Z.leb_gt in H
                        | H : negb (_ <=? _) = false |- _ => apply negb_false_iff, Z.leb_le in H end;
      naive_solver lia. }
  exists (set_last_retain_slots (expire (clock w) member_ttl after) d). split_and!; [|by apply wf_expire, Dict.wf_update|exact Hget].
  by rewrite (build_retain_slots_run g c slots d w permanent member_ttl Hp Httl).
Qed.

End retention.

(** ** The client's copy of [/status] *)

Section coherence.
Context `{!Datetime} {W : Type} `{!Backend W} `{!Json}.
(** What [/status] holds, and what the writes of the back end do to it when they return *)
Context (stored : W → string)
  (write_accepted : ∀ v w w', _write_status v w = (Ok true, w') → stored w' = v)
  (write_refused : ∀ v w w', _write_status v w = (Ok false, w') → stored w' = stored w)
  (optime_elsewhere : ∀ v w r w', _write_leader_optime v w = (r, w') → stored w' = stored w).

Definition coherent (d : AbstractDCS) (w : W) : Prop := stored w = dumps (VDict (_last_status d)).

Lemma publish_optime_keeps value d w r d' w' :
  publish_optime value (d, w) = (r, (d', w')) → _last_status d' = _last_status d ∧ stored w' = stored w.
Proof.
  unfold publish_optime, cached_cluster. run_dcs.
  destruct (if clock w <? _cluster_valid_till d then _cluster d else None) as [c|]; [|by intros [= _ <- <-]].
  destruct (if cluster_truthy c then min_version c else None) as [[|z v]|]; try by intros [= _ <- <-].
  destruct (tuple_ltb _ _); [|by intros [= _ <- <-]].
  destruct (need_key _ _) as [o|e]; [|by intros [= _ <- <-]].
  destruct (negb _); [|by intros [= _ <- <-]]. run_dcs.
  destruct (_write_leader_optime (py_str o) w) as [[b|e] w1] eqn:Hw; intros [= _ <- <-];
    split; (done || by eapply optime_elsewhere).
Qed.

Lemma publish_status_keeps value d w r d' w' : coherent d w →
  publish_status value (d, w) = (Ok r, (d', w')) →
  coherent d' w' ∧ (_last_status d' = _last_status d ∨ _last_status d' = value).
Proof.
  intros Hc. unfold publish_status. run_dcs.
  destruct (deep_compare _ _); [intros [= _ <- <-]; auto|]. run_dcs.
  destruct (_write_status (dumps (VDict value)) w) as [[[]|e] w1] eqn:Hw; [| |done]; intros [= _ <- <-].
  - split; [by eapply write_accepted|by right].
  - split; [|by left]. unfold coherent. by rewrite (write_refused _ _ _ Hw).
Qed.

(** The copy of the status the client compares with before writing is the one in the
    DCS: a write that is accepted, refused or skipped because nothing changed keeps the
    [/status] key and the copy equal, and what is published is the value completed with
    the known slots. *)
Theorem status_copy_coherent value d w d' w' :
  coherent d w → write_status value (d, w) = (Ok (), (d', w')) →
  coherent d' w' ∧ (_last_status d' = _last_status d ∨ _last_status d' = status_value (_last_status d) value).
Proof.
  intros Hc Hw. unfold write_status in Hw.
  cbv beta iota delta [mbind dcsM_bind self] in Hw. cbn [fst] in Hw. cbv zeta in Hw.
  destruct (publish_status _ (d, w)) as [[[]|e] [d1 w1]] eqn:Hp; [|done].
  destruct (publish_status_keeps _ _ _ _ _ _ Hc Hp) as [Hc1 Hl1].
  destruct (publish_optime_keeps _ _ _ _ _ _ Hw) as [Hl2 Hs2].
  unfold coherent in *. by rewrite Hl2, Hs2.
Qed.
End coherence.

(** ** The leader's own slot *)

(** Unless its own member key happens to be the last one of the list, the leader counts
    its own slot among the slots of members, though its key is there and says that it
    does not stream. *)
Theorem own_slot_counted `{!Datetime} (c : Cluster) name m :
  last (members c) = Some m → m_name m ≠ name →
  slot_name_from_member_name name ∈ member_slot_names name c.
Proof.
  intros Hl Hne. unfold member_slot_names.
  assert (∀ ms acc, last ms = Some m → (foldl (λ acc m,
    ((if nostream m then acc.1 else slot_name_from_member_name (m_name m) :: acc.1), (m_name m =? name)%string)) acc ms).2
    = false) as Hf.
  { induction ms as [|x ms IH]; [done|]. intros acc. destruct ms as [|y ms].
    - intros [= ->]. simpl. by apply String.eqb_neq.
    - intros Hl'. apply IH. exact Hl'. }
  specialize (Hf (members c) ([], false) Hl). destruct (foldl _ _ _) as [names found]. simpl in Hf. subst. left.
Qed.

(** ** Witnesses *)

(** A DCS of one [/status] key: it accepts every write but the empty text. *)
Definition memory : @Backend text_datetime (string * Z) := {|
  clock w := w.2;
  ttl _ := 30;
  _load_cluster _ w := (Ok cluster_empty, w);
  _load_groups _ w := (Ok [], w);
  _write_leader_optime _ w := (Ok true, w);
  _write_status v w := if (v =? "")%string then (Ok false, w) else (Ok true, (v, w.2));
  _write_failsafe _ w := (Ok true, w);
  _update_leader _ w := (Ok true, w);
  attempt_to_acquire_leader w := (Ok true, w);
  set_failover_value _ _ w := (Ok true, w);
  set_sync_state_value _ _ w := (Ok (VInt 1), w);
  _delete_leader _ w := (Ok true, w);
|}.

Definition client : @AbstractDCS text_datetime :=
  set_last_retain_slots (H := text_datetime) [("b", 0); ("c", 90)]
    (dcs_init (MkMPP false 0 false 0) "a" "service" "batman").

Definition three_members : @Cluster text_datetime :=
  MkCluster None None None status_empty
    [MkMember VNone "a" VNone [("tags", VDict [("nostream", VBool true)])]; MkMember VNone "d" VNone []]
    None (sync_empty VNone) None None [].

Lemma clean_examples : clean "a" ∧ Forall clean ["c"; "b"].
Proof. repeat constructor; done. Qed.

Lemma sync_matches_witness :
  matches (MkSync VNone (VStr "a") (VStr "B, c") 0) (Some "b") false = Ok true.
Proof.
  destruct (sync_matches "a" "B, c" "b" VNone 0 ["B"; "c"] (proj1 clean_examples) ltac:(done) eq_refl) as [-> _].
  reflexivity.
Defined.

Lemma sync_state_roundtrip_witness :
  voters (sync_from_node (VInt 1) (VStr (dumps (VDict (sync_state (Some "a") ["c"; "b"] (Some 1)))))) = Ok ["b"; "c"].
Proof.
  destruct (sync_state_roundtrip "a" ["c"; "b"] 1 (VInt 1) ltac:(done) (proj2 clean_examples)) as (_ & _ & _ & ->).
  reflexivity.
Defined.

Lemma status_roundtrip_witness :
  last_lsn (status_from_node (VStr (dumps (VDict (status_value []
    [("optime", VInt 7); ("slots", opt_slots [("b", 5)]); ("retain_slots", opt_names ["c"])]))))) = 7.
Proof. rewrite (status_roundtrip 7 [("b", 5)] ["c"]); [reflexivity | solve_wf]. Defined.

Lemma retention_policy_witness : ∃ d',
  _build_retain_slots (Backend0 := memory) [("member_slots_ttl", VInt 60)] three_members (Some [("d", 1)]) (client, ("", 100))
  = (Ok (opt_names (Str.sorted (Dict.keys (_last_retain_slots d')))), (d', ("", 100))) ∧
  Dict.get "b" (_last_retain_slots d') ≠ Some 0.
Proof.
  destruct (retention_policy (Backend0 := memory) [("member_slots_ttl", VInt 60)] three_members (Some [("d", 1)]) client
    ("", 100) [] 60 ltac:(vm_compute; reflexivity) ltac:(vm_compute; reflexivity)) as (d' & Hrun & _ & Hget).
  - solve_wf.
  - exists d'. split; [exact Hrun|]. rewrite Hget. cbn. intros [Hlt _]. lia.
Defined.

Lemma status_copy_coherent_witness : ∃ d' w',
  write_status (Backend0 := memory) [("optime", VInt 5)] (client, (dumps (VDict (_last_status client)), 0)) = (Ok (), (d', w')) ∧
  w'.1 = dumps (VDict (_last_status d')).
Proof.
  eexists _, _. split; [vm_compute; reflexivity|].
  eapply (status_copy_coherent (Backend0 := memory) fst) with
    (value := [("optime", VInt 5)]) (d := client) (w := (dumps (VDict (_last_status client)), 0)).
  - intros v w w'. cbn. destruct (v =? "")%string; [done|]. by intros [= <-].
  - intros v w w'. cbn. destruct (v =? "")%string; [|done]. by intros [= <-].
  - intros v w r w'. cbn. by intros [= _ <-].
  - reflexivity.
  - vm_compute. reflexivity.
Defined.

Lemma own_slot_counted_witness :
  nostream (MkMember VNone "a" VNone [("tags", VDict [("nostream", VBool true)])]) = true ∧
  "a" ∈ member_slot_names "a" three_members.
Proof.
  split; [reflexivity|].
  apply (own_slot_counted three_members "a" (MkMember VNone "d" VNone [])); [reflexivity|done].
Defined.
