(* ===== verification/SyncNames.v ===== *)
(** * The value of [synchronous_standby_names] ([patroni/postgresql/sync.py], [psycopg.py])

    Quoting of names, the lexer of the module's regular expression, the parser
    and the value that is written for a set of synchronous nodes. *)
From S2P Require Import Prelude Lexing PyDict PyVal Collections.

Open Scope string_scope.
Open Scope Z_scope.

(** ** Quoting *)

Definition ident_start (c : ascii) : bool :=
  bool_decide (65 ≤ nat_of_ascii c ≤ 90)%nat || bool_decide (97 ≤ nat_of_ascii c ≤ 122)%nat || Ascii.eqb c "_".
Definition ident_char (c : ascii) : bool := ident_start c || is_digit c || Ascii.eqb c "$".

(** [SYNC_STANDBY_NAME_RE.match]: [$] also matches before a final newline *)
Definition SYNC_STANDBY_NAME_RE (s : string) : bool :=
  let ok s := match s with String c s' => ident_start c && Str.all ident_char s' | "" => false end in
  ok s || match Str.rev s with
          | String c s' => Ascii.eqb c (ascii_of_nat 10) && ok (Str.rev s')
          | "" => false
          end.

Definition double_quote (c : ascii) : string :=
  if Ascii.eqb c dquote then String dquote (String dquote "") else String c "".

(** [quote_ident] without a connection *)
Definition quote_ident (value : string) : string :=
  String dquote (concat_chars double_quote value +:+ String dquote "").

(** [quote_standby_name] *)
Definition quote_standby_name (value : string) : string :=
  if SYNC_STANDBY_NAME_RE value && bool_decide (Str.lower value ∉ ["first"; "any"])
  then value else quote_ident value.

(** ** The lexer, [SYNC_REP_PARSER_RE.finditer] *)

Inductive token_type :=
  Tfirst | Tany | Tspace | Tident | Tdquot | Tstar | Tnum | Tcomma | Tparenstart | Tparenend | TJUNK.

#[export] Instance token_type_eq_dec : EqDecision token_type.
Proof. solve_decision. Defined.

Definition token : Type := token_type * string.

(** The text after a word, letters in any case *)
Fixpoint drop_word (w s : string) : option string :=
  match w, s with
  | "", _ => Some s
  | String a w', String c s' => if Ascii.eqb (Str.lower_ascii c) a then drop_word w' s' else None
  | _, _ => None
  end.

(** [take s r]: the text of [s] before its suffix [r] *)
Definition take_before (s r : string) : string := String.substring 0 (String.length s - String.length r) s.

(** After an opening quote: the text up to the closing quote and the rest; doubled quotes
    are taken as long as a closing quote follows *)
Fixpoint quoted (s : string) : option (string * string) :=
  match s with
  | "" => None
  | String c s' =>
      if Ascii.eqb c dquote then
        match s' with
        | String c' s'' =>
            if Ascii.eqb c' dquote then
              match quoted s'' with
              | Some (t, r) => Some (String dquote (String dquote t), r)
              | None => Some ("", s')
              end
            else Some ("", s')
        | "" => Some ("", "")
        end
      else match quoted s' with Some (t, r) => Some (String c t, r) | None => None end
  end.

(** The alternatives of the expression, in their order *)
Definition next_token (s : string) : option (token * string) :=
  match s with
  | "" => None
  | String c s' =>
      match drop_word "first" s with
      | Some r => Some (Tfirst, take_before s r, r)
      | None =>
      match drop_word "any" s with
      | Some r => Some (Tany, take_before s r, r)
      | None =>
          if Str.is_space c then let '(t, r) := span Str.is_space s in Some (Tspace, t, r)
          else if ident_start c then let '(t, r) := span ident_char s in Some (Tident, t, r)
          else if Ascii.eqb c dquote then
            match quoted s' with
            | Some (t, r) => Some (Tdquot, String dquote (t +:+ String dquote ""), r)
            | None => Some (TJUNK, String c "", s')
            end
          else if Ascii.eqb c "*" then Some (Tstar, "*", s')
          else if is_digit c then let '(t, r) := span is_digit s in Some (Tnum, t, r)
          else if Ascii.eqb c "," then Some (Tcomma, ",", s')
          else if Ascii.eqb c "(" then Some (Tparenstart, "(", s')
          else if Ascii.eqb c ")" then Some (Tparenend, ")", s')
          else Some (TJUNK, String c "", s')
      end end
  end.

Fixpoint lex (fuel : nat) (s : string) : list token :=
  match fuel with
  | O => []
  | S fuel =>
      match next_token s with
      | Some (t, r) => t :: lex fuel r
      | None => []
      end
  end.

(** The tokens that are not white space *)
Definition tokens (value : string) : list token :=
  List.filter (λ t, negb (bool_decide (t.1 = Tspace))) (lex (S (String.length value)) value).

(** ** The parser *)

Inductive sync_type := off | priority | quorum.

(** [_SSN] *)
Record SSN := MkSSN { sync_type_ : sync_type; has_star : bool; num : Z; ssn_members : CISet.t }.

Definition _EMPTY_SSN : SSN := MkSSN off false 0 CISet.empty.

Definition types (l : list token) : list token_type := l.*1.
Definition last_is_parenend (l : list token) : bool :=
  bool_decide (fst <$> last l = Some Tparenend).

(** [l[k:-1]] *)
Definition middle (k : nat) (l : list token) : list token := take (length l - k - 1) (drop k l).

Definition token_text (l : list token) (i : nat) : string := default "" (snd <$> l !! i).

(** A doubled quote replaced by one, the quotes of a [dquot] token coming in pairs *)
Fixpoint undouble (s : string) : string :=
  match s with
  | "" => ""
  | String c s' =>
      if Ascii.eqb c dquote then
        match s' with
        | String c' s'' => if Ascii.eqb c' dquote then String dquote (undouble s'') else String c (undouble s')
        | "" => s
        end
      else String c (undouble s')
  end.

(** The loop over the list of names: [even] says whether a name is expected *)
Fixpoint parse_list (even : bool) (l : list token) (acc : CISet.t * bool) : exc (CISet.t * bool) :=
  match l with
  | [] => mret acc
  | (ty, text) :: l' =>
      let '(members, star) := acc in
      if even then
        match ty with
        | Tident | Tfirst | Tany => parse_list false l' (CISet.add text members, star)
        | Tstar => parse_list false l' (CISet.add text members, true)
        | Tdquot => parse_list false l'
            (CISet.add (undouble (String.substring 1 (String.length text - 2) text)) members, star)
        | _ => Raise ValueError
        end
      else
        match l', ty with
        | [], _ => Raise ValueError
        | _, Tcomma => parse_list true l' acc
        | _, _ => Raise ValueError
        end
  end.

(** The four forms of the value: its type, number and list of names *)
Definition ssn_shape (l : list token) : sync_type * Z * list token :=
  let number text := default 0 (int_of_string text) in
  if bool_decide (types (take 3 l) = [Tany; Tnum; Tparenstart]) && last_is_parenend l
  then (quorum, number (token_text l 1), middle 3 l)
  else if bool_decide (types (take 3 l) = [Tfirst; Tnum; Tparenstart]) && last_is_parenend l
  then (priority, number (token_text l 1), middle 3 l)
  else if bool_decide (types (take 2 l) = [Tnum; Tparenstart]) && last_is_parenend l
  then (priority, number (token_text l 0), middle 2 l)
  else (priority, 1, l).

(** [parse_sync_standby_names] *)
Definition parse_sync_standby_names (value : string) : exc SSN :=
  match tokens value with
  | [] => mret _EMPTY_SSN
  | l =>
      let '(ty, n, synclist) := ssn_shape l in
      r ← parse_list true synclist (CISet.empty, false);
      mret (MkSSN ty r.2 n r.1)
  end.

(** ** The value written for a set of nodes *)

(** The value of [sync_param] in [set_synchronous_standby_names], and [has_asterisk] *)
Definition sync_param (supports_multiple_sync supports_quorum_commit quorum_commit_mode : bool)
    (sync : list string) (num : option Z) : option string * bool :=
  let has_asterisk := bool_decide ("*" ∈ sync) ||
    (match num with Some n => negb (n =? 0) && (1 <=? n) | None => false end && (if sync is [] then true else false)) in
  let sync := if has_asterisk then ["*"] else map quote_standby_name (Str.sorted sync) in
  let several := (1 <? length sync)%nat in
  let '(num, param) :=
    if supports_multiple_sync && several
    then (Some (default (Z.of_nat (length sync)) num), Some (Str.join "," sync))
    else (num, head sync) in
  let param :=
    if supports_multiple_sync && ((quorum_commit_mode && (if sync is [] then false else true)) || several) then
      let prefix := if quorum_commit_mode && supports_quorum_commit then "ANY " else "" in
      let shown := match num with Some n => pretty n | None => "None" end in
      Some (prefix +:+ shown +:+ " (" +:+ default "None" param +:+ ")")
    else param in
  (param, has_asterisk).

Example parse_examples :
  (parse_sync_standby_names "", parse_sync_standby_names " a , b ",
   num <$> parse_sync_standby_names "ANY 4(b1,*,b)", parse_sync_standby_names "a,",
   parse_sync_standby_names "2 (,)", parse_sync_standby_names (quote_ident "1"))
  = (Ok _EMPTY_SSN, Ok (MkSSN priority false 1 (CISet.of_list ["a"; "b"])), Ok 4, Raise ValueError, Raise ValueError,
     Ok (MkSSN priority false 1 (CISet.of_list ["1"]))).
Proof. vm_compute. reflexivity. Qed.

(** * Properties of [synchronous_standby_names]

    The value written for a set of nodes is parsed back to that set, its type and its
    number, whatever the characters of the names - except for names that begin with a
    keyword of the syntax, which are not quoted and then not understood. *)

(** ** Texts *)

Lemma substring_app s t : String.substring 0 (String.length s) (s +:+ t) = s.
Proof.
  induction s as [|c s IH]; [by destruct t|]. rewrite Str.str_app_cons. simpl. by rewrite IH.
Qed.

Lemma take_before_app s t : take_before (s +:+ t) t = s.
Proof.
  unfold take_before. rewrite Str.str_length_app.
  replace (String.length s + String.length t - String.length t)%nat with (String.length s) by lia.
  apply substring_app.
Qed.

(** What follows a name in the value *)
Definition delim (s : string) : bool :=
  match s with "" => true | String c _ => Ascii.eqb c "," || Ascii.eqb c ")" end.

Lemma delim_stops s : delim s = true → stops ident_char s = true.
Proof.
  destruct s as [|c s]; [done|]. simpl. destruct (Ascii.eqb_spec c ",") as [->|]; [done|].
  by destruct (Ascii.eqb_spec c ")") as [->|].
Qed.

Lemma drop_word_app w s rest :
  Str.all (λ a, negb (Ascii.eqb a ",") && negb (Ascii.eqb a ")")) w = true → delim rest = true →
  drop_word w s = None → drop_word w (s +:+ rest) = None.
Proof.
  intros Hw Hd. revert s Hw. induction w as [|a w IH]; intros s; [done|]. cbn [Str.all]. intros [Ha Hw]%andb_prop.
  destruct s as [|c s].
  - intros _. change ("" +:+ rest) with rest. destruct rest as [|c rest]; [done|]. cbn [drop_word].
    simpl in Hd. destruct (Ascii.eqb_spec (Str.lower_ascii c) a) as [<-|]; [|done].
    apply orb_true_iff in Hd as [Hd|Hd]; apply Ascii.eqb_eq in Hd; subst c; by vm_compute in Ha.
  - rewrite Str.str_app_cons. cbn [drop_word]. destruct (Ascii.eqb (Str.lower_ascii c) a); [by apply IH|done].
Qed.

(** ** One token at a time *)

Definition lexes (s : string) (l : list token) : Prop :=
  ∀ fuel, (String.length s < fuel)%nat → lex fuel s = l.

Lemma lexes_nil : lexes "" [].
Proof. intros [|fuel] Hf; [lia|done]. Qed.

Lemma lexes_cons s t r l : next_token s = Some (t, r) → (String.length r < String.length s)%nat →
  lexes r l → lexes s (t :: l).
Proof. intros Hn Hlen Hr [|fuel] Hf; [lia|]. cbn [lex]. rewrite Hn. f_equal. apply Hr. lia. Qed.

Lemma tokens_lexes s l : lexes s l → tokens s = List.filter (λ t, negb (bool_decide (t.1 = Tspace))) l.
Proof. intros Hl. unfold tokens. rewrite Hl by lia. done. Qed.

Lemma ident_start_facts c : ident_start c = true →
  Str.is_space c = false ∧ ident_char c = true ∧ Ascii.eqb c dquote = false ∧ is_digit c = false.
Proof. destruct c as [[] [] [] [] [] [] [] []]; by vm_compute. Qed.

(** A plain identifier that does not begin with a keyword *)
Definition plain (n : string) : bool :=
  match n with String c s => ident_start c && Str.all ident_char s | "" => false end.
Definition no_keyword (n : string) : Prop := drop_word "first" n = None ∧ drop_word "any" n = None.

Lemma next_token_ident n rest : plain n = true → no_keyword n → delim rest = true →
  next_token (n +:+ rest) = Some (Tident, n, rest).
Proof.
  intros Hp [H1 H2] Hd. destruct n as [|c n]; [done|]. cbn [plain] in Hp. apply andb_prop in Hp as [Hc Hn].
  destruct (ident_start_facts c Hc) as (Hs & Hi & _).
  pose proof (drop_word_app "first" _ rest eq_refl Hd H1) as H1'.
  pose proof (drop_word_app "any" _ rest eq_refl Hd H2) as H2'.
  rewrite Str.str_app_cons in *. unfold next_token. rewrite H1', H2', Hs, Hc.
  rewrite <-Str.str_app_cons, span_app; [done| |by apply delim_stops]. simpl. by rewrite Hi.
Qed.

Lemma quoted_doubled n rest : delim rest = true →
  quoted (concat_chars double_quote n +:+ String dquote rest) = Some (concat_chars double_quote n, rest).
Proof.
  intros Hd. induction n as [|c n IH].
  - change (concat_chars double_quote "" +:+ String dquote rest) with (String dquote rest). cbn [quoted].
    rewrite Ascii.eqb_refl. destruct rest as [|c rest]; [done|].
    destruct (Ascii.eqb_spec c dquote) as [->|]; [done|done].
  - cbn [concat_chars]. unfold double_quote at 1 3. destruct (Ascii.eqb_spec c dquote) as [->|Hne].
    + rewrite !Str.str_app_cons. change ("" +:+ concat_chars double_quote n) with (concat_chars double_quote n).
      cbn [quoted]. rewrite !Ascii.eqb_refl. by rewrite IH.
    + rewrite Str.str_app_single, Str.str_app_cons. cbn [quoted].
      assert (Ascii.eqb c dquote = false) as -> by (by apply Ascii.eqb_neq). by rewrite IH.
Qed.

Lemma next_token_quoted n rest : delim rest = true →
  next_token (quote_ident n +:+ rest) = Some (Tdquot, quote_ident n, rest).
Proof.
  intros Hd. unfold quote_ident. rewrite Str.str_app_cons, Str.str_app_assoc, Str.str_app_single.
  unfold next_token. cbn [drop_word]. by rewrite quoted_doubled.
Qed.

Lemma undouble_doubled n : undouble (concat_chars double_quote n) = n.
Proof.
  induction n as [|c n IH]; [done|]. cbn [concat_chars]. unfold double_quote at 1.
  destruct (Ascii.eqb_spec c dquote) as [->|Hne].
  - rewrite !Str.str_app_cons. change ("" +:+ concat_chars double_quote n) with (concat_chars double_quote n).
    cbn [undouble]. rewrite !Ascii.eqb_refl. by rewrite IH.
  - rewrite Str.str_app_single. cbn [undouble].
    assert (Ascii.eqb c dquote = false) as -> by (by apply Ascii.eqb_neq). by rewrite IH.
Qed.

Lemma quote_ident_content n :
  undouble (String.substring 1 (String.length (quote_ident n) - 2) (quote_ident n)) = n.
Proof.
  unfold quote_ident. cbn [String.length]. rewrite Str.str_length_app. cbn [String.length].
  replace (S (String.length (concat_chars double_quote n) + 1) - 2)%nat
    with (String.length (concat_chars double_quote n)) by lia.
  cbn [String.substring]. rewrite substring_app. apply undouble_doubled.
Qed.

(** ** Lists of names *)

(** The names the syntax carries faithfully *)
Definition safe (n : string) : Prop :=
  quote_standby_name n = quote_ident n ∨ quote_standby_name n = n ∧ plain n = true ∧ no_keyword n.

Definition name_token (n : string) : token :=
  (if decide (quote_standby_name n = quote_ident n) then Tdquot else Tident, quote_standby_name n).

Fixpoint name_tokens (names : list string) : list token :=
  match names with
  | [] => []
  | [n] => [name_token n]
  | n :: names' => name_token n :: (Tcomma, ",") :: name_tokens names'
  end.

Lemma next_token_name n rest : safe n → delim rest = true →
  next_token (quote_standby_name n +:+ rest) = Some (name_token n, rest).
Proof.
  intros Hs Hd. unfold name_token. case_decide as Hq; [rewrite Hq; by apply next_token_quoted|].
  destruct Hs as [?|(-> & Hp & Hk)]; [done|]. by apply next_token_ident.
Qed.

Lemma length_quote n : safe n → (0 < String.length (quote_standby_name n))%nat.
Proof. intros [->|(-> & Hp & _)]; [simpl; lia|]. destruct n; [done|]. simpl. lia. Qed.

Lemma lexes_names names rest l : names ≠ [] → Forall safe names → delim rest = true → lexes rest l →
  lexes (Str.join "," (map quote_standby_name names) +:+ rest) (name_tokens names ++ l)%list.
Proof.
  intros Hne Hs Hd Hl. induction names as [|n names IH]; [done|]. apply Forall_cons in Hs as [Hn Hs].
  pose proof (length_quote n Hn) as Hlen. destruct names as [|n' names].
  - cbn [map Str.join name_tokens app]. apply lexes_cons with rest; [by apply next_token_name| |done].
    rewrite Str.str_length_app. lia.
  - change (map quote_standby_name (n :: n' :: names))
      with (quote_standby_name n :: quote_standby_name n' :: map quote_standby_name names).
    rewrite Str.join_cons, !Str.str_app_assoc, Str.str_app_single.
    change (quote_standby_name n' :: map quote_standby_name names) with (map quote_standby_name (n' :: names)).
    change (name_tokens (n :: n' :: names)) with (name_token n :: (Tcomma, ",") :: name_tokens (n' :: names)).
    set (text := Str.join "," _ +:+ rest). cbn [app].
    apply lexes_cons with (String "," text); [by apply next_token_name|rewrite Str.str_length_app; simpl; lia|].
    apply lexes_cons with text; [done|simpl; lia|]. by apply IH.
Qed.

Lemma parse_name n l members star : safe n →
  parse_list true (name_token n :: l) (members, star) = parse_list false l (CISet.add n members, star).
Proof.
  intros Hs. unfold name_token. case_decide as Hq.
  - cbn [parse_list]. rewrite Hq. by rewrite quote_ident_content.
  - destruct Hs as [?|(-> & _)]; done.
Qed.

Lemma parse_names names members star : Forall safe names →
  parse_list true (name_tokens names) (members, star) =
  Ok (foldl (λ s v, CISet.add v s) members names, star).
Proof.
  intros Hs. revert members. induction Hs as [|n names Hn Hs IH]; intros members; [done|].
  destruct names as [|n' names]; [cbn [name_tokens]; by rewrite parse_name|].
  change (name_tokens (n :: n' :: names)) with (name_token n :: (Tcomma, ",") :: name_tokens (n' :: names)).
  rewrite parse_name by done. cbn [foldl] in *. rewrite <-IH.
  cbn [parse_list]. by destruct names.
Qed.

Lemma name_tokens_no_space names l : 
  List.filter (λ t, negb (bool_decide (t.1 = Tspace))) (name_tokens names ++ l)%list =
  (name_tokens names ++ List.filter (λ t, negb (bool_decide (t.1 = Tspace))) l)%list.
Proof.
  induction names as [|n names IH]; [done|].
  assert (∀ n, negb (bool_decide ((name_token n).1 = Tspace)) = true) as Ht.
  { intros m. unfold name_token. by case_decide. }
  destruct names as [|n' names]; [cbn [name_tokens app List.filter]; by rewrite Ht|].
  change (name_tokens (n :: n' :: names)) with (name_token n :: (Tcomma, ",") :: name_tokens (n' :: names)).
  cbn [app List.filter fst]. rewrite Ht. simpl negb. by rewrite IH.
Qed.

(** ** The whole value *)

Definition not_space (t : token) : bool := negb (bool_decide (t.1 = Tspace)).

Lemma digit_facts c : is_digit c = true →
  Str.is_space c = false ∧ ident_start c = false ∧ Ascii.eqb c dquote = false ∧ Ascii.eqb c "*" = false ∧
  Ascii.eqb (Str.lower_ascii c) "f" = false ∧ Ascii.eqb (Str.lower_ascii c) "a" = false.
Proof. destruct c as [[] [] [] [] [] [] [] []]; by vm_compute. Qed.

Lemma next_token_num n rest : 0 <= n → stops is_digit rest = true →
  next_token (pretty n +:+ rest) = Some (Tnum, pretty n, rest).
Proof.
  intros Hn Hr. destruct (pretty_digits n Hn) as (Ha & _ & Hne). destruct (pretty n) as [|c s]; [done|].
  pose proof Ha as [Hc _]%andb_prop. destruct (digit_facts c Hc) as (H1 & H2 & H3 & H4 & H5 & H6).
  rewrite Str.str_app_cons. unfold next_token. cbn [drop_word]. rewrite H5, H6, H1, H2, H3, H4, Hc.
  by rewrite <-Str.str_app_cons, span_app.
Qed.

Lemma next_token_space c rest : stops Str.is_space (String c rest) = true →
  next_token (String " " (String c rest)) = Some (Tspace, " ", String c rest).
Proof.
  intros Hs. unfold next_token. cbn [drop_word]. cbn [Str.is_space]. simpl in Hs. apply negb_true_iff in Hs.
  cbn [span]. change (Str.is_space " ") with true. cbv iota. by rewrite Hs.
Qed.

(** The numbered list [n (names)], before any keyword *)
Definition group (n : Z) (names : list string) : string :=
  pretty n +:+ " (" +:+ Str.join "," (map quote_standby_name names) +:+ ")".

Definition group_tokens (n : Z) (names : list string) : list token :=
  ((Tnum, pretty n) :: (Tspace, " ") :: (Tparenstart, "(") :: name_tokens names ++ [(Tparenend, ")")])%list.

Lemma lexes_group n names : 0 <= n → names ≠ [] → Forall safe names → lexes (group n names) (group_tokens n names).
Proof.
  intros Hn Hne Hs. unfold group, group_tokens. set (body := Str.join "," _ +:+ ")").
  assert (String.length (pretty n) ≠ 0%nat) as Hl.
  { destruct (pretty_digits n Hn) as (_ & _ & Hp). by destruct (pretty n). }
  change (" (" +:+ body) with (String " " (String "(" body)).
  apply lexes_cons with (String " " (String "(" body)); [by apply next_token_num| |].
  { rewrite Str.str_length_app. lia. }
  apply lexes_cons with (String "(" body); [by apply next_token_space|simpl; lia|].
  apply lexes_cons with body; [done|simpl; lia|].
  apply (lexes_names names ")"); [done|done|done|].
  apply lexes_cons with ""; [done|simpl; lia|apply lexes_nil].
Qed.

Lemma middle_group (a : list token) names :
  middle (length a) (a ++ name_tokens names ++ [(Tparenend, ")")])%list = name_tokens names.
Proof.
  unfold middle. rewrite drop_app_length, !length_app. simpl.
  replace (_ - _ - 1)%nat with (length (name_tokens names)) by lia. apply take_app_length.
Qed.

Lemma last_group (a : list token) names : last_is_parenend (a ++ name_tokens names ++ [(Tparenend, ")")])%list = true.
Proof. unfold last_is_parenend. by rewrite app_assoc, last_snoc. Qed.

Lemma parse_shape value l ty n names : tokens value = l → l ≠ [] →
  ssn_shape l = (ty, n, name_tokens names) → Forall safe names →
  parse_sync_standby_names value = Ok (MkSSN ty false n (CISet.of_list names)).
Proof.
  intros Ht Hne Hsh Hs. unfold parse_sync_standby_names. rewrite Ht. destruct l as [|t l]; [done|].
  rewrite Hsh, parse_names by done. done.
Qed.

Lemma int_of_pretty n : default 0 (int_of_string (pretty n)) = n.
Proof. by rewrite int_of_string_pretty. Qed.

Lemma parse_any_group n names : 0 <= n → names ≠ [] → Forall safe names →
  parse_sync_standby_names ("ANY " +:+ group n names) = Ok (MkSSN quorum false n (CISet.of_list names)).
Proof.
  intros Hn Hne Hs.
  assert (lexes ("ANY " +:+ group n names) ((Tany, "ANY") :: (Tspace, " ") :: group_tokens n names)) as Hl.
  { destruct (pretty_digits n Hn) as (Ha & _ & Hp).
    apply lexes_cons with (String " " (group n names)).
    - change ("ANY " +:+ group n names) with ("ANY" +:+ String " " (group n names)).
      set (X := String " " (group n names)).
      assert (next_token ("ANY" +:+ X) = Some (Tany, take_before ("ANY" +:+ X) X, X)) as -> by reflexivity.
      by rewrite take_before_app.
    - change ("ANY " +:+ group n names) with ("ANY" +:+ String " " (group n names)). rewrite Str.str_length_app. simpl. lia.
    - apply lexes_cons with (group n names); [|simpl; lia|by apply lexes_group].
      unfold group. destruct (pretty n) as [|c s]; [done|]. rewrite Str.str_app_cons. apply next_token_space.
      simpl. apply andb_prop in Ha as [Hc _]. by destruct (digit_facts c Hc) as (-> & _). }
  apply tokens_lexes in Hl. unfold group_tokens in Hl. cbn [List.filter fst] in Hl.
  set (l := [(Tany, "ANY"); (Tnum, pretty n); (Tparenstart, "(")]).
  apply parse_shape with (l ++ name_tokens names ++ [(Tparenend, ")")])%list; [|done| |done].
  - rewrite Hl. simpl. f_equal. f_equal. f_equal. apply name_tokens_no_space.
  - unfold ssn_shape. rewrite last_group. change (middle 3) with (middle (length l)). rewrite middle_group.
    cbn -[int_of_string middle name_tokens]. by rewrite int_of_pretty.
Qed.

Lemma parse_group n names : 0 <= n → names ≠ [] → Forall safe names →
  parse_sync_standby_names (group n names) = Ok (MkSSN priority false n (CISet.of_list names)).
Proof.
  intros Hn Hne Hs. pose proof (lexes_group n names Hn Hne Hs) as Hl.
  apply tokens_lexes in Hl. unfold group_tokens in Hl. cbn [List.filter fst] in Hl.
  set (l := [(Tnum, pretty n); (Tparenstart, "(")]).
  apply parse_shape with (l ++ name_tokens names ++ [(Tparenend, ")")])%list; [|done| |done].
  - rewrite Hl. simpl. f_equal. f_equal. apply name_tokens_no_space.
  - unfold ssn_shape. rewrite last_group. change (middle 2) with (middle (length l)). rewrite middle_group.
    cbn -[int_of_string middle name_tokens]. by rewrite int_of_pretty.
Qed.

Lemma parse_single name : safe name →
  parse_sync_standby_names (quote_standby_name name) = Ok (MkSSN priority false 1 (CISet.of_list [name])).
Proof.
  intros Hs. assert (lexes (quote_standby_name name) [name_token name]) as Hl.
  { rewrite <-(Str.str_app_nil_r (quote_standby_name name)).
    apply lexes_cons with ""; [by apply next_token_name| |apply lexes_nil].
    rewrite Str.str_length_app. pose proof (length_quote name Hs). simpl. lia. }
  apply tokens_lexes in Hl. apply parse_shape with [name_token name]; [|done| |by constructor].
  - rewrite Hl. unfold name_token. destruct (decide (quote_standby_name name = quote_ident name)); reflexivity.
  - unfold ssn_shape, name_tokens, name_token.
    destruct (decide (quote_standby_name name = quote_ident name)); reflexivity.
Qed.

Lemma Forall_sorted (P : string → Prop) names : Forall P names → Forall P (Str.sorted names).
Proof. rewrite !Forall_forall. intros Hp x Hx. apply Hp. by apply Str.elem_of_sorted. Qed.

Lemma sorted_nonempty names : names ≠ [] → Str.sorted names ≠ [].
Proof.
  intros Hne He. pose proof (Str.length_sorted names) as Hl. rewrite He in Hl. by destruct names.
Qed.

(** The value without [*], for one name and for several *)
Lemma sync_param_unfold supports_quorum quorum_mode names n : names ≠ [] → "*" ∉ names →
  sync_param true supports_quorum quorum_mode names n =
  (let sync := map quote_standby_name (Str.sorted names) in
   let prefix := if quorum_mode && supports_quorum then "ANY " else "" in
   match sync with
   | [x] => Some (if quorum_mode then prefix +:+ match n with Some n => pretty n | None => "None" end +:+ " (" +:+ x +:+ ")" else x)
   | _ => Some (prefix +:+ pretty (default (Z.of_nat (length names)) n) +:+ " (" +:+ Str.join "," sync +:+ ")")
   end, false).
Proof.
  intros Hne Hstar. pose proof (sorted_nonempty _ Hne) as Hne'. pose proof (Str.length_sorted names) as Hlen.
  unfold sync_param. rewrite bool_decide_eq_false_2 by done.
  assert ((if names is [] then true else false) = false) as -> by (by destruct names).
  rewrite andb_false_r. cbn [orb]. rewrite length_map, <-Hlen. destruct (Str.sorted names) as [|x [|y l]]; [done| |].
  - by destruct quorum_mode.
  - cbv zeta. cbn [map length Nat.ltb Nat.leb andb orb]. rewrite orb_true_r. simpl. by destruct n.
Qed.

Lemma sync_param_any names n : names ≠ [] → "*" ∉ names → Forall safe names → 0 <= n →
  ∃ text, sync_param true true true names (Some n) = (Some text, false) ∧
    parse_sync_standby_names text = Ok (MkSSN quorum false n (CISet.of_list (Str.sorted names))).
Proof.
  intros Hne Hstar Hs Hn. pose proof (Forall_sorted _ _ Hs) as Hs'. pose proof (sorted_nonempty _ Hne) as Hne'.
  rewrite sync_param_unfold by done. cbv zeta.
  destruct (Str.sorted names) as [|x [|y l]]; [done| |]; eexists; (split; [reflexivity|]).
  - by apply (parse_any_group n [x]).
  - by apply (parse_any_group n (x :: y :: l)).
Qed.

Lemma sync_param_priority b names : names ≠ [] → "*" ∉ names → Forall safe names →
  ∃ text, sync_param true b false names None = (Some text, false) ∧
    parse_sync_standby_names text = Ok (MkSSN priority false (Z.of_nat (length names)) (CISet.of_list (Str.sorted names))).
Proof.
  intros Hne Hstar Hs. pose proof (Forall_sorted _ _ Hs) as Hs'. pose proof (sorted_nonempty _ Hne) as Hne'.
  pose proof (Str.length_sorted names) as Hlen. rewrite sync_param_unfold by done. cbv zeta.
  destruct (Str.sorted names) as [|x [|y l]]; [done| |]; eexists; (split; [reflexivity|]).
  - apply Forall_cons in Hs' as [Hx _]. rewrite <-Hlen. by apply parse_single.
  - apply (parse_group _ (x :: y :: l)); [apply Nat2Z.is_nonneg|done|done].
Qed.

(** C40: what Patroni writes to [synchronous_standby_names] of a server with multiple synchronous standbys it reads back: for every non-empty
    set of nodes without "*" whose names are [safe] - quoted when written, or made of the characters of an identifier
    and not beginning with a keyword, see [keyword_prefix_unparsable] - the parser recovers the set; with quorum commit the
    type is quorum and the number the one asked for, without it the type is priority and the number that of the nodes. *)
Theorem sync_param_roundtrip (names : list string) (n : Z) :
  names ≠ [] → "*" ∉ names → Forall safe names → 0 <= n →
  (∃ text, sync_param true true true names (Some n) = (Some text, false) ∧
     parse_sync_standby_names text = Ok (MkSSN quorum false n (CISet.of_list (Str.sorted names)))) ∧
  (∃ text, sync_param true true false names None = (Some text, false) ∧
     parse_sync_standby_names text =
       Ok (MkSSN priority false (Z.of_nat (length names)) (CISet.of_list (Str.sorted names)))).
Proof. intros Hne Hstar Hs Hn. split; [by apply sync_param_any|by apply sync_param_priority]. Qed.

(** ** Names that begin with a keyword *)

Definition word_token (t : token) : Prop := t.1 ∈ [Tfirst; Tany; Tident; Tnum; TJUNK].

Lemma drop_word_all p w s r : drop_word w s = Some r → Str.all p s = true → Str.all p r = true.
Proof.
  revert s. induction w as [|a w IH]; intros s; [by intros [= ->]|]. destruct s as [|c s]; [done|].
  cbn [drop_word Str.all]. destruct (Ascii.eqb _ _); [|done]. intros Hd [_ Ha]%andb_prop. by apply IH with s.
Qed.

Lemma drop_word_lower w s r : drop_word w s = Some r → Str.lower s = w +:+ Str.lower r.
Proof.
  revert s. induction w as [|a w IH]; intros s; [by intros [= ->]|]. destruct s as [|c s]; [done|].
  cbn [drop_word Str.lower]. destruct (Ascii.eqb_spec (Str.lower_ascii c) a) as [->|]; [|done].
  intros Hd. by rewrite (IH _ Hd).
Qed.

Lemma next_token_some s : s ≠ "" → ∃ t r, next_token s = Some (t, r).
Proof.
  destruct s as [|c s]; [done|]. intros _. unfold next_token.
  repeat (case_match; eauto).
Qed.

Lemma span_rest_all p q s : Str.all p s = true → Str.all p (span q s).2 = true.
Proof.
  induction s as [|c s IH]; [done|]. cbn [Str.all span]. intros [Hc Hs]%andb_prop.
  destruct (q c); [|simpl; by rewrite Hc, Hs]. destruct (span q s) as [a b]. by apply IH.
Qed.

Lemma next_token_word s t r : Str.all ident_char s = true → next_token s = Some (t, r) →
  word_token t ∧ Str.all ident_char r = true.
Proof.
  intros Ha. destruct s as [|c s]; [done|]. unfold next_token, word_token.
  destruct (drop_word "first" (String c s)) as [r1|] eqn:E1.
  { intros [= <- <-]. split; [simpl; set_solver|by eapply drop_word_all]. }
  destruct (drop_word "any" (String c s)) as [r1|] eqn:E2.
  { intros [= <- <-]. split; [simpl; set_solver|by eapply drop_word_all]. }
  pose proof (span_rest_all ident_char ident_char _ Ha) as Hs1.
  pose proof (span_rest_all ident_char is_digit _ Ha) as Hs2.
  cbn [Str.all] in Ha. apply andb_prop in Ha as [Hc Ha].
  assert (Str.is_space c = false ∧ Ascii.eqb c dquote = false ∧ Ascii.eqb c "*" = false ∧ Ascii.eqb c "," = false ∧
    Ascii.eqb c "(" = false ∧ Ascii.eqb c ")" = false) as (-> & -> & -> & -> & -> & ->).
  { clear -Hc. destruct c as [[] [] [] [] [] [] [] []]; vm_compute in Hc |- *; first [discriminate Hc|repeat split]. }
  destruct (ident_start c).
  { destruct (span ident_char _). intros [= <- <-]. split; [simpl; set_solver|done]. }
  destruct (is_digit c).
  { destruct (span is_digit _). intros [= <- <-]. split; [simpl; set_solver|done]. }
  intros [= <- <-]. split; [simpl; set_solver|done].
Qed.

Lemma lex_words fuel s : Str.all ident_char s = true → Forall word_token (lex fuel s).
Proof.
  revert s. induction fuel as [|fuel IH]; intros s Ha; [constructor|]. cbn [lex].
  destruct (next_token s) as [[t r]|] eqn:E; [|constructor].
  destruct (next_token_word _ _ _ Ha E) as [Ht Hr]. constructor; auto.
Qed.

Lemma words_kept l : Forall word_token l → List.filter not_space l = l.
Proof.
  induction 1 as [|t l Ht Hl IH]; [done|]. cbn [List.filter].
  assert (not_space t = true) as ->; [|by rewrite IH].
  unfold not_space, word_token in *. rewrite bool_decide_eq_false_2; [done|]. intros He. rewrite He in Ht. set_solver.
Qed.

Lemma words_not_closed l : Forall word_token l → last_is_parenend l = false.
Proof.
  intros Hl. apply bool_decide_eq_false_2. destruct (last l) as [t|] eqn:E; [|done]. intros [= He].
  apply last_Some in E as [l' ->]. apply Forall_app in Hl as [_ Ht]. apply Forall_inv in Ht.
  destruct t as [ty text]. unfold word_token in Ht. cbn [fst] in He, Ht. subst ty.
  by rewrite !elem_of_cons, elem_of_nil in Ht; naive_solver.
Qed.

(** A node whose name begins with [first] or [any] (in any case) and goes on with letters,
    digits, underscores or dollars is not quoted, and the value naming it alone, which
    PostgreSQL reads as that name, is rejected by Patroni's own parser. *)
Theorem keyword_prefix_unparsable (w name r : string) :
  w ∈ ["first"; "any"] → drop_word w name = Some r → r ≠ "" → plain name = true →
  quote_standby_name name = name ∧ parse_sync_standby_names name = Raise ValueError.
Proof.
  intros Hw Hd Hr Hp.
  assert (∃ t, next_token name = Some (t, r) ∧ (t.1 = Tfirst ∨ t.1 = Tany)) as (t & Hn & Ht).
  { unfold next_token. destruct name as [|c s]; [by rewrite !elem_of_cons, elem_of_nil in Hw; naive_solver|].
    rewrite !elem_of_cons, elem_of_nil in Hw. destruct Hw as [->|[->|[]]].
    - rewrite Hd. eexists; split; [done|by left].
    - destruct (drop_word "first" (String c s)) as [r1|] eqn:E1.
      { exfalso. clear -E1 Hd. cbn [drop_word] in E1, Hd.
        destruct (Ascii.eqb_spec (Str.lower_ascii c) "f") as [He|]; [|done]. by rewrite He in Hd. }
      rewrite Hd. eexists; split; [done|by right]. }
  assert (Str.all ident_char name = true) as Ha.
  { destruct name as [|c s]; [done|]. cbn [plain] in Hp. apply andb_prop in Hp as [Hc Hs].
    cbn [Str.all]. destruct (ident_start_facts c Hc) as (_ & -> & _). done. }
  split.
  - unfold quote_standby_name. assert (SYNC_STANDBY_NAME_RE name = true) as ->.
    { unfold SYNC_STANDBY_NAME_RE. destruct name as [|c s]; [done|]. cbn [plain] in Hp. by rewrite Hp. }
    cbn [andb]. rewrite bool_decide_eq_true_2; [done|]. rewrite (drop_word_lower _ _ _ Hd).
    destruct r as [|c r]; [done|]. rewrite !elem_of_cons, elem_of_nil in *. by intuition (subst; discriminate).
  - assert (Str.all ident_char r = true) as Har by (by eapply drop_word_all).
    assert (tokens name = lex (S (String.length name)) name) as Hl by (by apply words_kept, lex_words).
    unfold parse_sync_standby_names. rewrite Hl. pose proof (lex_words (S (String.length name)) name Ha) as Hw1.
    pose proof (words_not_closed _ Hw1) as Hc. cbn [lex] in *. rewrite Hn in *.
    destruct (String.length name) as [|k] eqn:Hlen; [by destruct name|]. cbn [lex] in *.
    destruct (next_token_some r Hr) as (t2 & r2 & Hn2). rewrite Hn2 in *.
    unfold ssn_shape. rewrite Hc, !andb_false_r.
    apply Forall_cons in Hw1 as [_ [Hw2 _]%Forall_cons]. unfold word_token in Hw2.
    destruct t as [ty text], t2 as [ty2 text2]. simpl in Ht, Hw2 |- *.
    destruct (lex k r2); destruct Ht as [->| ->]; [done..| |];
      destruct ty2; try done; by rewrite !elem_of_cons, elem_of_nil in Hw2; naive_solver.
Qed.

Lemma sync_param_roundtrip_witness :
  (∃ text, sync_param true true true ["b"; "c-d"] (Some 1) = (Some text, false) ∧
     parse_sync_standby_names text = Ok (MkSSN quorum false 1 (CISet.of_list (Str.sorted ["b"; "c-d"])))) ∧
  (∃ text, sync_param true true false ["b"; "c-d"] None = (Some text, false) ∧
     parse_sync_standby_names text = Ok (MkSSN priority false 2 (CISet.of_list (Str.sorted ["b"; "c-d"])))).
Proof.
  apply (sync_param_roundtrip ["b"; "c-d"] 1); [done| |by repeat constructor|done].
  apply (bool_decide_unpack _). by vm_compute.
Defined.

Lemma keyword_prefix_unparsable_witness :
  quote_standby_name "first_node" = "first_node" ∧ parse_sync_standby_names "first_node" = Raise ValueError.
Proof. apply (keyword_prefix_unparsable "first" "first_node" "_node"); [constructor|done|done|done]. Defined.
