(* ===== verification/Sync.v ===== *)
(** * Synchronous replication ([patroni/postgresql/sync.py])

    [_ReplicaList] (the candidates for synchronous replication, in order of preference)
    and [SyncHandler] (which of them have really caught up).  [SyncPostgres] is the
    interface of the methods of [Postgresql] the handler calls, on a state [W]. *)
From S2P Require Import Prelude PyDict PyVal Effects Collections Utils Tags DcsData GlobalConfig SyncNames.

Open Scope string_scope.
Open Scope Z_scope.

(** A row of [pg_stat_replication] *)
Record stat_row := MkRow {
  row_pid : Z; row_application_name : string; row_sync_state : string;
  write_lsn : option Z; flush_lsn : option Z; replay_lsn : option Z;
}.

Class SyncPostgres (W : Type) := {
  pg_name : W → string;
  synchronous_commit : W → string;
  pg_stat_replication : W → list stat_row;
  last_operation : W → Z;
  synchronous_standby_names : W → string;
  supports_multiple_sync : W → bool;
  supports_quorum_commit : W → bool;
  is_primary_running : W → bool;
  get_primary_timeline : W → Z;
  query_txid_current : W → exc () * W;
  reset_cluster_info_state : W → exc () * W;
  config_set_synchronous_standby_names : option string → W → exc bool * W;
}.

(** [_Replica] *)
Record _Replica := MkReplica {
  pid : Z; application_name : string; sync_state : string; r_lsn : Z;
  r_nofailover : bool; r_sync_priority : Z;
}.

(** [_SyncState] *)
Record _SyncState := MkSyncState {
  ss_sync_type : sync_type; numsync : Z; ss_sync : CISet.t; sync_confirmed : CISet.t; active : CISet.t;
}.

(** [SyncHandler] *)
Record SyncHandler := MkHandler {
  _synchronous_standby_names : string;
  _ssn_data : SSN;
  _primary_flush_lsn : Z;
  _ready_replicas : CIDict.t Z;
}.

(** [__init__] *)
Definition sync_handler_init : SyncHandler := MkHandler "" _EMPTY_SSN 0 [].

(** ** The candidates *)

(** [row[sort_col]] *)
Definition sort_col (synchronous_commit : string) (row : stat_row) : option Z :=
  if (synchronous_commit =? "remote_apply")%string then replay_lsn row
  else if (synchronous_commit =? "remote_write")%string then write_lsn row
  else flush_lsn row.

(** The test of the comprehension of [members] *)
Definition may_be_sync (name : string) (m : Member) : exc bool :=
  if is_running m then
    nosync ← nosync m;
    mret (negb nosync && negb (Str.lower (m_name m) =? Str.lower name)%string)
  else mret false.

(** [{m.name: m for m in l}] *)
Definition by_name {V} (key : V → string) (l : list V) : CIDict.t V :=
  CIDict.of_dict (Dict.of_items (map (λ v, (key v, v)) l)).

Definition eligible_members (name : string) (ms : list Member) : exc (CIDict.t Member) :=
  l ← filterM (may_be_sync name) ms; mret (by_name m_name l).

(** The rows of eligible members that stream *)
Definition eligible_rows (col : stat_row → option Z) (members : CIDict.t Member) (rows : list stat_row)
    : CIDict.t stat_row :=
  by_name row_application_name
    (List.filter (λ row, (if col row is Some _ then true else false) && CIDict.mem (row_application_name row) members) rows).

(** [_should_cascade]; the recursion ends in [RecursionError] when it runs out of fuel,
    see [should_cascade_fuel] for the fuel that is enough. *)
Fixpoint should_cascade (fuel : nat) (members : CIDict.t Member) (replication : CIDict.t stat_row) (member : Member)
    : exc bool :=
  match fuel with
  | O => Raise RecursionError
  | S fuel =>
      if negb (truthy (replicatefrom member)) then mret false else
      from ← need_str (replicatefrom member);
      match CIDict.get from members with
      | None => mret false
      | Some member =>
          if negb (truthy (replicatefrom member)) then mret (CIDict.mem (m_name member) replication)
          else should_cascade fuel members replication member
      end
  end.

Definition _should_cascade (members : CIDict.t Member) (replication : CIDict.t stat_row) (member : Member) : exc bool :=
  should_cascade (S (CIDict.len members)) members replication member.

(** The key of the sort, in reverse order *)
Definition replica_leb (x y : _Replica) : bool :=
  (r_sync_priority y <? r_sync_priority x) ||
  ((r_sync_priority y =? r_sync_priority x) &&
   String.leb (sync_state y) (sync_state x) &&
   (negb (sync_state y =? sync_state x)%string || (r_lsn y <=? r_lsn x))).

(** One round of the loop of [_ReplicaList.__init__]: the element it appends, if any *)
Definition replica_of_row (col : stat_row → option Z) (members : CIDict.t Member) (replication : CIDict.t stat_row)
    (row : stat_row) : exc (option _Replica) :=
  match CIDict.get (row_application_name row) members, col row with
  | Some member, Some lsn =>
      cascades ← _should_cascade members replication member;
      if cascades : bool then mret None else
      nofail ← nofailover member;
      priority ← sync_priority member;
      mret (Some (MkReplica (row_pid row) (row_application_name row) (row_sync_state row) lsn nofail priority))
  | _, _ => mret None
  end.

Fixpoint omapM {A B} (f : A → exc (option B)) (l : list A) : exc (list B) :=
  match l with
  | [] => mret []
  | x :: l' => y ← f x; r ← omapM f l'; mret (match (y : option B) with Some y => y :: r | None => r end)
  end.

Section handler.
Context `{!Datetime} {W : Type} `{!SyncPostgres W}.
Implicit Types (g : GlobalConfig) (c : Cluster).

(** [_ReplicaList.__init__]: the list and [max_lsn] *)
Definition replica_list (w : W) c : exc (list _Replica * Z) :=
  let col := sort_col (synchronous_commit w) in
  members ← eligible_members (pg_name w) (members c);
  let replication := eligible_rows col members (pg_stat_replication w) in
  l ← omapM (replica_of_row col members replication) (CIDict.values replication);
  let l := sort_by replica_leb l in
  mret (l, if (1 <? length l)%nat then foldl (λ acc r, Z.max acc (r_lsn r)) (default 0 (r_lsn <$> head l)) l
           else last_operation w).

(** ** The handler *)

Definition handler_state : Type := SyncHandler * W.
Definition syncM (A : Type) : Type := eff handler_state A.

#[global] Instance syncM_ret : MRet syncM := eff_ret _.
#[global] Instance syncM_bind : MBind syncM := eff_bind _.

Definition ask {A} (f : W → A) : syncM A := gets (λ s, f s.2).
Definition act {A} (f : W → exc A * W) : syncM A := λ s, let '(r, w) := f s.2 in (r, (s.1, w)).
Definition handler : syncM SyncHandler := gets fst.
Definition update_handler (f : SyncHandler → SyncHandler) : syncM () := puts (λ s, (f s.1, s.2)).

Definition set_ssn (value : string) (data : SSN) (h : SyncHandler) : SyncHandler :=
  MkHandler value data (_primary_flush_lsn h) (_ready_replicas h).
Definition set_flush_lsn (lsn : Z) (h : SyncHandler) : SyncHandler :=
  MkHandler (_synchronous_standby_names h) (_ssn_data h) lsn (_ready_replicas h).
Definition set_ready (r : CIDict.t Z) (h : SyncHandler) : SyncHandler :=
  MkHandler (_synchronous_standby_names h) (_ssn_data h) (_primary_flush_lsn h) r.

(** The parsed value, the empty one when it can not be parsed *)
Definition ssn_or_empty (value : string) : SSN :=
  match parse_sync_standby_names value with Ok d => d | Raise _ => _EMPTY_SSN end.

(** The cache of "sync" connections without those that are not listed any more *)
Definition drop_unlisted (data : SSN) (ready : CIDict.t Z) : CIDict.t Z :=
  foldl (λ r app_name, if CISet.mem app_name (ssn_members data) then r else CIDict.del app_name r)
    ready (CIDict.keys ready).

(** [_handle_synchronous_standby_names_change] *)
Definition _handle_synchronous_standby_names_change : syncM () :=
  value ← ask synchronous_standby_names;
  h ← handler;
  if (value =? _synchronous_standby_names h)%string then mret () else
  let data := ssn_or_empty value in
  update_handler (set_ssn value data);;
  update_handler (λ h, set_ready (drop_unlisted data (_ready_replicas h)) h);;
  lsn ← ask last_operation;
  update_handler (set_flush_lsn lsn);;
  act query_txid_current;;
  act reset_cluster_info_state.

(** The test of [_process_replica_readiness] for a listed replica that is not ready *)
Definition is_ready g c (supports_quorum : bool) (flush : Z) (r : _Replica) : exc bool :=
  if is_quorum_commit_mode g then
    mret ((flush <=? r_lsn r) &&
          ((sync_state r =? "quorum")%string ||
           (negb supports_quorum && bool_decide (sync_state r ∈ ["sync"; "potential"]))))
  else
    m ← matches (sync c) (Some (application_name r)) false;
    mret (m || ((sync_state r =? "sync")%string && (flush <=? r_lsn r))).

Definition process_replica g c (r : _Replica) : syncM () :=
  h ← handler;
  if negb (CIDict.mem (application_name r) (_ready_replicas h)) &&
     CISet.mem (application_name r) (ssn_members (_ssn_data h)) then
    supports ← ask supports_quorum_commit;
    ready ← lift_exc (is_ready g c supports (_primary_flush_lsn h) r);
    if ready : bool
    then update_handler (λ h, set_ready (CIDict.set (application_name r) (pid r) (_ready_replicas h)) h)
    else mret ()
  else mret ().

(** [_process_replica_readiness] *)
Definition _process_replica_readiness g c (l : list _Replica) : syncM () := for_each l (process_replica g c).

(** The loop of [current_state] over the candidates: the active nodes and the confirmed ones *)
Fixpoint choose (quorum_mode : bool) (count maxlag max_lsn : Z) (ready : CIDict.t Z) (l : list _Replica)
    (acc : CISet.t * CISet.t) : CISet.t * CISet.t :=
  match l with
  | [] => acc
  | r :: l' =>
      let '(active, confirmed) := acc in
      let name := application_name r in
      if (maxlag <=? 0) || (max_lsn - r_lsn r <=? maxlag) then
        if quorum_mode then
          if negb (r_nofailover r) || (Z.of_nat (CISet.len active) <? count) then
            choose quorum_mode count maxlag max_lsn ready l'
              (CISet.add name active, if CIDict.mem name ready then CISet.add name confirmed else confirmed)
          else choose quorum_mode count maxlag max_lsn ready l' acc
        else
          let active := CISet.add name active in
          let confirmed := if (sync_state r =? "sync")%string && CIDict.mem name ready
                           then CISet.add name confirmed else confirmed in
          if count <=? Z.of_nat (CISet.len active) then (active, confirmed)
          else choose quorum_mode count maxlag max_lsn ready l' (active, confirmed)
      else choose quorum_mode count maxlag max_lsn ready l' acc
  end.

(** Candidates that may be promoted first *)
Definition nofailover_leb (x y : _Replica) : bool := negb (r_nofailover x) || r_nofailover y.

(** [current_state] *)
Definition current_state g c : syncM _SyncState :=
  _handle_synchronous_standby_names_change;;
  w ← ask id;
  rl ← lift_exc (replica_list w c);
  let '(l, max_lsn) := (rl : list _Replica * Z) in
  _process_replica_readiness g c l;;
  count ← lift_exc (if supports_multiple_sync w then synchronous_node_count g else mret 1);
  maxlag ← lift_exc (maximum_lag_on_syncnode g);
  h ← handler;
  let '(active, confirmed) :=
    choose (is_quorum_commit_mode g) count maxlag max_lsn (_ready_replicas h) (sort_by nofailover_leb l)
      (CISet.empty, CISet.empty) in
  let data := _ssn_data h in
  mret (MkSyncState (sync_type_ data) (num data) (if has_star data then CISet.empty else ssn_members data)
          confirmed active).

(** [set_synchronous_standby_names] *)
Definition set_synchronous_standby_names g (sync : list string) (n : option Z) : syncM () :=
  w ← ask id;
  let '(param, has_asterisk) :=
    sync_param (supports_multiple_sync w) (supports_quorum_commit w) (is_quorum_commit_mode g) sync n in
  changed ← act (config_set_synchronous_standby_names param);
  go ← (if changed : bool then ask is_primary_running else mret false);
  if negb go || has_asterisk then mret () else
  act reset_cluster_info_state;;
  timeline ← ask get_primary_timeline;
  if 0 <? timeline then _handle_synchronous_standby_names_change else mret ().
End handler.
