(* ===== verification/SyncProps.v ===== *)
(** * Properties of synchronous replication

    The invariant of [SyncHandler] over every sequence of its operations, what
    [current_state] may report as synchronous, how many nodes it chooses and which ones,
    and the recursion over [replicatefrom] tags. *)
From S2P Require Import Prelude PyDict PyVal Effects Collections Utils Tags DcsData GlobalConfig SyncNames Sync.

Open Scope string_scope.
Open Scope Z_scope.

(** ** The choice among the candidates *)

Definition within (maxlag max_lsn : Z) (r : _Replica) : bool := (maxlag <=? 0) || (max_lsn - r_lsn r <=? maxlag).

Definition key_of (r : _Replica) : string := Str.lower (application_name r).

Section choose.
Context (count maxlag max_lsn : Z) (ready : CIDict.t Z).
Implicit Types (l : list _Replica) (acc : CISet.t * CISet.t).

(** The candidate [r] taken *)
Definition pick q (r : _Replica) acc : CISet.t * CISet.t :=
  (CISet.add (application_name r) acc.1,
   if (q || (sync_state r =? "sync")%string) && CIDict.mem (application_name r) ready
   then CISet.add (application_name r) acc.2 else acc.2).

Lemma choose_inv (P : CISet.t * CISet.t → Prop) q l acc :
  (∀ r acc, r ∈ l → within maxlag max_lsn r = true → P acc → P (pick q r acc)) →
  P acc → P (choose q count maxlag max_lsn ready l acc).
Proof.
  revert acc. induction l as [|r l IH]; intros [a b] Hstep Hp; [done|]. simpl. fold (within maxlag max_lsn r).
  assert (∀ r acc, r ∈ l → within maxlag max_lsn r = true → P acc → P (pick q r acc)) as Hstep'
    by (intros x acc Hx; apply Hstep; by constructor).
  destruct (within maxlag max_lsn r) eqn:Hin; [|by apply IH].
  pose proof (Hstep r (a, b) ltac:(constructor) Hin Hp) as Hr. unfold pick in Hr. simpl in Hr.
  destruct q; simpl in Hr.
  - destruct (_ || _); by apply IH.
  - destruct (_ <=? _); [done|by apply IH].
Qed.

Lemma choose_wf q l acc : CISet.wf acc.1 → CISet.wf (choose q count maxlag max_lsn ready l acc).1.
Proof. apply (choose_inv (λ acc, CISet.wf acc.1)). intros r [a b] _ _ Ha. simpl in *. auto with ciset. Qed.

Lemma choose_wf_confirmed q l acc : CISet.wf acc.2 → CISet.wf (choose q count maxlag max_lsn ready l acc).2.
Proof.
  apply (choose_inv (λ acc, CISet.wf acc.2)). intros r [a b] _ _ Hb. unfold pick. simpl in *.
  destruct (_ && _); auto with ciset.
Qed.

(** Everything chosen is a candidate, everything confirmed is active and ready. *)
Definition sound q l acc : Prop :=
  (∀ k, k ∈ CISet.elems acc.1 → ∃ x, x ∈ l ∧ key_of x = k ∧ within maxlag max_lsn x = true) ∧
  (∀ k, k ∈ CISet.elems acc.2 → k ∈ CISet.elems acc.1 ∧ ∃ x, x ∈ l ∧ key_of x = k ∧
     CIDict.mem (application_name x) ready = true ∧ (q = false → sync_state x = "sync")).

Lemma choose_sound q l : sound q l (choose q count maxlag max_lsn ready l (CISet.empty, CISet.empty)).
Proof.
  apply (choose_inv (sound q l)); [|split; intros k; simpl; rewrite CISet.elems_empty; set_solver].
  intros r [a b] Hr Hin [H1 H2]. unfold sound, pick in *. simpl in *.
  rewrite CISet.elems_add. fold (key_of r). split.
  - intros k [->%elem_of_singleton|Hk]%elem_of_union; [by exists r|by apply H1].
  - intros k. destruct (_ && _) eqn:E.
    + apply andb_prop in E as [Hs Hm]. rewrite CISet.elems_add. fold (key_of r).
      intros [->%elem_of_singleton|Hk]%elem_of_union.
      * split; [set_solver|]. exists r. split_and!; try done. intros ->. by apply String.eqb_eq.
      * destruct (H2 k Hk) as [Ha Hx]. split; [set_solver|done].
    + intros Hk. destruct (H2 k Hk) as [Ha Hx]. split; [set_solver|done].
Qed.

(** Without quorum commit the chosen nodes are the first ones of the list. *)
Lemma choose_priority l acc : CISet.wf acc.1 → NoDup (key_of <$> l) →
  (∀ x, x ∈ l → key_of x ∉ CISet.elems acc.1) → Z.of_nat (size (CISet.elems acc.1)) < Z.max 1 count →
  CISet.elems (choose false count maxlag max_lsn ready l acc).1 =
  CISet.elems acc.1 ∪ list_to_set (take (Z.to_nat (Z.max 1 count) - size (CISet.elems acc.1))
                                     (key_of <$> List.filter (within maxlag max_lsn) l)).
Proof.
  revert acc. induction l as [|r l IH]; intros [a b] Ha Hnd Hni Hlt; simpl in *; [by rewrite take_nil; set_solver|].
  apply NoDup_cons in Hnd as [Hr Hnd]. fold (within maxlag max_lsn r).
  assert (∀ x, x ∈ l → key_of x ∉ CISet.elems a) as Hni' by (intros x Hx; apply Hni; by constructor).
  destruct (within maxlag max_lsn r); [|by apply IH].
  assert (key_of r ∉ CISet.elems a) as Hra by (apply Hni; constructor).
  assert (CISet.wf (CISet.add (application_name r) a)) as Hwf by auto with ciset.
  assert (size (CISet.elems (CISet.add (application_name r) a)) = S (size (CISet.elems a))) as Hsz.
  { rewrite CISet.elems_add. fold (key_of r). rewrite size_union by set_solver. by rewrite size_singleton. }
  rewrite CISet.len_size, Hsz by done.
  replace (Z.to_nat (Z.max 1 count) - size (CISet.elems a))%nat
    with (S (Z.to_nat (Z.max 1 count) - S (size (CISet.elems a)))) by lia.
  cbn [fmap list_fmap take list_to_set]. destruct (Z.leb_spec count (Z.of_nat (S (size (CISet.elems a))))).
  - replace (Z.to_nat (Z.max 1 count) - S (size (CISet.elems a)))%nat with 0%nat by lia.
    simpl. rewrite CISet.elems_add. fold (key_of r). set_solver.
  - rewrite IH; [|done|done| |simpl; lia].
    + simpl. rewrite Hsz, CISet.elems_add. fold (key_of r). set_solver.
    + simpl. intros x Hx. rewrite CISet.elems_add. fold (key_of r).
      assert (key_of x ≠ key_of r) by (intros He; apply Hr; rewrite <-He; by apply list_elem_of_fmap_2).
      specialize (Hni' x Hx). set_solver.
Qed.
End choose.

Lemma insert_nofailover r (l1 l2 : list _Replica) : r_nofailover r = true →
  Forall (λ y, r_nofailover y = false) l1 → Forall (λ y, r_nofailover y = true) l2 →
  insert_by nofailover_leb r (l1 ++ l2) = (l1 ++ r :: l2)%list.
Proof.
  intros Hr H1 H2. induction H1 as [|y l1 Hy H1 IH]; simpl.
  - destruct H2 as [|y l2 Hy H2]; [done|]. simpl. unfold nofailover_leb. by rewrite Hy, orb_true_r.
  - unfold nofailover_leb at 1. rewrite Hr, Hy. simpl. by rewrite IH.
Qed.

Lemma Forall_filter {A} (p : A → bool) (l : list A) : Forall (λ x, p x = true) (List.filter p l).
Proof. induction l as [|x l IH]; simpl; [constructor|]. destruct (p x) eqn:E; [by constructor|done]. Qed.

Definition promotable (r : _Replica) : bool := negb (r_nofailover r).

Lemma promotable_false l : Forall (λ x, promotable x = true) l → Forall (λ x, r_nofailover x = false) l.
Proof. intros H. eapply Forall_impl; [exact H|]. intros x. unfold promotable. by destruct (r_nofailover x). Qed.

Lemma sort_promotable (l : list _Replica) :
  sort_by nofailover_leb l = (List.filter promotable l ++ List.filter r_nofailover l)%list.
Proof.
  induction l as [|r l IH]; [done|]. simpl. rewrite IH. clear IH. unfold promotable at 2.
  destruct (r_nofailover r) eqn:E; simpl.
  - apply insert_nofailover; [done| |apply Forall_filter]. apply promotable_false, Forall_filter.
  - destruct (_ ++ _)%list as [|y l'] eqn:El; simpl; [done|]. unfold nofailover_leb. by rewrite E.
Qed.

Section choose_quorum.
Context (count maxlag max_lsn : Z) (ready : CIDict.t Z).
Implicit Types (l : list _Replica) (acc : CISet.t * CISet.t).
Let names l : list string := key_of <$> List.filter (within maxlag max_lsn) l.

Lemma choose_app l1 l2 acc :
  choose true count maxlag max_lsn ready (l1 ++ l2) acc =
  choose true count maxlag max_lsn ready l2 (choose true count maxlag max_lsn ready l1 acc).
Proof. revert acc. induction l1 as [|r l1 IH]; intros [a b]; simpl; [done|]. by repeat case_match. Qed.

(** With quorum commit every candidate that may be promoted is chosen. *)
Lemma choose_promotable l acc : Forall (λ r, r_nofailover r = false) l →
  CISet.elems (choose true count maxlag max_lsn ready l acc).1 = CISet.elems acc.1 ∪ list_to_set (names l).
Proof.
  intros Hl. revert acc. induction Hl as [|r l Hr Hl IH]; intros [a b]; simpl; [set_solver|].
  rewrite Hr. simpl. fold (within maxlag max_lsn r). unfold names in *. simpl.
  destruct (within maxlag max_lsn r); rewrite IH; [|done]. simpl. rewrite CISet.elems_add. fold (key_of r). set_solver.
Qed.

(** The others fill up to the wanted number. *)
Lemma choose_others l acc : CISet.wf acc.1 → Forall (λ r, r_nofailover r = true) l → NoDup (key_of <$> l) →
  (∀ x, x ∈ l → key_of x ∉ CISet.elems acc.1) →
  CISet.elems (choose true count maxlag max_lsn ready l acc).1 =
  CISet.elems acc.1 ∪ list_to_set (take (Z.to_nat count - size (CISet.elems acc.1)) (names l)).
Proof.
  intros Ha Hl. revert acc Ha. induction Hl as [|r l Hr Hl IH]; intros [a b] Ha Hnd Hni; simpl in *;
    [unfold names; simpl; rewrite take_nil; set_solver|].
  apply NoDup_cons in Hnd as [Hrl Hnd]. rewrite Hr. simpl. fold (within maxlag max_lsn r).
  assert (∀ x, x ∈ l → key_of x ∉ CISet.elems a) as Hni' by (intros x Hx; apply Hni; by constructor).
  unfold names in *. simpl. destruct (within maxlag max_lsn r); [|by apply IH].
  assert (key_of r ∉ CISet.elems a) as Hra by (apply Hni; constructor).
  rewrite CISet.len_size by done. destruct (Z.ltb_spec (Z.of_nat (size (CISet.elems a))) count).
  - assert (CISet.wf (CISet.add (application_name r) a)) as Hwf by auto with ciset.
    rewrite IH; [|done|done|].
    + simpl. rewrite CISet.elems_add. fold (key_of r). rewrite size_union, size_singleton by set_solver.
      replace (Z.to_nat count - size (CISet.elems a))%nat
        with (S (Z.to_nat count - (1 + size (CISet.elems a))))%nat by lia. simpl. set_solver.
    + simpl. intros x Hx. rewrite CISet.elems_add. fold (key_of r).
      assert (key_of x ≠ key_of r) by (intros He; apply Hrl; rewrite <-He; by apply list_elem_of_fmap_2).
      specialize (Hni' x Hx). set_solver.
  - rewrite IH by done. simpl.
    by replace (Z.to_nat count - size (CISet.elems a))%nat with 0%nat by lia.
Qed.
End choose_quorum.

(** ** The candidates *)

Section by_name.
Context {V : Type} (key : V → string).

Lemma by_name_wf (l : list V) : CIDict.wf (by_name key l).
Proof. apply CIDict.wf_of_dict. Qed.

Lemma by_name_values (l : list V) : Forall (λ kv, kv.2.1 = key kv.2.2 ∧ kv.2.2 ∈ l) (by_name key l).
Proof.
  unfold by_name, CIDict.of_dict. apply (CIDict.Forall_fold (λ nv, nv.1 = key nv.2 ∧ nv.2 ∈ l)); [|constructor].
  apply Dict.Forall_of_items, Forall_forall. intros nv (v & -> & Hv)%list_elem_of_fmap_1. by split.
Qed.

Lemma by_name_NoDup (l : list V) : NoDup ((λ v, Str.lower (key v)) <$> CIDict.values (by_name key l)).
Proof.
  assert ((λ v, Str.lower (key v)) <$> CIDict.values (by_name key l) = CIDict.keys (by_name key l)) as ->.
  - rewrite <-CIDict.lower_iter by apply by_name_wf. pose proof (by_name_values l) as Hv.
    unfold CIDict.values, CIDict.iter, Dict.values. induction Hv as [|[k [n v]] d [Hn _] Hd IH]; simpl in *; [done|].
    by f_equal; [rewrite Hn|exact IH].
  - apply by_name_wf.
Qed.

Lemma by_name_elem (l : list V) v : v ∈ CIDict.values (by_name key l) → v ∈ l.
Proof.
  unfold CIDict.values, Dict.values. intros (nv & -> & (kv & -> & Hkv)%list_elem_of_fmap_1)%list_elem_of_fmap_1.
  pose proof (by_name_values l) as Hv. rewrite Forall_forall in Hv. by apply Hv.
Qed.

Lemma by_name_get (l : list V) k v : CIDict.get k (by_name key l) = Some v → v ∈ l ∧ Str.lower (key v) = Str.lower k.
Proof.
  unfold CIDict.get. destruct (Dict.get _ _) as [[n v']|] eqn:E; [|done]. simpl. intros [= ->].
  apply Dict.get_Some_elem in E. pose proof (by_name_values l) as Hv. pose proof (by_name_wf l) as [_ Hw].
  rewrite Forall_forall in Hv, Hw. destruct (Hv _ E) as [Hn Hl]. specialize (Hw _ E). simpl in *. by rewrite <-Hn.
Qed.
End by_name.

Lemma omapM_keys {A B K} (f : A → exc (option B)) (kx : A → K) (ky : B → K) l l' :
  (∀ x y, f x = Ok (Some y) → ky y = kx x) → omapM f l = Ok l' → sublist (ky <$> l') (kx <$> l).
Proof.
  intros Hf. revert l'. induction l as [|x l IH]; intros l'; simpl; [by intros [= <-]|].
  destruct (f x) as [y|] eqn:E; simpl; [|done]. destruct (omapM f l) as [r|]; simpl; [|done].
  intros [= <-]. destruct y as [y|]; simpl; [rewrite (Hf _ _ E)|]; constructor; auto.
Qed.

Lemma omapM_elem {A B} (f : A → exc (option B)) l l' y :
  omapM f l = Ok l' → y ∈ l' → ∃ x, x ∈ l ∧ f x = Ok (Some y).
Proof.
  revert l'. induction l as [|x l IH]; intros l'; simpl; [by intros [= <-] ?%elem_of_nil|].
  destruct (f x) as [o|] eqn:E; simpl; [|done]. destruct (omapM f l) as [r|]; simpl; [|done].
  intros [= <-] Hy. destruct o as [z|].
  - apply elem_of_cons in Hy as [->|Hy]; [exists x; split; [constructor|done]|].
    destruct (IH _ eq_refl Hy) as (x' & Hx & Hf). exists x'. split; [by constructor|done].
  - destruct (IH _ eq_refl Hy) as (x' & Hx & Hf). exists x'. split; [by constructor|done].
Qed.

Lemma filterM_elem {A} (p : A → exc bool) l l' x : filterM p l = Ok l' → x ∈ l' → x ∈ l ∧ p x = Ok true.
Proof.
  revert l'. induction l as [|y l IH]; intros l'; simpl; [by intros [= <-] ?%elem_of_nil|].
  destruct (p y) as [b|] eqn:E; simpl; [|done]. destruct (filterM p l) as [r|]; simpl; [|done].
  intros [= <-] Hx. destruct b.
  - apply elem_of_cons in Hx as [->|Hx]; [by split; [constructor|]|].
    destruct (IH _ eq_refl Hx). by split; [constructor|].
  - destruct (IH _ eq_refl Hx). by split; [constructor|].
Qed.

Lemma leb_le s t : String.leb s t = true ↔ String.le s t.
Proof. unfold String.le. by destruct (String.leb s t). Qed.

Lemma leb_antisym s t : String.leb s t = true → String.leb t s = true → s = t.
Proof. rewrite !leb_le. apply anti_symm, _. Qed.

Lemma replica_leb_total x y : replica_leb x y = true ∨ replica_leb y x = true.
Proof.
  unfold replica_leb. destruct (Z.lt_trichotomy (r_sync_priority x) (r_sync_priority y)) as [H|[H|H]].
  - right. by rewrite (proj2 (Z.ltb_lt _ _) H).
  - rewrite H, Z.ltb_irrefl, Z.eqb_refl. simpl. destruct (String.eqb_spec (sync_state x) (sync_state y)) as [He|Hne].
    + rewrite He, String.eqb_refl. simpl. assert (String.leb (sync_state y) (sync_state y) = true) as ->
        by (by apply leb_le). destruct (Z.le_ge_cases (r_lsn y) (r_lsn x)); [left|right]; by apply Z.leb_le.
    + destruct (String.eqb_spec (sync_state y) (sync_state x)) as [He|_]; [by rewrite He in Hne|].
      simpl. rewrite !andb_true_r, !leb_le. destruct (total String.le (sync_state y) (sync_state x)); auto.
  - left. by rewrite (proj2 (Z.ltb_lt _ _) H).
Qed.

Lemma replica_leb_trans x y z : replica_leb x y = true → replica_leb y z = true → replica_leb x z = true.
Proof.
  unfold replica_leb. rewrite !orb_true_iff, !andb_true_iff, !orb_true_iff, !negb_true_iff, !Z.ltb_lt, !Z.eqb_eq,
    !Z.leb_le, !String.eqb_neq, !leb_le.
  intros [H1|((H1 & L1) & C1)] [H2|((H2 & L2) & C2)]; [left; lia..|]. right. split_and!; [lia|by etrans|].
  destruct (decide (sync_state z = sync_state x)) as [He|]; [|by left]. right.
  assert (sync_state y = sync_state x) as Hyx by (apply (anti_symm String.le); [done|by rewrite <-He]).
  destruct C1 as [C1|C1]; [done|]. destruct C2 as [C2|C2]; [congruence|]. lia.
Qed.

(** A replica that may be chosen: it streams, and its member key says that it runs, may be
    synchronous and is not this node. *)
Definition candidate `{!Datetime} {W} `{!SyncPostgres W} (w : W) (c : Cluster) (r : _Replica) : Prop :=
  ∃ row m, row ∈ pg_stat_replication w ∧ row_application_name row = application_name r ∧
    sort_col (synchronous_commit w) row = Some (r_lsn r) ∧ row_sync_state row = sync_state r ∧
    m ∈ members c ∧ Str.lower (m_name m) = key_of r ∧ is_running m = true ∧ nosync m = Ok false ∧
    nofailover m = Ok (r_nofailover r) ∧ key_of r ≠ Str.lower (pg_name w).

Lemma may_be_sync_true name m : may_be_sync name m = Ok true →
  is_running m = true ∧ nosync m = Ok false ∧ Str.lower (m_name m) ≠ Str.lower name.
Proof.
  unfold may_be_sync. destruct (is_running m); [|done]. destruct (nosync m) as [b|]; [|done].
  intros [= H]. apply andb_prop in H as [Hb Hn]. destruct b; [done|].
  by destruct (String.eqb_spec (Str.lower (m_name m)) (Str.lower name)).
Qed.

Section replica_list.
Context `{!Datetime} {W : Type} `{!SyncPostgres W}.

Lemma replica_list_spec (w : W) c l max_lsn : replica_list w c = Ok (l, max_lsn) →
  NoDup (key_of <$> l) ∧ (∀ r, r ∈ l → candidate w c r) ∧ StronglySorted (λ x y, replica_leb x y = true) l.
Proof.
  unfold replica_list, eligible_members. destruct (filterM _ _) as [ms|] eqn:Hms; simpl; [|done].
  set (col := sort_col (synchronous_commit w)). set (mem := by_name m_name ms). set (rows := eligible_rows _ _ _).
  destruct (omapM _ _) as [l0|] eqn:Hl; simpl; [|done]. intros [= <- _].
  assert (∀ x y, replica_of_row col mem rows x = Ok (Some y) → key_of y = Str.lower (row_application_name x)) as Hkey.
  { intros x y. unfold replica_of_row. destruct (CIDict.get _ _); [|done]. destruct (col x); [|done].
    destruct (_should_cascade _ _ _) as [[]|]; simpl; [done| |done]. destruct (nofailover _); simpl; [|done].
    destruct (sync_priority _); simpl; [|done]. by intros [= <-]. }
  split_and!.
  - rewrite sort_by_perm. eapply sublist_NoDup; [|exact (omapM_keys _ _ _ _ _ Hkey Hl)].
    apply by_name_NoDup.
  - intros r Hr. rewrite elem_of_sort_by in Hr. destruct (omapM_elem _ _ _ _ Hl Hr) as (row & Hrow & Hf).
    apply by_name_elem in Hrow. apply list_elem_of_In, List.filter_In in Hrow as [Hrow%list_elem_of_In _].
    unfold replica_of_row in Hf. destruct (CIDict.get _ _) as [m|] eqn:Hm; [|done].
    destruct (col row) as [lsn|] eqn:Hc; [|done]. destruct (_should_cascade _ _ _) as [[]|]; simpl in Hf; [done| |done].
    destruct (nofailover m) as [nf|] eqn:Hnf; simpl in Hf; [|done].
    destruct (sync_priority m); simpl in Hf; [|done]. injection Hf as <-.
    apply by_name_get in Hm as [Hm Hname]. destruct (filterM_elem _ _ _ _ Hms Hm) as [Hin Hok].
    apply may_be_sync_true in Hok as (Hrun & Hns & Hne). exists row, m. unfold key_of. simpl. rewrite <-Hname.
    by split_and!.
  - apply sort_by_sorted; [apply replica_leb_total|apply replica_leb_trans].
Qed.
End replica_list.

(** ** The handler *)

(** The parsed value is that of the last value seen, and only listed replicas are ready. *)
Definition handler_ok (h : SyncHandler) : Prop :=
  _ssn_data h = ssn_or_empty (_synchronous_standby_names h) ∧
  ∀ k, CIDict.mem k (_ready_replicas h) = true → CISet.mem k (ssn_members (_ssn_data h)) = true.

Lemma mem_del k a (d : CIDict.t Z) :
  CIDict.mem k (CIDict.del a d) = true ↔ Str.lower k ≠ Str.lower a ∧ CIDict.mem k d = true.
Proof. unfold CIDict.mem, CIDict.del. rewrite !Dict.mem_true. apply Dict.elem_of_keys_del. Qed.

Lemma drop_unlisted_mem data (ready : CIDict.t Z) k : CIDict.mem k (drop_unlisted data ready) = true →
  CIDict.mem k ready = true ∧ CISet.mem k (ssn_members data) = true.
Proof.
  unfold drop_unlisted. intros H.
  assert (∀ l (r : CIDict.t Z), CIDict.mem k (foldl (λ r a, if CISet.mem a (ssn_members data) then r else CIDict.del a r) r l) = true →
    CIDict.mem k r = true ∧ ∀ a, a ∈ l → Str.lower a = Str.lower k → CISet.mem a (ssn_members data) = true) as Hfold.
  { clear H. induction l as [|a l IH]; intros r; simpl; [intros H; by split; [|intros a ?%elem_of_nil]|].
    intros [Hr Hl]%IH. destruct (CISet.mem a _) eqn:Ha.
    - split; [done|]. intros b [->|Hb]%elem_of_cons Hk; [done|by apply Hl].
    - apply mem_del in Hr as [Hne Hr]. split; [done|].
      intros b [->|Hb]%elem_of_cons Hk; [by rewrite Hk in Hne|by apply Hl]. }
  destruct (Hfold _ _ H) as [Hm Hl]. split; [done|].
  assert (CISet.mem (Str.lower k) (ssn_members data) = true) as Hk.
  { apply Hl; [|apply Str.lower_idemp]. by apply Dict.mem_true. }
  revert Hk. unfold CISet.mem. by rewrite Str.lower_idemp.
Qed.

Section handler.
Context `{!Datetime} {W : Type} `{!SyncPostgres W}.
Implicit Types (g : GlobalConfig) (c : Cluster) (s : SyncHandler * W).

Lemma ok_set_ssn value h : handler_ok h →
  handler_ok (set_ready (drop_unlisted (ssn_or_empty value) (_ready_replicas h)) (set_ssn value (ssn_or_empty value) h)).
Proof. intros [_ _]. split; [done|]. simpl. intros k Hk. by apply drop_unlisted_mem in Hk as [_ ?]. Qed.

(** What a change of the value does to the handler *)
Definition changed (w : W) (h : SyncHandler) : SyncHandler :=
  let value := synchronous_standby_names w in
  if (value =? _synchronous_standby_names h)%string then h else
  set_flush_lsn (last_operation w)
    (set_ready (drop_unlisted (ssn_or_empty value) (_ready_replicas h)) (set_ssn value (ssn_or_empty value) h)).

Lemma handle_change_fst s : (_handle_synchronous_standby_names_change s).2.1 = changed s.2 s.1.
Proof.
  destruct s as [h w]. unfold _handle_synchronous_standby_names_change, changed, ask, handler, update_handler, act, gets, puts,
    mbind, syncM_bind, eff_bind. simpl.
  destruct (_ =? _)%string; [done|]. simpl. destruct (query_txid_current w) as [[[]|e] w1]; simpl; [|done].
  by destruct (reset_cluster_info_state w1).
Qed.

Lemma changed_ok w h : handler_ok h → handler_ok (changed w h).
Proof.
  intros Hok. unfold changed. destruct (_ =? _)%string; [done|]. destruct (ok_set_ssn (synchronous_standby_names w) h Hok).
  by split.
Qed.

Lemma changed_ssn w h : _synchronous_standby_names (changed w h) = synchronous_standby_names w.
Proof. unfold changed. by destruct (String.eqb_spec (synchronous_standby_names w) (_synchronous_standby_names h)). Qed.

(** Readiness only grows, and only by replicas that pass the test. *)
Definition readied g c (l : list _Replica) s0 s : Prop :=
  s.2 = s0.2 ∧ _synchronous_standby_names s.1 = _synchronous_standby_names s0.1 ∧ _ssn_data s.1 = _ssn_data s0.1 ∧
  _primary_flush_lsn s.1 = _primary_flush_lsn s0.1 ∧
  ∀ k, CIDict.mem k (_ready_replicas s.1) = true → CIDict.mem k (_ready_replicas s0.1) = true ∨
    ∃ x, x ∈ l ∧ key_of x = Str.lower k ∧ CISet.mem k (ssn_members (_ssn_data s0.1)) = true ∧
      is_ready g c (supports_quorum_commit s0.2) (_primary_flush_lsn s0.1) x = Ok true.

Lemma process_readied g c l s : readied g c l s (_process_replica_readiness g c l s).2.
Proof.
  unfold _process_replica_readiness. apply (for_each_inv (readied g c l s)); [|by split_and!; auto].
  intros x [h w] Hx (Hw & Hn & Hd & Hf & Hr). simpl in *. subst w. unfold process_replica, handler, ask, update_handler, lift_exc,
    gets, puts, mbind, syncM_bind, eff_bind. simpl.
  destruct (_ && _) eqn:E; [|by split_and!]. apply andb_prop in E as [_ Hm]. simpl.
  destruct (is_ready _ _ _ _ _) as [[]|] eqn:Hi; simpl; [|by split_and!..].
  split_and!; simpl; try done. intros k Hk. unfold set_ready in Hk. simpl in Hk. rewrite CIDict.mem_set in Hk.
  apply orb_true_iff in Hk as [Hk%bool_decide_eq_true|Hk]; [|auto]. right. exists x.
  rewrite Hd in Hm. rewrite Hf in Hi. split_and!; [done|done| |done].
  unfold CISet.mem in *. by rewrite Hk.
Qed.

Lemma readied_ok g c l s s' : readied g c l s s' → handler_ok s.1 → handler_ok s'.1.
Proof.
  intros (_ & Hn & Hd & _ & Hr) [Ho Hl]. split; [by rewrite Hd, Hn, Ho|]. intros k Hk. rewrite Hd.
  destruct (Hr k Hk) as [Hm|(x & _ & _ & Hm & _)]; [by apply Hl|done].
Qed.

(** Every handler an agent may have: the initial one, changed by any number of calls of the
    two operations in whatever states of PostgreSQL, whether they succeed or raise. *)
Inductive reachable : SyncHandler → Prop :=
  | reachable_init : reachable sync_handler_init
  | reachable_current_state g c h w : reachable h → reachable (current_state g c (h, w)).2.1
  | reachable_set g sync n h w : reachable h → reachable (set_synchronous_standby_names g sync n (h, w)).2.1.

(** What [current_state] reports *)
Definition report g (h : SyncHandler) (l : list _Replica) (max_lsn count maxlag : Z) : _SyncState :=
  let r := choose (is_quorum_commit_mode g) count maxlag max_lsn (_ready_replicas h) (sort_by nofailover_leb l)
             (CISet.empty, CISet.empty) in
  let data := _ssn_data h in
  MkSyncState (sync_type_ data) (num data) (if has_star data then CISet.empty else ssn_members data) r.2 r.1.

Definition node_count g (w : W) : exc Z := if supports_multiple_sync w then synchronous_node_count g else Ok 1.

(** The steps of [current_state] *)
Lemma current_state_inv g c h w res s2 : current_state g c (h, w) = (res, s2) →
  ∃ r s1, _handle_synchronous_standby_names_change (h, w) = (r, s1) ∧
  (s2 = s1 ∧ (∀ st, res ≠ Ok st) ∨ ∃ l max_lsn, replica_list s1.2 c = Ok (l, max_lsn) ∧ readied g c l s1 s2 ∧
     ∀ st, res = Ok st → ∃ count maxlag, node_count g s1.2 = Ok count ∧ maximum_lag_on_syncnode g = Ok maxlag ∧
       st = report g s2.1 l max_lsn count maxlag).
Proof.
  unfold current_state, ask, gets, lift_exc, handler, mbind, syncM_bind, eff_bind.
  destruct (_handle_synchronous_standby_names_change (h, w)) as [r s1]. intros Hc. exists r, s1. split; [done|].
  destruct r as [[]|e]; simpl in Hc; [|left; by injection Hc as <- <-].
  unfold id in Hc. destruct (replica_list s1.2 c) as [[l max_lsn]|]; simpl in Hc; [|left; by injection Hc as <- <-].
  right. exists l, max_lsn. split; [done|]. pose proof (process_readied g c l s1) as Hp.
  destruct (_process_replica_readiness g c l s1) as [[[]|e] s]; simpl in Hc, Hp; [|by injection Hc as <- <-].
  fold (node_count g s1.2). unfold mret, exc_ret in Hc. fold (node_count g s1.2) in Hc.
  destruct (node_count g s1.2) as [count|]; simpl in Hc; [|by injection Hc as <- <-].
  destruct (maximum_lag_on_syncnode g) as [maxlag|]; simpl in Hc; [|by injection Hc as <- <-].
  destruct (choose _ _ _ _ _ _ _) as [a b] eqn:Hch. unfold syncM_ret, eff_ret in Hc. injection Hc as <- <-.
  split; [done|]. intros st [= <-]. exists count, maxlag. split_and!; [done|done|]. unfold report. by rewrite Hch.
Qed.

Lemma reachable_ok h : reachable h → handler_ok h.
Proof.
  induction 1 as [|g c h w _ IH|g sync n h w _ IH].
  - split; [by vm_compute|]. done.
  - destruct (current_state g c (h, w)) as [res s2] eqn:Hcs. simpl.
    destruct (current_state_inv _ _ _ _ _ _ Hcs) as (r & s1 & E & Hc).
    pose proof (handle_change_fst (h, w)) as Hs. rewrite E in Hs. simpl in Hs.
    assert (handler_ok s1.1) as H1 by (rewrite Hs; by apply changed_ok).
    destruct Hc as [[-> _]|(l & max_lsn & _ & Hl & _)]; [done|by eapply readied_ok].
  - unfold set_synchronous_standby_names, ask, gets, act, mbind, syncM_bind, eff_bind. simpl.
    destruct (sync_param _ _ _ _ _) as [param star]. simpl.
    destruct (config_set_synchronous_standby_names param w) as [[b|e] w1]; simpl; [|done].
    destruct b; simpl; [|done]. destruct (negb _ || star); [done|]. simpl.
    destruct (reset_cluster_info_state w1) as [[[]|e] w2]; simpl; [|done].
    destruct (0 <? _); [|done]. simpl. rewrite handle_change_fst. by apply changed_ok.
Qed.
End handler.
