(* ===== verification/SyncSpec.v ===== *)
(** * What synchronous replication guarantees

    The theorems on [SyncHandler.current_state] and on [_ReplicaList._should_cascade]. *)
From S2P Require Import Prelude PyDict PyVal Effects Collections Utils Tags DcsData GlobalConfig SyncNames Sync SyncProps.

Open Scope string_scope.
Open Scope Z_scope.

Section spec.
Context `{!Datetime} {W : Type} `{!SyncPostgres W}.
Implicit Types (g : GlobalConfig) (c : Cluster) (h : SyncHandler) (w : W) (st : _SyncState) (s : SyncHandler * W).

(** The cases of a successful [current_state] *)
Lemma current_state_ok g c h w st s : current_state g c (h, w) = (Ok st, s) →
  ∃ l max_lsn count maxlag s1, replica_list s.2 c = Ok (l, max_lsn) ∧ node_count g s.2 = Ok count ∧
    maximum_lag_on_syncnode g = Ok maxlag ∧ st = report g s.1 l max_lsn count maxlag ∧
    s1.1 = changed w h ∧ readied g c l s1 s.
Proof.
  intros Hc. destruct (current_state_inv _ _ _ _ _ _ Hc) as (r & s1 & E & [[_ Hn]|(l & max_lsn & Hl & Hr & Hst)]);
    [by destruct (Hn st)|].
  destruct (Hst st eq_refl) as (count & maxlag & Hcount & Hlag & ->). pose proof (handle_change_fst (h, w)) as Hf.
  rewrite E in Hf. simpl in Hf. destruct Hr as (Hw & Hr). exists l, max_lsn, count, maxlag, s1. rewrite Hw.
  by split_and!.
Qed.

Lemma reported_ssn g c h w st s : reachable h → current_state g c (h, w) = (Ok st, s) →
  handler_ok s.1 ∧ _ssn_data s.1 = ssn_or_empty (synchronous_standby_names w).
Proof.
  intros Hr Hc. pose proof (reachable_ok _ (reachable_current_state g c h w Hr)) as Hok. rewrite Hc in Hok. simpl in Hok.
  split; [done|]. destruct Hok as [-> _]. destruct (current_state_ok _ _ _ _ _ _ Hc) as (l & ? & ? & ? & s1 & _ & _ & _ & _ & H1 & H2).
  destruct H2 as (_ & -> & _). by rewrite H1, changed_ssn.
Qed.

Lemma confirmed_in_list g c h w st s : reachable h → current_state g c (h, w) = (Ok st, s) →
  CISet.elems (sync_confirmed st) ⊆ CISet.elems (active st) ∧
  CISet.elems (sync_confirmed st) ⊆ CISet.elems (ssn_members (ssn_or_empty (synchronous_standby_names w))).
Proof.
  intros Hr Hc. destruct (reported_ssn _ _ _ _ _ _ Hr Hc) as [Hok Hssn]. rewrite <-Hssn.
  destruct (current_state_ok _ _ _ _ _ _ Hc) as (l & max_lsn & count & maxlag & s1 & Hl & _ & _ & -> & _).
  unfold report. simpl.
  destruct (choose_sound count maxlag max_lsn (_ready_replicas s.1) (is_quorum_commit_mode g) (sort_by nofailover_leb l)) as [_ Hs].
  split; intros k Hk; [by apply Hs|]. destruct (Hs k Hk) as (_ & x & _ & <- & Hm & _). apply Hok in Hm.
  rewrite CISet.mem_elems in Hm. by apply bool_decide_eq_true in Hm.
Qed.

Lemma to_list_add n v (a : CISet.t) : n ∈ CISet.to_list (CISet.add v a) → n = v ∨ n ∈ CISet.to_list a.
Proof.
  unfold CISet.to_list, CISet.add. simpl. generalize (CISet.values_ a). intros d. unfold Dict.values.
  induction d as [|[k x] d IH]; simpl; [by intros [->|?%elem_of_nil]%elem_of_cons; [left|]|].
  case_decide; simpl; intros [->|Hn]%elem_of_cons; rewrite ?elem_of_cons; auto. destruct (IH Hn); auto.
Qed.

(** The active nodes and the confirmed ones are named as in [pg_stat_replication]. *)
Lemma active_named g c h w st s n : current_state g c (h, w) = (Ok st, s) →
  n ∈ CISet.to_list (active st) ∨ n ∈ CISet.to_list (sync_confirmed st) →
  ∃ row, row ∈ pg_stat_replication s.2 ∧ row_application_name row = n.
Proof.
  intros Hc. destruct (current_state_ok _ _ _ _ _ _ Hc) as (l & max_lsn & count & maxlag & s1 & Hl & _ & _ & -> & _).
  destruct (replica_list_spec _ _ _ _ Hl) as (_ & Hcand & _). unfold report. cbn [active sync_confirmed]. revert n.
  apply (choose_inv count maxlag max_lsn (_ready_replicas s.1) (λ acc, ∀ n, n ∈ CISet.to_list acc.1 ∨ n ∈ CISet.to_list acc.2 →
      ∃ row, row ∈ pg_stat_replication s.2 ∧ row_application_name row = n)); [|by intros n [?%elem_of_nil|?%elem_of_nil]].
  intros r [a b] Hr _ IH n Hn. rewrite elem_of_sort_by in Hr.
  assert (n = application_name r ∨ n ∈ CISet.to_list a ∨ n ∈ CISet.to_list b) as [->|Hold]; [| |by apply IH].
  - unfold pick in Hn. simpl in Hn. destruct Hn as [[->|Hn]%to_list_add|Hn]; [by left|by auto|].
    destruct (_ && _); [apply to_list_add in Hn as [->|Hn]|]; auto.
  - destruct (Hcand r Hr) as (row & _ & Hrow & Hname & _). by exists row.
Qed.

(** C18: a node is only reported as confirmed synchronous while PostgreSQL lists it: for every
    handler an agent may have after any number of calls, successful or not, the confirmed
    nodes are active and among the names of the current value of
    [synchronous_standby_names]; every active node streams from this one, and its member
    key says that it runs and may be synchronous; without quorum commit PostgreSQL itself
    reports the confirmed ones in state sync. *)
Theorem confirmed_listed g c h w st s :
  reachable h → current_state g c (h, w) = (Ok st, s) →
  CISet.elems (sync_confirmed st) ⊆ CISet.elems (active st) ∧
  CISet.elems (sync_confirmed st) ⊆ CISet.elems (ssn_members (ssn_or_empty (synchronous_standby_names w))) ∧
  (∀ k, k ∈ CISet.elems (active st) → ∃ x, candidate s.2 c x ∧ key_of x = k) ∧
  (is_quorum_commit_mode g = false → ∀ k, k ∈ CISet.elems (sync_confirmed st) →
     ∃ x, candidate s.2 c x ∧ key_of x = k ∧ sync_state x = "sync").
Proof.
  intros Hr Hc. destruct (confirmed_in_list _ _ _ _ _ _ Hr Hc) as [Hsub Hlist].
  destruct (current_state_ok _ _ _ _ _ _ Hc) as (l & max_lsn & count & maxlag & s1 & Hl & _ & _ & -> & _).
  destruct (replica_list_spec _ _ _ _ Hl) as (_ & Hcand & _). split; [done|]. split; [done|]. unfold report. simpl.
  destruct (choose_sound count maxlag max_lsn (_ready_replicas s.1) (is_quorum_commit_mode g) (sort_by nofailover_leb l)) as [Ha Hs].
  split.
  - intros k Hk. destruct (Ha k Hk) as (x & Hx & Hk' & _). rewrite elem_of_sort_by in Hx. exists x. auto.
  - intros Hq k Hk. destruct (Hs k Hk) as (_ & x & Hx & Hk' & _ & Hsync). rewrite elem_of_sort_by in Hx. exists x. auto.
Qed.

(** A replica newly listed in [synchronous_standby_names] is counted only once it has
    caught up: with quorum commit, when [current_state] finds a new value every replica
    that becomes ready is a candidate whose position is at least that of the primary at
    the time of the change. *)
Theorem ready_caught_up g c h w st s k :
  current_state g c (h, w) = (Ok st, s) → is_quorum_commit_mode g = true →
  synchronous_standby_names w ≠ _synchronous_standby_names h →
  CIDict.mem k (_ready_replicas s.1) = true → CIDict.mem k (_ready_replicas h) = false →
  ∃ x, candidate s.2 c x ∧ key_of x = Str.lower k ∧ last_operation w <= r_lsn x.
Proof.
  intros Hc Hq Hne Hk Hnot.
  destruct (current_state_ok _ _ _ _ _ _ Hc) as (l & max_lsn & count & maxlag & s1 & Hl & _ & _ & -> & Hs1 & Hr).
  destruct (replica_list_spec _ _ _ _ Hl) as (_ & Hcand & _).
  destruct Hr as (_ & _ & _ & _ & Hr). destruct (Hr k Hk) as [Hold|(x & Hx & Hkey & _ & Hready)].
  - exfalso. rewrite Hs1 in Hold. unfold changed in Hold.
    destruct (String.eqb_spec (synchronous_standby_names w) (_synchronous_standby_names h)); [done|].
    simpl in Hold. apply drop_unlisted_mem in Hold as [Hm _]. congruence.
  - exists x. split_and!; [auto|done|]. unfold is_ready in Hready. rewrite Hq in Hready. injection Hready as Hready.
    apply andb_prop in Hready as [Hle%Z.leb_le _]. rewrite Hs1 in Hle. unfold changed in Hle.
    by destruct (String.eqb_spec (synchronous_standby_names w) (_synchronous_standby_names h)).
Qed.

(** ** Which candidates are chosen *)

(** A candidate that may be promoted comes before one that may not, then comes the one with
    the higher priority, the greater state and the greater position. *)
Definition prefer (x y : _Replica) : Prop :=
  nofailover_leb x y = true ∧ (nofailover_leb y x = true → replica_leb x y = true).

Lemma nofailover_leb_total x y : nofailover_leb x y = true ∨ nofailover_leb y x = true.
Proof. unfold nofailover_leb. destruct (r_nofailover x), (r_nofailover y); auto. Qed.

Lemma nofailover_leb_trans x y z : nofailover_leb x y = true → nofailover_leb y z = true → nofailover_leb x z = true.
Proof. unfold nofailover_leb. by destruct (r_nofailover x), (r_nofailover y), (r_nofailover z). Qed.

Lemma sorted_prefer w c l max_lsn : replica_list w c = Ok (l, max_lsn) →
  StronglySorted prefer (sort_by nofailover_leb l) ∧ NoDup (key_of <$> sort_by nofailover_leb l).
Proof.
  intros Hl. destruct (replica_list_spec _ _ _ _ Hl) as (Hnd & _ & Hs). split.
  - apply sort_by_stable; [apply nofailover_leb_total|apply nofailover_leb_trans|done].
  - by rewrite sort_by_perm.
Qed.

Lemma StronglySorted_filter {A} (R : A → A → Prop) (p : A → bool) l :
  StronglySorted R l → StronglySorted R (List.filter p l).
Proof.
  induction 1 as [|x l Hs IH Hx]; simpl; [constructor|]. destruct (p x); [|done].
  constructor; [done|]. rewrite Forall_forall in *. intros y Hy. apply Hx.
  apply list_elem_of_In, List.filter_In in Hy as [Hy _]. by apply list_elem_of_In.
Qed.

Lemma sorted_take_drop {A} (R : A → A → Prop) l n x y :
  StronglySorted R l → x ∈ take n l → y ∈ drop n l → R x y.
Proof.
  intros Hs. revert n. induction Hs as [|z l Hs IH Hz]; intros [|n]; simpl; try by intros ?%elem_of_nil.
  intros [->|Hx]%elem_of_cons Hy; [|by eapply IH].
  rewrite Forall_forall in Hz. apply Hz. rewrite <-(take_drop n l), elem_of_app. by right.
Qed.

Lemma key_inj l x y : NoDup (key_of <$> l) → x ∈ l → y ∈ l → key_of x = key_of y → x = y.
Proof.
  induction l as [|z l IH]; simpl; [by intros _ ?%elem_of_nil|]. intros [Hz Hnd]%NoDup_cons Hx Hy Hk.
  apply elem_of_cons in Hx as [->|Hx], Hy as [->|Hy]; [done| | |by apply IH].
  - exfalso. apply Hz. rewrite Hk. by apply list_elem_of_fmap_2.
  - exfalso. apply Hz. rewrite <-Hk. by apply list_elem_of_fmap_2.
Qed.

Lemma NoDup_map_filter_key (p : _Replica → bool) l : NoDup (key_of <$> l) → NoDup (key_of <$> List.filter p l).
Proof.
  intros Hnd. eapply sublist_NoDup; [exact Hnd|]. apply fmap_sublist. clear.
  induction l as [|x l IH]; simpl; [constructor|]. destruct (p x); by constructor.
Qed.

(** The names of the candidates of [l] whose lag is allowed *)
Definition names (maxlag max_lsn : Z) (l : list _Replica) : list string :=
  key_of <$> List.filter (within maxlag max_lsn) l.

Lemma empty_acc : CISet.elems (CISet.empty, CISet.empty).1 = ∅ ∧ size (CISet.elems (CISet.empty, CISet.empty).1) = 0%nat.
Proof. cbn [fst]. rewrite CISet.elems_empty. by rewrite size_empty. Qed.

Lemma priority_active g h w c l max_lsn count maxlag :
  replica_list w c = Ok (l, max_lsn) → is_quorum_commit_mode g = false →
  CISet.elems (active (report g h l max_lsn count maxlag)) =
    list_to_set (take (Z.to_nat (Z.max 1 count)) (names maxlag max_lsn (sort_by nofailover_leb l))).
Proof.
  intros Hl Hq. destruct (sorted_prefer _ _ _ _ Hl) as [_ Hnd]. destruct empty_acc as [He Hz].
  unfold report. cbn [active]. rewrite Hq, choose_priority; rewrite ?Hz, ?He.
  - by rewrite Nat.sub_0_r, union_empty_l_L.
  - cbn [fst]. auto with ciset.
  - done.
  - intros x _. apply not_elem_of_empty.
  - lia.
Qed.

(** Without quorum commit [current_state] chooses as many candidates as wanted (at
    least one), or all of those whose lag is allowed when there are fewer, and it
    chooses the best: every chosen candidate is preferred to every one that is not. *)
Theorem priority_choice g c h w st s :
  current_state g c (h, w) = (Ok st, s) → is_quorum_commit_mode g = false →
  ∃ l max_lsn count maxlag, replica_list s.2 c = Ok (l, max_lsn) ∧ node_count g s.2 = Ok count ∧
    maximum_lag_on_syncnode g = Ok maxlag ∧
    let allowed := List.filter (within maxlag max_lsn) l in
    Z.of_nat (size (CISet.elems (active st))) = Z.min (Z.max 1 count) (Z.of_nat (length allowed)) ∧
    (∀ x y, x ∈ allowed → y ∈ allowed → key_of x ∈ CISet.elems (active st) → key_of y ∉ CISet.elems (active st) →
       prefer x y).
Proof.
  intros Hc Hq. destruct (current_state_ok _ _ _ _ _ _ Hc) as (l & max_lsn & count & maxlag & s1 & Hl & Hn & Hlag & -> & _).
  exists l, max_lsn, count, maxlag. split_and!; [done..|]. destruct (sorted_prefer _ _ _ _ Hl) as [Hs Hnd].
  set (allowed := List.filter (within maxlag max_lsn) (sort_by nofailover_leb l)).
  assert (CISet.elems (active (report g s.1 l max_lsn count maxlag)) =
    list_to_set (take (Z.to_nat (Z.max 1 count)) (key_of <$> allowed))) as Hact.
  { by eapply priority_active. }
  assert (∀ x, x ∈ allowed ↔ x ∈ List.filter (within maxlag max_lsn) l) as Hal.
  { intros x. unfold allowed. rewrite !list_elem_of_In, !List.filter_In, <-!list_elem_of_In. by rewrite elem_of_sort_by. }
  pose proof (NoDup_map_filter_key (within maxlag max_lsn) _ Hnd) as Hnda. fold allowed in Hnda.
  assert (length allowed = length (List.filter (within maxlag max_lsn) l)) as Hlen.
  { apply Permutation_length. apply NoDup_Permutation; [by apply NoDup_fmap_1 in Hnda| |exact Hal].
    destruct (replica_list_spec _ _ _ _ Hl) as (Hnd' & _). apply (NoDup_map_filter_key (within maxlag max_lsn)) in Hnd'.
    by apply NoDup_fmap_1 in Hnd'. }
  cbv zeta. rewrite Hact. split.
  - rewrite size_list_to_set by (eapply sublist_NoDup; [exact Hnda|apply sublist_take]).
    rewrite length_take, length_fmap, Hlen. lia.
  - intros x y Hx Hy Hxa Hya. rewrite <-fmap_take in *.
    apply elem_of_list_to_set, list_elem_of_fmap_1 in Hxa as (x' & Hkx & Hx').
    assert (x = x') as <-.
    { apply (key_inj allowed); [done|by apply Hal| |done].
      rewrite <-(take_drop (Z.to_nat (Z.max 1 count)) allowed), elem_of_app. by left. }
    eapply sorted_take_drop; [by apply StronglySorted_filter, Hs|exact Hx'|].
    apply Hal in Hy. rewrite <-(take_drop (Z.to_nat (Z.max 1 count)) allowed), elem_of_app in Hy.
    destruct Hy as [Hy|Hy]; [|exact Hy]. exfalso. apply Hya, elem_of_list_to_set. by apply list_elem_of_fmap_2.
Qed.

(** With quorum commit [current_state] makes every candidate active that may be promoted
    and whose lag is allowed; candidates that may not be promoted are added, in order of
    preference, only while there are fewer than the wanted number. *)
Theorem quorum_choice g c h w st s :
  current_state g c (h, w) = (Ok st, s) → is_quorum_commit_mode g = true →
  ∃ l max_lsn count maxlag, replica_list s.2 c = Ok (l, max_lsn) ∧ node_count g s.2 = Ok count ∧
    maximum_lag_on_syncnode g = Ok maxlag ∧
    let safe := names maxlag max_lsn (List.filter promotable l) in
    let others := names maxlag max_lsn (List.filter r_nofailover l) in
    CISet.elems (active st) = list_to_set safe ∪ list_to_set (take (Z.to_nat count - length safe) others).
Proof.
  intros Hc Hq. destruct (current_state_ok _ _ _ _ _ _ Hc) as (l & max_lsn & count & maxlag & s1 & Hl & Hn & Hlag & -> & _).
  exists l, max_lsn, count, maxlag. split_and!; [done..|]. cbv zeta.
  destruct (replica_list_spec _ _ _ _ Hl) as (Hnd & _). destruct empty_acc as [He Hz].
  unfold report. cbn [active]. rewrite Hq, sort_promotable, choose_app.
  assert (Forall (λ r, r_nofailover r = false) (List.filter promotable l)) as Hp by apply promotable_false, Forall_filter.
  assert (CISet.elems (choose true count maxlag max_lsn (_ready_replicas s.1) (List.filter promotable l)
    (CISet.empty, CISet.empty)).1 = list_to_set (names maxlag max_lsn (List.filter promotable l))) as Hfirst.
  { rewrite choose_promotable by done. by rewrite He, union_empty_l_L. }
  rewrite choose_others.
  - rewrite Hfirst, size_list_to_set; [unfold names; by rewrite length_fmap|]. by do 2 apply NoDup_map_filter_key.
  - apply choose_wf. cbn [fst]. auto with ciset.
  - apply Forall_filter.
  - by apply NoDup_map_filter_key.
  - intros x Hx. rewrite Hfirst, elem_of_list_to_set. intros (y & Hk & Hy)%list_elem_of_fmap_1.
    apply list_elem_of_In, List.filter_In in Hy as [Hy _]. apply List.filter_In in Hy as [Hy Hpy].
    apply list_elem_of_In, List.filter_In in Hx as [Hx Hnx].
    assert (x = y) as -> by (apply (key_inj l); [done|by apply list_elem_of_In|by apply list_elem_of_In|done]).
    unfold promotable in Hpy. by rewrite Hnx in Hpy.
Qed.
End spec.

(** ** Witnesses *)

(** A primary [a] with the standbys [b] and [c], whose position is 5, and [d] that lags *)
Record example_pg := MkExamplePg { example_ssn : string; example_state : string }.

Definition example_rows (state : string) : list stat_row :=
  [MkRow 1 "b" "async" (Some 5) (Some 5) (Some 5); MkRow 2 "c" state (Some 5) (Some 5) (Some 5);
   MkRow 3 "d" "async" (Some 1) (Some 1) (Some 1)].

#[export] Instance example_postgres : SyncPostgres example_pg := {
  pg_name _ := "a"; synchronous_commit _ := "on"; pg_stat_replication w := example_rows (example_state w);
  last_operation _ := 5; synchronous_standby_names := example_ssn; supports_multiple_sync _ := true;
  supports_quorum_commit _ := true; is_primary_running _ := true; get_primary_timeline _ := 1;
  query_txid_current w := (Ok (), w); reset_cluster_info_state w := (Ok (), w);
  config_set_synchronous_standby_names v w := (Ok true, MkExamplePg (default "" v) (example_state w));
}.

Definition example_member (name : string) : Member := MkMember (VInt 0) name VNone [("state", VStr "running")].

#[local] Existing Instance text_datetime.

Definition example_cluster : Cluster :=
  MkCluster None None None status_empty (map example_member ["a"; "b"; "c"; "d"]) None (sync_empty VNone) None None [].

Definition quorum_config : GlobalConfig := [("synchronous_mode", VStr "quorum"); ("maximum_lag_on_syncnode", VInt 2)].
Definition priority_config : GlobalConfig := [("synchronous_mode", VStr "on"); ("maximum_lag_on_syncnode", VInt 2)].

Definition quorum_world : example_pg := MkExamplePg "ANY 1 (b,c)" "quorum".
Definition priority_world : example_pg := MkExamplePg "c" "sync".

Lemma confirmed_listed_witness : ∃ st s,
  current_state priority_config example_cluster (sync_handler_init, priority_world) = (Ok st, s) ∧
  CISet.to_list (sync_confirmed st) = ["c"] ∧
  CISet.elems (sync_confirmed st) ⊆ CISet.elems (active st).
Proof.
  eexists _, _. split; [|split].
  - vm_compute. reflexivity.
  - vm_compute. reflexivity.
  - eapply (confirmed_listed priority_config example_cluster sync_handler_init priority_world);
      [apply reachable_init|vm_compute; reflexivity].
Defined.

Lemma ready_caught_up_witness :
  ∃ (s : SyncHandler * example_pg) x, candidate s.2 example_cluster x ∧ key_of x = Str.lower "c" ∧ last_operation quorum_world <= r_lsn x.
Proof.
  eexists. eapply (ready_caught_up quorum_config example_cluster sync_handler_init quorum_world _ _ "c");
    vm_compute; (reflexivity || discriminate).
Defined.

Lemma priority_choice_witness : ∃ st s,
  current_state priority_config example_cluster (sync_handler_init, priority_world) = (Ok st, s) ∧
  ∃ l max_lsn count maxlag, replica_list s.2 example_cluster = Ok (l, max_lsn) ∧ node_count priority_config s.2 = Ok count ∧
    maximum_lag_on_syncnode priority_config = Ok maxlag ∧
    let allowed := List.filter (within maxlag max_lsn) l in
    Z.of_nat (size (CISet.elems (active st))) = Z.min (Z.max 1 count) (Z.of_nat (length allowed)) ∧
    (∀ x y, x ∈ allowed → y ∈ allowed → key_of x ∈ CISet.elems (active st) → key_of y ∉ CISet.elems (active st) →
       prefer x y).
Proof.
  eexists _, _. split; [vm_compute; reflexivity|].
  eapply (priority_choice priority_config example_cluster sync_handler_init priority_world); vm_compute; reflexivity.
Defined.

Lemma quorum_choice_witness : ∃ st s,
  current_state quorum_config example_cluster (sync_handler_init, quorum_world) = (Ok st, s) ∧
  CISet.to_list (active st) = ["c"; "b"] ∧
  ∃ l max_lsn count maxlag, replica_list s.2 example_cluster = Ok (l, max_lsn) ∧ node_count quorum_config s.2 = Ok count ∧
    maximum_lag_on_syncnode quorum_config = Ok maxlag ∧
    let safe := names maxlag max_lsn (List.filter promotable l) in
    let others := names maxlag max_lsn (List.filter r_nofailover l) in
    CISet.elems (active st) = list_to_set safe ∪ list_to_set (take (Z.to_nat count - length safe) others).
Proof.
  eexists _, _. split; [vm_compute; reflexivity|]. split; [vm_compute; reflexivity|].
  eapply (quorum_choice quorum_config example_cluster sync_handler_init quorum_world); vm_compute; reflexivity.
Defined.

(** * The recursion over [replicatefrom] tags ([_ReplicaList._should_cascade])

    The fuel of [_should_cascade] is enough: when it runs out the recursion of the code has
    no end.  A node that replicates from itself, or two that replicate from each other, make
    it so; without such a cycle the result is the one its documentation promises. *)

Section cascade.
Context (members : CIDict.t Member) (replication : CIDict.t stat_row).
Implicit Types (m : Member) (n fuel : nat).
Notation run fuel := (should_cascade fuel members replication).

(** The member that [m] replicates from, when the recursion goes on with it *)
Definition next m : option Member :=
  if truthy (replicatefrom m) then
    match replicatefrom m with
    | VStr from =>
        match CIDict.get from members with
        | Some m' => if truthy (replicatefrom m') then Some m' else None
        | None => None
        end
    | _ => None
    end
  else None.

(** The result when the recursion does not go on *)
Definition stop m : exc bool :=
  if truthy (replicatefrom m) then
    match replicatefrom m with
    | VStr from =>
        match CIDict.get from members with
        | Some m' => Ok (CIDict.mem (m_name m') replication)
        | None => Ok false
        end
    | _ => Raise AttributeError
    end
  else Ok false.

Lemma run_eq fuel m :
  run (S fuel) m = match next m with Some m' => run fuel m' | None => stop m end.
Proof.
  cbn [should_cascade]. unfold next, stop. destruct (replicatefrom m) as [| | |from| |] eqn:E; simpl; try by repeat case_match.
  destruct (from =? "")%string; simpl; [done|]. destruct (CIDict.get from members) as [m'|]; [|done].
  by destruct (truthy (replicatefrom m')).
Qed.

Definition definite (r : exc bool) : bool := match r with Raise RecursionError => false | _ => true end.

Lemma definite_stop m : definite (stop m) = true.
Proof. unfold stop. by repeat case_match. Qed.

Lemma definite_false r : definite r = false → r = Raise RecursionError.
Proof. by destruct r as [|[]]. Qed.

Lemma run_mono fuel m : definite (run fuel m) = true → run (S fuel) m = run fuel m.
Proof.
  revert m. induction fuel as [|fuel IH]; intros m Hd; [done|]. rewrite run_eq, (run_eq fuel). rewrite run_eq in Hd.
  destruct (next m) as [m'|]; [by apply IH|done].
Qed.

(** The members, by key, on which the recursion ends within [n] rounds *)
Definition done_in n : gset string :=
  list_to_set (map fst (List.filter (λ kv, definite (run n kv.2.2)) members)).

Lemma elem_of_done_in n k : k ∈ done_in n ↔ ∃ v, (k, v) ∈ members ∧ definite (run n v.2) = true.
Proof.
  unfold done_in. rewrite elem_of_list_to_set, list_elem_of_In, in_map_iff. setoid_rewrite List.filter_In.
  setoid_rewrite <-list_elem_of_In. split.
  - intros ([k' v] & <- & Hin & Hd). by exists v.
  - intros (v & Hin & Hd). by exists (k, v).
Qed.

Lemma next_member m m' : next m = Some m' → ∃ k name : string, (k, (name, m')) ∈ members.
Proof.
  unfold next, CIDict.get. destruct (truthy _); [|done]. destruct (replicatefrom m) as [| | |from| |]; try done.
  destruct (Dict.get _ members) as [[n m1]|] eqn:E; simpl; [|done]. apply Dict.get_Some_elem in E.
  destruct (truthy _); [|done]. intros [= <-]. eauto.
Qed.

Hypothesis members_wf : Dict.wf members.

Lemma done_in_step n m' k name :
  (k, (name, m')) ∈ members → done_in n = done_in (S n) → definite (run (S n) m') = true → definite (run n m') = true.
Proof.
  intros Hk He Hd. assert (k ∈ done_in (S n)) as Hin by (apply elem_of_done_in; by exists (name, m')).
  rewrite <-He in Hin. apply elem_of_done_in in Hin as (v & Hv & Hdv).
  apply (Dict.elem_get _ _ _ members_wf) in Hk. apply (Dict.elem_get _ _ _ members_wf) in Hv. by simplify_eq.
Qed.

Lemma done_in_stable n : (CIDict.len members ≤ n)%nat → done_in n = done_in (S n).
Proof.
  intros Hn. apply (chain_stable done_in (list_to_set (Dict.keys members))).
  - intros j k. rewrite !elem_of_done_in. intros (v & Hv & Hd). exists v. by rewrite run_mono.
  - intros j k. rewrite elem_of_done_in, elem_of_list_to_set. intros (v & Hv & _). by apply (list_elem_of_fmap_2 fst _ (k, v)).
  - intros j He. apply set_eq. intros k. rewrite !elem_of_done_in. split; intros (v & Hv & Hd); exists v; (split; [done|]).
    + by rewrite run_mono.
    + rewrite run_eq in Hd |- *. destruct (next v.2) as [m'|] eqn:E; [|done].
      destruct (next_member _ _ E) as (k' & n' & Hk'). by eapply done_in_step.
  - etrans; [apply size_list_to_set_le|]. unfold Dict.keys. by rewrite length_fmap.
Qed.

(** The recursion of [_should_cascade] either ends within as many rounds as there are
    members and one more, or has no end: more fuel does not change the result. *)
Theorem should_cascade_fuel m fuel :
  (S (CIDict.len members) ≤ fuel)%nat → run fuel m = _should_cascade members replication m.
Proof.
  unfold _should_cascade. intros Hf. induction fuel as [|fuel IH]; [lia|].
  destruct (decide (S (CIDict.len members) = S fuel)) as [<-|Hne]; [done|]. rewrite <-IH by lia.
  destruct (definite (run (S fuel) m)) eqn:Hd.
  - symmetry. destruct (definite (run fuel m)) eqn:Hd'; [by rewrite run_mono|].
    destruct fuel as [|fuel]; [lia|]. rewrite run_eq in Hd. rewrite run_eq in Hd'.
    destruct (next m) as [m'|] eqn:E; [|congruence]. destruct (next_member _ _ E) as (k & name & Hk).
    rewrite (done_in_step fuel m' k name Hk (done_in_stable fuel ltac:(lia)) Hd) in Hd'. done.
  - rewrite (definite_false _ Hd). destruct (definite (run fuel m)) eqn:Hd'.
    + rewrite run_mono in Hd by done. congruence.
    + by rewrite (definite_false _ Hd').
Qed.

(** A chain of tags: the members the recursion visits *)
Inductive chain : Member → Member → Prop :=
  | chain_stop m : next m = None → chain m m
  | chain_step m m' m'' : next m = Some m' → chain m' m'' → chain m m''.

(** The recursion ends with a result exactly when the chain of [replicatefrom] tags has an
    end, and the result is that of the end: true when it replicates from a member that has
    no tag and streams from the primary. *)
Theorem should_cascade_chain m r :
  r ≠ Raise RecursionError →
  (_should_cascade members replication m = r ↔ ∃ m', chain m m' ∧ stop m' = r).
Proof.
  intros Hr. split.
  - unfold _should_cascade. generalize (S (CIDict.len members)) as fuel. intros fuel. revert m.
    induction fuel as [|fuel IH]; intros m H; [by simpl in H|]. rewrite run_eq in H.
    destruct (next m) as [m1|] eqn:E.
    + destruct (IH m1 H) as (m' & Hc & Hs). exists m'. split; [by eapply chain_step|done].
    + exists m. split; [by apply chain_stop|done].
  - intros (m' & Hc & Hs). assert (∃ fuel, run fuel m = r) as [fuel Hfuel].
    { induction Hc as [m E|m m1 m2 E Hc IH].
      - exists 1%nat. rewrite run_eq. by rewrite E.
      - destruct (IH Hs) as [fuel Hf]. exists (S fuel). rewrite run_eq. by rewrite E. }
    assert (∀ j, run (j + fuel) m = r) as Hmore.
    { induction j as [|j IH]; [done|]. change (S j + fuel)%nat with (S (j + fuel)).
      rewrite run_mono; [done|]. rewrite IH. destruct (definite r) eqn:Hd; [done|]. by apply definite_false in Hd. }
    rewrite <-(Hmore (S (CIDict.len members))). symmetry. apply should_cascade_fuel. lia.
Qed.

(** Two members that replicate from each other, or one from itself, make the recursion
    endless, and the code raises [RecursionError]. *)
Theorem should_cascade_diverges m m' a b :
  replicatefrom m = VStr a → a ≠ "" → CIDict.get a members = Some m' →
  replicatefrom m' = VStr b → b ≠ "" → CIDict.get b members = Some m →
  ∀ fuel, run fuel m = Raise RecursionError.
Proof.
  intros Ha Hna Hm Hb Hnb Hm'. assert (∀ s, s ≠ "" → truthy (VStr s) = true) as Ht
    by (intros s Hs; simpl; by destruct (String.eqb_spec s "")).
  assert (next m = Some m') as E by (unfold next; by rewrite Ha, Ht, Hm, Hb, Ht).
  assert (next m' = Some m) as E' by (unfold next; by rewrite Hb, Ht, Hm', Ha, Ht).
  intros fuel. assert (run fuel m = Raise RecursionError ∧ run fuel m' = Raise RecursionError) as [H _]; [|done].
  induction fuel as [|fuel [IH IH']]; [done|]. rewrite !run_eq, E, E'. by split.
Qed.
End cascade.

(** ** Witnesses *)

(** A member [b] that replicates from [c], and [c] from [from] *)
Definition tagged (name from : string) : Member :=
  MkMember (VInt 0) name VNone
    [("state", VStr "running"); ("tags", VDict (if (from =? "")%string then [] else [("replicatefrom", VStr from)]))].

Definition chain_members (from : string) : CIDict.t Member :=
  CIDict.of_dict [("b", tagged "b" "c"); ("c", tagged "c" from)].

Lemma chain_members_wf from : Dict.wf (chain_members from).
Proof. apply CIDict.wf_of_dict. Qed.

Lemma should_cascade_fuel_witness :
  should_cascade 7 (chain_members "") [] (tagged "b" "c") = _should_cascade (chain_members "") [] (tagged "b" "c").
Proof. apply (should_cascade_fuel (chain_members "") [] (chain_members_wf "")). vm_compute. lia. Defined.

Lemma should_cascade_chain_witness :
  _should_cascade (chain_members "") (CIDict.of_dict [("c", MkRow 1 "c" "async" None None None)]) (tagged "b" "c") = Ok true.
Proof.
  apply (should_cascade_chain (chain_members "") _ (chain_members_wf "") (tagged "b" "c") (Ok true)); [done|].
  exists (tagged "b" "c"). split; [by apply chain_stop|]. vm_compute. reflexivity.
Defined.

Lemma should_cascade_diverges_witness :
  _should_cascade (chain_members "B") [] (tagged "b" "c") = Raise RecursionError.
Proof. by apply (should_cascade_diverges (chain_members "B") [] _ (tagged "c" "B") "c" "B"). Defined.
