(* ===== verification/Quorum.v ===== *)
(** * The quorum state machine ([patroni/quorum.py])

    [QuorumStateResolver] computes the sequence of changes of the [/sync] key
    (leader, quorum, voters) and of [synchronous_standby_names] (numsync, sync)
    that leads from the current state to the desired one.  The generator methods
    are computations of the monad [gen]: they read and update the attributes of
    the resolver ([st]), emit [Transition]s and may raise.  [yield from] is
    sequencing, [try]/[except QuorumError] is [catch_quorum_error]. *)
From S2P Require Import Prelude PyDict Collections.

Open Scope Z_scope.

Inductive transition_type := TSync | TQuorum | TRestart.

#[export] Instance transition_type_eq_dec : EqDecision transition_type.
Proof. solve_decision. Defined.

Record Transition := MkTransition {
  t_type : transition_type;
  t_leader : string;
  t_num : Z;
  t_names : CISet.t;
}.

(** The exceptions the resolver raises. *)
Inductive qexn := QuorumError | AssertionError.

(** The attributes of [QuorumStateResolver]. *)
Record st := MkSt {
  leader : string;
  quorum : Z;
  voters : CISet.t;
  numsync : Z;
  sync : CISet.t;
  numsync_confirmed : Z;
  active : CISet.t;
  sync_wanted : Z;
  leader_wanted : string;
}.

(** [len] of a set as an integer, and the one-element set. *)
Definition lenZ (s : CISet.t) : Z := Z.of_nat (CISet.len s).
Definition single (x : string) : CISet.t := CISet.of_list [x].

(** [QuorumStateResolver.__init__]: [len(sync)] is the length of the collection
    passed in, before it becomes a case-insensitive set. *)
Definition init (leader : string) (quorum : Z) (voters : list string) (numsync : Z)
    (sync : list string) (numsync_confirmed : Z) (active : list string) (sync_wanted : Z)
    (leader_wanted : string) : st :=
  {| leader := leader; quorum := quorum; voters := CISet.of_list voters;
     numsync := Z.min numsync (Z.of_nat (length sync)); sync := CISet.of_list sync;
     numsync_confirmed := numsync_confirmed; active := CISet.of_list active;
     sync_wanted := sync_wanted; leader_wanted := leader_wanted |}.

(** ** The monad of the generators *)

(** How a generator ends: normally, by a [return] of [_generate_transitions],
    or by an exception. *)
Inductive out (A : Type) := Val (a : A) | Ret | Exc (e : qexn).
Arguments Val {A} a.
Arguments Ret {A}.
Arguments Exc {A} e.

Definition gen (A : Type) : Type := st → list Transition * st * out A.

#[export] Instance gen_ret : MRet gen := λ A a s, ([], s, Val a).
#[export] Instance gen_bind : MBind gen := λ A B f m s,
  match m s with
  | (tr, s', Val a) => let '(tr', s'', o) := f a s' in (tr ++ tr', s'', o)
  | (tr, s', Ret) => (tr, s', Ret)
  | (tr, s', Exc e) => (tr, s', Exc e)
  end.

Definition get : gen st := λ s, ([], s, Val s).
Definition put (s : st) : gen () := λ _, ([], s, Val ()).
Definition yield (t : Transition) : gen () := λ s, ([t], s, Val ()).
Definition raise {A} (e : qexn) : gen A := λ s, ([], s, Exc e).
Definition return_ : gen () := λ s, ([], s, Ret).
Definition when (b : bool) (m : gen ()) : gen () := if b then m else mret ().
Definition assert_ (b : bool) : gen () := when (negb b) (raise AssertionError).

(** [try: m except QuorumError: h] *)
Definition catch_quorum_error (m h : gen ()) : gen () := λ s,
  match m s with
  | (tr, s', Exc QuorumError) => let '(tr', s'', o) := h s' in (tr ++ tr', s'', o)
  | r => r
  end.

Definition set_leader (l : string) (s : st) : st :=
  MkSt l (quorum s) (voters s) (numsync s) (sync s) (numsync_confirmed s) (active s)
    (sync_wanted s) (leader_wanted s).
Definition set_quorum (q : Z) (v : CISet.t) (s : st) : st :=
  MkSt (leader s) q v (numsync s) (sync s) (numsync_confirmed s) (active s)
    (sync_wanted s) (leader_wanted s).
Definition set_sync (n : Z) (v : CISet.t) (s : st) : st :=
  MkSt (leader s) (quorum s) (voters s) n v (numsync_confirmed s) (active s)
    (sync_wanted s) (leader_wanted s).
Definition set_confirmed (n : Z) (s : st) : st :=
  MkSt (leader s) (quorum s) (voters s) (numsync s) (sync s) n (active s)
    (sync_wanted s) (leader_wanted s).

(** ** The methods *)

(** [check_invariants] *)
Definition check_invariants : gen () :=
  s ← get;
  let voters' := CISet.union (voters s) (single (leader s)) in
  let sync' := CISet.union (sync s) (single (leader_wanted s)) in
  when (CISet.truthy (voters s) &&
        negb (lenZ (CISet.union voters' sync') <=? quorum s + numsync s + 1))
    (raise QuorumError);;
  when (negb (CISet.issubset voters' sync' || CISet.issubset sync' voters'))
    (raise QuorumError).

(** [quorum_update] *)
Definition quorum_update (q : Z) (v : CISet.t) (new_leader : option string)
    (adjust_quorum : bool) : gen () :=
  when (q <? 0) (raise QuorumError);;
  when ((0 <? q) && (lenZ v <=? q)) (raise QuorumError);;
  s0 ← get;
  let old_leader := leader s0 in
  '(q, v) ← (match new_leader with
             | Some l => put (set_leader l s0);; mret (q, v)
             | None =>
                 if (numsync_confirmed s0 =? 0) && negb (CISet.truthy (voters s0))
                 then mret (0, CISet.empty)
                 else if adjust_quorum
                 then mret (q + Z.max (numsync s0 - numsync_confirmed s0) 0, v)
                 else mret (q, v)
             end : gen (Z * CISet.t));
  s ← get;
  let same := (leader s =? old_leader)%string && (q =? quorum s) && CISet.eqb v (voters s) in
  if same && CISet.truthy (voters s) then mret () else
  when same (yield (MkTransition TRestart (leader s) (quorum s) (voters s)));;
  put (set_quorum q v s);;
  check_invariants;;
  yield (MkTransition TQuorum (leader s) q v).

(** [sync_update] *)
Definition sync_update (n : Z) (v : CISet.t) : gen () :=
  when (n <? 0) (raise QuorumError);;
  when (lenZ v <? n) (raise QuorumError);;
  s ← get;
  put (set_sync n v s);;
  check_invariants;;
  yield (MkTransition TSync (leader s) n v).

(** [__handle_non_steady_cases], case 1: [sync < voters]. *)
Definition non_steady_case1 : gen () :=
  s ← get;
  let remove_from_voters := CISet.diff (voters s) (CISet.union (sync s) (active s)) in
  when (CISet.truthy remove_from_voters)
    (quorum_update (lenZ (voters s) - lenZ remove_from_voters - numsync s)
       (CISet.diff (voters s) remove_from_voters) None
       (negb (CISet.truthy (CISet.diff (sync s) (active s)))));;
  s ← get;
  let add_to_sync := CISet.diff (CISet.inter (voters s) (active s)) (sync s) in
  when (CISet.truthy add_to_sync)
    (sync_update (numsync s) (CISet.union (sync s) add_to_sync)).

(** [__handle_non_steady_cases], case 2: [sync > voters]. *)
Definition non_steady_case2 : gen () :=
  s ← get;
  let remove_from_sync := CISet.diff (sync s) (active s) in
  let sync' := CISet.diff (sync s) remove_from_sync in
  when (CISet.truthy remove_from_sync && CISet.truthy sync' &&
        (negb (CISet.truthy (voters s)) || CISet.truthy (CISet.inter sync' (voters s))))
    (sync_update (Z.min (numsync s) (lenZ (sync s) - lenZ remove_from_sync)) sync');;
  s ← get;
  let add_to_voters := CISet.inter (CISet.diff (sync s) (voters s)) (active s) in
  when (CISet.truthy add_to_voters)
    (let v := CISet.union (voters s) add_to_voters in
     quorum_update (lenZ v - numsync s) v None true);;
  s ← get;
  let remove_from_sync := CISet.diff (sync s) (voters s) in
  when (CISet.truthy remove_from_sync)
    (sync_update (Z.min (numsync s) (lenZ (sync s) - lenZ remove_from_sync))
       (CISet.diff (sync s) remove_from_sync)).

(** [__handle_non_steady_cases], what follows the assertion. *)
Definition non_steady_margin : gen () :=
  s ← get;
  let safety_margin := quorum s + Z.min (numsync s) (numsync_confirmed s)
                       - lenZ (CISet.union (voters s) (sync s)) in
  if 0 <? safety_margin then
    if sync_wanted s <? numsync s then
      sync_update (Z.max (sync_wanted s) (lenZ (voters s) - quorum s)) (sync s)
    else quorum_update (lenZ (sync s) - numsync s) (voters s) None true
  else
    let safety_margin := quorum s + numsync s - lenZ (CISet.union (voters s) (sync s)) in
    when ((numsync s =? sync_wanted s) && (0 <? safety_margin)
          && (numsync_confirmed s <? numsync s))
      (quorum_update (lenZ (sync s) - numsync s) (voters s) None true).

(** [__handle_non_steady_cases] *)
Definition handle_non_steady_cases : gen () :=
  s ← get;
  (if CISet.lt (sync s) (voters s) then non_steady_case1
   else when (CISet.lt (voters s) (sync s)) non_steady_case2);;
  s ← get;
  assert_ (CISet.eqb (voters s) (sync s));;
  non_steady_margin.

(** [__remove_gone_nodes] *)
Definition remove_gone_nodes : gen () :=
  s ← get;
  let to_remove := CISet.diff (sync s) (active s) in
  if CISet.truthy to_remove && CISet.eqb (sync s) to_remove then
    quorum_update 0 CISet.empty None false;;
    sync_update 0 CISet.empty
  else when (CISet.truthy to_remove)
    (let can_reduce_quorum_by := quorum s in
     to_remove ←
       (if negb (can_reduce_quorum_by =? 0) then
          let remove := CISet.of_list (slice_to can_reduce_quorum_by
                          (rev (Str.sorted (CISet.to_list to_remove)))) in
          let sync' := CISet.diff (sync s) remove in
          let numsync' := Z.min (if numsync s <? sync_wanted s then sync_wanted s else numsync s)
                            (lenZ sync') in
          sync_update numsync' sync';;
          s ← get;
          let voters' := CISet.diff (voters s) remove in
          let to_remove := CISet.iand to_remove (sync s) in
          quorum_update (lenZ voters' - numsync s) voters' None (negb (CISet.truthy to_remove));;
          mret to_remove
        else mret to_remove : gen CISet.t);
     when (CISet.truthy to_remove)
       (s ← get;
        assert_ (quorum s =? 0);;
        let numsync' := numsync s - lenZ to_remove in
        let sync' := CISet.diff (sync s) to_remove in
        let voters' := CISet.diff (voters s) to_remove in
        let sync_decrease := numsync' - Z.min (sync_wanted s) (lenZ sync') in
        let quorum' := if negb (sync_decrease =? 0)
                       then Z.min sync_decrease (lenZ voters' - 1) else 0 in
        quorum_update quorum' voters' None false;;
        sync_update numsync' sync')).

(** [__add_new_nodes] *)
Definition add_new_nodes : gen () :=
  s ← get;
  let to_add := CISet.diff (active s) (sync s) in
  when (CISet.truthy to_add)
    (let sync_wanted' := Z.min (sync_wanted s) (lenZ (CISet.union (sync s) to_add)) in
     let increase_numsync_by := sync_wanted' - numsync s in
     to_add ←
       (if 0 <? increase_numsync_by then
          let '(add, increase_numsync_by) :=
            if CISet.truthy (sync s) then
              let add := CISet.of_list (slice_to increase_numsync_by
                           (Str.sorted (CISet.to_list to_add))) in
              (add, lenZ add)
            else (to_add, increase_numsync_by) in
          sync_update (numsync s + increase_numsync_by) (CISet.union (sync s) add);;
          s ← get;
          let voters' := CISet.union (voters s) add in
          quorum_update (lenZ voters' - sync_wanted') voters' None true;;
          s ← get;
          mret (CISet.isub to_add (sync s))
        else mret to_add : gen CISet.t);
     when (CISet.truthy to_add)
       (s ← get;
        let voters' := CISet.union (voters s) to_add in
        quorum_update (lenZ voters' - sync_wanted') voters' None
          (numsync_confirmed s <? sync_wanted');;
        s ← get;
        sync_update sync_wanted' (CISet.union (sync s) to_add))).

(** [__handle_replication_factor_change] *)
Definition handle_replication_factor_change : gen () :=
  s ← get;
  let sync_increase := Z.min (sync_wanted s) (lenZ (sync s)) - numsync s in
  if 0 <? sync_increase then
    sync_update (numsync s + sync_increase) (sync s);;
    s ← get;
    quorum_update (lenZ (voters s) - numsync s) (voters s) None true
  else when (sync_increase <? 0)
    (when (quorum s - sync_increase <? lenZ (voters s))
       (quorum_update (lenZ (voters s) - numsync s - sync_increase) (voters s) None
          (numsync_confirmed s <? sync_wanted s));;
     s ← get;
     sync_update (numsync s + sync_increase) (sync s)).

(** The body of the [try] of [_generate_transitions]. *)
Definition handle_failover : gen () :=
  s ← get;
  if negb (leader_wanted s =? leader s)%string then
    let voters' := CISet.union (CISet.diff (voters s) (single (leader_wanted s)))
                     (single (leader s)) in
    when (negb (CISet.truthy (sync s)))
      (sync_update (lenZ voters' - quorum s) voters');;
    s ← get;
    quorum_update (quorum s) voters' (Some (leader_wanted s)) true;;
    s ← get;
    when (negb (CISet.truthy (CISet.inter (sync s) (active s)))) return_
  else check_invariants.

(** [_generate_transitions] *)
Definition generate_transitions : gen () :=
  catch_quorum_error handle_failover
    (s ← get; quorum_update (lenZ (sync s) - numsync s) (sync s) None true);;
  s ← get;
  assert_ (leader s =? leader_wanted s)%string;;
  when ((numsync_confirmed s =? 0) && CISet.truthy (CISet.inter (sync s) (active s)))
    (put (set_confirmed (Z.min (lenZ (CISet.inter (sync s) (active s)))
                               (lenZ (voters s) - quorum s)) s));;
  handle_non_steady_cases;;
  remove_gone_nodes;;
  add_new_nodes;;
  handle_replication_factor_change.

(** The loop of [__iter__]: a transition followed by one of the same type is
    skipped, and nothing follows a [restart]. *)
Fixpoint merge_transitions (l : list Transition) : list Transition :=
  match l with
  | [] => []
  | cur :: rest =>
      let skip := match rest with
                  | next :: _ => bool_decide (t_type cur = t_type next)
                  | [] => false
                  end in
      if skip then merge_transitions rest
      else if decide (t_type cur = TRestart) then [cur]
      else cur :: merge_transitions rest
  end.

(** [list(QuorumStateResolver(...))]: the whole generator runs first, so that an
    exception leaves the caller with no transition at all. *)
Definition resolve (s : st) : qexn + list Transition :=
  match generate_transitions s with
  | (_, _, Exc e) => inl e
  | (tr, _, _) => inr (merge_transitions tr)
  end.
