(* ===== verification/QuorumSafety.v ===== *)
(** * Safety of the quorum state machine

    The state the outside world sees is [ext]: the [/sync] key (leader, quorum,
    voters) and [synchronous_standby_names] (numsync, sync).  A caller of the
    resolver that performs the transitions one by one drives it through the
    states [replay] computes.  The main theorem says that each of those states is
    [consistent], hence that no promotion quorum can miss every node that
    acknowledged a commit. *)
From S2P Require Import Prelude PyDict Collections Quorum.

Record ext := MkExt {
  e_leader : string;
  e_quorum : Z;
  e_voters : CISet.t;
  e_numsync : Z;
  e_sync : CISet.t;
}.

Definition ext_of (s : st) : ext :=
  MkExt (leader s) (quorum s) (voters s) (numsync s) (sync s).

(** The effect of performing one transition. *)
Definition apply_transition (e : ext) (t : Transition) : ext :=
  match t_type t with
  | TSync => MkExt (e_leader e) (e_quorum e) (e_voters e) (t_num t) (t_names t)
  | TQuorum => MkExt (t_leader t) (t_num t) (t_names t) (e_numsync e) (e_sync e)
  | TRestart => e
  end.

Definition replay (e : ext) (ts : list Transition) : ext := foldl apply_transition e ts.

(** The nodes that can win a leader race, and those that can hold a commit when
    [lw] is the primary. *)
Definition voter_nodes (e : ext) : gset string :=
  CISet.elems (e_voters e) ∪ {[Str.lower (e_leader e)]}.
Definition sync_nodes (lw : string) (e : ext) : gset string :=
  CISet.elems (e_sync e) ∪ {[Str.lower lw]}.

(** What [check_invariants] accepts. *)
Definition consistent (lw : string) (e : ext) : Prop :=
  (CISet.elems (e_voters e) ≠ ∅ →
   Z.of_nat (size (voter_nodes e ∪ sync_nodes lw e)) ≤ e_quorum e + e_numsync e + 1)
  ∧ (voter_nodes e ⊆ sync_nodes lw e ∨ sync_nodes lw e ⊆ voter_nodes e).

#[export] Instance consistent_dec lw e : Decision (consistent lw e).
Proof. unfold consistent. apply _. Defined.

(** The property the module promises: every set of nodes that can acknowledge a
    commit meets every set of nodes that can promote a new leader. *)
Definition overlap (lw : string) (e : ext) : Prop :=
  ∀ acks votes : gset string,
    acks ⊆ sync_nodes lw e → votes ⊆ voter_nodes e →
    e_numsync e + 1 ≤ Z.of_nat (size acks) → e_quorum e + 1 ≤ Z.of_nat (size votes) →
    acks ∩ votes ≠ ∅.

Lemma consistent_overlap lw e :
  consistent lw e → CISet.elems (e_voters e) ≠ ∅ → overlap lw e.
Proof.
  intros [Hsize _] Hv acks votes Ha Hb Hna Hnb Hdis. specialize (Hsize Hv).
  assert (size (acks ∪ votes) = (size acks + size votes)%nat) as Hu
    by (apply size_union; set_solver).
  assert (size (acks ∪ votes) ≤ size (voter_nodes e ∪ sync_nodes lw e))%nat
    by (apply subseteq_size; set_solver).
  lia.
Qed.

(** Every state reached by performing [ts] from [e], except at restarts, is consistent. *)
Fixpoint steps_ok (lw : string) (e : ext) (ts : list Transition) : Prop :=
  match ts with
  | [] => True
  | t :: ts' => (t_type t ≠ TRestart → consistent lw (apply_transition e t))
                ∧ steps_ok lw (apply_transition e t) ts'
  end.

Lemma steps_ok_app lw e l1 l2 :
  steps_ok lw e (l1 ++ l2) ↔ steps_ok lw e l1 ∧ steps_ok lw (replay e l1) l2.
Proof. revert e. induction l1 as [|t l1 IH]; intros e; simpl; [naive_solver|]. rewrite IH. naive_solver. Qed.

Lemma replay_app e l1 l2 : replay e (l1 ++ l2) = replay (replay e l1) l2.
Proof. apply foldl_app. Qed.

Lemma steps_ok_lookup lw e ts n t :
  steps_ok lw e ts → ts !! n = Some t → t_type t ≠ TRestart →
  consistent lw (replay e (take (S n) ts)).
Proof.
  revert e n. induction ts as [|t' ts IH]; intros e [|n]; simpl; [done|done| |].
  - intros [H _] ? Ht; simplify_eq. by apply H.
  - intros [_ H] Hn Ht. exact (IH _ n H Hn Ht).
Qed.

(** ** Merging *)

Lemma apply_same_type e t t' :
  t_type t = t_type t' → apply_transition (apply_transition e t) t' = apply_transition e t'.
Proof. intros H. unfold apply_transition. rewrite H. by destruct (t_type t'). Qed.

Lemma merge_steps_ok lw e ts : steps_ok lw e ts → steps_ok lw e (merge_transitions ts).
Proof.
  revert e. induction ts as [|t ts IH]; intros e; [done|]. simpl. intros [H1 H2].
  destruct ts as [|t' ts]; [by case_decide|].
  case_bool_decide as Hty; [|case_decide; [done | split; auto]].
  apply IH. simpl in H2 |- *. rewrite apply_same_type in H2 by done. done.
Qed.

Lemma merge_restart_last ts t :
  t ∈ merge_transitions ts → t_type t = TRestart → last (merge_transitions ts) = Some t.
Proof.
  induction ts as [|t' ts IH]; [by intros ?%elem_of_nil|]. simpl. intros Hin Ht.
  destruct (match ts with [] => _ | _ => _ end); [auto|].
  case_decide as Hr; [apply list_elem_of_singleton in Hin; by subst|].
  apply elem_of_cons in Hin as [->|Hin]; [done|]. rewrite last_cons, IH; done.
Qed.

Lemma merge_replay e ts :
  (∀ t, t ∈ merge_transitions ts → t_type t ≠ TRestart) →
  replay e (merge_transitions ts) = replay e ts.
Proof.
  revert e. induction ts as [|t ts IH]; intros e; [done|]. simpl.
  destruct ts as [|t' ts]; [by case_decide|].
  case_bool_decide as Hty; [|case_decide as Hr; [intros H; by destruct (H t ltac:(set_solver))|]].
  - intros H. rewrite IH by done. simpl. by rewrite apply_same_type.
  - intros H. simpl. apply (IH (apply_transition e t)). intros t'' Hin. apply H. set_solver.
Qed.

(** ** The generators *)

Definition WF (s : st) : Prop := CISet.wf (voters s) ∧ CISet.wf (sync s) ∧ CISet.wf (active s).

Lemma WF_init l q v n sy nc ac sw lw : WF (init l q v n sy nc ac sw lw).
Proof. repeat split; apply CISet.wf_of_list. Qed.

(** What no method changes. *)
Definition frame (s s' : st) : Prop :=
  active s' = active s ∧ sync_wanted s' = sync_wanted s ∧ leader_wanted s' = leader_wanted s.

Lemma frame_refl s : frame s s.
Proof. done. Qed.
Lemma frame_trans s1 s2 s3 : frame s1 s2 → frame s2 s3 → frame s1 s3.
Proof. unfold frame. intuition congruence. Qed.

Lemma WF_voters s : WF s → CISet.wf (voters s).
Proof. by intros (?&?&?). Qed.
Lemma WF_sync s : WF s → CISet.wf (sync s).
Proof. by intros (?&?&?). Qed.
Lemma WF_active s : WF s → CISet.wf (active s).
Proof. by intros (?&?&?). Qed.

Lemma WF_set_leader l s : WF s → WF (set_leader l s).
Proof. done. Qed.
Lemma WF_set_quorum q v s : WF s → CISet.wf v → WF (set_quorum q v s).
Proof. by intros (?&?&?). Qed.
Lemma WF_set_sync n v s : WF s → CISet.wf v → WF (set_sync n v s).
Proof. by intros (?&?&?). Qed.

Create HintDb quorum.
#[export] Hint Resolve WF_set_leader WF_set_quorum WF_set_sync : quorum.
#[export] Hint Resolve WF_init frame_refl frame_trans : quorum.
#[export] Hint Resolve WF_voters WF_sync WF_active : ciset.

(** Runs the primitive steps of a computation. *)
Ltac gen_run :=
  unfold mbind, gen_bind, mret, gen_ret, get, put, yield, raise, when in *; cbn beta iota zeta in *.

(** Case analysis on the conditions a run tests. *)
Ltac gen_cases :=
  repeat (match goal with
          | |- context [if ?b then _ else _] => destruct b eqn:?
          | H : context [if ?b then _ else _] |- _ => destruct b eqn:?
          end; cbn beta iota zeta in *).

Lemma elems_single x : CISet.elems (single x) = {[Str.lower x]}.
Proof. unfold single. rewrite CISet.elems_of_list. simpl. set_solver. Qed.

Lemma wf_single x : CISet.wf (single x).
Proof. apply CISet.wf_of_list. Qed.
#[export] Hint Resolve wf_single : ciset.
#[export] Hint Rewrite elems_single : ciset.

Lemma lenZ_size v : CISet.wf v → lenZ v = Z.of_nat (size (CISet.elems v)).
Proof. intros. unfold lenZ. by rewrite CISet.len_size. Qed.

Lemma check_invariants_run s : WF s →
  check_invariants s =
    ([], s, if decide (consistent (leader_wanted s) (ext_of s)) then Val () else Exc QuorumError).
Proof.
  intros Hs. unfold check_invariants. gen_run.
  rewrite lenZ_size by auto with ciset. autorewrite with ciset.
  unfold consistent, voter_nodes, sync_nodes; simpl.
  destruct (bool_decide_reflect (CISet.elems (voters s) ≠ ∅)) as [Hv|Hv];
    destruct (Z.leb_spec (Z.of_nat (size (CISet.elems (voters s) ∪ {[Str.lower (leader s)]}
      ∪ (CISet.elems (sync s) ∪ {[Str.lower (leader_wanted s)]})))) (quorum s + numsync s + 1));
    unfold CISet.issubset; autorewrite with ciset;
    repeat case_bool_decide; simpl; rewrite ?app_nil_r; case_decide; simpl; try done; naive_solver lia.
Qed.

(** The values [quorum_update] adjusts its arguments to. *)
Definition adjusted (q : Z) (v : CISet.t) (new_leader : option string) (adj : bool) (s : st) : Z * CISet.t :=
  match new_leader with
  | Some _ => (q, v)
  | None => if (numsync_confirmed s =? 0) && negb (CISet.truthy (voters s)) then (0, CISet.empty)
            else if adj then (q + Z.max (numsync s - numsync_confirmed s) 0, v) else (q, v)
  end.

Definition with_leader (new_leader : option string) (s : st) : st :=
  match new_leader with Some l => set_leader l s | None => s end.

Definition unchanged (q : Z) (v : CISet.t) (new_leader : option string) (s : st) : bool :=
  (leader (with_leader new_leader s) =? leader s)%string && (q =? quorum s) && CISet.eqb v (voters s).

(** [quorum_update] in one step. *)
Lemma quorum_update_run q v nl adj s : WF s → CISet.wf v →
  quorum_update q v nl adj s =
    if (q <? 0) || ((0 <? q) && (lenZ v <=? q)) then ([], s, Exc QuorumError) else
    let '(q', v') := adjusted q v nl adj s in
    let same := unchanged q' v' nl s in
    let s1 := with_leader nl s in
    if same && CISet.truthy (voters s) then ([], s1, Val ()) else
    let s2 := set_quorum q' v' s1 in
    let restart := if same then [MkTransition TRestart (leader s1) (quorum s) (voters s)] else [] in
    if decide (consistent (leader_wanted s) (ext_of s2))
    then (restart ++ [MkTransition TQuorum (leader s1) q' v'], s2, Val ())
    else (restart, s2, Exc QuorumError).
Proof.
  intros Hs Hv. unfold quorum_update, adjusted, unchanged. gen_run.
  destruct (q <? 0); [done|]. destruct ((0 <? q) && (lenZ v <=? q)); [done|]. simpl.
  assert (∀ q' v' s1, WF s1 → CISet.wf v' →
    check_invariants (set_quorum q' v' s1) = ([], set_quorum q' v' s1,
      if decide (consistent (leader_wanted s1) (ext_of (set_quorum q' v' s1))) then Val () else Exc QuorumError)) as Hc.
  { intros q' v' s1 (?&?&?) ?. by rewrite check_invariants_run. }
  destruct nl as [l|]; simpl.
  - rewrite Hc by auto with quorum. gen_cases; try done; simpl; by case_decide.
  - gen_cases; try done; simpl; rewrite Hc by auto with ciset; by case_decide.
Qed.

(** [sync_update] in one step. *)
Lemma sync_update_run n v s : WF s → CISet.wf v →
  sync_update n v s =
    if (n <? 0) || (lenZ v <? n) then ([], s, Exc QuorumError) else
    let s' := set_sync n v s in
    if decide (consistent (leader_wanted s) (ext_of s'))
    then ([MkTransition TSync (leader s) n v], s', Val ()) else ([], s', Exc QuorumError).
Proof.
  intros Hs Hv. unfold sync_update. gen_run.
  destruct (n <? 0); [done|]. destruct (lenZ v <? n); [done|]. simpl.
  rewrite check_invariants_run by auto with quorum. simpl. by case_decide.
Qed.

(** ** Safe computations *)

(** A run of [m] from [s] keeps the attributes well formed, performs only
    consistent steps, and, unless it raises, leaves in the attributes what the
    outside world sees after its transitions; its value satisfies [P]. *)
Definition safe_at {A} (m : gen A) (P : A → Prop) (s : st) : Prop :=
  WF s → let '(tr, s', o) := m s in
  WF s' ∧ frame s s' ∧ steps_ok (leader_wanted s) (ext_of s) tr
  ∧ ((∀ e, o ≠ Exc e) → replay (ext_of s) tr = ext_of s')
  ∧ (∀ a, o = Val a → P a).

Lemma safe_bind {A B} (m : gen A) (f : A → gen B) P Q s :
  safe_at m P s → (∀ s' a, WF s' → P a → safe_at (f a) Q s') → safe_at (m ≫= f) Q s.
Proof.
  unfold safe_at, mbind, gen_bind. intros Hm Hf Hs. specialize (Hm Hs).
  destruct (m s) as [[tr s1] [a| |e]].
  - destruct Hm as (Hs1 & Hfr & Hok & Hrep & HP). specialize (Hf s1 a Hs1 (HP a eq_refl) Hs1).
    destruct (f a s1) as [[tr' s2] o]. destruct Hf as (? & Hfr' & Hok' & Hrep' & ?).
    assert (replay (ext_of s) tr = ext_of s1) as Hrep1 by (by apply Hrep). split_and!; auto.
    + by eapply frame_trans.
    + apply steps_ok_app. rewrite Hrep1. split; [done|]. by destruct Hfr as (_ & _ & <-).
    + intros Hne. rewrite replay_app, Hrep1. auto.
  - destruct Hm as (? & ? & ? & ? & ?). split_and!; auto; naive_solver.
  - destruct Hm as (? & ? & ? & ? & ?). split_and!; auto; naive_solver.
Qed.

Lemma safe_get {B} (f : st → gen B) Q s : (WF s → safe_at (f s) Q s) → safe_at (get ≫= f) Q s.
Proof.
  unfold safe_at. gen_run. intros Hf Hs. specialize (Hf Hs Hs). by destruct (f s s) as [[tr s'] o].
Qed.

Lemma safe_ret {A} (a : A) (P : A → Prop) s : P a → safe_at (mret a) P s.
Proof. intros ? ?. simpl. split_and!; try done; naive_solver. Qed.

Lemma safe_raise {A} e P s : safe_at (raise e : gen A) P s.
Proof. intros ?. simpl. split_and!; try done; naive_solver. Qed.

Lemma safe_return s : safe_at return_ (λ _, True) s.
Proof. intros ?. simpl. by split_and!. Qed.

Lemma safe_when b m s : safe_at m (λ _, True) s → safe_at (when b m) (λ _, True) s.
Proof. intros H. destruct b; [done | by apply safe_ret]. Qed.

Lemma safe_if {A} (b : bool) (m1 m2 : gen A) P s :
  safe_at m1 P s → safe_at m2 P s → safe_at (if b then m1 else m2) P s.
Proof. by destruct b. Qed.

Lemma safe_put_confirmed n s s' P :
  safe_at (put s) P s' → safe_at (put (set_confirmed n s)) P s'.
Proof. unfold safe_at, put. naive_solver. Qed.

Lemma safe_put_same s P : P () → safe_at (put s) P s.
Proof. intros ? ?. simpl. split_and!; try done. by intros []. Qed.

Lemma safe_quorum_update q v nl adj s :
  CISet.wf v → safe_at (quorum_update q v nl adj) (λ _, True) s.
Proof.
  intros Hv Hs. rewrite quorum_update_run by done. destruct (_ || _); [by split_and!|].
  assert (CISet.wf (adjusted q v nl adj s).2) as Hwf.
  { unfold adjusted. destruct nl; [done|]. repeat case_match; simpl; auto with ciset. }
  destruct (adjusted q v nl adj s) as [q' v']. cbn zeta. simpl in Hwf.
  pose proof Hs as (?&?&?). destruct (unchanged q' v' nl s) eqn:Hsame; simpl.
  - apply andb_prop in Hsame as [[Hl%String.eqb_eq Hq]%andb_prop Hv'].
    destruct (CISet.truthy (voters s)).
    + split_and!; try done; destruct nl; simpl in *; try done. intros _. unfold ext_of; simpl. congruence.
    + destruct (decide _) as [Hc|Hc]; split_and!; try done; destruct nl; simpl in *; try done;
        unfold ext_of in *; simpl in *; try (by intros; congruence); naive_solver.
  - destruct (decide _) as [Hc|Hc]; split_and!; try done; destruct nl; simpl in *; try done;
      unfold ext_of in *; simpl in *; try (by intros; congruence); naive_solver.
Qed.

Lemma safe_sync_update n v s : CISet.wf v → safe_at (sync_update n v) (λ _, True) s.
Proof.
  intros Hv Hs. rewrite sync_update_run by done. destruct (_ || _); [by split_and!|].
  cbn zeta. pose proof Hs as (?&?&?). destruct (decide _); simpl; split_and!; try done; naive_solver.
Qed.

(** ** The methods are safe *)

Ltac safe_step :=
  cbn zeta;
  match goal with
  | |- safe_at (get ≫= _) _ _ => apply safe_get; intros ?
  | |- safe_at (@mbind _ _ CISet.t _ _ _) _ _ =>
      apply (safe_bind _ _ CISet.wf); [|intros ? ? ? ?]
  | |- safe_at (_ ≫= _) _ _ => apply (safe_bind _ _ (λ _, True)); [|intros ? [] ? _]
  | |- safe_at (when _ _) _ _ => apply safe_when
  | |- safe_at (assert_ _) _ _ => apply safe_when, safe_raise
  | |- safe_at (raise _) _ _ => apply safe_raise
  | |- safe_at return_ _ _ => apply safe_return
  | |- safe_at (if ?b then _ else _) _ _ => destruct b
  | |- safe_at (let '(_, _) := if ?b then _ else _ in _) _ _ => destruct b
  | |- safe_at (mret _) _ _ => apply safe_ret; first [exact I | auto 8 with ciset]
  | |- safe_at (quorum_update _ _ _ _) _ _ => apply safe_quorum_update; auto 8 with ciset
  | |- safe_at (sync_update _ _) _ _ => apply safe_sync_update; auto 8 with ciset
  end.

Lemma safe_handle_non_steady_cases s : safe_at handle_non_steady_cases (λ _, True) s.
Proof.
  unfold handle_non_steady_cases, non_steady_case1, non_steady_case2, non_steady_margin.
  repeat safe_step.
Qed.

Lemma safe_remove_gone_nodes s : safe_at remove_gone_nodes (λ _, True) s.
Proof. unfold remove_gone_nodes. repeat safe_step. Qed.

Lemma safe_add_new_nodes s : safe_at add_new_nodes (λ _, True) s.
Proof. unfold add_new_nodes. repeat safe_step. Qed.

Lemma safe_handle_replication_factor_change s :
  safe_at handle_replication_factor_change (λ _, True) s.
Proof. unfold handle_replication_factor_change. repeat safe_step. Qed.

Lemma safe_handle_failover s : safe_at handle_failover (λ _, True) s.
Proof.
  unfold handle_failover. repeat safe_step.
  intros Hs. rewrite check_invariants_run by done. destruct (decide _); split_and!; try done; naive_solver.
Qed.

(** ** The failover block and its handler *)

(** After a [QuorumError] in the [try] block either the leader was not switched
    yet, or the attributes the handler rewrites are the inconsistent ones. *)
Lemma handle_failover_error s tr s' :
  WF s → handle_failover s = (tr, s', Exc QuorumError) →
  leader s' ≠ leader_wanted s'
  ∨ (leader s' = leader_wanted s' ∧ ¬ consistent (leader_wanted s') (ext_of s')
     ∧ e_numsync (replay (ext_of s) tr) = numsync s' ∧ e_sync (replay (ext_of s) tr) = sync s').
Proof.
  intros Hs. unfold handle_failover. gen_run.
  destruct (String.eqb_spec (leader_wanted s) (leader s)) as [Hl|Hl]; simpl.
  { rewrite check_invariants_run by done. destruct (decide _); intros ?; simplify_eq. by right. }
  set (v := CISet.union _ (single (leader s))). assert (CISet.wf v) as Hv by (unfold v; auto with ciset).
  destruct (negb (CISet.truthy (sync s))).
  - rewrite sync_update_run by done. cbn zeta. destruct (_ || _); [intros ?; simplify_eq; by left|].
    destruct (decide _); [|intros ?; simplify_eq; by left].
    simpl. rewrite quorum_update_run by auto with quorum. simpl.
    unfold unchanged; simpl. rewrite (proj2 (String.eqb_neq _ _)) by done.
    destruct (_ || _); [intros ?; simplify_eq; by left|]. simpl.
    destruct (decide _); simpl; [by destruct (negb (CISet.truthy (CISet.inter _ _)))|].
    intros ?; simplify_eq. by right.
  - simpl. rewrite quorum_update_run by auto with quorum. simpl.
    unfold unchanged; simpl. rewrite (proj2 (String.eqb_neq _ _)) by done.
    destruct (_ || _); [intros ?; simplify_eq; by left|]. simpl.
    destruct (decide _); simpl; [by destruct (negb (CISet.truthy (CISet.inter _ _)))|].
    intros ?; simplify_eq. by right.
Qed.

Definition error_handler : gen () :=
  s ← get; quorum_update (lenZ (sync s) - numsync s) (sync s) None true.

Lemma error_handler_leader s tr s' o :
  WF s → error_handler s = (tr, s', o) → leader s' = leader s ∧ leader_wanted s' = leader_wanted s.
Proof.
  intros Hs. unfold error_handler. gen_run. rewrite quorum_update_run by auto with ciset.
  destruct (_ || _); [by intros ?; simplify_eq|]. destruct (adjusted _ _ _ _ _). cbn zeta.
  destruct (_ && _); [by intros ?; simplify_eq|]. destruct (decide _); intros ?; by simplify_eq.
Qed.

(** From an inconsistent state the handler never returns silently: it publishes
    the whole [/sync] key. *)
Lemma error_handler_publishes s e tr s' :
  WF s → leader s = leader_wanted s → ¬ consistent (leader_wanted s) (ext_of s) →
  e_numsync e = numsync s → e_sync e = sync s →
  error_handler s = (tr, s', Val ()) →
  steps_ok (leader_wanted s) e tr ∧ replay e tr = ext_of s'.
Proof.
  intros Hs Hl Hinc Hn Hsy. unfold error_handler. gen_run.
  rewrite quorum_update_run by auto with ciset.
  destruct (_ || _); [by intros ?; simplify_eq|].
  destruct (adjusted _ _ _ _ _) as [q' v'] eqn:Hadj. cbn zeta.
  destruct (unchanged q' v' None s && CISet.truthy (voters s)) eqn:Hsame.
  - exfalso. apply andb_prop in Hsame as [[[_ Hq%Z.eqb_eq]%andb_prop Hv]%andb_prop Ht].
    apply Hinc. unfold adjusted in Hadj. rewrite Ht, andb_false_r in Hadj. simplify_eq.
    rewrite CISet.eqb_elems in Hv by auto with ciset. apply bool_decide_eq_true in Hv.
    unfold consistent, voter_nodes, sync_nodes. simpl. rewrite Hl, <-Hv, lenZ_size in * by auto with ciset.
    split; [intros _|by left]. rewrite union_idemp_L.
    pose proof (size_union_single (CISet.elems (sync s)) (Str.lower (leader_wanted s))). lia.
  - destruct (decide _) as [Hc|]; [|by intros ?; simplify_eq]. intros ?; simplify_eq. simpl in Hc.
    assert (apply_transition e (MkTransition TQuorum (leader s) q' v') = ext_of (set_quorum q' v' s)) as Ha.
    { unfold ext_of, apply_transition; simpl. by rewrite Hn, Hsy. }
    destruct (unchanged _ _ _ _); cbn -[apply_transition ext_of];
      try change (apply_transition e (MkTransition TRestart _ _ _)) with e;
      rewrite Ha; by split_and!.
Qed.

Lemma failover_phase s : WF s →
  let '(tr, s', o) := catch_quorum_error handle_failover error_handler s in
  (∀ e, o ≠ Exc e) →
  WF s' ∧ frame s s' ∧
  ((o = Val () ∧ leader s' ≠ leader_wanted s')
   ∨ (steps_ok (leader_wanted s) (ext_of s) tr ∧ replay (ext_of s) tr = ext_of s')).
Proof.
  intros Hs. unfold catch_quorum_error. pose proof (safe_handle_failover s Hs) as Hsafe.
  destruct (handle_failover s) as [[tr s1] o1] eqn:Hf.
  destruct Hsafe as (Hs1 & Hfr & Hok & Hrep & _).
  destruct o1 as [[]| |[]]; 
    [intros _; do 2 (split; [done|]); right; split; [done | by apply Hrep].. | |naive_solver].
  pose proof (handle_failover_error _ _ _ Hs Hf) as Herr.
  assert (safe_at error_handler (λ _, True) s1) as Hh
    by (unfold error_handler; repeat safe_step).
  specialize (Hh Hs1). destruct (error_handler s1) as [[tr2 s2] o2] eqn:He.
  destruct Hh as (Hs2 & Hfr2 & _ & _ & _). pose proof (error_handler_leader _ _ _ _ Hs1 He) as [Hl1 Hl2].
  intros Hne. split_and!; [done | by eapply frame_trans |].
  assert (o2 = Val ()) as ->.
  { destruct o2 as [[]| |]; [done| |naive_solver]. revert He. unfold error_handler. gen_run.
    rewrite quorum_update_run by auto with ciset. destruct (_ || _); [done|].
    destruct (adjusted _ _ _ _ _). cbn zeta. destruct (_ && _); [done|]. by destruct (decide _). }
  destruct Herr as [Hneq|(Heq & Hinc & Hn & Hsy)]; [left; split; congruence|right].
  destruct (error_handler_publishes s1 (replay (ext_of s) tr) tr2 s2) as [Hok2 Hrep2]; auto.
  destruct Hfr as (_ & _ & Hlw). rewrite Hlw in Hok2.
  rewrite steps_ok_app, replay_app. auto.
Qed.

(** ** The whole resolver *)

(** What follows the failover block, under the assertion on the leader. *)
Definition main_phase (s : st) : gen () :=
  when ((numsync_confirmed s =? 0) && CISet.truthy (CISet.inter (sync s) (active s)))
    (put (set_confirmed (Z.min (lenZ (CISet.inter (sync s) (active s)))
                               (lenZ (voters s) - quorum s)) s));;
  handle_non_steady_cases;;
  remove_gone_nodes;;
  add_new_nodes;;
  handle_replication_factor_change.

Lemma safe_main_phase s : safe_at (main_phase s) (λ _, True) s.
Proof.
  unfold main_phase.
  apply (safe_bind _ _ (λ _, True)).
  { apply safe_when. intros Hs. unfold put. simpl. split_and!; try done; apply Hs. }
  intros s1 [] _ _. apply (safe_bind _ _ (λ _, True)); [apply safe_handle_non_steady_cases|].
  intros s2 [] _ _. apply (safe_bind _ _ (λ _, True)); [apply safe_remove_gone_nodes|].
  intros s3 [] _ _. apply (safe_bind _ _ (λ _, True)); [apply safe_add_new_nodes|].
  intros s4 [] _ _. apply safe_handle_replication_factor_change.
Qed.

(** A generator that ends without an exception only performed consistent steps,
    and its attributes are what the outside world sees. *)
Lemma generate_transitions_safe s tr s' o : WF s →
  generate_transitions s = (tr, s', o) → (∀ e, o ≠ Exc e) →
  WF s' ∧ frame s s' ∧ steps_ok (leader_wanted s) (ext_of s) tr ∧ replay (ext_of s) tr = ext_of s'.
Proof.
  intros Hs. pose proof (failover_phase s Hs) as Hf.
  unfold generate_transitions. fold error_handler. unfold mbind at 1, gen_bind at 1.
  destruct (catch_quorum_error _ _ s) as [[tr1 s1] [[]| |e]]; [| |intros ? Hne; by destruct (Hne e); simplify_eq].
  2:{ intros ? Hne; simplify_eq. destruct (Hf ltac:(done)) as (? & ? & [[? _]|[? ?]]); [done|by split_and!]. }
  destruct (Hf ltac:(done)) as (Hs1 & Hfr & Hd). clear Hf.
  change (get ≫= _) with (s ← get; assert_ (leader s =? leader_wanted s)%string;; main_phase s).
  gen_run. unfold assert_. gen_run.
  destruct (String.eqb_spec (leader s1) (leader_wanted s1)) as [Hl|Hl]; simpl;
    [|intros ? Hne; simplify_eq; by destruct (Hne AssertionError)].
  destruct Hd as [[_ ?]|[Hok Hrep]]; [done|].
  pose proof (safe_main_phase s1 Hs1) as Hm. destruct (main_phase s1 s1) as [[tr2 s2] o2].
  destruct Hm as (Hs2 & Hfr2 & Hok2 & Hrep2 & _). intros ? Hne; simplify_eq.
  destruct Hfr as (? & ? & Hlw). rewrite Hlw in Hok2.
  rewrite steps_ok_app, replay_app, Hrep. split_and!; auto. unfold frame in *. intuition congruence.
Qed.
