(* ===== verification/QuorumSteady.v ===== *)
(** * The state the quorum state machine reaches

    [ends m Q s]: if the computation [m] started in [s] ends normally, its final
    state and value satisfy [Q].  The lemmas follow the phases of
    [_generate_transitions]; together they give the desired state. *)
From S2P Require Import Prelude PyDict Collections Quorum QuorumSafety.

Definition ends {A} (m : gen A) (Q : st → A → Prop) (s : st) : Prop :=
  ∀ tr s' a, m s = (tr, s', Val a) → Q s' a.

Lemma ends_bind {A B} (m : gen A) (f : A → gen B) P Q s :
  ends m P s → (∀ s' a, P s' a → ends (f a) Q s') → ends (m ≫= f) Q s.
Proof.
  unfold ends, mbind, gen_bind. intros Hm Hf tr s' b Hrun.
  destruct (m s) as [[tr1 s1] [a| |]] eqn:E; [|done..].
  specialize (Hf s1 a (Hm _ _ _ eq_refl)). destruct (f a s1) as [[tr2 s2] o] eqn:E2.
  simplify_eq. by eapply Hf.
Qed.

Lemma ends_get {B} (f : st → gen B) Q s : ends (f s) Q s → ends (get ≫= f) Q s.
Proof.
  unfold ends. gen_run. intros H tr s' b. destruct (f s s) as [[tr1 s1] o] eqn:E.
  intros ?; simplify_eq. by eapply H.
Qed.

Lemma ends_ret {A} (a : A) (Q : st → A → Prop) s : Q s a → ends (mret a) Q s.
Proof. unfold ends. gen_run. intros ? ? ? ? ?. by simplify_eq. Qed.

Lemma ends_raise {A} e (Q : st → A → Prop) s : ends (raise e) Q s.
Proof. by intros ? ? ?. Qed.

Lemma ends_when b m (Q : st → () → Prop) s :
  (b = true → ends m Q s) → (b = false → Q s ()) → ends (when b m) Q s.
Proof. destruct b; [auto | intros _ H; by apply ends_ret, H]. Qed.

Lemma ends_mono {A} (m : gen A) (P Q : st → A → Prop) s :
  ends m P s → (∀ s' a, P s' a → Q s' a) → ends m Q s.
Proof. unfold ends. eauto. Qed.

(** Attributes that a phase leaves alone. *)
Definition same_params (s s' : st) : Prop :=
  frame s s' ∧ numsync_confirmed s' = numsync_confirmed s ∧ leader s' = leader s ∧ WF s'.

Lemma same_params_trans s1 s2 s3 : same_params s1 s2 → same_params s2 s3 → same_params s1 s3.
Proof. unfold same_params, frame. intuition congruence. Qed.

Lemma same_params_refl s : WF s → same_params s s.
Proof. intros. by do 3 (split; [done|]). Qed.
Lemma same_params_set_quorum q v s : WF s → CISet.wf v → same_params s (set_quorum q v s).
Proof. intros. do 3 (split; [done|]). auto with quorum. Qed.
Lemma same_params_set_sync n v s : WF s → CISet.wf v → same_params s (set_sync n v s).
Proof. intros. do 3 (split; [done|]). auto with quorum. Qed.
#[export] Hint Resolve same_params_refl same_params_set_quorum same_params_set_sync : quorum.

Abbreviation S_ s := (CISet.elems (sync s)).
Abbreviation V_ s := (CISet.elems (voters s)).
Abbreviation A_ s := (CISet.elems (active s)).

(** [quorum_update] sets the voters, or leaves them empty when no replica is
    known to be caught up. *)
Lemma ends_quorum_update q v adj s : WF s → CISet.wf v →
  ends (quorum_update q v None adj) (λ s' _,
    same_params s s' ∧ sync s' = sync s ∧ numsync s' = numsync s ∧
    (V_ s' = CISet.elems v ∨ numsync_confirmed s = 0 ∧ V_ s = ∅ ∧ V_ s' = ∅)) s.
Proof.
  intros Hs Hv tr s' []. rewrite quorum_update_run by done. destruct (_ || _); [done|].
  unfold adjusted. destruct ((numsync_confirmed s =? 0) && negb (CISet.truthy (voters s))) eqn:E.
  - apply andb_prop in E as [E1%Z.eqb_eq E2%negb_true_iff].
    rewrite E2, andb_false_r. rewrite CISet.truthy_elems in E2 by auto with ciset.
    apply bool_decide_eq_false, dec_stable in E2. cbn zeta.
    destruct (decide _); intros ?; simplify_eq. split_and!; auto with quorum ciset.
  - assert (∃ q', (if adj then (q + Z.max (numsync s - numsync_confirmed s) 0, v) else (q, v)) = (q', v))
      as [q' ->] by (destruct adj; eauto).
    destruct (_ && CISet.truthy (voters s)) eqn:Hsame.
    + apply andb_prop in Hsame as [[_ Hv']%andb_prop _].
      rewrite CISet.eqb_elems in Hv' by auto with ciset. apply bool_decide_eq_true in Hv'.
      intros ?; simplify_eq. split_and!; auto with quorum ciset.
    + cbn zeta. destruct (decide _); intros ?; simplify_eq.
      split_and!; auto with quorum ciset.
Qed.

Lemma ends_sync_update n v s : WF s → CISet.wf v →
  ends (sync_update n v) (λ s' _,
    same_params s s' ∧ sync s' = v ∧ numsync s' = n ∧ voters s' = voters s) s.
Proof.
  intros Hs Hv tr s' []. rewrite sync_update_run by done. destruct (_ || _); [done|]. cbn zeta.
  destruct (decide _); intros ?; simplify_eq. split_and!; auto with quorum.
Qed.

Lemma same_params_WF s s' : same_params s s' → WF s'.
Proof. by intros (_ & _ & _ & ?). Qed.
#[export] Hint Resolve same_params_WF same_params_trans : quorum.
#[export] Hint Extern 2 (CISet.wf _) =>
  match goal with H : same_params _ ?s |- _ => progress pose proof (same_params_WF _ _ H); clear H end : ciset.

(** One step of a phase whose only obligation is to keep the parameters. *)
Ltac keep_params :=
  cbn zeta;
  match goal with
  | |- ends (get ≫= _) _ _ => apply ends_get
  | H : WF ?s |- ends (_ ≫= _) _ ?s =>
      apply (ends_bind _ _ (λ s' _, same_params s s'));
        [|let s' := fresh "s" in intros s' [] ?;
          assert (WF s') by eauto with quorum]
  | |- ends (when _ _) _ _ => apply ends_when; intros ?; [|by eauto with quorum]
  | |- ends (quorum_update _ _ _ _) _ _ =>
      eapply ends_mono; [apply ends_quorum_update; auto 8 with ciset|];
      cbn beta; intros ? [] (? & _); eauto with quorum
  | |- ends (sync_update _ _) _ _ =>
      eapply ends_mono; [apply ends_sync_update; auto 8 with ciset|];
      cbn beta; intros ? [] (? & _); eauto with quorum
  end.

Lemma ends_case1 s : WF s → ends non_steady_case1 (λ s' _, same_params s s') s.
Proof. intros Hs. unfold non_steady_case1. repeat keep_params. Qed.

Lemma ends_case2 s : WF s → ends non_steady_case2 (λ s' _, same_params s s') s.
Proof. intros Hs. unfold non_steady_case2. repeat keep_params. Qed.

(** Executes a leading [quorum_update] or [sync_update], naming its final state. *)
Tactic Notation "qu_step" ident(s') simple_intropattern(pat) :=
  eapply ends_bind; [apply ends_quorum_update; auto 8 with ciset|];
  cbn beta; intros s' [] pat; assert (WF s') by eauto with quorum.
Tactic Notation "su_step" ident(s') simple_intropattern(pat) :=
  eapply ends_bind; [apply ends_sync_update; auto 8 with ciset|];
  cbn beta; intros s' [] pat; assert (WF s') by eauto with quorum.
Tactic Notation "su_last" ident(s') simple_intropattern(pat) :=
  eapply ends_mono; [apply ends_sync_update; auto 8 with ciset|]; cbn beta; intros s' [] pat.
Tactic Notation "qu_last" ident(s') simple_intropattern(pat) :=
  eapply ends_mono; [apply ends_quorum_update; auto 8 with ciset|]; cbn beta; intros s' [] pat.

(** After [__handle_non_steady_cases] voters and sync name the same nodes. *)
Lemma ends_non_steady s : WF s →
  ends handle_non_steady_cases (λ s' _, same_params s s' ∧ V_ s' = S_ s') s.
Proof.
  intros Hs. unfold handle_non_steady_cases. apply ends_get.
  apply (ends_bind _ _ (λ s' _, same_params s s')).
  { destruct (CISet.lt _ _); [by apply ends_case1|].
    apply ends_when; intros _; [by apply ends_case2 | auto with quorum]. }
  intros s1 [] Hp. assert (WF s1) as Hs1 by eauto with quorum. apply ends_get.
  apply (ends_bind _ _ (λ s' _, s' = s1 ∧ V_ s1 = S_ s1)).
  { unfold assert_. apply ends_when; intros Heq; [apply ends_raise|]. split; [done|].
    apply negb_false_iff in Heq. rewrite CISet.eqb_elems in Heq by auto with ciset.
    by apply bool_decide_eq_true in Heq. }
  intros s2 [] [-> Heq]. unfold non_steady_margin. apply ends_get. cbn zeta.
  destruct (_ <? _).
  - destruct (_ <? _).
    + su_last s' (? & Hsy & _ & Hv). rewrite Hsy, Hv. eauto with quorum.
    + qu_last s' (? & Hsy & _ & Hv). rewrite Hsy. intuition (congruence || eauto with quorum).
  - apply ends_when; intros _; [|auto].
    qu_last s' (? & Hsy & _ & Hv). rewrite Hsy. intuition (congruence || eauto with quorum).
Qed.

Lemma same_params_active s s' : same_params s s' → active s' = active s.
Proof. by intros ((? & _) & _). Qed.
Lemma same_params_wanted s s' : same_params s s' → sync_wanted s' = sync_wanted s.
Proof. by intros ((_ & ? & _) & _). Qed.
Lemma same_params_confirmed s s' : same_params s s' → numsync_confirmed s' = numsync_confirmed s.
Proof. by intros (_ & ? & _). Qed.

(** What is left of the nodes to remove, in the last part of [__remove_gone_nodes]. *)
Lemma ends_remove_rest s to_remove : WF s → CISet.wf to_remove →
  V_ s = S_ s →
  CISet.elems to_remove ⊆ S_ s →
  ends (when (CISet.truthy to_remove)
       (s ← get;
        assert_ (quorum s =? 0);;
        let numsync' := numsync s - lenZ to_remove in
        let sync' := CISet.diff (sync s) to_remove in
        let voters' := CISet.diff (voters s) to_remove in
        let sync_decrease := numsync' - Z.min (sync_wanted s) (lenZ sync') in
        let quorum' := if negb (sync_decrease =? 0)
                       then Z.min sync_decrease (lenZ voters' - 1) else 0 in
        quorum_update quorum' voters' None false;;
        sync_update numsync' sync'))
    (λ s' _, same_params s s' ∧ S_ s' = S_ s ∖ CISet.elems to_remove ∧ V_ s' = S_ s') s.
Proof.
  intros Hs Hr HV Hsub. apply ends_when; intros Ht; rewrite CISet.truthy_elems in Ht by done.
  - apply bool_decide_eq_true in Ht. apply ends_get.
    apply (ends_bind _ _ (λ s' _, s' = s)).
    { apply ends_when; [intros; apply ends_raise | done]. }
    intros s1 [] ->. cbn zeta. qu_step s1 (Hp1 & Hsy1 & _ & Hv1).
    su_last s2 (? & Hsy & _ & Hv). rewrite Hsy, Hv. split; [by eauto with quorum|].
    autorewrite with ciset in *. split; [done|].
    destruct Hv1 as [->|(_ & ? & ?)]; [by rewrite HV|set_solver].
  - apply bool_decide_eq_false, dec_stable in Ht. split; [auto with quorum|]. set_solver.
Qed.

(** [__remove_gone_nodes] leaves exactly the active synchronous nodes. *)
Lemma ends_remove_gone s : WF s → V_ s = S_ s →
  ends remove_gone_nodes (λ s' _, same_params s s' ∧ S_ s' = S_ s ∩ A_ s ∧ V_ s' = S_ s') s.
Proof.
  intros Hs HV. unfold remove_gone_nodes. apply ends_get. cbn zeta.
  set (tr := CISet.diff (sync s) (active s)).
  assert (CISet.wf tr) as Hwf by (unfold tr; auto with ciset).
  assert (CISet.elems tr = S_ s ∖ A_ s) as Htr by (unfold tr; by autorewrite with ciset).
  destruct (CISet.truthy tr && CISet.eqb (sync s) tr) eqn:Hall.
  - apply andb_prop in Hall as [Ht Heq]. autorewrite with ciset in Ht, Heq.
    apply bool_decide_eq_true in Ht, Heq. qu_step s1 (Hp1 & Hsy1 & _ & Hv1).
    su_last s2 (? & Hsy & _ & Hv). rewrite Hsy, Hv. split; [by eauto with quorum|].
    rewrite CISet.elems_empty in *. split; [set_solver|]. naive_solver.
  - apply ends_when; intros Ht; [|].
    2:{ rewrite CISet.truthy_elems in Ht by done. apply bool_decide_eq_false, dec_stable in Ht.
        split; [auto with quorum|]. split; [|done].
        rewrite <-diff_diff_inter, <-Htr, Ht. by rewrite difference_empty_L. }
    apply (ends_bind _ _ (λ s' t, same_params s s' ∧ CISet.wf t ∧ CISet.elems t ⊆ S_ s' ∧
             V_ s' = S_ s' ∧ S_ s' ∖ CISet.elems t = S_ s ∩ A_ s)).
    { destruct (negb _).
      - set (rm := CISet.of_list _). assert (CISet.wf rm) as Hrmwf by apply CISet.wf_of_list.
        assert (CISet.elems rm ⊆ CISet.elems tr) as Hrm.
        { apply CISet.slice_subset; [done|]. by rewrite <-Permutation_rev, Str.sorted_perm. }
        su_step s0 (Hp0 & Hsy0 & _ & Hv0). apply ends_get. cbn zeta.
        qu_step s1 (Hp1 & Hsy1 & _ & Hv1). apply ends_ret.
        assert (S_ s0 = S_ s ∖ CISet.elems rm) as HS0 by (rewrite Hsy0; by autorewrite with ciset).
        assert (S_ s1 = S_ s0) as HS1 by congruence.
        split; [by eauto with quorum|]. autorewrite with ciset in *. rewrite HS1, HS0, Htr in *.
        split_and!.
        + auto with ciset.
        + set_solver.
        + destruct Hv1 as [->|(_ & ? & ->)]; rewrite ?Hv0, ?HV in *; set_solver.
        + apply diff_partial_inter, Hrm.
      - apply ends_ret. rewrite Htr, diff_diff_inter. split_and!; auto with quorum. set_solver. }
    intros s1 t (Hp & Hwt & Hsub & HV1 & HS1).
    eapply ends_mono; [apply ends_remove_rest; eauto with quorum|]. cbn beta.
    intros s2 [] (? & HS2 & HV2). rewrite HS2 in *. split; [by eauto with quorum|]. by split; [|].
Qed.

(** The voters after the last two phases: all of the synchronous nodes, or none
    as long as no replica is known to have caught up. *)
Definition voters_follow (s : st) : Prop :=
  V_ s = S_ s ∨ numsync_confirmed s = 0 ∧ V_ s = ∅.

(** [__add_new_nodes] makes every active node synchronous. *)
Lemma ends_add_new s : WF s → V_ s = S_ s → S_ s ⊆ A_ s →
  ends add_new_nodes (λ s' _, same_params s s' ∧ S_ s' = A_ s ∧ voters_follow s') s.
Proof.
  intros Hs HV HSA. unfold add_new_nodes. apply ends_get. cbn zeta.
  set (ta := CISet.diff (active s) (sync s)).
  assert (CISet.wf ta) as Hwf by (unfold ta; auto with ciset).
  assert (CISet.elems ta = A_ s ∖ S_ s) as Hta by (unfold ta; by autorewrite with ciset).
  apply ends_when; intros Ht; rewrite CISet.truthy_elems in Ht by done.
  2:{ apply bool_decide_eq_false, dec_stable in Ht. rewrite Hta in Ht.
      split; [auto with quorum|]. split; [|by left].
      by rewrite <-(union_diff_same _ _ HSA), Ht, union_empty_r_L. }
  set (sw := Z.min _ _).
  apply (ends_bind _ _ (λ s' t, same_params s s' ∧ CISet.wf t ∧ S_ s' ∪ CISet.elems t = A_ s ∧
           (V_ s' = S_ s' ∨ numsync_confirmed s = 0 ∧ V_ s' = ∅ ∧ CISet.elems t = ∅))).
  { destruct (0 <? _).
    2:{ apply ends_ret. split_and!; auto with quorum. rewrite Hta. by apply union_diff_same. }
    assert (∀ add n, CISet.wf add → CISet.elems add ⊆ CISet.elems ta →
      (S_ s = ∅ → CISet.elems add = CISet.elems ta) →
      ends (sync_update n (CISet.union (sync s) add);;
            s0 ← get;
            quorum_update (lenZ (CISet.union (voters s0) add) - sw) (CISet.union (voters s0) add) None true;;
            s1 ← get;
            mret (CISet.isub ta (sync s1)))
        (λ s' t, same_params s s' ∧ CISet.wf t ∧ S_ s' ∪ CISet.elems t = A_ s ∧
           (V_ s' = S_ s' ∨ numsync_confirmed s = 0 ∧ V_ s' = ∅ ∧ CISet.elems t = ∅)) s) as Hgo.
    { intros add n Hwa Hsub Hall.
      su_step s1 (Hp1 & Hsy1 & _ & Hv1). apply ends_get. qu_step s2 (Hp2 & Hsy2 & _ & Hv2).
      apply ends_get, ends_ret. rewrite (same_params_confirmed _ _ Hp1), Hv1 in Hv2.
      rewrite Hsy2, Hsy1. autorewrite with ciset in *.
      split; [by eauto with quorum|]. split; [auto with ciset|]. split.
      - rewrite Hta in *. by apply union_diff_more.
      - destruct Hv2 as [->|(? & HVe & ->)]; [left; by rewrite HV|].
        right. split_and!; try done. rewrite Hall by congruence. set_solver. }
    destruct (CISet.truthy (sync s)) eqn:Hts; rewrite CISet.truthy_elems in Hts by auto with ciset.
    - apply bool_decide_eq_true in Hts. apply Hgo; [apply CISet.wf_of_list| |done].
      apply CISet.slice_subset, Str.sorted_perm; done.
    - by apply Hgo. }
  intros s1 t (Hp1 & Hwt & HS1 & HV1). assert (WF s1) by eauto with quorum.
  apply ends_when; intros Ht1; rewrite CISet.truthy_elems in Ht1 by done.
  - apply bool_decide_eq_true in Ht1. apply ends_get. cbn zeta.
    qu_step s2 (Hp2 & Hsy2 & _ & Hv2). apply ends_get. su_last s3 (Hp3 & Hsy3 & _ & Hv3). rewrite Hsy3, Hsy2. rewrite CISet.elems_union by auto with ciset.
    split; [by eauto with quorum|]. split; [done|]. unfold voters_follow.
    rewrite Hv3, Hsy3, Hsy2, (same_params_confirmed _ _ Hp3), (same_params_confirmed _ _ Hp2).
    rewrite !CISet.elems_union in * by auto with ciset. destruct HV1 as [HV1|(_ & _ & ?)]; [|done].
    rewrite HV1 in Hv2. destruct Hv2 as [->|(? & ? & ->)]; [by left | by right].
  - apply bool_decide_eq_false, dec_stable in Ht1. split; [done|].
    rewrite Ht1, union_empty_r_L in HS1. split; [done|].
    unfold voters_follow. rewrite (same_params_confirmed _ _ Hp1). naive_solver.
Qed.

(** [__handle_replication_factor_change] settles the number of synchronous nodes. *)
Lemma ends_replication_factor s : WF s → voters_follow s →
  ends handle_replication_factor_change (λ s' _, same_params s s' ∧ sync s' = sync s ∧
    numsync s' = Z.min (sync_wanted s) (lenZ (sync s)) ∧ voters_follow s') s.
Proof.
  intros Hs HV. unfold handle_replication_factor_change. apply ends_get. cbn zeta.
  assert (∀ q adj s1, WF s1 → voters_follow s1 → ends (quorum_update q (voters s1) None adj)
            (λ s' _, same_params s1 s' ∧ sync s' = sync s1 ∧ numsync s' = numsync s1 ∧ voters_follow s') s1) as Hq.
  { intros q adj s1 Hs1 HV1. qu_last s' (Hp & Hsy & Hn & Hv). split_and!; auto. unfold voters_follow in *.
    rewrite Hsy, (same_params_confirmed _ _ Hp). intuition congruence. }
  destruct (Z.ltb_spec 0 (Z.min (sync_wanted s) (lenZ (sync s)) - numsync s)).
  - su_step s1 (Hp1 & Hsy1 & Hn1 & Hv1).
    apply ends_get. eapply ends_mono; [apply Hq; [done|]|].
    + unfold voters_follow in *. by rewrite Hsy1, Hv1, (same_params_confirmed _ _ Hp1).
    + cbn beta. intros s2 [] (? & ? & Hn & ?). split_and!; auto; [by eauto with quorum | congruence | lia].
  - apply ends_when; intros Hlt.
    2:{ apply Z.ltb_ge in Hlt. split_and!; auto with quorum. lia. }
    apply (ends_bind _ _ (λ s' _, same_params s s' ∧ sync s' = sync s ∧ numsync s' = numsync s ∧ voters_follow s')).
    { apply ends_when; intros _; [by apply Hq|]. split_and!; auto with quorum. }
    intros s1 [] (Hp1 & Hsy1 & Hn1 & Hv1). assert (WF s1) by eauto with quorum. apply ends_get.
    su_last s2 (Hp2 & Hsy2 & Hn2 & Hv2). split_and!; [by eauto with quorum | congruence | lia |].
    unfold voters_follow in *. by rewrite Hsy2, Hv2, (same_params_confirmed _ _ Hp2).
Qed.

(** Only [_generate_transitions] itself executes [return]. *)
Definition no_ret {A} (m : gen A) : Prop := ∀ s tr s', m s ≠ (tr, s', Ret).

Lemma no_ret_bind {A B} (m : gen A) (f : A → gen B) :
  no_ret m → (∀ a, no_ret (f a)) → no_ret (m ≫= f).
Proof.
  unfold no_ret, mbind, gen_bind. intros Hm Hf s tr s'. specialize (Hm s).
  destruct (m s) as [[tr1 s1] [a| |]]; [|by destruct (Hm tr1 s1)|done].
  specialize (Hf a s1). destruct (f a s1) as [[tr2 s2] o]. intros ?; simplify_eq. by eapply Hf.
Qed.
Lemma no_ret_prim {A} (a : A) t s e :
  no_ret (mret a) ∧ no_ret (yield t) ∧ no_ret get ∧ no_ret (put s) ∧ no_ret (raise e : gen A).
Proof. by split_and!. Qed.

Ltac no_ret_step :=
  cbn zeta;
  match goal with
  | |- no_ret (_ ≫= _) => apply no_ret_bind; [|intros ?]
  | |- no_ret (if ?b then _ else _) => destruct b
  | |- no_ret (when ?b _) => destruct b; unfold when
  | |- no_ret (match ?x with _ => _ end) => destruct x
  | |- no_ret (let '(_, _) := ?x in _) => destruct x
  | |- no_ret (assert_ _) => unfold assert_
  | |- no_ret _ => by intros ? ? ?
  end.

Lemma no_ret_main_phase s : no_ret (main_phase s).
Proof.
  unfold main_phase, handle_non_steady_cases, non_steady_case1, non_steady_case2,
    non_steady_margin, remove_gone_nodes, add_new_nodes, handle_replication_factor_change,
    sync_update, quorum_update, check_invariants.
  repeat no_ret_step.
Qed.

(** ** The resolver *)

Lemma ends_main_phase s : WF s →
  ends (main_phase s) (λ s' _, frame s s' ∧ leader s' = leader s ∧ S_ s' = A_ s ∧
    numsync s' = Z.min (sync_wanted s) (lenZ (sync s')) ∧ WF s' ∧
    (V_ s' = S_ s' ∨ numsync_confirmed s = 0 ∧ V_ s' = ∅)) s.
Proof.
  intros Hs. unfold main_phase.
  apply (ends_bind _ _ (λ s' _, frame s s' ∧ leader s' = leader s ∧ WF s' ∧
           (numsync_confirmed s' = 0 → numsync_confirmed s = 0))).
  { apply ends_when; intros Hc; [|done]. apply andb_prop in Hc as [Hc%Z.eqb_eq _].
    intros tr s' []. unfold put. intros ?; simplify_eq. split_and!; try done; apply Hs. }
  intros s1 [] (Hf1 & Hl1 & Hs1 & Hc1).
  eapply ends_bind; [by apply ends_non_steady|]. cbn beta. intros s2 [] (Hp2 & HV2).
  assert (WF s2) by eauto with quorum.
  eapply ends_bind; [by apply ends_remove_gone|]. cbn beta. intros s3 [] (Hp3 & HS3 & HV3).
  assert (WF s3) by eauto with quorum.
  eapply ends_bind; [apply ends_add_new; [done..|]|].
  { rewrite HS3, (same_params_active _ _ Hp3). set_solver. }
  cbn beta. intros s4 [] (Hp4 & HS4 & HV4). assert (WF s4) by eauto with quorum.
  eapply ends_mono; [by apply ends_replication_factor|]. cbn beta.
  intros s5 [] (Hp5 & HS5 & Hn5 & HV5).
  assert (same_params s1 s5) as Hp by eauto 6 with quorum.
  assert (active s3 = active s) as Ha.
  { rewrite (same_params_active _ _ Hp3), (same_params_active _ _ Hp2). apply Hf1. }
  assert (sync_wanted s4 = sync_wanted s) as Hw.
  { rewrite (same_params_wanted _ _ Hp4), (same_params_wanted _ _ Hp3), (same_params_wanted _ _ Hp2). apply Hf1. }
  split_and!.
  - eapply frame_trans; [exact Hf1 | apply Hp].
  - transitivity (leader s1); [apply Hp | done].
  - by rewrite HS5, HS4, Ha.
  - by rewrite Hn5, HS5, Hw.
  - eauto with quorum.
  - destruct HV5 as [?|[Hc5 ?]]; [by left | right]. split; [|done]. apply Hc1.
    by rewrite <-Hc5, (same_params_confirmed _ _ Hp).
Qed.

(** With the right leader recorded, a run that does not raise ends in the
    desired state. *)
Lemma generate_transitions_ends s tr s' o : WF s → leader s = leader_wanted s →
  generate_transitions s = (tr, s', o) → (∀ e, o ≠ Exc e) →
  leader s' = leader s ∧ S_ s' = A_ s ∧ numsync s' = Z.min (sync_wanted s) (lenZ (sync s')) ∧
  (V_ s' = S_ s' ∨ numsync_confirmed s = 0 ∧ V_ s' = ∅).
Proof.
  intros Hs Hl. unfold generate_transitions. fold error_handler.
  assert (∀ tr s1 o, catch_quorum_error handle_failover error_handler s = (tr, s1, o) →
    (∃ e, o = Exc e) ∨ o = Val () ∧ WF s1 ∧ same_params s s1) as Hcatch.
  { intros tr1 s1 o1. unfold catch_quorum_error, handle_failover. gen_run.
    rewrite Hl, String.eqb_refl. simpl. rewrite check_invariants_run by done.
    destruct (decide _); [intros ?; simplify_eq; right; auto with quorum|].
    destruct (error_handler s) as [[tr2 s2] o2] eqn:He. intros ?; simplify_eq. simpl in *.
    revert He. unfold error_handler. gen_run. rewrite quorum_update_run by auto with ciset.
    destruct (_ || _); [intros ?; simplify_eq; eauto|].
    assert (CISet.wf (adjusted (lenZ (sync s) - numsync s) (sync s) None true s).2) as Hwf.
    { unfold adjusted. repeat case_match; simpl; auto with ciset. }
    destruct (adjusted _ _ _ _ _) as [q' v']. cbn zeta.
    destruct (_ && _); [intros ?; simplify_eq; right; auto with quorum|].
    destruct (decide _); intros ?; simplify_eq; [right | eauto]. split_and!; auto with quorum. }
  unfold mbind at 1, gen_bind at 1.
  destruct (catch_quorum_error _ _ s) as [[tr1 s1] o1] eqn:Hc.
  destruct (Hcatch _ _ _ eq_refl) as [[e ->]|(-> & Hs1 & Hp)];
    [intros ? Hne; by destruct (Hne e); simplify_eq|].
  change (get ≫= _) with (s ← get; assert_ (leader s =? leader_wanted s)%string;; main_phase s).
  assert (leader s1 = leader_wanted s1) as Hl1.
  { destruct Hp as ((_ & _ & ->) & _ & -> & _). done. }
  gen_run. unfold assert_. gen_run. rewrite Hl1, String.eqb_refl. simpl.
  pose proof (ends_main_phase s1 Hs1) as Hm. pose proof (safe_main_phase s1 Hs1) as Hsafe.
  destruct (main_phase s1 s1) as [[tr2 s2] o2] eqn:Hmp. intros [= <- <- <-] Hne.
  destruct o2 as [[]| |e]; [|by destruct (no_ret_main_phase s1 s1 tr2 s2)|by destruct (Hne e)].
  destruct (Hm _ _ _ Hmp) as (Hf & Hl2 & HS & Hn & Hs2 & HV).
  destruct Hp as ((Ha & Hw & _) & Hcf & Hl' & _).
  split_and!; [congruence | by rewrite HS, Ha | by rewrite Hn, Hw | by rewrite <-Hcf].
Qed.
