(* ===== verification/QuorumProgress.v ===== *)
(** * The quorum state machine makes progress

    [succeeds m Q s]: the computation [m] started in [s] ends normally, in a final
    state and with a value satisfying [Q].  From a steady state (voters and
    synchronous nodes agree, the replication factor is the wanted one) the
    resolver absorbs any change of the set of active nodes without raising. *)
From S2P Require Import Prelude PyDict Collections Quorum QuorumSafety QuorumSteady.

Definition succeeds {A} (m : gen A) (Q : st → A → Prop) (s : st) : Prop :=
  ∃ tr s' a, m s = (tr, s', Val a) ∧ Q s' a.

Lemma succeeds_bind {A B} (m : gen A) (f : A → gen B) P Q s :
  succeeds m P s → (∀ s' a, P s' a → succeeds (f a) Q s') → succeeds (m ≫= f) Q s.
Proof.
  intros (tr & s1 & a & Hm & HP) Hf. destruct (Hf s1 a HP) as (tr2 & s2 & b & Hf2 & HQ).
  exists (tr ++ tr2), s2, b. unfold mbind, gen_bind. by rewrite Hm, Hf2.
Qed.

Lemma succeeds_get {B} (f : st → gen B) Q s : succeeds (f s) Q s → succeeds (get ≫= f) Q s.
Proof.
  intros (tr & s' & b & Hf & HQ). exists tr, s', b. split; [|done]. gen_run. by rewrite Hf.
Qed.

Lemma succeeds_ret {A} (a : A) (Q : st → A → Prop) s : Q s a → succeeds (mret a) Q s.
Proof. intros ?. by exists [], s, a. Qed.

Lemma succeeds_when b m (Q : st → () → Prop) s :
  (b = true → succeeds m Q s) → (b = false → Q s ()) → succeeds (when b m) Q s.
Proof. destruct b; [auto | intros _ H; by apply succeeds_ret, H]. Qed.

Lemma succeeds_mono {A} (m : gen A) (P Q : st → A → Prop) s :
  succeeds m P s → (∀ s' a, P s' a → Q s' a) → succeeds m Q s.
Proof. intros (? & ? & ? & ? & ?) ?. do 3 eexists. eauto. Qed.

Abbreviation sz X := (Z.of_nat (size (X : gset string))).

Lemma sz_diff (X Y : gset string) : Y ⊆ X → sz (X ∖ Y) = sz X - sz Y.
Proof. intros HY. rewrite size_difference by done. apply subseteq_size in HY. lia. Qed.

Lemma sz_union_disj (X Y : gset string) : X ## Y → sz (X ∪ Y) = sz X + sz Y.
Proof. intros ?. rewrite size_union by done. lia. Qed.

Lemma sz_pos (X : gset string) : X ≠ ∅ → 1 ≤ sz X.
Proof. intros HX. assert (size X ≠ 0)%nat; [|lia]. intros ?%size_empty_inv. by apply HX, leibniz_equiv. Qed.

Lemma sz_subset (X Y : gset string) : X ⊆ Y → sz X ≤ sz Y.
Proof. intros ?%subseteq_size. lia. Qed.

Lemma sz_empty : sz ∅ = 0.
Proof. by rewrite size_empty. Qed.

(** What consistency amounts to when the recorded leader is the primary. *)
Lemma consistent_same_leader lw e :
  e_leader e = lw →
  CISet.elems (e_voters e) ⊆ CISet.elems (e_sync e) ∨ CISet.elems (e_sync e) ⊆ CISet.elems (e_voters e) →
  (CISet.elems (e_voters e) ≠ ∅ →
   sz (CISet.elems (e_voters e) ∪ CISet.elems (e_sync e)) ≤ e_quorum e + e_numsync e) →
  consistent lw e.
Proof.
  intros Hl Hsub Hsize. unfold consistent, voter_nodes, sync_nodes. rewrite Hl. split.
  - intros Hv. specialize (Hsize Hv).
    replace (_ ∪ {[_]} ∪ (_ ∪ {[_]}))
      with ((CISet.elems (e_voters e) ∪ CISet.elems (e_sync e)) ∪ {[Str.lower lw]}) by set_solver.
    pose proof (size_union_single (CISet.elems (e_voters e) ∪ CISet.elems (e_sync e)) (Str.lower lw)). lia.
  - destruct Hsub; [left | right]; set_solver.
Qed.

Definition steady_leader (s : st) : Prop := leader s = leader_wanted s.

Lemma succeeds_sync_update n v s : WF s → CISet.wf v → steady_leader s →
  0 ≤ n ≤ sz (CISet.elems v) →
  V_ s ⊆ CISet.elems v ∨ CISet.elems v ⊆ V_ s →
  (V_ s ≠ ∅ → sz (V_ s ∪ CISet.elems v) ≤ quorum s + n) →
  succeeds (sync_update n v) (λ s' _, s' = set_sync n v s) s.
Proof.
  intros Hs Hv Hl Hn Hsub Hsize. eexists _, _, tt. split; [|done].
  rewrite sync_update_run by done. rewrite lenZ_size by done.
  replace ((n <? 0) || (sz (CISet.elems v) <? n)) with false; cycle 1.
  { symmetry. apply orb_false_iff. split; apply Z.ltb_ge; lia. }
  cbn zeta. rewrite decide_True; [done|]. by apply consistent_same_leader.
Qed.

(** The outcome of [quorum_update]: the quorum is at least the one asked for. *)
Definition quorum_updated (q : Z) (v : CISet.t) (adj : bool) (s s' : st) : Prop :=
  same_params s s' ∧ sync s' = sync s ∧ numsync s' = numsync s ∧ V_ s' = CISet.elems v
  ∧ q ≤ quorum s' ∧ (adj = false → quorum s' = q).

Lemma succeeds_quorum_update q v adj s : WF s → CISet.wf v → steady_leader s →
  V_ s ≠ ∅ ∨ numsync_confirmed s ≠ 0 →
  0 ≤ q → q = 0 ∨ q < sz (CISet.elems v) →
  S_ s ⊆ CISet.elems v ∨ CISet.elems v ⊆ S_ s →
  (CISet.elems v ≠ ∅ → sz (CISet.elems v ∪ S_ s) ≤ q + numsync s) →
  succeeds (quorum_update q v None adj) (λ s' _, quorum_updated q v adj s s') s.
Proof.
  intros Hs Hv Hl Hne Hq0 Hq Hsub Hsize. unfold succeeds, quorum_updated.
  rewrite quorum_update_run by done. rewrite lenZ_size by done.
  replace ((q <? 0) || _) with false; cycle 1.
  { symmetry. apply orb_false_iff. split; [apply Z.ltb_ge; lia|].
    apply andb_false_iff. destruct Hq; [left; apply Z.ltb_ge | right; apply Z.leb_gt]; lia. }
  assert (∃ q', adjusted q v None adj s = (q', v) ∧ q ≤ q' ∧ (adj = false → q' = q)) as (q' & -> & Hle & Hadj).
  { unfold adjusted. rewrite CISet.truthy_elems by auto with ciset.
    destruct (Z.eqb_spec (numsync_confirmed s) 0) as [Hc|Hc]; simpl.
    - rewrite bool_decide_true by (destruct Hne; done). simpl. destruct adj; eexists; (split; [done|]); lia.
    - destruct adj; eexists; (split; [done|]); lia. }
  cbn zeta. destruct (unchanged q' v None s && CISet.truthy (voters s)) eqn:Hu.
  - apply andb_prop in Hu as [[[_ Hqe%Z.eqb_eq]%andb_prop Hve]%andb_prop _].
    rewrite CISet.eqb_elems in Hve by auto with ciset. apply bool_decide_eq_true in Hve.
    eexists _, _, tt. split; [done|]. simpl. subst q'. split_and!; auto with quorum.
  - rewrite decide_True.
    + eexists _, _, tt. split; [done|]. simpl. split_and!; auto with quorum.
    + apply consistent_same_leader; simpl; [done | naive_solver |].
      intros Hn. specialize (Hsize Hn). lia.
Qed.

(** Voters and synchronous nodes agree, the replication factor is the wanted one
    and the quorum covers it. *)
Definition steady (s : st) : Prop :=
  WF s ∧ steady_leader s ∧ V_ s = S_ s ∧ 1 ≤ sync_wanted s ∧
  numsync s = Z.min (sync_wanted s) (sz (S_ s)) ∧ sz (S_ s) - numsync s ≤ quorum s.

Lemma succeeds_non_steady s : steady s → quorum s = sz (S_ s) - numsync s →
  succeeds handle_non_steady_cases (λ s' _, s' = s) s.
Proof.
  intros (Hs & Hl & HV & Hw & Hn & Hq) Hqe. unfold handle_non_steady_cases, non_steady_margin.
  apply succeeds_get. rewrite !CISet.lt_elems, HV by auto with ciset.
  rewrite bool_decide_false by apply irreflexivity, _.
  apply (succeeds_bind _ _ (λ s' _, s' = s)); [by apply succeeds_ret|]. intros s1 [] ->.
  apply succeeds_get. rewrite CISet.eqb_elems, bool_decide_true by auto with ciset.
  apply (succeeds_bind _ _ (λ s' _, s' = s)); [by apply succeeds_ret|]. intros s1 [] ->.
  apply succeeds_get. cbn zeta.
  rewrite lenZ_size, CISet.elems_union, HV, union_idemp_L by auto with ciset.
  rewrite !(proj2 (Z.ltb_ge _ _)) by lia. rewrite andb_false_r. by apply succeeds_ret.
Qed.

(** Once the quorum is zero the remaining nodes to remove are removed together. *)
Lemma succeeds_remove_rest s to_remove : steady s → CISet.wf to_remove →
  quorum s = 0 → CISet.elems to_remove ⊆ S_ s → S_ s ∖ CISet.elems to_remove ≠ ∅ →
  succeeds (s ← get;
        assert_ (quorum s =? 0);;
        let numsync' := numsync s - lenZ to_remove in
        let sync' := CISet.diff (sync s) to_remove in
        let voters' := CISet.diff (voters s) to_remove in
        let sync_decrease := numsync' - Z.min (sync_wanted s) (lenZ sync') in
        let quorum' := if negb (sync_decrease =? 0)
                       then Z.min sync_decrease (lenZ voters' - 1) else 0 in
        quorum_update quorum' voters' None false;;
        sync_update numsync' sync')
    (λ s' _, same_params s s' ∧ steady s' ∧ S_ s' = S_ s ∖ CISet.elems to_remove) s.
Proof.
  intros (Hs & Hl & HV & Hw & Hn & Hq) Hr Hq0 Hsub Hne. apply succeeds_get. rewrite Hq0.
  apply (succeeds_bind _ _ (λ s' _, s' = s)); [by apply succeeds_ret|]. intros s1 [] ->. cbn zeta.
  rewrite !lenZ_size, !CISet.elems_diff, HV by auto with ciset.
  pose proof (sz_diff _ _ Hsub) as Hsz. pose proof (sz_pos _ Hne) as Hpos.
  assert (S_ s ≠ ∅) as HSne by set_solver.
  replace (numsync s - sz (CISet.elems to_remove) - _) with 0 by lia. simpl.
  eapply succeeds_bind.
  { apply succeeds_quorum_update; rewrite ?CISet.elems_diff, ?HV by auto with ciset;
      [done | auto with ciset | done | by left | lia | by left | right; set_solver |].
    intros _. replace (_ ∖ _ ∪ _) with (S_ s) by set_solver. lia. }
  cbn beta. intros s1 [] (Hp & Hsy1 & Hn1 & HV1 & _ & Hq1).
  assert (WF s1) as Hs1 by eauto with quorum.
  assert (leader s1 = leader_wanted s1) as Hl1 by (destruct Hp as ((_ & _ & ->) & _ & -> & _); done).
  rewrite CISet.elems_diff, HV in HV1 by auto with ciset.
  eapply succeeds_mono.
  { apply succeeds_sync_update; rewrite ?CISet.elems_diff, ?HV1 by auto with ciset;
      [done | auto with ciset | done | lia | by left |].
    intros _. rewrite union_idemp_L, Hq1 by done. lia. }
  cbn beta. intros s2 [] ->. simpl. rewrite CISet.elems_diff by auto with ciset.
  split; [eauto with quorum ciset|]. split; [|done].
  unfold steady, steady_leader; simpl. rewrite CISet.elems_diff, Hq1, (same_params_wanted _ _ Hp) by auto with ciset.
  split_and!; auto with quorum ciset; lia.
Qed.

Lemma same_params_leader s s' : same_params s s' → steady_leader s → steady_leader s'.
Proof. intros ((_ & _ & Hlw) & _ & Hl & _). unfold steady_leader. by rewrite Hlw, Hl. Qed.

Lemma succeeds_remove_gone s : steady s → quorum s = sz (S_ s) - numsync s →
  succeeds remove_gone_nodes (λ s' _, same_params s s' ∧ steady s' ∧ S_ s' = S_ s ∩ A_ s) s.
Proof.
  intros Hst Hqe. pose proof Hst as (Hs & Hl & HV & Hw & Hn & _). unfold remove_gone_nodes.
  apply succeeds_get. cbn zeta. set (tr := CISet.diff (sync s) (active s)).
  assert (CISet.wf tr) as Hwf by (unfold tr; auto with ciset).
  assert (CISet.elems tr = S_ s ∖ A_ s) as Htr by (unfold tr; by autorewrite with ciset).
  assert (CISet.elems tr ⊆ S_ s) as Htrs by (rewrite Htr; set_solver).
  rewrite CISet.truthy_elems, CISet.eqb_elems by auto with ciset.
  destruct (decide (CISet.elems tr = ∅)) as [He|Hne].
  { rewrite bool_decide_false by (by intros []). apply succeeds_ret. split; [auto with quorum|]. split; [done|].
    rewrite <-diff_diff_inter, <-Htr, He. by rewrite difference_empty_L. }
  rewrite bool_decide_true by done. simpl.
  assert (S_ s ≠ ∅) as HSne by set_solver. pose proof (sz_pos _ HSne).
  destruct (decide (S_ s = CISet.elems tr)) as [Hall|Hpart].
  - rewrite bool_decide_true by done. eapply succeeds_bind.
    { apply succeeds_quorum_update; rewrite ?HV; auto with ciset; [lia | right; set_solver | done]. }
    cbn beta. intros s1 [] (Hp & Hsy1 & Hn1 & HV1 & _ & Hq1). rewrite CISet.elems_empty in HV1.
    eapply succeeds_mono.
    { apply succeeds_sync_update; rewrite ?HV1; eauto using same_params_leader with quorum ciset;
        rewrite ?CISet.elems_empty, ?sz_empty; first [lia | done | by left]. }
    cbn beta. intros s2 [] ->. assert (S_ (set_sync 0 CISet.empty s1) = ∅) as HS2 by done.
    split; [eauto with quorum ciset|]. split; [|rewrite HS2; set_solver].
    unfold steady. rewrite HS2, sz_empty. cbn [numsync quorum set_sync voters sync_wanted].
    rewrite Hq1, (same_params_wanted _ _ Hp) by done.
    split_and!; eauto with quorum ciset; try lia. by apply (same_params_leader _ _ Hp).
  - rewrite bool_decide_false by done. unfold when at 1.
    apply (succeeds_bind _ _ (λ s' t, same_params s s' ∧ steady s' ∧ CISet.wf t ∧
             CISet.elems t ⊆ S_ s' ∧ S_ s' ∖ CISet.elems t = S_ s ∩ A_ s ∧
             (CISet.elems t ≠ ∅ → quorum s' = 0))).
    { destruct (Z.eqb_spec (quorum s) 0) as [Hq0|Hq0]; simpl.
      { apply succeeds_ret. rewrite Htr, diff_diff_inter. split_and!; auto with quorum. set_solver. }
      assert (numsync s = sync_wanted s) as Hnw by lia. set (l := rev _).
      assert (l ≡ₚ CISet.to_list tr) as Hperm by (unfold l; by rewrite <-Permutation_rev, Str.sorted_perm).
      set (rm := CISet.of_list _). assert (CISet.wf rm) as Hrmwf by apply CISet.wf_of_list.
      assert (CISet.elems rm ⊆ CISet.elems tr) as Hrm by (by apply CISet.slice_subset).
      assert (sz (CISet.elems rm) = Z.min (quorum s) (sz (CISet.elems tr))) as Hrmsz
        by (apply CISet.size_slice; [done..|lia]).
      assert (sz (S_ s ∖ CISet.elems rm) = sz (S_ s) - sz (CISet.elems rm)) as Hsz by (apply sz_diff; set_solver).
      assert (sz (CISet.elems tr ∖ CISet.elems rm) = sz (CISet.elems tr) - sz (CISet.elems rm)) as Hsz2 by (by apply sz_diff).
      rewrite lenZ_size, CISet.elems_diff by auto with ciset.
      rewrite (proj2 (Z.ltb_ge (numsync s) (sync_wanted s))) by lia.
      replace (Z.min (numsync s) _) with (numsync s) by lia.
      eapply succeeds_bind.
      { apply succeeds_sync_update; rewrite ?CISet.elems_diff, ?HV by auto with ciset;
          [done | auto with ciset | done | lia | right; set_solver |].
        intros _. replace (_ ∪ _) with (S_ s) by set_solver. lia. }
      cbn beta. intros s1 [] ->. apply succeeds_get. simpl.
      rewrite CISet.truthy_elems, CISet.elems_iand, CISet.elems_diff by auto with ciset.
      set (adj := negb _). rewrite lenZ_size, CISet.elems_diff, HV by auto with ciset.
      assert (WF (set_sync (numsync s) (CISet.diff (sync s) rm) s)) as Hs1 by auto with quorum ciset.
      eapply succeeds_bind.
      { apply succeeds_quorum_update; simpl; rewrite ?CISet.elems_diff, ?HV by auto with ciset;
          [done | auto with ciset | done | by left | lia | lia | by left | intros _; rewrite union_idemp_L; lia]. }
      cbn beta. intros s2 [] (Hp & Hsy2 & Hn2 & HV2 & Hle & Hq2). simpl in *.
      apply succeeds_ret. rewrite CISet.elems_iand, CISet.elems_diff by auto with ciset.
      assert (S_ s2 = S_ s ∖ CISet.elems rm) as HS2 by (rewrite Hsy2; by rewrite CISet.elems_diff by auto with ciset).
      rewrite HS2. rewrite CISet.elems_diff, HV in HV2 by auto with ciset.
      rewrite Htr in *. split_and!.
      - eapply same_params_trans; [|exact Hp]. auto with quorum ciset.
      - unfold steady. rewrite HS2, HV2, Hn2, (same_params_wanted _ _ Hp). simpl.
        split_and!; [eauto with quorum | exact (same_params_leader _ _ Hp Hl) | done | done | lia | lia].
      - auto with ciset.
      - set_solver.
      - by apply diff_partial_inter.
      - intros Hne2. rewrite Hq2 by (unfold adj; rewrite Htr; by rewrite bool_decide_true).
        assert (1 ≤ sz ((S_ s ∖ A_ s) ∖ CISet.elems rm)); [|lia].
        apply sz_pos. intros He. apply Hne2. clear -He. set_solver. }
    intros s1 t (Hp1 & Hst1 & Hwt & Hsub & HS1 & Hq1). apply succeeds_when; intros Ht;
      rewrite CISet.truthy_elems in Ht by done.
    + apply bool_decide_eq_true in Ht. eapply succeeds_mono.
      { apply succeeds_remove_rest; auto. rewrite HS1, <-diff_diff_inter, <-Htr.
        intros He%empty_difference_subseteq_L. by apply Hpart, (anti_symm (⊆)). }
      cbn beta. intros s2 [] (? & ? & HS2). rewrite HS2. eauto with quorum.
    + apply bool_decide_eq_false, dec_stable in Ht. split_and!; auto.
      by rewrite <-HS1, Ht, difference_empty_L.
Qed.

(** The first part of [__add_new_nodes]: reaching the replication factor. *)
Lemma succeeds_add_first s ta add n : steady s → CISet.wf ta → CISet.wf add →
  S_ s ## CISet.elems ta → CISet.elems add ⊆ CISet.elems ta →
  (S_ s = ∅ ∧ add = ta ∧ n = Z.min (sync_wanted s) (sz (CISet.elems ta))
   ∨ S_ s ≠ ∅ ∧ n = sz (S_ s) + sz (CISet.elems add)) →
  1 ≤ n → n ≤ sync_wanted s →
  succeeds (sync_update n (CISet.union (sync s) add);;
            s0 ← get;
            quorum_update (lenZ (CISet.union (voters s0) add) - n) (CISet.union (voters s0) add) None true;;
            s1 ← get;
            mret (CISet.isub ta (sync s1)))
    (λ s' t, same_params s s' ∧ numsync s' = n ∧ S_ s' = S_ s ∪ CISet.elems add ∧ CISet.wf t ∧
       CISet.elems t = CISet.elems ta ∖ (S_ s ∪ CISet.elems add) ∧
       sz (V_ s') - n ≤ quorum s' ∧ (V_ s' = S_ s' ∨ S_ s = ∅)) s.
Proof.
  intros (Hs & Hl & HV & Hw & Hn & Hq) Hta Hadd Hdis Hsub Hcase Hn1 Hnw.
  assert (S_ s ## CISet.elems add) as Hdis' by set_solver.
  pose proof (sz_union_disj _ _ Hdis') as Hsz. pose proof (size_empty (C:=gset string)) as Hemp.
  eapply succeeds_bind.
  { apply succeeds_sync_update; rewrite ?CISet.elems_union, ?HV by auto with ciset;
      [done | auto with ciset | done | | left; set_solver |].
    - rewrite Hsz. destruct Hcase as [(He & -> & ->)|(_ & ->)]; [rewrite He, sz_empty|]; lia.
    - intros HSne. replace (S_ s ∪ (S_ s ∪ _)) with (S_ s ∪ CISet.elems add) by set_solver.
      destruct Hcase as [(He & _)|(_ & ->)]; [done|].
      pose proof (sz_subset (S_ s) (S_ s) ltac:(done)). lia. }
  cbn beta. intros s1 [] ->. apply succeeds_get. cbn [voters set_sync].
  rewrite lenZ_size, CISet.elems_union, HV by auto with ciset.
  set (s1 := set_sync _ _ _). assert (WF s1) as Hs1 by (unfold s1; auto with quorum ciset).
  assert (S_ s1 = S_ s ∪ CISet.elems add) as HS1 by (unfold s1; simpl; by rewrite CISet.elems_union by auto with ciset).
  assert (same_params s s1) as Hp01 by (unfold s1; auto with quorum ciset).
  assert (V_ s1 = S_ s) as HV1 by done.
  destruct (decide (V_ s1 = ∅ ∧ numsync_confirmed s1 = 0)) as [[HVe Hc0]|Hset].
  - (* nobody is known to have caught up: voters stay empty *)
    assert (S_ s = ∅) as HSe by congruence. destruct Hcase as [(_ & -> & Hnn)|[? _]]; [|done].
    eapply (succeeds_bind _ _ (λ s' _, same_params s1 s' ∧ sync s' = sync s1 ∧ numsync s' = n ∧ V_ s' = ∅ ∧ 0 ≤ quorum s')).
    + unfold succeeds. rewrite quorum_update_run by auto with ciset.
      rewrite lenZ_size, CISet.elems_union, HV by auto with ciset. rewrite Hsz, HSe, sz_empty in *.
      replace ((_ <? 0) || _) with false; cycle 1.
      { symmetry. apply orb_false_iff. split; [apply Z.ltb_ge; lia|].
        apply andb_false_iff. right. apply Z.leb_gt. lia. }
      unfold adjusted. rewrite Hc0, CISet.truthy_elems, HVe by auto with ciset.
      rewrite bool_decide_false by (by intros []). simpl. rewrite andb_false_r, decide_True.
      * eexists _, _, tt. split; [done|]. split_and!; try done. by apply same_params_set_quorum; auto with ciset.
      * apply consistent_same_leader; simpl; [done | left; set_solver | by rewrite CISet.elems_empty].
    + cbn beta. intros s2 [] (Hp2 & Hsy2 & Hn2 & HV2 & Hq2).
      apply succeeds_get, succeeds_ret. rewrite CISet.elems_isub, Hsy2, HS1 by eauto using same_params_WF with ciset.
      split_and!; [exact (same_params_trans _ _ _ Hp01 Hp2) | done | done | auto with ciset | done | rewrite HV2, sz_empty; lia | by right].
  - eapply succeeds_bind.
    { apply succeeds_quorum_update; rewrite ?CISet.elems_union, ?HV1, ?HV by auto with ciset;
        [done | auto with ciset | done | | | | left; by rewrite HS1 |].
      - destruct (decide (S_ s = ∅)); [right; intros Hc; apply Hset; by rewrite HV1 | by left].
      - rewrite Hsz. destruct Hcase as [(He & -> & ->)|(_ & ->)]; [rewrite He, sz_empty|]; lia.
      - rewrite Hsz. destruct Hcase as [(He & -> & ->)|(_ & ->)]; [rewrite He, sz_empty|]; lia.
      - intros _. rewrite HS1, union_idemp_L. unfold s1; simpl. lia. }
    cbn beta. intros s2 [] (Hp2 & Hsy2 & Hn2 & HV2 & Hle & _). apply succeeds_get, succeeds_ret.
    rewrite CISet.elems_union, HV in HV2 by auto with ciset.
    rewrite CISet.elems_isub, Hsy2, HS1 by eauto using same_params_WF with ciset.
    split_and!; [exact (same_params_trans _ _ _ Hp01 Hp2) | done | done | auto with ciset | done | by rewrite HV2 | left; by rewrite HV2].
Qed.

Lemma succeeds_add_new s : steady s → S_ s ⊆ A_ s →
  succeeds add_new_nodes (λ s' _, same_params s s' ∧
    numsync s' = Z.min (sync_wanted s') (lenZ (sync s'))) s.
Proof.
  intros Hst HSA. pose proof Hst as (Hs & Hl & HV & Hw & Hn & Hq). unfold add_new_nodes.
  apply succeeds_get. cbn zeta. set (ta := CISet.diff (active s) (sync s)).
  assert (CISet.wf ta) as Hwf by (unfold ta; auto with ciset).
  assert (CISet.elems ta = A_ s ∖ S_ s) as Hta by (unfold ta; by autorewrite with ciset).
  assert (S_ s ## CISet.elems ta) as Hdis by (rewrite Hta; set_solver).
  pose proof (sz_union_disj _ _ Hdis) as HszA. rewrite lenZ_size, CISet.elems_union, HszA by auto with ciset.
  apply succeeds_when; intros Ht; rewrite CISet.truthy_elems in Ht by done.
  2:{ split; [auto with quorum|]. by rewrite lenZ_size by auto with ciset. }
  apply bool_decide_eq_true in Ht. pose proof (sz_pos _ Ht) as Htpos.
  set (sw := Z.min (sync_wanted s) _).
  assert (sw = Z.min (sync_wanted s) (sz (S_ s) + sz (CISet.elems ta))) as Hsw by done. clearbody sw.
  apply (succeeds_bind _ _ (λ s' t, same_params s s' ∧ numsync s' = sw ∧ CISet.wf t ∧
    S_ s' ## CISet.elems t ∧ S_ s' ⊆ A_ s ∧ sz (S_ s') + sz (CISet.elems t) = sz (S_ s) + sz (CISet.elems ta) ∧
    (CISet.elems t = ∅ → sw = Z.min (sync_wanted s) (sz (S_ s'))) ∧
    (CISet.elems t ≠ ∅ → V_ s' = S_ s' ∧ S_ s' ≠ ∅ ∧ sw ≤ sz (S_ s') ∧ sz (S_ s') - sw ≤ quorum s'))).
  { destruct (Z.ltb_spec 0 (sw - numsync s)) as [Hinc|Hinc].
    2:{ apply succeeds_ret. split_and!;
          [auto with quorum | lia | done | done | done | done | done |].
        intros _. split_and!; [done | intros He; rewrite He, sz_empty in *; lia | lia | lia]. }
    assert (numsync s = sz (S_ s)) as Hns by lia.
    rewrite CISet.truthy_elems by auto with ciset. destruct (decide (S_ s = ∅)) as [He|Hne].
    - rewrite bool_decide_false by (by intros []). cbn iota beta.
      assert (sz (S_ s) = 0) as HszE by (by rewrite He, sz_empty).
      replace (numsync s + (sw - numsync s)) with sw by lia.
      eapply succeeds_mono; [apply succeeds_add_first; auto; [left; split_and!; try done; lia | lia | lia]|].
      cbn beta. intros s1 t (Hp & Hn1 & HS1 & Hwt & Het & _). rewrite Het, HS1, He.
      rewrite union_empty_l_L, difference_diag_L. 
      split_and!; [done | done | done | set_solver | rewrite Hta; set_solver | rewrite ?He, ?sz_empty; lia | lia | done].
    - rewrite bool_decide_true by done. cbn iota beta. set (l := Str.sorted _).
      assert (l ≡ₚ CISet.to_list ta) as Hperm by apply Str.sorted_perm.
      set (add := CISet.of_list _). assert (CISet.wf add) as Hwa by apply CISet.wf_of_list.
      assert (CISet.elems add ⊆ CISet.elems ta) as Hsub by (by apply CISet.slice_subset).
      assert (sz (CISet.elems add) = Z.min (sw - numsync s) (sz (CISet.elems ta))) as Hasz
        by (apply CISet.size_slice; [done..|lia]).
      rewrite lenZ_size by done. replace (numsync s + sz (CISet.elems add)) with sw by lia.
      assert (S_ s ## CISet.elems add) as Hdis2 by (clear -Hdis Hsub; set_solver).
      pose proof (sz_union_disj _ _ Hdis2) as Hsz2.
      eapply succeeds_mono; [apply succeeds_add_first; auto; [right; split; [done|lia] | lia | lia]|].
      cbn beta. intros s1 t (Hp & Hn1 & HS1 & Hwt & Het & Hq1 & HV1). rewrite Het, HS1.
      assert (V_ s1 = S_ s ∪ CISet.elems add) as HV1' by (destruct HV1; congruence).
      rewrite HV1' in *. split_and!; [done | done | done | | | | |].
      + clear. set_solver.
      + rewrite Hta in Hsub. clear -HSA Hsub. set_solver.
      + replace (CISet.elems ta ∖ (S_ s ∪ CISet.elems add)) with (CISet.elems ta ∖ CISet.elems add)
          by (clear -Hdis; set_solver).
        rewrite Hsz2, sz_diff by done. lia.
      + intros _. rewrite Hsz2. lia.
      + intros _. split_and!; [done | clear -Hne; set_solver | lia | lia]. }
  intros s1 t (Hp1 & Hn1 & Hwt & Hd1 & HSA1 & Hle & Hemp & Hfull).
  assert (WF s1) as Hs1 by eauto with quorum.
  apply succeeds_when; intros Ht1; rewrite CISet.truthy_elems in Ht1 by done.
  2:{ apply bool_decide_eq_false, dec_stable in Ht1. split; [done|].
      rewrite lenZ_size, (same_params_wanted _ _ Hp1) by auto with ciset. rewrite Hn1. auto. }
  apply bool_decide_eq_true in Ht1. destruct (Hfull Ht1) as (HV1 & HSne & Hswle & Hq1).
  pose proof (sz_union_disj _ _ Hd1) as Hszt. pose proof (sz_pos _ Ht1). pose proof (sz_pos _ HSne).
  assert (1 ≤ sw) by lia.
  apply succeeds_get. cbn zeta. rewrite lenZ_size, CISet.elems_union, HV1 by auto with ciset.
  eapply succeeds_bind.
  { apply succeeds_quorum_update; rewrite ?CISet.elems_union, ?HV1 by auto with ciset;
      [done | auto with ciset | eauto using same_params_leader | by left | lia | right; lia | left; set_solver |].
    intros _. replace (S_ s1 ∪ CISet.elems t ∪ S_ s1) with (S_ s1 ∪ CISet.elems t) by (clear; set_solver). lia. }
  cbn beta. intros s2 [] (Hp2 & Hsy2 & Hn2 & HV2 & Hq2 & _). assert (WF s2) as Hs2 by eauto with quorum.
  rewrite CISet.elems_union, HV1 in HV2 by auto with ciset. apply succeeds_get. rewrite Hsy2.
  eapply succeeds_mono.
  { apply succeeds_sync_update; rewrite ?CISet.elems_union, ?HV2 by auto with ciset;
      [done | auto with ciset | eauto using same_params_leader | lia | by left |].
    intros _. rewrite union_idemp_L. lia. }
  cbn beta. intros s3 [] ->. split; [eauto 6 with quorum ciset|]. simpl.
  rewrite lenZ_size, CISet.elems_union, (same_params_wanted _ _ Hp2), (same_params_wanted _ _ Hp1) by auto with ciset.
  lia.
Qed.

Lemma succeeds_replication_factor s :
  WF s → numsync s = Z.min (sync_wanted s) (lenZ (sync s)) →
  succeeds handle_replication_factor_change (λ s' _, s' = s) s.
Proof.
  intros Hs Hn. unfold handle_replication_factor_change. apply succeeds_get. rewrite <-Hn, Z.sub_diag.
  cbn zeta. simpl. by apply succeeds_ret.
Qed.

Lemma steady_consistent s : steady s → consistent (leader_wanted s) (ext_of s).
Proof.
  intros (Hs & Hl & HV & _ & Hn & Hq). apply consistent_same_leader; simpl; [done | left; by rewrite HV |].
  intros _. rewrite HV, union_idemp_L. lia.
Qed.

Lemma steady_set_confirmed n s : steady s → steady (set_confirmed n s).
Proof. done. Qed.

Lemma succeeds_generate s : steady s → quorum s = sz (S_ s) - numsync s →
  succeeds generate_transitions (λ _ _, True) s.
Proof.
  intros Hst Hq. pose proof Hst as (Hs & Hl & _).
  unfold generate_transitions. fold error_handler.
  apply (succeeds_bind _ _ (λ s' _, s' = s)).
  { exists [], s, tt. split; [|done]. unfold catch_quorum_error, handle_failover. gen_run.
    rewrite Hl, String.eqb_refl. simpl. rewrite check_invariants_run, decide_True by auto using steady_consistent.
    done. }
  intros s1 [] ->. apply succeeds_get. rewrite Hl, String.eqb_refl.
  apply (succeeds_bind _ _ (λ s' _, s' = s)); [by apply succeeds_ret|]. intros s1 [] ->.
  apply (succeeds_bind _ _ (λ s' _, steady s' ∧ quorum s' = sz (S_ s') - numsync s')).
  { apply succeeds_when; intros _; [|done]. by eexists [], _, tt. }
  intros s1 [] [Hst1 Hq1].
  eapply succeeds_bind; [by apply succeeds_non_steady|]. cbn beta. intros s2 [] ->.
  eapply succeeds_bind; [by apply succeeds_remove_gone|]. cbn beta. intros s2 [] (Hp2 & Hst2 & HS2).
  eapply succeeds_bind; [apply succeeds_add_new; [done|]|].
  { rewrite HS2, (same_params_active _ _ Hp2). set_solver. }
  cbn beta. intros s3 [] [Hp3 Hn3].
  eapply succeeds_mono; [apply succeeds_replication_factor; [by eapply same_params_WF | done]|]. done.
Qed.

(** ** Silent runs *)

Definition silent (m : gen ()) (s : st) : Prop := m s = ([], s, Val ()).

Lemma silent_bind m (f : () → gen ()) s : silent m s → silent (f ()) s → silent (m ≫= f) s.
Proof. unfold silent, mbind, gen_bind. intros -> ->. done. Qed.
Lemma silent_get (f : st → gen ()) s : silent (f s) s → silent (get ≫= f) s.
Proof. unfold silent. gen_run. by intros ->. Qed.
Lemma silent_when b m s : b = false → silent (when b m) s.
Proof. by intros ->. Qed.

Lemma silent_main s : steady s → quorum s = sz (S_ s) - numsync s → S_ s = A_ s →
  silent (handle_non_steady_cases;; remove_gone_nodes;; add_new_nodes;;
          handle_replication_factor_change) s.
Proof.
  intros (Hs & Hl & HV & Hw & Hn & _) Hq HSA.
  apply silent_bind; [|apply silent_bind; [|apply silent_bind]].
  - unfold handle_non_steady_cases, non_steady_margin. apply silent_get.
    rewrite !CISet.lt_elems, HV by auto with ciset. rewrite bool_decide_false by apply irreflexivity, _.
    apply silent_bind; [done|]. apply silent_get.
    rewrite CISet.eqb_elems, bool_decide_true by auto with ciset. apply silent_bind; [done|].
    apply silent_get. cbn zeta. rewrite lenZ_size, CISet.elems_union, HV, union_idemp_L by auto with ciset.
    rewrite !(proj2 (Z.ltb_ge _ _)) by lia. by rewrite andb_false_r.
  - unfold remove_gone_nodes. apply silent_get. cbn zeta.
    rewrite CISet.truthy_elems, CISet.elems_diff, HSA, difference_diag_L by auto with ciset.
    rewrite bool_decide_false by (by intros []). done.
  - unfold add_new_nodes. apply silent_get. cbn zeta. apply silent_when.
    rewrite CISet.truthy_elems, CISet.elems_diff, HSA, difference_diag_L by auto with ciset.
    by apply bool_decide_false; intros [].
  - unfold handle_replication_factor_change. apply silent_get. rewrite lenZ_size, <-Hn, Z.sub_diag by auto with ciset.
    done.
Qed.

Lemma bind_silent_run {A B} (m : gen A) (f : A → gen B) s s' a :
  m s = ([], s', Val a) → (m ≫= f) s = f a s'.
Proof. unfold mbind, gen_bind. intros ->. by destruct (f a s') as [[? ?] ?]. Qed.

Lemma silent_generate s : steady s → quorum s = sz (S_ s) - numsync s → S_ s = A_ s →
  ∃ s', generate_transitions s = ([], s', Val ()).
Proof.
  intros Hst Hq HSA. pose proof Hst as (Hs & Hl & _).
  unfold generate_transitions. fold error_handler.
  assert (catch_quorum_error handle_failover error_handler s = ([], s, Val ())) as Hc.
  { unfold catch_quorum_error, handle_failover. gen_run. rewrite Hl, String.eqb_refl. simpl.
    by rewrite check_invariants_run, decide_True by auto using steady_consistent. }
  rewrite (bind_silent_run _ _ _ _ _ Hc), (bind_silent_run get _ s s s) by done.
  rewrite (bind_silent_run _ _ s s ()) by (unfold assert_; by rewrite Hl, String.eqb_refl).
  set (w := when _ _). assert (∃ s1, w s = ([], s1, Val ()) ∧ (s1 = s ∨ ∃ n, s1 = set_confirmed n s))
    as (s1 & Hw & Hs1).
  { unfold w. destruct (_ && _); simpl; eexists; (split; [done|]); [right; eauto | by left]. }
  rewrite (bind_silent_run _ _ _ _ _ Hw). exists s1. clearbody w.
  apply silent_main; destruct Hs1 as [->|[n ->]]; done.
Qed.

(** * Properties of the quorum state machine *)

Open Scope string_scope.
Open Scope Z_scope.

Section resolver.
Context (leader : string) (quorum : Z) (voters : list string) (numsync : Z) (sync : list string)
  (numsync_confirmed : Z) (active : list string) (sync_wanted : Z) (leader_wanted : string).

Let resolver := init leader quorum voters numsync sync numsync_confirmed active sync_wanted leader_wanted.

(** C1: whatever the recorded state, after each transition the resolver hands
    out, performed in order, [/sync] and [synchronous_standby_names] are
    consistent: every set of nodes that can acknowledge a commit meets every set
    of nodes that can promote a new leader, so a failover loses no commit. *)
Theorem resolve_no_loss (ts : list Transition) (k : nat) (t : Transition) :
  resolve resolver = inr ts → ts !! k = Some t → t_type t ≠ TRestart →
  let e := replay (ext_of resolver) (take (S k) ts) in
  consistent leader_wanted e ∧ (CISet.elems (e_voters e) ≠ ∅ → overlap leader_wanted e).
Proof.
  intros Hr Hk Ht. cbn zeta.
  assert (steps_ok leader_wanted (ext_of resolver) ts) as Hok.
  { unfold resolve in Hr. destruct (generate_transitions resolver) as [[tr s'] o] eqn:Hg.
    destruct (generate_transitions_safe resolver tr s' o) as (_ & _ & Hok & _);
      [apply WF_init | done | by intros e -> |].
    destruct o; simplify_eq; by apply merge_steps_ok. }
  pose proof (steps_ok_lookup _ _ _ _ _ Hok Hk Ht) as Hc.
  split; [done|]. by apply consistent_overlap.
Qed.

(** C33: when the recorded leader is the primary and no restart was requested,
    performing the transitions reaches the desired state: exactly the active
    nodes are synchronous, the replication factor is the wanted one (bounded by
    the number of nodes), the leader is unchanged and the voters are the
    synchronous nodes, or nobody while no replica is known to have caught up. *)
Theorem resolve_reaches_desired (ts : list Transition) :
  leader = leader_wanted → resolve resolver = inr ts →
  Forall (λ t, t_type t ≠ TRestart) ts →
  let e := replay (ext_of resolver) ts in
  let nodes := CISet.elems (CISet.of_list active) in
  e_leader e = leader ∧ CISet.elems (e_sync e) = nodes ∧
  e_numsync e = Z.min sync_wanted (Z.of_nat (size nodes)) ∧
  (CISet.elems (e_voters e) = nodes ∨ numsync_confirmed = 0 ∧ CISet.elems (e_voters e) = ∅).
Proof.
  intros Hl Hr Hnr. cbn zeta. unfold resolve in Hr.
  destruct (generate_transitions resolver) as [[tr s'] o] eqn:Hg.
  assert (∀ e, o ≠ Exc e) as Hne by (by intros e ->).
  assert (ts = merge_transitions tr) as -> by (by destruct o; simplify_eq).
  destruct (generate_transitions_safe resolver tr s' o) as (Hs' & _ & _ & Hrep);
    [apply WF_init | done | done |].
  destruct (generate_transitions_ends resolver tr s' o) as (Hl' & HS & Hn & HV);
    [apply WF_init | done | done | done |].
  rewrite merge_replay by (by apply Forall_forall). rewrite Hrep. simpl.
  rewrite lenZ_size, HS in Hn by auto with ciset. rewrite HS in HV. split_and!; done.
Qed.

End resolver.

(** C34: from a steady state no change of the set of active nodes, however large,
    makes the resolver fail: the list of transitions is always produced. *)
Theorem resolve_progress (s : st) :
  steady s → quorum s = Z.of_nat (size (CISet.elems (sync s))) - numsync s →
  ∃ ts, resolve s = inr ts.
Proof.
  intros Hst Hq. destruct (succeeds_generate s Hst Hq) as (tr & s' & [] & Hg & _).
  exists (merge_transitions tr). unfold resolve. by rewrite Hg.
Qed.

(** In the desired state the resolver has nothing to do. *)
Theorem resolve_fixpoint (s : st) :
  steady s → quorum s = Z.of_nat (size (CISet.elems (sync s))) - numsync s →
  CISet.elems (sync s) = CISet.elems (active s) → resolve s = inr [].
Proof.
  intros Hst Hq HSA. unfold resolve.
  destruct (silent_generate s Hst Hq HSA) as [s' ->]. done.
Qed.

(** Raising the replication factor by more than the number of nodes that join
    at the same time is not resolved: the resolver raises from a steady state
    satisfying its own invariants, whatever the number of confirmed nodes is. *)
Theorem resolve_error_on_wanted_jump :
  Forall (λ confirmed,
    resolve (init "a" 2 ["b"; "c"; "d"] 1 ["b"; "c"; "d"] confirmed ["b"; "c"; "d"; "e"] 4 "a")
    = inl QuorumError) [0; 1; 2; 3].
Proof. repeat (constructor; [vm_compute; reflexivity|]). constructor. Qed.

(** ** Witnesses *)

Definition example : st := init "a" 1 ["B"; "c"] 1 ["b"; "C"] 1 ["b"; "d"] 1 "a".

Lemma resolve_no_loss_witness :
  let e := replay (ext_of example)
             [MkTransition TSync "a" 1 (CISet.of_list ["b"])] in
  consistent "a" e ∧ (CISet.elems (e_voters e) ≠ ∅ → overlap "a" e).
Proof.
  exact (resolve_no_loss "a" 1 ["B"; "c"] 1 ["b"; "C"] 1 ["b"; "d"] 1 "a"
    _ 0 (MkTransition TSync "a" 1 (CISet.of_list ["b"])) eq_refl eq_refl ltac:(done)).
Defined.

Lemma resolve_reaches_desired_witness :
  let e := replay (ext_of example)
             [MkTransition TSync "a" 1 (CISet.of_list ["b"]);
              MkTransition TQuorum "a" 1 (CISet.of_list ["B"; "d"]);
              MkTransition TSync "a" 1 (CISet.of_list ["b"; "d"])] in
  let nodes := CISet.elems (CISet.of_list ["b"; "d"]) in
  e_leader e = "a" ∧ CISet.elems (e_sync e) = nodes ∧
  e_numsync e = Z.min 1 (Z.of_nat (size nodes)) ∧
  (CISet.elems (e_voters e) = nodes ∨ 1 = 0 ∧ CISet.elems (e_voters e) = ∅).
Proof.
  refine (resolve_reaches_desired "a" 1 ["B"; "c"] 1 ["b"; "C"] 1 ["b"; "d"] 1 "a" _ eq_refl eq_refl _).
  repeat (constructor; [done|]). constructor.
Defined.

Lemma steady_example : steady example ∧
  quorum example = Z.of_nat (size (CISet.elems (sync example))) - numsync example.
Proof. split; [|reflexivity]. repeat split; try (apply CISet.wf_of_list); vm_compute; congruence. Qed.

Lemma resolve_progress_witness : ∃ ts, resolve example = inr ts.
Proof. apply (resolve_progress example); apply steady_example. Defined.

Definition settled : st := init "a" 1 ["b"; "c"] 1 ["b"; "C"] 1 ["B"; "c"] 1 "a".

Lemma resolve_fixpoint_witness : resolve settled = inr [].
Proof.
  apply (resolve_fixpoint settled).
  - repeat split; try (apply CISet.wf_of_list); vm_compute; congruence.
  - reflexivity.
  - vm_compute. reflexivity.
Defined.
