(* ===== verification/AsyncExec.v ===== *)
(** * Asynchronous tasks ([patroni/async_executor.py])

    Long actions run in a background thread while the HA loop goes on.  [CriticalTask] and
    [AsyncExecutor] with their operations, and the interleavings of the threads that share
    an executor as a step relation: each step is what a thread does while it holds the
    executor's lock. *)
From S2P Require Import Prelude PyVal.

Open Scope string_scope.
Open Scope list_scope.

(** ** Critical tasks *)

Section critical.
Context {R : Type}.

Record CriticalTask := MkCritical { ct_is_cancelled : bool; ct_result : option R }.

Definition ct_init : CriticalTask := MkCritical false None.
Definition ct_reset (t : CriticalTask) : CriticalTask := MkCritical false None.

(** [cancel]: [False] when the task has already run *)
Definition ct_cancel (t : CriticalTask) : bool * CriticalTask :=
  if ct_result t then (false, t) else (true, MkCritical true (ct_result t)).

Definition ct_complete (result : R) (t : CriticalTask) : CriticalTask := MkCritical (ct_is_cancelled t) (Some result).

(** What the background thread does under the task's lock: the critical part runs and completes
    the task unless it is cancelled. *)
Definition ct_perform (result : R) (t : CriticalTask) : bool * CriticalTask :=
  if ct_is_cancelled t then (false, t) else (true, ct_complete result t).
End critical.
Arguments CriticalTask : clear implicits.

(** ** The executor *)

Section executor.
Context {R : Type}.

Record AsyncExecutor := MkExecutor {
  _scheduled_action : option string;
  _is_cancelled : bool;
  _finish_event : bool;
  critical_task : CriticalTask R;
}.

Definition executor_init : AsyncExecutor := MkExecutor None false false ct_init.

Definition scheduled_action (e : AsyncExecutor) : option string := _scheduled_action e.

(** [busy] *)
Definition busy (e : AsyncExecutor) : bool := if scheduled_action e then true else false.

(** [schedule]: the action in progress, if any *)
Definition schedule (action : string) (e : AsyncExecutor) : option string * AsyncExecutor :=
  match _scheduled_action e with
  | Some prev => (Some prev, e)
  | None => (None, MkExecutor (Some action) false true (critical_task e))
  end.

Definition reset_scheduled_action (e : AsyncExecutor) : AsyncExecutor :=
  MkExecutor None (_is_cancelled e) (_finish_event e) (critical_task e).

(** [run] up to the call of the function: whether it is called *)
Definition run_begin (e : AsyncExecutor) : bool * AsyncExecutor :=
  if _is_cancelled e then (false, e)
  else (true, MkExecutor (_scheduled_action e) (_is_cancelled e) false (critical_task e)).

(** The [finally] block of [run] *)
Definition run_end (e : AsyncExecutor) : AsyncExecutor :=
  let e := reset_scheduled_action e in
  MkExecutor (_scheduled_action e) (_is_cancelled e) true (ct_reset (critical_task e)).

(** The first part of [cancel], up to the wait: whether there is something to cancel *)
Definition cancel_begin (e : AsyncExecutor) : bool * AsyncExecutor :=
  if _scheduled_action e then (true, MkExecutor (_scheduled_action e) true (_finish_event e) (critical_task e))
  else (false, e).

(** The end of [cancel] *)
Definition cancel_end (e : AsyncExecutor) : AsyncExecutor := reset_scheduled_action e.

(** [try_run_async]: the message for an action that is not run; [None] when its function is
    handed to the thread pool *)
Definition try_run_async (action : string) (e : AsyncExecutor) : option string * AsyncExecutor :=
  let '(prev, e) := schedule action e in
  (match prev with
   | None => None
   | Some p => Some ("Failed to run " +:+ action +:+ ", " +:+ p +:+ " is already in progress")
   end, e).

(** ** Threads

    The calls of [run], by the function they are given: those that are scheduled but not yet
    handed over, those in the queue of the thread pool, those inside their function, those
    that saw the cancellation; and the callers of [cancel] that wait. *)
Record threads := MkThreads {
  executor : AsyncExecutor;
  reserved : list string;
  queued : list string;
  running : list string;
  skipped : list string;
  waiting : nat;
}.

Definition threads_init : threads := MkThreads executor_init [] [] [] [] 0.

(** What the threads do; with [cancels], also cancellation *)
Inductive step (cancels : bool) : threads → threads → Prop :=
  | step_schedule a s e :
      schedule a (executor s) = (None, e) →
      step cancels s (MkThreads e (a :: reserved s) (queued s) (running s) (skipped s) (waiting s))
  | step_submit a l s :
      reserved s ≡ₚ a :: l →
      step cancels s (MkThreads (executor s) l (a :: queued s) (running s) (skipped s) (waiting s))
  | step_begin a l s e :
      queued s ≡ₚ a :: l → run_begin (executor s) = (true, e) →
      step cancels s (MkThreads e (reserved s) l (a :: running s) (skipped s) (waiting s))
  | step_skip a l s e :
      queued s ≡ₚ a :: l → run_begin (executor s) = (false, e) →
      step cancels s (MkThreads e (reserved s) l (running s) (a :: skipped s) (waiting s))
  | step_finish a l s :
      running s ≡ₚ a :: l →
      step cancels s (MkThreads (run_end (executor s)) (reserved s) (queued s) l (skipped s) (waiting s))
  | step_finish_skipped a l s :
      skipped s ≡ₚ a :: l →
      step cancels s (MkThreads (run_end (executor s)) (reserved s) (queued s) (running s) l (waiting s))
  | step_critical ok t s :
      (ok, t) = ct_cancel (critical_task (executor s)) ∨ (∃ r, (ok, t) = ct_perform r (critical_task (executor s))) →
      step cancels s (MkThreads (MkExecutor (_scheduled_action (executor s)) (_is_cancelled (executor s))
                                  (_finish_event (executor s)) t)
                        (reserved s) (queued s) (running s) (skipped s) (waiting s))
  | step_cancel s e :
      cancels = true → cancel_begin (executor s) = (true, e) →
      step cancels s (MkThreads e (reserved s) (queued s) (running s) (skipped s) (S (waiting s)))
  | step_cancelled n s :
      cancels = true → waiting s = S n → _finish_event (executor s) = true →
      step cancels s (MkThreads (cancel_end (executor s)) (reserved s) (queued s) (running s) (skipped s) n).

(** The calls of [run] on their way *)
Definition on_their_way (s : threads) : list string := reserved s ++ queued s ++ running s ++ skipped s.
End executor.
Arguments AsyncExecutor : clear implicits.
Arguments threads : clear implicits.

(** * One long action at a time

    Without cancellation the executor runs one function at a time, and says that it is busy
    as long as one is on its way.  Cancelling an action whose function has not begun breaks
    this. *)

Section props.
Context {R : Type}.
Implicit Types (s : threads R) (e : AsyncExecutor R).

(** At most one function is on its way, and the executor's action is its name. *)
Definition exclusive s : Prop :=
  match scheduled_action (executor s) with
  | Some a => on_their_way s = [a]
  | None => on_their_way s = []
  end ∧ _is_cancelled (executor s) = false ∧ skipped s = [] ∧ waiting s = 0%nat.

Lemma exclusive_init : exclusive threads_init.
Proof. done. Qed.

Lemma single_split {A} (l1 l2 l3 l4 : list A) a : l1 ++ l2 ++ l3 ++ l4 = [a] →
  (l1 = [a] ∧ l2 = [] ∧ l3 = [] ∧ l4 = []) ∨ (l1 = [] ∧ l2 = [a] ∧ l3 = [] ∧ l4 = []) ∨
  (l1 = [] ∧ l2 = [] ∧ l3 = [a] ∧ l4 = []) ∨ (l1 = [] ∧ l2 = [] ∧ l3 = [] ∧ l4 = [a]).
Proof.
  destruct l1 as [|x [|]]; [|intros [= -> [? [? ?]%app_nil]%app_nil]; naive_solver|done].
  destruct l2 as [|x [|]]; [|intros [= -> [? ?]%app_nil]; naive_solver|done].
  destruct l3 as [|x [|]]; simpl; [naive_solver|intros [= -> ?]; naive_solver|done].
Qed.

(** What a step finds: the list it takes a function from is the only one that is not empty. *)
Lemma exclusive_cases s : exclusive s →
  (scheduled_action (executor s) = None ∧ reserved s = [] ∧ queued s = [] ∧ running s = [] ∧ skipped s = []) ∨
  ∃ a, scheduled_action (executor s) = Some a ∧ skipped s = [] ∧
    ((reserved s = [a] ∧ queued s = [] ∧ running s = []) ∨ (reserved s = [] ∧ queued s = [a] ∧ running s = []) ∨
     (reserved s = [] ∧ queued s = [] ∧ running s = [a])).
Proof.
  intros (Hs & _ & Hk & _). destruct (scheduled_action _) as [a|].
  - right. exists a. split_and!; [done|done|]. apply single_split in Hs. rewrite Hk in Hs. naive_solver.
  - left. apply app_nil in Hs as [H1 [H2 [H3 H4]%app_nil]%app_nil]. naive_solver.
Qed.

Lemma pick_single {A} (a b : A) l : [b] ≡ₚ a :: l → a = b ∧ l = [].
Proof. intros H%Permutation_singleton_l. naive_solver. Qed.

(** The list a step takes a function from is empty, or holds the only one. *)
Ltac pick Hl H :=
  rewrite Hl in H; first [by apply Permutation_nil_cons in H | apply pick_single in H as [-> ->]].

Lemma exclusive_step s s' : step false s s' → exclusive s → exclusive s'.
Proof.
  intros Hstep Hs. pose proof Hs as (_ & Hc & _ & Hw). apply exclusive_cases in Hs.
  destruct Hstep as [a s e Hsch|a l s Hr|a l s e Hq Hb|a l s e Hq Hb|a l s Hr|a l s Hk|ok t s Ht|s e|n s]; [..|done|done];
    unfold exclusive, on_their_way, scheduled_action in *; simpl in *.
  - unfold schedule in Hsch. destruct (_scheduled_action (executor s)) as [p|]; [done|]. injection Hsch as <-. simpl.
    destruct Hs as [(_ & -> & -> & -> & ->)|(? & ? & _)]; [|done]. by rewrite Hw.
  - destruct Hs as [(_ & Hl & _)|(b & -> & Hk & [(Hl & -> & ->)|[(Hl & _)|(Hl & _)]])]; pick Hl Hr. by rewrite Hk.
  - unfold run_begin in Hb. rewrite Hc in Hb. injection Hb as <-. simpl.
    destruct Hs as [(_ & _ & Hl & _)|(b & -> & Hk & [(_ & Hl & _)|[(-> & Hl & ->)|(_ & Hl & _)]])]; pick Hl Hq. by rewrite Hk.
  - unfold run_begin in Hb. by rewrite Hc in Hb.
  - destruct Hs as [(_ & _ & _ & Hl & _)|(b & _ & Hk & [(_ & _ & Hl)|[(_ & _ & Hl)|(-> & -> & Hl)]])]; pick Hl Hr. by rewrite Hk.
  - destruct Hs as [(_ & _ & _ & _ & Hl)|(b & _ & Hl & _)]; pick Hl Hk.
  - rewrite Hc, Hw. destruct Hs as [(-> & -> & -> & -> & ->)|(b & -> & -> & Hs)]; [done|].
    by destruct Hs as [(-> & -> & ->)|[(-> & -> & ->)|(-> & -> & ->)]].
Qed.

(** C37: as long as nobody cancels, whatever the order of the threads' steps, the functions that are scheduled, queued or
    running are at any moment exactly the one whose name the executor has recorded as its action, or none when it has
    recorded none; so at most one is on its way, and [busy] says whether one is. *)
Theorem async_exclusive s : rtc (step false) threads_init s →
  on_their_way s = option_list (scheduled_action (executor s)) ∧ (length (on_their_way s) ≤ 1)%nat ∧
  (busy (executor s) = true ↔ on_their_way s ≠ []).
Proof.
  intros Hsteps. assert (exclusive s) as (Hs & _).
  { refine (rtc_ind_r exclusive _ exclusive_init _ s Hsteps). intros y z _ Hyz. by apply exclusive_step. }
  unfold busy. destruct (scheduled_action (executor s)); rewrite Hs; simpl; split_and!; first [lia|done].
Qed.

(** An action that is cancelled before its function has begun is forgotten, but its function
    stays queued; scheduling another clears the cancellation, and both functions run at once. *)
Theorem async_cancel_race : ∃ s : threads R, rtc (step true) threads_init s ∧
  running s = ["reinitialize"; "restart"] ∧ scheduled_action (executor s) = Some "reinitialize".
Proof.
  exists (MkThreads (MkExecutor (Some "reinitialize") false false ct_init) [] [] ["reinitialize"; "restart"] [] 0).
  split; [|done].
  etrans; [apply rtc_once, (step_schedule _ "restart"); reflexivity|]. cbn.
  etrans; [apply rtc_once, (step_submit _ "restart" []); reflexivity|]. cbn.
  etrans; [apply rtc_once, step_cancel; reflexivity|]. cbn.
  etrans; [apply rtc_once, (step_cancelled _ 0); reflexivity|]. cbn.
  etrans; [apply rtc_once, (step_schedule _ "reinitialize"); reflexivity|]. cbn.
  etrans; [apply rtc_once, (step_begin _ "restart" []); reflexivity|]. cbn.
  etrans; [apply rtc_once, (step_submit _ "reinitialize" []); reflexivity|]. cbn.
  apply rtc_once. apply (step_begin _ "reinitialize" []); reflexivity.
Qed.

(** Of a critical task and its cancellation exactly one wins: once [cancel] has returned
    [True] the critical part does not run, and once it has run [cancel] returns [False],
    until the task is reset. *)
Theorem critical_task_decided (r r' : R) (t t' : CriticalTask R) (ok : bool) :
  (ct_cancel t = (true, t') → ct_perform r t' = (false, t') ∧ ct_result t' = None) ∧
  (ct_perform r t = (true, t') → ct_cancel t' = (false, t') ∧ ct_result t' = Some r).
Proof.
  unfold ct_cancel, ct_perform. split.
  - destruct (ct_result t) eqn:E; [done|]. intros [= <-]. by rewrite ?E.
  - destruct (ct_is_cancelled t); [done|]. by intros [= <-].
Qed.
End props.

(** An action that is running *)
Definition one_running : threads nat := MkThreads (MkExecutor (Some "restart") false false ct_init) [] [] ["restart"] [] 0.

Lemma async_exclusive_witness : on_their_way one_running = ["restart"] ∧ busy (executor one_running) = true.
Proof.
  assert (rtc (step (R := nat) false) threads_init one_running) as Hr.
  { eapply rtc_l; [by eapply (step_schedule _ "restart")|]. eapply rtc_l; [by eapply (step_submit _ "restart" [])|].
    eapply rtc_l; [by eapply (step_begin _ "restart" [])|]. apply rtc_refl. }
  destruct (async_exclusive one_running Hr) as (Hl & _ & Hb). split; [exact Hl|by apply Hb].
Defined.
