(* ===== verification/Rewind.v ===== *)
(** * Rewinding a diverged node ([patroni/postgresql/rewind.py], [Rewind])

    The state machine that finds out whether a node has to be rewound before it can follow the
    leader, and runs pg_rewind.  [RewindNode] is the interface of PostgreSQL, of the leader and
    of the programs that are called.  What concerns the safety of a rewind is recorded. *)
From S2P Require Import Prelude Lexing PyDict PyVal Effects Utils PgMisc DcsData AsyncExec.

Open Scope string_scope.
Open Scope Z_scope.

(** ** The state *)

Inductive REWIND_STATUS := INITIAL | CHECKPOINT | CHECK | NEED | NOT_NEED | SUCCESS | FAILED.
#[export] Instance REWIND_STATUS_eq_dec : EqDecision REWIND_STATUS.
Proof. solve_decision. Defined.

(** A row of a query that was answered, with one value *)
Definition answer : Type := option pyval.

(** The calls that are recorded, with what they returned *)
Inductive rw_event :=
  | Running (b : bool)                            (* [is_running] before a rewind *)
  | Stopped (success : bool)                      (* [stop] before a rewind *)
  | LeaderInRecovery (r : exc answer)             (* the leader was asked whether it is in recovery *)
  | LeaderCheckpoint (r : exc answer)             (* the leader was asked whether its checkpoint is on its timeline *)
  | RanCheckpoint (r : exc (option string))       (* a checkpoint was run on the leader: an error as text *)
  | Identified (r : exc (option Z))               (* IDENTIFY_SYSTEM: the timeline of the primary *)
  | HistoryRead (r : exc (option string))         (* TIMELINE_HISTORY *)
  | CheckpointEnd (lsn : Z)                       (* the end of the checkpoint record, from pg_waldump *)
  | RanRewind (ret : option Z)
  | RemovedData.

Record Rewind := MkRewind { status : REWIND_STATUS; checkpoint_task : option (CriticalTask bool); events : list rw_event }.

(** [reset_state] *)
Definition rewind_init : Rewind := MkRewind INITIAL None [].

(** What a node rewinds from *)
Inductive source := SLeader (l : Leader) | SRemote (m : Member).
Definition source_member (s : source) : Member := match s with SLeader l => l_member l | SRemote m => m end.

(** The configuration that is used *)
Record RewindConfig := MkRewindConfig {
  my_node : string; database : string; pgcommand : string → string; major_version : Z;
  use_pg_rewind : bool; remove_on_diverged : bool; remove_on_failure : bool;
  config_dir : string; data_dir : string; wal_dir : string; wal_name : string; postgresql_conf : string;
  cred_replication : dict pyval; cred_rewind : dict pyval; cred_superuser : dict pyval;
}.

Class RewindNode (W : Type) := {
  rn_running : W → bool;
  rn_stop : W → bool * W;
  rn_is_primary : W → bool;
  rn_controldata : W → dict string;
  rn_replica_timeline : W → option Z;
  rn_replay_lsn : W → option Z;
  rn_primary_timeline : W → Z;
  rn_control_timeline : W → option Z;
  (* the output of pg_waldump, when there is any *)
  rn_waldump : Z → string → Z → W → option (string * string);
  (* the exit status of pg_rewind --help *)
  rn_has_pg_rewind : W → exc Z;
  (* [member.conn_kwargs(auth)] *)
  rn_conn_kwargs : Member → dict pyval → W → dict pyval;
  (* queries on the leader *)
  rn_leader_in_recovery : dict pyval → W → exc answer * W;
  rn_leader_checkpoint : dict pyval → W → exc answer * W;
  rn_identify_system : Member → W → exc (option Z) * W;
  rn_timeline_history : Member → Z → W → exc (option string) * W;
  (* [checkpoint], on the node itself or on the leader: an error as text *)
  rn_checkpoint : option (dict pyval) → W → exc (option string) * W;
  rn_guc : string → W → option string;
  rn_recovery_restore_command : W → option string;
  rn_dsn : dict pyval → string;
  (* [cancellable.call]: the exit status, none when the program was not started, standard output and error *)
  rn_call : list string → W → exc (option Z * (string * string)) * W;
  rn_cleanup_archive_status : W → W;
  rn_remove_recovery_conf : W → W;
  (* the contents of postmaster.opts, when it can be read *)
  rn_postmaster_opts : W → option string;
  (* the .ready files, [os.path.isfile], the move to .done *)
  rn_ready_files : W → exc (list string);
  rn_isfile : string → W → bool;
  rn_move : string → string → W → W;
  rn_clean_replslot : W → W;
  rn_remove_data : W → W;
  (* the arguments of a split command line *)
  rn_shlex : string → list string;
}.

(** ** Local position *)

Definition configuration_allows_rewind (data : dict string) : bool :=
  (default "off" (Dict.get "wal_log_hints setting" data) =? "on")%string
  || negb (default "0" (Dict.get "Data page checksum version" data) =? "0")%string.

Definition int_or_error (o : option string) : option Z := int_of_string (default "" o).

(** The position after a shutdown, with the timeline that was read before: text of the position *)
Definition shut_down_position (data : dict string) (timeline : option Z) : option bool * option Z * option string :=
  (Some false,
   match int_or_error (Dict.get "Latest checkpoint's TimeLineID" data) with Some t => Some t | None => timeline end,
   Dict.get "Latest checkpoint location" data).

(** What pg_controldata says: in recovery, timeline, position; what was read before an error is kept. *)
Definition controldata_position (data : dict string) : option bool * option Z * option string :=
  let st := Dict.get "Database cluster state" data in
  if bool_decide (st = Some "shut down in recovery" ∨ st = Some "in archive recovery") then
    let lsn := Dict.get "Minimum recovery ending location" data in
    match int_or_error (Dict.get "Min recovery ending loc's timeline" data) with
    | None => (Some true, None, lsn)
    | Some t => if bool_decide (lsn = Some "0/0") || (t =? 0) then shut_down_position data (Some t) else (Some true, Some t, lsn)
    end
  else if bool_decide (st = Some "shut down") then shut_down_position data None
  else (None, None, None).

Definition _get_local_timeline_lsn_from_controldata (data : dict string) : option bool * option Z * option Z :=
  let '(in_recovery, timeline, lsn) := controldata_position data in
  (in_recovery, timeline, match lsn with Some l => match parse_lsn l with Ok z => Some z | Raise _ => None end | None => None end).

(** ** The end of a checkpoint record *)

(** The first of the texts after the position that lets it be parsed *)
Fixpoint parse_until (patterns : list string) (rest : string) : option Z :=
  match patterns with
  | [] => None
  | p :: patterns =>
      match cut p (rest +:+ newline) with
      | Some (before, _) => match parse_lsn before with Ok z => Some z | Raise _ => parse_until patterns rest end
      | None => parse_until patterns rest
      end
  end.

Definition error_pattern (lsn : Z) : string :=
  "error in WAL record at " +:+ format_lsn lsn false +:+ ": invalid record length at ".

(** What [_get_checkpoint_end] makes of the two outputs *)
Definition parse_waldump (lsn : Z) (out err : string) : Z :=
  match lines (Str.rstrip out), lines (Str.rstrip err) with
  | [o], [e] =>
      if has_text (", lsn: " +:+ format_lsn lsn true +:+ ", prev ") o then
        match cut (error_pattern lsn) e with
        | Some (_, rest) => default 0 (parse_until [": expected at least "; ": wanted "; newline] rest)
        | None => 0
        end
      else 0
  | _, _ => 0
  end.

(** ** The history of the primary *)

(** The loop over the history: whether the node has to be rewound; [checkpoint_end] is only asked for a
    former primary. *)
Fixpoint history_needs_rewind (in_recovery : bool) (local_timeline local_lsn : Z) (checkpoint_end : Z)
    (history : list (Z * Z * string)) : bool :=
  match history with
  | [] => true
  | (parent_timeline, switchpoint, _) :: history =>
      if parent_timeline =? local_timeline then
        if in_recovery then switchpoint <? local_lsn
        else if switchpoint <=? local_lsn then true
        else negb (switchpoint =? checkpoint_end)
      else if local_timeline <? parent_timeline then true
      else history_needs_rewind in_recovery local_timeline local_lsn checkpoint_end history
  end.

(** ** Commands *)

(** [_build_archiver_command] *)
Fixpoint _build_archiver_command (wal_dir wal_filename command : string) : string :=
  match command with
  | "" => ""
  | String "%" ((String c rest) as after) =>
      if Ascii.eqb c "p" then (wal_dir +:+ "/" +:+ wal_filename) +:+ _build_archiver_command wal_dir wal_filename rest
      else if Ascii.eqb c "f" then wal_filename +:+ _build_archiver_command wal_dir wal_filename rest
      else if Ascii.eqb c "r" then "000000010000000000000001" +:+ _build_archiver_command wal_dir wal_filename rest
      else if Ascii.eqb c "%" then String "%" (_build_archiver_command wal_dir wal_filename rest)
      else String "%" (_build_archiver_command wal_dir wal_filename after)
  | String c rest => String c (_build_archiver_command wal_dir wal_filename rest)
  end.

(** [s.endswith(t)] *)
Definition ends_with (t s : string) : bool := String.prefix (Str.rev t) (Str.rev s).

(** [s.rsplit('/', 1)] of a text that has a slash *)
Definition rsplit_slash (s : string) : string * string :=
  let '(b, a) := default ("", "") (cut "/" (Str.rev s)) in (Str.rev a, Str.rev b).

(** One line of [_find_missing_wal] *)
Definition missing_wal_line (wal_name line : string) : option string :=
  match cut ("could not open file " +:+ String dquote "") line with
  | Some (_, rest) =>
      match cut (String dquote ": ") rest with
      | Some (path, _) =>
          if contains "/" path then
            let '(waldir, wal_filename) := rsplit_slash path in
            if ends_with ("/pg_" +:+ wal_name) waldir && (String.length wal_filename =? 24)%nat then Some wal_filename else None
          else None
      | None => None
      end
  | None => None
  end.

Fixpoint first_some {A B} (f : A → option B) (l : list A) : option B :=
  match l with [] => None | x :: l => match f x with Some y => Some y | None => first_some f l end end.

Definition _find_missing_wal (wal_name data : string) : option string :=
  first_some (missing_wal_line wal_name) (lines data).

(** [^[0-9A-F]{24}(\.partial){0,1}\.ready$], without the suffix *)
Definition is_wal_char (c : ascii) : bool := is_digit c || bool_decide (65 ≤ nat_of_ascii c ≤ 70)%nat.
Definition ready_wal (f : string) : option string :=
  let '(name, rest) := (String.substring 0 24 f, String.substring 24 (String.length f) f) in
  if (String.length name =? 24)%nat && Str.all is_wal_char name then
    if (rest =? ".ready")%string then Some name
    else if (rest =? ".partial.ready")%string then Some (name +:+ ".partial")
    else None
  else None.

(** [s.split(p)] for a text [p] *)
Fixpoint split_text (fuel : nat) (p s : string) : list string :=
  match fuel with
  | O => [s]
  | S fuel => match cut p s with Some (a, b) => a :: split_text fuel p b | None => [s] end
  end.

(** [s.rstrip(chars)] *)
Definition rstrip_chars (p : ascii → bool) (s : string) : string := Str.rev (lstrip_chars p (Str.rev s)).

(** [read_postmaster_opts] on the contents of the file *)
Definition postmaster_opt (opt : string) : option (string * string) :=
  if String.prefix "--" opt then
    '(name, val) ← cut "=" opt;
    Some (rstrip_chars (Ascii.eqb "-") (lstrip_chars (Ascii.eqb "-") name),
          rstrip_chars (λ c, Ascii.eqb c dquote || Ascii.eqb c (ascii_of_nat 10)) val)
  else None.

Definition postmaster_opts (data : string) : dict string :=
  foldl (λ result opt, match postmaster_opt opt with Some (name, val) => Dict.set name val result | None => result end) []
    (split_text (String.length data) (String dquote (" " +:+ String dquote "")) data).

Example postmaster_opts_example :
  let q := String dquote "" in
  postmaster_opts ("/bin/postgres " +:+ q +:+ "-D" +:+ q +:+ " " +:+ q +:+ "/data" +:+ q +:+ " " +:+ q +:+ "--wal_level=hot_standby" +:+ q
    +:+ " " +:+ q +:+ "--port=5432" +:+ q +:+ newline) = [("wal_level", "hot_standby"); ("port", "5432")].
Proof. vm_compute. reflexivity. Qed.

Section rewind.
Context {W : Type} `{!RewindNode W} (cfg : RewindConfig).

Definition rwM (A : Type) : Type := eff (Rewind * W) A.
#[global] Instance rwM_ret : MRet rwM := eff_ret _.
#[global] Instance rwM_bind : MBind rwM := eff_bind _.

Definition self : rwM Rewind := gets fst.
Definition attr {A} (f : W → A) : rwM A := gets (λ s, f s.2).
Definition modify (f : Rewind → Rewind) : rwM () := puts (λ s, (f s.1, s.2)).
Definition does (f : W → W) : rwM () := puts (λ s, (s.1, f s.2)).
Definition ask {A} (op : W → A * W) : rwM A := λ s, let '(a, w) := op s.2 in (Ok a, (s.1, w)).
Definition note (e : rw_event) : rwM () := modify (λ r, MkRewind (status r) (checkpoint_task r) (e :: events r)).
Definition recorded {A} (event : A → rw_event) (m : rwM A) : rwM A := a ← m; note (event a);; mret a.
Definition set_status (st : REWIND_STATUS) : rwM () := modify (λ r, MkRewind st (checkpoint_task r) (events r)).
Definition set_task (t : option (CriticalTask bool)) : rwM () := modify (λ r, MkRewind (status r) t (events r)).
Definition status_ : rwM REWIND_STATUS := r ← self; mret (status r).

Definition enabled : bool := use_pg_rewind cfg.

Definition can_rewind : rwM bool :=
  if negb enabled then mret false else
  ret ← attr rn_has_pg_rewind;
  match ret with
  | Ok 0 => data ← attr rn_controldata; mret (configuration_allows_rewind data)
  | Ok _ | Raise OSError => mret false
  | Raise e => lift_exc (Raise e)
  end.

Definition should_remove_data_directory_on_diverged_timelines : bool := remove_on_diverged cfg.

Definition can_rewind_or_reinitialize_allowed : rwM bool :=
  if should_remove_data_directory_on_diverged_timelines then mret true else can_rewind.

Definition trigger_check_diverged_lsn : rwM () :=
  allowed ← can_rewind_or_reinitialize_allowed;
  st ← status_;
  (if (allowed : bool) && negb (bool_decide (st = NEED)) then set_status CHECK else mret ());;
  set_task None.

(** ** The leader *)

(** No row and a row without a true value both are an answer. *)
Definition row_true (a : answer) : bool := match a with Some v => truthy v | None => false end.

Definition check_leader_is_not_in_recovery (kw : dict pyval) : rwM bool :=
  r ← recorded LeaderInRecovery (ask (rn_leader_in_recovery kw));
  mret (match r with Ok a => negb (row_true a) | Raise _ => false end).

(** The error of [check_leader_has_run_checkpoint] *)
Definition check_leader_has_run_checkpoint (kw : dict pyval) : rwM (option string) :=
  r ← recorded LeaderCheckpoint (ask (rn_leader_checkpoint kw));
  mret (match r with
        | Ok a => if row_true a then None else Some "leader has not run a checkpoint yet"
        | Raise _ => Some "not accessible or not healthy"
        end).

Definition _conn_kwargs (s : source) (auth : dict pyval) : rwM (dict pyval) :=
  ret ← attr (rn_conn_kwargs (source_member s) auth);
  let ret := if truthy (vget "dbname" ret) then ret else Dict.set "dbname" (VStr (database cfg)) ret in
  mret (if 100000 <=? major_version cfg then Dict.set "target_session_attrs" (VStr "read-write") ret else ret).

(** ** Is a rewind needed? *)

Definition _get_checkpoint_end (timeline lsn : Z) : rwM Z :=
  recorded CheckpointEnd (
    o ← attr (rn_waldump timeline (format_lsn lsn false) 2);
    mret (match o with Some (out, err) => parse_waldump lsn out err | None => 0 end)).

Definition _get_local_timeline_lsn : rwM (option bool * option Z * option Z) :=
  running ← attr rn_running;
  if running : bool then
    t ← attr rn_replica_timeline; l ← attr rn_replay_lsn; mret (Some true, t, l)
  else data ← attr rn_controldata; mret (_get_local_timeline_lsn_from_controldata data).

(** The credentials for the check *)
Definition check_credentials : dict pyval :=
  if negb enabled && should_remove_data_directory_on_diverged_timelines && (major_version cfg <? 110000)
  then cred_replication cfg else cred_rewind cfg.

(** The leader's member key says that it is a primary; a remote member is taken as it is. *)
Definition role_is_primary (s : source) : bool :=
  match s with
  | SLeader l => let r := vget "role" (m_data (l_member l)) in pyval_eqb r (VStr "master") || pyval_eqb r (VStr "primary")
  | SRemote _ => true
  end.

(** What the replication connection to the primary says: an answer, or the primary's history *)
Definition compare_timelines (m : Member) (local_timeline : Z) : rwM (exc (option bool * option string)) :=
  r ← recorded Identified (ask (rn_identify_system m));
  match r with
  | Raise e => mret (Raise e)
  | Ok None => mret (Ok (None, None))
  | Ok (Some primary_timeline) =>
      if primary_timeline <? local_timeline then mret (Ok (Some true, None))
      else if local_timeline =? primary_timeline then mret (Ok (Some false, None))
      else if 1 <? primary_timeline then
        h ← recorded HistoryRead (ask (rn_timeline_history m primary_timeline));
        mret (match h with Ok o => Ok (None, o) | Raise e => Raise e end)
      else mret (Ok (None, None))
  end.

(** Whether the end of the checkpoint record will be looked at *)
Fixpoint asks_checkpoint_end (local_timeline local_lsn : Z) (history : list (Z * Z * string)) : bool :=
  match history with
  | [] => false
  | (parent_timeline, switchpoint, _) :: history =>
      if parent_timeline =? local_timeline then local_lsn <? switchpoint
      else if local_timeline <? parent_timeline then false
      else asks_checkpoint_end local_timeline local_lsn history
  end.

(** The verdict on a history; the log line needs its last entry. *)
Definition judge_history (in_recovery : bool) (local_timeline local_lsn : Z) (history : string) : rwM bool :=
  let h := parse_history history in
  e ← (if negb in_recovery && asks_checkpoint_end local_timeline local_lsn h
       then _get_checkpoint_end local_timeline local_lsn else mret 0);
  match h with
  | [] => lift_exc (Raise IndexError)
  | _ => mret (history_needs_rewind in_recovery local_timeline local_lsn e h)
  end.

Definition verdict (need : bool) : rwM () := set_status (if need then NEED else NOT_NEED).

Definition _check_timeline_and_lsn (leader : source) : rwM () :=
  p ← _get_local_timeline_lsn;
  match p with
  | (in_recovery, Some local_timeline, Some local_lsn) =>
      if negb (role_is_primary leader) then mret () else
      kw ← _conn_kwargs leader check_credentials;
      ok ← check_leader_is_not_in_recovery kw;
      if negb ok then mret () else
      r ← compare_timelines (source_member leader) local_timeline;
      match r with
      | Raise _ => mret ()
      | Ok (need, None) => verdict (default false need)
      | Ok (_, Some history) =>
          need ← judge_history (default false in_recovery) local_timeline local_lsn history; verdict need
      end
  | _ => mret ()
  end.

Definition source_url (s : source) : exc pyval := r ← conn_url (source_member s); mret r.1.

Definition rewind_or_reinitialize_needed_and_possible (leader : option source) : rwM bool :=
  match leader with
  | None => mret false
  | Some l =>
      st ← status_;
      url ← (if negb (m_name (source_member l) =? my_node cfg)%string then lift_exc (source_url l) else mret VNone);
      (if truthy url && bool_decide (st = CHECK) then _check_timeline_and_lsn l else mret ());;
      url ← lift_exc (source_url l);
      st ← status_;
      mret (truthy url && bool_decide (st = NEED))
  end.

(** ** The checkpoint after a promotion *)

(** [__checkpoint], in its own thread: an error leaves the task with a false result. *)
Definition checkpoint_thread : rwM () :=
  r ← ask (rn_checkpoint None);
  let ok := match r with Ok None | Ok (Some "") => true | _ => false end in
  modify (λ s, MkRewind (status s) (ct_complete ok <$> checkpoint_task s) (events s)).

(** [ensure_checkpoint_after_promote]: true when the thread is started *)
Definition ensure_checkpoint_after_promote : rwM bool :=
  st ← status_;
  primary ← attr rn_is_primary;
  if bool_decide (st = CHECKPOINT) || negb primary then mret false else
  r ← self;
  match checkpoint_task r with
  | Some t =>
      (if bool_decide (ct_result t = Some true) then set_status CHECKPOINT else mret ());;
      (if ct_result t is Some _ then set_task None else mret ());;
      mret false
  | None =>
      t ← attr rn_primary_timeline;
      c ← attr rn_control_timeline;
      if bool_decide (c = Some t) then set_status CHECKPOINT;; mret false
      else set_task (Some ct_init);; mret true
  end.

Definition checkpoint_after_promote : rwM bool := st ← status_; mret (bool_decide (st = CHECKPOINT)).

(** ** Archiving *)

Definition get_archive_command : rwM (option string) :=
  mode ← attr (rn_guc "archive_mode");
  cmd ← attr (rn_guc "archive_command");
  mret (if bool_decide (mode = Some "on" ∨ mode = Some "always")
        then match cmd with Some "" => None | _ => cmd end else None).

Definition call (cmd : list string) : rwM (option Z * (string * string)) := r ← ask (rn_call cmd); lift_exc r.

Definition archive_one (archive_cmd wal : string) : rwM () :=
  let status_dir := wal_dir cfg +:+ "/archive_status/" in
  let old_name := status_dir +:+ wal +:+ ".ready" in
  here ← attr (rn_isfile old_name);
  file ← attr (rn_isfile (wal_dir cfg +:+ "/" +:+ wal));
  if (here : bool) && file then
    r ← call [_build_archiver_command (wal_dir cfg) wal archive_cmd];
    if bool_decide (r.1 = Some 0) then does (rn_move old_name (status_dir +:+ wal +:+ ".done")) else mret ()
  else mret ().

Definition _archive_ready_wals : rwM () :=
  cmd ← get_archive_command;
  match cmd with
  | None => mret ()
  | Some archive_cmd =>
      files ← attr rn_ready_files;
      match files with
      | Raise OSError => mret ()
      | Raise e => lift_exc (Raise e)
      | Ok files => for_each (Str.sorted (omap ready_wal files)) (archive_one archive_cmd)
      end
  end.

Definition _fetch_missing_wal (restore_command wal_filename : string) : rwM bool :=
  r ← call (rn_shlex (_build_archiver_command (wal_dir cfg) wal_filename restore_command));
  mret (bool_decide (r.1 = Some 0)).

(** ** pg_rewind *)

Definition get_restore_command : rwM (option string) :=
  c ← (if major_version cfg <? 120000 then attr rn_recovery_restore_command else attr (rn_guc "restore_command"));
  mret (match c with Some "" => None | _ => c end).

Definition pg_rewind_can_restore (restore_command : option string) : bool :=
  (if restore_command is Some _ then true else false) &&
  ((150000 <=? major_version cfg) || ((130000 <=? major_version cfg) && (config_dir cfg =? data_dir cfg)%string)).

Definition pg_rewind_command (can_restore : bool) (dsn : string) : list string :=
  ([pgcommand cfg "pg_rewind"]
   ++ (if can_restore then
         "--restore-target-wal" ::
         (if (150000 <=? major_version cfg) && negb (config_dir cfg =? data_dir cfg)%string
          then ["--config-file=" +:+ postgresql_conf cfg] else [])
       else [])
   ++ ["-D"; data_dir cfg; "--source-server"; dsn])%list.

(** The loop of [pg_rewind], for as many attempts as there is fuel: [None] when it is still going on.  The
    loop has no bound of its own. *)
Fixpoint pg_rewind_loop (fuel : nat) (cmd : list string) (restore_command : option string) (can_restore : bool) : rwM (option bool) :=
  match fuel with
  | O => mret None
  | S fuel =>
      r ← call cmd;
      note (RanRewind r.1);;
      match r.1 with
      | None => mret (Some false)
      | Some 0 => mret (Some true)
      | Some _ =>
          match restore_command with
          | None => mret (Some false)
          | Some rc =>
              if can_restore then mret (Some false) else
              let missing := match _find_missing_wal (wal_name cfg) r.2.2 with
                             | Some f => Some f
                             | None => _find_missing_wal (wal_name cfg) r.2.1
                             end in
              match missing with
              | None => mret (Some false)
              | Some f =>
                  fetched ← _fetch_missing_wal rc f;
                  if fetched : bool then pg_rewind_loop fuel cmd restore_command can_restore else mret (Some false)
              end
          end
      end
  end.

Definition pg_rewind (fuel : nat) (kw : dict pyval) : rwM (option bool) :=
  rc ← get_restore_command;
  let can := pg_rewind_can_restore rc in
  pg_rewind_loop fuel (pg_rewind_command can (rn_dsn kw)) rc can.

Definition _maybe_clean_pg_replslot : rwM () := if major_version cfg <? 110000 then does rn_clean_replslot else mret ().

(** After a failure the data directory may be removed. *)
Definition after_failure : rwM () :=
  st ← status_;
  if bool_decide (st = FAILED) && (remove_on_failure cfg || remove_on_diverged cfg)
  then does rn_remove_data;; note RemovedData;; set_status INITIAL
  else mret ().

Definition kwargs_eqb (a b : dict pyval) : bool := pyval_eqb (VDict a) (VDict b).

(** The leader can be used: it has run a checkpoint after its promotion, and is a primary. *)
Definition leader_ready (leader : source) (kw : dict pyval) : rwM bool :=
  match (match leader with SLeader l => DcsData.checkpoint_after_promote l | SRemote _ => None end) with
  | None =>
      err ← (if kwargs_eqb (cred_superuser cfg) (cred_rewind cfg) then
               k ← _conn_kwargs leader (cred_superuser cfg);
               r ← recorded RanCheckpoint (ask (rn_checkpoint (Some k))); lift_exc r
             else check_leader_has_run_checkpoint kw);
      mret (match err with None | Some "" => true | Some _ => false end)
  | Some false => mret false
  | Some true => check_leader_is_not_in_recovery kw
  end.

(** [is_running() and not stop(checkpoint=False)]: false when PostgreSQL still runs *)
Definition stop_first : rwM bool :=
  running ← recorded Running (attr rn_running);
  if running : bool then recorded Stopped (ask rn_stop) else mret true.

(** [execute]; [None] when the fuel was not enough for pg_rewind. *)
Definition execute (fuel : nat) (leader : source) : rwM (option unit) :=
  stopped ← stop_first;
  if negb stopped then mret (Some ()) else
  _archive_ready_wals;;
  kw ← _conn_kwargs leader (cred_rewind cfg);
  ready ← leader_ready leader kw;
  if negb ready then mret (Some ()) else
  done ← pg_rewind fuel kw;
  match done with
  | None => mret None
  | Some true => _maybe_clean_pg_replslot;; set_status SUCCESS;; mret (Some ())
  | Some false =>
      ok ← check_leader_is_not_in_recovery kw;
      (if ok : bool then set_status FAILED
       else can ← can_rewind; if can : bool then mret () else set_status FAILED);;
      after_failure;; mret (Some ())
  end.

Definition reset_state : rwM () := set_status INITIAL;; set_task None.

Definition is_needed : rwM bool := st ← status_; mret (bool_decide (st = CHECK ∨ st = NEED)).
Definition executed : rwM bool := st ← status_; mret (bool_decide (st = SUCCESS ∨ st = FAILED)).
Definition failed : rwM bool := st ← status_; mret (bool_decide (st = FAILED)).

Definition archive_shutdown_checkpoint_wal (archive_cmd : string) : rwM () :=
  data ← attr rn_controldata;
  match Dict.get "Latest checkpoint's REDO WAL file" data with
  | None | Some "" => mret ()
  | Some wal_file => _ ← call [_build_archiver_command (wal_dir cfg) wal_file archive_cmd]; mret ()
  end.

(** ** Recovery in single-user mode *)

Definition read_postmaster_opts : rwM (dict string) := o ← attr rn_postmaster_opts; mret (match o with Some data => postmaster_opts data | None => [] end).

Definition single_user_command (options : dict string) : list string :=
  ([pgcommand cfg "postgres"; "--single"; "-D"; data_dir cfg]
   ++ flat_map (λ opt, ["-c"; opt +:+ "=" +:+ default "" (Dict.get opt options)]) (Str.sorted (map fst options))
   ++ ["template1"])%list.

(** [ensure_clean_shutdown]: without a started process there is no output to be logged. *)
Definition ensure_clean_shutdown : rwM (option bool) :=
  _archive_ready_wals;;
  does rn_cleanup_archive_status;;
  opts ← read_postmaster_opts;
  let opts := Dict.set "archive_command" "false" (Dict.set "archive_mode" "on" opts) in
  does rn_remove_recovery_conf;;
  r ← call (single_user_command opts);
  match r.1 with
  | Some 0 => mret (Some true)
  | Some _ => mret None
  | None => lift_exc (Raise KeyError)
  end.
End rewind.

Example archiver_example :
  _build_archiver_command "/pg_wal" "000000010000000000000002" "cp %p /a/%f %% %x 100%"
  = "cp /pg_wal/000000010000000000000002 /a/000000010000000000000002 % %x 100%".
Proof. vm_compute. reflexivity. Qed.
