(* ===== verification/RewindProps.v ===== *)
(** * When a node is rewound

    A rewind is skipped only when the position of the node is on the history of the primary; pg_rewind is
    only run on a stopped node, from a leader that has run a checkpoint on its timeline; the end of the
    checkpoint is read from the messages of every version; the loop of pg_rewind has no bound. *)
From S2P Require Import Prelude Lexing PyDict PyVal Effects PgMisc DcsData AsyncExec Rewind.

Open Scope string_scope.
Open Scope Z_scope.

(** ** The history *)

(** The node's position is on the history: a replica may be at the switch point of its timeline, or before
    it; the checkpoint of a former primary ends at the switch point. *)
Definition on_history (in_recovery : bool) (timeline lsn checkpoint_end : Z) (history : list (Z * Z * string)) : Prop :=
  ∃ switchpoint reason, (timeline, switchpoint, reason) ∈ history ∧
    if in_recovery then lsn ≤ switchpoint else lsn < switchpoint ∧ switchpoint = checkpoint_end.

Definition ascending (history : list (Z * Z * string)) : Prop := StronglySorted (λ a b, a.1.1 < b.1.1) history.

Lemma history_sound in_recovery tl lsn e h : history_needs_rewind in_recovery tl lsn e h = false → on_history in_recovery tl lsn e h.
Proof.
  induction h as [|[[p sp] r] h IH]; [done|]. cbn [history_needs_rewind]. destruct (Z.eqb_spec p tl) as [->|].
  - intros H. exists sp, r. split; [set_solver|]. destruct in_recovery; [lia|].
    destruct (Z.leb_spec sp lsn); [done|]. apply negb_false_iff in H. lia.
  - destruct (tl <? p); [done|]. intros (sp' & r' & Hin & H)%IH. exists sp', r'. set_solver.
Qed.

Lemma history_complete in_recovery tl lsn e h :
  ascending h → on_history in_recovery tl lsn e h → history_needs_rewind in_recovery tl lsn e h = false.
Proof.
  intros Ha (sp & r & Hin & H). induction Ha as [|[[p sp'] r'] h _ IH Hall]; [by apply elem_of_nil in Hin|].
  cbn [history_needs_rewind]. apply elem_of_cons in Hin as [[= <- <- <-]|Hin].
  - rewrite Z.eqb_refl. destruct in_recovery; [lia|]. destruct H as [H ->]. destruct (Z.leb_spec e lsn); [lia|].
    by rewrite Z.eqb_refl.
  - rewrite Forall_forall in Hall. pose proof (Hall _ Hin). simpl in *.
    destruct (Z.eqb_spec p tl); [lia|]. destruct (Z.ltb_spec tl p); [lia|]. by apply IH.
Qed.

(** For the history of a timeline, whose lines are in the order of their timelines, the loop over it
    stops with "no rewind" exactly when the position of the node is on that history: there is a line for the node's
    timeline, and a replica has replayed no more than up to its switch point, or the checkpoint of a former primary
    ends exactly at the switch point. *)
Theorem history_verdict (in_recovery : bool) (timeline lsn checkpoint_end : Z) (history : list (Z * Z * string)) :
  ascending history →
  history_needs_rewind in_recovery timeline lsn checkpoint_end history = false ↔ on_history in_recovery timeline lsn checkpoint_end history.
Proof. intros H. split; [apply history_sound|by apply history_complete]. Qed.

Lemma history_verdict_witness :
  ascending [(1, 100, ""); (2, 200, "")]
  ∧ (history_needs_rewind true 2 150 0 [(1, 100, ""); (2, 200, "")] = false
     ↔ on_history true 2 150 0 [(1, 100, ""); (2, 200, "")]).
Proof.
  assert (ascending [(1, 100, ""); (2, 200, "")]) as H by (repeat constructor).
  split; [exact H|]. exact (history_verdict true 2 150 0 _ H).
Defined.

(** ** The end of a checkpoint *)

(** The messages of the versions of pg_waldump, after the position *)
Definition waldump_tail (format : option bool) : string :=
  match format with
  | Some true => ": expected at least 24, got 0"
  | Some false => ": wanted 24, got 0"
  | None => ""
  end.

Definition waldump_error (fatal : bool) (lsn next : Z) (format : option bool) : string :=
  "pg_waldump: " +:+ (if fatal then "fatal: " else "error: ") +:+ error_pattern lsn +:+ format_lsn next false
  +:+ waldump_tail format +:+ newline.

Definition waldump_record (lsn prev : Z) : string :=
  "rmgr: XLOG        len (rec/tot):    106/   106, tx:          0, lsn: " +:+ format_lsn lsn true +:+ ", prev "
  +:+ format_lsn prev true +:+ ", desc: CHECKPOINT_SHUTDOWN" +:+ newline.

(** What may be in the text of a position *)
Definition lsn_char (c : ascii) : bool := is_hexdigit c || Ascii.eqb c "-" || Ascii.eqb c "/".

Lemma all_hexdigit_lsn s n : hexadecimal n s → Str.all lsn_char s = true.
Proof. intros (Ha & _). refine (all_impl _ _ s _ Ha). intros c Hc. unfold lsn_char. by rewrite Hc. Qed.

Lemma format_lsn_chars lsn full : Str.all lsn_char (format_lsn lsn full) = true ∧ format_lsn lsn full ≠ "".
Proof.
  unfold format_lsn. set (hi := Z.shiftr lsn 32).
  assert (0 ≤ Z.land lsn 0xFFFFFFFF) as Hlo%upper_hex_spec by (apply Z.land_nonneg; right; lia).
  set (lo := Z.land lsn 0xFFFFFFFF) in *.
  assert (Str.all lsn_char (if full then pad 8 "0" (upper_hex lo) else upper_hex lo) = true) as H1.
  { destruct full; [eapply all_hexdigit_lsn, pad_spec, Hlo|by eapply all_hexdigit_lsn]. }
  destruct (Z.ltb_spec hi 0) as [H|H].
  - pose proof (upper_hex_spec (- hi) ltac:(lia)) as Hh%all_hexdigit_lsn. split; [|done]. rewrite !Str.all_app, Hh, H1. done.
  - pose proof (upper_hex_spec hi H) as Hh. pose proof Hh as (_ & _ & Hne). apply all_hexdigit_lsn in Hh. split.
    + rewrite !Str.all_app, Hh, H1. done.
    + by destruct (upper_hex hi).
Qed.

Lemma lsn_char_facts c : lsn_char c = true →
  negb (Str.is_space c) = true ∧ negb (Ascii.eqb c ":") = true ∧ negb (Ascii.eqb c (ascii_of_nat 10)) = true ∧ negb (Ascii.eqb c ",") = true.
Proof. by destruct c as [[] [] [] [] [] [] [] []]; vm_compute. Qed.

Lemma lsn_lacks lsn full c : c ∈ [":"%char; ascii_of_nat 10; ","%char] → lacks c (format_lsn lsn full) = true.
Proof.
  intros H. destruct (format_lsn_chars lsn full) as [Ha _]. refine (all_impl _ _ _ _ Ha).
  intros x Hx%lsn_char_facts. destruct Hx as (_ & H1 & H2 & H3). do 3 (apply elem_of_cons in H as [->|H]; [done|]). by apply elem_of_nil in H.
Qed.

(** ** Searching *)

Lemma prefix_of_app p s : String.prefix p (p +:+ s) = true.
Proof. induction p as [|c p IH]; [by destruct s|]. rewrite Str.str_app_cons. simpl. by destruct (ascii_dec c c). Qed.

Lemma cut_skip c p a b :
  lacks c a = true → cut (String c p) (a +:+ b) = '(x, y) ← cut (String c p) b; Some (a +:+ x, y).
Proof.
  unfold lacks. induction a as [|d a IH]; [intros _; change ("" +:+ b) with b; by destruct (cut _ b) as [[]|]|].
  rewrite Str.str_app_cons. cbn [Str.all]. intros [Hd Ha]%andb_prop. apply negb_true_iff, Ascii.eqb_neq in Hd.
  cbn [cut]. change (String.prefix (String c p) (String d (a +:+ b))) with (if ascii_dec c d then String.prefix p (a +:+ b) else false).
  destruct (ascii_dec c d); [congruence|]. rewrite IH by done. by destruct (cut _ b) as [[]|].
Qed.

Lemma substring_all m s : (String.length s ≤ m)%nat → String.substring 0 m s = s.
Proof. revert m. induction s as [|c s IH]; intros [|m] H; simpl in *; [done..|lia|]. rewrite IH; [done|lia]. Qed.

Lemma substring_after m p s : (String.length s ≤ m)%nat → String.substring (String.length p) m (p +:+ s) = s.
Proof. induction p as [|c p IH]; [apply substring_all|exact IH]. Qed.

Lemma cut_here p s : cut p (p +:+ s) = Some ("", s).
Proof.
  destruct p as [|c p].
  - destruct s as [|d s]; [done|]. change ("" +:+ ?t) with t. cbn [cut]. simpl. by rewrite substring_all.
  - rewrite Str.str_app_cons. cbn [cut]. rewrite <-Str.str_app_cons, prefix_of_app, substring_after; [done|].
    rewrite Str.str_length_app. lia.
Qed.

Lemma rstrip_app a b : Str.rstrip b ≠ "" → Str.rstrip (a +:+ b) = a +:+ Str.rstrip b.
Proof.
  intros H. induction a as [|c a IH]; [done|]. rewrite Str.str_app_cons. cbn [Str.rstrip]. rewrite IH, Str.str_app_cons.
  destruct (a +:+ Str.rstrip b) eqn:E; [|done]. by destruct a, (Str.rstrip b).
Qed.

Lemma rstrip_ends a b t : Str.rstrip b = t → t ≠ "" → Str.rstrip (a +:+ b) = a +:+ t.
Proof. intros <- H. by apply rstrip_app. Qed.

Lemma rstrip_newline s : Str.all (λ c, negb (Str.is_space c)) s = true → s ≠ "" → Str.rstrip (s +:+ newline) = s.
Proof.
  intros Hs Hne. induction s as [|c s IH]; [done|]. rewrite Str.str_app_cons. cbn [Str.all Str.rstrip] in *.
  apply andb_prop in Hs as [Hc Hs]. destruct s as [|d s].
  - simpl. by apply negb_true_iff in Hc as ->.
  - by rewrite IH.
Qed.

Lemma cut_step p c s : p ≠ "" → String.prefix p (String c s) = false → cut p (String c s) = '(a, b) ← cut p s; Some (String c a, b).
Proof. intros _ H. cbn [cut]. by rewrite H. Qed.

Lemma error_pattern_shape lsn : ∃ p, error_pattern lsn = String "e" ("rror in" +:+ p) ∧ lacks (ascii_of_nat 10) p = true.
Proof.
  eexists (" WAL record at " +:+ format_lsn lsn false +:+ ": invalid record length at "). split; [done|].
  pose proof (lsn_lacks lsn false (ascii_of_nat 10) ltac:(set_solver)) as H. unfold lacks in *.
  by rewrite !Str.all_app, H.
Qed.

Lemma cut_error (fatal : bool) lsn rest :
  ∃ a, cut (error_pattern lsn) ("pg_waldump: " +:+ (if fatal then "fatal: " else "error: ") +:+ error_pattern lsn +:+ rest) = Some (a, rest).
Proof.
  pose proof (cut_here (error_pattern lsn) rest) as H. destruct (error_pattern_shape lsn) as (p & Hp & _). rewrite !Hp in *.
  rewrite cut_skip by done. destruct fatal.
  - rewrite cut_skip by done. rewrite H. by eexists.
  - change ("error: " +:+ ?t) with (String "e" ("rror: " +:+ t)). rewrite cut_step by done.
    rewrite cut_skip by done. rewrite H. by eexists.
Qed.

(** What a pattern begins with *)
Definition head_colon (p : string) : bool :=
  match p with String c _ => Ascii.eqb c ":" || Ascii.eqb c (ascii_of_nat 10) | "" => false end.

Lemma parse_until_skip p patterns a b rest next :
  lacks (ascii_of_nat 10) a = true → lacks ":" a = true → head_colon p = true →
  cut p (b +:+ newline) = Some ("", rest) → parse_lsn a = Ok next → parse_until (p :: patterns) (a +:+ b) = Some next.
Proof.
  intros Hn Hc Hp Hcut Ha. cbn [parse_until]. rewrite Str.str_app_assoc. destruct p as [|c p]; [done|].
  rewrite cut_skip, Hcut; cbn [mbind option_bind]; [by rewrite Str.str_app_nil_r, Ha|].
  by apply orb_prop in Hp as [->%Ascii.eqb_eq| ->%Ascii.eqb_eq].
Qed.

Lemma parse_until_next p patterns a b :
  lacks ":" a = true → (match p with String c _ => Ascii.eqb c ":" | "" => false end) = true → cut p (b +:+ newline) = None →
  parse_until (p :: patterns) (a +:+ b) = parse_until patterns (a +:+ b).
Proof.
  intros Hc Hp Hcut. cbn [parse_until]. rewrite Str.str_app_assoc. destruct p as [|c p]; [done|].
  apply Ascii.eqb_eq in Hp as ->. by rewrite cut_skip, Hcut.
Qed.

Lemma parse_position next (format : option bool) :
  parse_until [": expected at least "; ": wanted "; newline] (format_lsn next false +:+ waldump_tail format) = Some next.
Proof.
  assert (lacks ":" (format_lsn next false) = true) as Hc by (apply lsn_lacks; set_solver).
  assert (lacks (ascii_of_nat 10) (format_lsn next false) = true) as Hn by (apply lsn_lacks; set_solver).
  pose proof (lsn_roundtrip next false) as Hp.
  destruct format as [[]|]; cbn [waldump_tail].
  - eapply parse_until_skip; [done..| |done]. vm_compute. reflexivity.
  - rewrite parse_until_next by done. eapply parse_until_skip; [done..| |done]. vm_compute. reflexivity.
  - rewrite !parse_until_next by done. eapply parse_until_skip; [done..| |done]. vm_compute. reflexivity.
Qed.

Lemma record_line lsn prev : ∃ line,
  lines (Str.rstrip (waldump_record lsn prev)) = [line] ∧ has_text (", lsn: " +:+ format_lsn lsn true +:+ ", prev ") line = true.
Proof.
  set (tail := ", desc: CHECKPOINT_SHUTDOWN").
  assert (Str.rstrip (waldump_record lsn prev) =
    "rmgr: XLOG        len (rec/tot):    106/   106" +:+ ", tx:          0" +:+
    (", lsn: " +:+ format_lsn lsn true +:+ ", prev ") +:+ format_lsn prev true +:+ tail) as ->.
  { unfold waldump_record. change (", desc: CHECKPOINT_SHUTDOWN" +:+ newline) with (tail +:+ newline).
    rewrite <-!Str.str_app_assoc. rewrite (Str.str_app_assoc _ tail newline), (rstrip_ends _ _ tail) by done.
    by rewrite !Str.str_app_assoc. }
  eexists. split.
  - apply split_on_lacks. unfold lacks. rewrite !Str.all_app.
    fold (lacks (ascii_of_nat 10) (format_lsn lsn true)) (lacks (ascii_of_nat 10) (format_lsn prev true)).
    rewrite !lsn_lacks by set_solver. done.
  - assert (∃ p, ", lsn: " +:+ format_lsn lsn true +:+ ", prev " = String "," (" lsn: " +:+ p)) as (p & Hp) by by eexists.
    unfold has_text. rewrite Hp. rewrite cut_skip by done.
    change (", tx:          0" +:+ ?t) with (String "," (" tx:          0" +:+ t)).
    rewrite cut_step by done. rewrite cut_skip by done. by rewrite cut_here.
Qed.

(** The end of a checkpoint record is found in the output of pg_waldump, for every position of the
    record and of its end: with the messages of version 16 ("expected at least"), of older versions ("wanted"), and of 9.5
    (nothing after the position), whether the message is called fatal or error. *)
Theorem checkpoint_end_found (lsn prev next : Z) (fatal : bool) (format : option bool) :
  parse_waldump lsn (waldump_record lsn prev) (waldump_error fatal lsn next format) = next.
Proof.
  unfold parse_waldump. destruct (record_line lsn prev) as (line & -> & ->).
  assert (Str.rstrip (waldump_error fatal lsn next format) =
    "pg_waldump: " +:+ (if fatal then "fatal: " else "error: ") +:+ error_pattern lsn +:+ format_lsn next false +:+ waldump_tail format) as ->.
  { unfold waldump_error. assert (Str.rstrip (format_lsn next false +:+ waldump_tail format +:+ newline) =
      format_lsn next false +:+ waldump_tail format) as H.
    { destruct (format_lsn_chars next false) as [Ha Hne]. destruct format as [[]|]; [by rewrite rstrip_app..|].
      change (waldump_tail None) with "". rewrite Str.str_app_nil_r. apply rstrip_newline; [|done].
      refine (all_impl _ _ _ _ Ha). intros c Hc. apply (lsn_char_facts c Hc). }
    assert (format_lsn next false +:+ waldump_tail format ≠ "") as Hne.
    { destruct (format_lsn_chars next false) as [_ Hne]. by destruct (format_lsn next false). }
    pose proof (rstrip_ends ("pg_waldump: " +:+ (if fatal then "fatal: " else "error: ") +:+ error_pattern lsn) _ _ H Hne) as Hr.
    by rewrite !Str.str_app_assoc in Hr. }
  destruct (cut_error fatal lsn (format_lsn next false +:+ waldump_tail format)) as (a & Hc).
  unfold lines. rewrite split_on_lacks.
  - by rewrite Hc, parse_position.
  - destruct (error_pattern_shape lsn) as (p & Hp & Hl). rewrite Hp. unfold lacks in *. rewrite !Str.all_app.
    change (Str.all ?f (String "e" ?t)) with (Str.all f t). rewrite Str.all_app, Hl.
    fold (lacks (ascii_of_nat 10) (format_lsn next false)). rewrite lsn_lacks by set_solver. destruct fatal, format as [[]|]; done.
Qed.

(** ** What a rewind is preceded by *)

(** [m] leaves the events as they are, or adds only events that satisfy [P]. *)
Definition notes {W} (P : rw_event → Prop) {A} (m : rwM (W := W) A) : Prop := adds (λ s : Rewind * W, events s.1) P m.

Definition never : rw_event → Prop := λ _, False.

Lemma notes_note {W} (P : rw_event → Prop) e : P e → notes P (note (W := W) e).
Proof. intros H. by apply (adds_one _ _ _ e). Qed.

Lemma notes_ask {W} P {A} (op : W → A * W) : notes P (ask op).
Proof. apply adds_keep. intros s. unfold ask. by destruct (op s.2). Qed.

Create HintDb notes.
#[export] Hint Resolve notes_ask notes_note : notes.

Ltac notes_step :=
  lazymatch goal with
  | |- notes _ (mbind _ _) => apply adds_bind; [|let a := fresh in intros a; cbn beta iota zeta]
  | |- adds _ _ (mbind _ _) => apply adds_bind; [|let a := fresh in intros a; cbn beta iota zeta]
  | |- adds _ ?P ?m => change (notes P m)
  | |- notes _ (match ?x with _ => _ end) => destruct x eqn:?
  | |- notes _ (let '_ := ?x in _) => destruct x eqn:?
  | |- notes _ (for_each _ _) => apply adds_each; let a := fresh in intros a
  | |- notes _ ?m =>
      lazymatch m with
      | mret _ => idtac | lift_exc _ => idtac | gets _ => idtac | puts _ => idtac | attr _ => idtac | does _ => idtac
      | set_status _ => idtac | set_task _ => idtac | self => idtac | status_ => idtac
      end; by apply adds_keep
  end.
Ltac notes_auto := repeat (first [solve [eauto 2 with notes] | notes_step]).

(** Unfolds computations down to the calls. *)
Ltac rw_unfold := unfold recorded, attr, ask, note, modify, gets, puts, mbind, rwM_bind, eff_bind, mret, rwM_ret, eff_ret; cbn -[row_true].

Section execute.
Context {W : Type} `{!RewindNode W} (cfg : RewindConfig).

Lemma notes_call P cmd : notes P (call (W := W) cmd).
Proof. unfold call. notes_auto. Qed.
Hint Resolve notes_call : notes.

Lemma notes_archive P : notes P (_archive_ready_wals (W := W) cfg).
Proof.
  unfold _archive_ready_wals, get_archive_command. notes_auto. unfold archive_one. notes_auto.
Qed.

Lemma notes_kwargs P l auth : notes P (_conn_kwargs (W := W) cfg l auth).
Proof. unfold _conn_kwargs. notes_auto. Qed.

Lemma notes_can_rewind P : notes P (can_rewind (W := W) cfg).
Proof. unfold can_rewind. notes_auto. Qed.
Hint Resolve notes_archive notes_kwargs notes_can_rewind : notes.

Lemma notes_recorded (P : rw_event → Prop) {A} (event : A → rw_event) (m : rwM (W := W) A) : notes P m → (∀ a, P (event a)) → notes P (recorded event m).
Proof. intros Hm H. unfold recorded. notes_auto. Qed.

Lemma notes_recovery (P : rw_event → Prop) kw : (∀ r, P (LeaderInRecovery r)) → notes P (check_leader_is_not_in_recovery (W := W) kw).
Proof. intros H. unfold check_leader_is_not_in_recovery. apply adds_bind; [by apply notes_recorded; [apply notes_ask|]|]. intros r. by apply adds_keep. Qed.

(** Events without a run of pg_rewind *)
Definition no_run (e : rw_event) : Prop := match e with RanRewind _ => False | _ => True end.

Definition is_run (e : rw_event) : Prop := match e with RanRewind _ => True | _ => False end.

Lemma notes_loop fuel cmd rc can : notes is_run (pg_rewind_loop (W := W) cfg fuel cmd rc can).
Proof.
  induction fuel as [|fuel IH]; cbn [pg_rewind_loop]; [by apply adds_keep|]. unfold _fetch_missing_wal.
  notes_auto; try (by apply notes_note).
Qed.

Lemma notes_pg_rewind fuel kw : notes is_run (pg_rewind (W := W) cfg fuel kw).
Proof. unfold pg_rewind, get_restore_command. notes_auto. all: apply notes_loop. Qed.

(** The events since [ev0] *)
Definition since (ev0 : list rw_event) (Q : list rw_event → Prop) (s : Rewind * W) : Prop := ∃ new, events s.1 = (new ++ ev0)%list ∧ Q new.

Lemma triple_notes P {A} (m : rwM (W := W) A) ev0 (Q Q' : list rw_event → Prop) :
  notes P m → (∀ n n', Q n → Forall P n' → Q' (n' ++ n)%list) → triple (since ev0 Q) m (λ _, since ev0 Q') (since ev0 Q').
Proof.
  intros Hm HQ s (n & Hn & Hq). destruct (Hm s) as (n' & Hn' & Hp).
  assert (since ev0 Q' (m s).2) as H by (exists (n' ++ n)%list; rewrite Hn', Hn, app_assoc; auto).
  by destruct (m s) as [[a|e] s'].
Qed.

(** A run of pg_rewind comes after what [G] asks for. *)
Definition guarded (G : list rw_event → Prop) (new : list rw_event) : Prop :=
  ∀ post ret pre, new = (post ++ RanRewind ret :: pre)%list → G pre.

(** What holds of events holds of more of them. *)
Definition lasting (Q : list rw_event → Prop) : Prop := ∀ l l', l ⊆ l' → Q l → Q l'.

(** Nothing was run yet, and [Q] holds of the events. *)
Definition ready (Q : list rw_event → Prop) (n : list rw_event) : Prop := Forall no_run n ∧ Q n ∧ lasting Q.

Lemma no_run_guarded G n : Forall no_run n → guarded G n.
Proof. intros H post ret pre ->. apply Forall_app in H as [_ [[] _]%Forall_cons]. Qed.

Lemma ready_more Q n n' : ready Q n → Forall no_run n' → ready Q (n' ++ n).
Proof. intros (H1 & H2 & HQ) H. split_and!; [by apply Forall_app| |done]. eapply HQ, H2. set_solver. Qed.

Lemma ready_runs Q n n' : ready Q n → Forall is_run n' → guarded Q (n' ++ n).
Proof.
  intros (H1 & H2 & HQ) Hn' post ret pre Heq. apply app_eq_inv in Heq as [(k & -> & Hk)|(k & -> & Hk)].
  - destruct k as [|x k].
    + simpl in Hk. subst n. by apply Forall_cons in H1 as [[] _].
    + injection Hk as <- ->. eapply HQ, H2. set_solver.
  - subst n. apply Forall_app in H1 as [_ [[] _]%Forall_cons].
Qed.

Lemma guarded_more G n n' : guarded G n → Forall no_run n' → guarded G (n' ++ n).
Proof.
  intros Hg Hn' post ret pre Heq. apply app_eq_inv in Heq as [(k & -> & Hk)|(k & -> & Hk)]; [|by eapply Hg].
  destruct k as [|x k]; [by eapply (Hg [])|]. injection Hk as <- ->.
  apply Forall_app in Hn' as [_ [[] _]%Forall_cons].
Qed.

(** [m] adds no run, and when it returns [true] what it has added satisfies [Q]. *)
Definition checks (Q : list rw_event → Prop) (m : rwM (W := W) bool) : Prop :=
  lasting Q ∧ ∀ s, ∃ new, events (m s).2.1 = (new ++ events s.1)%list ∧ Forall no_run new ∧ ((m s).1 = Ok true → Q new).

Definition also (Q Q' : list rw_event → Prop) (l : list rw_event) : Prop := Q l ∧ Q' l.

Lemma triple_checks Q m ev0 Q0 :
  checks Q m →
  triple (since ev0 (ready Q0)) m (λ b, since ev0 (if b then ready (also Q Q0) else ready Q0)) (since ev0 (ready Q0)).
Proof.
  intros [HQ Hm] s (n & Hn & Hr). destruct (Hm s) as (n' & Hn' & Hrun & He).
  assert (since ev0 (ready Q0) (m s).2) as Hs.
  { exists (n' ++ n)%list. rewrite Hn', Hn, app_assoc. split; [done|]. by apply ready_more. }
  destruct (m s) as [[[]|e] s'] eqn:E; [|exact Hs..]. exists (n' ++ n)%list. simpl in *. rewrite Hn', Hn, app_assoc. split; [done|].
  destruct (ready_more _ _ _ Hr Hrun) as (H1 & H2 & H3). split_and!; [done| |].
  - split; [|done]. eapply HQ, He; [set_solver|done].
  - intros l l' Hl [? ?]. split; [by eapply HQ|by eapply H3].
Qed.

(** PostgreSQL does not run, or was stopped. *)
Definition down (l : list rw_event) : Prop := Running false ∈ l ∨ Stopped true ∈ l.

(** The leader has answered that it is not in recovery. *)
Definition not_in_recovery (l : list rw_event) : Prop := ∃ a, LeaderInRecovery (Ok a) ∈ l ∧ row_true a = false.

(** What a leader has to show: when its key says that it has run a checkpoint, that it is a primary; when its key says nothing of
    that, a checkpoint.  A leader whose key says that it has not run one cannot be used. *)
Definition announced (leader : source) : option bool :=
  match leader with SLeader l => DcsData.checkpoint_after_promote l | SRemote _ => None end.
Definition shown (leader : source) (l : list rw_event) : Prop :=
  match announced leader with
  | Some true => not_in_recovery l
  | Some false => False
  | None => (∃ a, LeaderCheckpoint (Ok a) ∈ l ∧ row_true a = true) ∨ RanCheckpoint (Ok None) ∈ l ∨ RanCheckpoint (Ok (Some "")) ∈ l
  end.

Lemma down_lasting : lasting down.
Proof. unfold lasting, down. set_solver. Qed.
Lemma not_in_recovery_lasting : lasting not_in_recovery.
Proof. unfold lasting, not_in_recovery. set_solver. Qed.
Lemma shown_lasting leader : lasting (shown leader).
Proof.
  unfold shown. destruct (announced leader) as [[]|]; [apply not_in_recovery_lasting|by intros ? ? _ []|].
  unfold lasting. set_solver.
Qed.

Lemma checks_stop : checks down (stop_first (W := W)).
Proof.
  split; [apply down_lasting|]. intros [r w]. unfold stop_first. rw_unfold. destruct (rn_running w); simpl.
  - destruct (rn_stop w) as [ok w1]; simpl. exists [Stopped ok; Running true]. split_and!; [done|by repeat constructor|].
    intros [= ->]. right. set_solver.
  - exists [Running false]. split_and!; [done|by repeat constructor|]. intros _. left. set_solver.
Qed.

Lemma recovery_says kw s : let '(r, s') := check_leader_is_not_in_recovery (W := W) kw s in
  ∃ a, events s'.1 = (LeaderInRecovery a :: events s.1)%list ∧ (r = Ok true → not_in_recovery [LeaderInRecovery a]).
Proof.
  destruct s as [r w]. unfold check_leader_is_not_in_recovery. rw_unfold. destruct (rn_leader_in_recovery kw w) as [a w1]; simpl.
  exists a. split; [done|]. intros [= H]. destruct a as [a|]; [|done]. exists a. split; [set_solver|by apply negb_true_iff].
Qed.

Lemma checks_recovery kw : checks not_in_recovery (check_leader_is_not_in_recovery (W := W) kw).
Proof.
  split; [apply not_in_recovery_lasting|]. intros s. pose proof (recovery_says kw s) as H.
  destruct (check_leader_is_not_in_recovery kw s) as [r s']. destruct H as (a & He & Ha).
  exists [LeaderInRecovery a]. split_and!; [exact He|by repeat constructor|exact Ha].
Qed.

Lemma checks_ready leader kw : checks (shown leader) (leader_ready (W := W) cfg leader kw).
Proof.
  split; [apply shown_lasting|]. unfold shown, leader_ready. fold (announced leader). destruct (announced leader) as [[]|].
  - apply checks_recovery.
  - intros s. by exists [].
  - intros [r w]. destruct (kwargs_eqb _ _).
    + unfold _conn_kwargs. rw_unfold. destruct (rn_checkpoint _ w) as [a w1]; simpl. exists [RanCheckpoint a].
      destruct a as [[[|c t]|]|e]; (split_and!; [done|by repeat constructor|]); try done; intros _; right; set_solver.
    + unfold check_leader_has_run_checkpoint. rw_unfold. destruct (rn_leader_checkpoint kw w) as [a w1]; simpl. exists [LeaderCheckpoint a].
      destruct a as [a|e]; [|by split_and!; [|repeat constructor|]].
      destruct (row_true a) eqn:Ha; (split_and!; [done|by repeat constructor|]); try done. intros _. left. exists a. set_solver.
Qed.

Lemma since_mono ev0 (Q Q' : list rw_event → Prop) s : (∀ n, Q n → Q' n) → since ev0 Q s → since ev0 Q' s.
Proof. intros HQ (n & ? & ?). exists n. auto. Qed.

Lemma ready_guarded ev0 Q G s : since ev0 (ready Q) s → since ev0 (guarded G) s.
Proof. apply since_mono. intros n [H _]. by apply no_run_guarded. Qed.

(** The steps before pg_rewind, and after it *)
Lemma step_before {A B} (m : rwM (W := W) A) (f : A → rwM B) ev0 Q G : notes no_run m →
  (∀ a, triple (since ev0 (ready Q)) (f a) (λ _, since ev0 (guarded G)) (since ev0 (guarded G))) →
  triple (since ev0 (ready Q)) (m ≫= f) (λ _, since ev0 (guarded G)) (since ev0 (guarded G)).
Proof.
  intros Hm Hf. apply (triple_bind _ _ _ (λ _, since ev0 (ready Q))); [|done].
  intros s Hs. pose proof (triple_notes no_run m ev0 (ready Q) (ready Q) Hm (ready_more Q) s Hs) as H.
  destruct (m s) as [[a|e] s']; [done|]. by eapply ready_guarded.
Qed.

Lemma step_check {B} (m : rwM (W := W) bool) (f : bool → rwM B) Q ev0 Q0 G : checks Q m →
  triple (since ev0 (ready (also Q Q0))) (f true) (λ _, since ev0 (guarded G)) (since ev0 (guarded G)) →
  (∀ s, (f false s).2 = s) →
  triple (since ev0 (ready Q0)) (m ≫= f) (λ _, since ev0 (guarded G)) (since ev0 (guarded G)).
Proof.
  intros Hm Ht Hf s Hs. pose proof (triple_checks Q m ev0 Q0 Hm s Hs) as H. unfold mbind, rwM_bind, eff_bind.
  destruct (m s) as [[[]|e] s']; [by apply Ht| |by eapply ready_guarded].
  specialize (Hf s'). destruct (f false s') as [[a|e] s2]; simpl in Hf; subst; by eapply ready_guarded.
Qed.

Lemma notes_failed (done : option bool) kw : notes no_run (W := W)
  match done with
  | None => mret None
  | Some true => _maybe_clean_pg_replslot cfg;; set_status SUCCESS;; mret (Some ())
  | Some false =>
      ok ← check_leader_is_not_in_recovery kw;
      (if ok : bool then set_status FAILED
       else can ← can_rewind cfg; if can : bool then mret () else set_status FAILED);;
      after_failure cfg;; mret (Some ())
  end.
Proof.
  unfold after_failure, _maybe_clean_pg_replslot. destruct done as [[]|].
  - notes_auto.
  - apply adds_bind; [by apply notes_recovery|intros ok]. notes_auto; by apply notes_note.
  - notes_auto.
Qed.

Lemma execute_guarded fuel leader s :
  since (events s.1) (guarded (also (shown leader) (also down (λ _, True)))) (execute cfg fuel leader s).2.
Proof.
  set (G := also (shown leader) (also down (λ _, True))). set (ev0 := events s.1).
  assert (triple (since ev0 (ready (λ _, True))) (execute cfg fuel leader) (λ _, since ev0 (guarded G)) (since ev0 (guarded G))) as Ht.
  2: { specialize (Ht s ltac:(by exists [])). by destruct (execute cfg fuel leader s) as [[a|e] s']. }
  unfold execute. apply (step_check _ _ down); [apply checks_stop| |done].
  apply step_before; [apply notes_archive|intros _]. apply step_before; [apply notes_kwargs|intros kw].
  apply (step_check _ _ (shown leader)); [apply checks_ready| |done].
  apply (triple_bind _ _ _ (λ _, since ev0 (guarded G))).
  { apply (triple_notes is_run _ ev0 _ _ (notes_pg_rewind _ _)). intros n n'. apply ready_runs. }
  intros done. apply (triple_notes no_run _ ev0 _ _ (notes_failed done kw)). intros n n'. apply guarded_more.
Qed.
End execute.

(** ** When a rewind is skipped *)

Section check.
Context {W : Type} `{!RewindNode W} (cfg : RewindConfig).

(** Why a node at this position needs no rewind, by what was answered: the primary is on the same timeline, or on a later one
    whose history contains the position - for a former primary, with the end of the checkpoint that pg_waldump showed -, or
    the primary answered without a row. *)
Definition excused (in_recovery : option bool) (tl lsn : Z) (new : list rw_event) : Prop :=
  Identified (Ok None) ∈ new ∨
  ∃ primary, Identified (Ok (Some primary)) ∈ new ∧
    (primary = tl ∨
     tl < primary ∧ (primary ≤ 1 ∨ HistoryRead (Ok None) ∈ new ∨
       ∃ text e, HistoryRead (Ok (Some text)) ∈ new ∧ on_history (default false in_recovery) tl lsn e (parse_history text) ∧
         (default false in_recovery = false → CheckpointEnd e ∈ new))).

Lemma bind_inv {A B} (m : rwM (W := W) A) (f : A → rwM B) s (P : Rewind * W → Prop) :
  P ((m ≫= f) s).2 → (∃ e s1, m s = (Raise e, s1) ∧ P s1) ∨ (∃ a s1, m s = (Ok a, s1) ∧ P (f a s1).2).
Proof.
  unfold mbind, rwM_bind, eff_bind. destruct (m s) as [[a|e] s1]; intros H; [right|left]; by eexists _, _.
Qed.

(** [m] leaves the status as it is. *)
Definition same_status {A} (m : rwM (W := W) A) : Prop := ∀ s, status (m s).2.1 = status s.1.

Lemma same_bind {A B} (m : rwM (W := W) A) (f : A → rwM B) : same_status m → (∀ a, same_status (f a)) → same_status (m ≫= f).
Proof.
  intros Hm Hf s. unfold mbind, rwM_bind, eff_bind. specialize (Hm s). destruct (m s) as [[a|e] s1]; [|done]. by rewrite Hf.
Qed.
Lemma same_ask {A} (op : W → A * W) : same_status (ask op).
Proof. intros s. unfold ask. by destruct (op s.2). Qed.

Lemma same_recorded {A} (event : A → rw_event) (m : rwM (W := W) A) : same_status m → same_status (recorded event m).
Proof. intros Hm. unfold recorded. apply same_bind; [done|]. intros a. apply same_bind; [by intros [? ?]|]. by intros _ [? ?]. Qed.

Ltac same_step :=
  lazymatch goal with
  | |- same_status (mbind _ _) => apply same_bind; [|let a := fresh in intros a; cbn beta iota zeta]
  | |- same_status (match ?x with _ => _ end) => destruct x eqn:?
  | |- same_status (recorded _ _) => apply same_recorded
  | |- same_status (ask _) => apply same_ask
  | |- same_status _ => by intros [? ?]
  end.

Lemma same_local : same_status (_get_local_timeline_lsn (W := W)).
Proof. unfold _get_local_timeline_lsn. repeat same_step. Qed.
Lemma same_kwargs l auth : same_status (_conn_kwargs (W := W) cfg l auth).
Proof. unfold _conn_kwargs. repeat same_step. Qed.
Lemma same_recovery kw : same_status (check_leader_is_not_in_recovery (W := W) kw).
Proof. unfold check_leader_is_not_in_recovery. repeat same_step. Qed.
Lemma same_judge b tl lsn h : same_status (judge_history (W := W) b tl lsn h).
Proof. unfold judge_history, _get_checkpoint_end. repeat same_step. Qed.
Lemma same_compare m tl : same_status (compare_timelines (W := W) m tl).
Proof. unfold compare_timelines. repeat same_step. Qed.

(** [m] records nothing. *)
Definition keeps {A} (m : rwM (W := W) A) : Prop := ∀ s, events (m s).2.1 = events s.1.

Lemma notes_never {A} (m : rwM (W := W) A) : notes never m → keeps m.
Proof. intros H s. destruct (H s) as (n & -> & Hn). destruct n as [|e n]; [done|]. by apply Forall_cons in Hn as [[] _]. Qed.

Lemma local_keeps : keeps (_get_local_timeline_lsn (W := W)).
Proof. apply notes_never. unfold _get_local_timeline_lsn. notes_auto. Qed.
Lemma kwargs_keeps l auth : keeps (_conn_kwargs (W := W) cfg l auth).
Proof. apply notes_never, notes_kwargs. Qed.

(** What the primary said when there is no history to judge, or before its history is judged *)
Definition said (tl : Z) (r : option bool * option string) (new : list rw_event) : Prop :=
  match r with
  | (need, None) => default false need = false → Identified (Ok None) ∈ new ∨
      ∃ p, Identified (Ok (Some p)) ∈ new ∧ (p = tl ∨ tl < p ∧ (p ≤ 1 ∨ HistoryRead (Ok None) ∈ new))
  | (_, Some text) => ∃ p, Identified (Ok (Some p)) ∈ new ∧ tl < p ∧ HistoryRead (Ok (Some text)) ∈ new
  end.

Lemma compare_says m tl s r s' : compare_timelines (W := W) m tl s = (Ok (Ok r), s') →
  ∃ new, events s'.1 = (new ++ events s.1)%list ∧ said tl r new.
Proof.
  unfold compare_timelines. rw_unfold. destruct s as [st w]. simpl.
  destruct (rn_identify_system m w) as [[[p|]|e] w1] eqn:E; simpl; [| |done].
  2: { intros [= <- <-]. exists [Identified (Ok None)]. split; [done|]. intros _. left. set_solver. }
  destruct (Z.ltb_spec p tl); [intros [= <- <-]; by exists [Identified (Ok (Some p))]|]. destruct (Z.eqb_spec tl p).
  { intros [= <- <-]. exists [Identified (Ok (Some p))]. split; [done|]. intros _. right. exists p. split; [set_solver|by left]. }
  destruct (Z.ltb_spec 1 p); simpl.
  2: { intros [= <- <-]. exists [Identified (Ok (Some p))]. split; [done|]. intros _. right. exists p. split; [set_solver|]. right. lia. }
  destruct (rn_timeline_history m p w1) as [[[text|]|e] w2] eqn:E2; simpl; [intros [= <- <-]..|done].
  - exists [HistoryRead (Ok (Some text)); Identified (Ok (Some p))]. split; [done|]. exists p. split_and!; [set_solver|lia|set_solver].
  - exists [HistoryRead (Ok None); Identified (Ok (Some p))]. split; [done|]. intros _. right. exists p. split; [set_solver|]. right.
    split; [lia|]. right. set_solver.
Qed.

(** A former primary is only let off by the end of its checkpoint. *)
Lemma judged_by_checkpoint tl lsn e h : history_needs_rewind false tl lsn e h = false → asks_checkpoint_end tl lsn h = true.
Proof.
  induction h as [|[[p sp] r] h IH]; [done|]. cbn [history_needs_rewind asks_checkpoint_end].
  destruct (p =? tl); [|by destruct (tl <? p)]. destruct (Z.leb_spec sp lsn); [done|]. intros _. lia.
Qed.

Lemma judge_says in_recovery tl lsn text s s' : judge_history (W := W) in_recovery tl lsn text s = (Ok false, s') →
  ∃ new e, events s'.1 = (new ++ events s.1)%list ∧ on_history in_recovery tl lsn e (parse_history text) ∧
    (in_recovery = false → CheckpointEnd e ∈ new).
Proof.
  unfold judge_history. set (h := parse_history text). intros H.
  assert (∃ e s1, (if negb in_recovery && asks_checkpoint_end tl lsn h then _get_checkpoint_end tl lsn else mret 0) s = (Ok e, s1) ∧
    s' = s1 ∧ history_needs_rewind in_recovery tl lsn e h = false) as (e & s1 & E & -> & Hn).
  { eff_inv H. eexists _, _. split; [exact Hm|]. destruct h; [done|]. injection H; intros Hj Hn; subst. split; [done|exact Hn]. }
  clear H. pose proof (history_sound _ _ _ _ _ Hn) as Hh. destruct in_recovery; cbn [negb andb] in E.
  - injection E as <- <-. by exists [], 0.
  - rewrite (judged_by_checkpoint _ _ _ _ Hn) in E. destruct s as [r w]. unfold _get_checkpoint_end in E. revert E. rw_unfold.
    intros [= <- <-]. eexists [_], _. split; [done|]. split; [exact Hh|]. intros _. left.
Qed.

Lemma verdict_status need s : status (verdict (W := W) need s).2.1 = (if need then NEED else NOT_NEED) ∧ events (verdict need s).2.1 = events s.1.
Proof. by destruct need. Qed.

(** A step that does not touch the status *)
Lemma step_inv {A B} (m : rwM (W := W) A) (f : A → rwM B) s final : same_status m → status s.1 ≠ NOT_NEED →
  ((m ≫= f) s).2 = final → status final.1 = NOT_NEED →
  ∃ a s1, m s = (Ok a, s1) ∧ status s1.1 ≠ NOT_NEED ∧ (f a s1).2 = final.
Proof.
  intros Hm Hs Hf Hn. apply (bind_inv _ _ _ (λ x, x = final)) in Hf as [(e & s1 & E & H)|(a & s1 & E & H)];
    pose proof (Hm s) as Hl; rewrite E in Hl; simpl in Hl; [congruence|]. exists a, s1. by rewrite Hl.
Qed.

(** C23: a check of the timelines ends with "no rewind" only when the leader's key calls it a primary (or it is a remote
    member), the node's timeline and position are known, and, by what was answered in this very check: the leader is not
    in recovery, and the primary is on the node's timeline, or it is on a later one and the history that it sent contains the
    position - a replica is not past the switch point, the checkpoint of a former primary ends at it, by the end that
    pg_waldump showed.  The other cases are an answer of the primary without a row, or a primary on timeline 1. *)
Theorem rewind_skipped_soundly leader (s : Rewind * W) :
  status s.1 ≠ NOT_NEED → status (_check_timeline_and_lsn cfg leader s).2.1 = NOT_NEED →
  role_is_primary leader = true ∧
  ∃ in_recovery tl lsn new, (_get_local_timeline_lsn s).1 = Ok (in_recovery, Some tl, Some lsn) ∧
    events (_check_timeline_and_lsn cfg leader s).2.1 = (new ++ events s.1)%list ∧
    not_in_recovery new ∧ excused in_recovery tl lsn new.
Proof.
  intros Hs H. set (final := (_check_timeline_and_lsn cfg leader s).2) in *. assert ((_check_timeline_and_lsn cfg leader s).2 = final) as Hf by done.
  clearbody final. unfold _check_timeline_and_lsn in Hf.
  apply (step_inv _ _ _ _ same_local Hs) in Hf as ([[in_recovery tl] lsn] & s1 & E & Hs1 & Hf); [|done].
  pose proof (local_keeps s) as K. rewrite E in K |- *. simpl in K.
  destruct tl as [tl|]; [|by destruct Hs1; rewrite <-Hf in H]. destruct lsn as [lsn|]; [|by destruct Hs1; rewrite <-Hf in H].
  destruct (role_is_primary leader); [|by destruct Hs1; rewrite <-Hf in H]. split; [done|]. exists in_recovery, tl, lsn. cbn [negb] in Hf.
  apply (step_inv _ _ _ _ (same_kwargs _ _) Hs1) in Hf as (kw & s2 & E2 & Hs2 & Hf); [|done].
  pose proof (kwargs_keeps leader (check_credentials cfg) s1) as K2. rewrite E2 in K2. simpl in K2.
  apply (step_inv _ _ _ _ (same_recovery _) Hs2) in Hf as (ok & s3 & E3 & Hs3 & Hf); [|done].
  pose proof (recovery_says kw s2) as K3. rewrite E3 in K3. destruct K3 as (a & K3 & Ha).
  destruct ok; [|by destruct Hs3; rewrite <-Hf in H]. specialize (Ha eq_refl). cbn [negb] in Hf.
  apply (step_inv _ _ _ _ (same_compare _ _) Hs3) in Hf as (r & s4 & E4 & Hs4 & Hf); [|done].
  destruct r as [[need text]|e]; [|by destruct Hs4; rewrite <-Hf in H].
  apply compare_says in E4 as (new & K4 & Hsaid). destruct text as [text|].
  - apply (step_inv _ _ _ _ (same_judge _ _ _ _) Hs4) in Hf as (n & s5 & E5 & Hs5 & Hf); [|done].
    destruct (verdict_status n s5) as [V1 V2]. rewrite Hf in V1, V2. destruct n; [congruence|].
    apply judge_says in E5 as (new' & e & K5 & Hh & He). destruct Hsaid as (p & Hp & Hlt & Ht).
    exists (new' ++ new ++ [LeaderInRecovery a])%list. split_and!; [done| | |].
    + rewrite V2, K5, K4, K3, K2, K, <-!app_assoc. done.
    + eapply not_in_recovery_lasting, Ha. set_solver.
    + right. exists p. split; [set_solver|]. right. split; [done|]. right; right. exists text, e. split_and!; [set_solver|done|].
      intros Hi. apply elem_of_app. left. by apply He.
  - destruct (verdict_status (default false need) s4) as [V1 V2]. rewrite Hf in V1, V2. destruct (default false need) eqn:En; [congruence|].
    exists (new ++ [LeaderInRecovery a])%list. split_and!; [done| | |].
    + rewrite V2, K4, K3, K2, K, <-app_assoc. done.
    + eapply not_in_recovery_lasting, Ha. set_solver.
    + destruct (Hsaid En) as [|(p & Hp & Hc)]; [left; set_solver|right]. exists p. split; [set_solver|]. set_solver.
Qed.
End check.

(** ** Runs of pg_rewind *)

Section guard.
Context {W : Type} `{!RewindNode W} (cfg : RewindConfig).

Lemma bind_ask {A B} (op : W → A * W) (f : A → rwM B) r w : (ask op ≫= f) (r, w) = f (op w).1 (r, (op w).2).
Proof. unfold ask, mbind, rwM_bind, eff_bind. simpl. by destruct (op w). Qed.

Lemma bind_lift {A B} (a : A) (f : A → rwM (W := W) B) s : (lift_exc (Ok a) ≫= f) s = f a s.
Proof. done. Qed.

Lemma bind_note {B} e (m : rwM (W := W) B) r w : (note e;; m) (r, w) = m (MkRewind (status r) (checkpoint_task r) (e :: events r), w).
Proof. done. Qed.

Lemma bind_assoc {A B C} (m : rwM (W := W) A) (f : A → rwM B) (g : B → rwM C) s : ((m ≫= f) ≫= g) s = (m ≫= (λ a, f a ≫= g)) s.
Proof. unfold mbind, rwM_bind, eff_bind. by destruct (m s) as [[a|e] s']. Qed.

(** C24: whenever pg_rewind is run in an execution, PostgreSQL was found not to run on this node or [stop] returned
    [True], and the leader has shown itself fit before: if its key says that it ran a checkpoint after its promotion, it answered
    that it is not in recovery; if its key says nothing, it answered that its checkpoint is on its timeline, or
    a checkpoint was run on it without an error; and if its key says that it did not run one, pg_rewind is not run. *)
Theorem rewind_guarded fuel leader (s : Rewind * W) new post ret pre :
  events (execute cfg fuel leader s).2.1 = (new ++ events s.1)%list → new = (post ++ RanRewind ret :: pre)%list →
  down pre ∧ shown leader pre.
Proof.
  intros Hnew Heq. destruct (execute_guarded cfg fuel leader s) as (n & Hn & Hg). rewrite Hnew in Hn. apply app_inv_tail in Hn as ->.
  by destruct (Hg _ _ _ Heq) as (? & ? & _).
Qed.

(** The loop around pg_rewind has no bound.  When pg_rewind keeps failing for the same missing WAL file and
    restore_command succeeds without making the file available, pg_rewind is run again for as long as the process lives:
    no number of attempts ends the loop. *)
Theorem rewind_retries_forever (stuck : W → Prop) cmd rc err f fuel (s : Rewind * W) :
  (∀ w, stuck w → (rn_call cmd w).1 = Ok (Some 1, ("", err)) ∧ stuck (rn_call cmd w).2) →
  _find_missing_wal (wal_name cfg) err = Some f →
  (∀ w, stuck w → let r := rn_call (rn_shlex (_build_archiver_command (wal_dir cfg) f rc)) w in (∃ io, r.1 = Ok (Some 0, io)) ∧ stuck r.2) →
  stuck s.2 →
  (pg_rewind_loop cfg fuel cmd (Some rc) false s).1 = Ok None ∧
  events (pg_rewind_loop cfg fuel cmd (Some rc) false s).2.1 = (replicate fuel (RanRewind (Some 1%Z)) ++ events s.1)%list.
Proof.
  intros Hc Hf Hr. revert s. induction fuel as [|fuel IH]; intros [r w] Hw; [done|].
  set (r1 := MkRewind (status r) (checkpoint_task r) (RanRewind (Some 1) :: events r)).
  assert (∃ w', stuck w' ∧ pg_rewind_loop cfg (S fuel) cmd (Some rc) false (r, w) = pg_rewind_loop cfg fuel cmd (Some rc) false (r1, w'))
    as (w' & Hw' & ->).
  { cbn [pg_rewind_loop]. unfold _fetch_missing_wal, call. rewrite bind_assoc, bind_ask. destruct (Hc w Hw) as [Hx Hw1].
    destruct (rn_call cmd w) as [x w1]. simpl in Hx, Hw1. subst x. cbn [fst snd]. rewrite bind_lift, bind_note. cbn [fst snd].
    rewrite Hf, !bind_assoc, bind_ask. destruct (Hr w1 Hw1) as [[io Hx] Hw2]. destruct (rn_call _ w1) as [x w2].
    simpl in Hx, Hw2. subst x. cbn [fst snd]. rewrite bind_lift. by exists w2. }
  destruct (IH (r1, w') Hw') as [H1 H2]. split; [exact H1|]. by rewrite H2, replicate_S_end, <-app_assoc.
Qed.
End guard.

(** ** A scripted node *)

(** What the programs and the connections return *)
Record Script := MkScript {
  s_position : option Z * option Z;        (* timeline and replayed position of the running replica *)
  s_identify : exc (option Z); s_history : exc (option string);
  s_rewind : option Z * (string * string); s_restore_command : option string;
}.

#[export] Instance script_node : RewindNode Script := {|
  rn_running _ := true;
  rn_stop w := (true, w);
  rn_is_primary _ := false;
  rn_controldata _ := [("wal_log_hints setting", "on")];
  rn_replica_timeline w := (s_position w).1;
  rn_replay_lsn w := (s_position w).2;
  rn_primary_timeline _ := 1;
  rn_control_timeline _ := None;
  rn_waldump _ _ _ _ := None;
  rn_has_pg_rewind _ := Ok 0;
  rn_conn_kwargs _ auth _ := auth;
  rn_leader_in_recovery _ w := (Ok (Some (VBool false)), w);
  rn_leader_checkpoint _ w := (Ok (Some (VBool true)), w);
  rn_identify_system _ w := (s_identify w, w);
  rn_timeline_history _ _ w := (s_history w, w);
  rn_checkpoint _ w := (Ok None, w);
  rn_guc name w := if (name =? "restore_command")%string then s_restore_command w else None;
  rn_recovery_restore_command w := s_restore_command w;
  rn_dsn _ := "host=leader";
  rn_call cmd w := (Ok (match cmd with "pg_rewind" :: _ => s_rewind w | _ => (Some 0, ("", "")) end), w);
  rn_cleanup_archive_status w := w;
  rn_remove_recovery_conf w := w;
  rn_postmaster_opts _ := None;
  rn_ready_files _ := Ok [];
  rn_isfile _ _ := false;
  rn_move _ _ w := w;
  rn_clean_replslot w := w;
  rn_remove_data w := w;
  rn_shlex s := Str.split_on " " s;
|}.

Definition script_config : RewindConfig :=
  MkRewindConfig "b" "postgres" (λ c, c) 120000 true false false "/etc" "/data" "/data/pg_wal" "wal" "/etc/postgresql.conf" [] [] [].

Definition leader_a : Leader :=
  MkLeader VNone VNone (MkMember VNone "a" VNone [("role", VStr "primary"); ("version", VStr "4.0.5"); ("conn_url", VStr "postgres://a:5432/postgres")]).

Definition tab : string := String (ascii_of_nat 9) "".
Definition missing_wal : string :=
  "could not open file " +:+ String dquote "/data/pg_wal/000000010000000000000007" +:+ String dquote ": No such file or directory".

(** A replica that replayed up to the switch point, and one whose pg_rewind misses a file *)
Definition script (history : string) : Script :=
  MkScript (Some 1, Some 100) (Ok (Some 2)) (Ok (Some history)) (Some 1, ("", missing_wal)) (Some "true %f %p").

Definition checking : Rewind := MkRewind CHECK None [].

Lemma rewind_skipped_soundly_witness :
  status (_check_timeline_and_lsn script_config (SLeader leader_a) (checking, script ("1" +:+ tab +:+ "0/64" +:+ tab +:+ "no recovery target"))).2.1 = NOT_NEED
  ∧ role_is_primary (SLeader leader_a) = true.
Proof.
  split; [vm_compute; reflexivity|].
  refine (proj1 (rewind_skipped_soundly script_config (SLeader leader_a)
    (checking, script ("1" +:+ tab +:+ "0/64" +:+ tab +:+ "no recovery target")) _ _)); [discriminate|vm_compute; reflexivity].
Defined.

Lemma rewind_guarded_witness :
  let pre := [LeaderInRecovery (Ok (Some (VBool false))); Stopped true; Running true] in
  down pre ∧ shown (SLeader leader_a) pre.
Proof.
  intros pre. exact (rewind_guarded script_config 1 (SLeader leader_a) (checking, script "") (RanRewind (Some 1) :: pre) [] (Some 1) pre eq_refl eq_refl).
Defined.

Lemma rewind_retries_forever_witness :
  (pg_rewind_loop script_config 50 ["pg_rewind"] (Some "true %f %p") false (checking, script "")).1 = Ok None.
Proof.
  refine (proj1 (rewind_retries_forever script_config (λ w, w = script "") ["pg_rewind"] "true %f %p" missing_wal
    "000000010000000000000007" 50 (checking, script "") _ _ _ _)); [by intros w ->|vm_compute; reflexivity|intros w ->; split; [by eexists|done]|done].
Defined.
