(* ===== verification/Failsafe.v ===== *)
(** * Failsafe mode ([patroni/ha.py], [Failsafe])

    What a node knows of a primary that goes on without the DCS: while it is fresh, the
    cluster the DCS shows without a leader gets the real one, and the replicas do not race
    for the lock. *)
From S2P Require Import Prelude PyDict PyVal Tags DcsData.

Open Scope string_scope.
Open Scope Z_scope.

(** [Failsafe]; a name that is not a string is outside the model. *)
Record Failsafe := MkFailsafe {
  _last_update : Z;
  _name : string;
  _conn_url : pyval;
  _api_url : pyval;
  _slots : pyval;
}.

(** [_reset_state] *)
Definition failsafe_reset : Failsafe := MkFailsafe 0 "" VNone VNone VNone.

(** [update_slots] *)
Definition update_slots (slots : dict pyval) (f : Failsafe) : Failsafe :=
  MkFailsafe (_last_update f) (_name f) (_conn_url f) (_api_url f) (VDict slots).

(** [update]: the fields are assigned one after the other, and a missing one raises. *)
Definition failsafe_update (now : Z) (data : dict pyval) (f : Failsafe) : exc () * Failsafe :=
  let f := MkFailsafe now (_name f) (_conn_url f) (_api_url f) (_slots f) in
  match Dict.get "name" data with
  | None => (Raise KeyError, f)
  | Some name =>
      let f := MkFailsafe now (py_str name) (_conn_url f) (_api_url f) (_slots f) in
      match Dict.get "conn_url" data with
      | None => (Raise KeyError, f)
      | Some conn =>
          let f := MkFailsafe now (py_str name) conn (_api_url f) (_slots f) in
          match Dict.get "api_url" data with
          | None => (Raise KeyError, f)
          | Some api => (Ok (), MkFailsafe now (py_str name) conn api (vget "slots" data))
          end
      end
  end.

(** [is_active] *)
Definition failsafe_is_active (now ttl : Z) (f : Failsafe) : bool := now <? _last_update f + ttl.

(** [leader] *)
Definition failsafe_leader (now ttl : Z) (f : Failsafe) : option Leader :=
  if failsafe_is_active now ttl f then
    Some (MkLeader (VStr "") (VStr "") (remote_member (_name f)
            [("api_url", _api_url f); ("conn_url", _conn_url f); ("slots", _slots f)]))
  else None.

(** [set_is_active]; the value is the time of the last update, or 0. *)
Definition set_is_active (value : Z) (f : Failsafe) : Failsafe :=
  if value =? 0 then failsafe_reset
  else MkFailsafe value (_name f) (_conn_url f) (_api_url f) (_slots f).

Section cluster.
Context `{!Datetime}.
Implicit Types (c : Cluster).

(** A member whose position the primary reported: [member.data['xlog_location'] = ...] *)
Definition with_position (slots : option (dict pyval)) (m : Member) : Member :=
  match slots with
  | Some sl =>
      match Dict.get (m_name m) sl with
      | Some lsn => if truthy (replicatefrom m)
                    then MkMember (m_version m) (m_name m) (m_session m) (Dict.set "xlog_location" lsn (m_data m))
                    else m
      | None => m
      end
  | None => m
  end.

(** [update_cluster] *)
Definition update_cluster (now ttl : Z) (f : Failsafe) c : Cluster :=
  match failsafe_leader now ttl f with
  | None => c
  | Some l =>
      let slots := as_dict (_slots f) in
      let status := MkStatus (last_lsn (status c)) slots (retain_slots (status c)) in
      MkCluster (initialize c) (config c) (Some l) status (map (with_position slots) (members c)) (failover c) (sync c)
        (history c) (failsafe c) (workers c)
  end.

(** ** Properties *)

Lemma leader_update_cluster now ttl f c : failsafe_is_active now ttl f = true →
  leader_name (update_cluster now ttl f c) = Some (_name f).
Proof. intros Hact. unfold update_cluster, failsafe_leader. by rewrite Hact. Qed.

Lemma with_position_name slots m : m_name (with_position slots m) = m_name m.
Proof. unfold with_position. by repeat case_match. Qed.

(** For [ttl] seconds after a primary's [POST /failsafe] the node sees a cluster led by that
    primary, with the DCS's members, configuration and synchronous state; after that, or
    once it has reset the state, it sees the cluster as the DCS shows it. *)
Theorem failsafe_injects_leader (t now ttl : Z) data f name conn api c :
  Dict.get "name" data = Some (VStr name) → Dict.get "conn_url" data = Some conn → Dict.get "api_url" data = Some api →
  let f' := (failsafe_update t data f).2 in
  let c' := update_cluster now ttl f' c in
  (now < t + ttl → leader_name c' = Some name ∧ (name ≠ "" → is_unlocked c' = false) ∧
     m_name <$> members c' = m_name <$> members c ∧ config c' = config c ∧ sync c' = sync c) ∧
  (t + ttl ≤ now → c' = c) ∧
  (ttl ≤ now → update_cluster now ttl (set_is_active 0 f') c = c).
Proof.
  intros Hn Hc Ha. unfold failsafe_update. rewrite Hn, Hc, Ha. cbn -[update_cluster]. split_and!.
  - intros Hlt. assert (failsafe_is_active now ttl (MkFailsafe t name conn api (vget "slots" data)) = true) as Hact.
    { unfold failsafe_is_active. simpl. lia. }
    pose proof (leader_update_cluster _ _ _ c Hact) as Hl. split_and!; [done| | |..].
    + intros Hne. unfold is_unlocked. rewrite Hl. by apply String.eqb_neq.
    + unfold update_cluster, failsafe_leader. rewrite Hact. cbn [members]. rewrite <-list_fmap_compose.
      apply list_fmap_ext. intros i m _. apply with_position_name.
    + unfold update_cluster, failsafe_leader. by rewrite Hact.
    + unfold update_cluster, failsafe_leader. by rewrite Hact.
  - intros Hle. unfold update_cluster, failsafe_leader, failsafe_is_active. simpl. by destruct (Z.ltb_spec now (t + ttl)); [lia|].
  - intros Hle. unfold update_cluster, failsafe_leader, failsafe_is_active. simpl. by destruct (Z.ltb_spec now (0 + ttl)); [lia|].
Qed.
End cluster.

Lemma failsafe_injects_leader_witness :
  is_unlocked (update_cluster 105 30 (failsafe_update 100 [("name", VStr "a"); ("conn_url", VNone); ("api_url", VNone)] failsafe_reset).2
                 (cluster_empty (H := text_datetime))) = false.
Proof.
  apply (failsafe_injects_leader (H := text_datetime) 100 105 30 [("name", VStr "a"); ("conn_url", VNone); ("api_url", VNone)]
           failsafe_reset "a" VNone VNone cluster_empty eq_refl eq_refl eq_refl); [lia|done].
Defined.
