(* ===== verification/Race.v ===== *)
(** * The leader race ([patroni/ha.py])

    What a node asks of the others before it takes the leader lock: their status, the
    comparison of positions, the votes with quorum commit, and the rules of a manual
    failover.  [RaceNode] is the interface of the node itself: its PostgreSQL or MySQL, its
    configuration, its REST client and its watchdog, in a state [W] of the world. *)
From S2P Require Import Prelude PyDict PyVal Effects Collections Utils Tags DcsData GlobalConfig.

Open Scope string_scope.
Open Scope Z_scope.

(** ** The status of a member *)

(** [_MemberStatus] *)
Record _MemberStatus := MkStatusOf {
  st_member : Member; reachable : bool; in_recovery : option bool; wal_position : Z; st_data : dict pyval;
}.

#[export] Instance status_tags : Tags _MemberStatus := λ st,
  match vget_or "tags" (VDict []) (st_data st) with VDict d => d | _ => [] end.

Definition st_timeline (st : _MemberStatus) : pyval := vget_or "timeline" (VInt 0) (st_data st).
Definition watchdog_failed (st : _MemberStatus) : pyval := vget_or "watchdog_failed" (VBool false) (st_data st).

(** [_MemberStatus.unknown] *)
Definition status_unknown (m : Member) : _MemberStatus := MkStatusOf m false None 0 [].

(** A number of Python: comparisons with anything else raise [TypeError] *)
Definition as_num (v : pyval) : exc Z :=
  match v with VInt z => Ok z | VBool b => Ok (if b then 1 else 0) | _ => Raise TypeError end.

Fixpoint max_num (l : list pyval) : exc Z :=
  match l with
  | [] => Ok 0
  | [v] => as_num v
  | v :: l' => a ← as_num v; b ← max_num l'; mret (Z.max a b)
  end.

(** The first of the keys whose value is not [None] *)
Definition wal_section (json : dict pyval) : exc pyval :=
  match List.filter (λ k, negb (pyval_eqb (vget k json) VNone)) ["wal"; "xlog"; "binlog"] with
  | k :: _ => Ok (vget k json)
  | [] => Raise KeyError
  end.

(** [_MemberStatus.from_api_response]; a document that is not a dictionary raises *)
Definition from_api_response (m : Member) (json : pyval) : exc _MemberStatus :=
  match json with
  | VDict json =>
      wal ← wal_section json;
      match wal with
      | VDict wal =>
          let pg_primary := bool_decide (vget "role" json ∈ [VStr "master"; VStr "primary"]) in
          let recovering := negb (truthy (vget "location" wal) || truthy (vget "binlog_position" wal) || pg_primary) in
          lsn ← (if recovering
                 then max_num (map (λ k, vget_or k (VInt 0) wal)
                        ["received_location"; "replayed_location"; "receive_binlog_position"; "replay_binlog_position"])
                 else mret 0);
          mret (MkStatusOf m true (Some recovering) lsn json)
      | _ => Raise AttributeError
      end
  | _ => Raise TypeError
  end.

(** [failover_limitation]: whether there is one *)
Definition failover_limitation (st : _MemberStatus) : exc bool :=
  if negb (reachable st) then mret true else
  nofail ← nofailover st;
  mret (nofail || truthy (watchdog_failed st)).

(** ** The node *)

Class RaceNode (W : Type) := {
  node_name : W → string;
  node_tags : W → dict pyval;
  now : W → Z;
  ttl : W → Z;
  has_timelines : W → bool;
  supports_multiple_sync : W → bool;
  sysid : W → string;
  is_primary : W → bool;
  is_starting : W → bool;
  get_primary_timeline : W → option Z;
  replica_cached_timeline : Z → W → option Z;
  last_operation : W → Z;
  use_gtid : W → bool;
  get_executed_gtid : W → string;
  gtid_relation : W → string → string → string;
  watchdog_is_healthy : W → bool;
  failsafe_key : W → option (dict pyval);
  request : Member → W → exc pyval;
  as_completed : W → list _MemberStatus → list _MemberStatus;
  as_completed_perm : ∀ w l, as_completed w l ≡ₚ l;
  clear_failover : pyval → W → exc () * W;
}.

(** The part of [Ha] the race reads and changes; [old_cluster] is [None] when it is the same
    object as [cluster]. *)
Record Ha `{!Datetime} := MkHa {
  cluster : Cluster;
  old_cluster : option Cluster;
  _last_timeline : option Z;
  _released_leader_key_timestamp : Z;
}.
Arguments MkHa {_} _ _ _ _.

Section race.
Context `{!Datetime} {W : Type} `{!RaceNode W} (g : GlobalConfig).
Implicit Types (h : Ha) (w : W) (c : Cluster).

Definition haM (A : Type) : Type := eff (Ha * W) A.
#[global] Instance haM_ret : MRet haM := eff_ret _.
#[global] Instance haM_bind : MBind haM := eff_bind _.

Definition ha : haM Ha := gets fst.
Definition world : haM W := gets snd.
Definition update_ha (f : Ha → Ha) : haM () := puts (λ s, (f s.1, s.2)).

(** [sync_mode_is_active], [quorum_commit_mode_is_active] *)
Definition sync_mode_is_active c : bool := is_synchronous_mode g && negb (s_is_empty (sync c)).
Definition is_quorum_commit_mode_here w : bool := is_quorum_commit_mode g && supports_multiple_sync w.
Definition quorum_commit_mode_is_active w c : bool := is_quorum_commit_mode_here w && negb (s_is_empty (sync c)).

(** [is_lagging] *)
Definition is_lagging c (wal : Z) : exc bool :=
  maxlag ← maximum_lag_on_failover g; mret (maxlag <? last_lsn (status c) - wal).

(** [fetch_node_status]; [fetch_nodes_statuses]: in the order in which they arrive *)
Definition fetch_node_status w (m : Member) : _MemberStatus :=
  match (json ← request m w; from_api_response m json) with
  | Ok st => st
  | Raise _ => status_unknown m
  end.

Definition fetch_nodes_statuses w (members : list Member) : list _MemberStatus :=
  as_completed w (map (fetch_node_status w) members).

(** ** The comparison with one member *)

(** What the loop of [_is_healthiest_node] knows *)
Record race_env := MkEnv {
  my_wal : Z; my_gtid : string; gtid : bool; sync_active : bool; quorum_active : bool;
  sync_key : SyncState; voting_set : CISet.t; leader_name : pyval; my_tags : dict pyval;
}.

(** The GTID set a member reports *)
Definition peer_gtid (st : _MemberStatus) : exc string :=
  match py_or (vget "binlog" (st_data st)) (VDict []) with
  | VDict binlog =>
      mret (py_str (py_or (vget "gtid_set" binlog) (py_or (vget "gtid_executed" binlog)
        (py_or (vget "gtid_executed" (st_data st))
           (py_or (vget "gtid_executed" (m_data (st_member st))) (VStr ""))))))
  | _ => Raise AttributeError
  end.

(** A member ahead of this node: only the former leader is ignored. [None] is [return False]. *)
Definition member_ahead (e : race_env) (st : _MemberStatus) (votes ahead : Z) : exc (option (Z * Z)) :=
  former ← (if sync_active e then leader_matches (sync_key e) (Some (m_name (st_member st))) else mret false);
  mret (if former : bool then Some (votes, ahead + 1) else None).

(** A member that is not ahead: its vote, unless it is as good and has a higher priority *)
Definition member_vote (e : race_env) (st : _MemberStatus) (same : bool) (votes ahead : Z) : exc (option (Z * Z)) :=
  let vote := CISet.mem (m_name (st_member st)) (voting_set e) in
  low ← (if same : bool
         then mine ← failover_priority (my_tags e); theirs ← failover_priority st; mret (mine <? theirs)
         else mret false);
  let former := truthy (leader_name e) && pyval_eqb (leader_name e) (VStr (m_name (st_member st))) in
  if (low : bool) && negb former && (negb (quorum_active e) || vote) then mret None
  else mret (Some ((if vote then votes + 1 else votes), ahead)).

(** One round of the loop; [w] is only used for [gtid_relation] *)
Definition race_step w (e : race_env) (st : _MemberStatus) (votes ahead : Z) : exc (option (Z * Z)) :=
  limited ← failover_limitation st;
  if limited : bool then mret (Some (votes, ahead)) else
  if bool_decide (in_recovery st = Some false) then mret None else
  peer ← (if gtid e && negb (my_gtid e =? "")%string then peer_gtid st else mret "");
  let rel := if (peer =? "")%string then "" else gtid_relation w (my_gtid e) peer in
  if (rel =? "b_ahead")%string then member_ahead e st votes ahead
  else if (rel =? "a_ahead")%string || (rel =? "equal")%string then
    member_vote e st (rel =? "equal")%string votes ahead
  else if my_wal e <? wal_position st then member_ahead e st votes ahead
  else if 0 <? wal_position st then member_vote e st (my_wal e =? wal_position st) votes ahead
  else mret (Some (votes, ahead)).

Fixpoint race_loop w (e : race_env) (l : list _MemberStatus) (votes ahead : Z) : exc (option (Z * Z)) :=
  match l with
  | [] => mret (Some (votes, ahead))
  | st :: l' =>
      r ← race_step w e st votes ahead;
      match r with
      | Some (votes, ahead) => race_loop w e l' votes ahead
      | None => mret None
      end
  end.

(** ** The race *)

(** [CaseInsensitiveSet(self.cluster.sync.members)] *)
Definition voters_and_leader (s : SyncState) : exc CISet.t :=
  l ← sync_members s; names ← need_strs l; mret (CISet.of_list names).

(** The members to ask *)
Definition race_members w (voting : CISet.t) (members : list Member) : exc (list Member) :=
  filterM (λ m,
    if negb (m_name m =? node_name w)%string && truthy (api_url m) then
      nofail ← nofailover m; mret (negb nofail || CISet.mem (m_name m) voting)
    else mret false) members.

(** The checks on timelines: whether the node may go on *)
Definition timeline_ok w c (my_timeline : option Z) : bool :=
  if has_timelines w && negb (is_standby_cluster g) && check_mode g "check_timeline" then
    match my_timeline with Some t => negb (t <? timeline c) | None => false end
  else true.

Definition nonzero (o : option Z) : bool := match o with Some n => negb (n =? 0) | None => false end.

(** [_is_healthiest_node] after the checks on the node itself *)
Definition wins_race w c (members : list Member) (lead : option Leader) : exc bool :=
  let quorum_active := quorum_commit_mode_is_active w c in
  let quorum := if quorum_active then s_quorum (sync c) else 0 in
  voting ← (if quorum_active then voters_and_leader (sync c) else mret CISet.empty);
  members ← race_members w voting members;
  let sync_active := sync_mode_is_active c in
  let leader_name := if sync_active then s_leader (sync c)
                     else match lead with Some l => VStr (l_name l) | None => VNone end in
  let e := MkEnv (last_operation w) (if use_gtid w then get_executed_gtid w else "") (use_gtid w)
             sync_active quorum_active (sync c) voting leader_name (node_tags w) in
  r ← race_loop w e (fetch_nodes_statuses w members) (if CISet.mem (node_name w) voting then 0 else -1) 0;
  mret (match r with
        | Some (votes, ahead) =>
            negb quorum_active || (quorum <=? votes) ||
            ((ahead =? 0) && pyval_eqb (s_leader (sync c)) (VStr (node_name w)))
        | None => false
        end).

(** [_is_healthiest_node] *)
Definition _is_healthiest_node (members : list Member) (check_replication_lag : bool) (lead : option Leader) : haM bool :=
  h ← ha; w ← world;
  let c := cluster h in
  let my_timeline := replica_cached_timeline (timeline c) w in
  (if nonzero my_timeline
   then update_ha (λ h, MkHa (cluster h) (old_cluster h) my_timeline (_released_leader_key_timestamp h))
   else mret ());;
  lagging ← lift_exc (if check_replication_lag then is_lagging c (last_operation w) else mret false);
  if lagging : bool then mret false else
  if negb (timeline_ok w c my_timeline) then mret false else
  lift_exc (wins_race w c members lead).

(** ** Failover candidates *)

(** The test [is_eligible] of [get_failover_candidates] *)
Definition is_eligible w c (exclude_failover_candidate : bool) (m : Member) : exc bool :=
  let fo := match failover c with Some f => if failover_truthy f then Some f else None | None => None end in
  matched ← (if sync_mode_is_active c then matches (sync c) (Some (m_name m)) false else mret true);
  let manual := match fo with Some f => negb (truthy (f_leader f)) | None => false end in
  if sync_mode_is_active c && negb matched && negb manual then mret false else
  let excluded := (m_name m =? node_name w)%string ||
    match fo with
    | Some f => exclude_failover_candidate && pyval_eqb (f_candidate f) (VStr (m_name m))
    | None => false
    end in
  if excluded then mret false else
  nofail ← nofailover m;
  mret (negb nofail && truthy (api_url m) &&
        (exclude_failover_candidate ||
         match fo with
         | Some f => negb (truthy (f_candidate f)) || pyval_eqb (VStr (m_name m)) (f_candidate f)
         | None => true
         end)).

(** [get_failover_candidates] *)
Definition get_failover_candidates w c (exclude_failover_candidate : bool) : exc (list Member) :=
  filterM (is_eligible w c exclude_failover_candidate) (members c).

(** Whether a candidate's status allows a failover to it *)
Definition candidate_ok c (cluster_lsn : Z) (st : _MemberStatus) : exc bool :=
  limited ← failover_limitation st;
  if limited : bool then mret false else
  lagging ← (if cluster_lsn =? 0 then is_lagging c (wal_position st) else mret (wal_position st <? cluster_lsn));
  if lagging : bool then mret false else
  if check_mode g "check_timeline" then
    if truthy (st_timeline st) then t ← as_num (st_timeline st); mret (negb (t <? timeline c)) else mret false
  else mret true.

Fixpoint count_ok c (cluster_lsn : Z) (l : list _MemberStatus) (votes : Z) : exc Z :=
  match l with
  | [] => mret votes
  | st :: l' =>
      ok ← candidate_ok c cluster_lsn st;
      count_ok c cluster_lsn l' (if ok : bool then votes + 1 else votes)
  end.

(** [is_failover_possible] *)
Definition is_failover_possible w c (cluster_lsn : Z) (exclude_failover_candidate : bool) : exc bool :=
  candidates ← get_failover_candidates w c exclude_failover_candidate;
  votes ← count_ok c cluster_lsn (fetch_nodes_statuses w candidates) (-1);
  let to_candidate := match failover c with
                      | Some f => failover_truthy f && truthy (f_candidate f) && negb exclude_failover_candidate
                      | None => false
                      end in
  let check_quorum := quorum_commit_mode_is_active w c && negb to_candidate in
  mret (if check_quorum && (votes <? s_quorum (sync c)) then false else 0 <=? votes).

(** ** Manual failover without a leader *)

(** Whether the candidate of the request is healthy, when it is a member *)
Definition candidate_healthy w c (f : Failover) : exc bool :=
  match find_member c (f_candidate f) with
  | Some m => limited ← failover_limitation (fetch_node_status w m); mret (negb limited)
  | None => mret false
  end.

(** The end of [manual_failover_process_no_leader], once the candidate is ruled out *)
Definition race_for_switchover (f : Failover) : haM (option bool) :=
  h ← ha; w ← world;
  let c := cluster h in
  if truthy (f_leader f) && pyval_eqb (VStr (node_name w)) (f_leader f) then
    possible ← lift_exc (is_failover_possible w c 0 (truthy (f_candidate f)));
    mret (Some (negb possible))
  else
    members ← lift_exc (filterM (λ m,
      if pyval_eqb (VStr (m_name m)) (f_leader f) then mret false
      else if sync_mode_is_active c then matches (sync c) (Some (m_name m)) false else mret true) (members c));
    r ← _is_healthiest_node members false None;
    mret (Some r).

(** [self.dcs.manual_failover('', '', version=failover.version)] *)
Definition remove_failover_key (f : Failover) : haM () := λ s,
  let '(r, w) := clear_failover (f_version f) s.2 in (r, (s.1, w)).

(** [manual_failover_process_no_leader] *)
Definition manual_failover_process_no_leader (f : Failover) : haM (option bool) :=
  h ← ha; w ← world;
  let c := cluster h in
  if truthy (f_candidate f) then
    if pyval_eqb (f_candidate f) (VStr (node_name w)) then mret (Some true)
    else if is_paused g then
      if is_none (find_member c (f_candidate f)) && is_primary w then
        remove_failover_key f;; mret None
      else mret (Some false)
    else
      here ← lift_exc (if is_synchronous_mode g && negb (is_quorum_commit_mode_here w)
                       then matches (sync c) (Some (node_name w)) true else mret true);
      if negb here then mret (Some false) else
      healthy ← lift_exc (candidate_healthy w c f);
      if healthy : bool then mret (Some false) else race_for_switchover f
  else if is_paused g then mret (Some false)
  else race_for_switchover f.

(** ** The decision *)

Definition set_members (l : list Member) c : Cluster :=
  MkCluster (initialize c) (config c) (leader c) (status c) l (failover c) (sync c) (history c) (failsafe c) (workers c).

(** [self.old_cluster.members], and its extension in place: [+=] on the list extends the
    object, so the members of the old cluster - and those of the cluster, when it is the
    same object - keep what is added. *)
Definition the_old_cluster h : Cluster := default (cluster h) (old_cluster h).
Definition extend_old_members (l : list Member) h : Ha :=
  match old_cluster h with
  | Some c => MkHa (cluster h) (Some (set_members (members c ++ l) c)) (_last_timeline h) (_released_leader_key_timestamp h)
  | None => MkHa (set_members (members (cluster h) ++ l) (cluster h)) None (_last_timeline h)
              (_released_leader_key_timestamp h)
  end.

(** [{m.name: m for m in l}.values()] *)
Definition distinct_members (l : list Member) : list Member :=
  Dict.values (Dict.of_items (map (λ m, (m_name m, m)) l)).

(** [RemoteMember(name, {'api_url': url})] for the failsafe topology *)
Definition failsafe_members (f : dict pyval) : list Member :=
  map (λ kv, remote_member kv.1 [("api_url", kv.2)]) f.

(** The members to race against: [None] when the node is not in the failsafe topology *)
Definition all_known_members : haM (option (list Member)) :=
  w ← world;
  let fs := if check_mode g "failsafe_mode" then failsafe_key w else None in
  match fs with
  | Some f =>
      if negb (length f =? 0)%nat && negb (Dict.mem (node_name w) f) then mret None
      else update_ha (extend_old_members (failsafe_members f));;
           h ← ha; update_ha (extend_old_members (members (cluster h)));;
           h ← ha; mret (Some (members (the_old_cluster h)))
  | None =>
      h ← ha; update_ha (extend_old_members (members (cluster h)));;
      h ← ha; mret (Some (members (the_old_cluster h)))
  end.

(** The usual race, with no failover request and a usable watchdog *)
Definition race_all : haM bool :=
  known ← all_known_members;
  match known with
  | None => mret false
  | Some l =>
      h ← ha; w ← world;
      let c := cluster h in
      let lead := leader (the_old_cluster h) in
      if sync_mode_is_active c then
        here ← lift_exc (if is_quorum_commit_mode_here w then mret true
                         else matches (sync c) (Some (node_name w)) true);
        if negb here then mret false else
        l ← lift_exc (filterM (λ m, matches (sync c) (Some (m_name m)) true) l);
        _is_healthiest_node (distinct_members l) true lead
      else _is_healthiest_node (distinct_members l) true lead
  end.

(** A primary without the lock *)
Definition primary_is_healthiest w c : bool :=
  if is_paused g then
    match initialize c with Some i => (i =? "")%string || (sysid w =? i)%string | None => true end
  else if has_timelines w then
    match get_primary_timeline w with Some t => negb (t <? timeline c) | None => false end
  else true.

(** A failover request that is not falsy *)
Definition requested c : option Failover :=
  match failover c with Some f => if failover_truthy f then Some f else None | None => None end.

(** The replica's part of [is_healthiest_node] *)
Definition replica_is_healthiest : haM bool :=
  h ← ha; w ← world;
  let c := cluster h in
  if is_paused g then mret false else
  nofail ← lift_exc (nofailover (node_tags w));
  if nofail : bool then mret false else
  match requested c with
  | Some f =>
      here ← lift_exc (if truthy (f_leader f) && sync_mode_is_active c
                       then matches (sync c) (Some (node_name w)) true else mret true);
      if negb here then mret false else
      r ← manual_failover_process_no_leader f;
      mret (default false (r : option bool))
  | None => if negb (watchdog_is_healthy w) then mret false else race_all
  end.

(** [is_healthiest_node] *)
Definition is_healthiest_node : haM bool :=
  h ← ha; w ← world;
  let c := cluster h in
  if now w - _released_leader_key_timestamp h <? ttl w then mret false else
  manual ← (match requested c with
            | Some f =>
                if is_paused g then
                  nofail ← lift_exc (nofailover (node_tags w));
                  if negb nofail && is_none (f_scheduled_at f)
                  then manual_failover_process_no_leader f else mret None
                else mret None
            | None => mret None
            end : haM (option bool));
  match manual with
  | Some r => mret r
  | None =>
      if is_starting w then mret false
      else if is_primary w then mret (primary_is_healthiest w c)
      else replica_is_healthiest
  end.
End race.
