(* ===== verification/RaceProps.v ===== *)
(** * Properties of the leader race

    With quorum commit the winner of the race holds every acknowledged commit: the votes it
    gathered meet the nodes that acknowledged it, by the consistency the quorum resolver
    keeps.  Without it no reachable candidate is better. *)
From S2P Require Import Prelude PyDict PyVal Effects Collections Utils Tags DcsData GlobalConfig SyncProps Quorum QuorumSafety Race.

Open Scope string_scope.
Open Scope Z_scope.

Definition member_key (m : Member) : string := Str.lower (m_name m).

Section loop.
Context {W : Type} `{!RaceNode W} (w : W) (e : race_env).
Implicit Types (st : _MemberStatus) (l : list _MemberStatus).

(** A status that counts as a vote, and one that does not stop the race *)
Definition votes_for_me st : Prop :=
  reachable st = true ∧ in_recovery st ≠ Some false ∧ CISet.mem (m_name (st_member st)) (voting_set e) = true ∧
  0 < wal_position st ∧ wal_position st <= my_wal e.

Definition harmless st : Prop :=
  failover_limitation st = Ok false → in_recovery st ≠ Some false ∧
  (my_wal e < wal_position st →
     sync_active e = true ∧ leader_matches (sync_key e) (Some (m_name (st_member st))) = Ok true) ∧
  (0 < wal_position st → my_wal e = wal_position st →
     (∃ p p', failover_priority (my_tags e) = Ok p ∧ failover_priority st = Ok p' ∧ p' <= p) ∨
     leader_name e = VStr (m_name (st_member st)) ∨
     quorum_active e = true ∧ CISet.mem (m_name (st_member st)) (voting_set e) = false).

Hypothesis no_gtid : gtid e = false.

Lemma race_step_cases st votes ahead votes' ahead' :
  race_step w e st votes ahead = Ok (Some (votes', ahead')) →
  harmless st ∧ (votes' = votes ∨ votes' = votes + 1 ∧ votes_for_me st).
Proof.
  unfold race_step. destruct (failover_limitation st) as [[]|] eqn:Hlim; simpl; [|..|done].
  { intros [= <- <-]. split; [|by left]. unfold harmless. congruence. }
  case_bool_decide as Hrec; [done|]. rewrite no_gtid. simpl.
  assert (reachable st = true) as Hreach by (unfold failover_limitation in Hlim; by destruct (reachable st)).
  destruct (Z.ltb_spec (my_wal e) (wal_position st)) as [Hlt|Hge].
  - unfold member_ahead. destruct (sync_active e) eqn:Hs; [|done].
    destruct (leader_matches (sync_key e) _) as [[]|] eqn:Hl; simpl; [|done|done]. intros [= <- <-].
    split; [|by left]. intros _. split_and!; [done|by intros _|lia].
  - destruct (Z.ltb_spec 0 (wal_position st)) as [Hpos|Hneg].
    2: { intros [= <- <-]. split; [|by left]. intros _. split_and!; [done|lia|lia]. }
    unfold member_vote. destruct (Z.eqb_spec (my_wal e) (wal_position st)) as [Heq|Hne].
    + destruct (failover_priority (my_tags e)) as [p|] eqn:Hp; simpl; [|done].
      destruct (failover_priority st) as [p'|] eqn:Hp'; simpl; [|done].
      destruct (Z.ltb_spec p p') as [Hlow|Hok]; simpl.
      * destruct (truthy (leader_name e) && _) eqn:Hf; simpl.
        -- apply andb_prop in Hf as [_ Hf%pyval_eqb_eq]. intros [= <- <-].
           split; [intros _; split_and!; [done|lia|by right; left]|].
           destruct (CISet.mem _ _) eqn:Hm; [right|by left]. by split.
        -- destruct (quorum_active e) eqn:Hq; simpl; [|done]. destruct (CISet.mem _ _) eqn:Hm; [done|].
           intros [= <- <-]. split; [|by left]. intros _. split_and!; [done|lia|]. intros _ _. right. by right.
      * intros [= <- <-]. split; [intros _; split_and!; [done|lia|]; intros _ _; left; by exists p, p'|].
        destruct (CISet.mem _ _) eqn:Hm; [right|by left]. by split.
    + simpl. intros [= <- <-]. split; [intros _; split_and!; [done|lia|lia]|].
      destruct (CISet.mem _ _) eqn:Hm; [right|by left]. by split.
Qed.

Lemma race_loop_votes l votes ahead votes' ahead' :
  race_loop w e l votes ahead = Ok (Some (votes', ahead')) →
  Forall harmless l ∧ ∃ voted, sublist voted l ∧ votes' = votes + Z.of_nat (length voted) ∧ Forall votes_for_me voted.
Proof.
  revert votes ahead. induction l as [|st l IH]; intros votes ahead; simpl.
  { intros [= <- <-]. split; [constructor|]. exists []. split_and!; [done|simpl; lia|constructor]. }
  destruct (race_step w e st votes ahead) as [[[v a]|]|] eqn:Hs; simpl; [|done|done].
  intros Hl. destruct (IH _ _ Hl) as (Hh & voted & Hsub & Hv & Hall).
  destruct (race_step_cases _ _ _ _ _ Hs) as [Hst [->|[-> Hvote]]]; (split; [by constructor|]).
  - exists voted. split_and!; [by constructor|done|done].
  - exists (st :: voted). split_and!; [by constructor|simpl; lia|by constructor].
Qed.
End loop.

Section race.
Context `{!Datetime} {W : Type} `{!RaceNode W} (g : GlobalConfig).
Implicit Types (c : Cluster) (w : W) (m : Member).

Lemma st_member_fetch w m : st_member (fetch_node_status w m) = m.
Proof.
  unfold fetch_node_status. destruct (request m w) as [json|]; simpl; [|done].
  destruct (from_api_response m json) as [st|] eqn:E; [|done]. unfold from_api_response in E.
  destruct json as [| | | | |d]; try done. destruct (wal_section d) as [wal|]; simpl in E; [|done].
  destruct wal as [| | | | |wal]; try done. cbv zeta in E.
  match type of E with context [mbind _ ?r] => destruct r; simpl in E; [|done] end. by injection E as <-.
Qed.

Lemma fetched_elem w l st : st ∈ fetch_nodes_statuses w l → ∃ m, m ∈ l ∧ st = fetch_node_status w m.
Proof.
  unfold fetch_nodes_statuses. rewrite as_completed_perm. intros (m & -> & Hm)%list_elem_of_fmap_1. by exists m.
Qed.

(** The members asked *)
Lemma race_members_elem w voting l l' m : race_members w voting l = Ok l' → m ∈ l' →
  m ∈ l ∧ m_name m ≠ node_name w ∧ truthy (api_url m) = true.
Proof.
  intros Hl Hm. destruct (filterM_elem _ _ _ _ Hl Hm) as [Hin Hp]. split; [done|].
  destruct (String.eqb_spec (m_name m) (node_name w)); simpl in Hp; [done|]. by destruct (truthy (api_url m)).
Qed.

Lemma filterM_sublist {A} (p : A → exc bool) l l' : filterM p l = Ok l' → sublist l' l.
Proof.
  revert l'. induction l as [|x l IH]; intros l'; simpl; [by intros [= <-]|].
  destruct (p x) as [b|]; simpl; [|done]. destruct (filterM p l) as [r|]; simpl; [|done].
  intros [= <-]. destruct b; constructor; auto.
Qed.

Lemma filterM_keeps {A} (p : A → exc bool) l l' x : filterM p l = Ok l' → x ∈ l → p x = Ok true → x ∈ l'.
Proof.
  revert l'. induction l as [|y l IH]; intros l'; simpl; [by intros _ ?%elem_of_nil|].
  destruct (p y) as [b|] eqn:E; simpl; [|done]. destruct (filterM p l) as [r|]; simpl; [|done].
  intros [= <-] [->|Hx]%elem_of_cons Hp; [rewrite Hp in E; injection E as <-; constructor|].
  destruct b; [constructor|]; by apply IH.
Qed.

Lemma all_known_members_world h w r s : all_known_members g (h, w) = (r, s) →
  s.2 = w ∧ DcsData.sync (cluster s.1) = DcsData.sync (cluster h).
Proof.
  assert (∀ l h0, DcsData.sync (cluster (extend_old_members l h0)) = DcsData.sync (cluster h0)) as He
    by (intros l h0; unfold extend_old_members; by destruct (old_cluster h0)).
  unfold all_known_members, world, gets, update_ha, puts, ha, mbind, haM_bind, eff_bind. simpl.
  destruct (if check_mode g "failsafe_mode" then _ else _) as [f|]; simpl.
  - destruct (_ && _); intros [= <- <-]; simpl; [done|]. by rewrite !He.
  - intros [= <- <-]. simpl. by rewrite He.
Qed.

(** What a successful race shows *)
Lemma wins_race_inv w c members lead : wins_race g w c members lead = Ok true → use_gtid w = false →
  ∃ voting asked e voted, (if quorum_commit_mode_is_active g w c then voters_and_leader (DcsData.sync c) = Ok voting else voting = CISet.empty) ∧
    race_members w voting members = Ok asked ∧ my_wal e = last_operation w ∧ voting_set e = voting ∧
    my_tags e = node_tags w ∧ sync_active e = sync_mode_is_active g c ∧ quorum_active e = quorum_commit_mode_is_active g w c ∧
    sync_key e = DcsData.sync c ∧
    leader_name e = (if sync_mode_is_active g c then s_leader (DcsData.sync c)
                     else match lead with Some l => VStr (l_name l) | None => VNone end) ∧
    Forall (harmless e) (fetch_nodes_statuses w asked) ∧
    sublist voted (fetch_nodes_statuses w asked) ∧ Forall (votes_for_me e) voted ∧
    (quorum_commit_mode_is_active g w c = true →
       s_quorum (DcsData.sync c) <= (if CISet.mem (node_name w) voting then 0 else -1) + Z.of_nat (length voted) ∨
       s_leader (DcsData.sync c) = VStr (node_name w)).
Proof.
  unfold wins_race. intros Hw Hg. rewrite Hg in Hw.
  destruct (if quorum_commit_mode_is_active g w c then voters_and_leader (DcsData.sync c) else mret CISet.empty)
    as [voting|] eqn:Hv; simpl in Hw; [|done].
  destruct (race_members w voting members) as [asked|] eqn:Ha; simpl in Hw; [|done].
  match type of Hw with context [race_loop w ?e0 _ _ _] => set (e := e0) in Hw end.
  destruct (race_loop w e _ _ _) as [[[votes ahead]|]|] eqn:Hl; simpl in Hw; [|done|done].
  destruct (race_loop_votes w e eq_refl _ _ _ _ _ Hl) as (Hh & voted & Hsub & Hvotes & Hall).
  exists voting, asked, e, voted. split_and!; try done.
  - destruct (quorum_commit_mode_is_active g w c); [done|by injection Hv as <-].
  - intros Hq. rewrite Hq in Hw. simpl in Hw. injection Hw as Hw. apply orb_true_iff in Hw as [Hw%Z.leb_le|Hw].
    + left. lia.
    + right. apply andb_prop in Hw as [_ Hw]. by apply pyval_eqb_eq.
Qed.
(** C26: when the node wins the race (positions of write-ahead logs, not GTIDs), every other member with an API
    address that may be promoted and has shown no failover limitation is no better: it is not a primary; it is not
    ahead, unless it is the former leader of the synchronous state; and at the same position its priority is not
    higher, unless it is the former leader or - with quorum commit - [/sync] does not name it as a voter. *)
Theorem winner_is_best w c members lead m st :
  wins_race g w c members lead = Ok true → use_gtid w = false →
  m ∈ members → m_name m ≠ node_name w → truthy (api_url m) = true → nofailover m = Ok false →
  st = fetch_node_status w m → failover_limitation st = Ok false →
  in_recovery st ≠ Some false ∧
  (last_operation w < wal_position st →
     sync_mode_is_active g c = true ∧ leader_matches (DcsData.sync c) (Some (m_name m)) = Ok true) ∧
  (0 < wal_position st → last_operation w = wal_position st →
     (∃ p p', failover_priority (node_tags w) = Ok p ∧ failover_priority st = Ok p' ∧ p' <= p) ∨
     (if sync_mode_is_active g c then s_leader (DcsData.sync c)
      else match lead with Some l => VStr (l_name l) | None => VNone end) = VStr (m_name m) ∨
     (quorum_commit_mode_is_active g w c = true ∧
      ∃ voting, voters_and_leader (DcsData.sync c) = Ok voting ∧ CISet.mem (m_name m) voting = false)).
Proof.
  intros Hw Hg Hm Hne Hurl Hnf Hst Hlim.
  destruct (wins_race_inv _ _ _ _ Hw Hg) as (voting & asked & e & voted & Hv & Ha & He1 & He2 & He3 & He4 & He5 & He6 & He7 & Hh & _).
  assert (m ∈ asked) as Hin.
  { eapply filterM_keeps; [exact Ha|exact Hm|]. cbv beta. destruct (String.eqb_spec (m_name m) (node_name w)); [done|].
    rewrite Hurl. simpl. by rewrite Hnf. }
  assert (st ∈ fetch_nodes_statuses w asked) as Hs.
  { unfold fetch_nodes_statuses. rewrite as_completed_perm, Hst. by apply list_elem_of_fmap_2. }
  rewrite Forall_forall in Hh. destruct (Hh st Hs Hlim) as (H1 & H2 & H3).
  assert (st_member st = m) as Hm' by (rewrite Hst; apply st_member_fetch).
  rewrite Hm', He1, ?He3, ?He4, ?He5, ?He6, ?He7 in *. split_and!; [done|done|].
  intros Hpos Heq. destruct (H3 Hpos Heq) as [?|[?|[Hq Hnv]]]; [by left|by right; left|]. right. right.
  rewrite Hq in Hv. rewrite He2 in Hnv. by split; [|exists voting].
Qed.

#[local] Arguments matches : simpl never.

(** ** Who may race at all *)

(** C27: a replica tagged [nofailover] never takes the lock, whatever is requested; in synchronous
    mode without quorum commit, and without a failover request, neither does a replica that
    the [/sync] key does not name. *)
Theorem barred_replica_loses h w s b :
  is_healthiest_node g (h, w) = (Ok b, s) → is_primary w = false →
  nofailover (node_tags w) = Ok true ∨
  (requested (cluster h) = None ∧ sync_mode_is_active g (cluster h) = true ∧
   is_quorum_commit_mode_here g w = false ∧ matches (DcsData.sync (cluster h)) (Some (node_name w)) true = Ok false) →
  b = false.
Proof.
  intros Hr Hp Hbar. revert Hr. unfold is_healthiest_node, ha, world, gets, mbind, haM_bind, eff_bind. simpl.
  destruct (now w - _ <? ttl w); [by intros [= <- _]|].
  assert (∀ s' : Ha * W, s' = (h, w) → is_starting w = false → replica_is_healthiest g s' = (Ok b, s) → b = false) as Hrep.
  { intros s' -> _. unfold replica_is_healthiest, ha, world, gets, lift_exc, mbind, haM_bind, eff_bind. simpl.
    destruct (is_paused g); [by intros [= <- _]|].
    destruct (nofailover (node_tags w)) as [[]|] eqn:Hnf; simpl; [by intros [= <- _]| |done].
    destruct Hbar as [?|(-> & Hs & Hq & Hm)]; [done|].
    destruct (watchdog_is_healthy w); simpl; [|by intros [= <- _]].
    unfold race_all, mbind, haM_bind, eff_bind. destruct (all_known_members g (h, w)) as [[[l|]|] s1] eqn:Hall; simpl;
      [|by intros [= <- _]|done].
    assert (s1.2 = w ∧ DcsData.sync (cluster s1.1) = DcsData.sync (cluster h)) as [Hw1 Hc1] by by eapply all_known_members_world.
    unfold ha, world, gets, lift_exc. simpl. unfold sync_mode_is_active in *. rewrite Hc1, Hs, Hw1, Hq. simpl.
    rewrite Hm. simpl. by intros [= <- _]. }
  assert (∀ s', s' = (h, w) → (if is_starting w then mret false else if is_primary w then
    mret (primary_is_healthiest g w (cluster h)) else replica_is_healthiest g) s' = (Ok b, s) → b = false) as Hend.
  { intros s' -> Hd. rewrite Hp in Hd. destruct (is_starting w) eqn:Hst; [by injection Hd as <- _|]. by eapply Hrep. }
  destruct (requested (cluster h)) as [f|] eqn:Hreq; [|by apply Hend].
  destruct Hbar as [Hnf|(? & _)]; [|done]. destruct (is_paused g); [|by apply Hend].
  rewrite Hnf. simpl. by apply Hend.
Qed.

(** ** Failover on request *)

Lemma count_ok_length c lsn l votes n : count_ok g c lsn l votes = Ok n →
  ∃ good, sublist good l ∧ n = votes + Z.of_nat (length good) ∧ Forall (λ st, candidate_ok g c lsn st = Ok true) good.
Proof.
  revert votes. induction l as [|st l IH]; intros votes; simpl.
  { intros [= <-]. exists []. split_and!; [done|simpl; lia|constructor]. }
  destruct (candidate_ok g c lsn st) as [ok|] eqn:Hst; simpl; [|done].
  intros (good & Hsub & -> & Hall)%IH. destruct ok.
  - exists (st :: good). split_and!; [by constructor|simpl; lia|by constructor].
  - exists good. split_and!; [by constructor|done|done].
Qed.

(** A switchover is only thought possible when it is: there are eligible members whose
    status allows the promotion, and with quorum commit, unless the request names its
    candidate, more of them than the quorum. *)
Theorem failover_possible_candidates w c cluster_lsn exclude :
  is_failover_possible g w c cluster_lsn exclude = Ok true →
  ∃ good, sublist good (fetch_nodes_statuses w (default [] (match get_failover_candidates g w c exclude with
                                                          | Ok l => Some l | Raise _ => None end))) ∧
    good ≠ [] ∧
    (∀ st, st ∈ good → ∃ m, m ∈ members c ∧ st = fetch_node_status w m ∧ is_eligible g w c exclude m = Ok true ∧
       candidate_ok g c cluster_lsn st = Ok true) ∧
    (quorum_commit_mode_is_active g w c = true →
     match requested c with Some f => truthy (f_candidate f) && negb exclude | None => false end = false →
     s_quorum (DcsData.sync c) < Z.of_nat (length good)).
Proof.
  unfold is_failover_possible. destruct (get_failover_candidates g w c exclude) as [l|] eqn:Hl; simpl; [|done].
  destruct (count_ok g c cluster_lsn _ _) as [votes|] eqn:Hc; simpl; [|done]. intros Hr.
  destruct (count_ok_length _ _ _ _ _ Hc) as (good & Hsub & Hv & Hall). exists good. split; [done|]. split_and!.
  - intros ->. simpl in Hv. subst votes. by repeat case_match.
  - intros st Hst. rewrite Forall_forall in Hall.
    destruct (fetched_elem w l st) as (m & Hm & Heq); [eapply elem_of_submseteq; [exact Hst|by apply sublist_submseteq]|].
    destruct (filterM_elem _ _ _ _ Hl Hm) as [Hin He]. exists m. split_and!; auto.
  - intros Hq Hreq. rewrite Hq in Hr. unfold requested in Hreq.
    assert (match failover c with Some f => failover_truthy f && truthy (f_candidate f) && negb exclude | None => false end = false) as Hn.
    { destruct (failover c) as [f|]; [|done]. by destruct (failover_truthy f). }
    rewrite Hn in Hr. simpl in Hr. destruct (Z.ltb_spec votes (s_quorum (DcsData.sync c))); [done|]. lia.
Qed.

(** ** The members of the old cluster *)

(** Racing changes the view of the cluster: when the old cluster is the current one, each
    race doubles the list of its members, which the code extends in place. *)
Theorem race_doubles_members h w b s :
  race_all g (h, w) = (Ok b, s) → old_cluster h = None → check_mode g "failsafe_mode" = false →
  members (cluster s.1) = (members (cluster h) ++ members (cluster h))%list.
Proof.
  intros Hr Ho Hf. revert Hr. unfold race_all, all_known_members, world, gets, update_ha, puts, ha, mbind, haM_bind, eff_bind.
  rewrite Hf. simpl. unfold extend_old_members. rewrite Ho. simpl.
  assert (∀ l lead s0 s1 b, _is_healthiest_node g l true lead s0 = (Ok b, s1) → members (cluster s1.1) = members (cluster s0.1)) as Hkeep.
  { intros l lead [h0 w0] s1 b0. unfold _is_healthiest_node, world, gets, update_ha, puts, ha, lift_exc, mbind, haM_bind, eff_bind. simpl.
    destruct (nonzero _); simpl; (destruct (is_lagging g (cluster h0) (last_operation w0)) as [[]|]; simpl; [by intros [= _ <-]| |done]);
      (destruct (timeline_ok g w0 (cluster h0) _); simpl; [|by intros [= _ <-]]); by intros [= _ <-]. }
  unfold sync_mode_is_active. simpl. destruct (is_synchronous_mode g && _); [|by intros ->%Hkeep].
  unfold lift_exc. destruct (if is_quorum_commit_mode_here g w then _ else _) as [[]|]; simpl; [|by intros [= _ <-]|done].
  destruct (filterM _ _) as [l|]; simpl; [|done]. by intros ->%Hkeep.
Qed.
End race.

(** ** Witnesses *)

#[local] Existing Instance text_datetime.

(** The node [b] of a cluster of three, whose position is 5: [a], the former leader, does not
    answer and [c] answers that its position is [w]. *)
Definition answer (position : Z) : pyval :=
  VDict [("role", VStr "replica"); ("xlog", VDict [("received_location", VInt position); ("replayed_location", VInt position)])].

#[export] Instance example_node : RaceNode Z := {
  node_name _ := "b"; node_tags _ := []; now _ := 100; ttl _ := 30; has_timelines _ := true;
  supports_multiple_sync _ := true; sysid _ := "1"; is_primary _ := false; is_starting _ := false;
  get_primary_timeline _ := None; replica_cached_timeline _ _ := Some 1; last_operation _ := 5;
  use_gtid _ := false; get_executed_gtid _ := ""; gtid_relation _ _ _ := ""; watchdog_is_healthy _ := true;
  failsafe_key _ := None;
  request m w := if (m_name m =? "c")%string then Ok (answer w) else Raise DCSError;
  as_completed _ l := reverse l; as_completed_perm _ l := reverse_Permutation l;
  clear_failover _ w := (Ok (), w);
}.

Definition race_member (name : string) : Member :=
  MkMember (VInt 0) name VNone [("state", VStr "running"); ("api_url", VStr ("http://" +:+ name))].

Definition race_example : list Member := map race_member ["a"; "b"; "c"].

Definition race_cluster (sync : SyncState) : Cluster :=
  MkCluster None None None status_empty race_example None sync None None [].

Definition sync_of_a (standby : string) (quorum : Z) : SyncState := MkSync (VInt 1) (VStr "a") (VStr standby) quorum.

Lemma winner_is_best_witness :
  wins_race (W := Z) [] 3 (race_cluster (sync_empty VNone)) race_example None = Ok true ∧
  in_recovery (fetch_node_status 3 (race_member "c")) ≠ Some false.
Proof.
  split; [vm_compute; reflexivity|].
  refine (proj1 (winner_is_best [] 3 (race_cluster (sync_empty VNone)) race_example None (race_member "c")
    (fetch_node_status 3 (race_member "c")) _ _ _ _ _ _ eq_refl _)); try (vm_compute; reflexivity).
  - apply (list_elem_of_lookup_2 _ 2). reflexivity.
  - done.
Defined.

Lemma barred_replica_loses_witness : ∃ b s,
  is_healthiest_node (W := Z) [("synchronous_mode", VStr "on")]
    (MkHa (race_cluster (sync_of_a "c" 0)) None None 0, 3) = (Ok b, s) ∧ b = false.
Proof.
  eexists _, _. split; [vm_compute; reflexivity|].
  eapply (barred_replica_loses [("synchronous_mode", VStr "on")] (MkHa (race_cluster (sync_of_a "c" 0)) None None 0) 3);
    [vm_compute; reflexivity|reflexivity|right].
  split_and!; vm_compute; reflexivity.
Defined.

Lemma failover_possible_candidates_witness :
  is_failover_possible (W := Z) [] 3 (race_cluster (sync_empty VNone)) 0 false = Ok true ∧
  ∃ good : list _MemberStatus, good ≠ [].
Proof.
  split; [vm_compute; reflexivity|].
  destruct (failover_possible_candidates [] 3 (race_cluster (sync_empty VNone)) 0 false) as (good & _ & Hne & _);
    [vm_compute; reflexivity|].
  by exists good.
Defined.

Lemma race_doubles_members_witness : ∃ b s,
  race_all (W := Z) [] (MkHa (race_cluster (sync_empty VNone)) None None 0, 3) = (Ok b, s) ∧
  members (cluster s.1) = (race_example ++ race_example)%list.
Proof.
  eexists _, _. split; [vm_compute; reflexivity|].
  eapply (race_doubles_members [] (MkHa (race_cluster (sync_empty VNone)) None None 0) 3); [|reflexivity|reflexivity].
  vm_compute. reflexivity.
Defined.

(** * The leader race meets the quorum state machine

    The end of the argument for quorum commit: [_process_quorum_replication] keeps [/sync] and
    [synchronous_standby_names] so that acknowledgements and votes overlap
    ([QuorumProgress.resolve_no_loss]); here, that a node which wins [_is_healthiest_node] by
    votes has every acknowledged commit. *)

Section race.
Context `{!Datetime} {W : Type} `{!RaceNode W} (g : GlobalConfig).
Implicit Types (c : Cluster) (w : W) (m : Member).

(** The [/sync] key of a cluster is the first half of what the resolver works on. *)
Definition sync_key_is c (e : ext) : Prop :=
  ∃ vs, s_leader (DcsData.sync c) = VStr (e_leader e) ∧ e_leader e ≠ "" ∧ s_quorum (DcsData.sync c) = e_quorum e ∧
    DcsData.voters (DcsData.sync c) = Ok vs ∧ e_voters e = CISet.of_list vs.

Lemma need_strs_map l : need_strs (map VStr l) = Ok l.
Proof. induction l as [|s l IH]; simpl; [done|]. by rewrite IH. Qed.

Lemma voting_nodes c e voting : sync_key_is c e → voters_and_leader (DcsData.sync c) = Ok voting →
  CISet.elems voting = voter_nodes e.
Proof.
  intros (vs & Hl & Hne & _ & Hv & He). unfold voters_and_leader, sync_members. rewrite Hl. simpl.
  destruct (String.eqb_spec (e_leader e) ""); [done|]. simpl. rewrite Hv. simpl. rewrite need_strs_map. simpl.
  intros [= <-]. unfold voter_nodes. rewrite He, !CISet.elems_of_list. simpl. apply set_eq. intros x. set_solver.
Qed.

(** The nodes that hold every commit up to [L]: their position is at least [L], and that is
    also what they answer when they answer at all. *)
Definition hold w (L : Z) (nodes : gset string) : Prop :=
  (Str.lower (node_name w) ∈ nodes → L <= last_operation w) ∧
  ∀ m, member_key m ∈ nodes → 0 < wal_position (fetch_node_status w m) → L <= wal_position (fetch_node_status w m).

(** The voters that stand for this node, itself included when it is one *)
Lemma votes_of w e voting (l : list Member) (asked : list Member) voted :
  race_members w voting l = Ok asked → NoDup (member_key <$> l) → Str.lower (node_name w) ∉ member_key <$> asked →
  sublist voted (fetch_nodes_statuses w asked) → Forall (votes_for_me e) voted → voting_set e = voting →
  ∃ votes : gset string, votes ⊆ CISet.elems voting ∧
    Z.of_nat (size votes) = (if CISet.mem (node_name w) voting then 1 else 0) + Z.of_nat (length voted) ∧
    ∀ k, k ∈ votes → k = Str.lower (node_name w) ∨
      ∃ m, member_key m = k ∧ 0 < wal_position (fetch_node_status w m) ∧ wal_position (fetch_node_status w m) <= my_wal e.
Proof.
  intros Ha Hnd Hself Hsub Hall He. set (key := λ st, member_key (st_member st)).
  assert (∀ l, key <$> map (fetch_node_status w) l = member_key <$> l) as Hkeys.
  { intros l0. unfold key. rewrite <-list_fmap_compose. apply list_fmap_ext. intros i x _. simpl. by rewrite st_member_fetch. }
  assert (NoDup (key <$> voted)) as Hndv.
  { eapply sublist_NoDup; [|by apply fmap_sublist]. unfold fetch_nodes_statuses. rewrite as_completed_perm, Hkeys.
    eapply sublist_NoDup; [exact Hnd|]. by apply fmap_sublist, (filterM_sublist _ _ _ Ha). }
  assert (∀ st, st ∈ voted → ∃ m, m ∈ asked ∧ st = fetch_node_status w m) as Hst.
  { intros st Hst. apply fetched_elem. eapply elem_of_submseteq; [exact Hst|by apply sublist_submseteq]. }
  assert (∀ k, k ∈ key <$> voted → k ∈ CISet.elems voting ∧ k ≠ Str.lower (node_name w) ∧
     ∃ m, member_key m = k ∧ 0 < wal_position (fetch_node_status w m) ∧ wal_position (fetch_node_status w m) <= my_wal e) as Hk.
  { intros k (st & -> & Hin)%list_elem_of_fmap_1. rewrite Forall_forall in Hall.
    destruct (Hall st Hin) as (_ & _ & Hm & Hpos & Hle). destruct (Hst st Hin) as (m & Hmem & ->).
    unfold key. rewrite st_member_fetch in *. split_and!.
    - rewrite He, CISet.mem_elems in Hm. by apply bool_decide_eq_true in Hm.
    - intros Heq. apply Hself. rewrite <-Heq. by apply list_elem_of_fmap_2.
    - by exists m. }
  exists ((if CISet.mem (node_name w) voting then {[Str.lower (node_name w)]} else ∅) ∪ list_to_set (key <$> voted)). split_and!.
  - intros k [Hs|Hs%elem_of_list_to_set]%elem_of_union; [|by apply Hk].
    destruct (CISet.mem _ _) eqn:Hm; [|set_solver]. apply elem_of_singleton in Hs as ->.
    rewrite CISet.mem_elems in Hm. by apply bool_decide_eq_true in Hm.
  - rewrite size_union, size_list_to_set by (done || (intros k Hs Hv%elem_of_list_to_set; apply Hk in Hv as (_ & Hne & _);
      destruct (CISet.mem _ _); set_solver)).
    rewrite length_fmap. destruct (CISet.mem _ _); [rewrite size_singleton|rewrite size_empty]; lia.
  - intros k [Hs|Hs%elem_of_list_to_set]%elem_of_union; [left|right; by apply Hk].
    destruct (CISet.mem _ _); set_solver.
Qed.

(** C2: with quorum commit a failover loses no acknowledged commit: when [/sync] and
    [synchronous_standby_names] are consistent, whatever set of nodes acknowledged the
    commits up to a position, the primary among them, a node that wins the leader race
    has reached that position - it won by votes of nodes one of which acknowledged, or it is
    the former leader. *)
Theorem race_winner_has_commits w c members lead (e : ext) (acks : gset string) (L : Z) :
  wins_race g w c members lead = Ok true →
  quorum_commit_mode_is_active g w c = true → use_gtid w = false →
  NoDup (member_key <$> members) →
  (∀ m, m ∈ members → member_key m = Str.lower (node_name w) → m_name m = node_name w) →
  sync_key_is c e → overlap (e_leader e) e →
  acks ⊆ sync_nodes (e_leader e) e → e_numsync e + 1 <= Z.of_nat (size acks) → Str.lower (e_leader e) ∈ acks →
  hold w L acks →
  L <= last_operation w.
Proof.
  intros Hw Hq Hg Hnd Hself Hkey Hover Hacks Hsize Hlead [Hme Hothers].
  destruct (wins_race_inv _ _ _ _ _ Hw Hg) as (voting & asked & env & voted & Hv & Ha & He1 & He2 & _ & _ & _ & _ & _ & _ & Hsub & Hall & Hres).
  rewrite Hq in Hv. pose proof (voting_nodes _ _ _ Hkey Hv) as Hvn.
  destruct Hkey as (vs & Hl & _ & Hquorum & _). destruct (Hres Hq) as [Hvotes|Hformer].
  - assert (Str.lower (node_name w) ∉ member_key <$> asked) as Hself'.
    { intros (m & Hm & Hin)%list_elem_of_fmap_1. destruct (race_members_elem _ _ _ _ _ Ha Hin) as (Hin' & Hne & _).
      by apply Hne, Hself. }
    destruct (votes_of w env voting members asked voted Ha Hnd Hself' Hsub Hall He2) as (votes & Hsubv & Hsz & Hk).
    destruct (set_choose_L (acks ∩ votes)) as [k Hin].
    { apply Hover; [done|by rewrite <-Hvn|done|]. rewrite Hsz, <-Hquorum. destruct (CISet.mem _ _); lia. }
    apply elem_of_intersection in Hin as [Hka Hkv]. destruct (Hk k Hkv) as [->|(m & <- & Hpos & Hle)]; [auto|].
    rewrite <-He1. etrans; [by apply Hothers|done].
  - apply Hme. assert (e_leader e = node_name w) as <- by congruence. done.
Qed.
End race.

(** ** Witness *)

#[local] Existing Instance text_datetime.

Definition example_ext : ext := MkExt "a" 1 (CISet.of_list ["b"; "c"]) 1 (CISet.of_list ["b"; "c"]).

(** [a] and [b] acknowledged position 5; [b] wins with the vote of [c], whose position is 3. *)
Lemma race_winner_has_commits_witness : 5 <= last_operation (W := Z) 3.
Proof.
  apply (race_winner_has_commits [("synchronous_mode", VStr "quorum")] 3 (race_cluster (sync_of_a "b,c" 1)) race_example None
    example_ext {["a"; "b"]} 5).
  - vm_compute. reflexivity.
  - vm_compute. reflexivity.
  - reflexivity.
  - apply (bool_decide_unpack _). vm_compute. reflexivity.
  - intros m Hm Hk. unfold race_example in Hm. simpl in Hm. rewrite !elem_of_cons, elem_of_nil in Hm.
    by destruct Hm as [->|[->|[->|[]]]].
  - exists ["b"; "c"]. by split_and!.
  - apply consistent_overlap; [apply (bool_decide_unpack _); vm_compute; reflexivity|].
    intros He. assert ("b" ∈ CISet.elems (e_voters example_ext)) as Hb; [|by rewrite He in Hb].
    apply (bool_decide_unpack _). vm_compute. reflexivity.
  - apply (bool_decide_unpack _). vm_compute. reflexivity.
  - vm_compute. discriminate.
  - set_solver.
  - split; [done|]. intros m Hk. unfold fetch_node_status. simpl.
    destruct (String.eqb_spec (m_name m) "c") as [Hc|]; simpl; [|done].
    exfalso. unfold member_key in Hk. rewrite Hc in Hk. simpl in Hk. set_solver.
Defined.
