(* ===== verification/HaSync.v ===== *)
(** * Synchronous replication in the loop of the agent ([patroni/ha.py])

    The primary keeps two records of who is synchronous: [synchronous_standby_names] in
    PostgreSQL and the [/sync] key in the DCS.  This file holds the functions of [Ha] that
    change them, in an order that never allows the promotion of a node that may lack a
    commit.  [SyncDcs] is the interface of the DCS operations they use. *)
From S2P Require Import Prelude PyDict PyVal Effects Json Collections Quorum Utils Tags DcsData GlobalConfig Dcs SyncNames Sync SyncProps SyncSpec.

Open Scope string_scope.
Open Scope Z_scope.

Class SyncDcs (W : Type) := {
  hs_time : W → Z;
  loop_wait : W → Z;
  sleep : Z → W → exc () * W;
  dcs_write_sync_state : option string → list string → Z → pyval → W → exc (option SyncState) * W;
  dcs_delete_sync_state : pyval → W → exc bool * W;
  user_synchronous_standby_names : W → option string;
}.

Section ha.
Context `{!Datetime} {W : Type} `{!SyncPostgres W} `{!SyncDcs W} (g : GlobalConfig) (c : Cluster).

(** [self.dcs.write_sync_state(...)], with the version of a key *)
Definition write_sync_state (leader : option string) (nodes : CISet.t) (quorum : Z) (version : pyval)
    : syncM (option SyncState) :=
  act (dcs_write_sync_state leader (CISet.to_list nodes) quorum version).

(** [_maybe_enable_synchronous_mode] *)
Definition _maybe_enable_synchronous_mode : syncM (option SyncState) :=
  w ← ask id;
  let sync := DcsData.sync c in
  if s_is_empty sync then write_sync_state (Some (pg_name w)) CISet.empty 0 (s_version sync)
  else mret (Some sync).

(** [disable_synchronous_replication] *)
Definition disable_synchronous_replication : syncM () :=
  let sync := DcsData.sync c in
  deleted ← (if s_is_empty sync then mret false else act (dcs_delete_sync_state (s_version sync)));
  (if deleted : bool then set_synchronous_standby_names g [] None else mret ());;
  ssn ← ask user_synchronous_standby_names;
  act (config_set_synchronous_standby_names ssn);;
  mret ().

(** ** Quorum commit *)

(** [_check_timeout] *)
Definition _check_timeout (start_time offset : Z) : syncM bool :=
  now ← ask hs_time; wait ← ask loop_wait; mret (wait <=? now - start_time + offset).

(** One transition: [None] is [return], otherwise the [/sync] key as it is known *)
Definition perform (min_sync : Z) (t : Transition) (sync : SyncState) : syncM (option SyncState) :=
  match t_type t with
  | TQuorum => write_sync_state (Some (t_leader t)) (t_names t) (t_num t) (s_version sync)
  | TSync =>
      let num := if t_num t <? min_sync then min_sync else t_num t in
      set_synchronous_standby_names g (CISet.to_list (t_names t)) (Some num);; mret (Some sync)
  | TRestart => mret (Some sync)
  end.

(** The [for] loop over the transitions: [None] is [return] *)
Fixpoint perform_all (min_sync start_time : Z) (ts : list Transition) (sync : SyncState) : syncM (option SyncState) :=
  match ts with
  | [] => mret (Some sync)
  | t :: ts' =>
      late ← _check_timeout start_time 0;
      if late : bool then mret None else
      r ← perform min_sync t sync;
      match r with
      | Some sync => perform_all min_sync start_time ts' sync
      | None => mret None
      end
  end.

(** The resolver for the states of PostgreSQL and of [/sync]; [QuorumError] and the failure of
    an [assert] end the call. *)
Definition transitions_of (leader : string) (sync : SyncState) (st : _SyncState) (sync_wanted : Z) (name : string)
    : exc (list Transition) :=
  voters ← DcsData.voters sync;
  match resolve (Quorum.init leader (s_quorum sync) voters (numsync st) (CISet.to_list (ss_sync st))
                   (Z.of_nat (CISet.len (sync_confirmed st))) (CISet.to_list (active st)) sync_wanted name) with
  | inr ts => Ok ts
  | inl QuorumError => Raise QuorumException
  | inl AssertionError => Raise AssertionFailure
  end.

(** The [while] loop; [None] when it runs out of fuel *)
Fixpoint quorum_loop (fuel : nat) (min_sync sync_wanted start_time : Z) (leader : string) (sync : SyncState)
    : syncM (option ()) :=
  match fuel with
  | O => mret None
  | S fuel =>
      st ← current_state g c;
      w ← ask id;
      ts ← lift_exc (transitions_of leader sync st sync_wanted (pg_name w));
      r ← perform_all min_sync start_time ts sync;
      match r, last ts with
      | Some sync, Some t =>
          if negb (bool_decide (t_type t = TRestart)) then mret (Some ()) else
          late ← _check_timeout start_time 1;
          if late : bool then mret (Some ()) else
          act (sleep 1);;
          act reset_cluster_info_state;;
          quorum_loop fuel min_sync sync_wanted start_time (t_leader t) sync
      | _, _ => mret (Some ())
      end
  end.

(** [_process_quorum_replication]; a leader that is not a string is outside the model *)
Definition _process_quorum_replication (fuel : nat) : syncM (option ()) :=
  start_time ← ask hs_time;
  let min_sync := min_synchronous_nodes g in
  sync_wanted ← lift_exc (synchronous_node_count g);
  sync ← _maybe_enable_synchronous_mode;
  match sync with
  | Some sync =>
      if truthy (s_leader sync) then
        leader ← lift_exc (need_str (s_leader sync));
        quorum_loop fuel min_sync sync_wanted start_time leader sync
      else mret (Some ())
  | None => mret (Some ())
  end.

(** ** Synchronous nodes by priority *)

(** What follows the wait: the nodes that are synchronous by then *)
Definition assign_sync_standbys (name : string) (sync : SyncState) (picked allow_promote sync_common : CISet.t) : syncM () :=
  let star := CISet.of_list ["*"] in
  allow_promote ←
    (if CISet.truthy picked && negb (CISet.eqb picked star) && negb (CISet.eqb allow_promote picked) then
       act (sleep 2);;
       st ← current_state g c;
       mret (sync_confirmed st)
     else mret allow_promote : syncM CISet.t);
  if CISet.truthy allow_promote && negb (CISet.eqb allow_promote sync_common) then
    write_sync_state (Some name) allow_promote 0 (s_version sync);; mret ()
  else mret ().

(** The part that changes [synchronous_standby_names] *)
Definition change_sync_standbys (name : string) (sync : SyncState) (picked allow_promote voters : CISet.t) : syncM () :=
  let sync_common := CISet.inter voters allow_promote in
  sync ← (if CISet.eqb sync_common voters then mret (Some sync)
          else write_sync_state (Some name) sync_common 0 (s_version sync));
  match sync with
  | None => mret ()
  | Some sync =>
      let picked := if is_synchronous_mode_strict g && negb (CISet.truthy picked) then CISet.of_list ["*"] else picked in
      set_synchronous_standby_names g (CISet.to_list picked) None;;
      assign_sync_standbys name sync picked allow_promote sync_common
  end.

(** The two repairs of an inconsistent [/sync] key: the key and its voters *)
Definition repair_leader (name : string) (sync : SyncState) : syncM (option (SyncState * CISet.t)) :=
  voters ← lift_exc (DcsData.voters sync);
  if pyval_eqb (VStr name) (s_leader sync) then mret (Some (sync, CISet.of_list voters))
  else
    r ← write_sync_state (Some name) CISet.empty 0 (s_version sync);
    mret ((λ s, (s, CISet.empty)) <$> (r : option SyncState)).

Definition repair_voters (name : string) (sync : SyncState) (picked allow_promote voters : CISet.t)
    : syncM (option (SyncState * CISet.t)) :=
  if CISet.eqb picked voters && negb (CISet.eqb voters allow_promote) then
    r ← write_sync_state (Some name) allow_promote 0 (s_version sync);
    match r with
    | Some sync => voters ← lift_exc (DcsData.voters sync); mret (Some (sync, CISet.of_list voters))
    | None => mret None
    end
  else mret (Some (sync, voters)).

(** [_process_multisync_replication] *)
Definition _process_multisync_replication : syncM () :=
  sync ← _maybe_enable_synchronous_mode;
  match sync with
  | None => mret ()
  | Some sync =>
      st ← current_state g c;
      w ← ask id;
      let name := pg_name w in
      let picked := active st in
      let allow_promote := sync_confirmed st in
      r ← repair_leader name sync;
      match r with
      | None => mret ()
      | Some (sync, voters) =>
          r ← repair_voters name sync picked allow_promote voters;
          match r with
          | None => mret ()
          | Some (sync, voters) =>
              if CISet.eqb picked voters && CISet.eqb voters (ss_sync st) && (numsync st =? Z.of_nat (CISet.len picked))
              then mret ()
              else change_sync_standbys name sync picked allow_promote voters
          end
      end
  end.

(** ** The entry points *)

(** [process_sync_replication]; the result is the new [_promote_timestamp] *)
Definition process_sync_replication (fuel : nat) (is_primary : bool) (promote_timestamp : Z) : syncM Z :=
  w ← ask id;
  if is_quorum_commit_mode g && supports_multiple_sync w then
    if is_primary then
      (if (promote_timestamp =? 0) || (loop_wait w <? hs_time w - promote_timestamp)
       then _process_quorum_replication fuel;; mret () else mret ());;
      now ← ask hs_time;
      mret (if promote_timestamp =? 0 then now else promote_timestamp)
    else mret promote_timestamp
  else if is_synchronous_mode g then _process_multisync_replication;; mret promote_timestamp
  else disable_synchronous_replication;; mret promote_timestamp.

(** The nodes and the number to start a promotion with *)
Definition prepromote_nodes (w : W) : exc (CISet.t * Z) :=
  let sync := DcsData.sync c in
  if is_quorum_commit_mode g && supports_multiple_sync w && negb (s_is_empty sync) then
    members ← sync_members sync;
    names ← need_strs members;
    let nodes := CISet.of_list names in
    let num := Z.of_nat (CISet.len nodes) - s_quorum sync - 1 in
    mret (if CISet.mem (pg_name w) nodes then (CISet.discard (pg_name w) nodes, num) else (nodes, num + 1))
  else mret (CISet.empty, min_synchronous_nodes g).

(** [process_sync_replication_prepromote] *)
Definition process_sync_replication_prepromote : syncM bool :=
  if negb (is_synchronous_mode g) then disable_synchronous_replication;; mret true else
  w ← ask id;
  start ← lift_exc (prepromote_nodes w);
  let '(nodes, num) := (start : CISet.t * Z) in
  if negb (is_quorum_commit_mode g && supports_multiple_sync w) || (negb (supports_multiple_sync w) && (1 <? num)) then
    r ← write_sync_state (Some (pg_name w)) CISet.empty 0 (s_version (DcsData.sync c));
    match r with
    | Some _ => set_synchronous_standby_names g [] (Some (min_synchronous_nodes g));; mret true
    | None => mret false
    end
  else set_synchronous_standby_names g (CISet.to_list nodes) (Some num);; mret true.
End ha.

(** * The order in which synchronous replication is changed

    Without quorum commit [Ha._process_multisync_replication] never lets the [/sync] key name a
    node that [synchronous_standby_names] does not: whichever of its writes fails or raises,
    at every moment the nodes that may be promoted are synchronous. *)

(** The names that a value of [synchronous_standby_names] lists *)
Definition listed_by (value : string) : gset string := CISet.elems (ssn_members (ssn_or_empty value)).

(** The lower-cased names of a list *)
Definition keys_of (names : list string) : gset string := list_to_set (Str.lower <$> names).

(** What is known of PostgreSQL and of the DCS: the voters recorded under [/sync] and, of every
    moment, these voters and the listed names.  A write to the DCS leaves the setting
    alone; it takes effect, or not, and its result is the key as it was written, for names without
    commas and blanks.  The
    configuration of PostgreSQL holds the value that was set last. *)
Class SyncWorld {W} `{!SyncPostgres W, !SyncDcs W} := {
  sync_voters : W → gset string;
  history : W → list (gset string * gset string);
  logged w w' := history w' = (sync_voters w', listed_by (synchronous_standby_names w')) :: history w;
  quiet w w' := synchronous_standby_names w' = synchronous_standby_names w ∧ sync_voters w' = sync_voters w ∧ logged w w';
  sw_supports w : supports_multiple_sync w = true;
  sw_name w : pg_name w ≠ "";
  sw_names w row : row ∈ pg_stat_replication w → safe (row_application_name row) ∧ clean (row_application_name row) ∧ row_application_name row ≠ "*";
  sw_query w : quiet w (query_txid_current w).2;
  sw_reset w : quiet w (reset_cluster_info_state w).2;
  sw_sleep n w : quiet w (sleep n w).2;
  sw_set p w : let '(r, w') := config_set_synchronous_standby_names p w in
    sync_voters w' = sync_voters w ∧ logged w w' ∧
    (synchronous_standby_names w' = default "" p ∨
     synchronous_standby_names w' = synchronous_standby_names w ∧ match r with Ok _ => False | Raise _ => True end);
  sw_write l nodes q v w : let '(r, w') := dcs_write_sync_state l nodes q v w in
    synchronous_standby_names w' = synchronous_standby_names w ∧ logged w w' ∧
    (sync_voters w' = sync_voters w ∨ sync_voters w' = keys_of nodes) ∧
    match r with
    | Ok (Some s) => sync_voters w' = keys_of nodes ∧
        (l ≠ Some "" → l ≠ None → Forall clean nodes → ∃ vs, DcsData.voters s = Ok vs ∧ keys_of vs = keys_of nodes)
    | _ => True
    end;
}.

Section multisync.
Context `{!Datetime} {W : Type} `{!SyncPostgres W, !SyncDcs W} {world : SyncWorld (W := W)} (g : GlobalConfig) (c : Cluster).
Implicit Types (s : SyncHandler * W) (w : W) (h : SyncHandler).

Definition listed w : gset string := listed_by (synchronous_standby_names w).

(** Now, and at every moment before, the voters are listed. *)
Definition guarded w : Prop := sync_voters w ⊆ listed w ∧ Forall (λ p, p.1 ⊆ p.2) (history w).

(** The handler is one the agent may have, and the world is guarded. *)
Definition good s : Prop := reachable s.1 ∧ guarded s.2.

(** [good], with what is known of the setting and of the voters *)
Definition good_at (value : string) (voters : gset string) s : Prop :=
  good s ∧ synchronous_standby_names s.2 = value ∧ sync_voters s.2 = voters.

Lemma quiet_guarded w w' : quiet w w' → guarded w → guarded w'.
Proof.
  intros (Hn & Hv & Hl) [Hsub Hall]. assert (sync_voters w' ⊆ listed w') as Hs by (unfold listed; by rewrite Hv, Hn).
  split; [done|]. rewrite Hl. by constructor.
Qed.

(** ** The operations *)

Lemma handle_change_quiet s value V : synchronous_standby_names s.2 = value → sync_voters s.2 = V → guarded s.2 →
  let w' := (_handle_synchronous_standby_names_change s).2.2 in
  guarded w' ∧ synchronous_standby_names w' = value ∧ sync_voters w' = V.
Proof.
  destruct s as [h w]. intros Hn Hv Hg. unfold _handle_synchronous_standby_names_change, ask, handler, update_handler, act, gets,
    puts, mbind, syncM_bind, eff_bind. simpl in *.
  destruct (_ =? _)%string; [done|]. simpl. pose proof (sw_query w) as Hq.
  destruct (query_txid_current w) as [[[]|e] w1]; simpl in *.
  - pose proof (quiet_guarded _ _ Hq Hg) as Hg1. pose proof (sw_reset w1) as Hr.
    destruct (reset_cluster_info_state w1) as [r w2]. simpl in *. pose proof (quiet_guarded _ _ Hr Hg1) as Hg2.
    destruct Hq as (Hn1 & Hv1 & _), Hr as (Hn2 & Hv2 & _). split_and!; [done|congruence|congruence].
  - pose proof (quiet_guarded _ _ Hq Hg) as Hg1. destruct Hq as (Hn1 & Hv1 & _). split_and!; [done|congruence|congruence].
Qed.

Lemma triple_current_state value V :
  triple (good_at value V) (current_state g c)
    (λ st s, good_at value V s ∧ CISet.elems (sync_confirmed st) ⊆ CISet.elems (active st) ∧
       CISet.elems (sync_confirmed st) ⊆ listed_by value ∧ CISet.wf (active st) ∧ CISet.wf (sync_confirmed st) ∧
       Forall safe (CISet.to_list (active st)) ∧ "*" ∉ CISet.to_list (active st) ∧
       Forall clean (CISet.to_list (sync_confirmed st))) good.
Proof.
  intros [h w] ([Hr Hg] & Hn & Hv). simpl in Hr, Hg, Hn, Hv. pose proof (reachable_current_state g c h w Hr) as Hr'.
  destruct (current_state g c (h, w)) as [res s] eqn:Hc. simpl in Hr'.
  destruct (current_state_inv _ _ _ _ _ _ Hc) as (r & s1 & E & Hcases).
  pose proof (handle_change_quiet (h, w) value V Hn Hv Hg) as Hq. rewrite E in Hq. simpl in Hq.
  assert (good_at value V s) as Hgood.
  { destruct Hq as (Hg' & Hn' & Hv').
    assert (s.2 = s1.2) as Hw by (destruct Hcases as [[-> _]|(l & m & _ & (Hw & _) & _)]; done).
    unfold good_at, good. rewrite Hw. by split_and!. }
  destruct res as [st|e]; [|apply Hgood]. split; [done|].
  destruct (confirmed_in_list _ _ _ _ _ _ Hr Hc) as [Hsub Hlist]. rewrite Hn in Hlist.
  destruct (current_state_ok _ _ _ _ _ _ Hc) as (l & max_lsn & count & maxlag & s2 & _ & _ & _ & Hst & _).
  split_and!; [done|done| | | | |].
  - rewrite Hst. unfold report. cbn [active]. apply choose_wf. cbn [fst]. auto with ciset.
  - rewrite Hst. unfold report. cbn [sync_confirmed]. apply choose_wf_confirmed. cbn [snd]. auto with ciset.
  - apply Forall_forall. intros n Hin. destruct (active_named _ _ _ _ _ _ _ Hc (or_introl Hin)) as (row & Hrow & <-).
    by apply (sw_names s.2).
  - intros Hin. destruct (active_named _ _ _ _ _ _ _ Hc (or_introl Hin)) as (row & Hrow & Hstar).
    by destruct (sw_names s.2 row Hrow) as (_ & _ & ?).
  - apply Forall_forall. intros n Hin. destruct (active_named _ _ _ _ _ _ _ Hc (or_intror Hin)) as (row & Hrow & <-).
    by destruct (sw_names s.2 row Hrow) as (_ & ? & _).
Qed.

(** Writing nodes that are listed *)
Lemma triple_write l nodes q v value V : l ≠ "" → CISet.wf nodes → Forall clean (CISet.to_list nodes) → CISet.elems nodes ⊆ listed_by value →
  triple (good_at value V) (write_sync_state (Some l) nodes q v)
    (λ r s, match r with
            | Some sync => good_at value (CISet.elems nodes) s ∧
                ∃ vs, DcsData.voters sync = Ok vs ∧ CISet.elems (CISet.of_list vs) = CISet.elems nodes
            | None => good s
            end) good.
Proof.
  intros Hl0 Hwf Hclean Hsub [h w] ([Hr [Hg Hh]] & Hn & Hv). simpl in *. unfold write_sync_state, act. simpl.
  pose proof (sw_write (Some l) (CISet.to_list nodes) q v w) as Hw. destruct (dcs_write_sync_state _ _ _ _ w) as [r w'].
  assert (keys_of (CISet.to_list nodes) = CISet.elems nodes) as Hk by (unfold keys_of; by rewrite CISet.elems_to_list).
  rewrite Hk in Hw. destruct Hw as (Hn' & Hl & Hvoters & Hres).
  assert (good (h, w')) as Hgood.
  { split; [done|]. assert (sync_voters w' ⊆ listed w') as Hsub'.
    { unfold listed. rewrite Hn', Hn. destruct Hvoters as [->| ->]; [|done]. rewrite <-Hn. exact Hg. }
    split; [done|]. simpl. rewrite Hl. by constructor. }
  destruct r as [[sync|]|e]; [|done..]. destruct Hres as [Hnew Hres]. destruct (Hres ltac:(congruence) ltac:(done) Hclean) as (vs & Hvs & Hkv).
  split; [split_and!; [done|by simpl; rewrite Hn'|done]|]. exists vs. split; [done|].
  unfold keys_of in Hkv. by rewrite CISet.elems_of_list, Hkv.
Qed.

(** Setting names that include the voters *)
Lemma triple_set names value V p star : is_quorum_commit_mode g = false →
  (∀ b, sync_param true b false names None = (p, star)) → V ⊆ listed_by (default "" p) →
  triple (good_at value V) (set_synchronous_standby_names g names None) (λ _, good_at (default "" p) V) good.
Proof.
  intros Hq Hp Hsub [h w] ([Hr [Hg Hh]] & Hn & Hv). simpl in *. pose proof (reachable_set g names None h w Hr) as Hr'.
  revert Hr'. unfold set_synchronous_standby_names, ask, gets, act, mbind, syncM_bind, eff_bind. simpl.
  rewrite sw_supports, Hq, Hp. simpl. pose proof (sw_set p w) as Hset.
  destruct (config_set_synchronous_standby_names p w) as [r w1]. destruct Hset as (Hv1 & Hl1 & Hn1).
  assert (guarded w1) as Hg1.
  { assert (sync_voters w1 ⊆ listed w1) as Hs1.
    { unfold listed. rewrite Hv1. destruct Hn1 as [->|[-> _]]; [by rewrite Hv|done]. }
    split; [done|]. rewrite Hl1. by constructor. }
  assert (∀ w', guarded w' → good (h, w')) as Hgood by (intros w' Hw'; by split).
  destruct r as [b|e]; [|intros _; by apply Hgood]. destruct Hn1 as [Hn1|[_ []]].
  assert (good_at (default "" p) V (h, w1)) as Hat1 by (split_and!; [by apply Hgood|done|simpl; congruence]).
  destruct b; simpl; [|by intros _]. destruct (negb _ || star); [by intros _|]. simpl.
  pose proof (sw_reset w1) as Hrs. pose proof (quiet_guarded _ _ Hrs Hg1) as Hg2. destruct Hrs as (Hn2 & Hv2 & _).
  destruct (reset_cluster_info_state w1) as [[[]|e] w2]; simpl in *; [|intros _; by apply Hgood].
  destruct (0 <? _); simpl; [|intros _; split_and!; [by apply Hgood|simpl; congruence|simpl; congruence]].
  destruct (handle_change_quiet (h, w2) (default "" p) V) as (H1 & H2 & H3); [simpl; congruence|simpl; congruence|done|].
  destruct (_handle_synchronous_standby_names_change (h, w2)) as [[[]|e] s3]; simpl in *; intros Hr'; by split_and!.
Qed.

(** ** The value that is set *)

Lemma listed_param (picked : CISet.t) : CISet.wf picked → Forall safe (CISet.to_list picked) → "*" ∉ CISet.to_list picked →
  ∃ p star, (∀ b, sync_param true b false (CISet.to_list picked) None = (p, star)) ∧
    CISet.elems picked ⊆ listed_by (default "" p).
Proof.
  intros Hwf Hs Hstar. destruct (decide (CISet.to_list picked = [])) as [He|Hne].
  - exists None, false. rewrite He. split; [done|]. rewrite CISet.elems_to_list, He by done. simpl. set_solver.
  - destruct (sync_param_priority true (CISet.to_list picked) Hne Hstar Hs) as (text & Hp & Hparse).
    exists (Some text), false. split.
    + intros b. rewrite <-Hp, !sync_param_unfold by done. done.
    + unfold listed_by, ssn_or_empty. simpl. rewrite Hparse. cbn [ssn_members]. rewrite CISet.elems_of_list, CISet.elems_to_list by done.
      intros k. rewrite !elem_of_list_to_set. intros (n & -> & Hn)%list_elem_of_fmap_1. apply list_elem_of_fmap_2.
      by apply Str.elem_of_sorted.
Qed.

Lemma star_param b : sync_param true b false ["*"] None = (Some "*", true).
Proof. by destruct b. Qed.

(** ** The steps *)

Lemma to_list_of_list n l : n ∈ CISet.to_list (CISet.of_list l) → n ∈ l.
Proof.
  unfold CISet.of_list. assert (∀ a, n ∈ CISet.to_list (foldl (λ x y, CISet.add y x) a l) → n ∈ CISet.to_list a ∨ n ∈ l) as Hf.
  { induction l as [|x l IH]; intros a; simpl; [by left|]. intros [Hn|Hn]%IH; rewrite elem_of_cons; [|by auto].
    apply to_list_add in Hn as [->|Hn]; auto. }
  intros [?%elem_of_nil|?]%Hf; done.
Qed.

Lemma clean_inter (voters allow : CISet.t) : Forall clean (CISet.to_list allow) → Forall clean (CISet.to_list (CISet.inter voters allow)).
Proof.
  rewrite !Forall_forall. intros Hc n Hn. apply Hc. apply to_list_of_list in Hn.
  apply list_elem_of_In, List.filter_In in Hn as [Hn _]. by apply list_elem_of_In.
Qed.

(** A key whose voters are those of the world *)
Definition key_known value (r : option (SyncState * CISet.t)) s : Prop :=
  match r with
  | Some (_, voters) => CISet.wf voters ∧ good_at value (CISet.elems voters) s
  | None => good s
  end.

Lemma good_at_good value V s : good_at value V s → good s.
Proof. by intros [? _]. Qed.

Lemma triple_write_key l nodes q v value V : l ≠ "" → CISet.wf nodes → Forall clean (CISet.to_list nodes) → CISet.elems nodes ⊆ listed_by value →
  triple (good_at value V) (mbind (M := syncM) (λ r, mret (M := syncM) (fmap (M := option) (λ sync, (sync, nodes)) r)) (write_sync_state (Some l) nodes q v))
    (key_known value) good.
Proof.
  intros Hl Hwf Hcl Hsub. eapply triple_bind; [by apply triple_write|]. intros [sync|]; apply triple_ret; intros s; simpl; [|done].
  intros [Hat _]. by split.
Qed.

Lemma triple_repair_leader name sync vs value : name ≠ "" → DcsData.voters sync = Ok vs →
  triple (good_at value (keys_of vs)) (repair_leader name sync) (key_known value) good.
Proof.
  intros Hname Hv. unfold repair_leader. eapply triple_bind.
  - apply (triple_lift _ _ (λ a s, a = vs ∧ good_at value (keys_of vs) s)); [|by apply good_at_good].
    intros a s Ha Hs. split; [congruence|done].
  - intros a. apply triple_pure. intros ->. destruct (pyval_eqb _ _).
    + apply triple_ret. intros s Hs. split; [apply CISet.wf_of_list|]. by rewrite CISet.elems_of_list.
    + apply triple_write_key; [done|apply CISet.wf_empty|constructor|]. rewrite CISet.elems_empty. set_solver.
Qed.

Lemma triple_repair_voters name sync picked allow voters value : name ≠ "" → CISet.wf allow → Forall clean (CISet.to_list allow) → CISet.elems allow ⊆ listed_by value →
  CISet.wf voters →
  triple (good_at value (CISet.elems voters)) (repair_voters name sync picked allow voters) (key_known value) good.
Proof.
  intros Hname Hwf Hcl Hsub Hv. unfold repair_voters. destruct (_ && _); [|by apply triple_ret].
  eapply triple_bind; [by apply triple_write|]. intros [sync'|]; [|by apply triple_ret].
  intros s [Hat (vs & Hvs & He)]. unfold lift_exc, mbind, syncM_bind, eff_bind. rewrite Hvs. simpl.
  split; [apply CISet.wf_of_list|]. by rewrite He.
Qed.

Lemma triple_assign name sync picked allow common value V : name ≠ "" → CISet.wf allow → Forall clean (CISet.to_list allow) → CISet.elems allow ⊆ listed_by value →
  triple (good_at value V) (assign_sync_standbys g c name sync picked allow common) (λ _, good) good.
Proof.
  intros Hname Hwf Hcl Hsub. unfold assign_sync_standbys.
  eapply (triple_bind _ _ _ (λ a s, (CISet.wf a ∧ Forall clean (CISet.to_list a) ∧ CISet.elems a ⊆ listed_by value) ∧ good_at value V s)).
  - destruct (_ && _); [|by apply triple_ret].
    eapply (triple_bind _ _ _ (λ _, good_at value V)).
    + intros [h w] ([Hr Hg] & Hn & Hv). unfold act. simpl in *. pose proof (sw_sleep 2 w) as Hsl.
      pose proof (quiet_guarded _ _ Hsl Hg) as Hg'. destruct Hsl as (Hn' & Hv' & _).
      assert (good_at value V (h, (sleep 2 w).2)) as Hat by (split_and!; [by split|simpl; congruence|simpl; congruence]).
      destruct (sleep 2 w) as [[[]|e] w']; [exact Hat|apply Hat].
    + intros _. eapply triple_bind; [apply triple_current_state|]. intros st. apply triple_ret.
      intros s (Hat & _ & Hl & _ & Hw & _ & _ & Hc). by split_and!.
  - intros a. apply triple_pure. intros (Hwa & Hca & Hsa). destruct (_ && _); [|apply triple_ret; by apply good_at_good].
    eapply triple_bind; [by apply triple_write|]. intros [sync'|]; apply triple_ret; [|done].
    intros s [Hat _]. by eapply good_at_good.
Qed.

Hypothesis by_priority : is_quorum_commit_mode g = false.

Lemma triple_change name sync picked allow voters value :
  name ≠ "" → CISet.wf picked → CISet.wf allow → CISet.wf voters → CISet.elems allow ⊆ CISet.elems picked →
  CISet.elems allow ⊆ listed_by value → Forall clean (CISet.to_list allow) → Forall safe (CISet.to_list picked) → "*" ∉ CISet.to_list picked →
  triple (good_at value (CISet.elems voters)) (change_sync_standbys g c name sync picked allow voters) (λ _, good) good.
Proof.
  intros Hname Hp Ha Hv Hap Hal Hcl Hs Hstar. unfold change_sync_standbys.
  set (common := CISet.inter voters allow).
  assert (CISet.elems common = CISet.elems voters ∩ CISet.elems allow) as Hcommon by by apply CISet.elems_inter.
  assert (CISet.wf common) as Hwc by apply CISet.wf_inter.
  assert (Forall clean (CISet.to_list common)) as Hcc by by apply clean_inter.
  eapply (triple_bind _ _ _ (λ r s, match r with Some _ => good_at value (CISet.elems common) s | None => good s end)).
  - destruct (CISet.eqb common voters) eqn:E.
    + apply triple_ret. intros s. rewrite CISet.eqb_elems in E by done. apply bool_decide_eq_true in E. by rewrite E.
    + eapply triple_conseq; [apply (triple_write _ _ _ _ value (CISet.elems voters)); [done|done|done|rewrite Hcommon; set_solver]|done| |done].
      intros [sync'|] s; [|done]. by intros [? _].
  - intros [sync'|]; [|by apply triple_ret].
    destruct (is_synchronous_mode_strict g && negb (CISet.truthy picked)) eqn:E.
    + apply andb_prop in E as [_ E%negb_true_iff]. rewrite CISet.truthy_elems in E by done. apply bool_decide_eq_false in E.
      assert (CISet.elems common = ∅) as He by (apply dec_stable in E; rewrite Hcommon; set_solver).
      eapply triple_bind; [apply (triple_set _ _ _ (Some "*") true); [done|apply star_param|rewrite He; set_solver]|].
      intros []. apply triple_assign; [done|done|done|]. apply dec_stable in E. set_solver.
    + destruct (listed_param picked Hp Hs Hstar) as (p & star & Hparam & Hl).
      eapply triple_bind; [apply (triple_set _ _ _ p star); [done|done|rewrite Hcommon; set_solver]|].
      intros []. apply triple_assign; [done|done|done|]. set_solver.
Qed.

Lemma triple_enable vs value : DcsData.voters (DcsData.sync c) = Ok vs →
  triple (good_at value (keys_of vs)) (_maybe_enable_synchronous_mode c)
    (λ r s, match r with Some sync => ∃ vs, DcsData.voters sync = Ok vs ∧ good_at value (keys_of vs) s | None => good s end) good.
Proof.
  intros Hv. unfold _maybe_enable_synchronous_mode.
  eapply (triple_bind _ _ _ (λ w s, pg_name w ≠ "" ∧ good_at value (keys_of vs) s)).
  - apply triple_gets. intros s Hs. split; [apply sw_name|done].
  - intros w. apply triple_pure. intros Hname. destruct (s_is_empty _); [|apply triple_ret; intros s Hs; by exists vs].
    eapply triple_conseq; [apply (triple_write _ _ _ _ value (keys_of vs)); [done|apply CISet.wf_empty|constructor|rewrite CISet.elems_empty; set_solver]|done| |done].
    intros [sync|] s; [|done]. intros [Hat (vs' & Hvs & He)]. exists vs'. split; [done|].
    rewrite CISet.elems_of_list in He. unfold keys_of. by rewrite He.
Qed.

Lemma triple_multisync vs value : DcsData.voters (DcsData.sync c) = Ok vs →
  triple (good_at value (keys_of vs)) (_process_multisync_replication g c) (λ _, good) good.
Proof.
  intros Hv. unfold _process_multisync_replication. eapply triple_bind; [by apply triple_enable|].
  intros [sync|]; [|by apply triple_ret]. clear vs Hv. intros s (vs & Hv & Hs). revert s Hs.
  change (triple (good_at value (keys_of vs)) ?m ?Q ?R) with (triple (good_at value (keys_of vs)) m Q R).
  eapply triple_bind; [apply triple_current_state|]. intros st.
  eapply triple_conseq; [|intros s (Hat & Hx); exact (conj Hx Hat)|intros a s Ha; exact Ha|intros s Ha; exact Ha]. apply triple_pure.
  intros (Hca & Hcl & Hwa & Hwc & Hsafe & Hstar & Hclean).
  eapply (triple_bind _ _ _ (λ w s, pg_name w ≠ "" ∧ good_at value (keys_of vs) s)).
  { apply triple_gets. intros s Hs. split; [apply sw_name|done]. }
  intros w. apply triple_pure. intros Hname.
  eapply triple_bind; [by apply triple_repair_leader|]. intros [[sync1 voters1]|]; [|by apply triple_ret]. apply triple_pure. intros Hw1.
  eapply triple_bind; [by apply triple_repair_voters|]. intros [[sync2 voters2]|]; [|by apply triple_ret]. apply triple_pure. intros Hw2.
  destruct (_ && _); [apply triple_ret; by apply good_at_good|]. by apply triple_change.
Qed.

(** C17: without quorum commit the nodes that [/sync] allows to be promoted are listed in
    [synchronous_standby_names] at every moment of [_process_multisync_replication] - also when a
    write fails, when it raises after having taken effect, and whatever the server has
    become meanwhile - provided they were when it started with a fresh view of the key. *)
Theorem multisync_guarded h w vs :
  reachable h → guarded w → DcsData.voters (DcsData.sync c) = Ok vs → keys_of vs = sync_voters w →
  guarded (_process_multisync_replication g c (h, w)).2.2 ∧ reachable (_process_multisync_replication g c (h, w)).2.1.
Proof.
  intros Hr Hg Hv Hk. pose proof (triple_multisync vs (synchronous_standby_names w) Hv (h, w)) as Ht.
  destruct (_process_multisync_replication g c (h, w)) as [[[]|e] s]; simpl.
  - by destruct Ht as [? ?]; [split_and!|].
  - by destruct Ht as [? ?]; [split_and!|].
Qed.
End multisync.

(** ** Witness *)

#[local] Existing Instance text_datetime.

(** A primary [a] with a standby [b], and a DCS that accepts every write *)
Record toy := MkToy { toy_ssn : string; toy_voters : gset string; toy_history : list (gset string * gset string) }.

Definition toy_log (ssn : string) (V : gset string) (w : toy) : toy := MkToy ssn V ((V, listed_by ssn) :: toy_history w).
Definition toy_quiet (w : toy) : exc () * toy := (Ok (), toy_log (toy_ssn w) (toy_voters w) w).

#[local] Instance toy_postgres : SyncPostgres toy := {
  pg_name _ := "a"; synchronous_commit _ := "on"; pg_stat_replication _ := [MkRow 1 "b" "sync" (Some 5) (Some 5) (Some 5)];
  last_operation _ := 5; synchronous_standby_names := toy_ssn; supports_multiple_sync _ := true;
  supports_quorum_commit _ := true; is_primary_running _ := true; get_primary_timeline _ := 1;
  query_txid_current := toy_quiet; reset_cluster_info_state := toy_quiet;
  config_set_synchronous_standby_names p w := (Ok true, toy_log (default "" p) (toy_voters w) w);
}.

#[local] Instance toy_dcs : SyncDcs toy := {
  hs_time _ := 0; loop_wait _ := 10; sleep _ := toy_quiet;
  dcs_write_sync_state l nodes q v w :=
    (Ok (Some (sync_from_node (VInt 1) (VDict (Dcs.sync_state l nodes (Some q))))), toy_log (toy_ssn w) (keys_of nodes) w);
  dcs_delete_sync_state _ w := (Ok true, toy_log (toy_ssn w) ∅ w);
  user_synchronous_standby_names _ := None;
}.

Lemma safe_b : safe "b" ∧ clean "b".
Proof. split; [by repeat constructor|by split_and!]. Qed.

#[local, refine] Instance toy_world : SyncWorld (W := toy) := {
  sync_voters := toy_voters; history := toy_history;
  sw_supports _ := eq_refl; sw_name _ := _; sw_names := _; sw_query _ := _; sw_reset _ := _; sw_sleep _ _ := _; sw_set := _; sw_write := _;
}.
Proof.
  - done.
  - intros w row ->%list_elem_of_singleton. destruct safe_b. by split_and!.
  - by split_and!.
  - by split_and!.
  - by split_and!.
  - intros p w. simpl. split_and!; [done|done|by left].
  - intros l nodes q v w. simpl. split_and!; [done|done|by right|done|]. intros Hl Hn Hc.
    destruct l as [l|]; [|done]. assert (l ≠ "") as Hne by congruence. exists (Str.sorted nodes).
    rewrite sync_from_value by done. unfold voters, s_is_empty. simpl.
    assert (keys_of (Str.sorted nodes) = keys_of nodes) as Hk.
    { unfold keys_of. apply set_eq. intros x. by rewrite !elem_of_list_to_set, Str.sorted_perm. }
    split; [|done]. destruct (String.eqb_spec l "") as [|_]; [done|]. simpl. destruct nodes as [|x ns]; [done|].
    assert (Str.sorted (x :: ns) ≠ []) as Hs by (intros Hs; pose proof (Str.length_sorted (x :: ns)) as Hlen; by rewrite Hs in Hlen).
    pose proof (str_to_list_join _ (sorted_clean _ Hc) Hs) as Hj.
    assert (Str.join "," (Str.sorted (x :: ns)) ≠ "") as Hjoin by (intros He; by rewrite He in Hj).
    case_match eqn:E; [exact (f_equal Ok Hj)|]. apply negb_false_iff, String.eqb_eq in E. done.
Defined.

Lemma multisync_guarded_witness :
  guarded (_process_multisync_replication [] (cluster_empty (H := text_datetime)) (sync_handler_init, MkToy "b" ∅ [])).2.2.
Proof.
  apply (multisync_guarded [] cluster_empty eq_refl sync_handler_init (MkToy "b" ∅ []) []).
  - apply reachable_init.
  - split; [apply (empty_subseteq (C := gset string))|cbv [history toy_world toy_history]; by constructor].
  - reflexivity.
  - reflexivity.
Defined.
