(* ===== verification/Watchdog.v ===== *)
(** * The watchdog ([patroni/watchdog/base.py], [patroni/watchdog/linux.py])

    A watchdog device resets the node when it gets no keepalive for its timeout.  [Watchdog] is
    the facade the agent uses; behind it is a Linux device or, after a failure, a
    [NullWatchdog].  The system calls on the device are those of a world [W]. *)
From S2P Require Import Prelude PyDict PyVal Effects.

Open Scope string_scope.
Open Scope Z_scope.

(** ** The configuration *)

Inductive wd_mode := MODE_REQUIRED | MODE_AUTOMATIC | MODE_OFF.
#[export] Instance wd_mode_eq_dec : EqDecision wd_mode.
Proof. solve_decision. Defined.

(** [parse_mode] *)
Definition parse_mode (mode : pyval) : wd_mode :=
  match mode with
  | VBool false => MODE_OFF
  | _ =>
      let mode := Str.lower (py_str mode) in
      if bool_decide (mode ∈ ["require"; "required"]) then MODE_REQUIRED
      else if bool_decide (mode ∈ ["auto"; "automatic"]) then MODE_AUTOMATIC
      else MODE_OFF
  end.

Record WatchdogConfig := MkWdConfig {
  wc_mode : wd_mode; wc_ttl : Z; wc_loop_wait : Z; safety_margin : Z; driver : pyval; driver_config : dict pyval;
}.

(** [WatchdogConfig.__init__]; [None] for a safety margin that is not an integer *)
Definition wd_config (watchdog : pyval) (ttl loop_wait : Z) : option WatchdogConfig :=
  let section := match watchdog with VDict d => if truthy watchdog then d else [("mode", VStr "automatic")]
                                 | _ => [("mode", VStr "automatic")] end in
  match vget_or "safety_margin" (VInt 5) section with
  | VInt margin =>
      Some (MkWdConfig (parse_mode (vget_or "mode" (VStr "automatic") section)) ttl loop_wait margin
              (vget_or "driver" (VStr "default") section)
              (List.filter (λ kv, negb (bool_decide (kv.1 ∈ ["mode"; "safety_margin"; "driver"]))) section))
  | _ => None
  end.

(** [==] of two dictionaries *)
Definition dict_eqb (a b : dict pyval) : bool :=
  (length a =? length b)%nat &&
  forallb (λ kv, match Dict.get kv.1 b with Some v => pyval_eqb kv.2 v | None => false end) a.

(** [WatchdogConfig.__eq__] *)
Definition config_eqb (a b : WatchdogConfig) : bool :=
  bool_decide (wc_mode a = wc_mode b) && (wc_ttl a =? wc_ttl b) && (wc_loop_wait a =? wc_loop_wait b) &&
  (safety_margin a =? safety_margin b) && pyval_eqb (driver a) (driver b) && dict_eqb (driver_config a) (driver_config b).

(** [timeout], [timing_slack] *)
Definition timeout (c : WatchdogConfig) : Z :=
  if safety_margin c =? -1 then wc_ttl c `div` 2 else wc_ttl c - safety_margin c.
Definition timing_slack (c : WatchdogConfig) : Z := timeout c - wc_loop_wait c.

(** ** Devices *)

(** System calls: [open], [write], [close] on the file, the three ioctls, and whether the file exists
    and is writable.  Each may raise [OSError]. *)
Class WatchdogOs (W : Type) := {
  os_open : string → W → exc Z * W;
  os_write : Z → string → W → exc () * W;
  os_close : Z → W → exc () * W;
  ioctl_getsupport : Z → W → exc Z * W;
  ioctl_settimeout : Z → Z → W → exc () * W;
  ioctl_gettimeout : Z → W → exc Z * W;
  writable : string → W → bool;
  is_linux : W → bool;
}.

(** [LinuxWatchdogDevice]; [testing] is the timeout of a [TestingWatchdogDevice] *)
Record LinuxDevice := MkDevice { device : pyval; support_cache : option Z; fd : option Z; testing : option Z }.

(** The implementation behind the facade: [NullWatchdog] or a device *)
Inductive wd_impl := NullWatchdog | Device (x : LinuxDevice).
Definition is_null (i : wd_impl) : bool := match i with NullWatchdog => true | Device _ => false end.

(** [is_running] *)
Definition impl_running (i : wd_impl) : bool :=
  match i with NullWatchdog => false | Device x => match fd x with Some _ => true | None => false end end.

Record Watchdog := MkWatchdog { config : WatchdogConfig; active_config : WatchdogConfig; active : bool; impl : wd_impl }.

Section watchdog.
Context {W : Type} `{!WatchdogOs W}.

Definition wdM (A : Type) : Type := eff (Watchdog * W) A.
#[global] Instance wdM_ret : MRet wdM := eff_ret _.
#[global] Instance wdM_bind : MBind wdM := eff_bind _.

Definition self : wdM Watchdog := gets fst.
Definition set_impl (i : wd_impl) : wdM () :=
  puts (λ s, (MkWatchdog (config s.1) (active_config s.1) (active s.1) i, s.2)).
Definition set_active (b : bool) : wdM () :=
  puts (λ s, (MkWatchdog (config s.1) (active_config s.1) b (impl s.1), s.2)).
Definition set_active_config (c : WatchdogConfig) : wdM () :=
  puts (λ s, (MkWatchdog (config s.1) c (active s.1) (impl s.1), s.2)).
Definition set_config (c : WatchdogConfig) : wdM () :=
  puts (λ s, (MkWatchdog c (active_config s.1) (active s.1) (impl s.1), s.2)).

Definition os {A} (op : W → exc A * W) : wdM A := λ s, let '(r, w) := op s.2 in (r, (s.1, w)).
Definition throw {A} : wdM A := lift_exc (Raise WatchdogError).

Definition is_os_error (e : pyexn) : bool := match e with OSError => true | _ => false end.
Definition is_device_error (e : pyexn) : bool := match e with OSError | WatchdogError => true | _ => false end.

(** [DEFAULT_DEVICE] *)
Definition default_device : pyval := VStr "/dev/watchdog".

(** [WDIOF], bits of the options *)
Definition SETTIMEOUT : Z := 128.
Definition MAGICCLOSE : Z := 256.
Definition has_option (options bit : Z) : bool := negb (Z.land options bit =? 0).

(** [_ioctl] and the conversion of its errors *)
Definition ioctl {A} (x : LinuxDevice) (op : Z → W → exc A * W) : wdM A :=
  match fd x with
  | Some f => try_except is_device_error (os (op f)) throw
  | None => throw
  end.

(** [get_support] *)
Definition get_support (x : LinuxDevice) : wdM Z :=
  match testing x with
  | Some _ => mret (Z.lor MAGICCLOSE SETTIMEOUT)
  | None =>
      match support_cache x with
      | Some options => mret options
      | None =>
          options ← ioctl x ioctl_getsupport;
          set_impl (Device (MkDevice (device x) (Some options) (fd x) (testing x)));;
          mret options
      end
  end.

(** The methods of the implementation *)
Definition impl_of : wdM wd_impl := s ← self; mret (impl s).

Definition impl_open : wdM () :=
  i ← impl_of;
  match i with
  | NullWatchdog => mret ()
  | Device x =>
      f ← try_except is_os_error (os (os_open (py_str (device x)))) throw;
      set_impl (Device (MkDevice (device x) (support_cache x) (Some f) (testing x)))
  end.

Definition impl_close : wdM () :=
  i ← impl_of;
  match i with
  | Device x =>
      match fd x with
      | Some f =>
          try_except is_os_error (os (os_write f "V");; os (os_close f)) throw;;
          set_impl (Device (MkDevice (device x) (support_cache x) None (testing x)))
      | None => mret ()
      end
  | NullWatchdog => mret ()
  end.

Definition can_be_disabled : wdM bool :=
  i ← impl_of;
  match i with
  | NullWatchdog => mret true
  | Device x => options ← get_support x; mret (has_option options MAGICCLOSE)
  end.

Definition has_set_timeout : wdM bool :=
  i ← impl_of;
  match i with
  | NullWatchdog => mret false
  | Device x => options ← get_support x; mret (has_option options SETTIMEOUT)
  end.

Definition impl_keepalive : wdM () :=
  i ← impl_of;
  match i with
  | NullWatchdog => mret ()
  | Device x => match fd x with Some f => try_except is_os_error (os (os_write f "1")) throw | None => throw end
  end.

Definition impl_get_timeout : wdM Z :=
  i ← impl_of;
  match i with
  | NullWatchdog => mret 1000000000
  | Device x => match testing x with Some t => mret t | None => ioctl x ioctl_gettimeout end
  end.

Definition impl_set_timeout (t : Z) : wdM () :=
  i ← impl_of;
  match i with
  | NullWatchdog => throw
  | Device x =>
      match testing x with
      | Some _ =>
          match fd x with
          | Some f => os (os_write f ("Ctimeout=" +:+ pretty t +:+ String "010" ""));;
                      set_impl (Device (MkDevice (device x) (support_cache x) (fd x) (Some t)))
          | None => throw
          end
      | None => if (0 <? t) && (t <? 65535) then ioctl x (λ f, ioctl_settimeout f t) else throw
      end
  end.

(** [get_impl] *)
Definition get_impl (c : WatchdogConfig) (w : W) : wd_impl :=
  let dev t := Device (MkDevice (vget_or "device" default_device (driver_config c)) None None t) in
  if pyval_eqb (driver c) (VStr "testing") then dev (Some 60)
  else if is_linux w && pyval_eqb (driver c) (VStr "default") then dev None
  else NullWatchdog.
Definition renew_impl (c : WatchdogConfig) : wdM () := λ s, set_impl (get_impl c s.2) s.

(** ** The facade *)

(** [Watchdog.__init__]: a required watchdog that is not supported ends the process. *)
Definition wd_init (c : WatchdogConfig) (w : W) : exc Watchdog :=
  if bool_decide (wc_mode c = MODE_OFF) then Ok (MkWatchdog c c false NullWatchdog)
  else let i := get_impl c w in
       if bool_decide (wc_mode c = MODE_REQUIRED) && is_null i then Raise SystemExit else Ok (MkWatchdog c c false i).

(** [_set_timeout] *)
Definition _set_timeout : wdM (option Z) :=
  has ← has_set_timeout;
  (if has : bool then s ← self; impl_set_timeout (timeout (config s)) else mret ());;
  actual ← impl_get_timeout;
  s ← self;
  if impl_running (impl s) && (actual <? wc_loop_wait (config s)) then
    magic ← can_be_disabled;
    if magic : bool then impl_close;; set_impl NullWatchdog;; mret None else mret (Some actual)
  else mret (Some actual).

Definition is_watchdog_error (e : pyexn) : bool := match e with WatchdogError => true | _ => false end.

(** Opening the device: after an error there is none. *)
Definition open_device : wdM (option Z) :=
  try_except is_watchdog_error (impl_open;; _set_timeout) (set_impl NullWatchdog;; t ← impl_get_timeout; mret (Some t)).

(** The checks at the end of [_activate] *)
Definition check_device (c : WatchdogConfig) (actual : option Z) : wdM bool :=
  s ← self;
  (if impl_running (impl s) then can_be_disabled;; mret () else mret ());;
  s ← self;
  let unsafe := match actual with Some t => negb (t =? 0) && (timeout c <? t) | None => false end in
  let required := bool_decide (wc_mode c = MODE_REQUIRED) in
  if (negb (impl_running (impl s)) || unsafe) && required then mret false
  else if impl_running (impl s) then mret true
  else mret (negb required).

(** [_activate] *)
Definition _activate : wdM bool :=
  s ← self;
  let c := config s in
  set_active_config c;;
  (if timing_slack c <? 0 then set_impl NullWatchdog else mret ());;
  actual ← open_device;
  check_device c actual.

(** [activate] *)
Definition activate : wdM bool := set_active true;; _activate.

(** [_disable] *)
Definition _disable : wdM () :=
  try_except is_watchdog_error (
    s ← self;
    keep ← (if impl_running (impl s) then magic ← can_be_disabled; mret (negb magic) else mret false);
    (if keep : bool then impl_keepalive;; impl_get_timeout;; mret () else mret ());;
    impl_close) (mret ()).

(** [disable] *)
Definition disable : wdM () := _disable;; set_active false.

(** [keepalive] *)
Definition same_driver (a b : WatchdogConfig) : bool :=
  pyval_eqb (driver a) (driver b) && dict_eqb (driver_config a) (driver_config b).
Definition keepalive : wdM () :=
  try_except is_watchdog_error (
    s ← self;
    (if active s then impl_keepalive else mret ());;
    s ← self;
    if active s && negb (config_eqb (config s) (active_config s)) then
      (if negb (bool_decide (wc_mode (config s) = MODE_OFF)) && bool_decide (wc_mode (active_config s) = MODE_OFF)
       then renew_impl (config s);; _activate;; mret () else mret ());;
      s ← self;
      (if negb (same_driver (config s) (active_config s)) then _disable;; renew_impl (config s);; _activate;; mret () else mret ());;
      s ← self;
      (if negb (timeout (config s) =? timeout (active_config s)) then
         impl_set_timeout (timeout (config s));;
         s ← self;
         (if impl_running (impl s) then impl_get_timeout;; mret () else mret ())
       else mret ());;
      s ← self; set_active_config (config s)
    else mret ()) (mret ()).

(** [reload_config] *)
Definition reload_config (c : WatchdogConfig) : wdM () :=
  set_config c;;
  (if bool_decide (wc_mode c = MODE_OFF) then
     s ← self; (if active s then _disable else mret ());; set_active_config c;; set_impl NullWatchdog
   else mret ());;
  s ← self;
  if active s then mret () else
  (if negb (same_driver c (active_config s)) then renew_impl c else mret ());;
  set_active_config c.

(** [is_running], [is_healthy] *)
Definition wd_is_running : wdM bool := s ← self; mret (impl_running (impl s)).
Definition wd_is_healthy (s : Watchdog) (w : W) : bool :=
  if negb (bool_decide (wc_mode (config s) = MODE_REQUIRED)) then true
  else (0 <=? timing_slack (config s)) &&
       match impl s with Device x => writable (py_str (device x)) w | NullWatchdog => false end.
End watchdog.

(** * Properties of the watchdog

    What holds of the device when a required watchdog is reported as active. *)

(** What the kernel documents: the timeout it reports is the one in force, which only opening the
    device and setting it may change. *)
Class WatchdogKernel (W : Type) `{!WatchdogOs W} := {
  kernel_timeout : W → Z;
  gettimeout_reports : ∀ f w, let '(r, w') := ioctl_gettimeout f w in
    kernel_timeout w' = kernel_timeout w ∧ (∀ t, r = Ok t → t = kernel_timeout w);
  getsupport_keeps : ∀ f w, kernel_timeout (ioctl_getsupport f w).2 = kernel_timeout w;
}.

Section activation.
Context {W : Type} `{!WatchdogOs W, !WatchdogKernel W} (c : WatchdogConfig).
Implicit Types (s : Watchdog * W).

(** The configuration, and a device that is not the one of the tests *)
Definition real (i : wd_impl) : Prop := match i with Device x => testing x = None | NullWatchdog => True end.
Definition fine s : Prop := config s.1 = c ∧ real (impl s.1).

(** The device has said that it cannot be disabled. *)
Definition unstoppable (i : wd_impl) : Prop :=
  match i with Device x => ∃ o, support_cache x = Some o ∧ has_option o MAGICCLOSE = false | NullWatchdog => False end.

(** Nothing is lost of what is known of the device: whether it is running, its timeout, and that it cannot be disabled. *)
Definition as_before s s' : Prop :=
  fine s' ∧ kernel_timeout s'.2 = kernel_timeout s.2 ∧ impl_running (impl s'.1) = impl_running (impl s.1) ∧
  (unstoppable (impl s.1) → unstoppable (impl s'.1)).
Definition steady {A} (m : wdM (W := W) A) : Prop := ∀ s, fine s → as_before s (m s).2.

Lemma as_before_refl s : fine s → as_before s s.
Proof. by intros Hs. Qed.

(** What [get_support] answers is remembered. *)
Lemma get_support_steady x s : impl s.1 = Device x → fine s → let '(r, s') := get_support x s in
  as_before s s' ∧ ∀ o, r = Ok o → ∃ y, impl s'.1 = Device y ∧ support_cache y = Some o.
Proof.
  intros Hi [Hc Hr]. assert (testing x = None) as Ht by (by rewrite Hi in Hr). unfold get_support. rewrite Ht.
  destruct (support_cache x) as [o|] eqn:Ho; [split; [by apply as_before_refl|]; intros o' [= <-]; by exists x|].
  assert (¬ unstoppable (impl s.1)) as Hu by (rewrite Hi; intros (? & ? & _); congruence).
  unfold ioctl. destruct (fd x) as [f|] eqn:Hf; [|by split; [apply as_before_refl|]].
  unfold mbind, wdM_bind, eff_bind, try_except, os. pose proof (getsupport_keeps f s.2) as Hk.
  destruct (ioctl_getsupport f s.2) as [[o|e] w]; cbn in *.
  - unfold as_before, fine. cbn. rewrite Hi in *. cbn. rewrite Hf. split; [by split_and!|]. intros o' [= <-]. by eexists.
  - destruct (is_device_error e); cbn; unfold as_before, fine; cbn; split; by try split_and!.
Qed.

Lemma can_be_disabled_steady s : fine s → let '(r, s') := can_be_disabled s in
  as_before s s' ∧ (r = Ok false → unstoppable (impl s'.1)).
Proof.
  intros Hs. unfold can_be_disabled. change ((impl_of ≫= ?f) s) with (f (impl s.1) s).
  destruct (impl s.1) as [|x] eqn:Hi; cbn beta iota; [by split; [apply as_before_refl|]|].
  pose proof (get_support_steady x s Hi Hs) as H. unfold mbind, wdM_bind, eff_bind.
  destruct (get_support x s) as [[o|e] s']; destruct H as [H Ho]; [|by split]. split; [done|].
  intros [= Hm]. destruct (Ho o eq_refl) as (y & -> & Hy). by exists o.
Qed.

Lemma steady_has_set : steady has_set_timeout.
Proof.
  intros s Hs. unfold has_set_timeout. change ((impl_of ≫= ?f) s) with (f (impl s.1) s).
  destruct (impl s.1) as [|x] eqn:Hi; cbn beta iota; [by apply as_before_refl|].
  pose proof (get_support_steady x s Hi Hs) as H. unfold mbind, wdM_bind, eff_bind.
  by destruct (get_support x s) as [[o|e] s']; destruct H.
Qed.

(** Reading the timeout of a running device *)
Lemma get_timeout_reads s : fine s → let '(r, s') := impl_get_timeout s in
  fine s' ∧ kernel_timeout s'.2 = kernel_timeout s.2 ∧ impl_running (impl s'.1) = impl_running (impl s.1) ∧
  ∀ t, r = Ok t → impl_running (impl s'.1) = true → t = kernel_timeout s'.2.
Proof.
  intros [Hc Hr]. unfold impl_get_timeout. change ((impl_of ≫= ?f) s) with (f (impl s.1) s).
  destruct (impl s.1) as [|x] eqn:Hi; cbn.
  - unfold fine. rewrite ?Hi. by split_and!.
  - cbn in Hr. rewrite Hr. unfold ioctl. destruct (fd x) as [f|] eqn:Hf.
    + unfold try_except, os. pose proof (gettimeout_reports f s.2) as Hk. destruct (ioctl_gettimeout f s.2) as [r w].
      destruct Hk as [Hk Ht]. destruct r as [t|e]; cbn.
      * unfold fine. cbn. rewrite ?Hi; cbn; rewrite ?Hf. split_and!; [done..|]. intros t' [= <-] _. rewrite Hk. by apply Ht.
      * destruct (is_device_error e); cbn; unfold fine; cbn; rewrite ?Hi; cbn; rewrite ?Hf; by split_and!.
    + cbn. unfold fine. rewrite ?Hi; cbn; rewrite ?Hf. by split_and!.
Qed.

(** ** Activation *)

Lemma fine_open s : fine s → let '(_, s') := impl_open s in fine s'.
Proof.
  intros [Hc Hr]. unfold impl_open. change ((impl_of ≫= ?f) s) with (f (impl s.1) s).
  destruct (impl s.1) as [|x] eqn:Hi; cbn; [by split; [|rewrite Hi]|].
  unfold mbind, wdM_bind, eff_bind, try_except, os. destruct (os_open _ _) as [[f|e] w]; cbn; [by split|].
  destruct (is_os_error e); cbn; unfold fine; cbn; by rewrite Hi.
Qed.

Lemma fine_set_timeout t s : fine s → let '(_, s') := impl_set_timeout t s in fine s'.
Proof.
  intros [Hc Hr]. unfold impl_set_timeout. change ((impl_of ≫= ?f) s) with (f (impl s.1) s).
  destruct (impl s.1) as [|x] eqn:Hi; cbn; [by split; [|rewrite Hi]|]. cbn in Hr. rewrite Hr.
  destruct (_ && _); [|unfold fine; cbn; by rewrite Hi]. unfold ioctl. destruct (fd x); [|unfold fine; cbn; by rewrite Hi].
  unfold try_except, os. destruct (ioctl_settimeout _ _ _) as [[|e] w]; cbn; [unfold fine; cbn; by rewrite Hi|].
  destruct (is_device_error e); cbn; unfold fine; cbn; by rewrite Hi.
Qed.

Lemma fine_close s : fine s → let '(_, s') := impl_close s in fine s'.
Proof.
  intros [Hc Hr]. unfold impl_close. change ((impl_of ≫= ?f) s) with (f (impl s.1) s).
  destruct (impl s.1) as [|x] eqn:Hi; cbn; [by split; [|rewrite Hi]|]. destruct (fd x) as [f|]; [|unfold fine; cbn; by rewrite Hi].
  unfold mbind, wdM_bind, eff_bind, try_except, os. destruct (os_write _ _ _) as [[[]|e] w]; cbn.
  - destruct (os_close _ _) as [[[]|e] w']; cbn; [by split|]. destruct (is_os_error e); cbn; unfold fine; cbn; by rewrite Hi.
  - destruct (is_os_error e); cbn; unfold fine; cbn; by rewrite Hi.
Qed.

(** What [_set_timeout] reports is in force, and it is no shorter than a cycle or the device cannot be disabled. *)
Definition in_force (t : option Z) s : Prop :=
  fine s ∧ (impl_running (impl s.1) = true → t = Some (kernel_timeout s.2)).
Definition long_enough s : Prop :=
  impl_running (impl s.1) = true → wc_loop_wait c ≤ kernel_timeout s.2 ∨ unstoppable (impl s.1).
Definition reported (t : option Z) s : Prop := in_force t s ∧ long_enough s.

Lemma in_force_later t s s' : in_force t s → as_before s s' → in_force t s'.
Proof. intros [_ Ht] (Hf & Hk & Hr & _). split; [done|]. rewrite Hk, Hr. exact Ht. Qed.
Lemma reported_later t s s' : reported t s → as_before s s' → reported t s'.
Proof.
  intros [Ht Hl] Hb. split; [by eapply in_force_later|]. destruct Hb as (_ & Hk & Hr & Hu). unfold long_enough. rewrite Hk, Hr.
  intros H. destruct (Hl H); [by left|right; auto].
Qed.

Lemma set_timeout_reports : triple fine _set_timeout reported fine.
Proof.
  unfold _set_timeout. eapply (triple_bind _ _ _ (λ _, fine)).
  { intros s Hs. destruct (steady_has_set s Hs) as (H1 & _). by destruct (has_set_timeout s) as [[b|e] s']. }
  intros has. eapply (triple_bind _ _ _ (λ _, fine)).
  { destruct has; [|by apply triple_ret]. eapply triple_bind; [apply (triple_gets fst _ (λ _, fine)); done|]. intros s0 s Hs.
    pose proof (fine_set_timeout (timeout (config s0)) s Hs) as H. by destruct (impl_set_timeout _ s) as [[[]|e] s']. }
  intros _. eapply (triple_bind _ _ _ (λ t, in_force (Some t))).
  { intros s Hs. pose proof (get_timeout_reads s Hs) as H. destruct (impl_get_timeout s) as [r s']. destruct H as (H1 & _ & _ & H2).
    destruct r as [t|e]; [|done]. split; [done|]. intros Hr. f_equal. by apply H2. }
  intros t. eapply (triple_bind _ _ _ (λ (s0 : Watchdog) s, s0 = s.1 ∧ in_force (Some t) s)); [by intros s Hs|]. intros s0.
  destruct (impl_running (impl s0) && _) eqn:Hshort.
  2:{ apply triple_ret. intros s [-> Ht]. split; [done|]. intros Hr. rewrite Hr in Hshort. destruct Ht as [[Hc _] Ht].
      specialize (Ht Hr). injection Ht as ->. rewrite Hc in Hshort. apply Z.ltb_ge in Hshort. by left. }
  eapply (triple_bind _ _ _ (λ (b : bool) s, in_force (Some t) s ∧ (b = false → unstoppable (impl s.1)))).
  { intros s [_ Ht]. pose proof (can_be_disabled_steady s (proj1 Ht)) as H.
    destruct (can_be_disabled s) as [[b|e] s']; destruct H as [H Hu]; [|by destruct H]. split; [by eapply in_force_later|].
    intros ->. by apply Hu. }
  intros []; [|apply triple_ret; intros s [Ht Hu]; split; [done|]; right; by apply Hu]. eapply (triple_bind _ _ _ (λ _, fine)).
  { intros s [[Hs _] _]. pose proof (fine_close s Hs) as H. by destruct (impl_close s) as [[[]|e] s']. }
  intros _ s [Hc _]. split; [by split; [split|]|done].
Qed.

Lemma null_device s : impl s.1 = NullWatchdog → open_device s = (Ok (Some 1000000000), s).
Proof. destruct s as [[c1 c2 b i] w]. cbn. by intros ->. Qed.

Lemma open_device_reports : triple fine open_device reported fine.
Proof.
  intros s Hs. unfold open_device, try_except.
  assert (triple fine (impl_open;; _set_timeout) reported fine) as Ht.
  { eapply (triple_bind _ _ _ (λ _, fine)); [|intros ?; apply set_timeout_reports].
    intros s1 Hs1. pose proof (fine_open s1 Hs1) as H. by destruct (impl_open s1) as [[[]|e] s']. }
  specialize (Ht s Hs). destruct ((impl_open;; _set_timeout) s) as [[t|e] [d w]]; [done|].
  destruct (is_watchdog_error e); [|done]. destruct Ht as [Hc _]. destruct d. cbn in *. split; [by split; [split|]|done].
Qed.

(** What a required watchdog guarantees once it is active *)
Definition guards s : Prop := impl_running (impl s.1) = true ∧ (kernel_timeout s.2 = 0 ∨ kernel_timeout s.2 ≤ timeout c) ∧
  (wc_loop_wait c ≤ kernel_timeout s.2 ∨ unstoppable (impl s.1)).

Hypothesis required : wc_mode c = MODE_REQUIRED.

Lemma check_device_guards t : triple (reported t) (check_device c t) (λ b s, b = true → guards s) (λ _, True).
Proof.
  unfold check_device. rewrite bool_decide_eq_true_2 by exact required.
  eapply (triple_bind _ _ _ (λ (_ : Watchdog) s, reported t s)); [by intros s Hs|]. intros s0.
  eapply (triple_bind _ _ _ (λ _, reported t)).
  { destruct (impl_running (impl s0)); [|by apply triple_ret]. intros s Hs. unfold mbind, wdM_bind, eff_bind.
    pose proof (can_be_disabled_steady s (proj1 (proj1 Hs))) as H. destruct (can_be_disabled s) as [[b|e] s']; [|done].
    destruct H as [H _]. by eapply reported_later. }
  intros _ s [[Hs Ht] Hl]. unfold mbind, wdM_bind, eff_bind. cbn. rewrite andb_true_r.
  destruct (impl_running (impl s.1)) eqn:Hr; cbn; [|done]. rewrite (Ht eq_refl).
  destruct (Z.eqb_spec (kernel_timeout s.2) 0), (Z.ltb_spec (timeout c) (kernel_timeout s.2)); cbn; intros ?; first [done|split; [done|split; [lia|by apply Hl]]].
Qed.

Lemma check_device_null t s : impl s.1 = NullWatchdog → (check_device c t s).1 = Ok false.
Proof.
  intros Hi. unfold check_device, mbind, wdM_bind, eff_bind. rewrite bool_decide_eq_true_2 by exact required.
  destruct s as [[c1 c2 b i] w]. cbn in *. by subst i.
Qed.

(** C15: when the watchdog is required, [activate] says yes only when a device is running; the configured timeout -
    the time to live less the safety margin, or half of it - is no shorter than the pause between two cycles; the
    timeout that the kernel has in force is no longer than the configured one, or is 0; and it is no shorter than the
    pause between two cycles either, unless the device has said that it cannot be disabled. *)
Theorem watchdog_required_safe s : fine s → (activate s).1 = Ok true →
  impl_running (impl (activate s).2.1) = true ∧ 0 ≤ timing_slack c ∧
  (kernel_timeout (activate s).2.2 = 0 ∨ kernel_timeout (activate s).2.2 ≤ timeout c) ∧
  (wc_loop_wait c ≤ kernel_timeout (activate s).2.2 ∨ unstoppable (impl (activate s).2.1)).
Proof.
  intros [Hc Hr] Ha. set (s1 := (MkWatchdog c c true (impl s.1), s.2) : Watchdog * W).
  assert (activate s = ((if timing_slack c <? 0 then set_impl NullWatchdog else mret ());; actual ← open_device; check_device c actual) s1) as He.
  { destruct s as [[c1 c2 b i] w]. cbn in Hc. by subst c1. }
  rewrite He in Ha |- *. destruct (Z.ltb_spec (timing_slack c) 0) as [Hneg|Hpos].
  - exfalso. set (s2 := (MkWatchdog c c true NullWatchdog, s.2) : Watchdog * W).
    change ((set_impl NullWatchdog;; actual ← open_device; check_device c actual) s1) with ((actual ← open_device; check_device c actual) s2) in Ha.
    unfold mbind, wdM_bind, eff_bind in Ha. rewrite (null_device s2) in Ha by done. by rewrite check_device_null in Ha.
  - assert (triple fine (mret ();; actual ← open_device; check_device c actual) (λ b s, b = true → guards s) (λ _, True)) as Ht.
    { eapply (triple_bind _ _ _ (λ _, fine)); [by apply triple_ret|]. intros _. eapply triple_bind; [|intros t; apply check_device_guards].
      eapply triple_conseq; [apply open_device_reports|done..]. }
    specialize (Ht s1 ltac:(by split)). destruct ((mret ();; actual ← open_device; check_device c actual) s1) as [r s2].
    cbn in Ha. subst r. destruct (Ht eq_refl) as (H1 & H2 & H3). by split_and!.
Qed.
End activation.

(** ** Witnesses *)

(** A device whose timeout is what was set, that can be disabled *)
#[export] Instance soft_watchdog : WatchdogOs Z := {
  os_open _ w := (Ok 3, w); os_write _ _ w := (Ok (), w); os_close _ w := (Ok (), w);
  ioctl_getsupport _ w := (Ok 384, w); ioctl_settimeout _ t _ := (Ok (), t); ioctl_gettimeout _ w := (Ok w, w);
  writable _ _ := true; is_linux _ := true;
}.
#[export, refine] Instance soft_kernel : WatchdogKernel Z := { kernel_timeout w := w }.
Proof.
  - intros f w. simpl. split; [done|]. by intros t [= ->].
  - done.
Defined.

Definition required_config : WatchdogConfig := MkWdConfig MODE_REQUIRED 30 10 5 (VStr "default") [].
Definition fresh_watchdog : Watchdog := MkWatchdog required_config required_config false (get_impl required_config 60).

Lemma watchdog_required_safe_witness : kernel_timeout (activate (fresh_watchdog, 60)).2.2 = 25 ∧
  (wc_loop_wait required_config ≤ kernel_timeout (activate (fresh_watchdog, 60)).2.2 ∨ unstoppable (impl (activate (fresh_watchdog, 60)).2.1)).
Proof.
  split; [reflexivity|]. by apply (watchdog_required_safe required_config eq_refl (fresh_watchdog, 60)).
Defined.

(** A device with a fixed timeout of 5 that cannot be disabled: it is reported as active, although the agent sends
    keepalives every 10 seconds. *)
Definition fixed_watchdog : WatchdogOs Z := {|
  os_open _ w := (Ok 3, w); os_write _ _ w := (Ok (), w); os_close _ w := (Ok (), w);
  ioctl_getsupport _ w := (Ok 0, w); ioctl_settimeout _ t _ := (Ok (), t); ioctl_gettimeout _ w := (Ok w, w);
  writable _ _ := true; is_linux _ := true;
|}.

Lemma short_timeout_active : let r := activate (WatchdogOs0 := fixed_watchdog) (fresh_watchdog, 5) in
  r.1 = Ok true ∧ r.2.2 = 5 ∧ wc_loop_wait required_config = 10.
Proof. by vm_compute. Qed.
