(* ===== verification/RaftStore.v ===== *)
(** * The replicated key-value store ([patroni/dcs/raft.py], [KVStoreTTL])

    The agents replicate a dictionary with [pysyncobj], a Raft library: every node applies
    the commands [_set], [_delete] and [_expire] of one log in its order, so that the state
    of a node is that of a prefix of the log.  [apply] is the effect of a command, the rest
    is what a node does on its own: the checks before a command is submitted, the loop that
    waits for its result, and the expiration of keys by the leader of the Raft cluster. *)
From S2P Require Import Prelude PyDict PyVal Effects.

Open Scope string_scope.
Open Scope Z_scope.

(** What is proposed as the value of a key, and what is stored *)
Record proposal := MkProposal { p_value : string; p_updated : Z; p_created : Z; p_expire : option Z }.
Record entry := MkEntry { e_data : proposal; e_index : Z }.

(** The conditions among the keyword arguments: [prevExist], [prevValue], [prevIndex] *)
Record requirements := MkReq { prevExist : option bool; prevValue : option string; prevIndex : pyval }.
#[export] Instance requirements_eq_dec : EqDecision requirements.
Proof. solve_decision. Defined.

Definition no_requirements : requirements := MkReq None None VNone.
Definition prev_exist (b : bool) : requirements := MkReq (Some b) None VNone.
Definition prev_value (v : string) : requirements := MkReq None (Some v) VNone.
Definition prev_index (v : pyval) : requirements := MkReq None None v.

(** [__check_requirements] *)
Definition check_requirements (old : option entry) (r : requirements) : bool :=
  match prevExist r with
  | None => true
  | Some b => Bool.eqb b (match old with Some _ => true | None => false end)
  end &&
  match prevValue r with
  | None => true
  | Some v => match old with Some o => (p_value (e_data o) =? v)%string | None => false end
  end &&
  match prevIndex r with
  | VNone => true
  | i => match old with Some o => pyval_eqb (VInt (e_index o)) i | None => false end
  end.

(** [__values_match] *)
Definition values_match (old new : proposal) : bool :=
  (p_created old =? p_created new) && (p_updated old =? p_updated new) &&
  bool_decide (p_expire old = p_expire new) && (p_value old =? p_value new)%string.

(** ** The replicated commands *)

Inductive command :=
  | CSet (key : string) (value : proposal) (r : requirements)
  | CDelete (key : string) (recursive : bool) (r : requirements)
  | CExpire (key : string) (value : proposal).

(** The dictionary, and [raftLastApplied] *)
Record store := MkStore { data : dict entry; last_applied : Z }.
Definition store_init : store := MkStore [] 0.

(** What a command returns: [False], [True], the stored value, or nothing *)
Inductive reply := RFalse | RTrue | RValue (e : entry) | RNone.

(** [_set]: a key that was deleted and set again meanwhile gets the time of its creation. *)
Definition set_entry (old : option entry) (index : Z) (value : proposal) : entry :=
  let created := match old with
                 | Some o => if p_created (e_data o) =? p_created value then p_created value else p_updated value
                 | None => p_created value
                 end in
  MkEntry (MkProposal (p_value value) (p_updated value) created (p_expire value)) (index + 1).

(** A command on the dictionary: [raftLastApplied] is that of the commands before it. *)
Definition run (c : command) (index : Z) (d : dict entry) : exc reply * dict entry :=
  match c with
  | CSet key value r =>
      let old := Dict.get key d in
      if negb (check_requirements old r) then (Ok RFalse, d)
      else let e := set_entry old index value in (Ok (RValue e), Dict.set key e d)
  | CDelete key true r =>
      (Ok RTrue, List.filter (λ kv, negb (String.prefix key kv.1)) d)
  | CDelete key false r =>
      if negb (check_requirements (Dict.get key d) r) then (Ok RFalse, d)
      else if Dict.mem key d then (Ok RTrue, Dict.del key d) else (Raise KeyError, d)
  | CExpire key value =>
      match Dict.get key d with
      | Some current => (Ok RNone, if values_match (e_data current) value then Dict.del key d else d)
      | None => (Ok RNone, d)
      end
  end.

Definition apply (c : command) (s : store) : exc reply * store :=
  let '(r, d) := run c (last_applied s) (data s) in (r, MkStore d (last_applied s + 1)).

(** The state after a log *)
Definition replay (log : list command) (s : store) : store := foldl (λ s c, (apply c s).2) s log.

(** ** Expiration by the leader *)

Definition expired (now : Z) (e : entry) : bool :=
  match p_expire (e_data e) with Some t => t <=? now | None => false end.

Definition in_limb (limb : dict proposal) (key : string) (value : proposal) : bool :=
  match Dict.get key limb with Some v => values_match v value | None => false end.

(** [__expire_keys]: the commands it proposes, and the keys in limbo *)
Fixpoint expire_keys (now : Z) (items : dict entry) (limb : dict proposal) : list command * dict proposal :=
  match items with
  | [] => ([], limb)
  | (key, e) :: items =>
      if expired now e && negb (in_limb limb key (e_data e)) then
        let '(cs, limb) := expire_keys now items (Dict.set key (e_data e) limb) in (CExpire key (e_data e) :: cs, limb)
      else expire_keys now items limb
  end.

(** The variables the callbacks of one [__expire_keys] share: its last [key] and [value] *)
Definition loop_variables (items : dict entry) : option (string * proposal) :=
  (λ kv, (kv.1, e_data kv.2)) <$> last items.

(** The callback: it uses the values the variables have when it is called. *)
Definition expire_callback (variables : string * proposal) (limb : dict proposal) : dict proposal :=
  let '(key, value) := variables in if in_limb limb key value then Dict.del key limb else limb.

(** [_onTick] *)
Definition on_tick (is_leader : bool) (now : Z) (s : store) (limb : dict proposal) : list command * dict proposal :=
  if is_leader then expire_keys now (data s) limb else ([], []).

(** ** The calls of a node *)

(** What [retry] knows when its wait is over: the result of the command, that the request was
    denied, or another failure, no answer included *)
Inductive outcome := Success (r : reply) | RequestDenied | Failure.

(** The Raft library on a node: the state of its copy, the clock, the configured timeout; [submit]
    calls the replicated method and waits for its callback. *)
Class RaftNet (W : Type) := {
  replica : W → store;
  raft_time : W → Z;
  retry_timeout : W → Z;
  submit : command → Z → W → outcome * W;
  raft_sleep : W → W;
  submit_time : ∀ c t w, raft_time w <= raft_time (submit c t w).2;
  sleep_time : ∀ w, raft_time w + 1 <= raft_time (raft_sleep w);
}.

(** The command [set] submits, when the node's own copy satisfies the conditions *)
Definition set_proposal (old : option entry) (now : Z) (value : string) (ttl : Z) : proposal :=
  MkProposal value now (match old with Some o => p_created (e_data o) | None => now end)
    (if ttl =? 0 then None else Some (now + ttl)).

Definition set_command (key value : string) (ttl : Z) (r : requirements) (s : store) (now : Z) : option command :=
  let old := Dict.get key (data s) in
  if check_requirements old r then Some (CSet key (set_proposal old now value ttl) r) else None.

(** The command [delete] submits *)
Definition delete_command (key : string) (recursive : bool) (r : requirements) (s : store) : option command :=
  if recursive || check_requirements (Dict.get key (data s)) r then Some (CDelete key recursive r) else None.

Section calls.
Context {W : Type} `{!RaftNet W}.
Implicit Types (w : W).

(** The loop of [retry], for as many rounds as there is fuel: [None] when it is still going on.
    A result of [RFalse] is what [retry] returns when the request is denied. *)
Fixpoint retry_loop (fuel : nat) (c : command) (timeout : Z) (deadline : option Z) w : option (exc reply) * W :=
  match fuel with
  | O => (None, w)
  | S fuel =>
      let '(o, w) := submit c timeout w in
      match o with
      | Success r => (Some (Ok r), w)
      | RequestDenied => (Some (Ok RFalse), w)
      | Failure =>
          match deadline with
          | Some t =>
              let timeout := t - raft_time w in
              if timeout <=? 0 then (Some (Raise DCSError), w)
              else retry_loop fuel c timeout deadline (raft_sleep w)
          | None => retry_loop fuel c timeout deadline (raft_sleep w)
          end
      end
  end.

(** [retry]; [timeout] is 0 when it is not given *)
Definition retry_fuel (timeout : Z) : nat := S (Z.to_nat timeout).
Definition retry (c : command) (timeout : Z) w : option (exc reply) * W :=
  let timeout := if timeout =? 0 then retry_timeout w else timeout in
  let deadline := if timeout =? 0 then None else Some (raft_time w + timeout) in
  retry_loop (retry_fuel timeout) c timeout deadline w.

(** [set]: [None] for [False] *)
Definition kv_set (key value : string) (ttl timeout : Z) (handle_raft_error : bool) (r : requirements) w
    : option (exc (option entry)) * W :=
  match set_command key value ttl r (replica w) (raft_time w) with
  | None => (Some (Ok None), w)
  | Some c =>
      let '(res, w') := retry c timeout w in
      (match res with
       | Some (Ok (RValue e)) => Some (Ok (Some e))
       | Some (Ok _) => Some (Ok None)
       | Some (Raise e) => Some (if handle_raft_error then Ok None else Raise e)
       | None => None
       end, w')
  end.

(** [delete] *)
Definition kv_delete (key : string) (recursive : bool) (timeout : Z) (r : requirements) w : option (exc bool) * W :=
  match delete_command key recursive r (replica w) with
  | None => (Some (Ok false), w)
  | Some c =>
      let '(res, w') := retry c timeout w in
      (match res with
       | Some (Ok RTrue) => Some (Ok true)
       | Some _ => Some (Ok false)
       | None => None
       end, w')
  end.

(** [get] *)
Definition kv_get (key : string) w : option entry := Dict.get key (data (replica w)).
Definition kv_get_recursive (key : string) w : dict entry :=
  List.filter (λ kv, String.prefix key kv.1) (data (replica w)).

(** ** The loop ends *)

Lemma retry_loop_ends fuel c timeout t w : t - raft_time w < Z.of_nat fuel → (0 < fuel)%nat →
  ∃ r, (retry_loop fuel c timeout (Some t) w).1 = Some r.
Proof.
  revert timeout w. induction fuel as [|fuel IH]; intros timeout w Ht Hf; [lia|]. cbn [retry_loop].
  pose proof (submit_time c timeout w) as Hs. destruct (submit c timeout w) as [o w1]. simpl in Hs.
  destruct o as [r| |]; [by eexists|by eexists|]. destruct (Z.leb_spec (t - raft_time w1) 0); [by eexists|].
  pose proof (sleep_time w1). apply IH; lia.
Qed.

Lemma retry_ends c timeout w : 0 < retry_timeout w → 0 <= timeout → ∃ r, (retry c timeout w).1 = Some r.
Proof.
  intros Hr Ht. unfold retry. set (t := if timeout =? 0 then retry_timeout w else timeout).
  assert (0 < t) by (unfold t; destruct (Z.eqb_spec timeout 0); lia).
  destruct (Z.eqb_spec t 0); [lia|]. apply retry_loop_ends; unfold retry_fuel; lia.
Qed.
End calls.
