(* ===== verification/RaftLease.v ===== *)
(** * The leader key is a lease ([patroni/dcs/raft.py])

    [Lease] is what the leader race expects of a DCS: a key that one node holds until it
    releases it or until its time is over.  [raft_step] is the system of the agents that
    use [KVStoreTTL]: their commands are proposed on copies that may be behind, wait for any
    time, are applied in any order and possibly more than once, and the leader of the Raft
    cluster proposes the expirations.  It refines [Lease]. *)
From S2P Require Import Prelude PyDict PyVal Effects RaftStore.

Open Scope string_scope.
Open Scope Z_scope.
Open Scope list_scope.

(** ** The abstract lease *)
Module Lease.

(** The holder with the time at which its lease is over, the requests that were made, the time *)
Record state := MkState { holder : option (string * Z); requests : list (string * Z); time : Z }.

(** What a step does to a holder against its will *)
Inductive label := quiet | released (n : string) | administered.

Inductive step (ttl skew : Z) : label → state → state → Prop :=
  | step_pass l t s : time s ≤ t → step ttl skew l s (MkState (holder s) (requests s) t)
  | step_request l n e s :
      time s + ttl ≤ e + skew → step ttl skew l s (MkState (holder s) ((n, e) :: requests s) (time s))
  | step_grant l n e s :
      holder s = None → (n, e) ∈ requests s → step ttl skew l s (MkState (Some (n, e)) (requests s) (time s))
  | step_renew l n e e' s :
      holder s = Some (n, e) → (n, e') ∈ requests s → step ttl skew l s (MkState (Some (n, e')) (requests s) (time s))
  | step_lapse l n e s :
      holder s = Some (n, e) → e ≤ time s + skew → step ttl skew l s (MkState None (requests s) (time s))
  | step_release n e s :
      holder s = Some (n, e) → step ttl skew (released n) s (MkState None (requests s) (time s))
  | step_administer h s :
      (∀ n e, h = Some (n, e) → (n, e) ∈ requests s) → step ttl skew administered s (MkState h (requests s) (time s))
  | step_forget l r s : r ⊆ requests s → step ttl skew l s (MkState (holder s) r (time s))
  | step_stutter l s : step ttl skew l s s.

(** Sequences of steps with their labels *)
Inductive steps (ttl skew : Z) : list label → state → state → Prop :=
  | steps_nil s : steps ttl skew [] s s
  | steps_cons l ls s s' s'' : step ttl skew l s s' → steps ttl skew ls s' s'' → steps ttl skew (l :: ls) s s''.

(** A lease of [n] that is not over before [e], whatever request of [n] is granted last *)
Definition holds_until (n : string) (e : Z) (s : state) : Prop :=
  (∃ e', holder s = Some (n, e') ∧ e ≤ e') ∧ ∀ e', (n, e') ∈ requests s → e ≤ e'.

Definition undisturbed (n : string) (l : label) : Prop := l ≠ released n ∧ l ≠ administered.

Lemma time_steps ttl skew ls s s' : steps ttl skew ls s s' → time s ≤ time s'.
Proof. induction 1 as [|l ls s s1 s2 Hs _ IH]; [done|]. destruct Hs; simpl in *; lia. Qed.

Lemma holds_step ttl skew n e l s s' :
  step ttl skew l s s' → undisturbed n l → holds_until n e s → e ≤ time s + ttl - skew → time s' + skew < e →
  holds_until n e s'.
Proof.
  intros Hs [Hr Ha] [(e1 & Hh & He) Hq] Hw Ht. destruct Hs; simpl in *; try done; unfold holds_until; simpl.
  - split; [by exists e1|done].
  - split; [by exists e1|]. intros e' [?|?]%elem_of_cons; [simplify_eq; lia|by apply Hq].
  - congruence.
  - split; [|done]. exists e'. simplify_eq. split; [done|by apply Hq].
  - simplify_eq. lia.
  - simplify_eq.
  - split; [by exists e1|]. intros e' He'. apply Hq. by apply H.
  - split; [by exists e1|done].
Qed.

(** A lease is kept to its end: [ttl] after any moment at which its requests are that long. *)
Lemma holds_steps ttl skew n e ls s s' :
  steps ttl skew ls s s' → Forall (undisturbed n) ls → holds_until n e s → e ≤ time s + ttl - skew → time s' + skew < e →
  ∃ e', holder s' = Some (n, e') ∧ e ≤ e'.
Proof.
  induction 1 as [s|l ls s s1 s2 Hs Hss IH]; intros Hu Hn Hw Ht; [by destruct Hn|].
  inversion Hu as [|? ? Hl Hls]; simplify_eq. pose proof (time_steps _ _ _ _ _ Hss).
  assert (time s ≤ time s1) by (destruct Hs; simpl in *; lia).
  apply IH; [done|eapply holds_step; eauto; lia|lia|done].
Qed.
End Lease.

(** ** The system *)
Section raft.
Context (K : string) (ttl skew : Z).

(** The state after the log, those after its prefixes, the time, and the commands that may be applied *)
Record system := MkSystem { current : store; past : list store; now : Z; flight : list command }.

Definition initial (t : Z) : system := MkSystem store_init [] t [].

(** What an agent [n] proposes, when its clock is [t] and its copy is [r]: the four calls about the
    leader key, or a command that does not concern it *)
Inductive proposes (n : string) (t : Z) (r : store) : command → Prop :=
  | proposes_acquire c : set_command K n ttl (prev_exist false) r t = Some c → proposes n t r c
  | proposes_update c : set_command K n ttl (prev_value n) r t = Some c → proposes n t r c
  | proposes_take c : set_command K n ttl no_requirements r t = Some c → proposes n t r c
  | proposes_delete c : delete_command K false (prev_value n) r = Some c → proposes n t r c
  | proposes_delete_cluster p c : delete_command p true no_requirements r = Some c → proposes n t r c
  | proposes_set k v x q c : k ≠ K → set_command k v x q r t = Some c → proposes n t r c
  | proposes_delete_other k q c : k ≠ K → delete_command k false q r = Some c → proposes n t r c.

(** The holders a command may disturb *)
Definition label_of (c : command) : Lease.label :=
  match c with
  | CSet k _ q => if bool_decide (k = K) && bool_decide (q = no_requirements) then Lease.administered else Lease.quiet
  | CDelete k true _ => if String.prefix k K then Lease.administered else Lease.quiet
  | CDelete k false q =>
      if bool_decide (k = K) then match prevValue q with Some n => Lease.released n | None => Lease.administered end
      else Lease.quiet
  | CExpire _ _ => Lease.quiet
  end.

Definition clock_of (s : system) (t : Z) : Prop := now s - skew ≤ t ≤ now s + skew.

Inductive raft_step : Lease.label → system → system → Prop :=
  | raft_pass t s : now s ≤ t → raft_step Lease.quiet s (MkSystem (current s) (past s) t (flight s))
  | raft_propose n t r c s :
      r ∈ current s :: past s → clock_of s t → proposes n t r c →
      raft_step Lease.quiet s (MkSystem (current s) (past s) (now s) (c :: flight s))
  | raft_expire t r limb c s :
      r ∈ current s :: past s → clock_of s t → c ∈ (on_tick true t r limb).1 →
      raft_step Lease.quiet s (MkSystem (current s) (past s) (now s) (c :: flight s))
  | raft_lose cs s : cs ⊆ flight s → raft_step Lease.quiet s (MkSystem (current s) (past s) (now s) cs)
  | raft_apply c s :
      c ∈ flight s → raft_step (label_of c) s (MkSystem (apply c (current s)).2 (current s :: past s) (now s) (flight s)).

Inductive raft_steps : list Lease.label → system → system → Prop :=
  | raft_steps_nil s : raft_steps [] s s
  | raft_steps_cons l ls s s' s'' : raft_step l s s' → raft_steps ls s' s'' → raft_steps (l :: ls) s s''.

(** ** The lease a system stands for *)

Definition lease_of (p : proposal) : string * Z := (p_value p, default 0 (p_expire p)).
Definition request_of (c : command) : option (string * Z) :=
  match c with CSet k v _ => if decide (k = K) then Some (lease_of v) else None | _ => None end.
Definition abstract (s : system) : Lease.state :=
  Lease.MkState (lease_of ∘ e_data <$> Dict.get K (data (current s))) (omap request_of (flight s)) (now s).

(** What the commands about the leader key look like *)
Definition sound_command (s : system) (c : command) : Prop :=
  match c with
  | CSet k v q => k = K → is_Some (p_expire v) ∧ (q = prev_exist false ∨ q = prev_value (p_value v) ∨ q = no_requirements)
  | CDelete k false q => k = K → ∃ n, q = prev_value n
  | CDelete _ true _ => True
  | CExpire _ v => ∃ x, p_expire v = Some x ∧ x ≤ now s + skew
  end.
Definition sound (s : system) : Prop :=
  (∀ e, Dict.get K (data (current s)) = Some e → is_Some (p_expire (e_data e))) ∧ ∀ c, c ∈ flight s → sound_command s c.

Lemma sound_initial t : sound (initial t).
Proof. split; [done|]. by intros c ?%elem_of_nil. Qed.

Lemma sound_later s s' c : now s ≤ now s' → sound_command s c → sound_command s' c.
Proof. intros Ht. destruct c as [k v q|k [] q|k v]; simpl; try done. intros (x & ? & ?). exists x. split; [done|lia]. Qed.

(** The commands of the agents *)
Lemma set_command_is k n x q r t c : set_command k n x q r t = Some c →
  c = CSet k (set_proposal (Dict.get k (data r)) t n x) q.
Proof. unfold set_command. case_match; by intros [= <-]. Qed.
Lemma delete_command_is k b q r c : delete_command k b q r = Some c → c = CDelete k b q.
Proof. unfold delete_command. case_match; by intros [= <-]. Qed.

Lemma lease_of_set old t n : ttl ≠ 0 → lease_of (set_proposal old t n ttl) = (n, t + ttl) ∧ is_Some (p_expire (set_proposal old t n ttl)).
Proof. intros Ht. unfold set_proposal, lease_of. simpl. destruct (Z.eqb_spec ttl 0); [done|]. by split. Qed.

Lemma sound_proposes n t r c s : ttl ≠ 0 → proposes n t r c → sound_command s c.
Proof.
  intros Ht Hp. destruct Hp as [c Hc|c Hc|c Hc|c Hc|p c Hc|k v x q c Hk Hc|k q c Hk Hc].
  all: first [apply set_command_is in Hc as -> | apply delete_command_is in Hc as ->]; simpl; try done.
  all: intros HK; try congruence; try (split; [destruct (Z.eqb_spec ttl 0); eauto; done|]); eauto.
Qed.

Lemma expire_keys_sound now' items limb c : c ∈ (expire_keys now' items limb).1 →
  ∃ k v x, c = CExpire k v ∧ p_expire v = Some x ∧ x ≤ now'.
Proof.
  revert limb. induction items as [|[k e] items IH]; intros limb; simpl; [by intros ?%elem_of_nil|].
  destruct (expired now' e && _) eqn:He; [|apply IH].
  destruct (expire_keys now' items _) as [cs l] eqn:Hr. simpl. intros [->|Hc]%elem_of_cons.
  - apply andb_prop in He as [He _]. unfold expired in He. destruct (p_expire (e_data e)) as [x|] eqn:Hx; [|done].
    exists k, (e_data e), x. split_and!; [done|done|by apply Z.leb_le].
  - apply (IH (Dict.set k (e_data e) limb)). by rewrite Hr.
Qed.

(** A command on the value of the leader key *)
Lemma get_filter_key {V} (p : string → bool) (k : string) (d : dict V) :
  Dict.get k (List.filter (λ kv, p kv.1) d) = if p k then Dict.get k d else None.
Proof.
  induction d as [|[k' v] d IH]; simpl; [by destruct (p k)|]. destruct (p k') eqn:Hp; simpl.
  - destruct (decide (k = k')) as [->|]; [by rewrite Hp|done].
  - destruct (decide (k = k')) as [->|]; [|done]. by rewrite IH, Hp.
Qed.

(** ** The refinement *)

(** The effect of a command on the leader key's lease *)
Lemma holder_apply c st : ∀ h, h = Dict.get K (data st) →
  let h' := Dict.get K (data (apply c st).2) in
  match c with
  | CSet k v q => if decide (k = K) then if check_requirements h q
      then ∃ e, h' = Some e ∧ p_value (e_data e) = p_value v ∧ p_expire (e_data e) = p_expire v else h' = h else h' = h
  | CDelete k true _ => if String.prefix k K then h' = None else h' = h
  | CDelete k false q => if decide (k = K) then if check_requirements h q then h' = None else h' = h else h' = h
  | CExpire k v => h' = h ∨ (k = K ∧ h' = None ∧ ∃ e, h = Some e ∧ p_expire (e_data e) = p_expire v)
  end.
Proof.
  intros h ->. unfold apply. destruct st as [d i]. destruct c as [k v q|k [] q|k v]; simpl.
  - destruct (check_requirements (Dict.get k d) q) eqn:Hq; simpl; case_decide; subst; rewrite ?Hq; try done.
    + rewrite Dict.get_set_eq. by eexists.
    + by rewrite Dict.get_set_ne.
  - rewrite (get_filter_key (λ x, negb (String.prefix k x))). by destruct (String.prefix k K).
  - destruct (check_requirements (Dict.get k d) q) eqn:Hq; simpl; case_decide; subst; rewrite ?Hq; try done.
    + destruct (Dict.mem K d) eqn:Hm; simpl; [by rewrite Dict.get_del_eq|by apply Dict.mem_false_get].
    + destruct (Dict.mem k d); simpl; [by rewrite Dict.get_del_ne|done].
  - destruct (Dict.get k d) as [e|] eqn:He; [|by left]. destruct (values_match (e_data e) v) eqn:Hm; [|by left]. simpl.
    destruct (decide (k = K)) as [->|]; [|left; by rewrite Dict.get_del_ne]. right. rewrite Dict.get_del_eq. split_and!; [done..|].
    exists e. split; [done|]. unfold values_match in Hm. do 2 apply andb_prop in Hm as [Hm ?]. by case_bool_decide.
Qed.

Lemma request_elem c s : c ∈ flight s → ∀ l, request_of c = Some l → l ∈ Lease.requests (abstract s).
Proof. intros Hc l Hl. apply list_elem_of_omap. eauto. Qed.

Lemma check_exist_false h : check_requirements h (prev_exist false) = true → h = None.
Proof. by destruct h. Qed.
Lemma check_value h v : check_requirements h (prev_value v) = true → ∃ e, h = Some e ∧ p_value (e_data e) = v.
Proof.
  destruct h as [e|]; [|done]. cbv [check_requirements prev_value prevExist prevValue prevIndex].
  destruct (String.eqb_spec (p_value (e_data e)) v) as [He|]; [|done]. intros _. by exists e.
Qed.

(** A step of the system is a step of the lease *)
Lemma refine_apply c s : sound s → c ∈ flight s →
  Lease.step ttl skew (label_of c) (abstract s)
    (abstract (MkSystem (apply c (current s)).2 (current s :: past s) (now s) (flight s))).
Proof.
  intros [Hk Hf] Hc. pose proof (Hf c Hc) as Hs. pose proof (holder_apply c (current s) _ eq_refl) as Ha.
  pose proof (request_elem c s Hc) as Hr.
  set (h := Dict.get K (data (current s))) in *. set (h' := Dict.get K (data (apply c (current s)).2)) in *.
  assert (∀ o, lease_of ∘ e_data <$> h' = o →
    abstract (MkSystem (apply c (current s)).2 (current s :: past s) (now s) (flight s)) =
    Lease.MkState o (Lease.requests (abstract s)) (Lease.time (abstract s))) as Hto by (by intros o <-).
  assert (Lease.holder (abstract s) = lease_of ∘ e_data <$> h) as Hh by done.
  assert (h' = h → ∀ l, Lease.step ttl skew l (abstract s)
    (abstract (MkSystem (apply c (current s)).2 (current s :: past s) (now s) (flight s)))) as Hsame.
  { intros He l. rewrite (Hto _ (f_equal _ He)). apply Lease.step_stutter. }
  clearbody h h'. destruct c as [k v q|k [] q|k v]; simpl in Ha, Hs, Hr; cbn [label_of].
  - case_decide as Hkk; [|by apply Hsame]. subst k. destruct (Hs eq_refl) as [Hx Hq]. specialize (Hr _ eq_refl).
    destruct (check_requirements h q) eqn:Hreq; [|by apply Hsame]. destruct Ha as (e1 & -> & Hv & He).
    assert (lease_of (e_data e1) = lease_of v) as Hl by (unfold lease_of; congruence).
    rewrite (Hto (Some (lease_of v))) by (simpl; by rewrite Hl). destruct Hq as [-> | [-> | ->]].
    + apply check_exist_false in Hreq. subst h. unfold lease_of in *. by apply Lease.step_grant.
    + apply check_value in Hreq as (e & -> & Hn). unfold lease_of in *. eapply Lease.step_renew; [|exact Hr].
      rewrite Hh. simpl. by rewrite Hn.
    + rewrite !bool_decide_eq_true_2 by done. apply Lease.step_administer. intros n e [= <- <-]. exact Hr.
  - destruct (String.prefix k K); [|by apply Hsame]. subst h'. rewrite (Hto None eq_refl). by apply Lease.step_administer.
  - case_decide as Hkk; [|by apply Hsame]. subst k. destruct (Hs eq_refl) as [n ->]. rewrite bool_decide_eq_true_2 by done.
    destruct (check_requirements h (prev_value n)) eqn:Hreq; [|by apply Hsame]. subst h'. rewrite (Hto None eq_refl).
    apply check_value in Hreq as (e & -> & He). simpl. eapply Lease.step_release. rewrite Hh. unfold lease_of. simpl. by rewrite He.
  - destruct Ha as [Ha|(-> & -> & e & -> & He)]; [by apply Hsame|]. rewrite (Hto None eq_refl). destruct Hs as (x & Hx & Hle).
    eapply Lease.step_lapse; [exact Hh|]. simpl. by rewrite He, Hx.
Qed.

Lemma refine_step l s s' : ttl ≠ 0 → sound s → raft_step l s s' → Lease.step ttl skew l (abstract s) (abstract s').
Proof.
  intros Ht Hs Hstep. destruct Hstep as [t s Hle|n t r c s Hr Hck Hp|t r limb c s Hr Hck Hc|cs s Hcs|c s Hc].
  - by apply (Lease.step_pass _ _ _ t (abstract s)).
  - unfold abstract. simpl. destruct (request_of c) as [[m e]|] eqn:Hreq; [|apply (Lease.step_stutter _ _ _ (abstract s))].
    apply (Lease.step_request _ _ _ m e (abstract s)). simpl.
    assert (e = t + ttl) as ->; [|unfold clock_of in Hck; lia].
    destruct Hp as [c Hc|c Hc|c Hc|c Hc|p c Hc|k v x q c Hk Hc|k q c Hk Hc].
    all: first [apply set_command_is in Hc as -> | apply delete_command_is in Hc as ->]; simpl in Hreq; try done.
    all: case_decide; [|done]; first [done|destruct (lease_of_set (Dict.get K (data r)) t n Ht) as [Hl _]; congruence].
  - destruct (expire_keys_sound _ _ _ _ Hc) as (k & v & x & -> & _). apply (Lease.step_stutter _ _ _ (abstract s)).
  - apply (Lease.step_forget _ _ _ _ (abstract s)). simpl. intros x. rewrite !list_elem_of_omap. intros (c & Hc & Hx).
    exists c. split; [by apply Hcs|done].
  - by apply refine_apply.
Qed.

Lemma sound_step l s s' : ttl ≠ 0 → sound s → raft_step l s s' → sound s'.
Proof.
  intros Ht [Hk Hf] Hstep. destruct Hstep as [t s Hle|n t r c s Hr Hck Hp|t r limb c s Hr Hck Hc|cs s Hcs|c s Hc].
  - split; [done|]. intros c Hc. apply (sound_later s); [done|by apply Hf].
  - split; [done|]. intros c' [->|Hc']%elem_of_cons; [by eapply sound_proposes|by apply Hf].
  - split; [done|]. intros c' [->|Hc']%elem_of_cons; [|by apply Hf].
    destruct (expire_keys_sound _ _ _ _ Hc) as (k & v & x & -> & Hx & Hle). exists x. unfold clock_of in Hck. simpl. split; [done|lia].
  - split; [done|]. intros c Hc. by apply Hf, Hcs.
  - split; [|done]. simpl. intros e He. pose proof (Hf c Hc) as Hs. pose proof (holder_apply c (current s) _ eq_refl) as Ha.
    cbv zeta in Ha. rewrite He in Ha.
    destruct c as [k v q|k [] q|k v]; simpl in Hs, Ha.
    + case_decide as Hkk; [|by apply Hk]. destruct (Hs Hkk) as [Hx _]. destruct (check_requirements _ q); [|by apply Hk].
      destruct Ha as (e1 & [= <-] & _ & Heq). by rewrite Heq.
    + destruct (String.prefix k K); [done|by apply Hk].
    + case_decide; [destruct (check_requirements _ q); [done|]|]; by apply Hk.
    + destruct Ha as [Ha|(_ & ? & _)]; [by apply Hk|done].
Qed.

Lemma refine_steps ls s s' : ttl ≠ 0 → sound s → raft_steps ls s s' → Lease.steps ttl skew ls (abstract s) (abstract s') ∧ sound s'.
Proof.
  intros Ht Hs Hss. revert Hs. induction Hss as [s|l ls s s1 s2 H1 H2 IH]; intros Hs; [split; [constructor|done]|].
  destruct (IH (sound_step _ _ _ Ht Hs H1)) as [H3 H4]. split; [|exact H4].
  eapply Lease.steps_cons; [by apply refine_step|exact H3].
Qed.

(** C3: the leader key of the Raft store refines an abstract lease, step by step: from every state that is
    reached by agents that propose on outdated copies, by proposals that are delayed, reordered, lost or applied
    more than once, and by clocks that differ by [skew], each further step changes the holder as one step of the
    lease: granted when free, renewed by its holder, over after its end, released by its holder, or rewritten by a
    command that is meant to do so without a condition. *)
Theorem raft_refines_lease t ls s l s' : ttl ≠ 0 → raft_steps ls (initial t) s → raft_step l s s' →
  Lease.step ttl skew l (abstract s) (abstract s').
Proof. intros Ht Hss. by apply refine_step, (refine_steps ls (initial t) s Ht (sound_initial t) Hss). Qed.

(** C10: two leaders never hold the key at the same time, and a lease lasts: when [n] holds the key,
    and neither its entry nor a proposal of [n] on its way expires before [e], no other
    node holds the key as long as the clock is [skew] before [e], unless [n] gives the key
    up or the key is written without a condition. *)
Theorem raft_lease_kept t ls0 s ls s' n e : ttl ≠ 0 → raft_steps ls0 (initial t) s → raft_steps ls s s' →
  Forall (Lease.undisturbed n) ls → Lease.holds_until n e (abstract s) → e ≤ now s + ttl - skew → now s' + skew < e →
  p_value ∘ e_data <$> Dict.get K (data (current s')) = Some n.
Proof.
  intros Ht H0 Hss Hu Hn He Hnow. destruct (refine_steps _ _ _ Ht (sound_initial t) H0) as [_ Hs].
  destruct (refine_steps _ _ _ Ht Hs Hss) as [Hl _].
  destruct (Lease.holds_steps _ _ _ _ _ _ _ Hl Hu Hn He Hnow) as (e' & Hh & _). simpl in Hh.
  destruct (Dict.get K (data (current s'))) as [x|]; [|done]. simpl in *. by injection Hh as ->.
Qed.
End raft.

(** ** Optimistic locking *)

Lemma get_apply c s k : let d := data (apply c s).2 in
  Dict.get k d = Dict.get k (data s) ∨ Dict.get k d = None ∨ ∃ e, Dict.get k d = Some e ∧ e_index e = last_applied s + 1.
Proof.
  unfold apply. destruct c as [k' v q|k' [] q|k' v]; simpl.
  - destruct (negb _); simpl; [by left|]. destruct (decide (k = k')) as [->|]; [|left; by rewrite Dict.get_set_ne].
    rewrite Dict.get_set_eq. right. right. by eexists.
  - rewrite (get_filter_key (λ x, negb (String.prefix k' x))). destruct (negb _); [by left|right; by left].
  - destruct (negb _); simpl; [by left|]. destruct (Dict.mem k' (data s)); simpl; [|by left].
    destruct (decide (k = k')) as [->|]; [right; left; apply Dict.get_del_eq|left; by rewrite Dict.get_del_ne].
  - destruct (Dict.get k' (data s)); [|by left]. destruct (values_match _ _); [|by left]. simpl.
    destruct (decide (k = k')) as [->|]; [right; left; apply Dict.get_del_eq|left; by rewrite Dict.get_del_ne].
Qed.

Lemma last_apply c s : last_applied (apply c s).2 = last_applied s + 1.
Proof. unfold apply. by destruct (run _ _ _). Qed.

(** What a key holds stays an older entry, or becomes a later one. *)
Definition dated (s : store) : Prop := ∀ k e, Dict.get k (data s) = Some e → e_index e ≤ last_applied s.

Lemma dated_replay l s : dated s → dated (replay l s).
Proof.
  revert s. induction l as [|c l IH]; intros s Hs; [done|]. apply IH. intros k e He. rewrite last_apply.
  destruct (get_apply c s k) as [Hg|[Hg|(e' & Hg & Hi)]]; cbv zeta in Hg; rewrite Hg in He; [|done|].
  - pose proof (Hs k e He). lia.
  - injection He as <-. lia.
Qed.

Lemma same_or_later l k e s : Dict.get k (data s) = Some e ∨ (∀ e', Dict.get k (data s) = Some e' → e_index e < e_index e') →
  e_index e ≤ last_applied s →
  Dict.get k (data (replay l s)) = Some e ∨ (∀ e', Dict.get k (data (replay l s)) = Some e' → e_index e < e_index e').
Proof.
  revert s. induction l as [|c l IH]; intros s Hs Hl; [done|]. apply IH; [|rewrite last_apply; lia].
  destruct (get_apply c s k) as [Hg|[Hg|(e1 & Hg & Hi)]]; cbv zeta in Hg; rewrite Hg; [done|by right|].
  right. intros e' [= <-]. lia.
Qed.

(** C28: a version that was read can be trusted: when [_set] is given the index of an entry that was read
    after some prefix of the log, it is done only if the key still holds that very entry,
    whatever was set, deleted or expired meanwhile. *)
Theorem raft_no_lost_update l1 l2 k e v : let s1 := replay l1 store_init in let s2 := replay l2 s1 in
  Dict.get k (data s1) = Some e →
  (apply (CSet k v (prev_index (VInt (e_index e)))) s2).1 ≠ Ok RFalse → Dict.get k (data s2) = Some e.
Proof.
  intros s1 s2 He Hr.
  assert (e_index e ≤ last_applied s1) as Hi by (by apply (dated_replay l1 store_init) with k).
  destruct (same_or_later l2 k e s1 (or_introl He) Hi) as [|Hlate]; [done|]. exfalso. apply Hr. fold s2 in Hlate.
  unfold apply, run, check_requirements. cbn [prevExist prevValue prevIndex prev_index andb].
  destruct (Dict.get k (data s2)) as [e'|]; [|done]. specialize (Hlate e' eq_refl). simpl.
  by destruct (Z.eqb_spec (e_index e') (e_index e)); [lia|].
Qed.

(** ** Witnesses *)

(** [a] takes the key at 0, and the time goes on to 20. *)
Definition a_takes : command := CSet "leader" (MkProposal "a" 0 0 (Some 30)) (prev_exist false).
Definition a_proposed : system := MkSystem store_init [] 0 [a_takes].
Definition a_leads : system := MkSystem (apply a_takes store_init).2 [store_init] 0 [a_takes].
Definition a_still_leads : system := MkSystem (current a_leads) [store_init] 20 [a_takes].

Lemma a_makes_proposal : raft_step "leader" 30 0 Lease.quiet (initial 0) a_proposed.
Proof. apply (raft_propose _ _ _ "a" 0 store_init a_takes (initial 0)); [by left|by split|]. by apply proposes_acquire. Qed.

Lemma a_gets_key : raft_step "leader" 30 0 Lease.quiet a_proposed a_leads.
Proof. exact (raft_apply "leader" 30 0 a_takes a_proposed (list_elem_of_here _ _)). Qed.

Lemma a_run : raft_steps "leader" 30 0 [Lease.quiet; Lease.quiet] (initial 0) a_leads.
Proof. eapply raft_steps_cons; [exact a_makes_proposal|]. eapply raft_steps_cons; [exact a_gets_key|apply raft_steps_nil]. Qed.

(** Applying the proposal of [a] is one quiet step, from no holder to [a]. *)
Lemma raft_refines_lease_witness :
  Lease.step 30 0 Lease.quiet (abstract "leader" a_proposed) (abstract "leader" a_leads) ∧
  Lease.holder (abstract "leader" a_proposed) = None ∧ Lease.holder (abstract "leader" a_leads) = Some ("a", 30).
Proof.
  split; [|by split]. apply (raft_refines_lease "leader" 30 0 0 [Lease.quiet] a_proposed Lease.quiet a_leads); [done| |exact a_gets_key].
  eapply raft_steps_cons; [exact a_makes_proposal|apply raft_steps_nil].
Defined.

Lemma raft_lease_kept_witness : p_value ∘ e_data <$> Dict.get "leader" (data (current a_still_leads)) = Some "a".
Proof.
  apply (raft_lease_kept "leader" 30 0 0 [Lease.quiet; Lease.quiet] a_leads [Lease.quiet] a_still_leads "a" 30); [done|exact a_run|..].
  - eapply raft_steps_cons; [by apply (raft_pass _ _ _ 20 a_leads)|apply raft_steps_nil].
  - by repeat constructor.
  - split; [by exists 30|]. intros e'. vm_compute. intros He. apply list_elem_of_singleton in He. by injection He as ->.
  - done.
  - done.
Defined.

Definition some_value : proposal := MkProposal "v" 1 1 None.
Lemma raft_no_lost_update_witness :
  Dict.get "sync" (data (replay [CSet "config" some_value no_requirements] (replay [CSet "sync" some_value no_requirements] store_init)))
  = Some (MkEntry some_value 1).
Proof.
  apply (raft_no_lost_update [CSet "sync" some_value no_requirements] [CSet "config" some_value no_requirements] "sync"
    (MkEntry some_value 1) some_value eq_refl). by vm_compute.
Defined.
