(* ===== verification/RaftDcs.v ===== *)
(** * The Raft backend of the DCS client ([patroni/dcs/raft.py], [Raft])

    The abstract methods of [AbstractDCS] over the replicated store of [RaftStore]: how the
    keys of a cluster are read into a [Cluster], and the conditions under which they are
    written.  [raft_backend] makes it an instance of [Dcs.Backend]. *)
From S2P Require Import Prelude Lexing PyDict PyVal Effects Json Utils Tags DcsData GlobalConfig Slots Dcs RaftStore.

Open Scope string_scope.
Open Scope Z_scope.

(** ** Reading a cluster *)

(** [os.path.basename] *)
Definition basename (path : string) : string := default "" (last (Str.split_on "/" path)).

(** [key.count('/')] *)
Definition slashes (key : string) : nat := pred (length (Str.split_on "/" key)).

Fixpoint drop_chars (n : nat) (s : string) : string :=
  match n, s with S n, String _ s => drop_chars n s | _, _ => s end.

Section read.
Context `{!Datetime, !Json} (parse_connection_string : string → pyval * pyval).

(** [member] *)
Definition member (key : string) (e : entry) : Member :=
  member_from_node parse_connection_string (VInt (e_index e)) (basename key) VNone (p_value (e_data e)).

Definition e_value (e : entry) : pyval := VStr (p_value (e_data e)).
Definition opt_value (o : option entry) : pyval := match o with Some e => e_value e | None => VNone end.
Definition opt_index (o : option entry) : pyval := match o with Some e => VInt (e_index e) | None => VNone end.

Definition raft_members (nodes : dict entry) : list Member :=
  omap (λ kv, if String.prefix "members/" kv.1 && (slashes kv.1 =? 1)%nat then Some (member kv.1 kv.2) else None) nodes.

(** The leader: the first member of that name, or one without data *)
Definition raft_leader (members : list Member) (o : option entry) : option Leader :=
  (λ e, let n := p_value (e_data e) in
        MkLeader (VInt (e_index e)) VNone
          (default (MkMember (VInt (-1)) n VNone []) (head (List.filter (λ m, (m_name m =? n)%string) members)))) <$> o.

(** [_cluster_from_nodes]; a /failsafe that is not a dictionary counts as missing. *)
Definition _cluster_from_nodes (nodes : dict entry) : exc Cluster :=
  let node k := Dict.get k nodes in
  let status := match node "status" with Some e => Some e | None => node "optime/leader" end in
  let members := raft_members nodes in
  failover ← (match node "failover" with
              | Some e => f ← failover_from_node (VInt (e_index e)) (e_value e); mret (Some f)
              | None => mret None
              end);
  mret (MkCluster
    ((λ e, p_value (e_data e)) <$> node "initialize")
    ((λ e, config_from_node (VInt (e_index e)) (e_value e) VNone) <$> node "config")
    (raft_leader members (node "leader"))
    (status_from_node (opt_value status))
    members failover
    (sync_from_node (opt_index (node "sync")) (opt_value (node "sync")))
    ((λ e, history_from_node (VInt (e_index e)) (e_value e)) <$> node "history")
    (match node "failsafe" with Some e => loads_dict (e_value e) | None => None end)
    []).

(** [{key[len(path):]: value ...}] of the keys that start with the path *)
Definition nodes_of (path : string) (response : dict entry) : dict entry :=
  Dict.of_items (map (λ kv, (drop_chars (String.length path) kv.1, kv.2)) response).

(** [_postgresql_cluster_loader] *)
Definition _postgresql_cluster_loader (path : string) (response : dict entry) : exc Cluster :=
  match response with [] => mret cluster_empty | _ => _cluster_from_nodes (nodes_of path response) end.

(** [group_re.match(s)]: a decimal number without a leading zero *)
Definition is_group (s : string) : bool :=
  match s with
  | "" => false
  | String "0" s => (s =? "")%string
  | _ => Str.all is_digit s
  end.

(** The keys of each group, in the order of their first keys *)
Fixpoint add_to_group {V} (g : Z) (key : string) (e : V) (groups : list (Z * dict V)) : list (Z * dict V) :=
  match groups with
  | [] => [(g, [(key, e)])]
  | (h, nodes) :: groups => if h =? g then (h, Dict.set key e nodes) :: groups else (h, nodes) :: add_to_group g key e groups
  end.

(** [key.split('/', 1)] in two parts *)
Fixpoint split_once (s : string) : option (string * string) :=
  match s with
  | "" => None
  | String "/" s => Some ("", s)
  | String c s => (λ p, (String c p.1, p.2)) <$> split_once s
  end.

Definition groups_of (path : string) (response : dict entry) : list (Z * dict entry) :=
  foldl (λ groups kv,
           match split_once (drop_chars (String.length path) kv.1) with
           | Some (g, key) => if is_group g then add_to_group (default 0 (int_of_string g)) key kv.2 groups else groups
           | None => groups
           end) [] response.

(** [_mpp_cluster_loader] *)
Fixpoint load_groups (groups : list (Z * dict entry)) : exc (list (Z * Cluster)) :=
  match groups with
  | [] => mret []
  | (g, nodes) :: groups => c ← _cluster_from_nodes nodes; l ← load_groups groups; mret ((g, c) :: l)
  end.
Definition _mpp_cluster_loader (path : string) (response : dict entry) : exc (list (Z * Cluster)) :=
  load_groups (groups_of path response).
End read.

(** ** Writing the keys *)

Section client.
Context `{!Datetime, !Json} {W : Type} `{!RaftNet W} (d : AbstractDCS) (ttl : Z).
Implicit Types (w : W).

(** The loop of [retry] has ended, see [RaftStore.retry_ends]. *)
Definition ended {A} (m : option (exc A) * W) : exc A * W := (default (Raise OtherException) m.1, m.2).

(** [set(...) is not False] *)
Definition done_ (m : option (exc (option entry)) * W) : exc bool * W :=
  let '(r, w) := ended m in (e ← r; mret (match e : option entry with Some _ => true | None => false end), w).

Definition _write_leader_optime (last_lsn : string) w := done_ (kv_set (leader_optime_path d) last_lsn 0 1 true no_requirements w).
Definition _write_status (value : string) w := done_ (kv_set (status_path d) value 0 1 true no_requirements w).
Definition _write_failsafe (value : string) w := done_ (kv_set (failsafe_path d) value 0 1 true no_requirements w).

(** [attempt_to_acquire_leader] *)
Definition attempt_to_acquire_leader w : exc bool * W :=
  done_ (kv_set (leader_path d) (_name d) ttl 0 false (prev_exist false) w).

(** [_update_leader] *)
Definition _update_leader w : exc bool * W :=
  let '(r, w) := done_ (kv_set (leader_path d) (_name d) ttl 0 false (prev_value (_name d)) w) in
  match r with
  | Ok false => match kv_get (leader_path d) w with None => attempt_to_acquire_leader w | Some _ => (Ok false, w) end
  | _ => (r, w)
  end.

Definition set_failover_value (value : string) (version : pyval) w :=
  done_ (kv_set (failover_path d) value 0 0 true (prev_index version) w).
Definition set_config_value (value : string) (version : pyval) w :=
  done_ (kv_set (config_path d) value 0 0 true (prev_index version) w).

(** [touch_member] *)
Definition touch_member (member_data : dict pyval) w :=
  done_ (kv_set (member_path d) (dumps (VDict member_data)) ttl 2 true no_requirements w).

Definition take_leader w := done_ (kv_set (leader_path d) (_name d) ttl 0 true no_requirements w).
Definition initialize (create_new : bool) (sysid : string) w :=
  done_ (kv_set (initialize_path d) sysid 0 0 true (prev_exist (negb create_new)) w).
Definition set_history_value (value : string) w := done_ (kv_set (history_path d) value 0 0 true no_requirements w).

(** [set_sync_state_value]: the new index *)
Definition set_sync_state_value (value : string) (version : pyval) w : exc pyval * W :=
  let '(r, w) := ended (kv_set (sync_path d) value 0 0 true (prev_index version) w) in
  (e ← r; mret (match e : option entry with Some e => VInt (e_index e) | None => VBool false end), w).

Definition _delete_leader w := ended (kv_delete (leader_path d) false 1 (prev_value (_name d)) w).
Definition cancel_initialization w := ended (kv_delete (initialize_path d) false 0 no_requirements w).
Definition delete_cluster w := ended (kv_delete (client_path d "") true 0 no_requirements w).
Definition delete_sync_state (version : pyval) w := ended (kv_delete (sync_path d) false 0 (prev_index version) w).

(** [_on_set], [_on_delete]: whether the waiting HA loop is woken up.  The first condition compares the
    key with two times. *)
Definition on_set (leader : option string) (key : string) (e : entry) : bool :=
  let v := e_data e in
  let is_leader := match leader with Some n => (n =? _name d)%string | None => false end in
  (pyval_eqb (VStr key) (VInt (p_created v)) && (p_created v =? p_updated v) &&
     (String.prefix (members_path d) key || ((key =? leader_path d)%string && negb is_leader)))
  || (((key =? leader_optime_path d)%string || (key =? status_path d)%string) && negb is_leader)
  || ((key =? config_path d)%string || (key =? sync_path d)%string).
Definition on_delete (key : string) : bool := (key =? leader_path d)%string.

(** The backend of the client *)
Definition raft_backend (parse_connection_string : string → pyval * pyval) : Backend W := {|
  clock := raft_time;
  Dcs.ttl _ := ttl;
  _load_cluster path w := (_postgresql_cluster_loader parse_connection_string path (kv_get_recursive path w), w);
  _load_groups path w := (_mpp_cluster_loader parse_connection_string path (kv_get_recursive path w), w);
  Dcs._write_leader_optime := _write_leader_optime;
  Dcs._write_status := _write_status;
  Dcs._write_failsafe := _write_failsafe;
  Dcs._update_leader _ := _update_leader;
  Dcs.attempt_to_acquire_leader := attempt_to_acquire_leader;
  Dcs.set_failover_value := set_failover_value;
  Dcs.set_sync_state_value := set_sync_state_value;
  Dcs._delete_leader _ := _delete_leader;
|}.
End client.

(** * Properties of the Raft backend

    The view of a cluster holds exactly what the keys under its path hold; the calls of a
    node end; and what the client writes it reads back, on a network that answers. *)

(** ** Prefixes *)

Lemma prefix_app p s : String.prefix p s = true ↔ ∃ t, s = p +:+ t.
Proof.
  revert s. induction p as [|c p IH]; intros s; [split; [by exists s|by destruct s]|]. destruct s as [|c' s]; simpl.
  - split; [done|]. by intros [t ?].
  - destruct (ascii_dec c c') as [->|Hne].
    + rewrite IH. split; intros [t Ht]; exists t; [by rewrite Ht|by injection Ht].
    + split; [done|]. intros [t Ht]. injection Ht as -> _. done.
Qed.

Lemma drop_app p s : drop_chars (String.length p) (p +:+ s) = s.
Proof. induction p as [|c p IH]; [by destruct s|done]. Qed.

Lemma app_inj p s t : p +:+ s = p +:+ t → s = t.
Proof. intros H. by rewrite <-(drop_app p s), H, drop_app. Qed.

(** ** The keys under a path *)

Section nodes.
Implicit Types (d : dict entry).

Definition under (path : string) d : dict entry := List.filter (λ kv, String.prefix path kv.1) d.
Definition strip_path (path : string) d : dict entry := map (λ kv, (drop_chars (String.length path) kv.1, kv.2)) d.

Lemma get_strip path k d : Dict.get k (strip_path path (under path d)) = Dict.get (path +:+ k) d.
Proof.
  induction d as [|[k' e] d IH]; [done|]. simpl. destruct (String.prefix path k') eqn:Hp; simpl.
  - apply prefix_app in Hp as [t ->]. rewrite drop_app. destruct (decide (k = t)) as [->|Hne].
    + by rewrite decide_True.
    + rewrite decide_False by (intros H; by apply app_inj in H). exact IH.
  - rewrite IH, decide_False; [done|]. intros <-. assert (String.prefix path (path +:+ k) = true) by (apply prefix_app; eauto). congruence.
Qed.

Lemma keys_strip path d : Dict.wf d → Dict.wf (strip_path path (under path d)).
Proof.
  unfold Dict.wf, Dict.keys. induction d as [|[k e] d IH]; simpl; [done|]. rewrite NoDup_cons. intros [Hk Hd].
  destruct (String.prefix path k) eqn:Hp; simpl; [|by apply IH]. apply NoDup_cons. split; [|by apply IH].
  apply prefix_app in Hp as [t ->]. rewrite drop_app. intros Ht. apply Hk.
  assert (Dict.get t (strip_path path (under path d)) ≠ None) as Hg by (rewrite Dict.get_None; auto).
  rewrite get_strip in Hg. destruct (decide ((path +:+ t) ∈ d.*1)); [done|]. by rewrite (proj2 (Dict.get_None _ d)) in Hg.
Qed.

Lemma nodes_strip path d : Dict.wf d → nodes_of path (under path d) = strip_path path (under path d).
Proof. intros Hd. apply Dict.of_items_wf. by apply keys_strip. Qed.

Lemma get_nodes path k d : Dict.wf d → Dict.get k (nodes_of path (under path d)) = Dict.get (path +:+ k) d.
Proof. intros Hd. by rewrite nodes_strip, get_strip. Qed.
End nodes.

(** The dictionary of a store has one entry per key. *)
Lemma wf_apply c s : Dict.wf (data s) → Dict.wf (data (apply c s).2).
Proof.
  intros Hs. unfold apply. destruct c as [k v q|k [] q|k v]; simpl.
  - destruct (negb _); simpl; [done|by apply Dict.wf_set].
  - unfold Dict.wf, Dict.keys in *. induction (data s) as [|[k' e] d IH]; simpl in *; [done|].
    apply NoDup_cons in Hs as [Hk Hd]. destruct (negb _); simpl; [|by apply IH]. apply NoDup_cons. split; [|by apply IH].
    intros (p & -> & Hp)%list_elem_of_fmap. apply Hk, list_elem_of_fmap. exists p. split; [done|].
    apply list_elem_of_In in Hp. apply filter_In in Hp as [Hp _]. by apply list_elem_of_In.
  - destruct (negb _); simpl; [done|]. destruct (Dict.mem _ _); simpl; [by apply Dict.wf_del|done].
  - destruct (Dict.get _ _); [|done]. destruct (values_match _ _); [by apply Dict.wf_del|done].
Qed.

Lemma wf_replay l s : Dict.wf (data s) → Dict.wf (data (replay l s)).
Proof. revert s. induction l as [|c l IH]; intros s Hs; [done|]. by apply IH, wf_apply. Qed.

(** ** Names of members *)

Lemma split_nonempty sep s : Str.split_on sep s ≠ [].
Proof. induction s as [|c s IH]; simpl; [done|]. case_decide; [done|]. by destruct (Str.split_on sep s). Qed.

Lemma split_lacks n : lacks "/" n = true ↔ length (Str.split_on "/" n) = 1%nat.
Proof.
  split; [by intros Hn; rewrite split_on_lacks|]. induction n as [|c n IH]; [done|]. simpl.
  pose proof (split_nonempty "/" n) as Hne. unfold lacks in *. simpl. destruct (Ascii.eqb_spec c "/") as [->|Hc].
  - rewrite decide_True by done. by destruct (Str.split_on "/" n).
  - rewrite decide_False by done. intros Hl. apply IH. by destruct (Str.split_on "/" n).
Qed.

Lemma member_key n : slashes ("members/" +:+ n) = 1%nat ↔ lacks "/" n = true.
Proof.
  rewrite split_lacks. unfold slashes.
  change ("members/" +:+ n) with ("members" +:+ String "/" n). rewrite split_on_app by done. done.
Qed.

Lemma basename_key n : lacks "/" n = true → basename ("members/" +:+ n) = n.
Proof.
  intros Hn. unfold basename. change ("members/" +:+ n) with ("members" +:+ String "/" n).
  rewrite split_on_app by done. by rewrite split_on_lacks.
Qed.

Section view.
Context `{!Datetime, !Json} (parse_connection_string : string → pyval * pyval).

(** A cluster that is read from the store is what its keys hold: the leader key names the leader,
    the members are those with a key directly under members/, and the initialize key and
    the synchronous state, with its version, are the values of theirs. *)
Theorem raft_view log path c : let d := data (replay log store_init) in
  _postgresql_cluster_loader parse_connection_string path (under path d) = Ok c →
  leader_name c = p_value ∘ e_data <$> Dict.get (path +:+ "leader") d ∧
  DcsData.initialize c = p_value ∘ e_data <$> Dict.get (path +:+ "initialize") d ∧
  sync c = sync_from_node (opt_index (Dict.get (path +:+ "sync") d)) (opt_value (Dict.get (path +:+ "sync") d)) ∧
  ∀ m, m ∈ members c ↔ ∃ n e, lacks "/" n = true ∧ Dict.get (path +:+ ("members/" +:+ n)) d = Some e ∧
    m = member_from_node parse_connection_string (VInt (e_index e)) n VNone (p_value (e_data e)).
Proof.
  intros d Hc. assert (Dict.wf d) as Hd by (apply wf_replay; constructor).
  assert (∀ k, Dict.get k (nodes_of path (under path d)) = Dict.get (path +:+ k) d) as Hg by (intros k; by apply get_nodes).
  assert (Dict.wf (nodes_of path (under path d))) as Hw by (rewrite nodes_strip by done; by apply keys_strip).
  assert (_cluster_from_nodes parse_connection_string (nodes_of path (under path d)) = Ok c) as Hn.
  { unfold _postgresql_cluster_loader in Hc. by destruct (under path d) as [|kv l]. }
  clear Hc. revert Hn Hg Hw. generalize (nodes_of path (under path d)) as nodes. intros nodes Hn Hg Hw.
  unfold _cluster_from_nodes, mbind, exc_bind in Hn. case_match; [|done]. injection Hn as <-. cbn [sync DcsData.initialize members].
  rewrite <-!Hg. split_and!.
  - unfold leader_name. simpl. destruct (Dict.get "leader" nodes) as [e|]; [|done]. simpl. f_equal. unfold l_name. simpl.
    destruct (head _) as [m|] eqn:Hm; [|done]. apply head_Some_elem_of, list_elem_of_In, filter_In in Hm as [_ Hm]. by apply String.eqb_eq.
  - by destruct (Dict.get "initialize" nodes).
  - done.
  - intros m. setoid_rewrite <-Hg. unfold raft_members. rewrite list_elem_of_omap. split.
    + intros ([k e] & Hk & Hm). simpl in Hm. destruct (String.prefix "members/" k && _) eqn:Hp; [|done].
      apply andb_prop in Hp as [Hp Hs]. apply prefix_app in Hp as [n ->]. apply Nat.eqb_eq in Hs. apply member_key in Hs.
      injection Hm as <-. exists n, e. split_and!; [done|by apply Dict.elem_get|]. unfold member. by rewrite basename_key.
    + intros (n & e & Hn & He & ->). exists ("members/" +:+ n, e). split; [by apply Dict.get_Some_elem|].
      cbn [fst snd]. unfold member. rewrite basename_key by done. apply member_key in Hn. rewrite Hn.
      by rewrite (proj2 (prefix_app _ _)) by eauto.
Qed.
End view.

(** ** The calls of a node end *)

(** With a positive retry timeout every [set] and every [delete] returns or raises, whatever the Raft
    library answers and however often it fails: the loop of [retry] is over after as many
    rounds as there are seconds. *)
Theorem raft_calls_end {W} `{!RaftNet W} key value ttl timeout b recursive r (w : W) :
  0 < retry_timeout w → 0 <= timeout →
  (∃ x, (kv_set key value ttl timeout b r w).1 = Some x) ∧ (∃ x, (kv_delete key recursive timeout r w).1 = Some x).
Proof.
  intros Hr Ht. unfold kv_set, kv_delete. split.
  - destruct (set_command _ _ _ _ _ _) as [c|]; [|by eexists].
    destruct (retry_ends c timeout w Hr Ht) as [res Hres]. destruct (retry c timeout w) as [o w']. simpl in Hres. subst o.
    destruct res as [[]|e]; by eexists.
  - destruct (delete_command _ _ _ _) as [c|]; [|by eexists].
    destruct (retry_ends c timeout w Hr Ht) as [res Hres]. destruct (retry c timeout w) as [o w']. simpl in Hres. subst o.
    destruct res as [[]|e]; by eexists.
Qed.

(** ** Keys in limbo *)

Lemma values_match_refl v : values_match v v = true.
Proof.
  unfold values_match. by rewrite !Z.eqb_refl, bool_decide_eq_true_2, String.eqb_refl.
Qed.

Lemma in_limb_set limb k v : in_limb (Dict.set k v limb) k v = true.
Proof. unfold in_limb. rewrite Dict.get_set_eq. apply values_match_refl. Qed.

Lemma in_limb_ne limb k k' v v' : k ≠ k' → in_limb (Dict.set k' v' limb) k v = in_limb limb k v.
Proof. intros Hk. unfold in_limb. by rewrite Dict.get_set_ne. Qed.

(** A key in limbo is not proposed, and stays in limbo. *)
Lemma expire_keys_limbo now items limb k e : Dict.wf items →
  (Dict.get k items = None ∨ Dict.get k items = Some e) → in_limb limb k (e_data e) = true →
  (∀ v, CExpire k v ∉ (expire_keys now items limb).1) ∧ in_limb (expire_keys now items limb).2 k (e_data e) = true.
Proof.
  revert limb. induction items as [|[k' e'] items IH]; intros limb Hw Hk Hl; simpl; [split; [intros v; apply not_elem_of_nil|done]|].
  assert (Dict.wf items) as Hw' by (by apply NoDup_cons in Hw as [_ ?]).
  assert (Dict.get k items = None ∨ Dict.get k items = Some e) as Hk'.
  { simpl in Hk. case_decide as Hkk; [|done]. left. apply Dict.get_None. subst. by apply NoDup_cons in Hw as [? _]. }
  destruct (expired now e' && _) eqn:He; [|by apply IH].
  assert (k ≠ k') as Hne.
  { intros ->. simpl in Hk. rewrite decide_True in Hk by done. destruct Hk as [?|[= ->]]; [done|].
    rewrite Hl in He. by rewrite andb_false_r in He. }
  destruct (IH (Dict.set k' (e_data e') limb) Hw' Hk') as [H1 H2]; [by rewrite in_limb_ne|].
  destruct (expire_keys now items _) as [cs l]. simpl in *. split; [|done].
  intros v [Hv|Hv]%elem_of_cons; [by injection Hv as -> _|by eapply H1].
Qed.

Lemma expire_keys_enters now items limb k e : Dict.wf items → Dict.get k items = Some e → expired now e = true →
  in_limb (expire_keys now items limb).2 k (e_data e) = true.
Proof.
  revert limb. induction items as [|[k' e'] items IH]; intros limb Hw Hk He; [done|]. simpl in *.
  apply NoDup_cons in Hw as [Hk' Hw]. destruct (decide (k = k')) as [->|Hne].
  - injection Hk as ->. assert (Dict.get k' items = None) as Hn by by apply Dict.get_None.
    rewrite He. simpl. destruct (in_limb limb k' (e_data e)) eqn:Hl; simpl.
    + by apply (expire_keys_limbo now items limb k' e Hw (or_introl Hn)).
    + destruct (expire_keys_limbo now items (Dict.set k' (e_data e) limb) k' e Hw (or_introl Hn)) as [_ H2]; [apply in_limb_set|].
      by destruct (expire_keys now items _).
  - destruct (expired now e' && _); [|by apply IH]. specialize (IH (Dict.set k' (e_data e') limb) Hw Hk He).
    by destruct (expire_keys now items _).
Qed.

(** When several keys expire together, the callback of an expiration that failed clears the record of
    another key, the last of the dictionary, because the callbacks share the variables of
    the loop: the key that failed is not proposed again, although it is expired, as long as
    its value stays. *)
Theorem expiry_not_retried now now' items limb k e last_key n : Dict.wf items →
  Dict.get k items = Some e → expired now e = true → loop_variables items = Some last_key → last_key.1 ≠ k →
  ∀ v, CExpire k v ∉ (expire_keys now' items (Nat.iter n (expire_callback last_key) (expire_keys now items limb).2)).1.
Proof.
  intros Hw Hk He Hlast Hne. apply (expire_keys_limbo now' items _ k e Hw (or_intror Hk)).
  induction n as [|n IH]; [by apply expire_keys_enters|]. rewrite Nat.iter_succ. unfold expire_callback at 1.
  destruct last_key as [k' v']. case_match; [|exact IH]. unfold in_limb in IH |- *. by rewrite Dict.get_del_ne by (simpl in Hne; done).
Qed.

(** ** A network that answers at once *)

Definition raft_world : Type := store * Z.

#[export, refine] Instance answering : RaftNet raft_world := {
  replica w := w.1; raft_time w := w.2; retry_timeout _ := 10;
  submit c _ w := match RaftStore.apply c w.1 with
                  | (Ok r, s) => (Success r, (s, w.2))
                  | (Raise _, s) => (Failure, (s, w.2))
                  end;
  raft_sleep w := (w.1, w.2 + 1);
}.
Proof.
  - intros c t w. destruct (RaftStore.apply c w.1) as [[] s]; simpl; lia.
  - intros w. simpl. lia.
Defined.

Definition empty_world : raft_world := (store_init, 100).
Definition no_url (s : string) : pyval * pyval := (VNone, VNone).

Lemma raft_calls_end_witness : ∃ x, (kv_set "leader" "a" 30 0 false (prev_exist false) empty_world).1 = Some x.
Proof. by apply (raft_calls_end "leader" "a" 30 0 false false (prev_exist false) empty_world). Defined.

(** The commands of a cluster [/x/] with the leader [a] *)
Definition example_log : list command :=
  [CSet "/x/members/a" (MkProposal "{}" 1 1 None) no_requirements; CSet "/x/leader" (MkProposal "a" 2 2 (Some 32)) (prev_exist false)].

#[local] Existing Instance text_datetime.

Lemma raft_view_witness : ∃ c,
  _postgresql_cluster_loader no_url "/x/" (under "/x/" (data (replay example_log store_init))) = Ok c ∧ leader_name c = Some "a".
Proof.
  eexists. split; [vm_compute; reflexivity|].
  destruct (raft_view no_url example_log "/x/" _ eq_refl) as [Hl _]. exact Hl.
Defined.

Definition two_expired : dict entry := [("a", MkEntry (MkProposal "1" 0 0 (Some 5)) 1); ("b", MkEntry (MkProposal "2" 0 0 (Some 5)) 2)].
Lemma expiry_not_retried_witness :
  CExpire "a" (MkProposal "1" 0 0 (Some 5)) ∉
    (expire_keys 99 two_expired (expire_callback ("b", MkProposal "2" 0 0 (Some 5)) (expire_keys 9 two_expired []).2)).1.
Proof.
  apply (expiry_not_retried 9 99 two_expired [] "a" (MkEntry (MkProposal "1" 0 0 (Some 5)) 1) ("b", MkProposal "2" 0 0 (Some 5)) 1);
    [apply (bool_decide_unpack _); reflexivity|done..].
Defined.

(** ** The client over this backend *)

Definition raft_client : AbstractDCS := dcs_init (MkMPP false 0 false 0) "a" "service" "x".
#[local] Instance client_backend : Backend raft_world := raft_backend raft_client 30 no_url.

(** The node takes the leader key, records its synchronous standby, and reads both back; a second write
    with the version it had read before is refused. *)
Definition client_run : exc (bool * option SyncState * Cluster * option SyncState) :=
  ((b ← acquire_leader_lock;
    c0 ← get_cluster;
    st ← write_sync_state (Some "a") ["b"] (Some 1) VNone;
    c ← get_cluster;
    again ← write_sync_state (Some "a") ["c"] (Some 1) (VInt 1);
    mret (b, st, c, again)) (raft_client, empty_world)).1.

Example client_over_raft :
  match client_run with
  | Ok (b, st, c, again) => b = true ∧ st = Some (sync c) ∧ leader_name c = Some "a" ∧ again = None ∧
      sync c = MkSync (VInt 2) (VStr "a") (VStr "b") 1
  | Raise _ => False
  end.
Proof. by vm_compute. Qed.
