(* ===== verification/MySQLConn.v ===== *)
(** * The connection to MySQL ([patroni/mysql/connection.py], [patroni/mysql/misc.py])

    [Pymysql] is the interface of the driver and of the clock; [MySQLConnection] and
    [ConnectionPool] are modelled over it, with the one connection the agent uses.  Most
    failures of a statement become a [PostgresConnectionException], on which [_query] closes
    the pool and runs the statement once more.  Every statement is recorded. *)
From S2P Require Import Prelude Lexing PyDict PyVal Effects Utils.

Open Scope string_scope.
Open Scope Z_scope.

(** ** Versions *)

(** [mysql_version_to_int] *)
Definition mysql_version_to_int (version_str : string) : Z :=
  let parts := Str.split_on "." version_str in
  match parts with
  | major :: minor :: rest =>
      let patch_part := match rest with p :: _ => hd "" (Str.split_on "-" p) | [] => "0" end in
      match int_of_string major, int_of_string minor, int_of_string patch_part with
      | Some major, Some minor, Some patch => major * 10000 + minor * 100 + patch
      | _, _, _ => 0
      end
  | _ => 0
  end.

(** ** The driver *)

(** What a call of the driver does: it returns, raises its own error - a [DatabaseError] or another
    one, with the connection lost or not - or something else. *)
Inductive my_result (A : Type) :=
  | Rows (a : A)
  | MyError (database closed : bool)
  | Crash (e : pyexn).
Arguments Rows {A} a.
Arguments MyError {A} database closed.
Arguments Crash {A} e.

Definition row : Type := list pyval.

Class Pymysql (W : Type) := {
  my_connect : W → my_result () * W;
  my_ping : W → my_result () * W;
  my_execute : string → list pyval → W → my_result (list row) * W;
  (* with a [DictCursor], one row *)
  my_execute_dict : string → list pyval → W → my_result (option (dict pyval)) * W;
  (* [time.time()] and [time.sleep], in milliseconds *)
  my_time : W → Z;
  my_sleep : Z → W → W;
  (* the process in [_postmaster_process], and the one named by the pid file *)
  my_alive : W → bool;
  my_from_pidfile : W → option W;
}.

(** The driver's error as an exception; [DatabaseError] stands for [MySQLdbError]. *)
Definition raised {A} (r : my_result A) : exc A :=
  match r with Rows a => Ok a | MyError _ _ => Raise DatabaseError | Crash e => Raise e end.

(** ** The pool *)

Record Pool := MkPool {
  connected : bool;               (* [_connection] is set *)
  conn_version : Z;               (* [server_version] *)
  statements : list (string * bool);   (* ghost: the statements executed, the last one first, and whether they succeeded *)
}.
Definition pool_init : Pool := MkPool false 0 [].

Definition set_connected (b : bool) (p : Pool) : Pool := MkPool b (conn_version p) (statements p).
Definition set_conn_version (v : Z) (p : Pool) : Pool := MkPool (connected p) v (statements p).
Definition record (sql : string) (ok : bool) (p : Pool) : Pool :=
  MkPool (connected p) (conn_version p) ((sql, ok) :: statements p).
Definition succeeded {A} (r : my_result A) : bool := match r with Rows _ => true | _ => false end.

Definition is_my_error (e : pyexn) : bool := match e with DatabaseError => true | _ => false end.
Definition is_attribute_error (e : pyexn) : bool := match e with AttributeError | TypeError => true | _ => false end.
Definition is_exception (e : pyexn) : bool := match e with SystemExit => false | _ => true end.

(** What [_query] tries again on *)
Definition is_transient (e : pyexn) : bool :=
  match e with PostgresConnectionException | AttributeError | TypeError => true | _ => false end.

Section connection.
Context {W : Type} `{!Pymysql W}.
Implicit Types (sql : string) (params : list pyval).

Definition connM (A : Type) : Type := eff (Pool * W) A.
#[global] Instance connM_ret : MRet connM := eff_ret _.
#[global] Instance connM_bind : MBind connM := eff_bind _.

Definition pool_ : connM Pool := gets fst.
Definition update (f : Pool → Pool) : connM () := puts (λ s, (f s.1, s.2)).

(** A call of the driver *)
Definition driver {A} (op : W → my_result A * W) : connM A := λ s,
  let '(r, w) := op s.2 in (raised r, (s.1, w)).

(** [cursor.execute], recorded *)
Definition run_statement sql params : Pool * W → my_result (list row) * (Pool * W) := λ s,
  let '(r, w) := my_execute sql params s.2 in (r, (record sql (succeeded r) s.1, w)).
Definition execute sql params : connM (list row) := λ s,
  let '(r, s) := run_statement sql params s in (raised r, s).

Definition session_setup : connM () :=
  execute "SET SESSION TRANSACTION ISOLATION LEVEL READ COMMITTED" [];;
  execute "SET autocommit = 1" [];;
  mret ().

(** [MySQLConnection._query_one] *)
Definition conn_query_one sql params : connM (option row) :=
  try_except is_my_error (rows ← execute sql params; mret (head rows)) (mret None).

(** [MySQLConnection.get] on a connection that is not there yet *)
Definition conn_establish : connM () :=
  driver my_connect;;
  update (set_connected true);;
  session_setup;;
  ver ← conn_query_one "SELECT VERSION()" [];
  match ver with
  | Some (VStr v :: _) => update (set_conn_version (mysql_version_to_int v))
  | Some (_ :: _) => lift_exc (Raise AttributeError)
  | _ => mret ()
  end.

(** [MySQLConnection.get] on one that does not answer *)
Definition conn_reestablish : connM () :=
  update (set_connected false);;
  try_except is_my_error
    (driver my_connect;; update (set_connected true);; session_setup)
    (update (set_connected false);; lift_exc (Raise PostgresConnectionException)).

(** [MySQLConnection.get] *)
Definition conn_get : connM () :=
  p ← pool_;
  if negb (connected p) then conn_establish
  else try_except (λ e, is_my_error e || is_attribute_error e) (driver my_ping) conn_reestablish.

(** [MySQLConnection.close] *)
Definition conn_close : connM () := update (set_connected false).

(** [MySQLConnection.query]: a [MyError] of an open connection that is no [DatabaseError] is passed on. *)
Definition conn_query sql params : connM (list row) := λ s,
  match conn_get s with
  | (Raise e, s) => (Raise (if is_my_error e then PostgresConnectionException else e), s)
  | (Ok _, s) =>
      let '(r, s) := run_statement sql params s in
      match r with
      | Rows rows => (Ok rows, s)
      | Crash e => (Raise e, s)
      | MyError database closed =>
          if closed then (Raise PostgresConnectionException, s)
          else if database then (conn_close;; lift_exc (Raise PostgresConnectionException)) s
          else (Raise DatabaseError, s)
      end
  end.

(** [MySQLConnection.query_one_dict] *)
Definition conn_query_one_dict sql params : connM (option (dict pyval)) :=
  try_except is_my_error (conn_get;; driver (my_execute_dict sql params)) (mret None).

(** [ConnectionPool.close]: the next [get] of the pool makes a new connection. *)
Definition pool_close : connM () := update (λ p, MkPool false 0 (statements p)).

(** ** The queries of the handler *)

(** [_query]: two attempts *)
Definition attempt sql params : connM (list row) := conn_get;; conn_query sql params.
Definition closing {A} (m : connM A) (again : connM A) : connM A := λ s,
  match m s with
  | (Raise e, s) => if is_transient e then again (pool_close s).2 else (Raise e, s)
  | r => r
  end.
Definition last_attempt sql params : connM (list row) := λ s,
  match attempt sql params s with
  | (Raise e, s) => (Raise e, if is_transient e then (pool_close s).2 else s)
  | r => r
  end.
Definition _query sql params : connM (list row) := closing (attempt sql params) (last_attempt sql params).

(** [_query_one] *)
Definition _query_one sql params : connM (option row) := rows ← _query sql params; mret (head rows).

(** [_query_one_dict] *)
Definition _query_one_dict sql params : connM (option (dict pyval)) := conn_get;; conn_query_one_dict sql params.

(** [try: ... except Exception: ...] *)
Definition trying {A} (m h : connM A) : connM A := try_except is_exception m h.

(** [server_version] *)
Definition server_version : connM Z := trying (conn_get;; p ← pool_; mret (conn_version p)) (mret 0).

(** A statement without a result *)
Definition exec sql params : connM () := _query sql params;; mret ().

(** [try: self._query(sql) except Exception: pass] *)
Definition exec_quietly sql : connM () := trying (exec sql []) (mret ()).
End connection.
