(* ===== verification/MySQL.v ===== *)
(** * The MySQL handler ([patroni/mysql/__init__.py], [MySQL])

    Roles and read-only mode, semi-synchronous replication, positions, promotion, demotion
    and following, and the start and stop of mysqld, over the connection of [MySQLConn].
    Group replication is in [Mgr]. *)
From S2P Require Import Prelude Lexing PyDict PyVal Effects Utils DcsData MySQLConn.

Open Scope string_scope.
Open Scope Z_scope.

(** ** The object *)

(** [MySQLRole] *)
Inductive MySQLRole :=
  | PRIMARY | REPLICA | STANDBY_LEADER | DEMOTED | UNINITIALIZED | PROMOTED | MGR_PRIMARY | MGR_SECONDARY.
#[export] Instance MySQLRole_eq_dec : EqDecision MySQLRole.
Proof. solve_decision. Defined.

(** The states of [MySQLState] that this class sets *)
Inductive MySQLState := STOPPED | STARTING | RUNNING | START_FAILED.
#[export] Instance MySQLState_eq_dec : EqDecision MySQLState.
Proof. solve_decision. Defined.

(** The configuration: [_name], [parameters], [replication] *)
Record MyConfig := MkMyConfig { my_name : string; parameters : dict pyval; replication : dict pyval }.

(** The fields of the object that change; [_mgr_gtid_fork] by the members it names *)
Record MySQL := MkMySQL {
  my_role : MySQLRole;
  my_state : MySQLState;
  has_process : bool;                            (* [_postmaster_process] is set *)
  mgr_gtid_fork : option (list (string * string));
  binlog_file : pyval;                           (* [_cached_binlog_file] *)
  binlog_pos : Z;                                (* [_cached_binlog_pos] *)
  pool : Pool;
}.

(** [__init__] *)
Definition mysql_init : MySQL := MkMySQL UNINITIALIZED STOPPED false None VNone 0 pool_init.

Definition put_role (r : MySQLRole) (m : MySQL) : MySQL :=
  MkMySQL r (my_state m) (has_process m) (mgr_gtid_fork m) (binlog_file m) (binlog_pos m) (pool m).
Definition put_state (v : MySQLState) (m : MySQL) : MySQL :=
  MkMySQL (my_role m) v (has_process m) (mgr_gtid_fork m) (binlog_file m) (binlog_pos m) (pool m).
Definition put_process (b : bool) (m : MySQL) : MySQL :=
  MkMySQL (my_role m) (my_state m) b (mgr_gtid_fork m) (binlog_file m) (binlog_pos m) (pool m).
Definition put_fork (f : option (list (string * string))) (m : MySQL) : MySQL :=
  MkMySQL (my_role m) (my_state m) (has_process m) f (binlog_file m) (binlog_pos m) (pool m).
Definition put_binlog (f : pyval) (p : Z) (m : MySQL) : MySQL :=
  MkMySQL (my_role m) (my_state m) (has_process m) (mgr_gtid_fork m) f p (pool m).
Definition put_pool (p : Pool) (m : MySQL) : MySQL :=
  MkMySQL (my_role m) (my_state m) (has_process m) (mgr_gtid_fork m) (binlog_file m) (binlog_pos m) p.

(** What the agent uses of the operating system for mysqld *)
Class Mysqld (W : Type) := {
  (* [config.write_my_cnf] on the disk *)
  os_write_cnf : W → exc () * W;
  (* [subprocess.Popen] of mysqld, and waiting for it to become a daemon *)
  os_popen : W → exc () * W;
  (* whether the socket accepts a connection *)
  os_connects : W → bool * W;
  (* [subprocess.run] of [mysqladmin shutdown]: it returns whatever mysqladmin's exit status is *)
  os_mysqladmin_shutdown : W → exc () * W;
  os_signal_stop : string → W → W;
  os_wait_for_stop : W → W;
  os_signal_kill : W → W;
  os_remove_pidfile : W → W;
}.

(** ** URLs ([urllib.parse.urlparse]) *)

Fixpoint partition (c : ascii) (s : string) : string * option string :=
  match s with
  | "" => ("", None)
  | String d s => if Ascii.eqb c d then ("", Some s) else let '(a, b) := partition c s in (String d a, b)
  end.

(** [s.rpartition(c)[2]] *)
Definition after_last (c : ascii) (s : string) : string := List.last (Str.split_on c s) "".

Definition is_alpha (c : ascii) : bool :=
  let n := nat_of_ascii (Str.lower_ascii c) in bool_decide (97 ≤ n ≤ 122)%nat.
Definition is_scheme_char (c : ascii) : bool :=
  is_alpha c || is_digit c || Ascii.eqb c "+" || Ascii.eqb c "-" || Ascii.eqb c ".".

(** What follows the scheme *)
Definition after_scheme (url : string) : string :=
  match partition ":" url with
  | (String c s, Some rest) => if is_alpha c && Str.all is_scheme_char s then rest else url
  | _ => url
  end.

Definition is_netloc_end (c : ascii) : bool := Ascii.eqb c "/" || Ascii.eqb c "?" || Ascii.eqb c "#".

(** The network location, for ASCII URLs without control characters *)
Definition netloc (url : string) : string :=
  match after_scheme url with
  | String "/" (String "/" rest) => (span (λ c, negb (is_netloc_end c)) rest).1
  | _ => ""
  end.

(** [_hostinfo]: the host and the port as text *)
Definition hostinfo (url : string) : string * option string :=
  let h := after_last "@" (netloc url) in
  match partition "[" h with
  | (_, Some bracketed) => let '(host, port) := partition "]" bracketed in (host, (partition ":" (default "" port)).2)
  | (_, None) => partition ":" h
  end.

(** [r.hostname], [''] for [None]: a zone keeps its case. *)
Definition url_hostname (url : string) : string :=
  let '(host, zone) := partition "%" (hostinfo url).1 in
  Str.lower host +:+ match zone with Some z => "%" +:+ z | None => "" end.

(** [r.port], [0] for [None] *)
Definition url_port (url : string) : exc Z :=
  match (hostinfo url).2 with
  | None | Some "" => Ok 0
  | Some p => if Str.all is_digit p
              then let n := digits_value 10 p in if n <=? 65535 then Ok n else Raise ValueError
              else Raise ValueError
  end.

(** [_parse_conn_url]; a bracket without its other one is an error of [urlparse]. *)
Definition _parse_conn_url (conn_url : string) : exc (string * Z) :=
  if negb (Bool.eqb (contains "[" (netloc conn_url)) (contains "]" (netloc conn_url))) then Raise ValueError else
  let host := url_hostname conn_url in
  port ← url_port conn_url;
  mret (if (host =? "")%string then "127.0.0.1" else host, if port =? 0 then 3306 else port).

(** ** Statements of the handler *)

(** [rpl_semi_sync_source_enabled] or [rpl_semi_sync_replica_enabled] *)
Definition _semi_sync_configured (ps : dict pyval) : bool :=
  truthy (vget "rpl_semi_sync_source_enabled" ps) || truthy (vget "rpl_semi_sync_replica_enabled" ps).

(** [cluster_size] *)
Definition node_count (ps : dict pyval) : exc Z := py_int (vget_or "cluster_size" (VInt 3) ps).

(** [_configure_semi_sync_timeout], [_configure_semi_sync_wait_count] *)
Definition semi_sync_timeout (nodes : Z) : Z := if 3 <=? nodes then 10 ^ 18 else 10000.
Definition semi_sync_wait_count (nodes : Z) : Z := Z.max 1 ((nodes - 1) / 2).

(** The number of replicas [run_semi_sync_safety_check] asks for *)
Definition safety_quorum (cluster_nodes : Z) : Z := cluster_nodes / 2.

(** [row[k]] of a row that is a dictionary *)
Definition row_get (k : string) (r : dict pyval) : exc pyval :=
  match Dict.get k r with Some v => Ok v | None => Raise KeyError end.

(** [row.get(k, dflt)] as a string, for its methods *)
Definition row_str (k dflt : string) (r : dict pyval) : exc string :=
  match vget_or k (VStr dflt) r with VStr s => Ok s | _ => Raise AttributeError end.

Section handler.
Context {W : Type} `{!Pymysql W, !Mysqld W} (cfg : MyConfig).

Definition myM (A : Type) : Type := eff (MySQL * W) A.
#[global] Instance myM_ret : MRet myM := eff_ret _.
#[global] Instance myM_bind : MBind myM := eff_bind _.

Definition me : myM MySQL := gets fst.
Definition put (f : MySQL → MySQL) : myM () := puts (λ s, (f s.1, s.2)).
Definition attr {A} (f : W → A) : myM A := gets (λ s, f s.2).
Definition world_does (f : W → W) : myM () := puts (λ s, (s.1, f s.2)).
Definition os {A} (op : W → exc A * W) : myM A := λ s, let '(r, w) := op s.2 in (r, (s.1, w)).

(** A computation of the connection, on the pool *)
Definition conn {A} (m : connM (W := W) A) : myM A := λ s,
  let '(r, (p, w)) := m (pool s.1, s.2) in (r, (put_pool p s.1, w)).

Definition try_ {A} (m h : myM A) : myM A := try_except is_exception m h.
Definition ret_exc {A} (r : exc A) : myM A := lift_exc r.

Definition sql (s : string) : myM () := conn (exec s []).
(** [try: self._query(sql) except Exception: pass] *)
Definition sql_quietly (s : string) : myM () := try_ (sql s) (mret ()).
(** [try: self._query(sql) except Exception: h] *)
Definition sql_or (s : string) (h : myM ()) : myM () := try_ (sql s) h.
Definition query_one (s : string) (params : list pyval) : myM (option row) := conn (_query_one s params).
Definition query_one_dict (s : string) : myM (option (dict pyval)) := conn (_query_one_dict s []).
Definition close_pool : myM () := conn pool_close.

Definition set_role (r : MySQLRole) : myM () := put (put_role r).
Definition set_state (v : MySQLState) : myM () := put (put_state v).

(** ** Read-only mode *)

Definition set_read_only : myM () :=
  try_ (sql "SET GLOBAL read_only = ON";; sql "SET GLOBAL super_read_only = ON") (mret ()).
Definition set_read_write : myM () :=
  try_ (sql "SET GLOBAL super_read_only = OFF";; sql "SET GLOBAL read_only = OFF") (mret ()).

Definition is_read_only : myM bool :=
  try_ (r ← query_one_dict "SHOW VARIABLES LIKE 'read_only'";
        match r with
        | Some ((_ :: _) as r) => v ← ret_exc (row_str "Value" "OFF" r); mret (Str.lower v =? "on")%string
        | _ => mret false
        end) (mret false).

(** ** The process *)

Definition is_running : myM bool :=
  m ← me;
  alive ← attr my_alive;
  if has_process m && alive then mret true else
  p ← attr my_from_pidfile;
  match p with
  | Some w => world_does (λ _, w);; put (put_process true);; set_state RUNNING;; mret true
  | None => mret false
  end.

(** A row means a replica; no answer means neither. *)
Definition is_primary : myM bool :=
  running ← is_running;
  if negb running then mret false else
  try_ (r ← query_one "SHOW SLAVE STATUS" []; mret (match r : option row with None => true | Some _ => false end)) (mret false).

Definition _is_replica : myM bool :=
  try_ (r ← query_one "SHOW SLAVE STATUS" []; mret (match r : option row with None => false | Some _ => true end)) (mret false).

Definition is_healthy : myM bool :=
  try_ (_ ← query_one "SELECT 1" []; mret true) (mret false).
Definition is_starting : myM bool := m ← me; mret (bool_decide (my_state m = STARTING)).

(** ** Semi-synchronous replication *)

(** A [SET GLOBAL] with one parameter, under its new name or else its old one *)
Definition sql_param_or (s old : string) (v : Z) : myM () :=
  try_ (conn (exec s [VInt v])) (conn (exec old [VInt v])).

Definition _configure_semi_sync_timeout : myM () :=
  try_ (n ← ret_exc (node_count (parameters cfg));
        sql_param_or "SET GLOBAL rpl_semi_sync_source_timeout = %s" "SET GLOBAL rpl_semi_sync_master_timeout = %s"
          (semi_sync_timeout n)) (mret ()).

Definition _configure_semi_sync_wait_count : myM () :=
  try_ (n ← ret_exc (node_count (parameters cfg));
        sql_param_or "SET GLOBAL rpl_semi_sync_source_wait_for_replica_count = %s"
          "SET GLOBAL rpl_semi_sync_master_wait_for_slave_count = %s" (semi_sync_wait_count n)) (mret ()).

Definition _enable_semi_sync : myM () :=
  if negb (_semi_sync_configured (parameters cfg)) then mret () else
  try_
    (primary ← is_primary;
     if primary : bool then
       sql_or "SET GLOBAL rpl_semi_sync_source_wait_point = 'AFTER_SYNC'"
         (sql_quietly "SET GLOBAL rpl_semi_sync_master_wait_point = 'AFTER_SYNC'");;
       sql_or "SET GLOBAL rpl_semi_sync_source_wait_no_replica = 1"
         (sql_or "SET GLOBAL rpl_semi_sync_source_wait_no_slave = 1"
            (sql_quietly "SET GLOBAL rpl_semi_sync_master_wait_no_slave = 1"));;
       sql "SET GLOBAL rpl_semi_sync_source_enabled = 1";;
       _configure_semi_sync_timeout;;
       _configure_semi_sync_wait_count
     else sql "SET GLOBAL rpl_semi_sync_replica_enabled = 1") (mret ()).

Definition _disable_semi_sync : myM () :=
  try_ (sql "SET GLOBAL rpl_semi_sync_source_enabled = 0";; sql "SET GLOBAL rpl_semi_sync_replica_enabled = 0") (mret ()).

Definition count_semi_sync_replicas : myM Z :=
  try_ (r ← query_one_dict "SHOW STATUS LIKE 'Rpl_semi_sync_source_clients'";
        match r with
        | Some ((_ :: _) as r) => ret_exc (py_int (vget_or "Value" (VInt 0) r))
        | _ => mret 0
        end) (mret 0).

Definition run_semi_sync_safety_check (cluster_nodes : Z) : myM (option string) :=
  primary ← (if _semi_sync_configured (parameters cfg) then is_primary else mret false);
  if negb primary then mret None else
  active_replicas ← count_semi_sync_replicas;
  read_only ← is_read_only;
  if active_replicas <? safety_quorum cluster_nodes then
    if negb read_only then set_read_only;; mret (Some "read_only_set") else mret None
  else
    if read_only then set_read_write;; mret (Some "read_write_restored") else mret None.

(** ** Positions *)

(** [int(row[k])] *)
Definition int_at (k : string) (r : dict pyval) : exc Z := v ← row_get k r; py_int v.
(** [int(row[k]) if row.get(k) else 0] *)
Definition int_at_or_0 (k : string) (r : dict pyval) : exc Z :=
  if truthy (vget k r) then py_int (vget k r) else Ok 0.

Definition last_operation : myM Z :=
  try_ (primary ← is_primary;
        r ← query_one_dict (if primary : bool then "SHOW MASTER STATUS" else "SHOW SLAVE STATUS");
        match r with
        | Some ((_ :: _) as r) => ret_exc (if primary : bool then int_at "Position" r else int_at_or_0 "Exec_Master_Log_Pos" r)
        | _ => mret 0
        end) (mret 0).

(** [timeline_wal_position]: the written, received and replayed positions.  What is read before an
    exception is kept. *)
Definition primary_position (r : dict pyval) : myM (Z * Z * Z) :=
  match int_at "Position" r with
  | Raise _ => mret (0, 0, 0)
  | Ok pos =>
      match row_get "File" r with
      | Raise _ => mret (pos, 0, 0)
      | Ok f => put (put_binlog f pos);; mret (pos, 0, 0)
      end
  end.

Definition replica_position (r : dict pyval) : myM (Z * Z * Z) :=
  match int_at_or_0 "Read_Master_Log_Pos" r with
  | Raise _ => mret (0, 0, 0)
  | Ok received =>
      match int_at_or_0 "Exec_Master_Log_Pos" r with
      | Raise _ => mret (0, received, 0)
      | Ok replayed =>
          put (λ m, put_binlog (py_or (vget "Relay_Master_Log_File" r) (VStr "")) (binlog_pos m) m);;
          mret (0, received, replayed)
      end
  end.

Definition timeline_wal_position : myM (Z * Z * Z * Z * Z) :=
  p ← try_ (primary ← is_primary;
            r ← query_one_dict (if primary : bool then "SHOW MASTER STATUS" else "SHOW SLAVE STATUS");
            match r with
            | Some ((_ :: _) as r) => if primary : bool then primary_position r else replica_position r
            | _ => mret (0, 0, 0)
            end) (mret (0, 0, 0));
  let '(write_pos, receive_pos, replay_pos) := p in
  mret (0, write_pos, 0, receive_pos, replay_pos).

(** [replication_state] of a row of SHOW SLAVE STATUS *)
Definition thread_state (r : dict pyval) : string :=
  let io := vget_or "Slave_IO_Running" (VStr "") r in
  let applier := vget_or "Slave_SQL_Running" (VStr "") r in
  if pyval_eqb io (VStr "Yes") && pyval_eqb applier (VStr "Yes") then "streaming"
  else if pyval_eqb io (VStr "Yes") then "catching_up"
  else if pyval_eqb io (VStr "Connecting") then "connecting"
  else "stopped".

Definition replication_state : myM (option string) :=
  try_ (r ← query_one_dict "SHOW SLAVE STATUS";
        match r with
        | Some ((_ :: _) as r) => mret (Some (thread_state r))
        | _ => mret (Some "primary")
        end) (mret None).

(** ** Start and stop of mysqld *)

(** [check] until it gives true, with a pause after each failure, until the [deadline]: [None] when
    the fuel is not enough. *)
Fixpoint poll (fuel : nat) (deadline pause : Z) (check : myM bool) : myM (option bool) :=
  match fuel with
  | O => mret None
  | S fuel =>
      now ← attr my_time;
      if deadline <=? now then mret (Some false) else
      ok ← check;
      if ok : bool then mret (Some true)
      else world_does (my_sleep pause);; poll fuel deadline pause check
  end.

(** As many rounds as pauses fit before the deadline, and one *)
Definition poll_until (deadline pause : Z) (check : myM bool) : myM bool :=
  now ← attr my_time;
  r ← poll (S (Z.to_nat ((deadline - now + pause - 1) / pause))) deadline pause check;
  mret (default false r).

(** [MySQLProcess.start]: the pid file is looked for [n] times. *)
Fixpoint find_process (n : nat) : myM bool :=
  match n with
  | O => mret false
  | S n =>
      p ← attr my_from_pidfile;
      match p with
      | Some w => world_does (λ _, w);; mret true
      | None => world_does (my_sleep 1000);; find_process n
      end
  end.
Definition process_start : myM bool :=
  try_except (λ e, match e with OSError => true | _ => false end) (os os_popen;; find_process 10) (mret false).

(** [wait_for_ready]; a failed connection is not an error. *)
Definition connects : myM bool := λ s, let '(b, w) := os_connects s.2 in (Ok b, (s.1, w)).
Definition wait_for_ready (timeout : Z) : myM bool :=
  now ← attr my_time; poll_until (now + timeout * 1000) 500 connects.

Definition start (timeout : Z) : myM bool :=
  running ← is_running;
  if running : bool then mret true else
  set_state STARTING;;
  os os_write_cnf;;
  close_pool;;
  started ← process_start;
  if negb started then set_state START_FAILED;; mret false else
  put (put_process true);;
  ready ← wait_for_ready (if timeout =? 0 then 120 else timeout);
  if negb ready then
    world_does os_signal_kill;; put (put_process false);; set_state START_FAILED;; mret false
  else set_state RUNNING;; mret true.

Definition stop (mode : string) : myM bool :=
  running ← is_running;
  if negb running then mret true else
  try_ (os os_mysqladmin_shutdown) (world_does (os_signal_stop mode);; world_does os_wait_for_stop);;
  close_pool;;
  put (put_process false);;
  world_does os_remove_pidfile;;
  set_state STOPPED;;
  mret true.

Definition restart (timeout : Z) : myM bool := stop "fast";; start timeout.

(** ** Promotion, demotion, following *)

(** [ensure_replication_user] catches the errors of its statements. *)
Definition promote (ensure_replication_user : myM ()) (before_promote : myM ()) (complete : bool → myM ()) : myM bool :=
  before_promote;;
  replica ← _is_replica;
  if negb replica then mret true else
  try_except is_my_error
    (sql "STOP SLAVE";;
     sql "RESET SLAVE ALL";;
     set_role PRIMARY;;
     ensure_replication_user;;
     set_read_write;;
     _enable_semi_sync;;
     complete true;;
     mret true)
    (complete false;; mret false).

Definition demote : myM bool := _disable_semi_sync;; set_role DEMOTED;; mret true.

(** Both threads run, and the source is the one that is wanted. *)
Definition replicates_from (host : string) (port : Z) (r : dict pyval) : exc bool :=
  cur_port ← py_int (py_or (vget "Master_Port" r) (VInt 0));
  mret ((py_str (py_or (vget "Master_Host" r) (VStr "")) =? host)%string && (cur_port =? port)
        && pyval_eqb (vget "Slave_IO_Running" r) (VStr "Yes") && pyval_eqb (vget "Slave_SQL_Running" r) (VStr "Yes")).

Definition is_standby (role : option MySQLRole) : bool := bool_decide (role = Some STANDBY_LEADER).

(** The check of [follow] that there is nothing to do *)
Definition already_follows (host : string) (port : Z) (role : option MySQLRole) : myM bool :=
  try_ (slave ← query_one_dict "SHOW SLAVE STATUS";
        match slave with
        | Some ((_ :: _) as r) =>
            same ← ret_exc (replicates_from host port r);
            if same : bool then
              try_ set_read_only (mret ());;
              (if is_standby role then set_role STANDBY_LEADER else mret ());;
              mret true
            else mret false
        | _ => mret false
        end) (mret false).

Definition change_master : string :=
  "CHANGE MASTER TO MASTER_HOST=%s, MASTER_PORT=%s, MASTER_USER=%s, MASTER_PASSWORD=%s, MASTER_AUTO_POSITION=1, MASTER_CONNECT_RETRY=5, GET_MASTER_PUBLIC_KEY=1".

Definition replication_user : pyval := vget_or "username" (VStr "replicator") (replication cfg).
Definition replication_password : pyval := vget_or "password" (VStr "") (replication cfg).

(** The statements that configure replication *)
Definition follow_source (host : string) (port : Z) (role : option MySQLRole) : myM bool :=
  try_except is_my_error
    (sql "STOP SLAVE";;
     sql "RESET SLAVE ALL";;
     conn (exec change_master [VStr host; VInt port; replication_user; replication_password]);;
     sql "START SLAVE";;
     set_read_only;;
     (if is_standby role then set_role STANDBY_LEADER else mret ());;
     _enable_semi_sync;;
     close_pool;;
     mret true)
    (mret false).

(** The first address of a list of hosts *)
Definition first_host (host : string) : string :=
  if contains "," host then Str.strip (hd "" (Str.split_on "," host)) else host.

Definition follow (node_to_follow : option Member) (role : option MySQLRole) (timeout : Z) : myM bool :=
  match role, node_to_follow with
  | Some r, _ => set_role r
  | None, Some _ => set_role REPLICA
  | None, None => mret ()
  end;;
  running ← is_running;
  started ← (if running : bool then mret true else start timeout);
  if negb started then mret false else
  match node_to_follow with
  | None =>
      try_ (sql "STOP SLAVE";; sql "RESET SLAVE ALL") (mret ());;
      (if bool_decide (role = Some REPLICA ∨ role = Some STANDBY_LEADER) then mret () else set_role PRIMARY);;
      mret true
  | Some m =>
      url ← ret_exc (conn_url m);
      if negb (truthy url.1) then mret false else
      hp ← ret_exc (_parse_conn_url (py_str url.1));
      let host := first_host hp.1 in
      already ← already_follows host hp.2 role;
      if already : bool then mret true else follow_source host hp.2 role
  end.
End handler.
