(* ===== verification/Mgr.v ===== *)
(** * Group replication ([patroni/mysql/__init__.py], [MySQL])

    The comparison of GTID sets, the election of the member that bootstraps the group after
    its majority is lost, and the maintenance cycle the HA loop runs. *)
From S2P Require Import Prelude Lexing PyDict PyVal Effects Utils DcsData MySQLConn MySQL.

Open Scope string_scope.
Open Scope Z_scope.

(** ** White space *)

(** [s.split()], with the word that has begun *)
Fixpoint words_from (cur s : string) : list string :=
  match s with
  | "" => if (cur =? "")%string then [] else [cur]
  | String c s =>
      if Str.is_space c then (if (cur =? "")%string then words_from "" s else cur :: words_from "" s)
      else words_from (cur +:+ String c "") s
  end.
Definition words (s : string) : list string := words_from "" s.

(** [' '.join(s.split())] *)
Definition collapse (s : string) : string := Str.join " " (words s).

(** ** Members and their GTID sets *)

Inductive relation := equal | a_ahead | b_ahead | incomparable.
#[export] Instance relation_eq_dec : EqDecision relation.
Proof. solve_decision. Defined.

Abbreviation candidate := (string * string)%type.

(** [_member_gtid] *)
Definition _member_gtid (m : Member) : exc string :=
  let gtid := vget "gtid_executed" (m_data m) in
  if truthy gtid then Ok (collapse (py_str gtid)) else
  match py_or (vget "binlog" (m_data m)) (VDict []) with
  | VDict binlog => Ok (collapse (py_str (py_or (vget "gtid_set" binlog) (py_or (vget "gtid_executed" binlog) (VStr "")))))
  | _ => Raise AttributeError
  end.

(** A peer's GTID set, where it has published one *)
Definition peers (name : string) (members : list Member) : list Member :=
  List.filter (λ m, negb (m_name m =? "")%string && negb (m_name m =? name)%string) members.

Fixpoint published (ms : list Member) : exc (list candidate) :=
  match ms with
  | [] => mret []
  | m :: ms =>
      gtid ← _member_gtid m;
      rest ← published ms;
      mret (if (gtid =? "")%string then rest else (m_name m, gtid) :: rest)
  end.

(** [_mgr_gtid_candidates] *)
Definition _mgr_gtid_candidates (name local_gtid : string) (members : list Member) : exc (list candidate) :=
  let local_gtid := collapse local_gtid in
  rest ← published (peers name members);
  mret (if (local_gtid =? "")%string then rest else (name, local_gtid) :: rest).

(** [min] of names *)
Fixpoint min_name (n : string) (l : list string) : string :=
  match l with [] => n | x :: l => min_name (if String.leb n x then n else x) l end.

(** [_find_mgr_primary_member]: the member, and the URL it advertises.  An [AttributeError] of the
    property [conn_url] is the default of [getattr]. *)
Definition member_url (m : Member) : exc pyval :=
  match conn_url m with
  | Ok (url, _) => Ok url
  | Raise AttributeError => Ok VNone
  | Raise e => Raise e
  end.

Fixpoint _find_mgr_primary_member (name : string) (members : list Member) : exc (option Member) :=
  match members with
  | [] => mret None
  | m :: members =>
      if (m_name m =? name)%string then _find_mgr_primary_member name members else
      if (py_str (py_or (vget "role" (m_data m)) (VStr "")) =? "mgr_primary")%string then
        url ← (if truthy (vget "conn_url" (m_data m)) then mret (vget "conn_url" (m_data m)) else member_url m);
        if truthy url then mret (Some m) else _find_mgr_primary_member name members
      else _find_mgr_primary_member name members
  end.

(** [mgr_pause_on_gtid_fork_enabled] *)
Definition mgr_pause_on_gtid_fork_enabled (ps : dict pyval) : bool :=
  negb (existsb (pyval_eqb (vget_or "mgr_pause_on_gtid_fork" (VBool true) ps))
          [VBool false; VInt 0; VStr "0"; VStr "false"; VStr "False"; VStr "off"; VStr "OFF"; VStr "no"; VStr "NO"]).

(** [_is_mgr_configured] *)
Definition _is_mgr_configured (ps : dict pyval) : bool := truthy (vget "group_replication_group_name" ps).

Definition subset_query : string := "SELECT GTID_SUBSET(%s, %s), GTID_SUBSET(%s, %s)".

Definition status_query : string :=
  "SELECT MEMBER_ROLE AS role, MEMBER_STATE AS state,        MEMBER_ID AS member_id, MEMBER_HOST AS member_host,        MEMBER_PORT AS member_port,        (SELECT MEMBER_ID FROM performance_schema.replication_group_members          WHERE MEMBER_ROLE = 'PRIMARY' LIMIT 1) AS primary_uuid FROM performance_schema.replication_group_members WHERE MEMBER_ID = @@server_uuid   AND MEMBER_STATE NOT IN ('OFFLINE', 'ERROR')".

Definition healthy_query : string :=
  "SELECT MEMBER_STATE, MEMBER_ROLE FROM performance_schema.replication_group_members WHERE MEMBER_STATE IN ('ONLINE', 'RECOVERING')".

Definition recovery_channel : string :=
  "CHANGE MASTER TO MASTER_USER = %s, MASTER_PASSWORD = %s FOR CHANNEL 'group_replication_recovery'".

Definition START_GR : string := "START GROUP_REPLICATION".
Definition STOP_GR : string := "STOP GROUP_REPLICATION".
Definition BOOTSTRAP_ON : string := "SET GLOBAL group_replication_bootstrap_group = ON".
Definition BOOTSTRAP_OFF : string := "SET GLOBAL group_replication_bootstrap_group = OFF".

(** [row[k]] *)
Definition nth_value (k : nat) (r : row) : exc pyval := match r !! k with Some v => Ok v | None => Raise IndexError end.

(** [any(row[1] == 'PRIMARY' for row in rows)] *)
Fixpoint any_primary (rows : list row) : exc bool :=
  match rows with
  | [] => mret false
  | r :: rows => v ← nth_value 1 r; if pyval_eqb v (VStr "PRIMARY") then mret true else any_primary rows
  end.

(** What two answers of [GTID_SUBSET] say *)
Definition relation_of (a_sub_b b_sub_a : Z) : relation :=
  if negb (a_sub_b =? 0) && negb (b_sub_a =? 0) then equal
  else if negb (a_sub_b =? 0) then b_ahead
  else if negb (b_sub_a =? 0) then a_ahead
  else incomparable.

Definition row_relation (r : row) : exc relation :=
  a ← nth_value 0 r; a_sub_b ← py_int (py_or a (VInt 0));
  b ← nth_value 1 r; b_sub_a ← py_int (py_or b (VInt 0));
  mret (relation_of a_sub_b b_sub_a).

Section mgr.
Context {W : Type} `{!Pymysql W, !Mysqld W} (cfg : MyConfig).
Implicit Types (members : list Member) (l : list candidate).

Abbreviation myM := (MySQL.myM (W := W)).
Abbreviation name := (my_name cfg).

(** ** GTID sets *)

Definition get_executed_gtid : myM string :=
  try_ (r ← query_one "SELECT @@gtid_executed" [];
        match r with
        | Some (v :: _) => mret (collapse (py_str (py_or v (VStr ""))))
        | _ => mret ""
        end) (mret "").

Definition gtid_relation (gtid_a gtid_b : string) : myM relation :=
  let a := collapse gtid_a in
  let b := collapse gtid_b in
  if (a =? "")%string || (b =? "")%string then mret incomparable else
  try_ (r ← query_one subset_query [VStr a; VStr b; VStr b; VStr a];
        match r with
        | Some ((_ :: _) as r) => ret_exc (row_relation r)
        | _ => mret incomparable
        end) (mret incomparable).

Definition compare_gtid (other_gtid : string) : myM Z :=
  local ← get_executed_gtid;
  rel ← gtid_relation local other_gtid;
  mret (match rel with a_ahead => 1 | b_ahead => -1 | _ => 0 end).

(** ** The election *)

(** The inner loop of [_mgr_maximal_candidates]: another candidate is strictly ahead. *)
Fixpoint dominated (a : candidate) l : myM bool :=
  match l with
  | [] => mret false
  | b :: l =>
      if (a.1 =? b.1)%string then dominated a l else
      rel ← gtid_relation a.2 b.2;
      if bool_decide (rel = b_ahead) then mret true else dominated a l
  end.

Fixpoint maximal_of (all l : list candidate) : myM (list candidate) :=
  match l with
  | [] => mret []
  | a :: l =>
      d ← dominated a all;
      rest ← maximal_of all l;
      mret (if d : bool then rest else a :: rest)
  end.
Definition _mgr_maximal_candidates l : myM (list candidate) := maximal_of l l.

(** Every candidate of [l] is compared as equal to [base], up to the first one that is not. *)
Fixpoint all_equal (base : candidate) l : myM bool :=
  match l with
  | [] => mret true
  | c :: l =>
      rel ← gtid_relation base.2 c.2;
      if bool_decide (rel = equal) then all_equal base l else mret false
  end.

Definition describe_mgr_gtid_fork (local_gtid : string) members : myM (list candidate) :=
  candidates ← ret_exc (_mgr_gtid_candidates name local_gtid members);
  if (length candidates <? 2)%nat then mret [] else
  maximal ← _mgr_maximal_candidates candidates;
  match maximal with
  | base :: ((_ :: _) as rest) =>
      same ← all_equal base rest;
      mret (if same : bool then [] else maximal)
  | _ => mret []
  end.

Definition select_mgr_bootstrap_winner (local_gtid : string) members : myM (option string) :=
  candidates ← ret_exc (_mgr_gtid_candidates name local_gtid members);
  match candidates with
  | [] => mret None
  | [c] => mret (Some c.1)
  | _ =>
      maximal ← _mgr_maximal_candidates candidates;
      match maximal with
      | [] => mret None
      | base :: rest =>
          same ← all_equal base rest;
          mret (if same : bool then Some (min_name base.1 rest.*1) else None)
      end
  end.

(** ** The state of the group *)

Definition none_to_empty (v : pyval) : pyval := match v with VNone => VStr "" | _ => v end.

(** [get_mgr_status]: empty when the member is not in a group *)
Definition get_mgr_status : myM (dict pyval) :=
  try_ (r ← query_one_dict status_query;
        match r with
        | Some ((_ :: _) as r) => mret (map (λ kv, (kv.1, none_to_empty kv.2)) r)
        | _ => mret []
        end) (mret []).

Definition is_mgr_healthy : myM bool :=
  try_ (rows ← conn (_query healthy_query []);
        match rows with
        | [] => mret false
        | _ =>
            has_primary ← ret_exc (any_primary rows);
            n ← ret_exc (node_count (parameters cfg));
            mret (has_primary && (n / 2 + 1 <=? Z.of_nat (length rows)))
        end) (mret false).

(** The member's state is one of a group that works. *)
Definition joined : myM bool :=
  st ← get_mgr_status;
  mret (existsb (pyval_eqb (vget "state" st)) [VStr "ONLINE"; VStr "RECOVERING"]).

Definition set_channel : myM () := conn (exec recovery_channel [replication_user cfg; replication_password cfg]).

(** [rejoin_mgr_group]; the address is only logged. *)
Definition rejoin_mgr_group (timeout : Z) : myM bool :=
  try_
    (sql_quietly STOP_GR;;
     sql_quietly "STOP SLAVE";;
     sql_quietly "RESET SLAVE ALL";;
     set_channel;;
     sql BOOTSTRAP_OFF;;
     sql START_GR;;
     close_pool;;
     now ← attr my_time;
     ok ← poll_until (now + Z.max 5000 (timeout * 1000)) 1000 joined;
     if ok : bool then mret true
     else sql_quietly STOP_GR;; close_pool;; mret false)
    (close_pool;; mret false).

(** [bootstrap_mgr_group] *)
Definition bootstrap_mgr_group : myM bool :=
  try_
    (sql_quietly STOP_GR;;
     try_ set_channel (mret ());;
     sql BOOTSTRAP_ON;;
     sql START_GR;;
     sql BOOTSTRAP_OFF;;
     close_pool;;
     mret true)
    (close_pool;; mret false).

(** ** Majority loss *)

Definition _clear_mgr_gtid_fork : myM () :=
  put (λ m, match mgr_gtid_fork m with Some _ => put_fork None m | None => m end).
Definition _record_mgr_gtid_fork (fork : list candidate) : myM () := put (put_fork (Some fork)).

Definition _try_rejoin_mgr members : myM (option string) :=
  primary ← ret_exc (_find_mgr_primary_member name members);
  match primary with
  | None => mret None
  | Some m =>
      url ← ret_exc (member_url m);
      let url := py_or url (vget "conn_url" (m_data m)) in
      if negb (truthy url) then mret None else
      _ ← ret_exc (_parse_conn_url (py_str url));
      ok ← rejoin_mgr_group 60;
      if ok : bool then
        set_role MGR_SECONDARY;; set_read_only;; mret (Some "rejoining MGR group after majority loss")
      else mret None
  end.

(** The result of the first that gives one *)
Definition or_else (m : myM (option string)) (k : myM (option string)) : myM (option string) :=
  r ← m; match r with Some _ => mret r | None => k end.

(** The group is formed on this node. *)
Definition bootstrapped : string := "bootstrapped MGR group after majority loss".
Definition bootstrap_here (after : myM ()) : myM (option string) :=
  ok ← bootstrap_mgr_group;
  if ok : bool then set_role MGR_PRIMARY;; set_read_write;; after;; mret (Some bootstrapped) else mret None.

(** This node has no GTID set. *)
Definition no_local_gtid (has_lock : bool) (peer_gtids : list candidate) members : myM (option string) :=
  if has_lock && match peer_gtids with [] => true | _ => false end then bootstrap_here _clear_mgr_gtid_fork
  else or_else (_try_rejoin_mgr members) (mret None).

(** The sets are incomparable. *)
Definition no_winner (local_gtid : string) members : myM (option string) :=
  fork ← describe_mgr_gtid_fork local_gtid members;
  match fork with
  | [] => mret None
  | _ => _record_mgr_gtid_fork fork;; try_ set_read_only (mret ());; mret (Some "mgr_gtid_fork")
  end.

(** This node has won and holds the lock. *)
Definition bootstrap_winner members : myM (option string) :=
  existing ← ret_exc (_find_mgr_primary_member name members);
  rejoined ← (match existing with Some _ => _try_rejoin_mgr members | None => mret None end);
  match rejoined with
  | Some _ => mret (Some "mgr_yield_lock")
  | None => bootstrap_here (mret ())
  end.

(** The peers whose set is looked at before the election: a member without a name counts. *)
Definition others (members : list Member) : list Member :=
  List.filter (λ m, negb (m_name m =? name)%string) members.

Definition _handle_mgr_majority_loss (has_lock : bool) members : myM (option string) :=
  local_gtid ← get_executed_gtid;
  peer_gtids ← ret_exc (published (others members));
  if (local_gtid =? "")%string then no_local_gtid has_lock peer_gtids members else
  winner ← select_mgr_bootstrap_winner local_gtid members;
  match winner with
  | None => no_winner local_gtid members
  | Some w =>
      _clear_mgr_gtid_fork;;
      if negb (w =? name)%string then
        if has_lock then mret (Some "mgr_yield_lock")
        else or_else (_try_rejoin_mgr members) (mret (Some ("waiting for MGR bootstrap winner (" +:+ w +:+ ")")))
      else if negb has_lock then
        or_else (_try_rejoin_mgr members) (mret (Some "elected MGR bootstrap winner; waiting for leader lock"))
      else bootstrap_winner members
  end.

(** ** The cycle *)

(** This node has a place in a group that works. *)
Definition follow_group (status : dict pyval) : myM (option string) :=
  let mgr_role := vget_or "role" (VStr "") status in
  m ← me;
  if pyval_eqb mgr_role (VStr "PRIMARY") && negb (bool_decide (my_role m = MGR_PRIMARY)) then
    set_role MGR_PRIMARY;;
    read_only ← is_read_only;
    (if read_only : bool then set_read_write else mret ());;
    _clear_mgr_gtid_fork;;
    mret (Some "recognized as MGR primary")
  else if pyval_eqb mgr_role (VStr "SECONDARY") && negb (bool_decide (my_role m = MGR_SECONDARY)) then
    set_role MGR_SECONDARY;;
    set_read_only;;
    _clear_mgr_gtid_fork;;
    mret (Some "demoted to MGR secondary")
  else _clear_mgr_gtid_fork;; mret None.

Definition run_mgr_cycle (has_lock : bool) members : myM (option string) :=
  if negb (_is_mgr_configured (parameters cfg)) then mret None else
  status ← get_mgr_status;
  match status with
  | [] => _handle_mgr_majority_loss has_lock members
  | _ => follow_group status
  end.

(** ** What the member publishes *)

Definition fork_value (fork : list candidate) : pyval :=
  VDict [("reason", VStr "incomparable_gtid_sets");
         ("members", VList (map (λ c, VDict [("name", VStr c.1); ("gtid_executed", VStr c.2)]) fork))].

Definition enrich_dcs_data (data : dict pyval) : myM (dict pyval) :=
  let data := Dict.set "binlog_position" (vget_or "xlog_location" (VInt 0) data) data in
  gtid ← get_executed_gtid;
  let data := if (gtid =? "")%string then data else Dict.set "gtid_executed" (VStr gtid) data in
  m ← me;
  mret (match mgr_gtid_fork m with
        | Some fork => Dict.set "mgr_gtid_fork" (fork_value fork) data
        | None => Dict.del "mgr_gtid_fork" data
        end).
End mgr.
