(* ===== verification/MySQLTrace.v ===== *)
(** * The statements a method executes

    [runs P m]: whatever [m] does, the statements it adds to the log satisfy [P].  The lemmas
    follow the structure of a method; the hint database [runs] applies them. *)
From S2P Require Import Prelude Lexing PyDict PyVal Effects Utils DcsData MySQLConn MySQL.

Open Scope string_scope.
Open Scope Z_scope.

Create HintDb runs.

Abbreviation trace := (list (string * bool)).

(** The log has grown by entries that satisfy [P]. *)
Definition extends (P : string → Prop) (l l' : trace) : Prop := ∃ new : trace, l' = (new ++ l)%list ∧ Forall (λ e, P e.1) new.

#[export] Instance extends_refl P : Reflexive (extends P).
Proof. intros l. by exists []. Qed.
#[export] Instance extends_trans P : Transitive (extends P).
Proof.
  intros l1 l2 l3 (n1 & -> & H1) (n2 & -> & H2). exists (n2 ++ n1)%list. rewrite app_assoc. split; [done|by apply Forall_app].
Qed.

Lemma extends_cons (P : string → Prop) e l : P e.1 → extends P l (e :: l).
Proof. intros H. exists [e]. by repeat constructor. Qed.

(** States with a log *)
Class Logged (S : Type) := log_of : S → trace.
#[export] Instance pool_logged W : Logged (Pool * W) := λ s, statements s.1.
#[export] Instance mysql_logged W : Logged (MySQL * W) := λ s, statements (pool s.1).

Section runs.
Context {S : Type} `{!Logged S} (P : string → Prop).

Definition runs {A} (m : eff S A) : Prop := ∀ s, extends P (log_of s) (log_of (m s).2).

Lemma runs_ret {A} (a : A) : runs (eff_ret S A a).
Proof. intros s. reflexivity. Qed.

Lemma runs_lift {A} (r : exc A) : runs (lift_exc r).
Proof. intros s. reflexivity. Qed.

Lemma runs_gets {A} (f : S → A) : runs (gets f).
Proof. intros s. reflexivity. Qed.

Lemma runs_bind {A B} (m : eff S A) (f : A → eff S B) : runs m → (∀ a, runs (f a)) → runs (eff_bind S A B f m).
Proof.
  intros Hm Hf s. unfold eff_bind. specialize (Hm s). destruct (m s) as [[a|e] s']; [|done].
  etransitivity; [exact Hm|apply Hf].
Qed.

Lemma runs_try {A} p (m h : eff S A) : runs m → runs h → runs (try_except p m h).
Proof.
  intros Hm Hh s. unfold try_except. specialize (Hm s). destruct (m s) as [[a|e] s']; [done|].
  destruct (p e); [|done]. etransitivity; [exact Hm|apply Hh].
Qed.

Lemma runs_mono (Q : string → Prop) {A} (m : eff S A) : (∀ q, Q q → P q) → (∀ s, extends Q (log_of s) (log_of (m s).2)) → runs m.
Proof.
  intros HQ Hm s. destruct (Hm s) as (new & Hl & Hnew). exists new. split; [done|].
  eapply Forall_impl; [exact Hnew|]. intros e. apply HQ.
Qed.

Lemma runs_if {A} (b : bool) (m h : eff S A) : runs m → runs h → runs (if b then m else h).
Proof. by destruct b. Qed.
End runs.

(** One step along the structure of a computation *)
Ltac runs_step :=
  lazymatch goal with
  | |- runs _ (mbind _ _) => apply runs_bind; [|let a := fresh in intros a; cbn beta iota]
  | |- runs _ (mret _) => apply runs_ret
  | |- runs _ (lift_exc _) => apply runs_lift
  | |- runs _ (gets _) => apply runs_gets
  | |- runs _ (try_except _ _ _) => apply runs_try
  | |- runs _ (match ?x with _ => _ end) => destruct x eqn:?
  | |- runs _ (let '_ := ?x in _) => destruct x eqn:?
  end.
Ltac runs_auto := repeat (first [solve [eauto 3 with runs] | runs_step]).

(** ** The connection *)

(** What a new session is set up with *)
Definition session_statements : list string :=
  ["SET SESSION TRANSACTION ISOLATION LEVEL READ COMMITTED"; "SET autocommit = 1"; "SELECT VERSION()"].

Section conn.
Context {W : Type} `{!Pymysql W} (P : string → Prop).
Hypothesis setup : Forall P session_statements.

Lemma runs_update (f : Pool → Pool) : (∀ p, statements (f p) = statements p) → runs P (update (W := W) f).
Proof. intros H s. unfold log_of, pool_logged. simpl. rewrite H. reflexivity. Qed.

Lemma runs_driver {A} (op : W → my_result A * W) : runs P (driver op).
Proof. intros s. unfold driver. destruct (op s.2). reflexivity. Qed.

Lemma runs_execute q params : P q → runs P (execute (W := W) q params).
Proof.
  intros Hq s. unfold execute, run_statement. destruct (my_execute q params s.2) as [r w]. by apply extends_cons.
Qed.

Lemma P_setup q : q ∈ session_statements → P q.
Proof. rewrite Forall_forall in setup. apply setup. Qed.

Lemma runs_session_setup : runs P (session_setup (W := W)).
Proof.
  unfold session_setup. repeat (apply runs_bind; [apply runs_execute, P_setup; unfold session_statements; set_solver|intros _]).
  apply runs_ret.
Qed.

Lemma runs_conn_query_one q params : P q → runs P (conn_query_one (W := W) q params).
Proof. intros Hq. unfold conn_query_one. apply runs_try; [|apply runs_ret]. apply runs_bind; [by apply runs_execute|intros a; apply runs_ret]. Qed.

Lemma runs_conn_get : runs P (conn_get (W := W)).
Proof.
  assert (runs P (driver (W := W) my_connect;; update (set_connected true);; session_setup)) as Hc.
  { apply runs_bind; [apply runs_driver|intros _]. apply runs_bind; [by apply runs_update|intros _].
    apply runs_session_setup. }
  unfold conn_get, conn_establish, conn_reestablish. apply runs_bind; [apply runs_gets|intros p]. destruct (negb _).
  - apply runs_bind; [apply runs_driver|intros _]. apply runs_bind; [by apply runs_update|intros _].
    apply runs_bind; [apply runs_session_setup|intros _].
    apply runs_bind; [apply runs_conn_query_one, P_setup; unfold session_statements; set_solver|intros ver].
    destruct ver as [[|[] ?]|]; first [apply runs_ret | apply runs_lift | by apply runs_update].
  - apply runs_try; [apply runs_driver|]. apply runs_bind; [by apply runs_update|intros _].
    apply runs_try; [done|]. apply runs_bind; [by apply runs_update|intros _; apply runs_lift].
Qed.

Lemma runs_conn_query q params : P q → runs P (conn_query (W := W) q params).
Proof.
  intros Hq s. unfold conn_query. pose proof (runs_conn_get s) as Hg. destruct (conn_get s) as [[[]|e] s1]; [|done].
  assert (extends P (log_of s1) (log_of (run_statement q params s1).2)) as Hr.
  { unfold run_statement. destruct (my_execute q params s1.2). by apply extends_cons. }
  destruct (run_statement q params s1) as [r s2]. destruct r as [rows|database closed|e].
  - by etransitivity.
  - destruct closed; [by etransitivity|]. destruct database; by etransitivity.
  - by etransitivity.
Qed.

Lemma runs_attempt q params : P q → runs P (attempt (W := W) q params).
Proof. intros Hq. unfold attempt. apply runs_bind; [apply runs_conn_get|intros _; by apply runs_conn_query]. Qed.

Lemma runs_pool_close : runs P (pool_close (W := W)).
Proof. by apply runs_update. Qed.

Lemma runs_last_attempt q params : P q → runs P (last_attempt (W := W) q params).
Proof.
  intros Hq s. unfold last_attempt. pose proof (runs_attempt q params Hq s) as H.
  destruct (attempt q params s) as [[rows|e] s1]; [done|]. by destruct (is_transient e).
Qed.

Lemma runs_query q params : P q → runs P (_query (W := W) q params).
Proof.
  intros Hq s. unfold _query, closing. pose proof (runs_attempt q params Hq s) as H1.
  destruct (attempt q params s) as [[rows|e] s1]; [done|]. destruct (is_transient e); [|done].
  etransitivity; [exact H1|]. apply (runs_last_attempt q params Hq (pool_close s1).2).
Qed.

Lemma runs_query_one q params : P q → runs P (_query_one (W := W) q params).
Proof. intros Hq. unfold _query_one. apply runs_bind; [by apply runs_query|intros a; apply runs_ret]. Qed.

Lemma runs_query_one_dict q params : runs P (_query_one_dict (W := W) q params).
Proof.
  unfold _query_one_dict, conn_query_one_dict. apply runs_bind; [apply runs_conn_get|intros _].
  apply runs_try; [|apply runs_ret]. apply runs_bind; [apply runs_conn_get|intros _; apply runs_driver].
Qed.

Lemma runs_exec q params : P q → runs P (exec (W := W) q params).
Proof. intros Hq. unfold exec. apply runs_bind; [by apply runs_query|intros _; apply runs_ret]. Qed.
End conn.

(** ** The handler *)

Section handler.
Context {W : Type} `{!Pymysql W, !Mysqld W} (cfg : MyConfig) (P : string → Prop).
Hypothesis setup : Forall P session_statements.

Lemma runs_conn {A} (m : connM (W := W) A) : runs P m → runs P (conn m).
Proof.
  intros H s. unfold conn. specialize (H (pool s.1, s.2)). by destruct (m (pool s.1, s.2)) as [r [p w]].
Qed.

Lemma runs_put (f : MySQL → MySQL) : (∀ m, pool (f m) = pool m) → runs P (put (W := W) f).
Proof. intros H s. unfold log_of, mysql_logged. simpl. rewrite H. reflexivity. Qed.

Lemma runs_world (f : W → W) : runs P (world_does f).
Proof. intros s. reflexivity. Qed.

Lemma runs_os {A} (op : W → exc A * W) : runs P (os op).
Proof. intros s. unfold os. destruct (op s.2). reflexivity. Qed.

Lemma runs_sql q : P q → runs P (sql (W := W) q).
Proof. intros Hq. by apply runs_conn, runs_exec. Qed.

Lemma runs_sql_quietly q : P q → runs P (sql_quietly (W := W) q).
Proof. intros Hq. apply runs_try; [by apply runs_sql|apply runs_ret]. Qed.

Lemma runs_one q params : P q → runs P (query_one (W := W) q params).
Proof. intros Hq. by apply runs_conn, runs_query_one. Qed.

Lemma runs_one_dict q : runs P (query_one_dict (W := W) q).
Proof. by apply runs_conn, runs_query_one_dict. Qed.

Lemma runs_close_pool : runs P (close_pool (W := W)).
Proof. apply runs_conn, runs_pool_close. Qed.

Lemma runs_set_read_only : P "SET GLOBAL read_only = ON" → P "SET GLOBAL super_read_only = ON" → runs P (set_read_only (W := W)).
Proof. intros H1 H2. apply runs_try; [|apply runs_ret]. apply runs_bind; [by apply runs_sql|intros _; by apply runs_sql]. Qed.

Lemma runs_set_read_write : P "SET GLOBAL super_read_only = OFF" → P "SET GLOBAL read_only = OFF" → runs P (set_read_write (W := W)).
Proof. intros H1 H2. apply runs_try; [|apply runs_ret]. apply runs_bind; [by apply runs_sql|intros _; by apply runs_sql]. Qed.

Lemma runs_is_read_only : runs P (is_read_only (W := W)).
Proof.
  apply runs_try; [|apply runs_ret]. apply runs_bind; [apply runs_one_dict|intros r].
  destruct r as [[|]|]; [apply runs_ret| |apply runs_ret]. apply runs_bind; [apply runs_lift|intros v; apply runs_ret].
Qed.

Lemma runs_poll check fuel deadline pause : runs P check → runs P (poll (W := W) fuel deadline pause check).
Proof.
  intros Hc. induction fuel as [|fuel IH]; [apply runs_ret|]. cbn [poll].
  apply runs_bind; [apply runs_gets|intros now]. apply runs_if; [apply runs_ret|].
  apply runs_bind; [done|intros [|]; [apply runs_ret|]]. apply runs_bind; [apply runs_world|intros _; apply IH].
Qed.

Lemma runs_poll_until check deadline pause : runs P check → runs P (poll_until (W := W) deadline pause check).
Proof.
  intros Hc. apply runs_bind; [apply runs_gets|intros now]. apply runs_bind; [by apply runs_poll|intros r; apply runs_ret].
Qed.
End handler.

(** Statements are told apart by computation; the values a method computes are of no matter. *)
Ltac runs_leaf :=
  first [ apply runs_ret | apply runs_lift | apply runs_gets | apply runs_world | apply runs_os
        | apply runs_put; intros []; reflexivity | apply runs_put; intros []; cbn; match goal with |- context [match ?x with _ => _ end] => by destruct x end
        | apply runs_close_pool | apply runs_is_read_only; assumption | apply runs_one_dict; assumption
        | apply runs_set_read_only; [assumption|try first [discriminate | reflexivity]..] | apply runs_set_read_write; [assumption|try first [discriminate | reflexivity]..]
        | apply runs_sql_quietly; [assumption|try first [discriminate | reflexivity]] | apply runs_sql; [assumption|try first [discriminate | reflexivity]]
        | apply runs_one; [assumption|try first [discriminate | reflexivity]] ].
