(* ===== verification/MgrElect.v ===== *)
(** * The election of the member that bootstraps the group

    What [GTID_SUBSET] promises ([GtidServer], [Responsive]), what the comparison of two sets
    and the maximal candidates are then, and the reference election [elect]. *)
From S2P Require Import Prelude Lexing PyDict PyVal Effects Utils DcsData MySQLConn MySQL Mgr.

Open Scope string_scope.
Open Scope Z_scope.

(** ** White space *)

Definition is_word (w : string) : Prop := w ≠ "" ∧ Str.all (λ c, negb (Str.is_space c)) w = true.

Lemma str_app_empty s t : s +:+ t = "" → s = "" ∧ t = "".
Proof. by destruct s. Qed.

Lemma words_from_app cur w s :
  Str.all (λ c, negb (Str.is_space c)) w = true → words_from cur (w +:+ s) = words_from (cur +:+ w) s.
Proof.
  revert cur. induction w as [|c w IH]; intros cur; [by rewrite Str.str_app_nil_r|]. simpl.
  intros [Hc Hw]%andb_true_iff. change (String c w +:+ s) with (String c (w +:+ s)). cbn [words_from].
  destruct (Str.is_space c); [done|]. rewrite IH by done. by rewrite Str.str_app_assoc.
Qed.

Lemma words_from_word cur s :
  Str.all (λ c, negb (Str.is_space c)) cur = true → Forall is_word (words_from cur s).
Proof.
  revert cur. induction s as [|c s IH]; intros cur Hc; cbn [words_from].
  - destruct (String.eqb_spec cur ""); by repeat constructor.
  - destruct (Str.is_space c) eqn:E.
    + destruct (String.eqb_spec cur ""); [by apply IH|]. constructor; [done|by apply IH].
    + apply IH. rewrite Str.all_app, Hc. simpl. by rewrite E.
Qed.

Lemma words_join l : Forall is_word l → words (Str.join " " l) = l.
Proof.
  induction 1 as [|w l [Hne Hw] Hl IH]; [done|]. destruct l as [|w' l].
  - simpl. unfold words. rewrite <-(Str.str_app_nil_r w) at 1. rewrite words_from_app by done.
    change ("" +:+ w) with w. cbn [words_from]. by destruct (String.eqb_spec w "").
  - rewrite Str.join_cons. unfold words. rewrite words_from_app by done.
    change (" " +:+ ?t) with (String " " t). cbn [words_from]. change (Str.is_space " ") with true.
    change ("" +:+ w) with w. cbn beta iota. destruct (String.eqb_spec w ""); [done|]. by rewrite <-IH at 2.
Qed.

Lemma collapse_idemp s : collapse (collapse s) = collapse s.
Proof. unfold collapse at 1. unfold collapse at 1. rewrite words_join; [done|]. by apply words_from_word. Qed.

(** A filter that lets more through *)
Lemma filter_length_lt {A} (p q : A → bool) (x : A) (l : list A) :
  (∀ y, p y = true → q y = true) → x ∈ l → p x = false → q x = true →
  (length (List.filter p l) < length (List.filter q l))%nat.
Proof.
  intros Hpq Hx Hp Hq.
  assert (∀ l, length (List.filter p l) ≤ length (List.filter q l))%nat as Hle.
  { intros k. induction k as [|y k IH]; simpl; [done|]. destruct (p y) eqn:E; [rewrite (Hpq y E); simpl; lia|].
    destruct (q y); simpl; lia. }
  induction l as [|y l IH]; [by apply elem_of_nil in Hx|]. simpl. apply elem_of_cons in Hx as [<-|Hx].
  - rewrite Hp, Hq. simpl. specialize (Hle l). lia.
  - specialize (IH Hx). destruct (p y) eqn:E; [rewrite (Hpq y E); simpl; lia|]. destruct (q y); simpl; lia.
Qed.

(** ** The smallest name *)

Lemma min_name_elem n l : min_name n l ∈ n :: l.
Proof.
  revert n. induction l as [|x l IH]; intros n; cbn [min_name]; [by left|]. 
  specialize (IH (if String.leb n x then n else x)). destruct (String.leb n x); set_solver.
Qed.

Lemma string_leb_le a b : String.leb a b = true ↔ String.le a b.
Proof. unfold String.le. by rewrite Is_true_true. Qed.

Lemma min_name_least n l x : x ∈ n :: l → String.le (min_name n l) x.
Proof.
  revert n x. induction l as [|y l IH]; intros n x; cbn [min_name].
  - intros ->%list_elem_of_singleton. reflexivity.
  - intros Hx. set (m := if String.leb n y then n else y).
    assert (String.le m n ∧ String.le m y) as [Hmn Hmy].
    { subst m. destruct (String.leb n y) eqn:E; [split; [reflexivity|by apply string_leb_le]|split; [|reflexivity]].
      apply string_leb_le. destruct (String.leb_total n y) as [H|H]; [|done]. rewrite H in E. discriminate E. }
    pose proof (IH m m (list_elem_of_here m l)) as Hm.
    apply elem_of_cons in Hx as [->|[->|Hx]%elem_of_cons]; [by etransitivity..|]. apply IH. by right.
Qed.

(** ** What the server promises *)

(** An answer to the comparison of two sets is that of [GTID_SUBSET], a preorder. *)
Class GtidServer (W : Type) `{!Pymysql W} (sub : string → string → bool) : Prop := {
  subset_answer a b w rows w' :
    my_execute subset_query [VStr a; VStr b; VStr b; VStr a] w = (Rows rows, w') →
    rows = [[VInt (Z.b2z (sub a b)); VInt (Z.b2z (sub b a))]];
  subset_refl a : sub a a = true;
  subset_trans a b c : sub a b = true → sub b c = true → sub a c = true;
}.

(** The server answers what an election asks it. *)
Class Responsive (W : Type) `{!Pymysql W} : Prop := {
  connects w : ∃ w', my_connect w = (Rows (), w');
  pings w : ∃ w', my_ping w = (Rows (), w');
  answers q params w :
    q ∈ ["SET SESSION TRANSACTION ISOLATION LEVEL READ COMMITTED"; "SET autocommit = 1"; subset_query] →
    ∃ rows w', my_execute q params w = (Rows rows, w');
  version_known w : ∃ v rows w', my_execute "SELECT VERSION()" [] w = (Rows ([VStr v] :: rows), w');
}.

(** The relation of two sets *)
Definition related (sub : string → string → bool) (a b : string) : relation :=
  relation_of (Z.b2z (sub a b)) (Z.b2z (sub b a)).

Lemma related_equal sub a b : related sub a b = equal ↔ sub a b = true ∧ sub b a = true.
Proof. unfold related. destruct (sub a b), (sub b a); naive_solver. Qed.

Lemma related_b_ahead sub a b : related sub a b = b_ahead ↔ sub a b = true ∧ sub b a = false.
Proof. unfold related. destruct (sub a b), (sub b a); naive_solver. Qed.

(** ** One comparison *)

Section answers.
Context {W : Type} `{!Pymysql W, !Mysqld W} (sub : string → string → bool).
Context `{!GtidServer W sub}.
Implicit Types (s : MySQL * W).

Definition asked (a b : string) : list pyval := [VStr a; VStr b; VStr b; VStr a].
Definition answer (a b : string) : row := [VInt (Z.b2z (sub a b)); VInt (Z.b2z (sub b a))].

Lemma conn_query_answer a b ps rows ps' : conn_query (W := W) subset_query (asked a b) ps = (Ok rows, ps') → rows = [answer a b].
Proof.
  unfold conn_query. destruct (conn_get ps) as [[[]|e] [p w]]; [|by intros [=]]. unfold run_statement.
  destruct (my_execute subset_query (asked a b) w) as [r w'] eqn:E. cbn [snd fst]. rewrite E.
  destruct r as [rs|database closed|e]; [|by destruct closed, database|by intros [=]].
  intros [= <- <-]. by apply subset_answer in E.
Qed.

Lemma attempt_answer a b ps rows ps' : attempt (W := W) subset_query (asked a b) ps = (Ok rows, ps') → rows = [answer a b].
Proof. unfold attempt. intros H. eff_inv H. by apply conn_query_answer in H. Qed.

Lemma query_answer a b ps rows ps' : _query (W := W) subset_query (asked a b) ps = (Ok rows, ps') → rows = [answer a b].
Proof.
  unfold _query, closing, last_attempt. destruct (attempt subset_query (asked a b) ps) as [[rs|e] s1] eqn:E1.
  - intros [= <- <-]. by apply attempt_answer in E1.
  - destruct (is_transient e); [|by intros [=]].
    destruct (attempt subset_query (asked a b) (pool_close s1).2) as [[rs|e'] s3] eqn:E2; [|by intros [=]].
    intros [= <- <-]. by apply attempt_answer in E2.
Qed.

Lemma answer_relation a b : row_relation (answer a b) = Ok (related sub a b).
Proof. unfold row_relation, answer, related. by destruct (sub a b), (sub b a). Qed.

Lemma query_one_answer a b s o s' :
  query_one (W := W) subset_query (asked a b) s = (Ok o, s') → o = Some (answer a b).
Proof.
  unfold query_one, conn. destruct (_query_one subset_query (asked a b) (pool s.1, s.2)) as [r [p w]] eqn:E.
  intros [= -> <-]. unfold _query_one in E. eff_inv E. injection E as <- _. apply query_answer in Hm. by subst.
Qed.

(** A comparison says that sets are incomparable, or what they are. *)
Lemma gtid_relation_truthful a b s r s' :
  gtid_relation (W := W) a b s = (Ok r, s') → r = incomparable ∨ r = related sub (collapse a) (collapse b).
Proof.
  unfold gtid_relation. destruct (_ || _); [by intros [= <- <-]; left|]. unfold try_, try_except.
  lazymatch goal with |- context [match ?m s with _ => _ end] => destruct (m s) as [[x|e] s1] eqn:E end.
  - intros [= <- <-]. eff_inv E. apply query_one_answer in Hm as ->.
    unfold ret_exc, lift_exc in E. injection E as E _. right.
    rewrite answer_relation in E. congruence.
  - destruct (is_exception e); [intros [= <- <-]; by left|done].
Qed.

(** ** Maximal candidates, when the comparisons may fail *)

Implicit Types (l : list candidate) (a b c d e : candidate).
Definition below c d : Prop := sub c.2 d.2 = true.
Definition normal l : Prop := Forall (λ c : candidate, collapse c.2 = c.2) l.

Lemma below_refl c : below c c.
Proof. apply subset_refl. Qed.

Lemma below_trans c d e : below c d → below d e → below c e.
Proof. apply subset_trans. Qed.

(** What is found to be dominated is strictly below another candidate. *)
Lemma dominated_true a l s s' : collapse a.2 = a.2 → normal l →
  dominated (W := W) a l s = (Ok true, s') → ∃ b, b ∈ l ∧ below a b ∧ ¬ below b a.
Proof.
  intros Ha. revert s. induction l as [|b l IH]; intros s Hl; [by intros [=]|].
  apply Forall_cons in Hl as [Hb Hl]. cbn [dominated]. destruct (a.1 =? b.1)%string.
  - intros H. destruct (IH s Hl H) as (d & Hd & Hab). exists d. split; [by right|done].
  - intros H. eff_inv H. case_bool_decide as Hr.
    + subst. exists b. split; [by left|]. apply gtid_relation_truthful in Hm as [|Hm]; [done|].
      rewrite Ha, Hb in Hm. symmetry in Hm. apply related_b_ahead in Hm as [H1 H2]. unfold below. split; [done|congruence].
    + destruct (IH _ Hl H) as (d & Hd & Hab). exists d. split; [by right|done].
Qed.

Lemma maximal_of_sublist all l s l' s' : maximal_of (W := W) all l s = (Ok l', s') → ∀ c, c ∈ l' → c ∈ l.
Proof.
  revert s l'. induction l as [|a l IH]; intros s l' H c Hc.
  - injection H as <- _. by apply elem_of_nil in Hc.
  - cbn [maximal_of] in H. eff_inv H. eff_inv H. injection H as <- <-.
    destruct a0; [right; eauto|]. apply elem_of_cons in Hc as [->|Hc]; [left|right; eauto].
Qed.

(** A candidate that is left out is strictly below another one. *)
Lemma maximal_of_dropped all l s l' s' c : normal all → normal l →
  maximal_of (W := W) all l s = (Ok l', s') → c ∈ l → c ∈ l' ∨ ∃ b, b ∈ all ∧ below c b ∧ ¬ below b c.
Proof.
  intros Hall. revert s l'. induction l as [|a l IH]; intros s l' Hl H Hc; [by apply elem_of_nil in Hc|].
  apply Forall_cons in Hl as [Ha Hl]. cbn [maximal_of] in H. eff_inv H. eff_inv H. injection H as <- <-.
  apply elem_of_cons in Hc as [->|Hc].
  - destruct a0; [right; by eapply dominated_true|left; left].
  - destruct (IH _ _ Hl Hm0 Hc) as [Hin|Hdom]; [left|by right]. destruct a0; [done|by right].
Qed.

(** Whatever is in the list is below one of the candidates that are kept. *)
Lemma maximal_above l s l' s' : normal l → _mgr_maximal_candidates (W := W) l s = (Ok l', s') →
  ∀ c, c ∈ l → ∃ d, d ∈ l' ∧ below c d.
Proof.
  intros Hl H.
  assert (∀ n c, c ∈ l → length (List.filter (λ d, sub c.2 d.2 && negb (sub d.2 c.2)) l) < n →
                 ∃ d, d ∈ l' ∧ below c d)%nat as Hind.
  2: { intros c Hc. by apply (Hind _ c Hc (Nat.lt_succ_diag_r _)). }
  induction n as [|n IH]; intros c Hc Hn; [lia|].
  destruct (maximal_of_dropped _ _ _ _ _ c Hl Hl H Hc) as [Hin|(b & Hb & Hcb & Hbc)]; [exists c; split; [done|apply below_refl]|].
  destruct (IH b Hb) as (d & Hd & Hbd).
  - eapply Nat.lt_le_trans; [|apply Nat.lt_succ_r, Hn]. clear -Hb Hcb Hbc GtidServer0. 
    apply (filter_length_lt (λ d, sub b.2 d.2 && negb (sub d.2 b.2)) (λ d, sub c.2 d.2 && negb (sub d.2 c.2)) b); [|done|..].
    + intros d [H1 H2]%andb_true_iff. apply andb_true_iff. split; [by eapply subset_trans|].
      apply negb_true_iff in H2. apply negb_true_iff. destruct (sub d.2 c.2) eqn:E; [|done].
      rewrite (subset_trans d.2 c.2 b.2 E Hcb) in H2. done.
    + rewrite subset_refl. done.
    + unfold below in *. rewrite Hcb. by destruct (sub b.2 c.2).
  - exists d. split; [done|by eapply below_trans].
Qed.

Lemma all_equal_true base l s s' : collapse base.2 = base.2 → normal l →
  all_equal (W := W) base l s = (Ok true, s') → ∀ c, c ∈ l → below base c ∧ below c base.
Proof.
  intros Hb. revert s. induction l as [|d l IH]; intros s Hl H c Hc; [by apply elem_of_nil in Hc|].
  apply Forall_cons in Hl as [Hd Hl]. cbn [all_equal] in H. eff_inv H. case_bool_decide as Hr; [|done]. subst.
  apply elem_of_cons in Hc as [->|Hc]; [|by eapply IH].
  apply gtid_relation_truthful in Hm as [|Hm]; [done|]. rewrite Hb, Hd in Hm.
  symmetry in Hm. by apply related_equal in Hm.
Qed.

(** ** The candidates *)

Definition proper l : Prop := Forall (λ c : candidate, collapse c.2 = c.2 ∧ c.2 ≠ "") l.

Lemma proper_normal l : proper l → normal l.
Proof. intros H. eapply Forall_impl; [exact H|]. by intros c []. Qed.

Lemma member_gtid_collapsed m g : _member_gtid m = Ok g → collapse g = g.
Proof.
  unfold _member_gtid. repeat case_match; try discriminate; intros [= <-]; apply collapse_idemp.
Qed.

Lemma published_proper ms l : published ms = Ok l → proper l.
Proof.
  revert l. induction ms as [|m ms IH]; intros l; cbn [published]; [intros [= <-]; constructor|].
  destruct (_member_gtid m) as [g|] eqn:E; cbn; [|done]. destruct (published ms) as [rest|]; cbn; [|done].
  intros [= <-]. destruct (String.eqb_spec g ""); [by apply IH|]. constructor; [|by apply IH].
  split; [by eapply member_gtid_collapsed|done].
Qed.

Lemma candidates_proper name local_gtid members l :
  _mgr_gtid_candidates name local_gtid members = Ok l → proper l.
Proof.
  unfold _mgr_gtid_candidates. destruct (published _) as [rest|] eqn:E; cbn; [|done]. intros [= <-].
  apply published_proper in E. destruct (String.eqb_spec (collapse local_gtid) ""); [done|].
  constructor; [|done]. split; [apply collapse_idemp|done].
Qed.

(** ** The winner, when the comparisons may fail *)

(** A member that wins has a set that contains those of all candidates. *)
Lemma winner_above cfg local_gtid members l n s s' :
  _mgr_gtid_candidates (my_name cfg) local_gtid members = Ok l →
  select_mgr_bootstrap_winner (W := W) cfg local_gtid members s = (Ok (Some n), s') →
  ∃ g, (n, g) ∈ l ∧ ∀ c, c ∈ l → sub c.2 g = true.
Proof.
  intros Hl. pose proof (proper_normal _ (candidates_proper _ _ _ _ Hl)) as Hn.
  unfold select_mgr_bootstrap_winner. intros H. eff_inv H. rewrite Hl in Hm. injection Hm as <- <-.
  destruct l as [|c [|c' l]]; [done| |].
  - injection H as <- <-. exists c.2. split; [destruct c; left|].
    intros d ->%list_elem_of_singleton. apply subset_refl.
  - eff_inv H. destruct a as [|base rest]; [done|]. eff_inv H. injection H as H <-. destruct a; [|done].
    injection H as <-. pose proof (maximal_above _ _ _ _ Hn Hm) as Habove.
    assert (∀ d, d ∈ base :: rest → d ∈ c :: c' :: l) as Hsub by (intros d; by eapply maximal_of_sublist).
    assert (normal (base :: rest)) as Hnm.
    { apply Forall_forall. intros d Hd. by apply (proj1 (Forall_forall _ _) Hn), Hsub. }
    apply Forall_cons in Hnm as [Hb Hr]. pose proof (all_equal_true _ _ _ _ Hb Hr Hm0) as Heq.
    pose proof (min_name_elem base.1 rest.*1) as Hin. change (base.1 :: rest.*1) with ((base :: rest).*1) in Hin.
    apply list_elem_of_fmap in Hin as ([m g] & -> & Hd). exists g. split; [by apply Hsub|].
    intros e He. destruct (Habove e He) as (d & Hin & Hed). apply (below_trans e d (m, g) Hed).
    assert (∀ x, x ∈ base :: rest → below x base ∧ below base x) as Hbase.
    { intros x [->|Hx]%elem_of_cons; [split; apply below_refl|]. destruct (Heq x Hx). done. }
    eapply below_trans; [apply (Hbase d Hin)|apply (Hbase (m, g) Hd)].
Qed.
End answers.
