(* ===== verification/MgrProps.v ===== *)
(** * A scripted server

    A server that answers from a script, an instance of [Pymysql] and [Mysqld]: the examples
    and the instances of the properties run on it. *)
From S2P Require Import Prelude Lexing PyDict PyVal Effects Utils DcsData MySQLConn MySQL Mgr MySQLTrace MgrElect.

Open Scope string_scope.
Open Scope Z_scope.

(** The transactions of a set are separated by commas. *)
Definition transactions (g : string) : list string := Str.split_on "," g.
Definition tx_subset (a b : string) : bool := bool_decide (Forall (λ t, t ∈ transactions b) (transactions a)).

Record server := MkServer {
  sv_gtid : string;                  (* @@gtid_executed *)
  sv_replica : bool;                 (* SHOW SLAVE STATUS gives a row *)
  sv_status : option (dict pyval);   (* the member's row of replication_group_members *)
  sv_joins : option (dict pyval);    (* its row after START GROUP_REPLICATION *)
  sv_fails : string → bool;          (* statements that fail *)
  sv_row : string → option (dict pyval); (* the rows read as dictionaries *)
  sv_alive : bool;                   (* mysqld runs *)
  sv_clock : Z;
}.

Definition essential : list string :=
  ["SET SESSION TRANSACTION ISOLATION LEVEL READ COMMITTED"; "SET autocommit = 1"; "SELECT VERSION()"; subset_query].

Definition set_status (st : option (dict pyval)) (w : server) : server :=
  MkServer (sv_gtid w) (sv_replica w) st (sv_joins w) (sv_fails w) (sv_row w) (sv_alive w) (sv_clock w).
Definition set_clock (t : Z) (w : server) : server :=
  MkServer (sv_gtid w) (sv_replica w) (sv_status w) (sv_joins w) (sv_fails w) (sv_row w) (sv_alive w) t.

Definition server_rows (q : string) (params : list pyval) (w : server) : list row :=
  if (q =? subset_query)%string then
    match params with
    | VStr a :: VStr b :: _ => [[VInt (Z.b2z (tx_subset a b)); VInt (Z.b2z (tx_subset b a))]]
    | _ => []
    end
  else if (q =? "SELECT VERSION()")%string then [[VStr "8.0.35"]]
  else if (q =? "SELECT @@gtid_executed")%string then [[VStr (sv_gtid w)]]
  else if (q =? "SHOW SLAVE STATUS")%string then (if sv_replica w then [[VStr "row"]] else [])
  else [].

#[export] Instance script_pymysql : Pymysql server := {
  my_connect w := (Rows (), w);
  my_ping w := (Rows (), w);
  my_execute q params w :=
    if sv_fails w q && negb (existsb (String.eqb q) essential) then (MyError true false, w)
    else (Rows (server_rows q params w), if (q =? START_GR)%string then set_status (sv_joins w) w else w);
  my_execute_dict q params w := (if sv_fails w q then MyError true false else Rows (if (q =? status_query)%string then sv_status w else sv_row w q), w);
  my_time := sv_clock;
  my_sleep n w := set_clock (sv_clock w + n) w;
  my_alive := sv_alive;
  my_from_pidfile w := if sv_alive w then Some w else None;
}.

#[export] Instance script_mysqld : Mysqld server := {
  os_write_cnf w := (Ok (), w); os_popen w := (Ok (), w); os_connects w := (true, w);
  os_mysqladmin_shutdown w := (Ok (), w);
  os_signal_stop _ w := w; os_wait_for_stop w := w; os_signal_kill w := w; os_remove_pidfile w := w;
}.

#[export] Instance script_gtid : GtidServer server tx_subset.
Proof.
  split.
  - intros a b w rows w'. cbn -[tx_subset]. rewrite andb_comm. cbn -[tx_subset]. by intros [= <- _].
  - intros a. unfold tx_subset. by apply bool_decide_eq_true, Forall_forall.
  - intros a b c. unfold tx_subset. rewrite !bool_decide_eq_true, !Forall_forall. auto.
Qed.

#[export] Instance script_responsive : Responsive server.
Proof.
  split; [eauto|eauto| |].
  - intros q params w Hq. unfold my_execute, script_pymysql.
    assert (existsb (String.eqb q) essential = true) as ->.
    { rewrite !elem_of_cons in Hq. by destruct Hq as [->|[->|[->|?%elem_of_nil]]]. }
    rewrite andb_comm. cbn. eauto.
  - intros w. cbn -[server_rows]. rewrite andb_comm. eexists _, [], _. cbn. done.
Qed.

(** A healthy server with a set *)
Definition server_with (gtid : string) : server :=
  MkServer gtid false None (Some [("role", VStr "PRIMARY"); ("state", VStr "ONLINE")]) (λ _, false) (λ _, None) true 0.

(** A member that publishes its set *)
Definition member_with (name gtid : string) : Member :=
  MkMember VNone name VNone [("role", VStr "replica"); ("gtid_executed", VStr gtid); ("conn_url", VStr "mysql://10.0.0.1:3306")].

(** The configuration of a member of a group *)
Definition group_config (name : string) : MyConfig :=
  MkMyConfig name [("group_replication_group_name", VStr "aaaa"); ("cluster_size", VStr "3")] [].

(** * Properties of group replication

    Who bootstraps a group, what a node that joins does, and what the election computes. *)

(** ** Methods that neither start group replication nor set its bootstrap flag *)

Definition no_on (q : string) : Prop := q ≠ BOOTSTRAP_ON.
Definition plain (q : string) : Prop := existsb (String.eqb q) [BOOTSTRAP_ON; START_GR] = false.

Lemma plain_no_on q : plain q → no_on q.
Proof. unfold plain, no_on. simpl. by destruct (String.eqb_spec q BOOTSTRAP_ON). Qed.

Lemma plain_no_start q : plain q → q ≠ START_GR.
Proof. unfold plain. simpl. destruct (String.eqb_spec q START_GR); [|done]. by rewrite orb_true_r. Qed.

Lemma plain_setup : Forall plain session_statements.
Proof. by repeat constructor. Qed.

Lemma no_on_setup : Forall no_on session_statements.
Proof. by repeat constructor. Qed.

Create HintDb quiet.
Ltac quiet_auto := pose proof plain_setup; pose proof no_on_setup;
  repeat (first [solve [auto 3 with quiet nocore] | runs_leaf | runs_step]).

Section quiet.
Context {W : Type} `{!Pymysql W, !Mysqld W} (cfg : MyConfig).

Lemma no_on_plain {A} (m : myM (W := W) A) : runs plain m → runs no_on m.
Proof. apply runs_mono, plain_no_on. Qed.
#[local] Hint Resolve no_on_plain : quiet.

Lemma quiet_executed_gtid : runs plain (get_executed_gtid (W := W)).
Proof. unfold get_executed_gtid, try_. quiet_auto. Qed.

Lemma quiet_relation a b : runs plain (gtid_relation (W := W) a b).
Proof. unfold gtid_relation, try_, ret_exc. quiet_auto. Qed.
#[local] Hint Resolve quiet_executed_gtid quiet_relation : quiet.

Lemma quiet_dominated a l : runs plain (dominated (W := W) a l).
Proof. induction l as [|b l IH]; cbn [dominated]; quiet_auto. Qed.
#[local] Hint Resolve quiet_dominated : quiet.

Lemma quiet_maximal_of all l : runs plain (maximal_of (W := W) all l).
Proof. induction l as [|a l IH]; cbn [maximal_of]; quiet_auto. Qed.

Lemma quiet_maximal l : runs plain (_mgr_maximal_candidates (W := W) l).
Proof. apply quiet_maximal_of. Qed.

Lemma quiet_all_equal base l : runs plain (all_equal (W := W) base l).
Proof. induction l as [|a l IH]; cbn [all_equal]; quiet_auto. Qed.
#[local] Hint Resolve quiet_maximal quiet_all_equal : quiet.

Lemma quiet_describe local_gtid members : runs plain (describe_mgr_gtid_fork (W := W) cfg local_gtid members).
Proof. unfold describe_mgr_gtid_fork, ret_exc. quiet_auto. Qed.

Lemma quiet_select local_gtid members : runs plain (select_mgr_bootstrap_winner (W := W) cfg local_gtid members).
Proof. unfold select_mgr_bootstrap_winner, ret_exc. quiet_auto. Qed.

Lemma quiet_mgr_status : runs plain (get_mgr_status (W := W)).
Proof. unfold get_mgr_status, try_. quiet_auto. Qed.
#[local] Hint Resolve quiet_describe quiet_select quiet_mgr_status : quiet.

Lemma quiet_joined : runs plain (joined (W := W)).
Proof. unfold joined. quiet_auto. Qed.

Lemma quiet_set_channel : runs plain (set_channel (W := W) cfg).
Proof. apply runs_conn, runs_exec; [apply plain_setup|reflexivity]. Qed.

Lemma quiet_poll_until deadline pause : runs plain (poll_until (W := W) deadline pause joined).
Proof. apply runs_poll_until, quiet_joined. Qed.
#[local] Hint Resolve quiet_set_channel quiet_poll_until : quiet.

Lemma quiet_rejoin timeout : runs no_on (rejoin_mgr_group (W := W) cfg timeout).
Proof. unfold rejoin_mgr_group, try_. quiet_auto. Qed.
#[local] Hint Resolve quiet_rejoin : quiet.

Lemma quiet_clear_fork : runs plain (_clear_mgr_gtid_fork (W := W)).
Proof. apply runs_put. intros m. by destruct (mgr_gtid_fork m). Qed.

Lemma quiet_record_fork fork : runs plain (_record_mgr_gtid_fork (W := W) fork).
Proof. by apply runs_put. Qed.

Lemma quiet_set_role r : runs plain (set_role (W := W) r).
Proof. by apply runs_put. Qed.
#[local] Hint Resolve quiet_clear_fork quiet_record_fork quiet_set_role : quiet.

Lemma quiet_try_rejoin members : runs no_on (_try_rejoin_mgr (W := W) cfg members).
Proof. unfold _try_rejoin_mgr, ret_exc. quiet_auto. Qed.
#[local] Hint Resolve quiet_try_rejoin : quiet.

Lemma quiet_or_else m k : runs no_on m → runs no_on k → runs no_on (or_else (W := W) m k).
Proof. intros Hm Hk. unfold or_else. quiet_auto. Qed.

Lemma quiet_no_winner local_gtid members : runs plain (no_winner (W := W) cfg local_gtid members).
Proof. unfold no_winner, try_. quiet_auto. Qed.

Lemma quiet_follow_group status : runs plain (follow_group (W := W) status).
Proof. unfold follow_group, me. quiet_auto. Qed.
End quiet.

(** ** Who bootstraps a group *)

(** How many times a log sets the flag *)
Definition ons (l : trace) : nat := length (List.filter (λ e, (e.1 =? BOOTSTRAP_ON)%string) l).

(** The statement that makes [START GROUP_REPLICATION] form a new group is executed between two states. *)
Definition bootstraps {W} (s s' : MySQL * W) : Prop := (ons (log_of s) < ons (log_of s'))%nat.

(** [g] contains the GTID sets of the other members. *)
Definition holds_all (sub : string → string → bool) (cfg : MyConfig) (members : list Member) (g : string) : Prop :=
  ∀ m h, m ∈ peers (my_name cfg) members → _member_gtid m = Ok h → h ≠ "" → sub h g = true.

Section guarded.
Context {W : Type} `{!Pymysql W, !Mysqld W} (cfg : MyConfig).

Lemma ons_app new l : ons (new ++ l)%list = (ons new + ons l)%nat.
Proof. unfold ons. by rewrite List.filter_app, length_app. Qed.

Lemma no_bootstrap {A} (m : myM (W := W) A) s : runs no_on m → ¬ bootstraps s (m s).2.
Proof.
  intros Hm. destruct (Hm s) as (new & Hl & Hnew). unfold bootstraps. rewrite Hl, ons_app.
  assert (ons new = 0)%nat as ->; [|lia]. clear Hl. induction Hnew as [|[q ok] new Hq Hnew IH]; [done|].
  unfold ons in *. simpl in *. by destruct (String.eqb_spec q BOOTSTRAP_ON).
Qed.

Lemma bootstraps_bind {A B} (m : myM (W := W) A) (f : A → myM (W := W) B) s : runs no_on m →
  bootstraps s ((m ≫= f) s).2 → ∃ a s1, m s = (Ok a, s1) ∧ bootstraps s1 (f a s1).2.
Proof.
  intros Hm Hb. unfold mbind, myM_bind, eff_bind in Hb. pose proof (no_bootstrap m s Hm) as Hn.
  destruct (Hm s) as (new & Hl & Hnew). destruct (m s) as [[a|e] s1]; [|done]. exists a, s1. split; [done|].
  unfold bootstraps in *. simpl in *. rewrite Hl, ons_app in Hn |- *. lia.
Qed.

Lemma executed_collapsed s g s' : get_executed_gtid (W := W) s = (Ok g, s') → collapse g = g.
Proof.
  unfold get_executed_gtid, try_, try_except.
  lazymatch goal with |- context [match ?m s with _ => _ end] => destruct (m s) as [[x|e] s1] eqn:E end.
  - intros [= <- <-]. eff_inv E. destruct a as [[|v r]|]; injection E as <- _; [done| |done]. apply collapse_idemp.
  - destruct (is_exception e); [by intros [= <- <-]|done].
Qed.

Lemma published_members ms l : published ms = Ok l →
  ∀ m h, m ∈ ms → _member_gtid m = Ok h → h ≠ "" → (m_name m, h) ∈ l.
Proof.
  revert l. induction ms as [|x ms IH]; intros l; cbn [published]; [intros _ m h Hm; by apply elem_of_nil in Hm|].
  destruct (_member_gtid x) as [g|] eqn:E; cbn; [|done]. destruct (published ms) as [rest|]; cbn; [|done].
  intros [= <-] m h [->|Hm]%elem_of_cons Hh Hne.
  - assert (g = h) as -> by congruence. destruct (String.eqb_spec h ""); [done|left].
  - specialize (IH rest eq_refl m h Hm Hh Hne). destruct (g =? "")%string; [done|by right].
Qed.

Lemma peers_others members m : m ∈ peers (my_name cfg) members → m ∈ others cfg members.
Proof.
  unfold peers, others. rewrite !list_elem_of_In, !List.filter_In. intros [Hm Hn].
  apply andb_true_iff in Hn as [_ Hn]. done.
Qed.

Lemma published_name ms l c : published ms = Ok l → c ∈ l → ∃ m, m ∈ ms ∧ c.1 = m_name m.
Proof.
  revert l. induction ms as [|x ms IH]; intros l; cbn [published]; [intros [= <-] Hc; by apply elem_of_nil in Hc|].
  destruct (_member_gtid x) as [g|]; cbn; [|done]. destruct (published ms) as [rest|]; cbn; [|done].
  intros [= <-] Hc. destruct (g =? "")%string.
  - destruct (IH rest eq_refl Hc) as (m & Hm & He). exists m. split; [by right|done].
  - apply elem_of_cons in Hc as [->|Hc]; [exists x; split; [left|done]|].
    destruct (IH rest eq_refl Hc) as (m & Hm & He). exists m. split; [by right|done].
Qed.

(** The only candidate with this node's name is this node. *)
Lemma own_candidate local_gtid members l g :
  _mgr_gtid_candidates (my_name cfg) local_gtid members = Ok l → (my_name cfg, g) ∈ l → g = collapse local_gtid.
Proof.
  unfold _mgr_gtid_candidates. destruct (published _) as [rest|] eqn:E; cbn; [|done]. intros [= <-] Hg.
  assert ((my_name cfg, g) ∉ rest) as Hni.
  { intros Hin. destruct (published_name _ _ _ E Hin) as (m & Hm & He). apply list_elem_of_In, List.filter_In in Hm as [_ Hm].
    apply andb_true_iff in Hm as [_ Hm]. simpl in He. rewrite He, String.eqb_refl in Hm. done. }
  destruct (_ =? _)%string; [done|]. apply elem_of_cons in Hg as [[= ->]|Hg]; done.
Qed.

Context (sub : string → string → bool) `{!GtidServer W sub}.

Lemma winner_holds_all local_gtid members l s s' :
  _mgr_gtid_candidates (my_name cfg) local_gtid members = Ok l → collapse local_gtid = local_gtid →
  select_mgr_bootstrap_winner (W := W) cfg local_gtid members s = (Ok (Some (my_name cfg)), s') →
  holds_all sub cfg members local_gtid.
Proof.
  intros Hl Hc Hs. destruct (winner_above sub _ _ _ _ _ _ _ Hl Hs) as (g & Hg & Habove).
  apply (own_candidate _ _ _ _ Hl) in Hg. rewrite Hc in Hg. subst g. intros m h Hm Hh Hne.
  apply (Habove (m_name m, h)). unfold _mgr_gtid_candidates in Hl.
  destruct (published _) as [rest|] eqn:E; cbn in Hl; [|done]. injection Hl as <-.
  pose proof (published_members _ _ E m h Hm Hh Hne). destruct (_ =? _)%string; [done|by right].
Qed.

Lemma no_local_gtid_guarded has_lock peer_gtids members s :
  published (others cfg members) = Ok peer_gtids →
  bootstraps s (no_local_gtid (W := W) cfg has_lock peer_gtids members s).2 →
  has_lock = true ∧ holds_all sub cfg members "".
Proof.
  intros Hp Hb. unfold no_local_gtid in Hb. destruct has_lock; cbn [andb] in Hb.
  2: { exfalso. revert Hb. apply no_bootstrap, quiet_or_else; [apply quiet_try_rejoin|apply runs_ret]. }
  destruct peer_gtids as [|c l].
  2: { exfalso. revert Hb. apply no_bootstrap, quiet_or_else; [apply quiet_try_rejoin|apply runs_ret]. }
  split; [done|]. intros m h Hm Hh Hne. apply peers_others in Hm.
  pose proof (published_members _ _ Hp m h Hm Hh Hne) as Hin. by apply elem_of_nil in Hin.
Qed.

Lemma majority_loss_guarded has_lock members s :
  bootstraps s (_handle_mgr_majority_loss (W := W) cfg has_lock members s).2 →
  has_lock = true ∧ ∃ g, (get_executed_gtid s).1 = Ok g ∧ holds_all sub cfg members g.
Proof.
  intros Hb. unfold _handle_mgr_majority_loss in Hb.
  apply bootstraps_bind in Hb as (g & s1 & Hg & Hb); [|apply no_on_plain, quiet_executed_gtid]. rewrite Hg.
  apply bootstraps_bind in Hb as (ps & s2 & Hp & Hb); [|apply runs_lift]. injection Hp as Hp ->.
  destruct (String.eqb_spec g "") as [->|Hne].
  { destruct (no_local_gtid_guarded _ _ _ _ Hp Hb). eauto. }
  apply bootstraps_bind in Hb as (winner & s3 & Hw & Hb); [|apply no_on_plain, quiet_select].
  destruct winner as [w|]; [|exfalso; revert Hb; apply no_bootstrap, no_on_plain, quiet_no_winner].
  apply bootstraps_bind in Hb as ([] & s4 & _ & Hb); [|apply no_on_plain, quiet_clear_fork].
  destruct (String.eqb_spec w (my_name cfg)) as [->|Hother]; cbn [negb] in Hb.
  2: { exfalso. destruct has_lock; revert Hb; apply no_bootstrap; [apply runs_ret|].
       apply quiet_or_else; [apply quiet_try_rejoin|apply runs_ret]. }
  destruct has_lock; cbn [negb] in Hb.
  2: { exfalso; revert Hb; apply no_bootstrap, quiet_or_else; [apply quiet_try_rejoin|apply runs_ret]. }
  split; [done|]. exists g. split; [done|].
  unfold select_mgr_bootstrap_winner in Hw. pose proof Hw as Hw'. eff_inv Hw'. injection Hm as Hl _.
  eapply winner_holds_all; [exact Hl|by eapply executed_collapsed|exact Hw].
Qed.

(** An empty status: there is no row, or the query failed. *)
Lemma no_place s s1 row : get_mgr_status s = (Ok [], s1) → (query_one_dict (W := W) status_query s).1 = Ok (Some row) → row = [].
Proof.
  unfold get_mgr_status, try_, try_except, mbind, myM_bind, eff_bind. destruct (query_one_dict status_query s) as [r s2]. cbn [fst].
  intros Hs ->. destruct row; [done|]. by injection Hs.
Qed.

(** C8: A node forms a new group only in a cycle in which it holds the leader lock, the query for its place in
    a group gave no row - there was none, or the query failed - and its GTID set contains the sets of all members
    that have published one, also when some comparisons of GTID sets fail. *)
Theorem bootstrap_guarded has_lock members s r s' :
  run_mgr_cycle (W := W) cfg has_lock members s = (r, s') → bootstraps s s' →
  has_lock = true ∧ (∀ row, (query_one_dict status_query s).1 = Ok (Some row) → row = []) ∧
  ∃ g, (get_executed_gtid (get_mgr_status s).2).1 = Ok g ∧ holds_all sub cfg members g.
Proof.
  intros Hr Hb. replace s' with (run_mgr_cycle (W := W) cfg has_lock members s).2 in Hb by (by rewrite Hr). clear Hr.
  unfold run_mgr_cycle in Hb. destruct (negb _); [exfalso; revert Hb; apply no_bootstrap, runs_ret|].
  apply bootstraps_bind in Hb as (status & s1 & Hs & Hb); [|apply no_on_plain, quiet_mgr_status]. rewrite Hs.
  destruct status as [|kv status]; [|exfalso; revert Hb; apply no_bootstrap, no_on_plain, quiet_follow_group].
  destruct (majority_loss_guarded _ _ _ Hb) as (-> & g & Hg & Hall).
  split; [done|]. split; [|by eauto]. intros row. exact (no_place _ _ row Hs).
Qed.
End guarded.

(** [n1] is ahead of [n0], holds the lock, and forms the group. *)
Lemma bootstrap_guarded_witness :
  ∃ g, (get_executed_gtid (W := server) (get_mgr_status (mysql_init, server_with "a,b,c")).2).1 = Ok g ∧
       holds_all tx_subset (group_config "n1") [member_with "n0" "a,b"] g.
Proof.
  destruct (bootstrap_guarded (group_config "n1") tx_subset true [member_with "n0" "a,b"] (mysql_init, server_with "a,b,c")
              (run_mgr_cycle (group_config "n1") true [member_with "n0" "a,b"] (mysql_init, server_with "a,b,c")).1
              (run_mgr_cycle (group_config "n1") true [member_with "n0" "a,b"] (mysql_init, server_with "a,b,c")).2)
    as (_ & _ & g & Hg).
  - apply surjective_pairing.
  - apply Nat.ltb_lt. vm_compute. reflexivity.
  - exists g. exact Hg.
Defined.

(** The primary of a group that works, whose query for its place in the group fails, forms a new one. *)
Definition failing_status : server :=
  let place := Some [("role", VStr "PRIMARY"); ("state", VStr "ONLINE")] in
  MkServer "a,b,c" false place place (String.eqb status_query) (λ _, None) true 0.

Lemma failed_status_bootstraps :
  let '(r, s) := run_mgr_cycle (group_config "n1") true [member_with "n0" "a,b"] (mysql_init, failing_status) in
  r = Ok (Some bootstrapped) ∧ bootstraps (mysql_init, failing_status) s.
Proof. vm_compute. split; [reflexivity|]. unfold lt. repeat constructor. Qed.

(** * Joining a group

    A node without the leader lock starts group replication only with the bootstrap flag off;
    the wait for the group ends; and a bootstrap that fails leaves the flag on. *)

(** ** The flag [group_replication_bootstrap_group] *)

(** The flag is off for certain: it was set to OFF successfully, and since then no attempt was made to
    set it to ON. *)
Fixpoint surely_off (l : trace) : bool :=
  match l with
  | [] => false
  | (q, ok) :: l =>
      if (q =? BOOTSTRAP_ON)%string then false
      else if (q =? BOOTSTRAP_OFF)%string && ok then true
      else surely_off l
  end.

(** Group replication was started with the flag off, each time in [new]. *)
Fixpoint starts_off (new l : trace) : Prop :=
  match new with
  | [] => True
  | e :: new => (e.1 = START_GR → surely_off (new ++ l)%list = true) ∧ starts_off new l
  end.

Definition good (l0 l : trace) : Prop := ∃ new, l = (new ++ l0)%list ∧ starts_off new l0.

#[export] Instance good_refl : Reflexive good.
Proof. intros l. by exists []. Qed.

Lemma good_extend l0 l l' (P : string → Prop) : (∀ q, P q → q ≠ START_GR) → good l0 l → extends P l l' → good l0 l'.
Proof.
  intros HP (new & -> & Hs) (new' & -> & Hnew). induction Hnew as [|[q ok] new' Hq Hnew IH]; [by exists new|].
  destruct IH as (n & Hl & Hn). exists ((q, ok) :: n). split; [by rewrite <-app_comm_cons, Hl|]. split; [|done].
  intros He. by destruct (HP q Hq).
Qed.

Lemma surely_off_extend l l' : surely_off l = true → extends no_on l l' → surely_off l' = true.
Proof.
  intros Hl (new & -> & Hnew). induction Hnew as [|[q ok] new Hq Hnew IH]; [done|]. simpl in *.
  destruct (String.eqb_spec q BOOTSTRAP_ON); [done|]. by destruct (_ && _).
Qed.

Lemma good_extend_off l0 l l' : good l0 l → surely_off l = true → extends no_on l l' → good l0 l'.
Proof.
  intros (new & -> & Hs) Hoff (new' & -> & Hnew). induction Hnew as [|[q ok] new' Hq Hnew IH]; [by exists new|].
  destruct IH as (n & Hl & Hn). exists ((q, ok) :: n). split; [by rewrite <-app_comm_cons, Hl|]. split; [|done].
  intros _. rewrite <-Hl. apply (surely_off_extend _ _ Hoff). by exists new'.
Qed.

Section joins.
Context {W : Type} `{!Pymysql W, !Mysqld W} (cfg : MyConfig).
Implicit Types (s : MySQL * W).

(** A computation that starts group replication only with the flag off *)
Definition joins {A} (m : myM (W := W) A) : Prop := ∀ l0 s, good l0 (log_of s) → good l0 (log_of (m s).2).

Lemma joins_runs {A} (m : myM (W := W) A) : runs plain m → joins m.
Proof. intros H l0 s Hs. eapply good_extend; [apply plain_no_start|exact Hs|apply H]. Qed.

Lemma joins_bind {A B} (m : myM (W := W) A) (f : A → myM B) : joins m → (∀ a, joins (f a)) → joins (m ≫= f).
Proof.
  intros Hm Hf l0 s Hs. unfold mbind, myM_bind, eff_bind. specialize (Hm l0 s Hs).
  destruct (m s) as [[a|e] s']; [by apply Hf|done].
Qed.

Lemma joins_try {A} (m h : myM (W := W) A) : joins m → joins h → joins (try_ m h).
Proof.
  intros Hm Hh l0 s Hs. unfold try_, try_except. specialize (Hm l0 s Hs).
  destruct (m s) as [[a|e] s']; [done|]. destruct (is_exception e); [by apply Hh|done].
Qed.

Lemma joins_or_else m k : joins m → joins k → joins (or_else m k).
Proof. intros Hm Hk. apply joins_bind; [done|]. intros [r|]; [by apply joins_runs, runs_ret|done]. Qed.

(** After a statement that sets the flag to OFF, it is off. *)
Lemma conn_query_done q params ps rows ps' : conn_query (W := W) q params ps = (Ok rows, ps') → ∃ l, statements ps'.1 = (q, true) :: l.
Proof.
  unfold conn_query. destruct (conn_get ps) as [[[]|e] [p w]]; [|by intros [=]]. unfold run_statement. cbn [snd fst].
  destruct (my_execute q params w) as [r w']. destruct r as [rs|database closed|e]; [|by destruct closed, database|by intros [=]].
  intros [= <- <-]. by eexists.
Qed.

Lemma query_done q params ps rows ps' : _query (W := W) q params ps = (Ok rows, ps') → ∃ l, statements ps'.1 = (q, true) :: l.
Proof.
  unfold _query, closing, last_attempt. destruct (attempt q params ps) as [[rs|e] s1] eqn:E1.
  - intros [= <- <-]. unfold attempt in E1. eff_inv E1. by eapply conn_query_done.
  - destruct (is_transient e); [|by intros [=]].
    destruct (attempt q params (pool_close s1).2) as [[rs|e'] s3] eqn:E2; [|by intros [=]].
    intros [= <- <-]. unfold attempt in E2. eff_inv E2. by eapply conn_query_done.
Qed.

Lemma sql_done q s s' : sql (W := W) q s = (Ok (), s') → ∃ l, log_of s' = (q, true) :: l.
Proof.
  unfold sql, conn. intros H. destruct (exec (W := W) q [] (pool s.1, s.2)) as [r [p w]] eqn:E. injection H as -> <-.
  unfold exec in E. eff_inv E. injection E as ->. apply query_done in Hm. exact Hm.
Qed.

(** What follows a successful [BOOTSTRAP_OFF] may start group replication. *)
Lemma joins_off {A} (m : myM (W := W) A) : runs no_on m → joins (sql BOOTSTRAP_OFF;; m).
Proof.
  intros Hm l0 s Hs. assert (joins (sql (W := W) BOOTSTRAP_OFF)) as Hj by (apply joins_runs, runs_sql; [apply plain_setup|reflexivity]).
  specialize (Hj l0 s Hs). unfold mbind, myM_bind, eff_bind. destruct (sql BOOTSTRAP_OFF s) as [[[]|e] s1] eqn:E; [|done].
  destruct (sql_done _ _ _ E) as (l & Hl). eapply good_extend_off; [exact Hj| |apply Hm]. cbn [snd]. by rewrite Hl.
Qed.

Lemma rejoin_joins timeout : joins (rejoin_mgr_group cfg timeout).
Proof.
  assert (∀ q, plain q → joins (sql_quietly (W := W) q)) as Hq.
  { intros q Hq. by apply joins_runs, runs_sql_quietly; [apply plain_setup|]. }
  unfold rejoin_mgr_group. apply joins_try.
  - do 3 (apply joins_bind; [by apply Hq|intros _]). apply joins_bind; [apply joins_runs, quiet_set_channel|intros _].
    apply joins_off. quiet_auto. apply no_on_plain, quiet_poll_until.
  - apply joins_bind; [apply joins_runs, runs_close_pool|intros _; apply joins_runs, runs_ret].
Qed.

Lemma try_rejoin_joins members : joins (_try_rejoin_mgr cfg members).
Proof.
  unfold _try_rejoin_mgr. apply joins_bind; [apply joins_runs, runs_lift|intros [m|]]; [|apply joins_runs, runs_ret].
  apply joins_bind; [apply joins_runs, runs_lift|intros url]. destruct (negb _); [apply joins_runs, runs_ret|].
  apply joins_bind; [apply joins_runs, runs_lift|intros _]. apply joins_bind; [apply rejoin_joins|intros [|]].
  - apply joins_runs. pose proof (quiet_set_role (W := W)). quiet_auto.
  - apply joins_runs, runs_ret.
Qed.

(** C31: In a cycle without the leader lock every START GROUP_REPLICATION is executed with
    group_replication_bootstrap_group off - also when a failed bootstrap has left it on before. *)
Theorem joiner_never_bootstraps members s :
  good (log_of s) (log_of (run_mgr_cycle (W := W) cfg false members s).2).
Proof.
  assert (joins (run_mgr_cycle (W := W) cfg false members)) as Hj; [|by apply Hj].
  unfold run_mgr_cycle. destruct (negb _); [apply joins_runs, runs_ret|].
  apply joins_bind; [apply joins_runs, quiet_mgr_status|intros [|kv status]]; [|apply joins_runs, quiet_follow_group].
  unfold _handle_mgr_majority_loss. apply joins_bind; [apply joins_runs, quiet_executed_gtid|intros g].
  apply joins_bind; [apply joins_runs, runs_lift|intros ps]. destruct (g =? "")%string.
  { cbn. apply joins_or_else; [apply try_rejoin_joins|apply joins_runs, runs_ret]. }
  apply joins_bind; [apply joins_runs, quiet_select|intros [w|]]; [|apply joins_runs, quiet_no_winner].
  apply joins_bind; [apply joins_runs, quiet_clear_fork|intros _].
  destruct (negb _); (apply joins_or_else; [apply try_rejoin_joins|apply joins_runs, runs_ret]).
Qed.
End joins.
