(* ===== verification/MgrAgree.v ===== *)
(** * Agreement on the winner of the election

    Nodes that see the same sets never elect different members, even when comparisons fail: whoever
    wins has won the reference election [elect].  When the server answers every comparison, the election is the function [elect] of the
    candidates, which does not depend on their order: all nodes that see the same sets name
    the same winner, and a fork is reported exactly when there is none. *)
From S2P Require Import Prelude Lexing PyDict PyVal Effects Utils DcsData MySQLConn MySQL Mgr MgrElect MgrProps.

Open Scope string_scope.
Open Scope Z_scope.

(** ** The reference election *)

Section elect.
Context (sub : string → string → bool).
Implicit Types (l : list candidate) (a b c d : candidate).

(** The candidates whose set contains all sets *)
Definition greatest l : list candidate := List.filter (λ c, forallb (λ d, sub d.2 c.2) l) l.

(** The smallest of their names *)
Definition elect l : option string :=
  match (greatest l).*1 with [] => None | n :: ns => Some (min_name n ns) end.

Lemma elem_of_filter_bool {A} (p : A → bool) (l : list A) x : x ∈ List.filter p l ↔ x ∈ l ∧ p x = true.
Proof. by rewrite !list_elem_of_In, List.filter_In. Qed.

Lemma forallb_elem {A} (p : A → bool) (l : list A) : forallb p l = true ↔ ∀ x, x ∈ l → p x = true.
Proof. rewrite forallb_forall. by setoid_rewrite list_elem_of_In. Qed.

Lemma elem_of_greatest l c : c ∈ greatest l ↔ c ∈ l ∧ ∀ d, d ∈ l → sub d.2 c.2 = true.
Proof. unfold greatest. by rewrite elem_of_filter_bool, forallb_elem. Qed.

(** [min_name] depends on the names as a set. *)
Lemma min_name_set n ns m ms : (∀ x, x ∈ n :: ns ↔ x ∈ m :: ms) → min_name n ns = min_name m ms.
Proof.
  intros H. apply (anti_symm String.le); apply min_name_least.
  - apply H, min_name_elem.
  - apply H, min_name_elem.
Qed.

Lemma elect_set l l' : (∀ c, c ∈ l ↔ c ∈ l') → elect l = elect l'.
Proof.
  intros H. assert (∀ c, c ∈ greatest l ↔ c ∈ greatest l') as Hg.
  { intros c. rewrite !elem_of_greatest. rewrite H. by setoid_rewrite H. }
  assert (∀ x, x ∈ (greatest l).*1 ↔ x ∈ (greatest l').*1) as Hn.
  { intros x. rewrite !list_elem_of_fmap. by setoid_rewrite Hg. }
  unfold elect. destruct ((greatest l).*1) as [|n ns], ((greatest l').*1) as [|m ms].
  - done.
  - exfalso. apply (elem_of_nil m). apply Hn. left.
  - exfalso. apply (elem_of_nil n). apply Hn. left.
  - f_equal. by apply min_name_set.
Qed.
Lemma elect_None l : elect l = None ↔ ∀ c, c ∈ l → ∃ d, d ∈ l ∧ sub d.2 c.2 = false.
Proof.
  unfold elect. destruct (greatest l) as [|g gs] eqn:Hg; cbn [fmap list_fmap]; split; try done.
  - intros _ c Hc. assert (c ∉ greatest l) as Hn by (rewrite Hg; apply not_elem_of_nil).
    rewrite elem_of_greatest in Hn. destruct (decide (Exists (λ d, sub d.2 c.2 = false) l)) as [He|He]; [by apply Exists_exists in He|].
    destruct Hn. split; [done|]. intros d Hd. apply not_false_iff_true. intros Hf. apply He, Exists_exists. eauto.
  - intros H. assert (g ∈ greatest l) as Hin by (rewrite Hg; left). apply elem_of_greatest in Hin as [Hgl Hall].
    destruct (H g Hgl) as (d & Hd & Hf). by rewrite (Hall d Hd) in Hf.
Qed.
End elect.

(** ** The winner, when comparisons may fail *)

Section sound.
Context {W : Type} `{!Pymysql W, !Mysqld W} (sub : string → string → bool) `{!GtidServer W sub}.
Implicit Types (l : list candidate) (c d : candidate) (s : MySQL * W).

Lemma subset_refl' c : sub c.2 c.2 = true.
Proof using GtidServer0. apply subset_refl. Qed.

(** Candidates that were kept and then found equal are the greatest ones. *)
Lemma kept_greatest l s base rest s' s1 s1' c : normal l → _mgr_maximal_candidates (W := W) l s = (Ok (base :: rest), s') →
  all_equal (W := W) base rest s1 = (Ok true, s1') → c ∈ base :: rest ↔ c ∈ greatest sub l.
Proof using GtidServer0.
  intros Hn Hm He. assert (∀ d, d ∈ base :: rest → d ∈ l) as Hin by (intros d; by eapply maximal_of_sublist).
  assert (normal (base :: rest)) as Hnm by (apply Forall_forall; intros d Hd; by apply (proj1 (Forall_forall _ _) Hn), Hin).
  apply Forall_cons in Hnm as [Hb Hr]. pose proof (all_equal_true sub _ _ _ _ Hb Hr He) as Heq.
  assert (∀ d, d ∈ base :: rest → below sub d base ∧ below sub base d) as Hbase.
  { intros d [->|Hd]%elem_of_cons; [split; apply subset_refl'|]. by destruct (Heq d Hd). }
  rewrite elem_of_greatest. split.
  - intros Hc. split; [by apply Hin|]. intros d Hd. destruct (maximal_above sub _ _ _ _ Hn Hm d Hd) as (e & He' & Hde).
    eapply (subset_trans d.2 e.2); [exact Hde|]. eapply (subset_trans e.2 base.2); [apply (Hbase e He')|apply (Hbase c Hc)].
  - intros [Hc Hall]. destruct (maximal_of_dropped sub _ _ _ _ _ c Hn Hn Hm Hc) as [?|(b & Hb' & _ & Hbc)]; [done|].
    by destruct Hbc; apply Hall.
Qed.

(** Whoever wins an election is the winner of the reference election. *)
Lemma select_sound cfg local_gtid members l w s s' : _mgr_gtid_candidates (my_name cfg) local_gtid members = Ok l →
  select_mgr_bootstrap_winner (W := W) cfg local_gtid members s = (Ok (Some w), s') → elect sub l = Some w.
Proof using GtidServer0.
  intros Hl Hs. pose proof (proper_normal _ (candidates_proper _ _ _ _ Hl)) as Hn.
  unfold select_mgr_bootstrap_winner in Hs. eff_inv Hs. rewrite Hl in Hm. injection Hm as <- <-.
  destruct l as [|c [|c' l]]; [done| |].
  - injection Hs as <- <-. unfold elect, greatest. cbn [List.filter forallb]. by rewrite (subset_refl' c).
  - eff_inv Hs. destruct a as [|base rest]; [done|]. eff_inv Hs. destruct a; [|done]. injection Hs as <- <-.
    assert (∀ x, x ∈ (base :: rest).*1 ↔ x ∈ (greatest sub (c :: c' :: l)).*1) as Hx.
    { intros x. rewrite !list_elem_of_fmap. by setoid_rewrite (kept_greatest _ _ _ _ _ _ _ _ Hn Hm Hm0). }
    unfold elect. destruct ((greatest sub (c :: c' :: l)).*1) as [|n ns].
    + exfalso. apply (elem_of_nil base.1), Hx. left.
    + f_equal. apply min_name_set. intros x. by rewrite <-Hx.
Qed.
End sound.

(** ** Answers *)

Section exact.
Context {W : Type} `{!Pymysql W, !Mysqld W, !Responsive W}.

Lemma setup_answers ps : ∃ ps', session_setup (W := W) ps = (Ok (), ps').
Proof.
  destruct ps as [p w]. unfold session_setup, execute, run_statement, mbind, connM_bind, eff_bind. cbn [snd fst].
  destruct (answers "SET SESSION TRANSACTION ISOLATION LEVEL READ COMMITTED" [] w) as (r & w1 & ->); [set_solver|]. cbn [snd fst raised].
  destruct (answers "SET autocommit = 1" [] w1) as (r' & w2 & ->); [set_solver|]. cbn. eauto.
Qed.

Lemma conn_get_answers ps : ∃ ps', conn_get (W := W) ps = (Ok (), ps').
Proof.
  destruct ps as [p w]. unfold conn_get. change ((pool_ ≫= ?k) (p, w)) with (k p (p, w)). cbv beta.
  destruct (connected p); cbn [negb].
  - unfold try_except, driver. cbn [snd fst]. destruct (pings w) as (w1 & ->). cbn. eauto.
  - unfold conn_establish, mbind, connM_bind, eff_bind, driver. cbn [snd fst].
    destruct (MgrElect.connects w) as (w1 & ->). cbn [raised update puts snd fst].
    destruct (setup_answers (set_connected true p, w1)) as ([p2 w2] & ->).
    unfold conn_query_one, try_except, mbind, connM_bind, eff_bind, execute, run_statement. cbn [snd fst].
    destruct (version_known w2) as (v & rows & w3 & ->). cbn. eauto.
Qed.

Lemma conn_query_answers params ps : ∃ rows ps', conn_query (W := W) subset_query params ps = (Ok rows, ps').
Proof.
  unfold conn_query. destruct (conn_get_answers ps) as ([p w] & ->). unfold run_statement. cbn [snd fst].
  destruct (answers subset_query params w) as (r & w1 & ->); [set_solver|]. eauto.
Qed.

Lemma query_answers params ps : ∃ rows ps', _query (W := W) subset_query params ps = (Ok rows, ps').
Proof.
  unfold _query, closing, attempt, mbind, connM_bind, eff_bind. destruct (conn_get_answers ps) as (ps1 & ->).
  destruct (conn_query_answers params ps1) as (r & ps2 & ->). eauto.
Qed.

Context (sub : string → string → bool) `{!GtidServer W sub}.
Implicit Types (l : list candidate) (a b c d : candidate) (s : MySQL * W).

Lemma relation_exact a b s : collapse a.2 = a.2 ∧ a.2 ≠ "" → collapse b.2 = b.2 ∧ b.2 ≠ "" →
  ∃ s', gtid_relation (W := W) a.2 b.2 s = (Ok (related sub a.2 b.2), s').
Proof.
  intros [Ha Hna] [Hb Hnb]. unfold gtid_relation. rewrite Ha, Hb. apply String.eqb_neq in Hna, Hnb. rewrite Hna, Hnb. cbn [orb].
  unfold try_, try_except, query_one, conn, _query_one, mbind, connM_bind, myM_bind, eff_bind. cbn [snd fst].
  destruct (query_answers (asked a.2 b.2) (pool s.1, s.2)) as (rows & [p w] & Hq). pose proof Hq as Hrows.
  apply (query_answer sub) in Hrows as ->. unfold asked in Hq. rewrite Hq. cbn [mret connM_ret eff_ret head].
  pose proof (answer_relation sub a.2 b.2) as Hr. unfold answer in *. unfold ret_exc, lift_exc. cbn beta iota.
  rewrite Hr. eauto.
Qed.

(** The candidate [a] is strictly below [b], which has another name. *)
Definition beaten a b : bool := negb (a.1 =? b.1)%string && sub a.2 b.2 && negb (sub b.2 a.2).

Lemma dominated_exact a l s : collapse a.2 = a.2 ∧ a.2 ≠ "" → proper l →
  ∃ s', dominated (W := W) a l s = (Ok (existsb (beaten a) l), s').
Proof.
  intros Ha. revert s. induction l as [|b l IH]; intros s Hl; [by eexists|]. apply Forall_cons in Hl as [Hb Hl].
  cbn [dominated existsb]. unfold beaten at 1. destruct (a.1 =? b.1)%string; cbn [negb andb orb]; [by apply IH|].
  unfold mbind, myM_bind, eff_bind. destruct (relation_exact a b s Ha Hb) as (s1 & ->). case_bool_decide as Hr.
  - apply related_b_ahead in Hr as [-> ->]. cbn. eauto.
  - destruct (sub a.2 b.2 && negb (sub b.2 a.2)) eqn:E; cbn [orb]; [|by apply IH].
    exfalso. apply Hr, related_b_ahead. apply andb_true_iff in E as [? E]. split; [done|by apply negb_true_iff].
Qed.

Lemma maximal_of_exact all l s : proper all → proper l →
  ∃ s', maximal_of (W := W) all l s = (Ok (List.filter (λ a, negb (existsb (beaten a) all)) l), s').
Proof.
  intros Hall. revert s. induction l as [|a l IH]; intros s Hl; [by eexists|]. apply Forall_cons in Hl as [Ha Hl].
  cbn [maximal_of List.filter]. unfold mbind, myM_bind, eff_bind.
  destruct (dominated_exact a all s Ha Hall) as (s1 & ->). destruct (IH s1 Hl) as (s2 & ->).
  exists s2. by destruct (existsb _ _).
Qed.

Definition same_set a b : bool := sub a.2 b.2 && sub b.2 a.2.

Lemma all_equal_exact base l s : collapse base.2 = base.2 ∧ base.2 ≠ "" → proper l →
  ∃ s', all_equal (W := W) base l s = (Ok (forallb (same_set base) l), s').
Proof.
  intros Hb. revert s. induction l as [|c l IH]; intros s Hl; [by eexists|]. apply Forall_cons in Hl as [Hc Hl].
  cbn [all_equal forallb]. unfold mbind, myM_bind, eff_bind. destruct (relation_exact base c s Hb Hc) as (s1 & ->).
  case_bool_decide as Hr.
  - apply related_equal in Hr as [H1 H2]. unfold same_set at 1. rewrite H1, H2. by apply IH.
  - unfold same_set at 1. destruct (sub base.2 c.2 && sub c.2 base.2) eqn:E; cbn [andb]; [|by eexists].
    exfalso. apply Hr, related_equal. by apply andb_true_iff.
Qed.

(** ** The election is [elect] *)

Definition maximal l : list candidate := List.filter (λ a, negb (existsb (beaten a) l)) l.

Lemma elem_of_maximal l a : NoDup l.*1 →
  a ∈ maximal l ↔ a ∈ l ∧ ∀ b, b ∈ l → sub a.2 b.2 = true → sub b.2 a.2 = true.
Proof.
  intros Hnd. unfold maximal. rewrite elem_of_filter_bool, negb_true_iff, <-not_true_iff_false, existsb_exists.
  split; intros [Ha H]; (split; [done|]).
  - intros b Hb Hab. destruct (sub b.2 a.2) eqn:Hba; [done|]. exfalso. apply H. exists b.
    rewrite <-list_elem_of_In. split; [done|]. unfold beaten. rewrite Hab, Hba.
    destruct (String.eqb_spec a.1 b.1) as [He|]; [|done]. 
    assert (a = b) as ->; [|by rewrite subset_refl in Hba].
    destruct a as [n ga], b as [n' gb]. simpl in He. subst n'.
    apply (Dict.elem_get _ _ _ Hnd) in Ha, Hb. congruence.
  - intros (b & Hb & Hbt). apply list_elem_of_In in Hb. unfold beaten in Hbt. rewrite !andb_true_iff, !negb_true_iff in Hbt.
    destruct Hbt as [[_ Hab] Hba]. rewrite (H b Hb Hab) in Hba. done.
Qed.

(** When there is a greatest set the maximal candidates are those that have it. *)
Lemma maximal_greatest l g : NoDup l.*1 → g ∈ greatest sub l → maximal l = greatest sub l.
Proof.
  intros Hnd Hg. apply elem_of_greatest in Hg as [Hin Hg].
  apply List.filter_ext_in. intros a Ha. apply list_elem_of_In in Ha.
  pose proof (elem_of_maximal l a Hnd) as Hm. pose proof (elem_of_greatest sub l a) as Hgr.
  unfold maximal, greatest in *. rewrite !elem_of_filter_bool in Hm, Hgr.
  apply eq_bool_prop_intro. rewrite !Is_true_true. split.
  - intros Ht. apply Hgr. split; [done|]. intros d Hd. eapply subset_trans; [by apply Hg|]. apply Hm; auto.
  - intros Ht. apply Hm. split; [done|]. intros b Hb _. apply Hgr; auto.
Qed.

(** What the second part of the election makes of the maximal candidates *)
Definition decide_winner (m : list candidate) : option string :=
  match m with
  | [] => None
  | base :: rest => if forallb (same_set base) rest then Some (min_name base.1 rest.*1) else None
  end.

Lemma same_set_spec a b : same_set a b = true ↔ sub a.2 b.2 = true ∧ sub b.2 a.2 = true.
Proof. apply andb_true_iff. Qed.

Lemma maximal_covers l s : proper l → ∀ c, c ∈ l → ∃ d, d ∈ maximal l ∧ sub c.2 d.2 = true.
Proof.
  intros Hl c Hc. destruct (maximal_of_exact l l s Hl Hl) as (s' & Hm).
  apply (maximal_above sub l s _ s' (proper_normal _ Hl) Hm c Hc).
Qed.

Lemma decide_elect l s : proper l → NoDup l.*1 → decide_winner (maximal l) = elect sub l.
Proof.
  intros Hl Hnd. destruct (greatest sub l) as [|g gs] eqn:Hg.
  - unfold elect. rewrite Hg. cbn [fmap list_fmap]. destruct (maximal l) as [|base rest] eqn:Hm; [done|]. cbn [decide_winner].
    destruct (forallb (same_set base) rest) eqn:Heq; [|done]. exfalso. rewrite forallb_elem in Heq.
    apply (elem_of_nil base). rewrite <-Hg. apply elem_of_greatest.
    assert (base ∈ maximal l) as Hb by (rewrite Hm; left). apply (elem_of_maximal _ _ Hnd) in Hb as [Hb _]. split; [done|].
    intros c Hc. destruct (maximal_covers l s Hl c Hc) as (d & Hd & Hcd). rewrite Hm in Hd.
    apply elem_of_cons in Hd as [->|Hd]; [done|]. eapply subset_trans; [exact Hcd|]. by apply same_set_spec, Heq.
  - assert (g ∈ greatest sub l) as Hin by (rewrite Hg; left). rewrite (maximal_greatest l g Hnd Hin). unfold elect. rewrite Hg.
    cbn [decide_winner fmap list_fmap]. replace (forallb (same_set g) gs) with true; [done|]. symmetry. apply forallb_elem.
    intros c Hc. assert (c ∈ greatest sub l) as Hcg by (rewrite Hg; by right).
    apply elem_of_greatest in Hin as [Hgl Hall], Hcg as [Hcl Hcall]. apply same_set_spec. auto.
Qed.

Lemma select_exact cfg local_gtid members l s :
  _mgr_gtid_candidates (my_name cfg) local_gtid members = Ok l → NoDup l.*1 →
  (select_mgr_bootstrap_winner (W := W) cfg local_gtid members s).1 = Ok (elect sub l).
Proof.
  intros Hl Hnd. pose proof (candidates_proper _ _ _ _ Hl) as Hp.
  rewrite <-(decide_elect l s Hp Hnd). unfold select_mgr_bootstrap_winner. rewrite Hl.
  unfold ret_exc, lift_exc, mbind, myM_bind, eff_bind.
  destruct l as [|c [|c' l]]; [done| |].
  - unfold maximal. cbn [List.filter existsb]. unfold beaten. by rewrite String.eqb_refl.
  - unfold _mgr_maximal_candidates. destruct (maximal_of_exact _ _ s Hp Hp) as (s1 & ->).
    fold (maximal (c :: c' :: l)). destruct (maximal (c :: c' :: l)) as [|base rest] eqn:Hm; [done|].
    assert (proper (base :: rest)) as Hpm.
    { apply Forall_forall. intros x Hx. rewrite <-Hm in Hx. apply (elem_of_maximal _ _ Hnd) in Hx as [Hx _].
      by apply (proj1 (Forall_forall _ _) Hp). }
    apply Forall_cons in Hpm as [Hb Hr]. destruct (all_equal_exact base rest s1 Hb Hr) as (s2 & ->). done.
Qed.

(** ** The same candidates at every node *)

(** Every member is readable, has a name, and no two share it. *)
Definition readable (members : list Member) : Prop :=
  NoDup (m_name <$> members) ∧ ∀ m, m ∈ members → m_name m ≠ "" ∧ ∃ g, _member_gtid m = Ok g.

(** The GTID set of this node is the one its member key holds. *)
Definition up_to_date (name local_gtid : string) (members : list Member) : Prop :=
  ∃ m, m ∈ members ∧ m_name m = name ∧ _member_gtid m = Ok local_gtid.

(** The names and sets of the members that have published one *)
Definition all_published (members : list Member) (c : candidate) : Prop :=
  ∃ m, m ∈ members ∧ c.1 = m_name m ∧ _member_gtid m = Ok c.2 ∧ c.2 ≠ "".

Lemma published_spec ms : (∀ m, m ∈ ms → ∃ g, _member_gtid m = Ok g) →
  ∃ l, published ms = Ok l ∧ (∀ c, c ∈ l ↔ all_published ms c) ∧ l.*1 `sublist_of` m_name <$> ms.
Proof.
  induction ms as [|m ms IH]; intros Hms.
  - exists []. split_and!; [done| |done]. intros c. split; [by intros ?%elem_of_nil|]. by intros (m & ?%elem_of_nil & _).
  - destruct (Hms m) as (g & Hg); [left|]. destruct IH as (l & Hl & Hc & Hs); [intros x Hx; apply Hms; by right|].
    cbn [published]. rewrite Hg. cbn. rewrite Hl. cbn. eexists; split; [done|]. split.
    + intros c. unfold all_published in *. destruct (String.eqb_spec g "") as [->|Hne]; rewrite ?elem_of_cons, Hc.
      * split; [intros (x & ? & ?); exists x; rewrite elem_of_cons; naive_solver|].
        intros (x & [->|Hx]%elem_of_cons & H1 & H2 & H3); [congruence|eauto].
      * split; [intros [->|(x & ? & ?)]; [exists m|exists x]; rewrite elem_of_cons; naive_solver|].
        intros (x & [->|Hx]%elem_of_cons & H1 & H2 & H3); [left|right; eauto]. destruct c. simpl in *. congruence.
    + destruct (g =? "")%string; simpl; [by apply sublist_cons|by apply sublist_skip].
Qed.

Lemma peers_spec name members m : (∀ x, x ∈ members → m_name x ≠ "") → m ∈ peers name members ↔ m ∈ members ∧ m_name m ≠ name.
Proof.
  intros Hn. unfold peers. rewrite elem_of_filter_bool, andb_true_iff, !negb_true_iff, !String.eqb_neq. naive_solver.
Qed.

Lemma candidates_spec name local_gtid members : readable members → up_to_date name local_gtid members →
  ∃ l, _mgr_gtid_candidates name local_gtid members = Ok l ∧ (∀ c, c ∈ l ↔ all_published members c) ∧ NoDup l.*1.
Proof.
  intros [Hnd Hms] (me & Hme & Hname & Hgtid).
  destruct (published_spec (peers name members)) as (rest & Hrest & Hc & Hs).
  { intros m Hm. apply (peers_spec name) in Hm as [Hm _]; [|intros; by apply Hms]. by apply Hms. }
  pose proof (member_gtid_collapsed _ _ Hgtid) as Hcol.
  unfold _mgr_gtid_candidates. rewrite Hrest, Hcol. cbn. eexists; split; [done|].
  assert (NoDup (m_name <$> peers name members)) as Hndp.
  { unfold peers. clear -Hnd. induction members as [|m ms IH]; [constructor|]. apply NoDup_cons in Hnd as [Hm Hnd]. simpl.
    destruct (_ && _); [|by apply IH]. apply NoDup_cons. split; [|by apply IH]. intros Hin. apply Hm.
    apply list_elem_of_fmap in Hin as (x & -> & Hx). apply elem_of_filter_bool in Hx as [Hx _]. by apply list_elem_of_fmap_2. }
  assert (∀ c, all_published members c ↔ (c.1 = name ∧ c.2 = local_gtid ∧ c.2 ≠ "") ∨ all_published (peers name members) c) as Hall.
  { intros c. unfold all_published. setoid_rewrite (peers_spec name members); [|intros; by apply Hms]. split.
    - intros (m & Hm & H1 & H2 & H3). destruct (decide (m_name m = name)) as [He|He]; [left|right; naive_solver].
      assert (m = me) as ->; [|naive_solver congruence]. clear -Hnd Hm Hme He Hname.
      apply list_elem_of_lookup in Hm as [i Hi], Hme as [j Hj].
      assert (i = j) as ->; [|congruence]. eapply NoDup_lookup; [exact Hnd|..]; rewrite list_lookup_fmap.
      + rewrite Hi. simpl. by rewrite He.
      + rewrite Hj. simpl. by rewrite Hname.
    - intros [(H1 & H2 & H3)|(m & [Hm _] & H)]; [exists me|exists m]; naive_solver congruence. }
  split.
  - intros c. rewrite Hall, <-Hc. destruct (String.eqb_spec local_gtid "") as [->|Hne]; [naive_solver congruence|].
    rewrite elem_of_cons. destruct c as [n g]. simpl. naive_solver congruence.
  - destruct (local_gtid =? "")%string; [by eapply sublist_NoDup|]. apply NoDup_cons. split; [|by eapply sublist_NoDup].
    simpl. intros Hin. apply list_elem_of_fmap in Hin as (c & He & Hin). apply Hc in Hin as (m & Hm & H1 & _).
    apply peers_spec in Hm as [_ Hm]; [congruence|intros; by apply Hms].
Qed.

Lemma describe_exact cfg local_gtid members l s :
  _mgr_gtid_candidates (my_name cfg) local_gtid members = Ok l → NoDup l.*1 →
  ∃ fork, (describe_mgr_gtid_fork (W := W) cfg local_gtid members s).1 = Ok fork ∧
    (fork ≠ [] ↔ l ≠ [] ∧ elect sub l = None).
Proof.
  intros Hl Hnd.
  pose proof (candidates_proper _ _ _ _ Hl) as Hp. rewrite <-(decide_elect l s Hp Hnd).
  unfold describe_mgr_gtid_fork. rewrite Hl. unfold ret_exc, lift_exc, mbind, myM_bind, eff_bind.
  destruct l as [|c [|c' l]]; [exists []; split; [done|]; split; [done|by intros [? _]]| |].
  - exists []. split; [done|]. split; [done|]. unfold maximal. cbn [List.filter existsb]. unfold beaten.
    rewrite String.eqb_refl. by intros [_ ?].
  - cbn [length Nat.ltb Nat.leb]. unfold _mgr_maximal_candidates. destruct (maximal_of_exact _ _ s Hp Hp) as (s1 & ->).
    fold (maximal (c :: c' :: l)). destruct (maximal (c :: c' :: l)) as [|base rest] eqn:Hm.
    { exfalso. destruct (maximal_covers (c :: c' :: l) s Hp c) as (d & Hd & _); [left|]. rewrite Hm in Hd. by apply elem_of_nil in Hd. }
    assert (proper (base :: rest)) as Hpm.
    { apply Forall_forall. intros x Hx. rewrite <-Hm in Hx. apply (elem_of_maximal _ _ Hnd) in Hx as [Hx _].
      by apply (proj1 (Forall_forall _ _) Hp). }
    apply Forall_cons in Hpm as [Hb Hr]. cbn [decide_winner]. destruct rest as [|x rest];
      [exists []; split; [done|]; split; [done|by intros [_ ?]]|].
    destruct (all_equal_exact base (x :: rest) s1 Hb Hr) as (s2 & ->). destruct (forallb _ _).
    + exists []. split; [done|]. split; [done|by intros [_ ?]].
    + by exists (base :: x :: rest).
Qed.

(** A fork is reported exactly when there are sets and none of them contains all the others; the
    election then has no winner, and otherwise it has one. *)
Theorem fork_iff_no_winner cfg local_gtid members l s s' :
  _mgr_gtid_candidates (my_name cfg) local_gtid members = Ok l → NoDup l.*1 →
  ∃ fork, (describe_mgr_gtid_fork (W := W) cfg local_gtid members s).1 = Ok fork ∧
    (fork ≠ [] ↔ l ≠ [] ∧ ∀ c, c ∈ l → ∃ d, d ∈ l ∧ sub d.2 c.2 = false) ∧
    (fork ≠ [] ↔ l ≠ [] ∧ (select_mgr_bootstrap_winner (W := W) cfg local_gtid members s').1 = Ok None).
Proof.
  intros Hl Hnd. rewrite (select_exact _ _ _ _ s' Hl Hnd).
  destruct (describe_exact cfg local_gtid members l s Hl Hnd) as (fork & Hf & Hi).
  exists fork. rewrite <-(elect_None sub l). split; [done|]. split; [done|]. rewrite Hi.
  split; (intros [? H]; split; [done|congruence]).
Qed.
End exact.

Section agreement.
Context {W : Type} `{!Pymysql W, !Mysqld W} (sub : string → string → bool) `{!GtidServer W sub}.

(** C9: Two nodes with the same view of the members, each of which has published its own current set, never
    elect different members, even when comparisons fail at either of them; and when the server answers every
    statement of the election, both name the same winner - a holder of a set that contains all the others,
    the one with the smallest name - or both name none. *)
Theorem election_agreement cfg cfg' local_gtid local_gtid' members s s' :
  readable members →
  up_to_date (my_name cfg) local_gtid members → up_to_date (my_name cfg') local_gtid' members →
  (∀ w w' s1 s1', select_mgr_bootstrap_winner (W := W) cfg local_gtid members s = (Ok (Some w), s1) →
    select_mgr_bootstrap_winner (W := W) cfg' local_gtid' members s' = (Ok (Some w'), s1') → w = w') ∧
  (Responsive W →
    (select_mgr_bootstrap_winner (W := W) cfg local_gtid members s).1 =
    (select_mgr_bootstrap_winner (W := W) cfg' local_gtid' members s').1).
Proof.
  intros Hr Hu Hu'.
  destruct (candidates_spec _ _ _ Hr Hu) as (l & Hl & Hc & Hnd).
  destruct (candidates_spec _ _ _ Hr Hu') as (l' & Hl' & Hc' & Hnd').
  assert (elect sub l = elect sub l') as He by (apply elect_set; intros c; by rewrite Hc, Hc'). split.
  - intros w w' s1 s1' Hw%(select_sound sub _ _ _ _ _ _ _ Hl) Hw'%(select_sound sub _ _ _ _ _ _ _ Hl'). congruence.
  - intros HR. by rewrite (select_exact sub _ _ _ _ s Hl Hnd), (select_exact sub _ _ _ _ s' Hl' Hnd'), He.
Qed.

End agreement.

(** ** Three nodes *)

Definition three_members : list Member := [member_with "n0" "a,b"; member_with "n2" "a,b,c"; member_with "n1" "a,b,c"].

Lemma three_readable : readable three_members.
Proof.
  split; [by apply (bool_decide_eq_true_1 (NoDup _)); vm_compute|].
  assert (Forall (λ m, m_name m ≠ "" ∧ is_Some (match _member_gtid m with Ok g => Some g | Raise _ => None end)) three_members) as H.
  { repeat (constructor; [split; [done|eexists; vm_compute; reflexivity]|]). constructor. }
  intros m Hm. destruct (proj1 (Forall_forall _ _) H m Hm) as [Hn [g Hg]]. split; [done|].
  exists g. by destruct (_member_gtid m); simplify_eq.
Qed.

Lemma election_agreement_witness :
  (select_mgr_bootstrap_winner (group_config "n0") "a,b" three_members (mysql_init, server_with "a,b")).1 =
  (select_mgr_bootstrap_winner (group_config "n2") "a,b,c" three_members (mysql_init, server_with "a,b,c")).1 ∧
  (select_mgr_bootstrap_winner (group_config "n0") "a,b" three_members (mysql_init, server_with "a,b")).1 = Ok (Some "n1").
Proof.
  split; [|vm_compute; reflexivity].
  apply (election_agreement tx_subset); [exact three_readable|..|exact script_responsive].
  - exists (member_with "n0" "a,b"). split; [left|]. split; reflexivity.
  - exists (member_with "n2" "a,b,c"). split; [right; left|]. split; reflexivity.
Defined.

Lemma fork_iff_no_winner_witness :
  ∃ fork, (describe_mgr_gtid_fork (group_config "n0") "a,b" [member_with "n1" "a,c"] (mysql_init, server_with "a,b")).1 = Ok fork ∧
    fork ≠ [].
Proof.
  destruct (fork_iff_no_winner tx_subset (group_config "n0") "a,b" [member_with "n1" "a,c"] [("n0", "a,b"); ("n1", "a,c")]
              (mysql_init, server_with "a,b") (mysql_init, server_with "a,b")) as (fork & Hf & _ & Hw).
  - reflexivity.
  - by apply (bool_decide_eq_true_1 (NoDup _)); vm_compute.
  - exists fork. split; [exact Hf|]. apply Hw. split; [done|vm_compute; reflexivity].
Defined.
