(* ===== verification/MySQLProps.v ===== *)
(** * Properties of the MySQL handler

    How many replicas acknowledge a commit, and what the handler reports when a statement or
    the shutdown of mysqld fails. *)
From S2P Require Import Prelude Lexing PyDict PyVal Effects Utils DcsData MySQLConn MySQL Mgr MySQLTrace MgrElect MgrProps MgrAgree.

Open Scope string_scope.
Open Scope Z_scope.

(** ** The number of acknowledgements *)

(** More than half of the nodes *)
Definition majority (n k : Z) : Prop := n < 2 * k.

(** The source and the replicas it waits for before a commit are a majority of the nodes exactly when
    their number is odd or at most two; the source with the replicas the safety check asks for
    always is one, and no smaller number would do. *)
Theorem semi_sync_majority n : 1 ≤ n →
  (majority n (1 + semi_sync_wait_count n) ↔ Z.odd n = true ∨ n = 2) ∧
  majority n (1 + safety_quorum n) ∧ ¬ majority n (safety_quorum n) ∧
  (Z.odd n = true → 3 ≤ n → semi_sync_wait_count n = safety_quorum n).
Proof.
  intros Hn. unfold majority, semi_sync_wait_count, safety_quorum.
  assert (n = 2 * (n / 2) + n mod 2) as Hdm by (apply Z.div_mod; lia).
  assert (n - 1 = 2 * ((n - 1) / 2) + (n - 1) mod 2) as Hdm' by (apply Z.div_mod; lia).
  pose proof (Z.mod_pos_bound n 2 ltac:(lia)). pose proof (Z.mod_pos_bound (n - 1) 2 ltac:(lia)).
  assert (Z.odd n = true ↔ n mod 2 = 1) as Hodd.
  { rewrite Zmod_odd. by destruct (Z.odd n). }
  rewrite Hodd. clear Hodd. revert Hdm Hdm' H H0. generalize (n / 2) ((n - 1) / 2) (n mod 2) ((n - 1) mod 2).
  intros k k' r r' H1 H2 H3 H4. split; [split; intros; lia|]. split; [lia|]. split; [lia|intros; lia].
Qed.

(** Four nodes: a commit returns when two of them have it. *)
Lemma semi_sync_majority_witness : ¬ majority 4 (1 + semi_sync_wait_count 4).
Proof.
  destruct (semi_sync_majority 4 ltac:(lia)) as ([H _] & _). intros Hm. destruct (H Hm); [discriminate|lia].
Defined.

(** ** Statements that fail *)

(** The server refuses a statement, whatever its parameters. *)
Definition refuses `{!Pymysql W} (q : string) : Prop := ∀ ps w, ∃ w', my_execute q ps w = (MyError true false, w').

(** The last successful setting of the bootstrap flag *)
Fixpoint last_flag (l : trace) : option bool :=
  match l with
  | [] => None
  | (q, ok) :: l =>
      if (q =? BOOTSTRAP_ON)%string && ok then Some true
      else if (q =? BOOTSTRAP_OFF)%string && ok then Some false
      else last_flag l
  end.

Definition no_flag (q : string) : Prop := existsb (String.eqb q) [BOOTSTRAP_ON; BOOTSTRAP_OFF] = false.

Lemma last_flag_extend l l' : extends no_flag l l' → last_flag l' = last_flag l.
Proof.
  intros (new & -> & Hnew). induction Hnew as [|[q ok] new Hq Hnew IH]; [done|]. unfold no_flag in Hq. simpl in *.
  apply orb_false_iff in Hq as [-> Hq]. apply orb_false_iff in Hq as [-> _]. done.
Qed.

Section failures.
Context {W : Type} `{!Pymysql W, !Mysqld W, !Responsive W} (cfg : MyConfig).

(** A statement the server refuses is executed twice and raises [PostgresConnectionException]. *)
Lemma attempt_refused q ps (s : Pool * W) : refuses (W := W) q → ∃ s', attempt (W := W) q ps s = (Raise PostgresConnectionException, s').
Proof.
  intros Hq. unfold attempt, mbind, connM_bind, eff_bind. destruct (conn_get_answers s) as (s1 & ->).
  unfold conn_query. destruct (conn_get_answers s1) as ([p w] & ->). unfold run_statement. cbn [snd fst].
  destruct (Hq ps w) as (w' & ->). cbn. eauto.
Qed.

Lemma query_refused q ps (s : Pool * W) : refuses (W := W) q → ∃ s', _query (W := W) q ps s = (Raise PostgresConnectionException, s').
Proof.
  intros Hq. unfold _query, closing, last_attempt. destruct (attempt_refused q ps s Hq) as (s1 & ->). cbn [is_transient].
  destruct (attempt_refused q ps (pool_close s1).2 Hq) as (s2 & ->). cbn [is_transient]. eauto.
Qed.

Lemma sql_refused q (s : MySQL * W) : refuses (W := W) q → ∃ s', sql q s = (Raise PostgresConnectionException, s').
Proof.
  intros Hq. unfold sql, conn, exec, mbind, connM_bind, eff_bind. destruct (query_refused q [] (pool s.1, s.2) Hq) as ([p w] & ->).
  eauto.
Qed.

(** A statement the server executes *)
Definition accepts (q : string) : Prop := ∀ ps w, ∃ rows w', my_execute (W := W) q ps w = (Rows rows, w').

Lemma sql_accepted q (s : MySQL * W) : accepts q → ∃ s' l, sql q s = (Ok (), s') ∧ log_of s' = (q, true) :: l.
Proof.
  intros Hq. assert (∃ s', sql q s = (Ok (), s')) as (s' & Hs); [|exists s'; destruct (sql_done _ _ _ Hs) as (l & Hl); eauto].
  unfold sql, conn, exec, _query, closing, attempt, mbind, connM_bind, eff_bind.
  destruct (conn_get_answers (pool s.1, s.2)) as (s1 & ->). unfold conn_query.
  destruct (conn_get_answers s1) as ([p w] & ->). unfold run_statement. cbn [snd fst].
  destruct (Hq [] w) as (rows & w' & ->). cbn. eauto.
Qed.

(** [m] with its exceptions caught raises only what is no [Exception]. *)
Lemma try_raises (m h : myM (W := W) unit) s e s' :
  try_ m h s = (Raise e, s') → (∀ s, ∃ s', h s = (Ok (), s')) → is_exception e = false.
Proof.
  unfold try_, try_except. destruct (m s) as [[[]|e'] s1]; [by intros [=]|].
  destruct (is_exception e') eqn:E; [|by intros [= <- _]]. intros H Hh. destruct (Hh s1) as (s2 & Hs). by rewrite Hs in H.
Qed.

Lemma ret_done (s : MySQL * W) : ∃ s', (mret () : myM (W := W) unit) s = (Ok (), s').
Proof. by eexists. Qed.

(** When the server refuses START GROUP_REPLICATION - also because the statement is tried again after
    a lost connection - bootstrap_mgr_group reports a failure and leaves
    group_replication_bootstrap_group on. *)
Theorem failed_bootstrap_leaves_flag s r s' :
  accepts BOOTSTRAP_ON → refuses (W := W) START_GR →
  bootstrap_mgr_group (W := W) cfg s = (Ok r, s') → r = false ∧ last_flag (log_of s') = Some true.
Proof.
  intros Hon Hstart. unfold bootstrap_mgr_group. unfold try_ at 1, try_except, mbind, myM_bind, eff_bind.
  destruct (sql_quietly STOP_GR s) as [[[]|e] s1] eqn:E1.
  2: { apply try_raises in E1; [|apply ret_done]. rewrite E1. by intros [=]. }
  destruct (try_ (set_channel cfg) (mret ()) s1) as [[[]|e] s2] eqn:E2.
  2: { apply try_raises in E2; [|apply ret_done]. rewrite E2. by intros [=]. }
  destruct (sql_accepted BOOTSTRAP_ON s2 Hon) as (s3 & l & -> & Hl).
  destruct (sql_refused START_GR s3 Hstart) as (s4 & E4). rewrite E4. cbn [is_exception].
  intros [= <- <-]. split; [done|]. rewrite (last_flag_extend (log_of s3)); [by rewrite Hl|].
  assert (runs no_flag (sql (W := W) START_GR;; close_pool)) as Hr.
  { apply runs_bind; [apply runs_sql; [by repeat constructor|done]|intros _; apply runs_close_pool]. }
  assert (extends no_flag (log_of s3) (log_of (sql (W := W) START_GR s3).2)) as H3
    by (apply runs_sql; [by repeat constructor|done]). rewrite E4 in H3.
  etransitivity; [exact H3|]. apply (runs_close_pool no_flag s4).
Qed.

Lemma query_one_refused q s : refuses (W := W) q → ∃ s', query_one q [] s = (Raise PostgresConnectionException, s') ∧ my_role s'.1 = my_role s.1.
Proof.
  intros Hq. unfold query_one, conn, _query_one, mbind, connM_bind, eff_bind.
  destruct (query_refused q [] (pool s.1, s.2) Hq) as ([p w] & ->). eauto.
Qed.

(** Promote reports a success without doing anything when the state of replication cannot be read, and
    when the server refuses to stop replication it raises instead of reporting the failure: the
    error it catches is not the one a query raises. *)
Theorem promote_hides_failures s :
  (refuses (W := W) "SHOW SLAVE STATUS" →
    ∃ s', my_role s'.1 = my_role s.1 ∧ ∀ ensure complete, promote (W := W) cfg ensure (mret ()) complete s = (Ok true, s')) ∧
  ((∀ w, ∃ r rows w', my_execute "SHOW SLAVE STATUS" [] w = (Rows (r :: rows), w')) → refuses (W := W) "STOP SLAVE" →
    ∃ s', ∀ ensure complete, promote (W := W) cfg ensure (mret ()) complete s = (Raise PostgresConnectionException, s')).
Proof.
  split.
  - intros Hq. destruct (query_one_refused _ s Hq) as (s1 & E1 & Hrole). exists s1. split; [done|]. intros ensure complete.
    unfold promote, _is_replica, try_, try_except, mbind, myM_bind, eff_bind. cbn [mret myM_ret eff_ret]. by rewrite E1.
  - intros Hrow Hstop.
    assert (∃ s1, _is_replica s = (Ok true, s1)) as (s1 & E1).
    { unfold _is_replica, try_, try_except, query_one, conn, _query_one, _query, closing, attempt, mbind, connM_bind, myM_bind, eff_bind.
      destruct (conn_get_answers (pool s.1, s.2)) as (s1 & ->). unfold conn_query.
      destruct (conn_get_answers s1) as ([p w] & ->). unfold run_statement. cbn [snd fst].
      destruct (Hrow w) as (r & rows & w' & ->). cbn. eauto. }
    destruct (sql_refused "STOP SLAVE" s1 Hstop) as (s2 & E2). exists s2. intros ensure complete.
    unfold promote, try_except, mbind, myM_bind, eff_bind. cbn [mret myM_ret eff_ret]. rewrite E1. cbn [negb]. by rewrite E2.
Qed.

(** Stop reports that mysqld is stopped, forgets its process and removes its pid file as soon as
    mysqladmin has returned, whatever it has returned: it does not look whether the process is
    still there. *)
Theorem stop_unchecked mode s s1 w2 :
  is_running s = (Ok true, s1) → os_mysqladmin_shutdown s1.2 = (Ok (), w2) →
  ∃ s', stop mode s = (Ok true, s') ∧ my_state s'.1 = STOPPED ∧ has_process s'.1 = false ∧ s'.2 = os_remove_pidfile w2.
Proof.
  intros Hr Hw. unfold stop, mbind, myM_bind, eff_bind. rewrite Hr. cbn [negb]. unfold try_, try_except, os. rewrite Hw.
  eexists. split; [reflexivity|]. split_and!; reflexivity.
Qed.
End failures.

(** ** A server that refuses one statement *)

Definition picky (q : string) : Type := server.

Definition picky_execute (refused q : string) (ps : list pyval) (w : server) : my_result (list row) * server :=
  if (q =? refused)%string then (MyError true false, w) else (Rows (server_rows q ps w), w).

#[export] Instance picky_pymysql refused : Pymysql (picky refused) := {
  my_connect w := (Rows (), w); my_ping w := (Rows (), w);
  my_execute := picky_execute refused;
  my_execute_dict q ps w := (Rows (sv_row w q), w);
  my_time := sv_clock; my_sleep n w := set_clock (sv_clock w + n) w;
  my_alive := sv_alive; my_from_pidfile w := None;
}.

#[export] Instance picky_mysqld refused : Mysqld (picky refused) := script_mysqld.

Lemma picky_responsive refused : existsb (String.eqb refused) essential = false → Responsive (picky refused).
Proof.
  intros Hr. assert (∀ q, existsb (String.eqb q) essential = true → (q =? refused)%string = false) as Hq.
  { intros q Hq. apply String.eqb_neq. intros ->. congruence. }
  split; [by eexists|by eexists| |].
  - intros q ps w Hin. cbn. unfold picky_execute. rewrite Hq; [by eexists _, _|].
    rewrite !elem_of_cons in Hin. by destruct Hin as [->|[->|[->|?%elem_of_nil]]].
  - intros w. cbn. unfold picky_execute. rewrite Hq by done. eexists _, [], _. reflexivity.
Qed.

Lemma picky_refuses refused : refuses (W := picky refused) refused.
Proof. intros ps w. exists w. cbn. unfold picky_execute. by rewrite String.eqb_refl. Qed.

Definition replica_server : server := MkServer "a,b" true None None (λ _, false) (λ _, None) true 0.

Lemma failed_bootstrap_leaves_flag_witness :
  last_flag (log_of (bootstrap_mgr_group (W := picky START_GR) (group_config "n1") (mysql_init, replica_server)).2) = Some true.
Proof.
  assert (Responsive (picky START_GR)) by (by apply picky_responsive).
  apply (failed_bootstrap_leaves_flag (W := picky START_GR) (group_config "n1") (mysql_init, replica_server)
           false (bootstrap_mgr_group (W := picky START_GR) (group_config "n1") (mysql_init, replica_server)).2).
  - intros ps w. by eexists [], w.
  - apply picky_refuses.
  - vm_compute. reflexivity.
Defined.

Lemma promote_hides_failures_witness :
  (∃ s', my_role s'.1 = UNINITIALIZED ∧ ∀ ensure complete,
    promote (W := picky "SHOW SLAVE STATUS") (group_config "n1") ensure (mret ()) complete (mysql_init, replica_server) = (Ok true, s')).
Proof.
  assert (Responsive (picky "SHOW SLAVE STATUS")) by (by apply picky_responsive).
  apply (promote_hides_failures (W := picky "SHOW SLAVE STATUS") (group_config "n1") (mysql_init, replica_server)), picky_refuses.
Defined.

(** mysqladmin has not stopped mysqld. *)
Lemma stop_unchecked_witness :
  ∃ s', stop "fast" (put_process true mysql_init, replica_server) = (Ok true, s') ∧ my_state s'.1 = STOPPED ∧
    has_process s'.1 = false ∧ s'.2 = replica_server ∧ my_alive s'.2 = true.
Proof.
  destruct (stop_unchecked "fast" (put_process true mysql_init, replica_server) (put_process true mysql_init, replica_server) replica_server)
    as (s' & Hs & Hst & Hp & Hw); [reflexivity|reflexivity|].
  exists s'. cbn in Hw. split_and!; [exact Hs|exact Hst|exact Hp|exact Hw|]. rewrite Hw. reflexivity.
Defined.

(** * The waits of the MySQL handler end

    The loops that wait for a condition have a deadline and a pause.  When the clock is not
    turned back and a pause is as long as it says, the fuel of [poll_until] is enough. *)

(** [time.time()] during the calls of the driver, and [time.sleep] *)
Class Clock (W : Type) `{!Pymysql W, !Mysqld W} : Prop := {
  connect_time w : my_time w ≤ my_time (my_connect w).2;
  ping_time w : my_time w ≤ my_time (my_ping w).2;
  execute_time q ps w : my_time w ≤ my_time (my_execute q ps w).2;
  dict_time q ps w : my_time w ≤ my_time (my_execute_dict q ps w).2;
  connects_time w : my_time w ≤ my_time (os_connects w).2;
  sleep_time n w : my_time w + n ≤ my_time (my_sleep n w);
}.

Section time.
Context {W : Type} `{!Pymysql W, !Mysqld W}.

(** ** Computations that do not turn the clock back *)

Definition onward {S A} (time : S → Z) (m : eff S A) : Prop := ∀ s, time s ≤ time (m s).2.

Lemma onward_bind {S A B} time (m : eff S A) (f : A → eff S B) :
  onward time m → (∀ a, onward time (f a)) → onward time (eff_bind S A B f m).
Proof.
  intros Hm Hf s. unfold eff_bind. specialize (Hm s). destruct (m s) as [[a|e] s']; [|done].
  etransitivity; [exact Hm|apply Hf].
Qed.

Lemma onward_ret {S A} time (a : A) : onward time (eff_ret S A a).
Proof. intros s. reflexivity. Qed.

Lemma onward_lift {S A} time (r : exc A) : onward (S := S) time (lift_exc r).
Proof. intros s. reflexivity. Qed.

Lemma onward_try {S A} time p (m h : eff S A) : onward time m → onward time h → onward time (try_except p m h).
Proof.
  intros Hm Hh s. unfold try_except. specialize (Hm s). destruct (m s) as [[a|e] s']; [done|].
  destruct (p e); [|done]. etransitivity; [exact Hm|apply Hh].
Qed.

Definition pool_time (s : Pool * W) : Z := my_time s.2.
Definition sql_time (s : MySQL * W) : Z := my_time s.2.

Lemma onward_update (f : Pool → Pool) : onward pool_time (update f).
Proof. intros s. reflexivity. Qed.

Lemma onward_driver {A} (op : W → my_result A * W) : (∀ w, my_time w ≤ my_time (op w).2) → onward pool_time (driver op).
Proof. intros H s. unfold driver, pool_time. specialize (H s.2). by destruct (op s.2). Qed.

Lemma onward_conn {A} (m : connM (W := W) A) : onward pool_time m → onward sql_time (conn m).
Proof.
  intros H s. unfold conn. specialize (H (pool s.1, s.2)). by destruct (m (pool s.1, s.2)) as [r [p w]].
Qed.

Context `{!Clock W}.

Lemma onward_execute q ps : onward pool_time (execute q ps).
Proof.
  intros s. unfold execute, run_statement, pool_time. pose proof (execute_time q ps s.2). by destruct (my_execute q ps s.2).
Qed.

Ltac onward :=
  repeat lazymatch goal with
  | |- onward _ (mbind _ _) => apply onward_bind; [|let a := fresh in intros a; cbn beta iota]
  | |- onward _ (mret _) => apply onward_ret
  | |- onward _ (lift_exc _) => apply onward_lift
  | |- onward _ (update _) => apply onward_update
  | |- onward _ (execute _ _) => apply onward_execute
  | |- onward _ (try_except _ _ _) => apply onward_try
  | |- onward _ (driver _) => apply onward_driver; first [apply connect_time | apply ping_time | apply dict_time]
  | |- onward _ (match ?x with _ => _ end) => destruct x
  end.

Lemma onward_conn_get : onward pool_time (conn_get (W := W)).
Proof.
  unfold conn_get. change (onward pool_time (eff_bind (Pool * W) Pool unit (λ p,
    if negb (connected p) then conn_establish (W := W)
    else try_except (λ e, is_my_error e || is_attribute_error e) (driver my_ping) conn_reestablish) pool_)).
  apply onward_bind; [intros s; reflexivity|intros p]. unfold conn_establish, conn_reestablish, conn_query_one, session_setup.
  destruct (negb _); onward.
Qed.

Lemma onward_joined : onward sql_time (joined (W := W)).
Proof.
  apply onward_bind; [|intros st; apply onward_ret]. apply onward_try; [|apply onward_ret]. apply onward_bind.
  - apply onward_conn. unfold _query_one_dict, conn_query_one_dict.
    apply onward_bind; [apply onward_conn_get|intros _]. apply onward_try; [|apply onward_ret].
    apply onward_bind; [apply onward_conn_get|intros _]. apply onward_driver, dict_time.
  - intros [[|kv r]|]; apply onward_ret.
Qed.

Lemma onward_connects : onward sql_time (MySQL.connects (W := W)).
Proof. intros s. unfold MySQL.connects, sql_time. pose proof (connects_time s.2). by destruct (os_connects s.2). Qed.

(** ** The loop *)

Lemma poll_ends check pause fuel deadline s : 0 < pause → onward sql_time check →
  deadline - sql_time s ≤ Z.of_nat fuel * pause → (poll (W := W) (S fuel) deadline pause check s).1 ≠ Ok None.
Proof.
  intros Hp Hc. revert s. induction fuel as [|fuel IH]; intros s Hd; cbn [poll];
    unfold mbind, myM_bind, eff_bind at 1; cbn [attr gets]; fold (sql_time s); destruct (Z.leb_spec deadline (sql_time s)); try done.
  { lia. }
  unfold eff_bind at 1. pose proof (Hc s) as Ht. destruct (check s) as [[[|]|e] s1]; [done| |done].
  cbn [snd] in Ht. apply IH. unfold sql_time in *. cbn [snd].
  pose proof (sleep_time pause s1.2). lia.
Qed.

Definition poll_fuel (deadline pause now : Z) : nat := S (Z.to_nat ((deadline - now + pause - 1) / pause)).

Lemma poll_fuel_enough check deadline pause s : 0 < pause → onward sql_time check →
  (poll (W := W) (poll_fuel deadline pause (sql_time s)) deadline pause check s).1 ≠ Ok None.
Proof.
  intros Hp Hc. apply poll_ends; [done..|]. unfold poll_fuel. set (d := deadline - sql_time s).
  replace (deadline - sql_time s + pause - 1) with (d + pause - 1) by lia.
  pose proof (Z.div_mod (d + pause - 1) pause ltac:(lia)) as Hdm. pose proof (Z.mod_pos_bound (d + pause - 1) pause Hp) as Hb.
  assert ((d + pause - 1) / pause ≤ Z.of_nat (Z.to_nat ((d + pause - 1) / pause))) by lia. nia.
Qed.

(** The wait for the group and the wait for mysqld end: the loops have given their answer when
    the fuel of [poll_until] is used up, for any deadline. *)
Theorem waits_end deadline s :
  (poll (W := W) (poll_fuel deadline 1000 (sql_time s)) deadline 1000 joined s).1 ≠ Ok None ∧
  (poll (W := W) (poll_fuel deadline 500 (sql_time s)) deadline 500 MySQL.connects s).1 ≠ Ok None.
Proof. split; apply poll_fuel_enough; [lia|apply onward_joined|lia|apply onward_connects]. Qed.
End time.

#[export] Instance script_clock : Clock server.
Proof.
  split; try (intros; cbn; lia).
  intros q ps w. cbn. destruct (_ && _); [reflexivity|]. by destruct (q =? START_GR)%string.
Qed.

(** A server that never gets into the group *)
Lemma waits_end_witness :
  (poll (poll_fuel 5000 1000 0) 5000 1000 joined (mysql_init, server_with "a")).1 ≠ Ok None ∧
  (poll (poll_fuel 5000 1000 0) 5000 1000 joined (mysql_init, server_with "a")).1 = Ok (Some false).
Proof. split; [exact (proj1 (waits_end 5000 (mysql_init, server_with "a")))|vm_compute; reflexivity]. Defined.
