(* ===== verification/MysqlVersion.v ===== *)
(** * MySQL versions and their parameters ([patroni/mysql/versioning.py])

    Which names a version of mysqld uses, and the parameters that are written for it.  A
    [MysqlVersion] is modelled without the text it was read from. *)
From S2P Require Import Prelude Lexing PyDict PyVal Utils MySQLConn MySQL.

Open Scope string_scope.
Open Scope Z_scope.

Record MysqlVersion := MkVersion { major : Z; minor : Z; patch : Z }.
#[export] Instance MysqlVersion_eq_dec : EqDecision MysqlVersion.
Proof. solve_decision. Defined.

Implicit Types (v : MysqlVersion).

(** ** Predicates *)

Definition family v : string :=
  if (major v =? 5) && (minor v =? 6) then "5.6"
  else if (major v =? 5) && (7 <=? minor v) then "5.7"
  else if (major v =? 8) && (minor v =? 0) then "8.0"
  else if major v =? 8 then "8"
  else if 9 <=? major v then "9"
  else if major v =? 5 then "5.7"
  else "8.0".

Definition uses_source_replica_names v : bool :=
  if 8 <? major v then true
  else if (major v =? 8) && (0 <? minor v) then true
  else if (major v =? 8) && (minor v =? 0) && (26 <=? patch v) then true
  else false.

Definition uses_innodb_redo_log_capacity v : bool :=
  if 8 <? major v then true
  else if (major v =? 8) && (0 <? minor v) then true
  else if (major v =? 8) && (minor v =? 0) && (30 <=? patch v) then true
  else false.

Definition uses_binlog_expire_seconds v : bool :=
  if 9 <=? major v then true
  else if (major v =? 8) && (0 <? minor v) then true
  else if (major v =? 8) && (minor v =? 0) && (3 <=? patch v) then true
  else false.

Definition has_query_cache v : bool := major v <? 8.
Definition has_mysqlx v : bool := 8 <=? major v.

(** 5.7 and later, [has_after_sync_wait_point] *)
Definition has_after_sync_wait_point v : bool :=
  if 5 <? major v then true else if (major v =? 5) && (7 <=? minor v) then true else false.
Definition has_wait_for_replica_count v : bool :=
  if 5 <? major v then true else if (major v =? 5) && (7 <=? minor v) then true else false.
Definition has_slave_parallel_logical_clock v : bool :=
  if 5 <? major v then true else if (major v =? 5) && (7 <=? minor v) then true else false.

Definition has_mgr v : bool :=
  if 8 <=? major v then true else if (major v =? 5) && (7 <=? minor v) then true else false.

Definition default_collation v : string := if 8 <=? major v then "utf8mb4_0900_ai_ci" else "utf8mb4_general_ci".

(** [str(v)] *)
Definition version_str v : string := pretty (major v) +:+ "." +:+ pretty (minor v) +:+ "." +:+ pretty (patch v).

(** ** Parsing: the first [X.Y.Z] of the text *)

(** Some digits *)
Definition digits (s : string) : option (string * string) :=
  let '(d, rest) := span is_digit s in if (d =? "")%string then None else Some (d, rest).

Definition dot (s : string) : option string := match s with String "." s => Some s | _ => None end.

(** The expression matches here: greedy digits, and no other split of them does when this one fails. *)
Definition version_here (s : string) : option MysqlVersion :=
  '(a, s) ← digits s; s ← dot s; '(b, s) ← digits s; s ← dot s; '(c, _) ← digits s;
  Some (MkVersion (digits_value 10 a) (digits_value 10 b) (digits_value 10 c)).

(** [_VERSION_RE.search(text)]; the optional [Ver] before the number does not change what is found. *)
Fixpoint search_version (s : string) : option MysqlVersion :=
  match version_here s with
  | Some v => Some v
  | None => match s with "" => None | String _ s => search_version s end
  end.

Definition parse_mysql_version (text : string) : exc MysqlVersion :=
  let text := Str.strip text in
  if (text =? "")%string then Raise ValueError else
  match search_version text with Some v => Ok v | None => Raise ValueError end.

(** The family shortcuts of [resolve_mysql_version] *)
Definition shortcuts : dict string :=
  [("5.6", "5.6.51"); ("5.7", "5.7.44"); ("8.0", "8.0.35"); ("8", "8.4.0"); ("8.x", "8.4.0"); ("9", "9.0.0"); ("9.x", "9.0.0")].

(** [resolve_mysql_version]; [detect] runs mysqld of a directory. *)
Definition resolve_mysql_version (detect : string → exc MysqlVersion) (explicit bin_dir dflt : string) : exc MysqlVersion :=
  if negb (explicit =? "")%string then
    let key := Str.lower (Str.strip explicit) in
    parse_mysql_version (default explicit (Dict.get key shortcuts))
  else if negb (bin_dir =? "")%string then detect bin_dir
  else match detect "" with
       | Raise e => if is_exception e then parse_mysql_version dflt else Raise e
       | Ok v => Ok v
       end.

(** ** Parameters *)

Definition semi_sync_plugin_names v : string * string :=
  if uses_source_replica_names v then ("semisync_source.so", "semisync_replica.so")
  else ("semisync_master.so", "semisync_slave.so").

Definition when_ {A} (b : bool) (l : list A) : list A := if b then l else [].

Definition apply_semi_sync_params v (nodes timeout_ms wait_count : Z) : dict string :=
  ("cluster_size", pretty nodes) ::
  (if uses_source_replica_names v then
     [("rpl_semi_sync_source_enabled", "OFF"); ("rpl_semi_sync_replica_enabled", "ON");
      ("rpl_semi_sync_source_timeout", pretty timeout_ms); ("rpl_semi_sync_source_wait_no_replica", "ON")]
     ++ when_ (has_after_sync_wait_point v) [("rpl_semi_sync_source_wait_point", "AFTER_SYNC")]
     ++ when_ (has_wait_for_replica_count v) [("rpl_semi_sync_source_wait_for_replica_count", pretty wait_count)]
   else
     [("rpl_semi_sync_master_enabled", "OFF"); ("rpl_semi_sync_slave_enabled", "ON");
      ("rpl_semi_sync_master_timeout", pretty timeout_ms); ("rpl_semi_sync_master_wait_no_slave", "ON")]
     ++ when_ (has_after_sync_wait_point v) [("rpl_semi_sync_master_wait_point", "AFTER_SYNC")]
     ++ when_ (has_wait_for_replica_count v) [("rpl_semi_sync_master_wait_for_slave_count", pretty wait_count)])%list.

(** What all versions get *)
Definition shared_parameters v : dict string :=
  [("gtid_mode", "ON"); ("enforce_gtid_consistency", "ON"); ("log-bin", "mysql-bin"); ("binlog_format", "ROW");
   ("sync_binlog", "1"); ("innodb_flush_log_at_trx_commit", "1"); ("innodb_flush_method", "O_DIRECT"); ("read_only", "ON");
   ("open_files_limit", "65536"); ("slow_query_log", "1"); ("long_query_time", "1"); ("tmp_table_size", "32M");
   ("max_heap_table_size", "32M"); ("thread_cache_size", "128"); ("table_open_cache", "2000");
   ("table_definition_cache", "2000"); ("max_allowed_packet", "4194304"); ("max_connect_errors", "655360");
   ("back_log", "2048"); ("key_buffer_size", "33554432"); ("max_binlog_size", "100M"); ("character_set_server", "utf8mb4");
   ("collation_server", default_collation v); ("skip_name_resolve", "ON"); ("log_bin_trust_function_creators", "1");
   ("sync_relay_log", "1000")].

(** The keys of replication: each is new in the dictionary. *)
Definition replica_parameters v : dict string :=
  (if uses_source_replica_names v then
     [("log_replica_updates", "ON"); ("skip_replica_start", "ON"); ("sync_source_info", "1000")]
     ++ when_ (has_slave_parallel_logical_clock v) [("replica_parallel_type", "LOGICAL_CLOCK"); ("replica_parallel_workers", "64")]
   else
     [("log_slave_updates", "ON"); ("skip_slave_start", "ON"); ("sync_master_info", "1000"); ("sync_relay_log_info", "1000")]
     ++ when_ ((major v <? 8) || ((major v =? 8) && (minor v =? 0) && (patch v <? 26)))
          [("master_info_repository", "TABLE"); ("relay_log_info_repository", "TABLE")]
     ++ (if has_slave_parallel_logical_clock v then [("slave_parallel_type", "LOGICAL_CLOCK"); ("slave_parallel_workers", "64")]
         else when_ (family v =? "5.6")%string [("slave_parallel_workers", "4")]))%list.

Definition build_base_parameters v : dict string :=
  (shared_parameters v ++ replica_parameters v
   ++ (if uses_binlog_expire_seconds v then [("binlog_expire_logs_seconds", "86400")] else [("expire_logs_days", "1")])
   ++ when_ (has_query_cache v) [("query_cache_type", "OFF"); ("query_cache_size", "0")]
   ++ when_ (has_mysqlx v) [("mysqlx", "OFF")])%list.

(** ** Memory ([initcmd.format_size_mysql], [initcmd.align_down], [apply_memory_params]) *)

Definition KiB : Z := 1024.
Definition MiB : Z := 1024 ^ 2.
Definition GiB : Z := 1024 ^ 3.

Definition format_size_mysql (n : Z) : string :=
  if (GiB <=? n) && (n mod GiB =? 0) then pretty (n / GiB) +:+ "G"
  else if (MiB <=? n) && (n mod MiB =? 0) then pretty (n / MiB) +:+ "M"
  else if (KiB <=? n) && (n mod KiB =? 0) then pretty (n / KiB) +:+ "K"
  else pretty n.

Definition align_down (value alignment : Z) : Z :=
  if value <? alignment then alignment else value - value mod alignment.

Definition pool_instances v (buffer_pool : Z) : Z :=
  let pool_gb := Z.max 1 (buffer_pool / GiB) in
  let instances := if pool_gb <? 8 then 2 else Z.min 8 pool_gb in
  if (family v =? "5.6")%string && (pool_gb <? 2) then 1 else instances.

Definition redo_size (buffer_pool : Z) : Z :=
  align_down (Z.max (256 * MiB) (Z.min (4 * GiB) (buffer_pool / 4))) (16 * MiB).
Definition log_file_size (redo : Z) : Z :=
  align_down (Z.max (128 * MiB) (Z.min (2 * GiB) (redo / 2))) (16 * MiB).

Definition apply_memory_params v (buffer_pool : Z) : dict string :=
  let redo := redo_size buffer_pool in
  ([("innodb_buffer_pool_size", format_size_mysql buffer_pool);
    ("innodb_buffer_pool_instances", pretty (pool_instances v buffer_pool))]
   ++ (if uses_innodb_redo_log_capacity v then [("innodb_redo_log_capacity", format_size_mysql redo)]
       else [("innodb_log_file_size", format_size_mysql (log_file_size redo)); ("innodb_log_files_in_group", "2")])
   ++ [("innodb_io_capacity", "2000"); ("innodb_io_capacity_max", "4000")]
   ++ when_ ((5 <=? major v) && negb ((major v =? 5) && (minor v <? 7)))
        [("innodb_read_io_threads", "4"); ("innodb_write_io_threads", "4")]
   ++ [("max_connections", if 8 * GiB <=? buffer_pool then "1000" else if 2 * GiB <=? buffer_pool then "500" else "200")])%list.

(** ** Group replication and the whole dictionary *)

Definition apply_mgr_params v (group_name local_host : string) (mysql_port : Z) (seeds : string) (nodes : Z) : exc (dict string) :=
  if negb (has_mgr v) then Raise ValueError else
  let mgr_port := mysql_port + 10 in
  Ok ([("group_replication_group_name", group_name); ("loose-group_replication_start_on_boot", "OFF");
       ("loose-group_replication_bootstrap_group", "OFF"); ("loose-group_replication_single_primary_mode", "ON");
       ("loose-group_replication_local_address", local_host +:+ ":" +:+ pretty mgr_port);
       ("loose-group_replication_group_seeds", seeds); ("loose-group_replication_ip_allowlist", "127.0.0.1/32,::1/128");
       ("loose-group_replication_recovery_use_ssl", "OFF"); ("binlog_checksum", "NONE"); ("cluster_size", pretty nodes)]
      ++ when_ (8 <=? major v) [("loose-binlog_transaction_dependency_tracking", "WRITESET")]
      ++ [("transaction_write_set_extraction", "XXHASH64")])%list.

Definition build_mysqld_parameters v (mode : string) (nodes buffer_pool timeout_infinite_ms timeout_two_node_ms : Z)
    (group_name local_host : string) (mysql_port : Z) (seeds : string) : exc (dict string) :=
  let params := Dict.update (build_base_parameters v) (apply_memory_params v buffer_pool) in
  if (mode =? "semi-sync")%string then
    let timeout := if 3 <=? nodes then timeout_infinite_ms else timeout_two_node_ms in
    let wait_count := Z.max 1 ((nodes - 1) / 2) in
    Ok (Dict.update params (apply_semi_sync_params v nodes timeout wait_count))
  else if (mode =? "mgr")%string then
    extra ← apply_mgr_params v group_name local_host mysql_port seeds nodes; Ok (Dict.update params extra)
  else Ok params.

Example version_examples :
  (parse_mysql_version "mysqld  Ver 8.0.35 for Linux on x86_64", parse_mysql_version "8.0", mysql_version_to_int "8.0.35-debug")
  = (Ok (MkVersion 8 0 35), Raise ValueError, 80035).
Proof. vm_compute. reflexivity. Qed.

(** * Properties of the version profiles

    The predicates are thresholds in the order of versions, versions are parsed back, and which
    profiles the handler recognises as semi-synchronous. *)

(** ** Thresholds *)

(** The order of versions *)
Definition version_le (t v : MysqlVersion) : Prop :=
  major t < major v ∨ (major t = major v ∧ (minor t < minor v ∨ (minor t = minor v ∧ patch t ≤ patch v))).

#[export] Instance version_le_trans : Transitive version_le.
Proof. intros [a b c] [a' b' c'] [a'' b'' c'']. unfold version_le. simpl. lia. Qed.

Ltac bool_lia := repeat match goal with
  | |- context [?a <? ?b] => destruct (Z.ltb_spec a b)
  | |- context [?a <=? ?b] => destruct (Z.leb_spec a b)
  | |- context [?a =? ?b] => destruct (Z.eqb_spec a b)
  end; simpl; first [split; [intros _; lia|done] | split; [done|intros; lia]].

Definition proper_version (v : MysqlVersion) : Prop := 0 ≤ major v ∧ 0 ≤ minor v ∧ 0 ≤ patch v.

(** Each predicate holds from one version on. *)
Theorem version_thresholds v : proper_version v →
  (uses_source_replica_names v = true ↔ version_le (MkVersion 8 0 26) v) ∧
  (uses_innodb_redo_log_capacity v = true ↔ version_le (MkVersion 8 0 30) v) ∧
  (uses_binlog_expire_seconds v = true ↔ version_le (MkVersion 8 0 3) v) ∧
  (has_mysqlx v = true ↔ version_le (MkVersion 8 0 0) v) ∧
  (has_query_cache v = false ↔ version_le (MkVersion 8 0 0) v) ∧
  (has_after_sync_wait_point v = true ↔ version_le (MkVersion 5 7 0) v).
Proof.
  destruct v as [a b c]. unfold proper_version, uses_source_replica_names, uses_innodb_redo_log_capacity, uses_binlog_expire_seconds,
    has_mysqlx, has_query_cache, has_after_sync_wait_point, version_le. cbn [major minor patch]. intros (Ha & Hb & Hc).
  split; [bool_lia|]. split; [bool_lia|]. split; [bool_lia|]. split; [bool_lia|]. split; bool_lia.
Qed.

(** ** Parsing *)

Lemma digits_pretty z rest : 0 ≤ z → stops is_digit rest = true → digits (pretty z +:+ rest) = Some (pretty z, rest).
Proof.
  intros Hz Hr. destruct (pretty_digits z Hz) as (Hd & _ & Hne). unfold digits. rewrite (span_app _ _ _ Hd Hr).
  by apply String.eqb_neq in Hne as ->.
Qed.

Lemma dot_app s : dot ("." +:+ s) = Some s.
Proof. reflexivity. Qed.

Lemma version_here_str v : proper_version v → version_here (version_str v) = Some v.
Proof.
  destruct v as [a b c]. intros (Ha & Hb & Hc). cbn in Ha, Hb, Hc. unfold version_here, version_str. cbn [major minor patch].
  rewrite digits_pretty by done. cbn -[pretty digits digits_value dot]. rewrite dot_app. cbn -[pretty digits digits_value dot].
  rewrite digits_pretty by done. cbn -[pretty digits digits_value dot]. rewrite dot_app. cbn -[pretty digits digits_value dot].
  rewrite <-(Str.str_app_nil_r (pretty c)), digits_pretty by done. cbn -[pretty digits digits_value].
  destruct (pretty_digits a Ha) as (_ & -> & _), (pretty_digits b Hb) as (_ & -> & _), (pretty_digits c Hc) as (_ & -> & _).
  done.
Qed.

Lemma version_no_space v : proper_version v → Str.all (λ c, negb (Str.is_space c)) (version_str v) = true.
Proof.
  destruct v as [a b c]. intros (Ha & Hb & Hc). cbn in Ha, Hb, Hc. unfold version_str. cbn [major minor patch].
  assert (∀ z, 0 ≤ z → Str.all (λ c, negb (Str.is_space c)) (pretty z) = true) as Hz.
  { intros z Hz. eapply all_impl; [apply digit_not_space|]. by apply pretty_digits. }
  rewrite !Str.all_app, !Hz by done. done.
Qed.

(** A version is parsed back from its text. *)
Theorem version_roundtrip v : proper_version v → parse_mysql_version (version_str v) = Ok v.
Proof.
  intros Hv. unfold parse_mysql_version. rewrite strip_no_space by (by apply version_no_space).
  pose proof (version_here_str v Hv) as Hh. destruct (String.eqb_spec (version_str v) "") as [He|_].
  - rewrite He in Hh. discriminate Hh.
  - destruct (version_str v) eqn:E; unfold search_version; [by rewrite Hh|]. fold search_version. by rewrite Hh.
Qed.

(** ** Memory *)

Lemma align_down_spec x a : 0 < a → a ≤ x → align_down x a = a * (x / a) ∧ x - a < align_down x a ≤ x.
Proof.
  intros Ha Hx. unfold align_down. destruct (Z.ltb_spec x a); [lia|].
  pose proof (Z.div_mod x a ltac:(lia)). pose proof (Z.mod_pos_bound x a Ha). lia.
Qed.

(** The redo log has between 256 MiB and 4 GiB, in steps of 16 MiB; two files of the size that older
    versions get make up all of it but for 16 MiB at most. *)
Theorem redo_bounds b :
  256 * MiB ≤ redo_size b ≤ 4 * GiB ∧ redo_size b mod (16 * MiB) = 0 ∧
  128 * MiB ≤ log_file_size (redo_size b) ≤ 2 * GiB ∧
  redo_size b - 16 * MiB ≤ 2 * log_file_size (redo_size b) ≤ redo_size b.
Proof.
  unfold redo_size at 1 2 3. set (x := Z.max _ _). assert (256 * MiB ≤ x ≤ 4 * GiB) as Hx by (unfold x, MiB, GiB; lia).
  destruct (align_down_spec x (16 * MiB) ltac:(unfold MiB; lia)) as [Hr Hb]; [unfold MiB in *; lia|].
  unfold redo_size. fold x. rewrite Hr in *. set (k := x / (16 * MiB)) in *.
  assert (16 ≤ k ≤ 256) as Hk by (unfold MiB, GiB in *; split; [apply Z.div_le_lower_bound|apply Z.div_le_upper_bound]; lia).
  assert (16 * MiB * k / 2 = 8 * MiB * k) as Hhalf.
  { unfold MiB. replace (16 * 1024 ^ 2 * k) with ((8 * 1024 ^ 2 * k) * 2) by lia. by rewrite Z.div_mul. }
  unfold log_file_size. rewrite Hhalf. set (y := Z.max _ _).
  assert (y = 8 * MiB * k) as Hy by (unfold y, MiB, GiB in *; lia).
  destruct (align_down_spec y (16 * MiB) ltac:(unfold MiB; lia)) as [Hf Hbf]; [unfold MiB in *; lia|].
  rewrite Hf in *. clear Hf. rewrite Hy in *. clear y Hy.
  replace (8 * MiB * k / (16 * MiB)) with (k / 2) in * by (unfold MiB; rewrite <-(Z.div_mul_cancel_l k 2 (8 * 1024 ^ 2)) by lia; f_equal; lia).
  pose proof (Z.div_mod k 2 ltac:(lia)). pose proof (Z.mod_pos_bound k 2 ltac:(lia)).
  split; [unfold MiB, GiB in *; lia|]. split; [rewrite Z.mul_comm; apply Z.mod_mul; unfold MiB; lia|].
  unfold MiB, GiB in *. lia.
Qed.

(** ** Semi-synchronous profiles *)

Lemma get_update {V} (k : string) (d d' : dict V) : Dict.wf d' →
  Dict.get k (Dict.update d d') = match Dict.get k d' with Some v => Some v | None => Dict.get k d end.
Proof.
  unfold Dict.update. revert d. induction d' as [|[k' v] d' IH]; intros d Hwf; [done|].
  apply NoDup_cons in Hwf as [Hk Hwf]. simpl. rewrite IH by done. rewrite Dict.get_set. case_decide as He; [|done].
  subst k'. destruct (Dict.get k d') as [w|] eqn:E; [|done]. destruct Hk. 
  apply Dict.get_Some_elem in E. by apply (list_elem_of_fmap_2 fst _ (k, w)).
Qed.

(** The parameters as the configuration file gives them to the handler *)
Definition as_config (d : dict string) : dict pyval := map (λ kv, (kv.1, VStr kv.2)) d.

Lemma vget_as_config k d : vget k (as_config d) = match Dict.get k d with Some s => VStr s | None => VNone end.
Proof. unfold vget. induction d as [|[k' s] d IH]; [done|]. simpl. by case_decide. Qed.

Lemma base_lacks_semi_sync v k : k ∈ ["rpl_semi_sync_source_enabled"; "rpl_semi_sync_replica_enabled"] →
  Dict.get k (build_base_parameters v) = None.
Proof.
  intros Hk. apply Dict.get_None. unfold build_base_parameters, replica_parameters, when_, shared_parameters.
  rewrite !elem_of_cons, elem_of_nil in Hk.
  destruct (uses_source_replica_names v), (has_slave_parallel_logical_clock v),
    ((major v <? 8) || ((major v =? 8) && (minor v =? 0) && (patch v <? 26))), (family v =? "5.6")%string,
    (uses_binlog_expire_seconds v), (has_query_cache v), (has_mysqlx v); unfold Dict.keys; cbn [app fmap list_fmap fst];
    destruct Hk as [->|[->|[]]]; apply (bool_decide_eq_false_1 (_ ∈ _)); vm_compute; reflexivity.
Qed.

Lemma memory_lacks_semi_sync v b k : k ∈ ["rpl_semi_sync_source_enabled"; "rpl_semi_sync_replica_enabled"] →
  Dict.get k (apply_memory_params v b) = None ∧ Dict.wf (apply_memory_params v b).
Proof.
  intros Hk. rewrite !elem_of_cons, elem_of_nil in Hk. rewrite Dict.get_None. unfold Dict.wf, apply_memory_params, when_, Dict.keys.
  destruct (uses_innodb_redo_log_capacity v), ((5 <=? major v) && negb ((major v =? 5) && (minor v <? 7))); cbn [app fmap list_fmap fst];
    (split; [destruct Hk as [->|[->|[]]]; apply (bool_decide_eq_false_1 (_ ∈ _))|apply (bool_decide_eq_true_1 (NoDup _))]; vm_compute; reflexivity).
Qed.

Lemma semi_sync_params_wf v n t w : Dict.wf (apply_semi_sync_params v n t w).
Proof.
  unfold Dict.wf, apply_semi_sync_params, when_, Dict.keys.
  destruct (uses_source_replica_names v), (has_after_sync_wait_point v), (has_wait_for_replica_count v); cbn [app fmap list_fmap fst];
    apply (bool_decide_eq_true_1 (NoDup _)); vm_compute; reflexivity.
Qed.

(** What [build_mysqld_parameters] gives in that mode *)
Definition params_semi_sync v (nodes buffer_pool t1 t2 : Z) : dict string :=
  Dict.update (Dict.update (build_base_parameters v) (apply_memory_params v buffer_pool))
    (apply_semi_sync_params v nodes (if 3 <=? nodes then t1 else t2) (Z.max 1 ((nodes - 1) / 2))).

Lemma build_semi_sync v nodes buffer_pool t1 t2 group host port seeds :
  build_mysqld_parameters v "semi-sync" nodes buffer_pool t1 t2 group host port seeds = Ok (params_semi_sync v nodes buffer_pool t1 t2).
Proof. reflexivity. Qed.

(** Of the configurations generated for semi-synchronous replication the handler recognises as such
    exactly those of 8.0.26 and later: on an older version it never enables the source side and
    never runs the safety check. *)
Theorem semi_sync_profile v nodes buffer_pool t1 t2 params : proper_version v →
  build_mysqld_parameters v "semi-sync" nodes buffer_pool t1 t2 "" "127.0.0.1" 3306 "" = Ok params →
  (_semi_sync_configured (as_config params) = true ↔ version_le (MkVersion 8 0 26) v).
Proof.
  intros Hv H. rewrite build_semi_sync in H. assert (params = params_semi_sync v nodes buffer_pool t1 t2) as -> by congruence. clear H.
  unfold params_semi_sync.
  destruct (version_thresholds v Hv) as (Hn & _). rewrite <-Hn. clear Hn.
  unfold _semi_sync_configured. rewrite !vget_as_config.
  rewrite (get_update "rpl_semi_sync_source_enabled"), (get_update "rpl_semi_sync_replica_enabled") by apply semi_sync_params_wf.
  unfold apply_semi_sync_params at 1 2. destruct (uses_source_replica_names v).
  - cbn [Dict.get app]. repeat (rewrite decide_False by done). split; [done|]. intros _. by repeat (rewrite decide_True by done).
  - set (l := ("cluster_size", pretty nodes) :: _).
    assert (∀ k, k ∈ ["rpl_semi_sync_source_enabled"; "rpl_semi_sync_replica_enabled"] → Dict.get k l = None) as Hl.
    { intros k Hk. apply Dict.get_None. subst l. unfold when_, Dict.keys. rewrite !elem_of_cons, elem_of_nil in Hk.
      destruct (has_after_sync_wait_point v), (has_wait_for_replica_count v); cbn [app fmap list_fmap fst];
        destruct Hk as [->|[->|[]]]; apply (bool_decide_eq_false_1 (_ ∈ _)); vm_compute; reflexivity. }
    rewrite !Hl by set_solver.
    rewrite (get_update "rpl_semi_sync_source_enabled"), (get_update "rpl_semi_sync_replica_enabled")
      by (apply (memory_lacks_semi_sync v buffer_pool "rpl_semi_sync_source_enabled"); left).
    rewrite (proj1 (memory_lacks_semi_sync v buffer_pool "rpl_semi_sync_source_enabled" ltac:(left))),
      (proj1 (memory_lacks_semi_sync v buffer_pool "rpl_semi_sync_replica_enabled" ltac:(right; left))).
    rewrite !base_lacks_semi_sync by set_solver. done.
Qed.

(** A 5.7 cluster set up for semi-synchronous replication *)
Lemma semi_sync_profile_witness :
  _semi_sync_configured (as_config (params_semi_sync (MkVersion 5 7 44) 3 (4 * GiB) (10 ^ 18) 10000)) ≠ true.
Proof.
  intros H. apply (semi_sync_profile (MkVersion 5 7 44) 3 (4 * GiB) (10 ^ 18) 10000 _) in H.
  - revert H. unfold version_le. cbn. lia.
  - unfold proper_version. cbn. lia.
  - apply build_semi_sync.
Defined.
