(* ===== verification/ApiStatus.v ===== *)
(** * Health checks of the REST API ([patroni/api.py], [RestApiHandler])

    The status of the node, from what PostgreSQL or MySQL answered, and the HTTP status codes
    that load balancers and probes read: [do_GET], [do_GET_liveness], [do_GET_readiness]. *)
From S2P Require Import Prelude Lexing PyDict PyVal Effects Utils Tags DcsData GlobalConfig.

Open Scope string_scope.
Open Scope Z_scope.

(** What the handler reads of the agent while it answers one request *)
Record AgentView `{!Datetime} := MkView {
  av_cluster : option Cluster;        (* [dcs.cluster], the view that is still valid *)
  av_config : GlobalConfig;           (* [global_config] *)
  av_leads : bool;                    (* [ha.is_leader()] *)
  av_failsafe : bool;                 (* [ha.failsafe_is_active()] *)
  av_tags : dict pyval;
  av_last_seen : Z;
  av_name : string;
  av_state : string;                  (* of the database *)
  av_role : string;
}.

Arguments MkView {_} _ _ _ _ _ _ _ _ _.

#[export] Instance view_tags `{!Datetime} : Tags AgentView := av_tags.

(** A request: its path and the parsed query, every value of which is a list that is not empty *)
Record Request := MkRequest { rq_path : string; rq_query : dict (list string) }.

(** [self.path_query.get(key, [default])[0]] *)
Definition query_first (key : string) (dflt : pyval) (r : Request) : exc pyval :=
  match Dict.get key (rq_query r) with
  | None => Ok dflt
  | Some (v :: _) => Ok (VStr v)
  | Some [] => Raise IndexError
  end.

(** A number of a dictionary of the response *)
Definition number (v : pyval) : exc Z :=
  match v with VInt z => Ok z | VBool b => Ok (if b then 1 else 0) | _ => Raise TypeError end.
Definition number_at (key : string) (d : dict pyval) : exc Z := number (vget_or key (VInt 0) d).

(** [response.get(key, {})] where it is a dictionary *)
Definition dict_at (key : string) (d : dict pyval) : exc (dict pyval) :=
  match vget_or key (VDict []) d with VDict x => Ok x | _ => Raise AttributeError end.

Section status.
Context `{!Datetime}.
Implicit Types (v : AgentView) (r : Request) (response : dict pyval).

(** [if cluster] *)
Definition known v : option Cluster := match av_cluster v with Some c => if cluster_truthy c then Some c else None | None => None end.

(** ** The status of PostgreSQL *)

(** The columns of the query, in their order, and [major_version], [server_version] *)
Record PgRow := MkRow {
  row_start_time : pyval; row_timeline : Z; row_flush : pyval; row_replay : pyval; row_receive : pyval;
  row_paused : pyval; row_timestamp : pyval; row_latest_end : pyval; row_receiver_state : pyval;
  row_restore_command : pyval; row_written : pyval; row_replication : pyval;
}.

(** [replication_state_from_parameters] *)
Definition replication_state_from_parameters (major_version : Z) (conf_restore_command is_primary : bool)
    (receiver_state restore_command : pyval) : option string :=
  if (90600 <=? major_version) && negb is_primary then
    if pyval_eqb receiver_state (VStr "streaming") then Some "streaming"
    else if ((major_version <? 120000) && conf_restore_command) || truthy restore_command then Some "in archive recovery"
    else None
  else None.

(** [if value: result[key] = value] *)
Definition set_if (key : string) (value : pyval) (d : dict pyval) : dict pyval := if truthy value then Dict.set key value d else d.

(** The timeline of the leader as this node sees it *)
Definition leader_timeline v : pyval :=
  match known v with
  | Some c => if is_unlocked c then VNone else match leader c with Some l => l_timeline l | None => VNone end
  | None => VNone
  end.

Definition replica_role (config : GlobalConfig) (replica : bool) v : string :=
  if replica then if is_standby_cluster config then av_role v else "replica" else "primary".

Definition row_positions (row : PgRow) : dict pyval :=
  if row_timeline row =? 0 then
    [("received_location", py_or (py_or (row_written row) (row_receive row)) (row_replay row));
     ("replayed_location", row_replay row); ("replayed_timestamp", row_timestamp row); ("paused", row_paused row)]
  else [("location", row_flush row)].

(** What [get_postgresql_status] makes of the row; [cached_timeline] is [replica_cached_timeline]. *)
Definition status_of_row v (config : GlobalConfig) (major_version : Z) (server_version : pyval) (conf_restore_command : bool)
    (cached_timeline : pyval → pyval) (row : PgRow) : exc (dict pyval) :=
  let replica := row_timeline row =? 0 in
  let role := replica_role config replica v in
  let result := [("state", VStr (av_state v)); ("postmaster_start_time", row_start_time row); ("role", VStr role);
                 ("server_version", server_version); ("xlog", VDict (row_positions row))] in
  matched ← (if (role =? "replica")%string && is_synchronous_mode config
             then match known v with Some c => matches (sync c) (Some (av_name v)) false | None => mret false end
             else mret false);
  let result := if matched : bool
                then Dict.set (if is_quorum_commit_mode (av_config v) then "quorum_standby" else "sync_standby") (VBool true) result
                else result in
  let result := Dict.set "timeline" (if 0 <? row_timeline row then VInt (row_timeline row) else cached_timeline (leader_timeline v)) result in
  let result := set_if "latest_end_lsn" (row_latest_end row) result in
  let result := match replication_state_from_parameters major_version conf_restore_command (0 <? row_timeline row)
                      (row_receiver_state row) (row_restore_command row) with
                | Some s => set_if "replication_state" (VStr s) result
                | None => result
                end in
  mret (set_if "replication" (row_replication row) result).

(** The status when the query failed *)
Definition status_of_failure (state role : string) : dict pyval :=
  [("state", VStr (if (state =? "running")%string then "unknown" else state)); ("role", VStr role)].

Definition pg_queried_states : list string := ["running"; "restarting"; "starting"].

(** ** The status of MySQL *)

(** What the handler's methods returned, in the order of the calls; the state is read again when mysqld runs. *)
Record MySQLView := MkMySQLView {
  mv_state : string;
  mv_is_primary : exc bool;
  mv_master_row : exc (option (dict pyval));
  mv_executed_gtid : exc string;
  mv_slave_row : exc (option (dict pyval));
  mv_server_version : exc pyval;
  mv_fork : pyval;
  mv_replication_state : option string;
}.

(** [int(row.get(key, 0) or 0)] *)
Definition int_or_0 (key : string) (row : dict pyval) : exc pyval :=
  z ← py_int (py_or (vget_or key (VInt 0) row) (VInt 0)); mret (VInt z).

Definition binlog_of_slave (row : dict pyval) (binlog : dict pyval) : exc (dict pyval) :=
  received ← int_or_0 "Read_Master_Log_Pos" row;
  replayed ← int_or_0 "Exec_Master_Log_Pos" row;
  port ← int_or_0 "Master_Port" row;
  let sbm := vget "Seconds_Behind_Master" row in
  behind ← (if pyval_eqb sbm VNone then mret VNone else z ← py_int sbm; mret (VInt z));
  mret (Dict.update binlog
    [("receive_binlog_position", received); ("replay_binlog_position", replayed);
     ("master_host", vget_or "Master_Host" (VStr "") row); ("master_port", port);
     ("slave_io_running", vget_or "Slave_IO_Running" (VStr "") row);
     ("slave_sql_running", vget_or "Slave_SQL_Running" (VStr "") row); ("seconds_behind_master", behind)]).

Definition mysql_status_body v (m : MySQLView) : exc (dict pyval) :=
  is_primary ← mv_is_primary m;
  master ← mv_master_row m;
  let row := match master with Some ((_ :: _) as row) => row | _ => [] end in
  pos ← py_int (vget_or "Position" (VInt 0) row);
  gtid ← mv_executed_gtid m;
  let gtid_set := py_or (VStr gtid) (vget_or "Executed_Gtid_Set" (VStr "") row) in
  let binlog := set_if "gtid_set" gtid_set [("location", VInt pos)] in
  binlog ← (if is_primary : bool then mret (Dict.set "binlog_file" (vget_or "File" (VStr "") row) binlog)
            else slave ← mv_slave_row m;
                 match slave with Some ((_ :: _) as row) => binlog_of_slave row binlog | _ => mret binlog end);
  let role := if is_primary : bool then "primary" else if is_standby_cluster (av_config v) then av_role v else "replica" in
  version ← mv_server_version m;
  let result := [("state", VStr (mv_state m)); ("role", VStr role); ("server_version", version); ("binlog", VDict binlog)] in
  let result := set_if "mgr_gtid_fork" (mv_fork m) result in
  mret (match mv_replication_state m with Some s => set_if "replication_state" (VStr s) result | None => result end).

(** [_get_mysql_status]: every exception is caught. *)
Definition _get_mysql_status v (m : MySQLView) : dict pyval :=
  match mysql_status_body v m with Ok d => d | Raise _ => status_of_failure (mv_state m) (av_role v) end.

(** ** [get_postgresql_status] *)

(** What is known of the database: nothing but its state when PostgreSQL could not be asked *)
Inductive answered :=
  | PgAnswered (major_version : Z) (server_version : pyval) (conf_restore_command : bool) (cached_timeline : pyval → pyval) (row : PgRow)
  | PgFailed
  | MySQLAnswered (m : MySQLView).

Definition database_status v (a : answered) : exc (dict pyval) :=
  let config := from_cluster (av_config v) (av_cluster v) in
  match a with
  | PgAnswered major server_version rc cached row =>
      if bool_decide (av_state v ∈ pg_queried_states) then status_of_row v config major server_version rc cached row
      else mret (status_of_failure (av_state v) (av_role v))
  | PgFailed => mret (status_of_failure (av_state v) (av_role v))
  | MySQLAnswered m => mret (_get_mysql_status v m)
  end.

Definition get_postgresql_status v (a : answered) : exc (dict pyval) :=
  result ← database_status v a;
  let config := from_cluster (av_config v) (av_cluster v) in
  let result := if is_paused config then Dict.set "pause" (VBool true) result else result in
  let result := if match known v with Some c => is_unlocked c | None => true end then Dict.set "cluster_unlocked" (VBool true) result else result in
  let result := if av_failsafe v then Dict.set "failsafe_mode_is_active" (VBool true) result else result in
  mret (Dict.set "dcs_last_seen" (VInt (av_last_seen v)) result).

(** ** Status codes *)

Definition maxsize : Z := 2 ^ 63 - 1.

Definition has_role (role : string) response : bool := pyval_eqb (vget "role" response) (VStr role).
Definition is_running_ response : bool := pyval_eqb (vget "state" response) (VStr "running").

(** [max(cluster and cluster.status.last_lsn or 0, latest_end_lsn)] *)
Definition leader_optime v response : exc Z :=
  latest ← number_at "latest_end_lsn" response;
  mret (Z.max (match known v with Some c => last_lsn (status c) | None => 0 end) latest).

Definition is_lagging v r response : exc bool :=
  optime ← leader_optime v response;
  xlog ← dict_at "xlog" response;
  lag ← query_first "lag" (VInt maxsize) r;
  max_lag ← parse_int lag (VStr "B");
  if optime =? 0 then mret false else
  replayed ← number_at "replayed_location" xlog;
  mret (replayed + default maxsize max_lag <? optime).

Definition replica_status v r response : exc bool :=
  lagging ← is_lagging v r response;
  mret (negb (noloadbalance v) && negb lagging && has_role "replica" response && is_running_ response).

(** The checks for a leader, a primary, a standby leader, and a replica *)
Record Checks := MkChecks { ck_leader : bool; ck_primary : bool; ck_standby_leader : bool; ck_replica : bool }.

Definition checks v r response : exc Checks :=
  replica ← replica_status v r response;
  let config := from_cluster (av_config v) (av_cluster v) in
  mret (if is_none (known v) && truthy (vget "pause" response) then
          MkChecks (has_role "primary" response || has_role "standby_leader" response) (has_role "primary" response)
            (has_role "standby_leader" response) replica
        else if av_leads v then
          if is_standby_cluster config
          then MkChecks true false (has_role "replica" response || has_role "standby_leader" response) false
          else MkChecks true true false replica
        else MkChecks false false false replica).

(** Which check a path stands for, and whether the tags of the query are ignored *)
Definition path_status v (path : string) (ck : Checks) response : bool * bool :=
  let inp t := has_text t path in
  let leads := ck_primary ck || ck_standby_leader ck in
  if inp "standby_leader" || inp "standby-leader" then (ck_standby_leader ck, true)
  else if inp "leader" then (ck_leader ck, true)
  else if inp "master" || inp "primary" || inp "read-write" then (ck_primary ck, true)
  else if inp "replica" then (ck_replica ck, false)
  else if inp "read-only" && negb (inp "sync") && negb (inp "quorum") then (leads || ck_replica ck, false)
  else if inp "health" then (is_running_ response, false)
  else if is_none (known v) then (false, false)
  else
    let is_quorum := truthy (vget "quorum_standby" response) in
    let is_synchronous := truthy (vget "sync_standby" response) in
    (if bool_decide (path ∈ ["/sync"; "/synchronous"]) && is_synchronous then ck_replica ck
     else if (path =? "/quorum")%string && is_quorum then ck_replica ck
     else if bool_decide (path ∈ ["/async"; "/asynchronous"]) && negb is_synchronous && negb is_quorum then ck_replica ck
     else if (path =? "/read-only-quorum")%string then leads || (is_quorum && ck_replica ck)
     else if bool_decide (path ∈ ["/read-only-sync"; "/read-only-synchronous"]) then leads || (is_synchronous && ck_replica ck)
     else false, false).

(** One parameter of the query: nothing when it is no tag, or whether the tag has the value *)
Definition tag_matches v (item : string * list string) : exc bool :=
  let '(qs_key, qs_value) := item in
  if String.prefix "tag_" qs_key then
    match qs_value with
    | [] => Raise IndexError
    | value :: _ =>
        match vget (String.substring 4 (String.length qs_key) qs_key) (av_tags v) with
        | VNone => mret false
        | VStr s => mret (s =? value)%string
        | tag => mret (Str.lower (py_str tag) =? value)%string
        end
    end
  else mret true.

(** The loop over the query, which stops at the first tag that differs *)
Fixpoint tags_match v (query : dict (list string)) : exc bool :=
  match query with
  | [] => mret true
  | item :: query => b ← tag_matches v item; if b : bool then tags_match v query else mret false
  end.

(** The status code of [do_GET] *)
Definition do_GET_code v (a : answered) r : exc Z :=
  response ← get_postgresql_status v a;
  ck ← checks v r response;
  let path := if (rq_path r =? "/")%string then "/primary" else rq_path r in
  let '(ok, ignore_tags) := path_status v path ck response in
  if ok && negb ignore_tags then b ← tags_match v (rq_query r); mret (if b : bool then 200 else 503)
  else mret (if ok : bool then 200 else 503).

(** ** The body of the response *)

(** What else is told about the agent; of the scheduled restart, all but [postmaster_start_time], with its time as text *)
Record AgentInfo := MkInfo {
  ai_effective_tags : dict pyval; ai_sysid : pyval; ai_pending : dict pyval; ai_version : string; ai_scope : string;
  ai_scheduled_restart : option (dict pyval); ai_watchdog_healthy : bool; ai_queue_size : Z; ai_normal_queue_size : Z; ai_records_lost : Z;
}.

(** [_write_status_response], without the writing *)
Definition status_response v (x : AgentInfo) response : dict pyval :=
  let response := set_if "tags" (VDict (ai_effective_tags x)) response in
  let response := set_if "database_system_identifier" (ai_sysid x) response in
  let response := if is_nil (ai_pending x) then response
                  else Dict.set "pending_restart_reason" (VDict (ai_pending x)) (Dict.set "pending_restart" (VBool true) response) in
  let response := Dict.set "patroni" (VDict [("version", VStr (ai_version x)); ("scope", VStr (ai_scope x)); ("name", VStr (av_name v))]) response in
  let response := match ai_scheduled_restart x with
                  | Some ((_ :: _) as d) => Dict.set "scheduled_restart" (VDict (Dict.del "postmaster_start_time" d)) response
                  | _ => response
                  end in
  let response := if ai_watchdog_healthy x then response else Dict.set "watchdog_failed" (VBool true) response in
  if ai_normal_queue_size x <? ai_queue_size x then
    set_if "logger_records_lost" (VInt (ai_records_lost x)) (Dict.set "logger_queue_size" (VInt (ai_queue_size x)) response)
  else response.

(** The body of [do_GET_patroni], and of every health check *)
Definition do_GET_patroni v (x : AgentInfo) (a : answered) : exc (dict pyval) :=
  response ← get_postgresql_status v a; mret (status_response v x (Dict.del "latest_end_lsn" response)).

(** ** Liveness and readiness *)

(** [do_GET_liveness]; times are integers *)
Definition do_GET_liveness (paused : bool) (role : string) (running : bool) (ttl next_run now : Z) : Z :=
  let is_primary := (role =? "primary")%string && running in
  let liveness_threshold := ttl * (if is_primary then 1 else 2) in
  if paused || (now <? next_run + liveness_threshold) then 200 else 503.

(** [readiness_check] of both handlers *)
Definition readiness_check (mysql : bool) (state replication_state : string) : option string :=
  if negb (state =? "running")%string then Some (if mysql then "MySQL is not running" else "PostgreSQL is not running")
  else if negb (replication_state =? "streaming")%string
  then Some (if mysql then "MySQL replication state is " +:+ replication_state else "PostgreSQL replication state is not streaming")
  else None.

Definition position_key (mysql : bool) (mode : pyval) : string :=
  let write := pyval_eqb mode (VStr "write") in
  if mysql then if write then "receive_binlog_position" else "replay_binlog_position"
  else if write then "received_location" else "replayed_location".

(** The lag that is compared in [_readiness], and its limit *)
Definition readiness_lag (mysql : bool) v r (postgres : dict pyval) : exc (Z * Z) :=
  latest ← number_at "latest_end_lsn" postgres;
  let optime := Z.max (match known v with Some c => last_lsn (status c) | None => 0 end) latest in
  mode ← query_first "mode" VNone r;
  data ← (match Dict.get "xlog" postgres with
          | Some (VDict d) => mret d
          | Some _ => Raise AttributeError
          | None => dict_at "binlog" postgres
          end);
  position ← number_at (position_key mysql mode) data;
  lag ← query_first "lag" VNone r;
  max_lag ← parse_int lag (VStr "B");
  limit ← match (max_lag : option Z) with Some z => mret z | None => maximum_lag_on_failover (av_config v) end;
  mret (optime - position, limit).

(** [_readiness]: why the node is not ready *)
Definition _readiness (mysql : bool) v (a : answered) r : exc (option string) :=
  if av_leads v then mret None else
  if negb (av_state v =? "running")%string then mret (Some "not running") else
  postgres ← get_postgresql_status v a;
  let replication_state := match vget_or "replication_state" (VStr "") postgres with VStr s => s | _ => "" end in
  match readiness_check mysql (av_state v) replication_state with
  | Some e => mret (Some e)
  | None =>
      if is_none (known v) && negb (truthy (vget "latest_end_lsn" postgres))
      then mret (if av_failsafe v then None else Some "DCS is not accessible")
      else l ← readiness_lag mysql v r postgres;
           mret (if l.2 <? l.1 then Some "Replication lag exceeds maximum allowable" else None)
  end.

(** [do_GET_readiness] *)
Definition do_GET_readiness (mysql : bool) v (a : answered) r : exc Z :=
  e ← _readiness mysql v a r; mret (if e : option string then 503 else 200).
End status.

(** * What the health checks say

    The endpoints for replicas divide the replicas between them; only the holder of the leader lock
    is reported as the primary; a MySQL replica fails every check of its lag. *)

Section props.
Context `{!Datetime}.
Implicit Types (v : AgentView) (response : dict pyval).

(** ** Keys of the response *)

Lemma vget_set k k' x d : k ≠ k' → vget k (Dict.set k' x d) = vget k d.
Proof. intros Hk. unfold vget. by rewrite Dict.get_set_ne. Qed.
Lemma vget_set_if k k' x d : k ≠ k' → vget k (set_if k' x d) = vget k d.
Proof. intros Hk. unfold set_if. destruct (truthy x); [by apply vget_set|done]. Qed.

Lemma get_set_if k k' x d : k ≠ k' → Dict.get k (set_if k' x d) = Dict.get k d.
Proof. intros Hk. unfold set_if. destruct (truthy x); [by apply Dict.get_set_ne|done]. Qed.

(** The keys that are added at the end *)
Lemma status_key k v a response : get_postgresql_status v a = Ok response →
  k ∉ ["pause"; "cluster_unlocked"; "failsafe_mode_is_active"; "dcs_last_seen"] →
  ∃ d, database_status v a = Ok d ∧ Dict.get k response = Dict.get k d.
Proof.
  intros Hr Hk. unfold get_postgresql_status in Hr. destruct (database_status v a) as [d|] eqn:E; [|done]. exists d. split; [done|].
  cbn in Hr. injection Hr as <-. rewrite Dict.get_set_ne by set_solver.
  destruct (av_failsafe v); destruct (match known v with Some c => is_unlocked c | None => true end);
    destruct (is_paused _); by rewrite ?Dict.get_set_ne by set_solver.
Qed.

(** What MySQL's status is made of *)
Definition mysql_base v (m : MySQLView) (is_primary : bool) (version : pyval) (binlog : dict pyval) : dict pyval :=
  [("state", VStr (mv_state m));
   ("role", VStr (if is_primary then "primary" else if is_standby_cluster (av_config v) then av_role v else "replica"));
   ("server_version", version); ("binlog", VDict binlog)].

Lemma mysql_status_shape v m x : mysql_status_body v m = Ok x → ∃ binlog version is_primary,
  x = (let result := set_if "mgr_gtid_fork" (mv_fork m) (mysql_base v m is_primary version binlog) in
       match mv_replication_state m with Some s => set_if "replication_state" (VStr s) result | None => result end).
Proof.
  unfold mysql_status_body. intros Hb. exc_inv Hb as ip. exc_inv Hb as row. exc_inv Hb as pos. exc_inv Hb as gtid.
  exc_inv Hb as binlog. exc_inv Hb as version. injection Hb as <-. exists binlog, version, ip. unfold mysql_base. by destruct ip.
Qed.

(** A node is never both kinds of standby. *)
Lemma one_kind v a d : database_status v a = Ok d → truthy (vget "sync_standby" d) && truthy (vget "quorum_standby" d) = false.
Proof.
  assert (∀ s r, truthy (vget "sync_standby" (status_of_failure s r)) = false) as Hf by done.
  assert (∀ m, truthy (vget "sync_standby" (_get_mysql_status v m)) = false) as Hm.
  { intros m. unfold _get_mysql_status. destruct (mysql_status_body v m) as [x|] eqn:E; [|apply Hf].
    destruct (mysql_status_shape v m x E) as (binlog & version & is_primary & ->).
    destruct (mv_replication_state m); by rewrite !vget_set_if. }
  destruct a as [major version rc cached row| |m]; cbn [database_status].
  - destruct (bool_decide _); [|intros [= <-]; by rewrite Hf]. unfold status_of_row.
    set (d0 := _ :: _). destruct (if _ && _ then _ else _) as [matched|]; [|done]. cbn [mbind exc_bind].
    intros [= <-]. rewrite !vget_set_if by done.
    destruct (replication_state_from_parameters _ _ _ _ _); rewrite ?vget_set_if, ?vget_set by done;
      destruct matched; try done; destruct (is_quorum_commit_mode _); by rewrite ?vget_set by done.
  - intros [= <-]. by rewrite Hf.
  - intros [= <-]. by rewrite Hm.
Qed.

(** ** The endpoints for replicas *)

Definition is_200 (e : exc Z) : bool := match e with Ok z => z =? 200 | Raise _ => false end.

Definition at_path (p : string) (query : dict (list string)) : Request := MkRequest p query.

(** C30: when the DCS is known, the endpoints /sync, /quorum and /async divide the replicas between them: with the same query
    (lag, tags) exactly one of them answers 200 when /replica does, and none when it does not. *)
Theorem replica_partition v a c query : known v = Some c →
  length (List.filter (λ p, is_200 (do_GET_code v a (at_path p query))) ["/sync"; "/quorum"; "/async"])
  = if is_200 (do_GET_code v a (at_path "/replica" query)) then 1%nat else 0%nat.
Proof.
  intros Hk. unfold do_GET_code. destruct (get_postgresql_status v a) as [response|] eqn:Er; [|done]. cbn [mbind exc_bind].
  assert (truthy (vget "sync_standby" response) && truthy (vget "quorum_standby" response) = false) as Hone.
  { unfold vget. destruct (status_key "sync_standby" v a response Er ltac:(set_solver)) as (d & Hd & ->).
    destruct (status_key "quorum_standby" v a response Er ltac:(set_solver)) as (d' & Hd' & ->). assert (d' = d) as -> by congruence. by eapply one_kind. }
  assert (∀ p, checks v (at_path p query) response = checks v (at_path "/" query) response) as Hck by done.
  cbn [List.filter]. rewrite !Hck. destruct (checks v _ response) as [ck|]; [|done]. cbn [mbind exc_bind].
  unfold path_status. rewrite Hk. cbn -[truthy vget tags_match].
  destruct (truthy (vget "sync_standby" response)), (truthy (vget "quorum_standby" response)); try done;
    destruct (ck_replica ck); try done; cbn -[tags_match]; destruct (tags_match v query) as [[]|]; done.
Qed.

(** ** The lag of a MySQL replica *)

Lemma mysql_status_lacks k v m : k ∉ ["state"; "role"; "server_version"; "binlog"; "mgr_gtid_fork"; "replication_state"] →
  Dict.get k (_get_mysql_status v m) = None.
Proof.
  intros Hk. unfold _get_mysql_status. destruct (mysql_status_body v m) as [x|] eqn:E.
  - destruct (mysql_status_shape v m x E) as (binlog & version & is_primary & ->).
    destruct (mv_replication_state m); rewrite !get_set_if by set_solver; unfold mysql_base; simpl;
      repeat case_decide; set_solver.
  - unfold status_of_failure. simpl. repeat case_decide; set_solver.
Qed.

(** A health check of a MySQL replica with a limit for its lag fails whenever the leader's position is past the limit,
    whatever the replica has replayed: the position is looked up under "xlog", which only PostgreSQL's status has. *)
Theorem mysql_lag_ignores_position v m c query text rest z path :
  known v = Some c → path ∈ ["/replica"; "/sync"; "/quorum"; "/async"] →
  Dict.get "lag" query = Some (text :: rest) → parse_int (VStr text) (VStr "B") = Ok (Some z) →
  0 ≤ z < last_lsn (status c) →
  do_GET_code v (MySQLAnswered m) (at_path path query) = Ok 503.
Proof.
  intros Hk Hp Hlag Hz Hlt. unfold do_GET_code. destruct (get_postgresql_status v (MySQLAnswered m)) as [response|] eqn:Er; [|done].
  cbn [mbind exc_bind].
  assert (∀ k, k ∈ ["xlog"; "latest_end_lsn"] → Dict.get k response = None) as Hget.
  { intros k Hin. destruct (status_key k v (MySQLAnswered m) response Er ltac:(set_solver)) as (d & [= <-] & ->).
    apply mysql_status_lacks. set_solver. }
  assert (is_lagging v (at_path path query) response = Ok true) as Hl.
  { unfold is_lagging, leader_optime, number_at, dict_at, query_first, vget_or, at_path. cbn [rq_query]. rewrite !Hget by set_solver. rewrite Hk, Hlag. cbn.
    rewrite Hz. cbn. destruct (Z.eqb_spec (Z.max (last_lsn (status c)) 0) 0); [lia|]. cbn. f_equal. apply Z.ltb_lt. lia. }
  unfold checks, replica_status. rewrite Hl. cbn -[path_status]. rewrite andb_false_r. cbn -[path_status]. rewrite Hk. cbn -[path_status].
  set (ck := if av_leads v then _ else _).
  assert (ck_replica ck = false) as Hck by (unfold ck; repeat case_match; done).
  assert ((if (path =? "/")%string then "/primary" else path) = path) as ->.
  { by repeat (apply elem_of_cons in Hp as [->|Hp]); [..|apply elem_of_nil in Hp]. }
  assert ((path_status v path ck response).1 = false) as Hps.
  { unfold path_status. rewrite Hk.
    repeat (apply elem_of_cons in Hp as [->|Hp]; [cbn -[truthy vget]; rewrite ?Hck; by repeat case_match|]). by apply elem_of_nil in Hp. }
  destruct (path_status v path ck response) as [ok ign]. simpl in Hps. by rewrite Hps.
Qed.
End props.

(** ** Examples *)

#[local] Existing Instance text_datetime.

Definition seen (optime : Z) : Cluster :=
  MkCluster (Some "1") None (Some (MkLeader VNone VNone (MkMember VNone "a" VNone []))) (MkStatus optime None [])
    [] None (MkSync (VInt 1) (VStr "a") (VStr "b") 0) None None [].

(** A synchronous standby, and a MySQL replica that has replayed everything *)
Definition standby (tags : dict pyval) : AgentView :=
  MkView (Some (seen 500)) [("synchronous_mode", VBool true)] false false tags 0 "b" "running" "replica".

Definition standby_row : answered :=
  PgAnswered 150000 (VInt 150002) false (λ t, t)
    (MkRow (VStr "now") 0 (VInt 0) (VInt 490) (VInt 500) (VBool false) VNone (VInt 500) (VStr "streaming") VNone VNone VNone).

Definition replica_caught_up : answered :=
  MySQLAnswered (MkMySQLView "running" (Ok false) (Ok None) (Ok "")
    (Ok (Some [("Read_Master_Log_Pos", VInt 500); ("Exec_Master_Log_Pos", VInt 500)])) (Ok (VStr "8.0.32")) VNone (Some "streaming")).

Example health_examples :
  (map (λ p, do_GET_code (standby []) standby_row (at_path p []))
     ["/"; "/replica"; "/sync"; "/quorum"; "/async"; "/read-only"; "/health"; "/leader"; "/read-only-sync"],
   do_GET_code (standby [("noloadbalance", VBool true)]) standby_row (at_path "/replica" []),
   map (λ lag, do_GET_code (standby []) standby_row (at_path "/replica" [("lag", [lag])])) ["9"; "10"; "1kB"],
   map (λ t, do_GET_code (standby [("zone", VStr "x"); ("ssd", VBool true)]) standby_row (at_path "/replica" [t]))
     [("tag_zone", ["x"]); ("tag_zone", ["y"]); ("tag_ssd", ["true"]); ("tag_none", [""])])
  = ([Ok 503; Ok 200; Ok 200; Ok 503; Ok 503; Ok 200; Ok 200; Ok 503; Ok 200], Ok 503, [Ok 503; Ok 200; Ok 200],
     [Ok 200; Ok 503; Ok 200; Ok 503]).
Proof. vm_compute. reflexivity. Qed.

Lemma replica_partition_witness :
  length (List.filter (λ p, is_200 (do_GET_code (standby []) standby_row (at_path p []))) ["/sync"; "/quorum"; "/async"]) = 1%nat.
Proof. exact (replica_partition (standby []) standby_row (seen 500) [] eq_refl). Defined.

Lemma mysql_lag_ignores_position_witness :
  do_GET_code (standby []) replica_caught_up (at_path "/replica" [("lag", ["100"])]) = Ok 503
  ∧ do_GET_code (standby []) replica_caught_up (at_path "/replica" []) = Ok 200.
Proof.
  split; [|vm_compute; reflexivity].
  apply (mysql_lag_ignores_position (standby []) (MkMySQLView "running" (Ok false) (Ok None) (Ok "")
    (Ok (Some [("Read_Master_Log_Pos", VInt 500); ("Exec_Master_Log_Pos", VInt 500)])) (Ok (VStr "8.0.32")) VNone (Some "streaming"))
    (seen 500) [("lag", ["100"])] "100" [] 100 "/replica"); [done|left|done|vm_compute; done|simpl; lia].
Defined.
