(* ===== verification/ApiLease.v ===== *)
(** * Two primaries

    A node takes itself for the leader until its own [_leader_expiry] ([Ha.set_is_leader]), which it sets when
    the answer of the DCS arrives, and reports itself as the primary meanwhile.  In failsafe mode and at the end of a
    bootstrap it sets it without having been granted the key.  Over the abstract lease of [RaftLease], which the Raft
    backend refines, two nodes that have not done so are primaries at a time only at the very end of what one of them
    takes for its lease. *)
From S2P Require Import Prelude Lexing PyDict PyVal Effects Utils Tags DcsData GlobalConfig RaftLease ApiStatus.

Open Scope string_scope.
Open Scope Z_scope.

(** ** The endpoint of the primary *)

Section endpoint.
Context `{!Datetime}.
Implicit Types (v : AgentView).

Definition says_primary v (a : answered) (query : dict (list string)) : Prop :=
  is_200 (do_GET_code v a (at_path "/primary" query)) = true.

(** Only a node that takes itself for the leader of a cluster that is no standby cluster says so, unless the DCS is not known and
    the cluster is paused. *)
Lemma primary_leads v a query : says_primary v a query →
  (av_leads v = true ∧ is_standby_cluster (from_cluster (av_config v) (av_cluster v)) = false) ∨ known v = None.
Proof.
  unfold says_primary, do_GET_code. destruct (get_postgresql_status v a) as [response|]; [|done]. cbn [mbind exc_bind].
  unfold checks. destruct (replica_status v _ response) as [replica|]; [|done]. cbn [mbind exc_bind].
  cbn -[is_none known from_cluster is_standby_cluster truthy vget has_role].
  destruct (known v); [|by right]. cbn -[known from_cluster is_standby_cluster truthy vget has_role].
  destruct (av_leads v); [|done]. destruct (is_standby_cluster _); [done|]. by left.
Qed.
End endpoint.

(** ** The system *)
Section system.
Context (ttl skew delay : Z).
Hypothesis skew_nonneg : 0 ≤ skew.
Hypothesis delay_nonneg : 0 ≤ delay.

(** The lease, and what every node has as its [_leader_expiry] *)
Record agents := MkAgents { lease : Lease.state; expiry : string → Z }.

Definition put_expiry (n : string) (t : Z) (f : string → Z) : string → Z := λ m, if decide (m = n) then t else f m.

(** The clock of a node *)
Definition clock_at (s : agents) (t : Z) : Prop := Lease.time (lease s) - skew ≤ t ≤ Lease.time (lease s) + skew.

(** What a step does: to the holder of the key, or a node that takes itself for the leader without a grant *)
Inductive act := OnKey (l : Lease.label) | Assumes (n : string).

(** Steps of the lease; a node learns that its request, made at most [delay] ago, was granted ([set_is_leader(True)] in
    [acquire_lock] and [update_lock]); a node takes itself for the leader in failsafe mode or after it has bootstrapped the
    cluster ([set_is_leader(True)] in [_handle_dcs_error] and [post_bootstrap]); a node gives up ([set_is_leader(False)]). *)
Inductive agents_step : act → agents → agents → Prop :=
  | agents_lease l s s' : Lease.step ttl skew l (lease s) s' → agents_step (OnKey l) s (MkAgents s' (expiry s))
  | agents_learn n t s :
      clock_at s t → Lease.holds_until n (Lease.time (lease s) + ttl - delay - skew) (lease s) →
      agents_step (OnKey Lease.quiet) s (MkAgents (lease s) (put_expiry n (t + ttl) (expiry s)))
  | agents_assume n t s :
      clock_at s t → agents_step (Assumes n) s (MkAgents (lease s) (put_expiry n (t + ttl) (expiry s)))
  | agents_give_up n s : agents_step (OnKey Lease.quiet) s (MkAgents (lease s) (put_expiry n 0 (expiry s))).

(** The node's key is not taken away, and the node leads only by a grant. *)
Definition by_grant (n : string) (a : act) : Prop :=
  match a with OnKey l => Lease.undisturbed n l | Assumes m => m ≠ n end.

Inductive agents_steps : list act → agents → agents → Prop :=
  | agents_nil s : agents_steps [] s s
  | agents_cons l ls s s' s'' : agents_step l s s' → agents_steps ls s' s'' → agents_steps (l :: ls) s s''.

(** When the lease of a node may be over at the earliest *)
Definition sure_until (s : agents) (n : string) : Z := expiry s n - delay - 2 * skew.

(** The lease is still there, or it is time for it to be over. *)
Definition backed (n : string) (s : agents) : Prop :=
  0 ≤ Lease.time (lease s) ∧
  (Lease.holds_until n (sure_until s n) (lease s) ∧ sure_until s n ≤ Lease.time (lease s) + ttl - skew
   ∨ sure_until s n ≤ Lease.time (lease s) + skew).

Lemma lease_time l s s' : Lease.step ttl skew l s s' → Lease.time s ≤ Lease.time s'.
Proof. destruct 1; simpl; lia. Qed.

Lemma backed_step n l s s' : agents_step l s s' → by_grant n l → backed n s → backed n s'.
Proof.
  intros Hs Hu [H0 Hb]. destruct Hs as [l s s' Hs|m t s Hc Hh|m t s Hc|m s].
  - pose proof (lease_time _ _ _ Hs). split; [simpl; lia|]. unfold sure_until in *. simpl.
    destruct Hb as [[Hh Hle]|Hle]; [|right; lia].
    destruct (Z_lt_le_dec (Lease.time s' + skew) (expiry s n - delay - 2 * skew)) as [Hlt|Hge]; [|right; lia].
    left. split; [|lia]. by eapply Lease.holds_step.
  - split; [done|]. unfold sure_until, put_expiry in *. simpl. destruct (decide (n = m)) as [->|]; [|done].
    left. unfold clock_at in Hc. split; [|lia]. destruct Hh as [(e' & He & Hl) Hr].
    split; [exists e'; split; [done|lia]|]. intros e'' He''. specialize (Hr e'' He''). lia.
  - split; [done|]. unfold sure_until, put_expiry in *. simpl. by rewrite decide_False.
  - split; [done|]. unfold sure_until, put_expiry in *. simpl. destruct (decide (n = m)) as [->|]; [|done]. right. lia.
Qed.

Lemma backed_steps n ls s s' : agents_steps ls s s' → Forall (by_grant n) ls → backed n s → backed n s'.
Proof.
  induction 1 as [s|l ls s s1 s2 Hs _ IH]; [done|]. intros [Hl Hls]%Forall_cons Hb. apply IH; [done|]. by eapply backed_step.
Qed.

(** At the start no node takes itself for the leader. *)
Definition agents_initial (t : Z) (requests : list (string * Z)) : agents := MkAgents (Lease.MkState None requests t) (λ _, 0).

Lemma backed_initial n t requests : 0 ≤ t → backed n (agents_initial t requests).
Proof. intros Ht. split; [done|]. right. unfold sure_until. simpl. lia. Qed.

(** C13: two nodes that know the DCS, that have led only by a grant so far - not in failsafe mode, nor after bootstrapping
    the cluster - and whose leader key was neither released nor rewritten without a condition, answer /primary with 200 at the
    same moment only when one of them is at the end of what it takes for its lease: no more than the delay of an
    answer of the DCS and three times the skew of the clocks is left of it.  (A node's view of its leadership is its clock
    compared with its own expiry; an agent learns of a grant within the delay.) *)
Theorem primaries_overlap_bounded `{!Datetime} t0 requests ls s n m tn tm vn an qn vm am qm :
  0 ≤ t0 → agents_steps ls (agents_initial t0 requests) s →
  Forall (by_grant n) ls → Forall (by_grant m) ls → n ≠ m →
  clock_at s tn → clock_at s tm →
  av_leads vn = (tn <? expiry s n) → av_leads vm = (tm <? expiry s m) → known vn ≠ None → known vm ≠ None →
  says_primary vn an qn → says_primary vm am qm →
  (tn < expiry s n ∧ tm < expiry s m) ∧
  (expiry s n ≤ Lease.time (lease s) + delay + 3 * skew ∨ expiry s m ≤ Lease.time (lease s) + delay + 3 * skew).
Proof.
  intros H0 Hs Hn Hm Hne Hcn Hcm Hvn Hvm Hkn Hkm Hpn Hpm.
  apply primary_leads in Hpn as [[Hln _]|]; [|done]. apply primary_leads in Hpm as [[Hlm _]|]; [|done].
  rewrite Hvn in Hln. rewrite Hvm in Hlm. apply Z.ltb_lt in Hln, Hlm. split; [done|].
  destruct (backed_steps n _ _ _ Hs Hn (backed_initial n t0 requests H0)) as [_ Hbn].
  destruct (backed_steps m _ _ _ Hs Hm (backed_initial m t0 requests H0)) as [_ Hbm]. unfold sure_until in *.
  destruct Hbn as [[[(en & Hen & _) _] _]|]; [|left; lia]. destruct Hbm as [[[(em & Hem & _) _] _]|]; [|right; lia]. congruence.
Qed.
End system.

(** ** An overlap *)

(** The lease of "a" lapses while its answer was late, and "b" holds the key: for a moment both are primaries. *)
Definition overlap : agents :=
  MkAgents (Lease.MkState (Some ("b", 61)) [("b", 61); ("a", 30)] 31) (put_expiry "b" 61 (put_expiry "a" 32 (λ _, 0))).

Lemma overlap_reached : ∃ ls, agents_steps 30 0 2 ls (agents_initial 0 []) overlap ∧
  Forall (by_grant "a") ls ∧ Forall (by_grant "b") ls.
Proof.
  exists (replicate 9 (OnKey Lease.quiet)). split; [|split; by repeat constructor].
  eapply agents_cons. { apply agents_lease. apply (Lease.step_request _ _ _ "a" 30). simpl. lia. }
  eapply agents_cons. { apply agents_lease. by apply (Lease.step_grant _ _ _ "a" 30); [|left]. }
  eapply agents_cons. { apply agents_lease. apply (Lease.step_pass _ _ _ 2). simpl. lia. }
  eapply agents_cons. { apply (agents_learn _ _ _ "a" 2); [unfold clock_at; simpl; lia|]. split; [by exists 30|].
    intros e' [[= ->]|?%elem_of_nil]%elem_of_cons; [simpl; lia|done]. }
  eapply agents_cons. { apply agents_lease. apply (Lease.step_pass _ _ _ 31). simpl. lia. }
  eapply agents_cons. { apply agents_lease. apply (Lease.step_lapse _ _ _ "a" 30); [done|simpl; lia]. }
  eapply agents_cons. { apply agents_lease. apply (Lease.step_request _ _ _ "b" 61). simpl. lia. }
  eapply agents_cons. { apply agents_lease. apply (Lease.step_grant _ _ _ "b" 61); [done|left]. }
  eapply agents_cons; [|apply agents_nil].
  refine (agents_learn 30 0 2 "b" 31 (MkAgents (Lease.MkState (Some ("b", 61)) [("b", 61); ("a", 30)] 31) (put_expiry "a" 32 (λ _, 0))) _ _);
    [unfold clock_at; simpl; lia|]. split; [by exists 61|].
  intros e' [[= ->]|[?|?%elem_of_nil]%elem_of_cons]%elem_of_cons; [simpl; lia|done..].
Qed.

#[local] Existing Instance text_datetime.

Definition primary_view (name : string) (leads : bool) : AgentView :=
  MkView (Some (seen 500)) [] leads false [] 0 name "running" "primary".

Definition primary_row : answered :=
  PgAnswered 150000 (VInt 150002) false (λ t, t)
    (MkRow (VStr "now") 1 (VInt 500) VNone VNone (VBool false) VNone VNone VNone VNone VNone VNone).

Lemma primaries_overlap_bounded_witness :
  expiry overlap "a" ≤ Lease.time (lease overlap) + 2 + 3 * 0 ∨ expiry overlap "b" ≤ Lease.time (lease overlap) + 2 + 3 * 0.
Proof.
  destruct overlap_reached as (ls & Hs & Ha & Hb).
  refine (proj2 (primaries_overlap_bounded 30 0 2 _ _ 0 [] ls overlap "a" "b" 31 31 (primary_view "a" true) primary_row []
    (primary_view "b" true) primary_row [] _ Hs Ha Hb _ _ _ _ _ _ _ _ _)); try done; unfold clock_at, says_primary; simpl; try lia; vm_compute; reflexivity.
Defined.
