(* ===== verification/ApiActions.v ===== *)
(** * Requests of the REST API that change something ([patroni/api.py])

    Access control ([RestApiServer.check_access]), the routing of a request to its handler
    ([parse_request]) and the handlers of the requests that change the configuration, the cluster
    or the node.  A handler writes its responses to the client and acts on the agent through
    [ApiNode]. *)
From S2P Require Import Prelude Lexing Json PyDict PyVal Effects Utils PgMisc DcsData GlobalConfig Race MySQL.

Open Scope string_scope.
Open Scope Z_scope.

(** ** Access *)

(** [ip_address], [ip_network]: the version, and the number; a network has a number of significant bits *)
Record address := MkAddress { ad_version : Z; ad_bits : Z }.
Record network := MkNetwork { nw_version : Z; nw_base : Z; nw_prefix : Z }.

(** [address in network] *)
Definition in_network (a : address) (n : network) : bool :=
  let width := if nw_version n =? 4 then 32 else 128 in
  (ad_version a =? nw_version n) &&
  (Z.shiftr (ad_bits a) (width - nw_prefix n) =? Z.shiftr (nw_base n) (width - nw_prefix n)).

(** The settings of the server that concern access *)
Record Access := MkAccess {
  ac_allowlist : list network; ac_include_members : bool;
  ac_auth_key : string;                     (* the encoded user and password; empty without authentication *)
  ac_https : bool; ac_verify_client : string; ac_class : string;
}.

(** The client that sent a request *)
Record Client := MkClient { cl_ip : address; cl_cert : bool; cl_authorization : option string }.

(** A response: with a body, or an error page *)
Inductive reply := Reply (code : Z) (body : string) | JsonReply (code : Z) (body : pyval) | ErrorReply (code : Z).
Definition reply_code (r : reply) : Z := match r with Reply c _ | JsonReply c _ | ErrorReply c => c end.

(** [check_auth_header] *)
Definition check_auth_header (ac : Access) (auth_header : option string) : option string :=
  if (ac_auth_key ac =? "")%string then None else
  match auth_header with
  | None => Some "no auth header received"
  | Some h => if String.prefix "Basic " h && (String.substring 6 (String.length h) h =? ac_auth_key ac)%string
              then None else Some "not authenticated"
  end.

(** The host and port a member's API is reached at, when its URL has a host *)
Definition api_host_port (url : string) : exc (option (string * Z)) :=
  if negb (Bool.eqb (contains "[" (netloc url)) (contains "]" (netloc url))) then Raise ValueError else
  let host := url_hostname url in
  if (host =? "")%string then mret None else
  port ← url_port url;
  mret (Some (host, if negb (port =? 0) then port else if String.prefix "https:" (Str.lower url) then 443 else 80)).

Section access.
Context `{!Datetime} (resolve_ips : string → Z → list network).

(** [__members_ips]; the members of the worker clusters come after the cluster's own *)
Definition member_ips (m : Member) : list network :=
  match api_url m with
  | VStr url => if (url =? "")%string then [] else
                match api_host_port url with Ok (Some (host, port)) => resolve_ips host port | _ => [] end
  | _ => []
  end.

Definition members_ips (ac : Access) (cluster : option Cluster) : list network :=
  match cluster with
  | Some c => if ac_include_members ac && cluster_truthy c
              then flat_map (λ c, flat_map member_ips (members c)) (c :: map snd (workers c)) else []
  | None => []
  end.

(** [check_access]: why the request is refused *)
Definition check_access (ac : Access) (cluster : option Cluster) (allowlist_check_members : bool) (cl : Client) : option reply :=
  let allowlist_check_members := allowlist_check_members && ac_include_members ac in
  let ips := if allowlist_check_members then members_ips ac cluster else [] in
  if (match ac_allowlist ac with [] => allowlist_check_members | _ => true end) && negb (existsb (in_network (cl_ip cl)) (ac_allowlist ac ++ ips)%list)
  then Some (Reply 403 "Access is denied")
  else if negb (cl_cert cl) && ac_https ac && bool_decide (ac_verify_client ac ∈ ["required"; "optional"])
  then Some (Reply 403 "client certificate required")
  else match check_auth_header ac (cl_authorization cl) with
       | Some reason => Some (Reply 401 reason)
       | None => None
       end.
End access.

(** ** The agent *)

Class ApiNode `{!Datetime} (W : Type) := {
  ap_get_cluster : W → exc Cluster * W;
  ap_cached_cluster : W → option Cluster;
  ap_config : W → GlobalConfig;
  ap_set_config : string → pyval → W → exc bool * W;
  ap_manual_failover : pyval → pyval → option datetime → pyval → W → exc bool * W;
  ap_wakeup : W → W;
  ap_sleep : W → W;
  ap_loop_wait : W → Z;
  ap_statuses : list Member → W → exc (list _MemberStatus) * W;
  ap_restart : dict pyval → W → exc (bool * string) * W;
  ap_schedule_restart : dict pyval → option datetime → W → exc bool * W;
  ap_delete_restart : W → exc bool * W;
  ap_reinitialize : bool → bool → W → exc (option string) * W;
  ap_reload : W → W;
  ap_failsafe_mode : W → bool;
  ap_failsafe : W → option (dict pyval);                       (* [dcs.failsafe] *)
  ap_update_failsafe : dict pyval → W → exc pyval * W;
  ap_coordinator : W → bool;
  ap_leads : W → bool;
  ap_mpp_event : Cluster → dict pyval → W → exc () * W;
  (* dateutil's parser: the time, and whether it has a time zone *)
  ap_parse_date : pyval → exc (datetime * bool);
  ap_past : datetime → W → bool;
  ap_resolve_ips : W → string → Z → list network;
}.

(** The request as the handler sees it: the header [content-length] and the bytes that can be read *)
Record Http := MkHttp { ht_length : option string; ht_body : exc string; ht_client : Client }.

Section handlers.
Context `{!Datetime, !Json} {W : Type} `{!ApiNode W}.

(** What a request has done that others see: the responses, and what it asked to be written to the /failover key *)
Inductive entry := Response (r : reply) | FailoverKey (lead candidate : pyval) (scheduled_at : option datetime) (version : pyval).

(** The entries, the last one first, and the agent *)
Definition apiM (A : Type) : Type := eff (list entry * W) A.
#[global] Instance apiM_ret : MRet apiM := eff_ret _.
#[global] Instance apiM_bind : MBind apiM := eff_bind _.

Definition view {A} (f : W → A) : apiM A := gets (λ s, f s.2).
Definition act (f : W → W) : apiM () := puts (λ s, (s.1, f s.2)).
Definition invoke {A} (op : W → exc A * W) : apiM A := λ s, let '(r, w) := op s.2 in (r, (s.1, w)).
Definition record (e : entry) : apiM () := puts (λ s, (e :: s.1, s.2)).
Definition write (r : reply) : apiM () := record (Response r).
Definition write_response (code : Z) (body : string) : apiM () := write (Reply code body).
Definition send_error (code : Z) : apiM () := write (ErrorReply code).

(** [dcs.manual_failover] *)
Definition manual_failover (lead candidate : pyval) (scheduled_at : option datetime) (version : pyval) : apiM bool :=
  record (FailoverKey lead candidate scheduled_at version);; invoke (ap_manual_failover lead candidate scheduled_at version).

(** [_read_json_content] *)
Definition json_content (body_is_optional : bool) (h : Http) : exc (option (dict pyval)) :=
  n ← match ht_length h with
      | None | Some "" => mret 0
      | Some s => match int_of_string s with Some n => mret n | None => Raise ValueError end
      end;
  if (n =? 0) && body_is_optional then mret (Some []) else
  text ← ht_body h;
  value ← loads text;
  mret (match value with
        | VDict d => if negb (is_nil d) || body_is_optional then Some d else None
        | _ => None
        end).

Definition _read_json_content (body_is_optional : bool) (h : Http) : apiM (option (dict pyval)) :=
  match ht_length h with
  | None => if body_is_optional then mret (Some []) else send_error 411;; mret None
  | Some _ => match json_content body_is_optional h with
              | Ok (Some d) => mret (Some d)
              | Ok None | Raise _ => send_error 400;; mret None
              end
  end.

(** [if request] *)
Definition with_request (h : Http) (f : dict pyval → apiM ()) : apiM () :=
  request ← _read_json_content false h;
  match request with Some ((_ :: _) as d) => f d | _ => mret () end.

(** ** The configuration *)

Definition known_config (c : Cluster) : option ClusterConfig :=
  match config c with Some conf => if truthy (c_modify_version conf) then Some conf else None | None => None end.

(** [dcs.cluster or dcs.get_cluster()] *)
Definition any_cluster : apiM Cluster :=
  c ← view ap_cached_cluster;
  match c with
  | Some c => if cluster_truthy c then mret c else invoke ap_get_cluster
  | None => invoke ap_get_cluster
  end.

Definition do_GET_history : apiM () :=
  c ← any_cluster; write (JsonReply 200 (VList (match history c with Some h => h_lines h | None => [] end))).

Definition do_GET_config : apiM () :=
  c ← any_cluster;
  match known_config c with Some conf => write (JsonReply 200 (VDict (c_data conf))) | None => send_error 502 end.

Definition do_PATCH_config (h : Http) : apiM () :=
  with_request h (λ request,
    cluster ← invoke ap_get_cluster;
    match known_config cluster with
    | None => send_error 503
    | Some conf =>
        let '(data, changed) := patch_config (c_data conf) request in
        ok ← (if changed : bool then invoke (ap_set_config (dumps (VDict data)) (c_version conf)) else mret true);
        if negb ok then send_error 409 else act ap_wakeup;; write (JsonReply 200 (VDict data))
    end).

Definition do_PUT_config (h : Http) : apiM () :=
  with_request h (λ request,
    cluster ← invoke ap_get_cluster;
    let same := match config cluster with Some conf => deep_compare request (c_data conf) | None => false end in
    ok ← (if same then mret true else invoke (ap_set_config (dumps (VDict request)) VNone));
    if negb ok then send_error 502 else write (JsonReply 200 (VDict request))).

Definition do_POST_reload : apiM () := act ap_reload;; write_response 202 "reload scheduled".

(** ** Failsafe *)

Definition do_GET_failsafe : apiM () :=
  f ← view ap_failsafe;
  match f with Some d => write (JsonReply 200 (VDict d)) | None => send_error 502 end.

Definition do_POST_failsafe (h : Http) : apiM () :=
  on ← view ap_failsafe_mode;
  if on : bool then
    with_request h (λ request,
      ret ← invoke (ap_update_failsafe request);
      let message := match ret with VStr s => s | _ => "Accepted" end in
      write_response (if (message =? "Accepted")%string then 200 else 500) message)
  else send_error 502.

(** ** Restart *)

(** [parse_schedule]: the suggested status code and the error, or the time *)
Definition parse_schedule (schedule : pyval) (action : string) (w : W) : exc (Z * string + datetime) :=
  match ap_parse_date schedule with
  | Ok (t, true) => mret (if ap_past t w then inl (422, "Cannot schedule " +:+ action +:+ " in the past") else inr t)
  | Ok (t, false) => mret (inl (400, "Timezone information is mandatory for the scheduled " +:+ action))
  | Raise ValueError | Raise TypeError =>
      mret (inl (422, "Unable to parse scheduled timestamp. It should be in an unambiguous format, e.g. ISO 8601"))
  | Raise e => Raise e
  end.

Definition version_error (value : string) : string :=
  match all_ints (Str.split_on "." value) with
  | None => "Invalid PostgreSQL version: " +:+ value
  | Some _ => "Invalid PostgreSQL version format: X.Y or X.Y.Z is accepted: " +:+ value
  end.

(** The check of one key of a restart request: the error that ends the loop, or the value that replaces it *)
Definition restart_key (k : string) (value : pyval) (w : W) : exc (Z * string + (pyval * option datetime)) :=
  if (k =? "schedule")%string then
    r ← parse_schedule value "restart" w;
    mret (match r with inl e => inl e | inr t => inr (value, Some t) end)
  else if (k =? "role")%string then
    mret (if bool_decide (value ∈ map VStr ["primary"; "standby_leader"; "replica"]) then inr (value, None)
          else inl (400, "PostgreSQL role should be either primary, standby_leader, or replica"))
  else if (k =? "postgres_version")%string then
    match value with
    | VStr s => match postgres_version_to_int s with
                | Ok _ => mret (inr (value, None))
                | Raise PostgresException => mret (inl (400, version_error s))
                | Raise e => Raise e
                end
    | _ => Raise AttributeError
    end
  else if (k =? "timeout")%string then
    t ← parse_int value (VStr "s");
    mret (match t with
          | Some z => if 0 <? z then inr (VInt z, None) else inl (400, "Timeout should be a positive number of seconds")
          | None => inl (400, "Timeout should be a positive number of seconds")
          end)
  else if (k =? "restart_pending")%string then mret (inr (value, None))
  else mret (inl (400, "Unknown filter for the scheduled restart: " +:+ k)).

(** The loop over the request: the first error, or the request with the values replaced, and the parsed time *)
Fixpoint check_restart (request : dict pyval) (w : W) : exc (Z * string + (dict pyval * option datetime)) :=
  match request with
  | [] => mret (inr ([], None))
  | (k, value) :: rest =>
      r ← restart_key k value w;
      match r with
      | inl e => mret (inl e)
      | inr (value, t) =>
          rs ← check_restart rest w;
          mret (match rs with
                | inl e => inl e
                | inr (rest, t') => inr ((k, value) :: rest, match t with Some _ => t | None => t' end)
                end)
      end
  end.

(** An immediate restart: every exception is an error of the request; the time is then missing *)
Definition restart_now (request : dict pyval) : apiM (Z * string) := λ s,
  match invoke (ap_restart request) s with
  | (Ok (ok, text), s') => (Ok (if ok : bool then 200 else 503, text), s')
  | (Raise _, s') => (Ok (400, "restart failed"), s')
  end.

Definition do_POST_restart (h : Http) : apiM () :=
  request ← _read_json_content true h;
  cluster ← invoke ap_get_cluster;
  match request with
  | None => mret ()
  | Some request =>
      config ← view ap_config;
      if is_paused (from_cluster config (Some cluster)) && Dict.mem "schedule" request
      then write_response 500 "Can't schedule restart in the paused state" else
      w ← view id;
      r ← lift_exc (check_restart request w);
      match r with
      | inl (code, text) => write_response code text
      | inr (request, t) =>
          if negb (Dict.mem "schedule" request) then r ← restart_now request; write_response r.1 r.2 else
          ok ← invoke (ap_schedule_restart request t);
          if ok : bool then write_response 202 "Restart scheduled" else write_response 409 "Another restart is already scheduled"
      end
  end.

Definition do_DELETE_restart : apiM () :=
  ok ← invoke ap_delete_restart;
  if ok : bool then write_response 200 "scheduled restart deleted" else write_response 404 "no restarts are scheduled".

(** [isinstance(request, dict) and parse_bool(request.get(key)) or False] *)
Definition flag (key : string) (request : option (dict pyval)) : bool :=
  match request with Some d => default false (parse_bool (vget key d)) | None => false end.

(** A request that cannot be read has been answered, but goes on. *)
Definition do_POST_reinitialize (h : Http) : apiM () :=
  request ← _read_json_content true h;
  data ← invoke (ap_reinitialize (flag "force" request) (flag "from_leader" request));
  match data with
  | None => write_response 200 "reinitialize started"
  | Some e => write_response 503 e
  end.

(** ** Failover and switchover *)

Inductive action := Failover_ | Switchover.
#[export] Instance action_eq_dec : EqDecision action.
Proof. solve_decision. Defined.

Definition action_text (a : action) : string := match a with Failover_ => "failover" | Switchover => "switchover" end.
Definition action_title (a : action) : string := match a with Failover_ => "Failover" | Switchover => "Switchover" end.
(** [action[:-4]], and its title *)
Definition action_stem (a : action) : string := match a with Failover_ => "fail" | Switchover => "switch" end.
Definition action_stem_title (a : action) : string := match a with Failover_ => "Fail" | Switchover => "Switch" end.

(** [cluster.sync.matches(name)] for a value of the request *)
Definition sync_matches (s : SyncState) (name : pyval) : exc bool :=
  match name with
  | VStr n => matches s (Some n) false
  | _ => if truthy name && negb (s_is_empty s) then Raise AttributeError else mret false
  end.

Definition leader_is (c : Cluster) (name : pyval) : bool :=
  match leader c with Some l => pyval_eqb (VStr (l_name l)) name | None => false end.

(** The members that may take over, or why there are none *)
Definition failover_members (c : Cluster) (config : GlobalConfig) (lead candidate : pyval) (a : action) : exc (string + list Member) :=
  let sync_names := is_synchronous_mode config && negb (is_quorum_commit_mode config) in
  if truthy lead && negb (leader_is c lead) then mret (inl "leader name does not match")
  else if truthy candidate then
    ok ← (if bool_decide (a = Switchover) && sync_names then sync_matches (sync c) candidate else mret true);
    if negb ok then mret (inl "candidate name does not match with sync_standby") else
    let ms := List.filter (λ m, pyval_eqb (VStr (m_name m)) candidate) (members c) in
    mret (if is_nil ms then inl "candidate does not exists" else inr ms)
  else if sync_names then
    ms ← filterM (λ m, matches (sync c) (Some (m_name m)) false) (members c);
    mret (if is_nil ms then inl (action_text a +:+ " is not possible: can not find sync_standby") else inr ms)
  else
    let ms := List.filter (λ m, is_none (leader c) || (negb (leader_is c (VStr (m_name m))) && truthy (api_url m))) (members c) in
    mret (if is_nil ms then inl (action_text a +:+ " is not possible: cluster does not have members except leader") else inr ms).

(** Whether one of the statuses has no limitation *)
Fixpoint any_candidate (l : list _MemberStatus) : exc bool :=
  match l with
  | [] => mret false
  | st :: l => limited ← failover_limitation st; if limited : bool then any_candidate l else mret true
  end.

(** [is_failover_possible]: why it is not *)
Definition is_failover_possible (c : Cluster) (lead candidate : pyval) (a : action) : apiM (option string) :=
  g ← view ap_config;
  ms ← lift_exc (failover_members c (from_cluster g (Some c)) lead candidate a);
  match ms with
  | inl e => mret (Some e)
  | inr ms =>
      sts ← invoke (ap_statuses ms);
      ok ← lift_exc (any_candidate sts);
      mret (if ok : bool then None else Some (action_text a +:+ " is not possible: no good candidates have been found"))
  end.

(** One round of [poll_failover_result]: the answer that ends it *)
Definition poll_cluster (c : Cluster) (lead : option string) (candidate : pyval) (a : action) : option (Z * string) :=
  let done := match leader c with
              | Some l => if negb (is_unlocked c) && negb (bool_decide (Some (l_name l) = lead)) then Some (l_name l) else None
              | None => None
              end in
  match done with
  | Some name =>
      if negb (truthy candidate) || pyval_eqb candidate (VStr name)
      then Some (200, "Successfully " +:+ action_stem a +:+ "ed over to " +:+ String dquote name +:+ String dquote "")
      else Some (200, action_stem_title a +:+ "ed over to " +:+ String dquote name +:+ String dquote " instead of "
                      +:+ String dquote (py_str candidate) +:+ String dquote "")
  | None =>
      match failover c with
      | Some f => if failover_truthy f then None else Some (503, action_title a +:+ " failed")
      | None => Some (503, action_title a +:+ " failed")
      end
  end.

Fixpoint poll_rounds (n : nat) (lead : option string) (candidate : pyval) (a : action) : apiM (Z * string) :=
  match n with
  | O => mret (503, action_title a +:+ " status unknown")
  | S n => λ s,
      let s := (s.1, ap_sleep s.2) in
      match invoke ap_get_cluster s with
      | (Ok c, s') => match poll_cluster c lead candidate a with
                      | Some r => (Ok r, s')
                      | None => poll_rounds n lead candidate a s'
                      end
      | (Raise _, s') => poll_rounds n lead candidate a s'
      end
  end.

Definition poll_failover_result (lead : option string) (candidate : pyval) (a : action) : apiM (Z * string) :=
  loop_wait ← view ap_loop_wait;
  poll_rounds (Z.to_nat (Z.max 10 loop_wait * 2)) lead candidate a.

(** The checks of a request before the cluster is looked at: a status code, when there is one, and the error; or the
    time and whether the status code is still set.  [parse_schedule] without an error takes the status code away. *)
Definition check_request (a : action) (lead candidate scheduled_at : pyval) (config : GlobalConfig) (w : W)
    : exc (option Z * string + option datetime) :=
  let bad text := mret (inl (Some 400, text)) in
  if bool_decide (a = Failover_) && negb (truthy candidate) then bad "Failover could be performed only to a specific candidate"
  else if bool_decide (a = Switchover) && negb (truthy lead) then bad "Switchover could be performed only from a specific leader"
  else if truthy scheduled_at && bool_decide (a = Failover_) then bad "Failover can't be scheduled"
  else if truthy scheduled_at && is_paused config then bad "Can't schedule switchover in the paused state"
  else
    r ← (if truthy scheduled_at then r ← parse_schedule scheduled_at (action_text a) w;
           mret (match r with inl (code, e) => inl (code, e) | inr t => inr (Some t) end)
         else mret (inr None));
    match r with
    | inl (code, e) => mret (inl (Some code, e))
    | inr t =>
        if is_paused config && negb (truthy candidate) then bad "Switchover is possible only to a specific candidate in a paused state"
        else if pyval_eqb lead candidate
        then mret (inl (match t with Some _ => None | None => Some 400 end, "Switchover target and source are the same"))
        else mret (inr t)
    end.

(** [send_response] formats the status code as a number. *)
Definition respond (status_code : option Z) (data : string) : apiM () :=
  match status_code with Some code => write_response code data | None => lift_exc (Raise TypeError) end.

(** A failover request that names the leader is a switchover. *)
Definition effective_action (a : action) (lead : pyval) : action := if truthy lead then Switchover else a.

Definition run_failover (a : action) (c : Cluster) (lead candidate : pyval) (scheduled : option datetime) : apiM () :=
  let a := effective_action a lead in
  e ← match scheduled with Some _ => mret None | None => is_failover_possible c lead candidate a end;
  match e with
  | Some e => write_response 412 e
  | None =>
      ok ← manual_failover lead candidate scheduled VNone;
      if negb ok then write_response 503 "failed to write failover key into DCS" else
      act ap_wakeup;;
      match scheduled with
      | Some _ => write_response 202 (action_title a +:+ " scheduled")
      | None => r ← poll_failover_result (DcsData.leader_name c) candidate a; write_response r.1 r.2
      end
  end.

Definition do_POST_failover (a : action) (h : Http) : apiM () :=
  with_request h (λ request,
    let lead := vget "leader" request in
    let candidate := py_or (vget "candidate" request) (vget "member" request) in
    cluster ← invoke ap_get_cluster;
    g ← view ap_config;
    w ← view id;
    r ← lift_exc (check_request a lead candidate (vget "scheduled_at" request) (from_cluster g (Some cluster)) w);
    match r with
    | inl (code, e) => respond code e
    | inr scheduled => run_failover a cluster lead candidate scheduled
    end).

Definition do_DELETE_switchover : apiM () :=
  cluster ← invoke ap_get_cluster;
  match failover cluster with
  | Some f =>
      if failover_truthy f && (if f_scheduled_at f is Some _ then true else false) then
        ok ← manual_failover (VStr "") (VStr "") None (f_version f);
        if ok : bool then write_response 200 "scheduled switchover deleted" else send_error 409
      else write_response 404 "no switchover is scheduled"
  | None => write_response 404 "no switchover is scheduled"
  end.

(** ** Worker groups *)

Definition do_POST_mpp (h : Http) : apiM () :=
  with_request h (λ request,
    coordinator ← view ap_coordinator; leads ← view ap_leads;
    (if (coordinator : bool) && leads then c ← invoke ap_get_cluster; invoke (ap_mpp_event c request) else mret ());;
    write_response 200 "OK").

(** ** Routing *)

(** The handlers that change something, and [GET] requests with a handler here *)
Inductive route :=
  | RPatchConfig | RPutConfig | RPostReload | RPostFailsafe | RPostSigterm | RPostRestart | RDeleteRestart | RDeleteSwitchover
  | RPostReinitialize | RPostFailover | RPostSwitchover | RPostCitus | RPostMpp.
#[export] Instance route_eq_dec : EqDecision route.
Proof. solve_decision. Defined.

Definition lstrip_slash (s : string) : string := lstrip_chars (Ascii.eqb "/") s.

(** [mname] of [parse_request], for the path without its query *)
Definition method_name (command path : string) : string :=
  let first := default "" (head (Str.split_on "/" (lstrip_slash path))) in
  if (first =? "")%string then command else command +:+ "_" +:+ first.

Definition routes : dict route :=
  [("PATCH_config", RPatchConfig); ("PUT_config", RPutConfig); ("POST_reload", RPostReload); ("POST_failsafe", RPostFailsafe);
   ("POST_sigterm", RPostSigterm); ("POST_restart", RPostRestart); ("DELETE_restart", RDeleteRestart);
   ("DELETE_switchover", RDeleteSwitchover); ("POST_reinitialize", RPostReinitialize); ("POST_failover", RPostFailover);
   ("POST_switchover", RPostSwitchover); ("POST_citus", RPostCitus); ("POST_mpp", RPostMpp)].

(** The decorator [check_access] *)
Definition guarded (ac : Access) (allowlist_check_members : bool) (h : Http) (m : apiM ()) : apiM () :=
  w ← view id;
  match check_access (ap_resolve_ips w) ac (ap_cached_cluster w) allowlist_check_members (ht_client h) with
  | Some r => write r
  | None => m
  end.

(** The handler of a route, with its decorators; [sigterm] only acts on Windows in tests. *)
Definition handle (ac : Access) (r : route) (h : Http) : apiM () :=
  match r with
  | RPatchConfig => guarded ac true h (do_PATCH_config h)
  | RPutConfig => guarded ac true h (do_PUT_config h)
  | RPostReload => guarded ac true h do_POST_reload
  | RPostFailsafe => guarded ac false h (do_POST_failsafe h)
  | RPostSigterm => guarded ac true h (write_response 202 "shutdown scheduled")
  | RPostRestart => guarded ac true h (do_POST_restart h)
  | RDeleteRestart => guarded ac true h do_DELETE_restart
  | RDeleteSwitchover => guarded ac true h do_DELETE_switchover
  | RPostReinitialize => guarded ac true h (do_POST_reinitialize h)
  | RPostFailover => guarded ac true h (do_POST_failover Failover_ h)
  | RPostSwitchover => guarded ac true h (do_POST_failover Switchover h)
  | RPostCitus => guarded ac true h (do_POST_mpp h)
  | RPostMpp => do_POST_mpp h
  end.

(** A request that changes something: without a handler it is answered with an error by [http.server] *)
Definition serve (ac : Access) (command path : string) (h : Http) : apiM () :=
  match Dict.get (method_name command path) routes with
  | Some r => handle ac r h
  | None => send_error 501
  end.
End handlers.
