(* ===== verification/ApiProps.v ===== *)
(** * What the REST API guards

    Access control in front of the handlers, what a failover request has to satisfy before the /failover key is
    written, and requests whose handlers do not do what their documentation says. *)
From S2P Require Import Prelude Lexing Json PyDict PyVal Effects Utils PgMisc DcsData GlobalConfig Race ApiActions.

Open Scope string_scope.
Open Scope Z_scope.

Section props.
Context `{!Datetime, !Json} {W : Type} `{!ApiNode W}.
Implicit Types (s : list entry * W) (ac : Access) (h : Http).

(** ** Access *)

(** Whatever the flag of the decorator, the client is refused. *)
Definition refused ac (w : W) (cl : Client) : Prop :=
  ∀ b, check_access (ap_resolve_ips w) ac (ap_cached_cluster w) b cl ≠ None.

Lemma check_access_code resolve ac c b cl r : check_access resolve ac c b cl = Some r → reply_code r = 401 ∨ reply_code r = 403.
Proof. unfold check_access. repeat case_match; intros [= <-]; auto. Qed.

Lemma guarded_refused ac b h (m : apiM (W := W) ()) log w : refused ac w (ht_client h) →
  ∃ r, guarded ac b h m (log, w) = (Ok (), (Response r :: log, w)) ∧ (reply_code r = 401 ∨ reply_code r = 403).
Proof.
  intros Hrf. unfold guarded, view, gets, mbind, apiM_bind, eff_bind. simpl. specialize (Hrf b).
  destruct (check_access _ ac _ b _) as [r|] eqn:E; [|done]. exists r. split; [done|by eapply check_access_code].
Qed.

(** C29: a request that changes something, from a client that the configured allowlist, client certificate or password
    refuses, is answered with 401 or 403 (501 when there is no such handler) and leaves the agent exactly as it was, for every
    method and path but POST /mpp. *)
Theorem access_required ac command path h log (w : W) :
  refused ac w (ht_client h) → method_name command path ≠ "POST_mpp" →
  ∃ r, serve ac command path h (log, w) = (Ok (), (Response r :: log, w)) ∧
    (reply_code r = 401 ∨ reply_code r = 403 ∨ reply_code r = 501).
Proof.
  intros Hr Hm. unfold serve. destruct (Dict.get (method_name command path) routes) as [rt|] eqn:E.
  2: { exists (ErrorReply 501). auto. }
  assert (rt ≠ RPostMpp) as Hne.
  { intros ->. apply Hm. revert E. unfold routes. cbn [Dict.get]. repeat case_decide; by try congruence. }
  destruct rt; try done; cbn [handle];
    edestruct (guarded_refused ac) as (r & Hs & Hc); try exact Hr; exists r; (split; [exact Hs|tauto]).
Qed.

(** The handler of POST /mpp is the one of POST /citus without its check. *)
Lemma mpp_unguarded ac h : handle (W := W) ac RPostMpp h = do_POST_mpp h.
Proof. done. Qed.

(** ** Failover requests *)

(** The entries since the start of a request *)
Definition logs (P : entry → Prop) {A} (m : apiM (W := W) A) : Prop := adds (λ s : list entry * W, s.1) P m.

Definition no_key (e : entry) : Prop := match e with FailoverKey _ _ _ _ => False | Response _ => True end.

Lemma logs_write P r : P (Response r) → logs P (write (W := W) r).
Proof. intros Hr. by apply (adds_one _ _ _ (Response r)). Qed.

Lemma logs_invoke P {A} (op : W → exc A * W) : logs P (invoke op).
Proof. apply adds_keep. intros s. unfold invoke. by destruct (op s.2). Qed.

Lemma logs_poll P n lead candidate a : logs P (poll_rounds (W := W) n lead candidate a).
Proof.
  induction n as [|n IH]; cbn [poll_rounds]; [by apply adds_keep|]. intros s.
  pose proof (logs_invoke P ap_get_cluster (s.1, ap_sleep s.2)) as (n1 & H1 & Hn1).
  destruct (invoke ap_get_cluster (s.1, ap_sleep s.2)) as [[c|e] s1]; simpl in H1.
  - destruct (poll_cluster c lead candidate a); [by exists n1|]. destruct (IH s1) as (n2 & H2 & Hn2).
    exists (n2 ++ n1)%list. rewrite H2, H1, app_assoc. split; [done|by apply Forall_app].
  - destruct (IH s1) as (n2 & H2 & Hn2). exists (n2 ++ n1)%list. rewrite H2, H1, app_assoc. split; [done|by apply Forall_app].
Qed.

(** The same from one state, where what was computed before is known *)
Definition logs_from (P : entry → Prop) {A} s (m : apiM (W := W) A) : Prop := ∃ new, (m s).2.1 = (new ++ s.1)%list ∧ Forall P new.

Lemma from_bind P {A B} s (m : apiM (W := W) A) (f : A → apiM B) :
  logs P m → (∀ a s1, m s = (Ok a, s1) → logs_from P s1 (f a)) → logs_from P s (m ≫= f).
Proof.
  intros Hm Hf. unfold logs_from, mbind, apiM_bind, eff_bind. destruct (Hm s) as (n1 & H1 & Hn1).
  destruct (m s) as [[a|e] s1]; [|by exists n1].
  destruct (Hf a s1 eq_refl) as (n2 & H2 & Hn2). exists (n2 ++ n1)%list. simpl in H1. rewrite H2, H1, app_assoc.
  split; [done|by apply Forall_app].
Qed.

Lemma from_logs P {A} s (m : apiM (W := W) A) : logs P m → logs_from P s m.
Proof. intros Hm. apply Hm. Qed.

Lemma logs_keep P {A} (m : apiM (W := W) A) : (∀ s, (m s).2.1 = s.1) → logs P m.
Proof. apply adds_keep. Qed.

(** What the members that may take over have in common *)
Definition sync_names (config : GlobalConfig) : bool := is_synchronous_mode config && negb (is_quorum_commit_mode config).

Definition eligible (c : Cluster) (config : GlobalConfig) (lead candidate : pyval) (m : Member) : Prop :=
  m ∈ members c ∧
  if truthy candidate then VStr (m_name m) = candidate ∧
    (truthy lead = true → sync_names config = true → sync_matches (sync c) candidate = Ok true)
  else if sync_names config then matches (sync c) (Some (m_name m)) false = Ok true
  else leader c = None ∨ (leader_is c (VStr (m_name m)) = false ∧ truthy (api_url m) = true).

Lemma elem_of_filterM {A} (p : A → exc bool) l l' x : filterM p l = Ok l' → x ∈ l' → x ∈ l ∧ p x = Ok true.
Proof.
  revert l'. induction l as [|y l IH]; intros l'; cbn [filterM]; [intros [= <-] ?%elem_of_nil; done|].
  destruct (p y) as [b|] eqn:Ep; [|done]. cbn. destruct (filterM p l) as [r|]; [|done]. cbn. intros [= <-] Hx.
  destruct b.
  - apply elem_of_cons in Hx as [->|Hx]; [by split; [left|]|]. destruct (IH r eq_refl Hx). by split; [right|].
  - destruct (IH r eq_refl Hx). by split; [right|].
Qed.

Lemma failover_members_spec c config lead candidate a ms :
  (truthy lead = true → a = Switchover) →
  failover_members c config lead candidate a = Ok (inr ms) →
  (truthy lead = true → leader_is c lead = true) ∧ ∀ m, m ∈ ms → eligible c config lead candidate m.
Proof.
  intros Ha. unfold failover_members. fold (sync_names config).
  destruct (truthy lead && negb (leader_is c lead)) eqn:El; [done|].
  intros Hm. split; [intros Hl; rewrite Hl in El; by apply negb_false_iff in El|].
  unfold eligible. destruct (truthy candidate).
  - destruct (if bool_decide (a = Switchover) && sync_names config then _ else _) as [ok|] eqn:Eok; [|done]. cbn in Hm.
    destruct ok; [|done]. cbn in Hm. destruct (is_nil _) eqn:Enil in Hm; [done|]. injection Hm as <-.
    intros m Hin. apply list_elem_of_In, filter_In in Hin as [Hin%list_elem_of_In Hn]. split; [done|].
    change (pyval_eqb (VStr (m_name m)) candidate = true) in Hn. apply pyval_eqb_eq in Hn. split; [done|]. intros Hl Hs. rewrite (bool_decide_eq_true_2 _ (Ha Hl)), Hs in Eok. done.
  - destruct (sync_names config).
    + destruct (filterM _ _) as [l|] eqn:Ef; [|done]. cbn in Hm. destruct (is_nil l); [done|]. injection Hm as <-.
      intros m Hin. exact (elem_of_filterM _ _ _ _ Ef Hin).
    + destruct (is_nil _) in Hm; [done|]. injection Hm as <-. intros m Hin.
      apply list_elem_of_In, filter_In in Hin as [Hin%list_elem_of_In Hn]. split; [done|].
      apply orb_prop in Hn as [Hn|Hn]; [left; by destruct (leader c)|right]. apply andb_prop in Hn as [Hn ?].
      by apply negb_true_iff in Hn.
Qed.

Lemma any_candidate_spec l : any_candidate l = Ok true → ∃ st, st ∈ l ∧ failover_limitation st = Ok false.
Proof.
  induction l as [|st l IH]; cbn [any_candidate]; [done|]. destruct (failover_limitation st) as [b|] eqn:E; [|done]. cbn.
  destruct b.
  - intros Hl. destruct (IH Hl) as (x & Hx & ?). exists x. by split; [right|].
  - intros _. exists st. by split; [left|].
Qed.

(** What a request may have written to the /failover key: it names a leader or a candidate, not the same; a time only
    for a switchover, outside of pause, which is not in the past and has a time zone; without a time, the leader is the one
    named, if one is, and of eligible members whose statuses were asked for one has no failover limitation. *)
Definition permitted (c : Cluster) (config : GlobalConfig) (w : W) (sched lead candidate : pyval) (t : option datetime) : Prop :=
  (truthy lead = true ∨ truthy candidate = true) ∧ lead ≠ candidate ∧
  (is_paused config = true → truthy candidate = true) ∧
  match t with
  | Some t => truthy lead = true ∧ is_paused config = false ∧ ap_past t w = false ∧ ap_parse_date sched = Ok (t, true)
  | None => (truthy lead = true → leader_is c lead = true) ∧
      ∃ ms sts st, (∀ m, m ∈ ms → eligible c config lead candidate m) ∧
        (ap_statuses ms w).1 = Ok sts ∧ st ∈ sts ∧ failover_limitation st = Ok false
  end.

(** The entry is what the request [h] asks for, and is permitted by the cluster that the handler reads in [w]. *)
Definition asked_and_permitted (h : Http) (w : W) (lead candidate : pyval) (t : option datetime) (version : pyval) : Prop :=
  version = VNone ∧ ∃ request c w', json_content false h = Ok (Some request) ∧
    lead = vget "leader" request ∧ candidate = py_or (vget "candidate" request) (vget "member" request) ∧
    ap_get_cluster w = (Ok c, w') ∧
    permitted c (from_cluster (ap_config w') (Some c)) w' (vget "scheduled_at" request) lead candidate t.

Definition entry_permitted (h : Http) (w : W) (e : entry) : Prop :=
  match e with FailoverKey lead candidate t version => asked_and_permitted h w lead candidate t version | Response _ => True end.

Lemma parse_schedule_spec v a (w : W) t : parse_schedule v a w = Ok (inr t) → ap_past t w = false ∧ ap_parse_date v = Ok (t, true).
Proof.
  unfold parse_schedule. destruct (ap_parse_date v) as [[d []]|[]] eqn:E; try done. destruct (ap_past d w) eqn:Ep; [done|].
  intros [= <-]. done.
Qed.

Lemma check_request_spec a lead candidate sched config (w : W) t :
  check_request a lead candidate sched config w = Ok (inr t) →
  (truthy lead = true ∨ truthy candidate = true) ∧ lead ≠ candidate ∧ (is_paused config = true → truthy candidate = true) ∧
  match t with
  | Some t => truthy lead = true ∧ is_paused config = false ∧ ap_past t w = false ∧ ap_parse_date sched = Ok (t, true)
  | None => True
  end.
Proof.
  unfold check_request.
  destruct (bool_decide (a = Failover_) && _) eqn:E1; [done|]. destruct (bool_decide (a = Switchover) && _) eqn:E2; [done|].
  destruct (truthy sched && bool_decide (a = Failover_)) eqn:E3; [done|]. destruct (truthy sched && is_paused config) eqn:E4; [done|].
  assert (truthy lead = true ∨ truthy candidate = true) as Hone.
  { destruct a; simpl in *; [right|left]; destruct (truthy lead), (truthy candidate); done. }
  intros Hr. split; [done|].
  destruct (truthy sched) eqn:Es; cbn [andb] in *.
  - destruct (parse_schedule sched (action_text a) w) as [[e|d]|] eqn:Ep; try done; cbn in Hr; [by destruct e|].
    rewrite E4 in *. cbn in Hr. destruct (pyval_eqb lead candidate) eqn:El; [done|]. injection Hr as <-.
    destruct (parse_schedule_spec _ _ _ _ Ep).
    split_and!; [by intros ->; rewrite (proj2 (pyval_eqb_eq _ _) eq_refl) in El|done| |done|done|done].
    destruct a; [done|]. simpl in E2. by apply negb_false_iff in E2.
  - cbn in Hr. destruct (is_paused config && negb (truthy candidate)) eqn:Eq; [done|].
    destruct (pyval_eqb lead candidate) eqn:El; [done|]. injection Hr as <-.
    split_and!; [by intros ->; rewrite (proj2 (pyval_eqb_eq _ _) eq_refl) in El| |done].
    intros Hp. rewrite Hp in Eq. by apply negb_false_iff in Eq.
Qed.

Lemma read_spec h (s : list entry * W) d s' : _read_json_content false h s = (Ok (Some d), s') → s' = s ∧ json_content false h = Ok (Some d).
Proof.
  unfold _read_json_content. destruct (ht_length h); [destruct (json_content false h) as [[d'|]|]|]; try by intros [= _ _].
  by intros [= <- <-].
Qed.

Lemma logs_read (P : entry → Prop) b h : (∀ r, P (Response r)) → logs P (_read_json_content (W := W) b h).
Proof.
  intros HP. unfold _read_json_content, send_error.
  repeat case_match; first [by apply logs_keep | apply adds_bind; [by apply logs_write|intros ?; by apply logs_keep]].
Qed.

Lemma possible_spec c lead candidate a s s' : (truthy lead = true → a = Switchover) →
  is_failover_possible c lead candidate a s = (Ok None, s') →
  (truthy lead = true → leader_is c lead = true) ∧
  ∃ ms sts st, (∀ m, m ∈ ms → eligible c (from_cluster (ap_config s.2) (Some c)) lead candidate m) ∧
    (ap_statuses ms s.2).1 = Ok sts ∧ st ∈ sts ∧ failover_limitation st = Ok false.
Proof.
  intros Ha Hs. destruct s as [log w]. unfold is_failover_possible, view, gets, mbind, apiM_bind, eff_bind, lift_exc in Hs. simpl in Hs.
  destruct (failover_members _ _ _ _ _) as [[e|ms]|] eqn:Em; simpl in Hs; try done.
  destruct (failover_members_spec _ _ _ _ _ _ Ha Em) as [Hl He]. split; [done|].
  unfold invoke in Hs. simpl in Hs. destruct (ap_statuses ms w) as [[sts|e] w1] eqn:Es; [|done].
  destruct (any_candidate sts) as [[]|] eqn:Ec; try done. destruct (any_candidate_spec _ Ec) as (st & Hst & Hlim).
  exists ms, sts, st. simpl. by rewrite Es.
Qed.

Lemma logs_possible P c lead candidate a : logs P (is_failover_possible (W := W) c lead candidate a).
Proof.
  unfold is_failover_possible. apply adds_bind; [by apply logs_keep|intros g]. apply adds_bind; [by apply logs_keep|intros [e|ms]].
  - by apply logs_keep.
  - apply adds_bind; [apply logs_invoke|intros sts]. apply adds_bind; [by apply logs_keep|intros ok]. by apply logs_keep.
Qed.

Lemma logs_manual (P : entry → Prop) lead candidate t v : P (FailoverKey lead candidate t v) →
  logs P (manual_failover (W := W) lead candidate t v).
Proof. intros Hp. apply adds_bind; [by apply (adds_one _ _ _ (FailoverKey lead candidate t v))|intros []; apply logs_invoke]. Qed.

Lemma logs_respond (P : entry → Prop) code e : (∀ r, P (Response r)) → logs P (respond (W := W) code e).
Proof. intros Hp. destruct code; [by apply logs_write|by apply logs_keep]. Qed.

Lemma effective_switchover a lead : truthy lead = true → effective_action a lead = Switchover.
Proof. unfold effective_action. by intros ->. Qed.

(** What follows the checks of the request *)
Lemma logs_run (P : entry → Prop) a c sched lead candidate t log (w : W) :
  (∀ r, P (Response r)) →
  (permitted c (from_cluster (ap_config w) (Some c)) w sched lead candidate t → P (FailoverKey lead candidate t VNone)) →
  (let config := from_cluster (ap_config w) (Some c) in
   (truthy lead = true ∨ truthy candidate = true) ∧ lead ≠ candidate ∧ (is_paused config = true → truthy candidate = true) ∧
   match t with
   | Some t => truthy lead = true ∧ is_paused config = false ∧ ap_past t w = false ∧ ap_parse_date sched = Ok (t, true)
   | None => True
   end) →
  logs_from P (log, w) (run_failover a c lead candidate t).
Proof.
  intros HP Hkey (Hone & Hne & Hp & Ht). unfold run_failover. apply from_bind.
  { destruct t; [by apply logs_keep|apply logs_possible]. }
  intros e s1 Hs. destruct e as [e|]; [by apply from_logs, logs_write|]. apply from_bind.
  - apply logs_manual, Hkey. split_and!; [done..|].
    destruct t; [done|]. by eapply (possible_spec _ _ _ _ (log, w)), Hs; apply effective_switchover.
  - intros ok s2 _. apply from_logs. destruct ok; [|by apply logs_write]. apply adds_bind; [by apply logs_keep|intros []].
    destruct t; [by apply logs_write|]. unfold poll_failover_result.
    apply adds_bind; [apply adds_bind; [by apply logs_keep|intros lw; apply logs_poll]|intros r]. by apply logs_write.
Qed.

(** C14: what a failover or switchover request has written to the /failover key is what the request names, and is permitted
    by the cluster that this handler read.  It names a leader or a candidate, and they differ; in pause it names a candidate.
    With a time: it is the time of the request, with a time zone and not in the past, a leader is named, and the cluster is
    not paused - whether that leader leads and who may take over is only looked at when the time has come.  Without a
    time: a leader that is named leads, and of the members whose statuses were asked for - the candidate, which
    has to match /sync when a leader is named in synchronous mode without quorum commit; without a candidate the members
    that /sync names in that mode, and otherwise members with an API other than the leader - one has no failover limitation. *)
Theorem failover_guarded a h (w : W) lead candidate t version :
  FailoverKey lead candidate t version ∈ (do_POST_failover a h ([], w)).2.1 → asked_and_permitted h w lead candidate t version.
Proof.
  assert (logs_from (entry_permitted h w) ([], w) (do_POST_failover a h)) as (new & Hn & Hall).
  2: { rewrite Hn, app_nil_r. rewrite Forall_forall in Hall. intros Hin. exact (Hall _ Hin). }
  unfold do_POST_failover, with_request. apply from_bind; [by apply logs_read|]. intros r s1 Hread.
  destruct r as [[|kv d]|]; [by apply from_logs, logs_keep| |by apply from_logs, logs_keep].
  apply read_spec in Hread as [-> Hjson]. set (request := kv :: d) in *. apply from_bind; [apply logs_invoke|]. intros c s2 Hc.
  unfold invoke in Hc. simpl in Hc. destruct (ap_get_cluster w) as [rc w2] eqn:Eg. injection Hc as -> <-.
  apply from_bind; [by apply logs_keep|]. intros g s3 [= <- <-]. apply from_bind; [by apply logs_keep|]. intros w' s4 [= <- <-].
  apply from_bind; [by apply logs_keep|]. intros r s5 Hr. unfold lift_exc in Hr. injection Hr as Hr <-.
  destruct r as [[code e]|t']; [by apply from_logs, logs_respond|].
  apply (logs_run _ a c (vget "scheduled_at" request)); [done| |by eapply check_request_spec].
  intros Hp. split; [done|]. by exists request, c, w2.
Qed.

(** ** Requests that are answered wrongly *)

Lemma read_ok b h d : ht_length h ≠ None → json_content b h = Ok (Some d) → _read_json_content (W := W) b h = mret (Some d).
Proof. intros Hl Hj. unfold _read_json_content. destruct (ht_length h); [|done]. by rewrite Hj. Qed.

(** A switchover that is scheduled from a leader to the same node is not answered: [parse_schedule] has set the status
    code to [None], which the response cannot format, so the handler raises [TypeError] and nothing is sent, while the same
    request without a time is answered with 400. *)
Theorem same_node_schedule_unanswered h request n c t (w w' : W) :
  ht_length h ≠ None → json_content false h = Ok (Some request) →
  vget "leader" request = VStr n → n ≠ "" → vget "candidate" request = VStr n → truthy (vget "scheduled_at" request) = true →
  ap_get_cluster w = (Ok c, w') → is_paused (from_cluster (ap_config w') (Some c)) = false →
  ap_parse_date (vget "scheduled_at" request) = Ok (t, true) → ap_past t w' = false →
  do_POST_failover Switchover h ([], w) = (Raise TypeError, ([], w')).
Proof.
  intros Hl Hj Hlead Hn Hcand Hs Hc Hp Hd Hpast. unfold do_POST_failover, with_request. rewrite (read_ok _ _ _ Hl Hj).
  assert (∃ kv d, request = kv :: d) as (kv & d & Hreq) by (destruct request as [|kv d]; [done|by eexists _, _]).
  unfold mbind at 1, apiM_bind at 1, eff_bind at 1. unfold mret, apiM_ret, eff_ret. cbn beta iota zeta.
  assert (∀ A (x y : A), match request with [] => x | _ :: _ => y end = y) as Hmatch by (intros; by rewrite Hreq).
  rewrite Hmatch. cbn beta iota zeta. clear Hmatch Hreq.
  assert (truthy (VStr n) = true) as Htn by (simpl; by destruct (String.eqb_spec n "")).
  rewrite Hlead, Hcand. unfold py_or. rewrite Htn.
  unfold invoke, view, gets, lift_exc, mbind, apiM_bind, eff_bind. cbn [fst snd]. rewrite Hc. cbn [fst snd id].
  unfold check_request. rewrite Htn, Hs, Hp. cbn. unfold parse_schedule. rewrite Hd, Hpast. cbn. by rewrite String.eqb_refl.
Qed.

(** A reinitialize request whose body is not JSON is refused with 400, and the reinitialization is started all the same,
    with a second response. *)
Theorem bad_reinitialize_runs h e (w : W) :
  ht_length h ≠ None → json_content true h = Raise e →
  do_POST_reinitialize h ([], w) =
    match ap_reinitialize false false w with
    | (Ok None, w') => (Ok (), ([Response (Reply 200 "reinitialize started"); Response (ErrorReply 400)], w'))
    | (Ok (Some text), w') => (Ok (), ([Response (Reply 503 text); Response (ErrorReply 400)], w'))
    | (Raise x, w') => (Raise x, ([Response (ErrorReply 400)], w'))
    end.
Proof.
  intros Hl Hj. unfold do_POST_reinitialize, _read_json_content. destruct (ht_length h); [|done]. rewrite Hj.
  unfold send_error, write, record, puts, invoke, mbind, apiM_bind, eff_bind, mret, apiM_ret, eff_ret. simpl.
  by destruct (ap_reinitialize false false w) as [[[text|]|x] w'].
Qed.
End props.

(** ** A scripted agent *)

#[local] Existing Instance text_datetime.

(** A cluster of two nodes with leader "a"; after a failover key is written, the leader is its candidate. *)
Record Agent := MkAgent { g_leader : string; g_written : list (pyval * pyval) }.

Definition agent_member (n : string) : Member :=
  MkMember VNone n VNone [("conn_url", VStr ("postgres://" +:+ n +:+ ":5432/postgres")); ("api_url", VStr ("http://" +:+ n +:+ ":8008/patroni"))].

Definition agent_cluster (w : Agent) : Cluster :=
  MkCluster (Some "1") (Some (MkConfig (VInt 1) [("ttl", VInt 30)] (VInt 1)))
    (Some (MkLeader VNone VNone (agent_member (g_leader w)))) status_empty [agent_member "a"; agent_member "b"] None (sync_empty VNone) None None [].

#[local] Instance agent_node : ApiNode Agent := {|
  ap_get_cluster w := (Ok (agent_cluster w), w);
  ap_cached_cluster w := Some (agent_cluster w);
  ap_config _ := [];
  ap_set_config _ _ w := (Ok true, w);
  ap_manual_failover l c _ _ w := (Ok true, MkAgent (py_str c) ((l, c) :: g_written w));
  ap_wakeup w := w; ap_sleep w := w; ap_loop_wait _ := 10;
  ap_statuses ms w := (Ok (map (λ m, MkStatusOf m true (Some true) 100 []) ms), w);
  ap_restart _ w := (Ok (true, "restarted successfully"), w);
  ap_schedule_restart _ _ w := (Ok true, w); ap_delete_restart w := (Ok false, w);
  ap_reinitialize _ _ w := (Ok None, w);
  ap_reload w := w; ap_failsafe_mode _ := false; ap_failsafe _ := None; ap_update_failsafe _ w := (Ok VNone, w);
  ap_coordinator _ := false; ap_leads _ := true; ap_mpp_event _ _ w := (Ok (), w);
  ap_parse_date v := match v with VStr s => Ok (s, String.prefix "20" s) | _ => Raise TypeError end;
  ap_past t _ := String.leb t "2025";
  ap_resolve_ips _ _ _ := [];
|}.

Definition local_client : Client := MkClient (MkAddress 4 2130706433) false None.
Definition post (body : pyval) : Http := let text := dumps body in MkHttp (Some (pretty (Z.of_nat (String.length text)))) (Ok text) local_client.

Example switchover_example :
  (do_POST_failover Switchover (post (VDict [("leader", VStr "a"); ("candidate", VStr "b")])) ([], MkAgent "a" [])).2
  = ([Response (Reply 200 ("Successfully switched over to " +:+ String dquote "b" +:+ String dquote ""));
      FailoverKey (VStr "a") (VStr "b") None VNone], MkAgent "b" [(VStr "a", VStr "b")]).
Proof. vm_compute. reflexivity. Qed.

Example failover_examples :
  map (λ d, match (do_POST_failover Failover_ (post (VDict d)) ([], MkAgent "a" [])).2.1 with [Response r] => reply_code r | _ => 0 end)
    [[("leader", VStr "a")]; [("candidate", VStr "c")]; [("leader", VStr "b"); ("candidate", VStr "a")];
     [("candidate", VStr "b"); ("scheduled_at", VStr "2030-01-01T00:00:00Z")]; []]
  = [400; 412; 412; 400; 400].
Proof. vm_compute. reflexivity. Qed.

Definition protected : Access := MkAccess [] false "secret" false "" "Patroni".

Lemma access_required_witness :
  ∃ r, serve protected "POST" "/restart" (post (VDict [])) ([], MkAgent "a" []) = (Ok (), ([Response r], MkAgent "a" [])) ∧
    (reply_code r = 401 ∨ reply_code r = 403 ∨ reply_code r = 501).
Proof. apply (access_required protected "POST" "/restart" (post (VDict [])) [] (MkAgent "a" [])); [by intros []|by vm_compute]. Defined.

Lemma failover_guarded_witness :
  let h := post (VDict [("leader", VStr "a"); ("candidate", VStr "b")]) in
  asked_and_permitted h (MkAgent "a" []) (VStr "a") (VStr "b") None VNone.
Proof.
  intros h. apply (failover_guarded Switchover h (MkAgent "a" [])). apply elem_of_cons. right. apply elem_of_cons. by left.
Defined.

Lemma same_node_schedule_unanswered_witness :
  let request := [("leader", VStr "a"); ("candidate", VStr "a"); ("scheduled_at", VStr "2030-01-01T00:00:00Z")] in
  do_POST_failover Switchover (post (VDict request)) ([], MkAgent "a" []) = (Raise TypeError, ([], MkAgent "a" [])).
Proof.
  intros request. apply (same_node_schedule_unanswered (post (VDict request)) request "a" (agent_cluster (MkAgent "a" [])) "2030-01-01T00:00:00Z");
    first [done | vm_compute; reflexivity].
Defined.

Lemma bad_reinitialize_runs_witness :
  do_POST_reinitialize (MkHttp (Some "3") (Ok "{x}") local_client) ([], MkAgent "a" [])
  = (Ok (), ([Response (Reply 200 "reinitialize started"); Response (ErrorReply 400)], MkAgent "a" [])).
Proof.
  refine (bad_reinitialize_runs (MkHttp (Some "3") (Ok "{x}") local_client) ValueError (MkAgent "a" []) _ _); [done|vm_compute; reflexivity].
Defined.
