(* ===== verification/HaState.v ===== *)
(** * The state of the agent and the calls it makes ([patroni/ha.py], [Ha])

    The HA loop changes an [Ha] object and calls the other components: PostgreSQL, the DCS
    client, the rewind state machine, the watchdog and the executor.  [loop] holds the state
    of those this development models - the race's part of [Ha], the synchronous standby
    handler, the DCS client, the global configuration, the executor - and [HaNode] is the
    interface of the others in a world [W].  Every call is recorded, so that properties
    speak about the order of calls; other threads may change the world before each. *)
From S2P Require Import Prelude PyDict PyVal Json Effects Collections Tags DcsData GlobalConfig Slots Dcs Sync HaSync AsyncExec Failsafe Race.

Open Scope string_scope.
Open Scope Z_scope.

(** The modes of [demote], by the keys of [mode_control] *)
Inductive demote_mode := offline | graceful | immediate | immediate_nolock | demote_cluster.

(** What a node follows: the leader or a member of the cluster, or a [RemoteMember] *)
Inductive target := TLeader (l : Leader) | TMember (m : Member) | TRemote (m : Member).

Definition target_member (t : target) : Member :=
  match t with TLeader l => l_member l | TMember m => m | TRemote m => m end.
Definition target_name (t : target) : string := m_name (target_member t).

(** The functions handed to the executor *)
Inductive task :=
  | TaskPromote
  | TaskDemote (m : demote_mode)
  | TaskFollow (t : option target) (role : PostgresqlRole)
  | TaskStart (timeout : Z)
  | TaskCrashRecovery
  | TaskRewind (t : target)
  | TaskReinitialize
  | TaskBootstrap
  | TaskBootstrapStandbyLeader
  | TaskClone (t : option target)
  | TaskPostBootstrap
  | TaskRestart
  | TaskCopySlots (slots : list string).

(** Calls without a result *)
Inductive command :=
  | SetRole (r : PostgresqlRole) | SetState (s : string) | CallNowait (cb : string)
  | Checkpoint | BeforeStop | BeforePromote | WaitConnectionClose | WaitBackends | WaitPostmaster
  | HandleParameterChange | ResetClusterInfo | SanityChecksAfterPause | SetReadOnly | MysqlDemote | SemiSyncCheck
  | MoveDataDirectory | RemoveDataDirectory | SetBootstrapping (b : bool) | SyncMetaData | CancelSubprocess
  | TerminateStarting | NotifyMpp (event : string) | OnDemoteMpp | ReloadFollow (t : option target)
  | WatchdogDisable | WatchdogKeepalive
  | RewindReset | RewindCheckDiverged | RewindEnsureCheckpoint | RewindArchive
  | SetHistory (value : string) | CancelInitialization | Sleep (n : Z).

(** Calls with a boolean result *)
Inductive test :=
  | AcquireLock | UpdateLock | DeleteLock | TakeLeader | Initialize (create_new : bool) | SetConfigValue
  | ManualFailover (candidate : string) | TouchMember (data : dict pyval)
  | IsPrimary | IsRunning | IsHealthy | IsStarting | DataDirectoryEmpty | CheckForStartup | RecoveryConfExists
  | RestoredFromBackup | CanCreateReplica | StopTimeout
  | WatchdogIsRunning | WatchdogActivate | RewindIsNeeded | RewindCanRewind | RewindAllowed | RewindExecuted | RewindFailed
  | RewindRemoveDiverged | RewindNeededPossible (t : option target) | CheckpointAfterPromote
  | FailsafeCall (m : Member) | SyncStandby | MgrConfigured | SyncPrepromote.

(** What is recorded of a call *)
Inductive event :=
  | Did (c : command) (r : exc ())
  | Asked (t : test) (r : exc bool)
  | Scheduled (t : task)
  | Loaded (leader : option string)
  | Signalled (mode : string) (r : exc (option bool))
  | ShutDown (clean : option (Z * Z))
  | Followed (t : option target) (role : option PostgresqlRole)
  | FailsafeRead (name : string) (failsafe : option (dict pyval))
  | Stopped (success : bool)
  | Demoting (m : demote_mode).

Class HaNode `{!Datetime} (W : Type) := {
  (* the other threads and the clock *)
  env_step : W → W;
  response_done : W → option bool;
  (* calls *)
  perform : command → W → exc () * W;
  query : test → W → exc bool * W;
  signal_stop : string → W → exc (option bool) * W;
  wait_shutdown : option Z → W → exc (option (Z * Z)) * W;
  pg_follow : option target → option PostgresqlRole → W → exc (option bool) * W;
  check_recovery_conf : option target → W → exc (bool * bool) * W;
  controldata : W → exc (dict string) * W;
  checkpoint_locations : W → exc (option Z * option Z) * W;
  pg_slots : W → exc (dict Z) * W;
  pg_last_operation : W → exc Z * W;
  get_history : Z → W → exc (list pyval) * W;
  sync_slots : Cluster → W → exc (list string) * W;
  run_mgr_cycle : bool → Cluster → W → exc (option string) * W;
  pg_restart : option Z → W → exc (option bool) * W;
  pg_clone : option target → bool → W → exc bool * W;
  mgr_status : W → exc (option (string * string)) * W;
  failsafe_lsn : Member → W → option Z;
  timeline_wal_position : W → exc (Z * Z * option Z * option Z * option Z) * W;
  enrich_dcs_data : dict pyval → W → exc (dict pyval) * W;
  replication_state : W → exc (option string) * W;
  received_timeline : W → exc (option Z) * W;
  pg_control_timeline : W → exc (option Z) * W;
  seconds_until : datetime → W → exc Z;
  (* attributes *)
  role : W → PostgresqlRole;
  pg_state : W → string;
  is_mysql : W → bool;
  is_mgr_primary : W → bool;
  mgr_pauses_on_fork : W → bool;
  bootstrapping : W → bool;
  cb_called : W → bool;
  needs_rewind : W → bool;
  needs_crash_recovery : W → bool;
  requires_sysid_match : W → bool;
  time_in_state : W → Z;
  postmaster_start_time : W → pyval;
  server_version : W → Z;
  pending_restart : W → dict pyval;
  archive_command : W → option string;
  mpp_is_worker : W → bool;
  mpp_is_coordinator : W → bool;
  dcs_is_raft : W → bool;
  connection_string : W → string;
  proxy_url : W → string;
  api_connection_string : W → string;
  patroni_version : W → string;
  local_config : W → dict pyval;
  conn_kwargs : Member → W → dict pyval;
  uuid1 : W → string;
  rand : W → nat → nat;
  can_advance : W → bool;
  starting_postmaster : W → bool;
  os_error_text : W → string;
}.

(** The data of a restart that was requested ([restart_data]), without the keys that are absent *)
Record RestartData `{!Datetime} := MkRestart {
  rs_schedule : option datetime; rs_role : option string; rs_version : option string; rs_pending : bool;
  rs_timeout : option Z; rs_start_time : pyval;
}.
Arguments MkRestart {_} _ _ _ _ _ _.

(** The fields of [Ha] besides those of the race; [scheduled_restart] is the agent's. *)
Record Fields `{!Datetime} := MkFields {
  leader_expiry : Z;
  was_paused : bool;
  promote_timestamp : Z;
  leader_timeline : pyval;
  recovering : bool;
  crash_recovery_started : Z;
  start_timeout : option Z;
  last_wal_lsn : option Z;
  disable_sync : Z;
  join_aborted : bool;
  last_state : option (string * PostgresqlRole);
  scheduled_restart : option RestartData;
  failsafe_part : Failsafe;
  async_response : CriticalTask bool;
}.

Arguments MkFields {_} _ _ _ _ _ _ _ _ _ _ _ _ _ _.

Section state.
Context `{!Datetime}.
Implicit Types (f : Fields).

(** [__init__] *)
Definition fields_init : Fields :=
  MkFields 0 false 0 VNone false 0 None None 0 false None None failsafe_reset ct_init.

Definition set_leader_expiry (v : Z) f : Fields :=
  MkFields v (was_paused f) (promote_timestamp f) (leader_timeline f) (recovering f) (crash_recovery_started f)
    (start_timeout f) (last_wal_lsn f) (disable_sync f) (join_aborted f) (last_state f) (scheduled_restart f)
    (failsafe_part f) (async_response f).
Definition set_was_paused (v : bool) f : Fields :=
  MkFields (leader_expiry f) v (promote_timestamp f) (leader_timeline f) (recovering f) (crash_recovery_started f)
    (start_timeout f) (last_wal_lsn f) (disable_sync f) (join_aborted f) (last_state f) (scheduled_restart f)
    (failsafe_part f) (async_response f).
Definition set_promote_timestamp (v : Z) f : Fields :=
  MkFields (leader_expiry f) (was_paused f) v (leader_timeline f) (recovering f) (crash_recovery_started f)
    (start_timeout f) (last_wal_lsn f) (disable_sync f) (join_aborted f) (last_state f) (scheduled_restart f)
    (failsafe_part f) (async_response f).
Definition set_leader_timeline (v : pyval) f : Fields :=
  MkFields (leader_expiry f) (was_paused f) (promote_timestamp f) v (recovering f) (crash_recovery_started f)
    (start_timeout f) (last_wal_lsn f) (disable_sync f) (join_aborted f) (last_state f) (scheduled_restart f)
    (failsafe_part f) (async_response f).
Definition set_recovering (v : bool) f : Fields :=
  MkFields (leader_expiry f) (was_paused f) (promote_timestamp f) (leader_timeline f) v (crash_recovery_started f)
    (start_timeout f) (last_wal_lsn f) (disable_sync f) (join_aborted f) (last_state f) (scheduled_restart f)
    (failsafe_part f) (async_response f).
Definition set_crash_recovery_started (v : Z) f : Fields :=
  MkFields (leader_expiry f) (was_paused f) (promote_timestamp f) (leader_timeline f) (recovering f) v
    (start_timeout f) (last_wal_lsn f) (disable_sync f) (join_aborted f) (last_state f) (scheduled_restart f)
    (failsafe_part f) (async_response f).
Definition put_start_timeout (v : option Z) f : Fields :=
  MkFields (leader_expiry f) (was_paused f) (promote_timestamp f) (leader_timeline f) (recovering f) (crash_recovery_started f)
    v (last_wal_lsn f) (disable_sync f) (join_aborted f) (last_state f) (scheduled_restart f)
    (failsafe_part f) (async_response f).
Definition set_last_wal_lsn (v : option Z) f : Fields :=
  MkFields (leader_expiry f) (was_paused f) (promote_timestamp f) (leader_timeline f) (recovering f) (crash_recovery_started f)
    (start_timeout f) v (disable_sync f) (join_aborted f) (last_state f) (scheduled_restart f)
    (failsafe_part f) (async_response f).
Definition set_disable_sync (v : Z) f : Fields :=
  MkFields (leader_expiry f) (was_paused f) (promote_timestamp f) (leader_timeline f) (recovering f) (crash_recovery_started f)
    (start_timeout f) (last_wal_lsn f) v (join_aborted f) (last_state f) (scheduled_restart f)
    (failsafe_part f) (async_response f).
Definition set_join_aborted (v : bool) f : Fields :=
  MkFields (leader_expiry f) (was_paused f) (promote_timestamp f) (leader_timeline f) (recovering f) (crash_recovery_started f)
    (start_timeout f) (last_wal_lsn f) (disable_sync f) v (last_state f) (scheduled_restart f)
    (failsafe_part f) (async_response f).
Definition set_last_state (v : option (string * PostgresqlRole)) f : Fields :=
  MkFields (leader_expiry f) (was_paused f) (promote_timestamp f) (leader_timeline f) (recovering f) (crash_recovery_started f)
    (start_timeout f) (last_wal_lsn f) (disable_sync f) (join_aborted f) v (scheduled_restart f)
    (failsafe_part f) (async_response f).
Definition set_scheduled_restart (v : option RestartData) f : Fields :=
  MkFields (leader_expiry f) (was_paused f) (promote_timestamp f) (leader_timeline f) (recovering f) (crash_recovery_started f)
    (start_timeout f) (last_wal_lsn f) (disable_sync f) (join_aborted f) (last_state f) v
    (failsafe_part f) (async_response f).
Definition set_failsafe_part (v : Failsafe) f : Fields :=
  MkFields (leader_expiry f) (was_paused f) (promote_timestamp f) (leader_timeline f) (recovering f) (crash_recovery_started f)
    (start_timeout f) (last_wal_lsn f) (disable_sync f) (join_aborted f) (last_state f) (scheduled_restart f)
    v (async_response f).
Definition set_async_response (v : CriticalTask bool) f : Fields :=
  MkFields (leader_expiry f) (was_paused f) (promote_timestamp f) (leader_timeline f) (recovering f) (crash_recovery_started f)
    (start_timeout f) (last_wal_lsn f) (disable_sync f) (join_aborted f) (last_state f) (scheduled_restart f)
    (failsafe_part f) v.

(** The agent with what it calls *)
Record loop {W} := MkLoop {
  race_part : Race.Ha;
  fields : Fields;
  config_ : GlobalConfig;
  sync_handler : SyncHandler;
  dcs_client : AbstractDCS;
  executor_ : AsyncExecutor pyval;
  world_ : W;
  log : list event;
}.
End state.
Arguments loop {_} W.
Arguments MkLoop {_ _} _ _ _ _ _ _ _ _.

Section calls.
Context `{!Datetime, !Json} {W : Type} `{!RaceNode W, !SyncPostgres W, !SyncDcs W, !Backend W, !HaNode W}.
Implicit Types (s : loop W).

Definition M (A : Type) : Type := eff (loop W) A.
#[global] Instance M_ret : MRet M := eff_ret _.
#[global] Instance M_bind : MBind M := eff_bind _.

Definition set_race (h : Race.Ha) s : loop W :=
  MkLoop h (fields s) (config_ s) (sync_handler s) (dcs_client s) (executor_ s) (world_ s) (log s).
Definition set_fields (f : Fields) s : loop W :=
  MkLoop (race_part s) f (config_ s) (sync_handler s) (dcs_client s) (executor_ s) (world_ s) (log s).
Definition set_config (g : GlobalConfig) s : loop W :=
  MkLoop (race_part s) (fields s) g (sync_handler s) (dcs_client s) (executor_ s) (world_ s) (log s).
Definition set_handler (h : SyncHandler) s : loop W :=
  MkLoop (race_part s) (fields s) (config_ s) h (dcs_client s) (executor_ s) (world_ s) (log s).
Definition set_client (d : AbstractDCS) s : loop W :=
  MkLoop (race_part s) (fields s) (config_ s) (sync_handler s) d (executor_ s) (world_ s) (log s).
Definition set_executor (e : AsyncExecutor pyval) s : loop W :=
  MkLoop (race_part s) (fields s) (config_ s) (sync_handler s) (dcs_client s) e (world_ s) (log s).
Definition set_world (w : W) s : loop W :=
  MkLoop (race_part s) (fields s) (config_ s) (sync_handler s) (dcs_client s) (executor_ s) w (log s).
Definition add_event (e : event) s : loop W :=
  MkLoop (race_part s) (fields s) (config_ s) (sync_handler s) (dcs_client s) (executor_ s) (world_ s) (e :: log s).

(** ** The object itself *)

Definition self : M Fields := gets fields.
Definition modify (f : Fields → Fields) : M () := puts (λ s, set_fields (f (fields s)) s).
Definition cluster_ : M Cluster := gets (λ s, Race.cluster (race_part s)).
Definition g_ : M GlobalConfig := gets config_.
Definition configured {A} (f : GlobalConfig → A) : M A := gets (λ s, f (config_ s)).
Definition executor : M (AsyncExecutor pyval) := gets executor_.
Definition tell (e : event) : M () := puts (add_event e).

(** ** Calls: the other threads go first. *)

Definition look : M W := λ s, let w := env_step (world_ s) in (Ok w, set_world w s).
Definition attr {A} (f : W → A) : M A := w ← look; mret (f w).

Definition call {A} (op : W → exc A * W) : M A := λ s,
  let '(r, w) := op (env_step (world_ s)) in (r, set_world w s).

Definition do (c : command) : M () := λ s,
  let '(r, w) := perform c (env_step (world_ s)) in (r, add_event (Did c r) (set_world w s)).

Definition ask (t : test) : M bool := λ s,
  let '(r, w) := query t (env_step (world_ s)) in (r, add_event (Asked t r) (set_world w s)).

Definition signal (mode : string) : M (option bool) := λ s,
  let '(r, w) := signal_stop mode (env_step (world_ s)) in (r, add_event (Signalled mode r) (set_world w s)).

(** The race, the synchronous standby handler and the DCS client run on their part of the state. *)
Definition lift_race {A} (m : GlobalConfig → Race.haM (W := W) A) : M A := λ s,
  let '(r, (h, w)) := m (config_ s) (race_part s, env_step (world_ s)) in (r, set_race h (set_world w s)).
Definition lift_sync {A} (m : GlobalConfig → Sync.syncM (W := W) A) : M A := λ s,
  let '(r, (h, w)) := m (config_ s) (sync_handler s, env_step (world_ s)) in (r, set_handler h (set_world w s)).
Definition lift_dcs {A} (m : dcsM (W := W) A) : M A := λ s,
  let '(r, (d, w)) := m (dcs_client s, env_step (world_ s)) in (r, set_client d (set_world w s)).

(** A call of the DCS client with a boolean result, recorded *)
Definition dcs_test (t : test) (m : dcsM (W := W) bool) : M bool := λ s,
  let '(r, s) := lift_dcs m s in (r, add_event (Asked t r) s).

(** The same of the functions about synchronous replication *)
Definition sync_test (t : test) (m : GlobalConfig → Sync.syncM (W := W) bool) : M bool := λ s,
  let '(r, s) := lift_sync m s in (r, add_event (Asked t r) s).

(** [dcs.failsafe], read together with the name of the node *)
Definition read_failsafe : M (string * option (dict pyval)) := λ s,
  let w := env_step (world_ s) in (Ok (node_name w, failsafe_key w), add_event (FailsafeRead (node_name w) (failsafe_key w)) (set_world w s)).

(** ** Exceptions *)

(** [except Exception] *)
Definition is_exception (e : pyexn) : bool := match e with SystemExit => false | _ => true end.
Definition is_dcs_error (e : pyexn) : bool := match e with DCSError => true | _ => false end.
Definition is_pg_error (e : pyexn) : bool :=
  match e with DatabaseError | PostgresConnectionException => true | _ => false end.

Definition try_any {A} (m h : M A) : M A := try_except is_exception m h.

(** [try: m finally: f] *)
Definition try_finally {A} (m : M A) (f : M ()) : M A := λ s,
  let '(r, s) := m s in let '(r', s) := f s in match r' with Ok _ => (r, s) | Raise e => (Raise e, s) end.

(** [raise e] *)
Definition raise {A} (e : pyexn) : M A := lift_exc (Raise e).

(** ** The executor *)

(** [self._async_executor.try_run_async(action, func)]; the function is recorded when it is handed over. *)
Definition try_run_async (action : string) (t : task) : M (option string) := λ s,
  let '(r, e) := AsyncExec.try_run_async action (executor_ s) in
  (Ok r, match r with None => add_event (Scheduled t) (set_executor e s) | Some _ => set_executor e s end).

(** [self._async_response]: the background thread may have completed it. *)
Definition response : M (CriticalTask bool) :=
  w ← look;
  (match response_done w with
   | Some r => modify (λ f, set_async_response (snd (ct_perform r (async_response f))) f)
   | None => mret ()
   end);;
  f ← self; mret (async_response f).
Definition set_response (t : CriticalTask bool) : M () := modify (set_async_response t).
End calls.
