(* ===== verification/HaLock.v ===== *)
(** * The leader lock and the view of the cluster ([patroni/ha.py], [Ha])

    What the agent believes about its leadership, how it takes, renews and gives up the
    leader key, and what it publishes about itself. *)
From S2P Require Import Prelude PyDict PyVal Json Effects Collections Utils Tags DcsData GlobalConfig Slots Dcs Sync HaSync AsyncExec Failsafe Race HaState.

Open Scope string_scope.
Open Scope Z_scope.

Section lock.
Context `{!Datetime, !Json} {W : Type} `{!RaceNode W, !SyncPostgres W, !SyncDcs W, !Backend W, !HaNode W}.
Notation M := (M (W := W)).

(** [is_synchronous_mode], [is_quorum_commit_mode], [is_failsafe_mode], [is_paused], [is_standby_cluster] *)
Definition is_synchronous_mode_ : M bool := configured is_synchronous_mode.
Definition is_quorum_commit_mode_ : M bool :=
  q ← configured is_quorum_commit_mode; if q : bool then attr Race.supports_multiple_sync else mret false.
Definition is_failsafe_mode : M bool := configured (λ g, check_mode g "failsafe_mode").
Definition paused : M bool := configured is_paused.
Definition standby_cluster : M bool := configured is_standby_cluster.

(** [primary_stop_timeout] *)
Definition stop_timeout : M (option Z) :=
  g ← g_; t ← lift_exc (primary_stop_timeout g);
  mret (if (0 <? t) && is_synchronous_mode g then Some t else None).

(** [is_leader] *)
Definition is_leader : M bool := f ← self; attr (λ w, now w <? leader_expiry f).

(** [set_is_leader] *)
Definition set_is_leader (value : bool) : M () :=
  if value then t ← attr (λ w, now w + Race.ttl w); modify (set_leader_expiry t)
  else modify (λ f, set_promote_timestamp 0 (set_leader_expiry 0 f)).

(** [has_lock] *)
Definition owns (name : string) (c : Cluster) : bool :=
  match DcsData.leader_name c with Some n => (n =? name)%string | None => false end.
Definition has_lock : M bool := c ← cluster_; attr (λ w, owns (node_name w) c).

(** [_get_failover_action_name] *)
Definition _get_failover_action_name (c : Cluster) : string :=
  match requested c with
  | None => "failover"
  | Some f => if truthy (f_leader f) then "switchover" else "manual failover"
  end.

(** [self._failsafe.set_is_active(value)] *)
Definition failsafe_set_active (value : Z) : M () :=
  modify (λ f, set_failsafe_part (set_is_active value (failsafe_part f)) f).

(** The new view of the cluster, and the last one with a leader *)
Definition store_cluster (c : Cluster) (h : Race.Ha) : Race.Ha :=
  let old := the_old_cluster h in
  if negb (is_unlocked c) || negb (cluster_truthy old)
  then MkHa c None (_last_timeline h) (_released_leader_key_timestamp h)
  else MkHa c (Some old) (_last_timeline h) (_released_leader_key_timestamp h).

(** [self.cluster = self._failsafe.update_cluster(cluster)]: another object when it is changed *)
Definition replace_cluster (c' : Cluster) (h : Race.Ha) : Race.Ha :=
  MkHa c' (Some (the_old_cluster h)) (_last_timeline h) (_released_leader_key_timestamp h).

(** [load_cluster_from_dcs] *)
Definition load_cluster_from_dcs : M () :=
  c ← lift_dcs get_cluster;
  tell (Loaded (DcsData.leader_name c));;
  puts (λ s, set_race (store_cluster c (race_part s)) s);;
  fs ← is_failsafe_mode;
  (if is_unlocked c && fs then
     f ← self; w ← look;
     if failsafe_is_active (now w) (Race.ttl w) (failsafe_part f)
     then puts (λ s, set_race (replace_cluster (update_cluster (now w) (Race.ttl w) (failsafe_part f) c) (race_part s)) s)
     else mret ()
   else mret () : M ());;
  mine ← has_lock;
  (if mine : bool then mret () else set_is_leader false);;
  c ← cluster_;
  modify (set_leader_timeline (match leader c with Some l => l_timeline l | None => VNone end)).

(** A call of the DCS that may raise: a [DCSError] goes on, any other exception counts as [False]. *)
Definition false_on_error (m : M bool) : M bool :=
  try_except (λ e, is_exception e && negb (is_dcs_error e)) m (mret false).

(** [acquire_lock] *)
Definition acquire_lock : M bool :=
  ret ← false_on_error (dcs_test AcquireLock acquire_leader_lock);
  set_is_leader ret;;
  mret ret.

(** [_failsafe_config] *)
Definition _failsafe_config : M (option (dict pyval)) :=
  fs ← is_failsafe_mode;
  if fs : bool then
    c ← cluster_; w ← look;
    let ret := Dict.of_items (map (λ m, (m_name m, api_url m)) (List.filter (λ m, truthy (api_url m)) (members c))) in
    mret (Some (if Dict.mem (node_name w) ret then ret
                else Dict.set (node_name w) (VStr (api_connection_string w)) ret))
  else mret None.

(** The position and the slots that go to [/status]; an exception leaves those not known yet out. *)
Definition own_postgresql (w : W) : Postgresql := MkPostgresql (node_name w) (role w) (can_advance w).
Definition status_update : M (option Z * option (dict Z)) :=
  try_any (
    lsn ← call pg_last_operation;
    modify (set_last_wal_lsn (Some lsn));;
    try_any (
      g ← g_; c ← cluster_; w ← look;
      slots ← call pg_slots;
      slots ← lift_exc (maybe_filter_permanent_slots g c (own_postgresql w) slots);
      mret (Some lsn, Some slots)) (mret (Some lsn, None)))
    (mret (None, None)).

(** [update_lock] *)
Definition update_lock (update_status : bool) : M bool :=
  st ← (if update_status then status_update else mret (None, None));
  let '(last_lsn, slots) := (st : option Z * option (dict Z)) in
  g ← g_; c ← cluster_;
  ret ← false_on_error (
    failsafe ← _failsafe_config;
    dcs_test UpdateLock (Dcs.update_leader g c last_lsn slots failsafe));
  set_is_leader ret;;
  (if ret : bool then do WatchdogKeepalive else mret ());;
  mret ret.

(** [notify_mpp_coordinator] *)
Definition notify_mpp_coordinator (event : string) : M () :=
  worker ← attr mpp_is_worker;
  if worker : bool then
    coordinator ← lift_dcs get_mpp_coordinator;
    match (coordinator : option Cluster) with
    | Some c =>
        match leader c with
        | Some l =>
            conn ← lift_exc (conn_url (l_member l));
            let '(url, _) := (conn : pyval * Member) in
            if truthy url then try_any (do (NotifyMpp event)) (mret ()) else mret ()
        | None => mret ()
        end
    | None => mret ()
    end
  else mret ().

(** [get_effective_tags] *)
Definition get_effective_tags : M (dict pyval) :=
  f ← self;
  attr (λ w, if 0 <? disable_sync f
             then Dict.set "sync_priority" (VInt 0) (Dict.set "nosync" (VBool true) (node_tags w))
             else node_tags w).

(** ** Publishing the member *)

(** A computation that also builds the dictionary [data]; what it put there survives an exception. *)
Definition D (A : Type) : Type := eff (dict pyval * loop W) A.
#[global] Instance D_ret : MRet D := eff_ret _.
#[global] Instance D_bind : MBind D := eff_bind _.
Definition lift_d {A} (m : M A) : D A := λ s, let '(r, l) := m s.2 in (r, (s.1, l)).
Definition put_d (k : string) (v : pyval) : D () := puts (λ s, (Dict.set k v s.1, s.2)).
Definition opt_int (o : option Z) : pyval := match o with Some z => VInt z | None => VNone end.
Definition nonzero_opt (o : option Z) : bool := match o with Some n => negb (n =? 0) | None => false end.
Definition put_nonzero (k : string) (o : option Z) : D () := if nonzero_opt o then put_d k (opt_int o) else mret ().
Definition set_last_timeline (t : option Z) : M () :=
  puts (λ s, set_race (MkHa (Race.cluster (race_part s)) (old_cluster (race_part s)) t
                         (_released_leader_key_timestamp (race_part s))) s).

(** What a standby publishes, and its timeline as the replication connection tells it *)
Definition standby_details (recv replay : option Z) : D (option Z) :=
  put_nonzero "replay_lsn" replay;;
  put_nonzero "receive_lsn" recv;;
  state ← lift_d (call replication_state);
  (match (state : option string) with
   | Some r => if (r =? "")%string then mret () else put_d "replication_state" (VStr r)
   | None => mret ()
   end);;
  tl ← lift_d (call received_timeline);
  (if nonzero_opt tl then lift_d (set_last_timeline tl) else mret ());;
  mret tl.

(** The timeline from [pg_control], or the one that was cached *)
Definition cached_timeline (ctl : option Z) : M (option Z) :=
  r ← attr role;
  tl ← (if bool_decide (r = STANDBY_LEADER) then
          if nonzero_opt ctl then mret ctl else call pg_control_timeline
        else
          f ← self;
          let known := match leader_timeline f with VInt t => t | _ => 0 end in
          attr (λ w, Some (default 0 (replica_cached_timeline known w))));
  (if nonzero_opt tl then set_last_timeline tl else mret ());;
  mret tl.

(** The [try] block of [touch_member] *)
Definition position_details : D () :=
  p ← lift_d (call timeline_wal_position);
  let '(tl, wal, ctl, recv, replay) := (p : Z * Z * option Z * option Z * option Z) in
  put_d "xlog_location" (VInt wal);;
  lift_d (modify (set_last_wal_lsn (Some wal)));;
  s ← gets fst;
  data ← lift_d (call (enrich_dcs_data s));
  puts (λ s, (data, s.2));;
  tl ← (if tl =? 0 then standby_details recv replay else mret (Some tl));
  tl ← (if nonzero_opt tl then mret tl else lift_d (cached_timeline ctl));
  put_nonzero "timeline" tl.

Definition with_details (data : dict pyval) : M (dict pyval) := λ s,
  let '(r, (data, s)) := position_details (data, s) in
  match r with Raise SystemExit => (Raise SystemExit, s) | _ => (Ok data, s) end.

Definition role_text (r : PostgresqlRole) : string :=
  match r with
  | PRIMARY => "primary" | MASTER => "master" | STANDBY_LEADER => "standby_leader" | REPLICA => "replica"
  | DEMOTED => "demoted" | UNINITIALIZED => "uninitialized" | PROMOTED => "promoted"
  end.

Definition restart_dict (r : RestartData) : dict pyval :=
  let opt k o := match o with Some s => [(k, VStr s)] | None => [] end in
  (match rs_schedule r with Some d => [("schedule", VStr (isoformat d))] | None => [] end ++
   opt "role" (rs_role r) ++ opt "postgres_version" (rs_version r) ++
   (if rs_pending r then [("restart_pending", VBool true)] else []) ++
   (match rs_timeout r with Some t => [("timeout", VInt t)] | None => [] end) ++
   [("postmaster_start_time", rs_start_time r)])%list.

(** The dictionary [touch_member] writes, up to the position *)
Definition member_data (w : W) (checkpointed leads : bool) (tags : dict pyval) : dict pyval :=
  ([("conn_url", VStr (connection_string w)); ("api_url", VStr (api_connection_string w)); ("state", VStr (pg_state w));
    ("role", VStr (role_text (role w))); ("version", VStr (HaState.patroni_version w))] ++
   (if (proxy_url w =? "")%string then [] else [("proxy_url", VStr (proxy_url w))]) ++
   (if leads && negb checkpointed then [("checkpoint_after_promote", VBool false)] else []) ++
   (match tags with [] => [] | _ => [("tags", VDict tags)] end) ++
   (match pending_restart w with
    | [] => []
    | r => [("pending_restart", VBool true); ("pending_restart_reason", VDict r)]
    end))%list.

(** [touch_member] *)
Definition touch_member : M bool :=
  w ← look;
  let state := pg_state w in
  leads ← is_leader;
  checkpointed ← (if leads : bool then ask CheckpointAfterPromote else mret true);
  tags ← get_effective_tags;
  let data := member_data w checkpointed leads tags in
  e ← executor;
  data ← (if bool_decide (scheduled_action e ∈ [None; Some "promote"]) && bool_decide (state ∈ ["running"; "restarting"; "starting"])
          then with_details data else mret data);
  f ← self; p ← paused;
  let data := match scheduled_restart f with Some r => Dict.set "scheduled_restart" (VDict (restart_dict r)) data | None => data end in
  let data := if p : bool then Dict.set "pause" (VBool true) data else data in
  ret ← ask (TouchMember data);
  (if ret : bool then
     let new_state := Some (state, role w) in
     (if negb (bool_decide (last_state f = new_state)) && bool_decide (new_state = Some ("running", PRIMARY))
      then notify_mpp_coordinator "after_promote" else mret ());;
     modify (set_last_state new_state)
   else mret ());;
  mret ret.

(** [_delete_leader] *)
Definition _delete_leader (last_lsn : option Z) : M () :=
  set_is_leader false;;
  c ← cluster_;
  dcs_test DeleteLock (Dcs.delete_leader (leader c) last_lsn);;
  lift_dcs reset_cluster.

(** [release_leader_key_voluntarily] *)
Definition release_leader_key_voluntarily (last_lsn : option Z) : M () :=
  _delete_leader last_lsn;; touch_member;; mret ().
End lock.
