(* ===== verification/HaDemote.v ===== *)
(** * Stopping and demoting a primary ([patroni/ha.py], [patroni/postgresql/__init__.py])

    The node to follow, the shutdown of PostgreSQL with its callbacks, and [demote] in all its
    modes, for PostgreSQL and MySQL. *)
From S2P Require Import Prelude PyDict PyVal Json Effects Collections Utils Tags DcsData GlobalConfig Slots Dcs Sync HaSync AsyncExec Failsafe Race HaState HaLock.

Open Scope string_scope.
Open Scope Z_scope.

Section demote.
Context `{!Datetime, !Json} {W : Type} `{!RaceNode W, !SyncPostgres W, !SyncDcs W, !Backend W, !HaNode W}.
Notation M := (M (W := W)).

(** [m] when [b] *)
Definition when (b : bool) (m : M ()) : M () := if b then m else mret ().

(** [is_failover_possible] with the cluster's view *)
Definition failover_possible (cluster_lsn : Z) : M bool :=
  g ← g_; c ← cluster_; w ← look; lift_exc (is_failover_possible g w c cluster_lsn false).

(** ** The node to follow *)

(** The connection arguments of a remote member: the first host only for MySQL *)
Definition mysql_kwargs (kw : dict pyval) : dict pyval :=
  let kw := Dict.set "db_type" (VStr "mysql") kw in
  match vget "host" kw with
  | VStr host => if contains "," host
                 then Dict.set "host" (VStr (Str.strip (default "" (head (Str.split_on "," host))))) kw else kw
  | _ => kw
  end.

(** [get_remote_member] *)
Definition get_remote_member (member : option target) : M target :=
  g ← g_; w ← look;
  let name := match member with Some t => target_name t | None => "remote_member:" +:+ uuid1 w end in
  let data := match get_standby_cluster_config g with
    | VDict ((_ :: _) as params) =>
        let data := List.filter (λ kv, bool_decide (kv.1 ∈ ALLOWED_KEYS)) params in
        let data := Dict.set "no_replication_slot" (VBool (negb (Dict.mem "primary_slot_name" params))) data in
        let kw := match member with
                  | Some t => conn_kwargs (target_member t) w
                  | None => List.filter (λ kv, bool_decide (kv.1 ∈ ["host"; "port"])) params
                  end in
        match kw with
        | [] => data
        | _ => Dict.set "conn_kwargs" (VDict (if is_mysql w then mysql_kwargs kw else kw)) data
        end
    | _ => []
    end in
  mret (TRemote (remote_member name data)).

(** The parameters of a followed member that come from the standby cluster's section only *)
Definition set_target_data (f : dict pyval → dict pyval) (t : target) : target :=
  let on m := MkMember (m_version m) (m_name m) (m_session m) (f (m_data m)) in
  match t with
  | TLeader l => TLeader (MkLeader (l_version l) (l_session l) (on (l_member l)))
  | TMember m => TMember (on m)
  | TRemote m => TRemote m
  end.

Definition recovery_params : list string := ["restore_command"; "archive_cleanup_command"].
Definition standby_params (g : GlobalConfig) : dict pyval :=
  match get_standby_cluster_config g with
  | VDict params => omap (λ p, if truthy (vget p params) then Some (p, vget p params) else None) recovery_params
  | _ => []
  end.

Definition clean_params (g : GlobalConfig) : target → target :=
  set_target_data (λ d, Dict.update (foldr Dict.del d recovery_params) (if is_standby_cluster g then standby_params g else [])).

Definition as_target (x : Member + Leader) : target := match x with inl m => TMember m | inr l => TLeader l end.

(** [_get_node_to_follow]; the removal of the parameters from the member itself is not kept. *)
Definition _get_node_to_follow (c : Cluster) : M (option target) :=
  g ← g_; w ← look;
  if nostream (node_tags w) then mret None else
  let mine := match DcsData.leader_name c with Some n => negb (n =? "")%string && (n =? node_name w)%string | None => false end in
  node ← (if is_standby_cluster g && (mine || (is_unlocked c && negb (is_paused g))) then
            t ← get_remote_member None; mret (Some t)
          else if truthy (replicatefrom (node_tags w)) && negb (pyval_eqb (replicatefrom (node_tags w)) (VStr (node_name w)))
          then mret (as_target <$> get_member c (replicatefrom (node_tags w)) true)
          else mret (match leader c with
                     | Some l => if (l_name l =? "")%string then None else Some (TLeader l)
                     | None => None
                     end));
  mret (match (node : option target) with
        | Some t => if (target_name t =? node_name w)%string then None else Some (clean_params g t)
        | None => None
        end).

(** ** Stopping PostgreSQL *)

Definition await_shutdown (timeout : option Z) : M (option (Z * Z)) := λ s,
  let '(r, w) := wait_shutdown timeout (env_step (world_ s)) in
  (r, add_event (ShutDown (match r with Ok l => l | Raise _ => None end)) (set_world w s)).

(** [_do_stop]: whether PostgreSQL stopped, whether it was signalled, and what the callback for
    a clean shutdown returned; the wait for it is one call. *)
Definition _do_stop (mode : string) (block_callbacks checkpoint : bool) (on_safepoint : option (M ()))
    (on_shutdown : option (Z → Z → M bool)) (before_shutdown : option (M ())) (timeout : option Z)
    : M (bool * bool * bool) :=
  let safepoint := default (mret ()) on_safepoint in
  running ← ask IsRunning;
  if negb running then safepoint;; mret (true, false, false) else
  starting ← (if checkpoint then ask IsStarting else mret true);
  when (checkpoint && negb starting) (do Checkpoint);;
  when (negb block_callbacks) (do (SetState "stopping"));;
  do BeforeStop;;
  default (mret ()) before_shutdown;;
  success ← signal mode;
  match (success : option bool) with
  | Some b => when b safepoint;; mret (b, true, false)
  | None =>
      do WaitConnectionClose;;
      (match on_safepoint with Some m => do WaitBackends;; m | None => mret () end);;
      called ← (match on_shutdown with
                | Some f =>
                    if bool_decide (mode ∈ ["fast"; "smart"]) then
                      clean ← await_shutdown timeout;
                      match (clean : option (Z * Z)) with Some (ckpt, prev) => f ckpt prev | None => mret false end
                    else mret false
                | None => mret false
                end);
      do WaitPostmaster;;
      mret (true, true, called)
  end.

(** [stop]: its result, and what the callback for a clean shutdown returned *)
Definition stop (mode : string) (block_callbacks : bool) (checkpoint : option bool) (on_safepoint : option (M ()))
    (on_shutdown : option (Z → Z → M bool)) (before_shutdown : option (M ())) (timeout : option Z) : M (bool * bool) :=
  let checkpoint := match checkpoint with Some b => b | None => negb (mode =? "immediate")%string end in
  r ← _do_stop mode block_callbacks checkpoint on_safepoint on_shutdown before_shutdown timeout;
  let '(success, signalled, called) := (r : bool * bool * bool) in
  (if success then
     when (negb block_callbacks) (do (SetState "stopped");; when signalled (do (CallNowait "on_stop")))
   else do (SetState "stop failed"));;
  tell (Stopped success);;
  mret (success, called).

(** [self.state_handler.follow(node, role)] *)
Definition follow_node (t : option target) (r : option PostgresqlRole) : M (option bool) :=
  tell (Followed t r);; call (pg_follow t r).

(** ** Demotion *)

(** [mode_control] *)
Record control := MkControl { c_stop : string; c_checkpoint : bool; c_release : bool; c_offline : bool; c_async_req : bool }.
Definition mode_control (m : demote_mode) : control :=
  match m with
  | offline => MkControl "fast" false false true false
  | graceful => MkControl "fast" true true false false
  | immediate => MkControl "immediate" false true false true
  | immediate_nolock => MkControl "immediate" false false false true
  | demote_cluster => MkControl "fast" false true false false
  end.

Definition is_demote_cluster (m : demote_mode) : bool := match m with demote_cluster => true | _ => false end.
Definition is_graceful (m : demote_mode) : bool := match m with graceful => true | _ => false end.
Definition is_offline (m : demote_mode) : bool := match m with offline => true | _ => false end.

(** The callback of [demote] for a clean shutdown: whether it released the leader key *)
Definition demote_on_shutdown (m : demote_mode) (ckpt prev : Z) : M bool :=
  do (Sleep 1);;
  possible ← failover_possible ckpt;
  if possible : bool then
    do (SetRole DEMOTED);;
    release_leader_key_voluntarily (Some (if is_demote_cluster m then ckpt else prev));;
    mret true
  else mret false.

(** The callback of a graceful demotion before the shutdown *)
Definition demote_before_shutdown : M () :=
  coordinator ← attr mpp_is_coordinator;
  if coordinator : bool then do OnDemoteMpp else notify_mpp_coordinator "before_demote".

(** The node to follow afterwards, and the leader: nothing when the DCS does not answer *)
Definition after_demotion (offline : bool) : M (option target * option Leader) :=
  if offline then mret (None, None) else
  try_any (c ← lift_dcs get_cluster; node ← _get_node_to_follow c; mret (node, leader c)) (mret (None, None)).

(** [demote] for PostgreSQL *)
Definition demote_postgres (m : demote_mode) : M (option bool) :=
  let ctl := mode_control m in
  do RewindCheckDiverged;;
  archive ← attr archive_command;
  let with_archive := is_demote_cluster m && (match archive with Some _ => true | None => false end) in
  let release := c_release ctl && negb with_archive in
  wd ← ask WatchdogIsRunning;
  timeout ← (if with_archive then mret None else stop_timeout);
  r ← stop (c_stop ctl) false (Some (c_checkpoint ctl)) (if wd : bool then Some (do WatchdogDisable) else None)
        (if release then Some (demote_on_shutdown m) else None)
        (if is_graceful m then Some demote_before_shutdown else None) timeout;
  let released := (r : bool * bool).2 in
  do (SetRole DEMOTED);;
  locations ← (if is_graceful m then call checkpoint_locations else mret (None, None));
  let '(ckpt, prev) := (locations : option Z * option Z) in
  let stays := is_demote_cluster m && negb released in
  (if stays then
     g ← g_; c ← cluster_; failsafe ← _failsafe_config;
     dcs_test UpdateLock (Dcs.update_leader g c ckpt None failsafe);; mret ()
   else set_is_leader false);;
  when (release && negb stays)
    (when (negb released) (release_leader_key_voluntarily prev);; do (Sleep 2));;
  when with_archive (do RewindArchive);;
  next ← after_demotion (c_offline ctl);
  let '(node, l) := (next : option target * option Leader) in
  sync ← is_synchronous_mode_;
  when sync (lift_sync (λ g, set_synchronous_standby_names g [] None));;
  let role := if stays then STANDBY_LEADER else REPLICA in
  if c_async_req ctl then try_run_async "starting after demotion" (TaskFollow node role);; mret None
  else
    needed ← ask (RewindNeededPossible (TLeader <$> l));
    if needed : bool then mret (Some false) else follow_node node (Some role).

(** The replication of a demoted MySQL: the failures are logged. *)
Definition mysql_follow_leader : M () :=
  c ← try_any (c ← lift_dcs get_cluster; puts (λ s, set_race (replace_cluster c (race_part s)) s);; mret c)
        (load_cluster_from_dcs;; cluster_);
  node ← (if cluster_truthy c then _get_node_to_follow c else mret None);
  match (node : option target) with
  | Some t =>
      conn ← lift_exc (conn_url (target_member t));
      let '(url, _) := (conn : pyval * Member) in
      when (truthy url) (follow_node (Some t) (Some REPLICA);; mret ())
  | None => mret ()
  end.

(** [_demote_mysql] *)
Definition _demote_mysql (m : demote_mode) : M (option bool) :=
  let log_errors (c : M ()) := try_any c (mret ()) in
  log_errors (do SetReadOnly);;
  log_errors (do MysqlDemote);;
  if is_demote_cluster m then
    log_errors (t ← get_remote_member None; follow_node (Some t) (Some STANDBY_LEADER);; mret ());;
    log_errors (touch_member;; mret ());;
    mret (Some true)
  else
    set_is_leader false;;
    when (c_release (mode_control m)) (log_errors (release_leader_key_voluntarily None);; do (Sleep 2));;
    when (negb (is_offline m)) (log_errors mysql_follow_leader);;
    log_errors (touch_member;; mret ());;
    mret (Some true).

(** [demote] *)
Definition demote (m : demote_mode) : M (option bool) :=
  tell (Demoting m);;
  mysql ← attr is_mysql;
  if mysql : bool then _demote_mysql m else demote_postgres m.
End demote.
