(* ===== verification/HaFollow.v ===== *)
(** * Replicas and recovery ([patroni/ha.py], [Ha])

    What the agent does with a PostgreSQL that should follow, or that is down: [pg_rewind],
    crash recovery, [follow] and [recover]; and what it does with one that should be the
    primary: [enforce_primary_role]. *)
From S2P Require Import Prelude PyDict PyVal Json Effects Collections PgMisc Utils Tags DcsData GlobalConfig Slots Dcs Sync HaSync AsyncExec Failsafe Race HaState HaLock HaDemote.

Open Scope string_scope.
Open Scope Z_scope.

Section follow.
Context `{!Datetime, !Json} {W : Type} `{!RaceNode W, !SyncPostgres W, !SyncDcs W, !Backend W, !HaNode W}.
Notation M := (M (W := W)).

(** [self._async_executor.try_run_async(msg, func) or msg] *)
Definition run_or (msg : string) (t : task) : M string :=
  r ← try_run_async msg t; mret (default msg (r : option string)).

(** [x or y] for messages *)
Definition or_message (m1 : M (option string)) (m2 : M string) : M string :=
  r ← m1; match (r : option string) with Some msg => mret msg | None => m2 end.

(** [_handle_crash_recovery] *)
Definition _handle_crash_recovery : M (option string) :=
  f ← self; c ← cluster_;
  if crash_recovery_started f =? 0 then
    can ← (if is_unlocked c then mret true else ask RewindCanRewind);
    if can : bool then
      t ← attr now; modify (set_crash_recovery_started t);;
      msg ← run_or "doing crash recovery in a single user mode" TaskCrashRecovery; mret (Some msg)
    else mret None
  else mret None.

Definition cluster_state (data : dict string) : string := default "" (Dict.get "Database cluster state" data).

(** [_handle_rewind_or_reinitialize] *)
Definition _handle_rewind_or_reinitialize : M (option string) :=
  standby ← standby_cluster;
  c ← cluster_;
  l ← (if standby : bool then t ← get_remote_member None; mret (Some t) else mret (TLeader <$> leader c));
  needed ← ask (RewindNeededPossible l);
  match (l : option target) with
  | Some t =>
      if negb needed then mret None else
      can ← ask RewindCanRewind;
      if can : bool then
        running ← ask IsRunning;
        data ← (if running : bool then mret [] else call controldata);
        crash ← (if negb running && (cluster_state data =? "in archive recovery")%string then _handle_crash_recovery else mret None);
        match (crash : option string) with
        | Some msg => mret (Some msg)
        | None => msg ← run_or ("running pg_rewind from " +:+ target_name t) (TaskRewind t); mret (Some msg)
        end
      else
        remove ← ask RewindRemoveDiverged;
        if remove && negb standby then msg ← run_or "reinitializing due to diverged timelines" TaskReinitialize; mret (Some msg)
        else mret None
  | None => mret None
  end.

(** ** A replica *)

(** The check of the configuration at the end of [follow]: a message, or [None] to go on *)
Definition follow_conf (node : option target) (role : PostgresqlRole) : M (option string) :=
  conf ← call (check_recovery_conf node);
  let '(change_required, restart_required) := (conf : bool * bool) in
  if change_required then
    (if restart_required then try_run_async "changing primary_conninfo and restarting" (TaskFollow node role);; mret ()
     else tell (Followed node (Some role));; do (ReloadFollow node));;
    do RewindCheckDiverged;; mret None
  else
    r ← attr HaState.role;
    when (bool_decide (role = STANDBY_LEADER) && negb (bool_decide (r = role)))
      (do (SetRole role);; do (CallNowait "on_role_change"));;
    f ← self;
    last ← gets (λ s, _last_timeline (race_part s));
    behind ← lift_exc (if nonzero_opt last && truthy (leader_timeline f)
                       then t ← as_num (leader_timeline f); mret (default 0 last <? t) else mret false);
    if behind : bool then
      do RewindCheckDiverged;;
      starting ← ask IsStarting;
      if starting : bool then mret None else _handle_rewind_or_reinitialize
    else mret None.

(** [follow] for a node that is not to be demoted *)
Definition follow_on (node : option target) (follow_reason : string) : M string :=
  standby ← standby_cluster;
  f ← self;
  (if standby && truthy (leader_timeline f) then
     t ← lift_exc (as_num (leader_timeline f));
     h ← call (get_history (t + 1));
     when (negb (length h =? 0)%nat) (do RewindCheckDiverged)
   else mret ());;
  starting ← ask IsStarting;
  or_message (if starting : bool then mret None else _handle_rewind_or_reinitialize) (
    p ← paused;
    when (negb p) (do HandleParameterChange);;
    mine ← has_lock;
    let role := match node with Some (TRemote _) => if mine : bool then STANDBY_LEADER else REPLICA | _ => REPLICA end in
    url ← (match node with
           | Some t => if standby && bool_decide (role = REPLICA)
                       then conn ← lift_exc (conn_url (target_member t)); mret (truthy (conn : pyval * Member).1)
                       else mret true
           | None => mret false
           end);
    if standby && bool_decide (role = REPLICA) && negb url then mret "continue following the old known standby leader"
    else or_message (follow_conf node role) (mret follow_reason)).

(** [follow] *)
Definition follow (demote_reason follow_reason : string) (refresh : bool) : M string :=
  when refresh load_cluster_from_dcs;;
  is_primary ← ask IsPrimary;
  c ← cluster_;
  node ← _get_node_to_follow c;
  p ← paused;
  if p : bool then
    needed ← ask RewindIsNeeded;
    rewind ← (if needed : bool then ask RewindAllowed else mret false);
    if negb rewind || is_unlocked c then
      if is_primary : bool then do (SetRole PRIMARY);; mret "continue to run as primary without lock"
      else
        r ← attr role;
        when (negb (bool_decide (r = STANDBY_LEADER))) (do (SetRole REPLICA));;
        name ← attr node_name;
        if node : option target then follow_on node follow_reason else mret ("no action. I am (" +:+ name +:+ ")")
    else follow_on node follow_reason
  else if is_primary : bool then
    standby ← standby_cluster;
    (if standby : bool then try_run_async "demoting to a standby cluster" (TaskDemote demote_cluster);; mret ()
     else demote immediate_nolock;; mret ());;
    mret demote_reason
  else follow_on node follow_reason.

(** [enforce_follow_remote_member] *)
Definition enforce_follow_remote_member (message : string) : M string :=
  follow "cannot be a real primary in standby cluster" message true.

(** ** A PostgreSQL that is down *)

Definition crashed_states : list string := ["in production"; "in crash recovery"; "shutting down"; "shut down"].

(** The start of a crashed primary in place: whether it is under way *)
Definition start_crashed (timeout : option Z) (state : string) : M bool :=
  if nonzero_opt timeout && bool_decide (state ∈ crashed_states) then
    w ← look;
    if (pg_state w =? "crashed")%string && bool_decide (role w = PRIMARY) then
      conf ← ask RecoveryConfExists;
      if conf : bool then mret false else
      r ← try_run_async "starting primary after failure" (TaskStart (default 0 timeout));
      match (r : option string) with
      | None => modify (set_recovering true);; mret true
      | Some _ => mret false
      end
    else mret false
  else mret false.

(** The single-user recovery, when it applies *)
Definition crash_recovery (state : string) : M (option string) :=
  if bool_decide (state ∈ ["in production"; "shutting down"; "in crash recovery"]) then
    restored ← ask RestoredFromBackup;
    if restored : bool then mret None else _handle_crash_recovery
  else mret None.

(** What to start PostgreSQL as: the message, the node to follow and the role *)
Definition recover_follow (needs_rewind : bool) : M (string + (string * option target * PostgresqlRole)) :=
  mine ← has_lock; standby ← standby_cluster;
  if mine && negb standby then
    when needs_rewind (do RewindReset);;
    mret (inr ("starting as readonly because i had the session lock", None, REPLICA))
  else
    busy ← (if needs_rewind then
              executed ← ask RewindExecuted;
              when (negb executed) (do RewindCheckDiverged);;
              _handle_rewind_or_reinitialize
            else mret None);
    match (busy : option string) with
    | Some msg => mret (inl msg)
    | None =>
        c ← cluster_; mine ← has_lock;
        next ← (if mine : bool then
                  t ← _get_node_to_follow c;
                  mret ("starting as a standby leader because i had the session lock", t, STANDBY_LEADER)
                else if standby && is_unlocked c then
                  t ← get_remote_member None;
                  mret ("trying to follow a remote member because standby cluster is unhealthy", Some t, REPLICA)
                else t ← _get_node_to_follow c; mret ("starting as a secondary", t, REPLICA));
        sync ← is_synchronous_mode_;
        when sync (lift_sync (λ g, set_synchronous_standby_names g [] None));;
        mret (inr (next : string * option target * PostgresqlRole))
    end.

(** The end of [recover] *)
Definition recover_start (needs_rewind : bool) : M string :=
  load_cluster_from_dcs;;
  r ← recover_follow needs_rewind;
  match (r : string + (string * option target * PostgresqlRole)) with
  | inl msg => mret msg
  | inr (msg, node, role) =>
      r ← try_run_async "restarting after failure" (TaskFollow node role);
      when (match (r : option string) with None => true | Some _ => false end) (modify (set_recovering true));;
      mret msg
  end.

(** [recover] *)
Definition recover : M string :=
  w ← look;
  let rewind := needs_rewind w in
  let crash := needs_crash_recovery w in
  mine ← has_lock;
  held ← (if mine : bool then update_lock false else mret false);
  timeout ← (if held : bool then g ← g_; t ← lift_exc (primary_start_timeout g); mret (Some t) else mret None);
  possible ← (if bool_decide (timeout = Some 0) then failover_possible 0 else mret false);
  if possible : bool then
    do WatchdogDisable;; demote immediate;; mret "stopped PostgreSQL to fail over after a crash"
  else
    data ← call controldata;
    let state := cluster_state data in
    started ← (if crash then start_crashed timeout state else mret false);
    if started : bool then mret "starting primary after failure" else
    do WatchdogDisable;;
    or_message (if crash then crash_recovery state else mret None) (recover_start rewind).

(** ** A primary *)

(** [update_cluster_history] *)
Definition line_parts (line : pyval) : list pyval := match line with VList l => l | _ => [] end.
Definition enrich_line (old : list pyval) (line : pyval) : pyval :=
  let parts := line_parts line in
  match List.find (λ o, pyval_eqb (default VNone (line_parts o !! 0%nat)) (default VNone (parts !! 0%nat))) (rev old) with
  | Some o =>
      let op := line_parts o in
      if (length parts =? 3)%nat && (4 <=? length op)%nat && pyval_eqb (default VNone (op !! 1%nat)) (default VNone (parts !! 1%nat))
      then VList (parts ++ [default VNone (op !! 3%nat)] ++
                  (if (length op =? 5)%nat then [default VNone (op !! 4%nat)] else []))%list
      else line
  | None => line
  end.

(** [l[-n:]] *)
Definition last_n {A} (n : Z) (l : list A) : list A :=
  if n =? 0 then l else if 0 <? n then drop (length l - Z.to_nat n) l else drop (Z.to_nat (- n)) l.

Definition update_cluster_history : M () :=
  w ← look;
  if negb (has_timelines w) then mret () else
  let tl := Race.get_primary_timeline w in
  c ← cluster_;
  let lines := match DcsData.history c with Some h => h_lines h | None => [] end in
  if bool_decide (tl = Some 1) then when (negb (length lines =? 0)%nat) (do (SetHistory "[]"))
  else
    let t := default 0 tl in
    let known := match last lines with
                 | Some l => pyval_eqb (default VNone (line_parts l !! 0%nat)) (VInt (t - 1)) && (length (line_parts l) =? 5)%nat
                 | None => false
                 end in
    if known then mret () else
    h ← call (get_history t);
    g ← g_;
    h ← (match config c with
         | Some _ => n ← lift_exc (max_timelines_history g); mret (last_n n h)
         | None => mret h
         end);
    when (negb (length h =? 0)%nat) (do (SetHistory (dumps (VList (map (enrich_line lines) h))))).

(** [process_sync_replication]; the quorum loop has fuel. *)
Definition sync_fuel : nat := 1000.
Definition process_sync_replication_ : M () :=
  primary ← ask IsPrimary;
  c ← cluster_; f ← self;
  t ← lift_sync (λ g, process_sync_replication g c sync_fuel primary (promote_timestamp f));
  modify (set_promote_timestamp t).

(** The pre-promote script's result: whether it has failed *)
Definition pre_promote_failed : M bool :=
  t ← response; mret (match ct_result t with Some false => true | _ => false end).

(** The checks before a node may be the primary: a message, or [None] to go on *)
Definition primary_checks : M (option string) :=
  p ← paused;
  if p : bool then mret None else
  running ← ask WatchdogIsRunning;
  active ← (if running : bool then mret true else ask WatchdogActivate);
  if negb active then
    primary ← ask IsPrimary;
    if primary : bool then demote immediate;; mret (Some "Demoting self because watchdog could not be activated")
    else release_leader_key_voluntarily None;; mret (Some "Not promoting self because watchdog could not be activated")
  else
    failed ← pre_promote_failed;
    if failed : bool then
      t ← attr now;
      puts (λ s, set_race (MkHa (Race.cluster (race_part s)) (old_cluster (race_part s)) (_last_timeline (race_part s)) t) s);;
      release_leader_key_voluntarily None;;
      f ← self; set_response (ct_reset (async_response f));;
      mret (Some "Promotion cancelled because the pre-promote script failed")
    else mret None.

(** The callback [before_promote] *)
Definition before_promote : M () :=
  do BeforePromote;;
  rewind ← attr needs_rewind;
  when rewind (do RewindReset);;
  notify_mpp_coordinator "before_promote".

(** The promotion of a replica *)
Definition promote (promote_message : string) : M string :=
  c ← cluster_;
  ok ← sync_test SyncPrepromote (λ g, process_sync_replication_prepromote g c);
  if negb ok then mret "Postponing promotion because synchronous replication state was updated by somebody else" else
  r ← attr role;
  (if bool_decide (r ∈ [PRIMARY; PROMOTED]) then mret () else
     failsafe_set_active 0;;
     set_last_timeline None;;
     t ← response; set_response (ct_reset t);;
     try_run_async "promote" TaskPromote;; mret ());;
  mret promote_message.

(** [enforce_primary_role] *)
Definition enforce_primary_role (message promote_message : string) : M string :=
  or_message primary_checks (
    primary ← ask IsPrimary;
    w ← look;
    if primary : bool then
      when (negb (is_mysql w && is_mgr_primary w)) (do (SetRole PRIMARY));;
      process_sync_replication_;;
      update_cluster_history;;
      do SyncMetaData;;
      mret message
    else if bool_decide (role w ∈ [PRIMARY; PROMOTED]) then process_sync_replication_;; mret message
    else promote promote_message).
End follow.
