(* ===== verification/HaActions.v ===== *)
(** * Requests and long actions ([patroni/ha.py], [Ha])

    Failovers and restarts that somebody asked for, the bootstrap of a cluster, the failsafe
    topology, and what the loop does while a task is in progress. *)
From stdpp Require Import pretty.
From S2P Require Import Prelude PyDict PyVal Json Effects Collections Lexing PgMisc Utils Tags DcsData GlobalConfig Slots Dcs Sync HaSync AsyncExec Failsafe Race HaState HaLock HaDemote HaFollow.

Open Scope string_scope.
Open Scope Z_scope.

Section actions.
Context `{!Datetime, !Json} {W : Type} `{!RaceNode W, !SyncPostgres W, !SyncDcs W, !Backend W, !HaNode W}.
Notation M := (M (W := W)).

(** ** Scheduled actions *)

(** [should_run_scheduled_action] *)
Definition is_type_error (e : pyexn) : bool := match e with TypeError => true | _ => false end.
Definition should_run_scheduled_action (scheduled_at : option datetime) (cleanup : M ()) : M bool :=
  p ← paused;
  match scheduled_at with
  | Some d =>
      if p : bool then mret false else
      try_except is_type_error (
        w ← look;
        delta ← lift_exc (seconds_until d w);
        let wait := loop_wait w in
        if wait <? delta then mret false
        else if delta <? - (wait * 3 `div` 2) then cleanup;; mret false
        else do (Sleep (Z.max delta 0));; mret true)
        (cleanup;; mret false)
  | None => mret false
  end.

(** [self.dcs.manual_failover('', candidate, scheduled_at, version)] *)
Definition write_failover (candidate : string) (scheduled_at : option datetime) (version : pyval) : M () :=
  dcs_test (ManualFailover candidate) (Dcs.manual_failover (Some "") (Some candidate) scheduled_at version);; mret ().

Definition bare_action (action : string) : string := if (action =? "manual failover")%string then "failover" else action.

(** The demotion that a failover request for this leader asks for, when it is possible *)
Definition failover_from_me (action : string) (f : Failover) : M (option string) :=
  p ← paused;
  if negb (truthy (f_candidate f)) && p then mret None else
  possible ← failover_possible 0;
  if possible : bool then
    ret ← try_run_async (action +:+ ": demote") (TaskDemote graceful);
    mret (Some (default (action +:+ ": demoting myself") (ret : option string)))
  else mret None.

(** [process_manual_failover_from_leader] *)
Definition process_manual_failover_from_leader : M (option string) :=
  c ← cluster_; p ← paused;
  match requested c with
  | None => mret None
  | Some f =>
      skip ← (if p : bool then primary ← ask IsPrimary; mret (negb primary) else mret false);
      if skip : bool then mret None else
      let action := _get_failover_action_name c in
      wait ← (match f_scheduled_at f with
              | Some d => run ← should_run_scheduled_action (Some d) (write_failover "" None (f_version f)); mret (negb run)
              | None => mret false
              end);
      if wait : bool then mret None else
      name ← attr node_name;
      msg ← (if (negb (truthy (f_leader f)) || pyval_eqb (f_leader f) (VStr name)) &&
                (negb (truthy (f_candidate f)) || negb (pyval_eqb (f_candidate f) (VStr name)))
             then failover_from_me action f else mret None);
      match (msg : option string) with
      | Some m => mret (Some m)
      | None => write_failover "" None (f_version f);; mret None
      end
  end.

(** ** Restarts *)

(** [restart_matches] *)
Definition restart_matches (r : RestartData) : M bool :=
  w ← look;
  let role_ok := match rs_role r with
                 | Some x => (x =? "")%string || (x =? role_text (role w))%string
                 | None => true
                 end in
  version_ok ← (match rs_version r with
                | Some v => if (v =? "")%string then mret true
                            else n ← lift_exc (postgres_version_to_int v); mret (negb (n <=? server_version w))
                | None => mret true
                end);
  let pending_ok := negb (rs_pending r && (length (pending_restart w) =? 0)%nat) in
  mret (role_ok && version_ok && pending_ok).

(** [schedule_future_restart], [delete_future_restart], [future_restart_scheduled] *)
Definition schedule_future_restart (r : RestartData) : M bool :=
  t ← attr postmaster_start_time;
  f ← self;
  match scheduled_restart f with
  | Some _ => mret false
  | None =>
      modify (set_scheduled_restart
                (Some (MkRestart (rs_schedule r) (rs_role r) (rs_version r) (rs_pending r) (rs_timeout r) t)));;
      touch_member;; mret true
  end.

Definition delete_future_restart : M bool :=
  f ← self;
  match scheduled_restart f with
  | Some _ => modify (set_scheduled_restart None);; touch_member;; mret true
  | None => mret false
  end.

(** [is_sync_standby] *)
Definition is_sync_standby (c : Cluster) : M bool :=
  name ← attr node_name;
  match leader c with
  | Some l =>
      lm ← lift_exc (leader_matches (sync c) (Some (l_name l)));
      if lm : bool then lift_exc (matches (sync c) (Some name) false) else mret false
  | None => mret false
  end.

(** The wait of [while_not_sync_standby]: a round every two seconds, for twice [loop_wait] *)
Fixpoint wait_released (fuel : nat) (end_time : Z) : M () :=
  match fuel with
  | O => mret ()
  | S fuel =>
      t ← attr now;
      if end_time <=? t then mret () else
      standby ← try_except is_dcs_error (c ← lift_dcs get_cluster; is_sync_standby c) (mret false);
      if standby : bool then do (Sleep 2);; wait_released fuel end_time else mret ()
  end.

(** [while_not_sync_standby]; a round takes two seconds at least, hence the fuel *)
Definition while_not_sync_standby {A} (func : M A) : M A :=
  leads ← is_leader; sync ← is_synchronous_mode_; nosync ← (w ← look; lift_exc (nosync (node_tags w)));
  if leads || negb sync || nosync then func else
  modify (λ f, set_disable_sync (disable_sync f + 1) f);;
  try_finally (
    touched ← touch_member;
    when touched (w ← look; wait_released (Z.to_nat (loop_wait w) + 1) (now w + loop_wait w * 2));;
    func)
    (modify (λ f, set_disable_sync (disable_sync f - 1) f)).

(** What runs for a restart *)
Definition do_restart (timeout : option Z) : M (option bool) :=
  sync ← is_synchronous_mode_; mine ← has_lock;
  let restart := (if mine : bool then notify_mpp_coordinator "before_demote" else mret ());;
                 r ← call (pg_restart timeout);
                 (if mine : bool then notify_mpp_coordinator "after_promote" else mret ());; mret r in
  if sync && negb mine then while_not_sync_standby restart else restart.

(** [AsyncExecutor.run] in the thread of the caller: [None] when cancelled or after an exception *)
Definition run_here {A} (m : M (option A)) : M (option A) :=
  e ← executor;
  let '(called, e) := run_begin e in
  puts (set_executor e);;
  r ← (if called then try_any m (mret None) else mret None);
  puts (λ s, set_executor (run_end (executor_ s)) s);;
  mret r.

(** [restart] *)
Definition restart (r : RestartData) (run_async : bool) : M (bool * string) :=
  ok ← restart_matches r;
  if negb ok then mret (false, "restart conditions are not satisfied") else
  e ← executor;
  let '(prev, e) := schedule "restart" e in
  puts (set_executor e);;
  match prev with
  | Some p => mret (false, p +:+ " already in progress")
  | None =>
      modify (set_recovering true);;
      g ← g_;
      timeout ← (match rs_timeout r with Some t => mret t | None => lift_exc (primary_start_timeout g) end);
      modify (put_start_timeout (Some timeout));;
      if run_async then tell (Scheduled TaskRestart);; mret (true, "restart initiated")
      else
        res ← run_here (do_restart (Some timeout));
        mret (match (res : option bool) with
              | Some true => (true, "restarted successfully")
              | None => (false, "postgres is still starting")
              | Some false => (false, "restart failed")
              end)
  end.

(** [evaluate_scheduled_restart] *)
Definition evaluate_scheduled_restart : M (option string) :=
  e ← executor; f ← self;
  match scheduled_restart f with
  | Some r =>
      if busy e then mret None else
      recent ← attr postmaster_start_time;
      if truthy recent && truthy (rs_start_time r) && negb (pyval_eqb recent (rs_start_time r)) then
        delete_future_restart;; mret None
      else
        run ← should_run_scheduled_action (rs_schedule r) (delete_future_restart;; mret ());
        if run : bool then
          try_finally (r ← restart r true; mret (if (r : bool * string).1 then Some r.2 else None))
            (delete_future_restart;; mret ())
        else mret None
  | None => mret None
  end.

(** ** Bootstrap *)

(** [clone] *)
Definition clone (member : option target) (from_leader : bool) : M (option bool) :=
  standby ← standby_cluster;
  member ← (match member with
            | Some (TRemote _) => mret member
            | _ => if standby : bool then t ← get_remote_member member; mret (Some t) else mret member
            end);
  do RewindReset;;
  ok ← call (pg_clone member from_leader);
  if ok : bool then
    c ← lift_dcs get_cluster;
    node ← _get_node_to_follow c;
    let role := match node with Some (TRemote _) => if standby : bool then Some STANDBY_LEADER else None | _ => None end in
    r ← follow_node node role;
    mret (Some (match r with Some false => false | _ => true end))
  else do RemoveDataDirectory;; mret None.

(** [bootstrap_standby_leader] *)
Definition bootstrap_standby_leader : M (option bool) :=
  source ← get_remote_member None;
  result ← clone (Some source) false;
  t ← response;
  (match (result : option bool) with Some b => set_response (ct_complete b t) | None => set_response (MkCritical (ct_is_cancelled t) None) end);;
  when (default false result) (do (SetRole STANDBY_LEADER));;
  mret result.

(** [_do_reinitialize] *)
Definition retry_timeout (w : W) : exc (option Z) :=
  match Dict.get "retry_timeout" (local_config w) with
  | Some (VInt t) => Ok (Some t) | Some _ => Ok None | None => Raise KeyError
  end.
Definition stop_now : M () :=
  w ← look; t ← lift_exc (retry_timeout w); stop "immediate" false None None None None t;; mret ().
Definition _do_reinitialize (c : Cluster) (from_leader : bool) : M (option bool) :=
  stop_now;;
  w ← look;
  member ← lift_exc (if from_leader then mret (TLeader <$> leader c)
                     else m ← get_clone_member c (rand w) (node_name w); mret (as_target <$> (m : option (Member + Leader))));
  match (member : option target) with Some _ => clone member from_leader | None => mret None end.

(** [reinitialize]; the wait of [cancel] is over when the running function has returned *)
Definition cancel_executor : M () :=
  e ← executor;
  let '(waits, e) := cancel_begin e in
  puts (set_executor e);;
  when waits (do CancelSubprocess;; puts (λ s, set_executor (cancel_end (executor_ s)) s)).

Definition reinitialize (force : bool) : M (option string) :=
  load_cluster_from_dcs;;
  c ← cluster_;
  if is_unlocked c then mret (Some "Cluster has no leader, can not reinitialize") else
  mine ← has_lock;
  if mine : bool then mret (Some "I am the leader, can not reinitialize") else
  when force cancel_executor;;
  e ← executor;
  let '(action, e) := schedule "reinitialize" e in
  puts (set_executor e);;
  match action with
  | Some a => mret (Some (a +:+ " already in progress"))
  | None => tell (Scheduled TaskReinitialize);; mret None
  end.

(** [bootstrap] *)
Definition bootstrap : M string :=
  c ← cluster_; w ← look; standby ← standby_cluster;
  nofail ← (if is_unlocked c && is_none (initialize c) then lift_exc (nofailover (node_tags w)) else mret true);
  if is_unlocked c && is_none (initialize c) && negb nofail && Dict.mem "bootstrap" (local_config w) then
    won ← ask (Initialize true);
    if won : bool then
      do (SetBootstrapping true);;
      t ← response; set_response (ct_reset t);;
      if standby : bool then
        r ← try_run_async "bootstrap_standby_leader" TaskBootstrapStandbyLeader;
        mret (default "trying to bootstrap a new standby leader" (r : option string))
      else r ← try_run_async "bootstrap" TaskBootstrap; mret (default "trying to bootstrap a new cluster" (r : option string))
    else mret "failed to acquire initialize lock"
  else
    member ← lift_exc (get_clone_member c (rand w) (node_name w));
    match (member : option (Member + Leader)) with
    | Some m =>
        if is_unlocked c then mret None else
        let msg := "from " +:+ (match m with inr _ => "leader" | inl _ => "replica" end) +:+ " '" +:+ target_name (as_target m) +:+ "'" in
        r ← try_run_async ("bootstrap " +:+ msg) (TaskClone (Some (as_target m)));
        mret (Some (default ("trying to bootstrap " +:+ msg) (r : option string)))
    | None => mret None
    end ≫= λ cloned : option string,
    match cloned with
    | Some msg => mret msg
    | None =>
        can ← ask CanCreateReplica;
        if can && negb (bool_decide (initialize c = Some "")) then
          r ← try_run_async "bootstrap (without leader)" (TaskClone None);
          mret (default "trying to bootstrap (without leader)" (r : option string))
        else mret ("waiting for " +:+ (if standby : bool then "standby_" else "") +:+ "leader to bootstrap")
    end.

(** [sysid_valid] *)
Definition sysid_valid (sysid : option string) : bool :=
  match sysid with
  | None => false
  | Some s =>
      if (s =? "")%string then false
      else if contains "-" s then (32 <=? String.length s)%nat
      else (10 <=? String.length s)%nat && Str.all is_digit s
  end.

(** [cancel_initialization] *)
Definition cancel_initialization {A} : M A :=
  do CancelInitialization;; stop_now;; do MoveDataDirectory;; raise PatroniFatalException.

(** The end of [post_bootstrap] *)
Definition finish_bootstrap : M string :=
  do (SetBootstrapping false);;
  active ← ask WatchdogActivate;
  if negb active then cancel_initialization else
  do RewindEnsureCheckpoint;;
  c ← cluster_;
  ask (Initialize (is_none (initialize c)));;
  ask SetConfigValue;;
  ask TakeLeader;;
  set_is_leader true;;
  g ← g_;
  when (is_synchronous_mode g)
    (lift_sync (λ g, set_synchronous_standby_names g (if is_synchronous_mode_strict g then ["*"] else []) None));;
  do (CallNowait "on_start");;
  load_cluster_from_dcs;;
  mret "initialized a new cluster".

(** [post_bootstrap] *)
Definition post_bootstrap : M string :=
  t ← response;
  running ← ask IsRunning;
  match ct_result t with
  | Some false => cancel_initialization
  | Some true => if negb running then cancel_initialization else finish_bootstrap
  | None =>
      if negb running then cancel_initialization else
      primary ← ask IsPrimary;
      if negb primary then mret "waiting for end of recovery after bootstrap" else
      do (SetRole PRIMARY);;
      r ← try_run_async "post_bootstrap" TaskPostBootstrap;
      mret (default "running post_bootstrap" (r : option string))
  end.

(** ** Failsafe mode *)

(** [call_failsafe_member] *)
Definition call_failsafe_member (m : Member) : M bool := try_any (ask (FailsafeCall m)) (mret false).
Fixpoint call_failsafe_members (l : list Member) : M (list (Member * bool * option Z)) :=
  match l with
  | [] => mret []
  | m :: l' =>
      ok ← call_failsafe_member m;
      lsn ← attr (failsafe_lsn m);
      r ← call_failsafe_members l'; mret ((m, ok, lsn) :: r)
  end.

(** [check_failsafe_topology] *)
Definition check_failsafe_topology : M bool :=
  '(name, failsafe) ← read_failsafe;
  match (failsafe : option (dict pyval)) with
  | None => mret false
  | Some f =>
      if negb (Dict.mem name f) then mret false else
      try_any (call pg_slots;; mret ()) (mret ());;
      let members := failsafe_members (List.filter (λ kv, negb (kv.1 =? name)%string) f) in
      match members with
      | [] => mret true
      | _ =>
          results ← call_failsafe_members members;
          let ok := forallb (λ r, r.1.2) results in
          when ok (modify (λ f, set_failsafe_part (update_slots
            (omap (λ r, if nonzero_opt r.2 then Some (m_name r.1.1, opt_int r.2) else None) results) (failsafe_part f)) f));;
          mret ok
      end
  end.

(** [update_failsafe]: why the caller must not go on, or the node's own position *)
Definition update_failsafe (data : dict pyval) : M (string + option Z) :=
  w ← look;
  if (pg_state w =? "running")%string && bool_decide (role w = PRIMARY) then mret (inl "Running as a leader") else
  f ← self;
  let '(r, fs) := failsafe_update (now w) data (failsafe_part f) in
  modify (set_failsafe_part fs);;
  lift_exc r;;
  mret (inr (last_wal_lsn f)).

(** [failsafe_is_active] *)
Definition failsafe_active : M bool :=
  f ← self; attr (λ w, failsafe_is_active (now w) (Race.ttl w) (failsafe_part f)).

(** [_sync_replication_slots] *)
Definition _sync_replication_slots (dcs_failed : bool) : M (list string) :=
  c ← cluster_; fs ← is_failsafe_mode;
  if negb (cluster_truthy c) || (dcs_failed && negb fs) then mret [] else
  f ← self; w ← look;
  let c := if fs then update_cluster (now w) (Race.ttl w) (failsafe_part f) c else c in
  slots ← (if cluster_truthy c then call (sync_slots c) else mret []);
  active ← failsafe_active;
  mret (if active : bool then [] else slots).

(** ** Forks of MySQL group replication *)

(** [_handle_mgr_gtid_fork]; the report it writes is one call *)
Definition _handle_mgr_gtid_fork : M string :=
  pauses ← attr mgr_pauses_on_fork;
  p ← paused;
  when (pauses && negb p) (try_any (ask SetConfigValue;; mret ()) (mret ()));;
  try_any (do SetReadOnly) (mret ());;
  mret (if pauses : bool then "MGR GTID fork detected; cluster paused for manual intervention"
        else "MGR GTID fork detected; automatic bootstrap refused").
End actions.
