(* ===== verification/HaCycle.v ===== *)
(** * The cycle of the agent ([patroni/ha.py], [Ha])

    [run_cycle]: the view of the cluster, the tasks in progress, a PostgreSQL that starts, the
    data directory, and then the leader race or the renewal of the lock; the loss of the
    DCS; and the shutdown of the agent. *)
From stdpp Require Import pretty.
From S2P Require Import Prelude PyDict PyVal Json Effects Collections Utils Tags DcsData GlobalConfig Slots Dcs Sync HaSync AsyncExec Failsafe Race HaState HaLock HaDemote HaFollow HaActions.

Open Scope string_scope.
Open Scope Z_scope.

Section cycle.
Context `{!Datetime, !Json} {W : Type} `{!RaceNode W, !SyncPostgres W, !SyncDcs W, !Backend W, !HaNode W}.
Notation M := (M (W := W)).

(** ** Without and with a leader *)

(** The failover key after the lock was taken *)
Definition update_failover_key : M () :=
  c ← cluster_; p ← paused;
  match requested c with
  | Some f =>
      if p && truthy (f_leader f) && truthy (f_candidate f)
      then cand ← lift_exc (need_str (f_candidate f)); write_failover cand (f_scheduled_at f) (f_version f)
      else write_failover "" None VNone
  | None => mret ()
  end.

(** [process_unhealthy_cluster] *)
Definition process_unhealthy_cluster : M string :=
  healthiest ← lift_race (λ g, is_healthiest_node g);
  if healthiest : bool then
    acquired ← acquire_lock;
    if acquired : bool then
      update_failover_key;;
      load_cluster_from_dcs;;
      standby ← standby_cluster;
      if standby : bool then enforce_follow_remote_member "promoted self to a standby leader by acquiring session lock"
      else enforce_primary_role "acquired session lock as a leader" "promoted self to leader by acquiring session lock"
    else follow "demoted self after trying and failing to obtain lock"
           "following new leader after trying and failing to obtain lock" true
  else
    c ← cluster_; p ← paused; w ← look;
    nofail ← lift_exc (nofailover (node_tags w));
    let manual := match requested c with Some f => truthy (f_candidate f) | None => false end in
    when (manual || (nofail && negb p)) (do RewindCheckDiverged;; do (Sleep 2));;
    if nofail : bool
    then follow "demoting self because I am not allowed to become primary"
           "following a different leader because I am not allowed to promote" true
    else follow "demoting self because i am not the healthiest node"
           "following a different leader because i am not the healthiest node" true.

(** The leader's part after the lock was renewed, for a MySQL primary: a message ends the cycle. *)
Definition mysql_primary_cycle : M (option string) :=
  c ← cluster_;
  action ← call (run_mgr_cycle true c);
  let action := default "" (action : option string) in
  if (action =? "mgr_yield_lock")%string then
    release_leader_key_voluntarily None;; mret (Some "released leader lock; peer has more GTIDs for MGR bootstrap")
  else if (action =? "mgr_gtid_fork")%string then msg ← _handle_mgr_gtid_fork; mret (Some msg)
  else if (action =? "")%string then do SemiSyncCheck;; mret None
  else mret (Some action).

(** The leader's part after the lock was renewed *)
Definition keep_leading : M string :=
  or_message process_manual_failover_from_leader (
    do RewindEnsureCheckpoint;;
    standby ← standby_cluster; w ← look;
    if standby : bool then
      r ← attr role;
      enforce_follow_remote_member (if bool_decide (r = STANDBY_LEADER)
        then "no action. I am (" +:+ node_name w +:+ "), the standby leader with the lock"
        else "promoted self to a standby leader because i had the session lock")
    else
      or_message (if is_mysql w then mysql_primary_cycle else mret None)
        (enforce_primary_role ("no action. I am (" +:+ node_name w +:+ "), the leader with the lock")
           "promoted self to leader because I had the session lock")).

(** The lock could not be renewed. *)
Definition lost_lock : M string :=
  primary ← ask IsPrimary; p ← paused;
  if primary : bool then
    if p : bool then mret "continue to run as primary after failing to update leader lock in DCS"
    else demote immediate_nolock;; mret "demoted self because failed to update leader lock in DCS"
  else mret "not promoting because failed to update leader lock in DCS".

(** A paused owner of the lock that is not a primary: a message, or [None] to go on *)
Definition paused_owner : M (option string) :=
  p ← paused;
  idle ← (if p : bool then primary ← ask IsPrimary; mret (negb primary) else mret false);
  if negb idle then mret None else
  c ← cluster_; name ← attr node_name; standby ← standby_cluster;
  if match requested c with Some f => pyval_eqb (f_candidate f) (VStr name) | None => false end
  then mret (Some "waiting to become primary after promote...")
  else if negb standby then _delete_leader None;; mret (Some "removed leader lock because postgres is not running as primary")
  else mret None.

(** MySQL without the lock: a message ends the cycle. *)
Definition mysql_replica_cycle : M (option string) :=
  c ← cluster_;
  action ← call (run_mgr_cycle false c);
  let action := default "" (action : option string) in
  if (action =? "mgr_gtid_fork")%string then msg ← _handle_mgr_gtid_fork; mret (Some msg)
  else if negb (action =? "")%string then mret (Some action)
  else
    mgr ← ask MgrConfigured;
    if negb mgr then mret None else
    st ← call mgr_status; name ← attr node_name;
    mret (Some (match (st : option (string * string)) with
                | Some (r, s) => "no action. I am (" +:+ name +:+ "), MGR " +:+ r +:+ "/" +:+ s
                | None => "waiting for MGR group recovery"
                end)).

(** [process_healthy_cluster] *)
Definition process_healthy_cluster : M string :=
  mine ← has_lock;
  if mine : bool then
    or_message paused_owner (
      updated ← update_lock true;
      if updated : bool then keep_leading else lost_lock)
  else
    standby ← standby_cluster; w ← look;
    or_message (if is_mysql w && negb standby then mysql_replica_cycle else mret None) (
      c ← cluster_;
      let owner := default "None" (DcsData.leader_name c) in
      if standby : bool
      then follow "cannot be a real primary in a standby cluster"
             ("no action. I am (" +:+ node_name w +:+ "), a secondary, and following a standby leader (" +:+ owner +:+ ")") false
      else follow "demoting self because I do not have the lock and I was a leader"
             ("no action. I am (" +:+ node_name w +:+ "), a secondary, and following a leader (" +:+ owner +:+ ")") false).

(** ** A task in progress, and a PostgreSQL that starts *)

Definition action_name (e : AsyncExecutor pyval) : string := default "None" (scheduled_action e).

(** Without the lock: whatever may become a primary in the background is stopped. *)
Definition stop_background : M (option string) :=
  e ← executor;
  let action := action_name e in
  cancelled ← (if (action =? "promote")%string then
                 t ← response;
                 let '(cancel, t) := ct_cancel t in
                 set_response t;; mret cancel
               else mret false);
  if cancelled : bool then do CancelSubprocess;; mret (Some "lost leader before promote") else
  r ← attr role;
  if bool_decide (r = PRIMARY) then
    (if bool_decide (action ∈ ["restart"; "starting primary after failure"]) then
       started ← attr starting_postmaster;
       let t := if started : bool then snd (ct_perform (VStr "postmaster") (critical_task e)) else critical_task e in
       let '(cancel, t) := ct_cancel t in
       puts (set_executor (MkExecutor (_scheduled_action e) (_is_cancelled e) (_finish_event e) t));;
       when (negb cancel) (do TerminateStarting)
     else mret ());;
    demote immediate_nolock;;
    mret (Some ("lost leader lock during " +:+ action))
  else mret None.

(** [handle_long_action_in_progress] *)
Definition handle_long_action_in_progress : M string :=
  mine ← has_lock;
  held ← (if mine : bool then update_lock false else mret false);
  e ← executor;
  let action := action_name e in
  if held : bool then
    overdue ← (if (action =? "doing crash recovery in a single user mode")%string then
                 g ← g_; f ← self; t ← attr now; timeout ← lift_exc (primary_start_timeout g);
                 if timeout - (t - crash_recovery_started f) <=? 0 then failover_possible 0 else mret false
               else mret false);
    if overdue : bool then
      do CancelSubprocess;; demote immediate;; mret "terminated crash recovery because of startup timeout"
    else mret ("updated leader lock during " +:+ action)
  else
    p ← paused; b ← attr bootstrapping;
    or_message (if negb b && negb p then stop_background else mret None)
      (mret (action +:+ " in progress")).

(** [handle_starting_instance] *)
Definition handle_starting_instance : M (option string) :=
  starting ← ask CheckForStartup; p ← paused;
  if negb starting || p then
    modify (put_start_timeout None);;
    when p (running ← ask IsRunning; do (SetState (if running : bool then "running" else "stopped")));;
    mret None
  else
    mine ← has_lock;
    if negb mine then mret None else
    held ← update_lock false;
    if negb held then
      demote immediate_nolock;; mret (Some "stopped PostgreSQL while starting up because leader key was lost")
    else
      f ← self; g ← g_;
      timeout ← (if nonzero_opt (start_timeout f) then mret (default 0 (start_timeout f)) else lift_exc (primary_start_timeout g));
      elapsed ← attr time_in_state;
      if timeout - elapsed <=? 0 then
        possible ← failover_possible 0;
        if possible : bool then demote immediate;; mret (Some "stopped PostgreSQL because of startup timeout")
        else mret (Some "primary start has timed out, but continuing to wait because failover is not possible")
      else
        msg ← process_manual_failover_from_leader;
        mret (Some (default ("PostgreSQL is still starting up, " +:+ pretty (timeout - elapsed) +:+ " seconds until timeout")
                      (msg : option string))).

(** [post_recover] *)
Definition post_recover : M (option string) :=
  running ← ask IsRunning;
  if running : bool then mret None else
  do WatchdogDisable;;
  mine ← has_lock;
  if mine : bool then
    r ← attr role;
    when (bool_decide (r ∈ [PRIMARY; STANDBY_LEADER])) (do (SetRole DEMOTED);; do (CallNowait "on_role_change"));;
    _delete_leader None;;
    mret (Some "removed leader key after trying and failing to start postgres")
  else mret (Some "failed to start postgres").

(** ** The cycle *)

(** The view of the cluster; after an exception the position for failsafe mode is read. *)
Definition load_view : M () := λ s,
  match (load_cluster_from_dcs;;
         c ← cluster_; puts (λ s, set_config (GlobalConfig.update (config_ s) (Some c) None) s);;
         do ResetClusterInfo) s with
  | (Raise e, s) =>
      if is_exception e then
        (do ResetClusterInfo;;
         fs ← is_failsafe_mode;
         when fs (try_any (lsn ← call pg_last_operation; modify (set_last_wal_lsn (Some lsn))) (mret ()));;
         raise e) s
      else (Raise e, s)
  | r => r
  end.

(** Entering and leaving the maintenance mode *)
Definition handle_pause : M () :=
  p ← paused; f ← self;
  if p : bool then do WatchdogDisable;; modify (set_was_paused true)
  else
    when (was_paused f) (do SanityChecksAfterPause;; do RewindReset);;
    modify (set_was_paused false).

(** The keys a leader makes sure of *)
Definition ensure_keys : M () :=
  c ← cluster_; name ← attr node_name;
  when (negb (has_member c (VStr name))) (touch_member;; mret ());;
  mine ← has_lock;
  when (mine && negb (sysid_valid (initialize c))) (ask (Initialize (is_none (initialize c)));; mret ());;
  when (mine && match config c with Some conf => (length (c_data conf) =? 0)%nat | None => true end)
    (ask SetConfigValue;; c ← lift_dcs get_cluster; puts (λ s, set_race (replace_cluster c (race_part s)) s)).

(** After an attempt to start PostgreSQL: a message, or [None] to go on *)
Definition after_recovery : M (option string) :=
  f ← self;
  if negb (recovering f) then mret None else
  modify (set_recovering false);;
  needed ← ask RewindIsNeeded;
  msg ← (if needed : bool then mret None else post_recover);
  match (msg : option string) with
  | Some m => mret (Some m)
  | None =>
      modify (set_crash_recovery_started 0);;
      executed ← ask RewindExecuted;
      failed ← (if executed : bool then ask RewindFailed else mret true);
      when (executed && negb failed) (do RewindReset);;
      c ← cluster_; raft ← attr dcs_is_raft;
      mret (if is_unlocked c && raft then Some "started as a secondary" else None)
  end.

(** An empty data directory, or one that cannot be read *)
Definition no_data_directory (accessible : bool) : M string :=
  do (SetRole UNINITIALIZED);;
  stop_now;;
  do WatchdogDisable;;
  mine ← has_lock;
  if mine : bool then
    release_leader_key_voluntarily None;;
    mret ("released leader key voluntarily as data dir " +:+ (if accessible then "empty" else "not accessible") +:+ " and currently leader")
  else if negb accessible then e ← attr os_error_text; mret ("data directory is not accessible: " +:+ e)
  else p ← paused; if p : bool then mret "running with empty data directory" else bootstrap.

(** Whether this data directory may join the cluster: a message, or [None] to go on *)
Definition check_system_id : M (option string) :=
  c ← cluster_; w ← look; p ← paused;
  let data_sysid := sysid w in
  let valid := sysid_valid (Some data_sysid) in
  if negb valid && requires_sysid_match w
  then mret (Some "data dir for the cluster is not empty, but system ID is invalid; consider doing reinitialize")
  else if sysid_valid (initialize c) && valid then
    if requires_sysid_match w && negb (bool_decide (initialize c = Some data_sysid)) then
      if p : bool then
        mine ← has_lock;
        if mine : bool then release_leader_key_voluntarily None;; mret (Some "released leader key voluntarily due to the system ID mismatch")
        else mret None
      else raise SystemExit
    else mret None
  else if is_unlocked c && negb p && negb (cb_called w) then
    running ← ask IsRunning;
    primary ← (if running : bool then ask IsPrimary else mret true);
    if running && negb primary then modify (set_join_aborted true);; raise SystemExit else
    when valid (ask (Initialize (is_none (initialize c)));; mret ());; mret None
  else mret None.

(** A PostgreSQL that is not healthy *)
Definition not_healthy : M string :=
  p ← paused; mine ← has_lock;
  msg ← (if p : bool then
           do (SetState "stopped");;
           if mine : bool then _delete_leader None;; mret (Some "removed leader lock because postgres is not running")
           else
             failed ← ask RewindFailed;
             executed ← ask RewindExecuted;
             needed ← ask RewindIsNeeded; allowed ← ask RewindAllowed;
             mret (if failed || (negb executed && negb (needed && allowed)) then Some "postgres is not running" else None)
         else mret None);
  match (msg : option string) with
  | Some m => mret m
  | None =>
      st ← attr pg_state;
      when (bool_decide (st ∈ ["running"; "starting"])) (do (SetState "crashed"));;
      recover
  end.

(** The leader race, or the life of a cluster with a leader, and then the replication slots *)
Definition lead_or_follow : M string :=
  c ← cluster_;
  ret ← (if is_unlocked c then process_unhealthy_cluster
         else msg ← process_healthy_cluster; r ← evaluate_scheduled_restart; mret (default msg (r : option string)));
  e ← executor;
  let promoting := bool_decide (scheduled_action e = Some "promote") in
  starting ← (if negb (busy e) || promoting then ask IsStarting else mret true);
  if starting : bool then mret ret else
  slots ← _sync_replication_slots false;
  called ← attr cb_called;
  when (negb called)
    (primary ← (if promoting then mret true else ask IsPrimary);
     when (negb primary) (do RewindCheckDiverged);;
     do (CallNowait "on_start"));;
  c ← cluster_;
  if negb promoting && negb (length slots =? 0)%nat && (match leader c with Some _ => true | None => false end) then
    err ← try_run_async "copy_logical_slots" (TaskCopySlots slots);
    mret (match (err : option string) with
          | None => "Copying logical slots " +:+ repr (VList (map VStr slots)) +:+ " from the primary"
          | Some _ => ret
          end)
  else mret ret.

(** What follows once no task is in progress and PostgreSQL is not starting *)
Definition settled : M string :=
  b ← attr bootstrapping;
  if b : bool then post_bootstrap else
  or_message after_recovery (
    dir ← try_except (λ e, match e with OSError => true | _ => false end)
            (b ← ask DataDirectoryEmpty; mret (Some b)) (mret None);
    match (dir : option bool) with
    | None => no_data_directory false
    | Some true => no_data_directory true
    | Some false =>
        or_message check_system_id (
          healthy ← ask IsHealthy;
          if negb healthy then not_healthy else lead_or_follow)
    end).

(** The body of [_run_cycle] *)
Definition cycle_body : M string :=
  load_view;;
  handle_pause;;
  ensure_keys;;
  e ← executor;
  if busy e then handle_long_action_in_progress else
  or_message handle_starting_instance settled.

(** [_handle_dcs_error] *)
Definition _handle_dcs_error : M string :=
  p ← paused;
  running ← (if p : bool then mret false else ask IsRunning);
  if negb running then mret "DCS is not accessible" else
  primary ← ask IsPrimary;
  if primary : bool then
    fs ← is_failsafe_mode;
    ok ← (if fs : bool then check_failsafe_topology else mret false);
    if ok : bool then
      set_is_leader true;;
      t ← attr now; failsafe_set_active t;;
      do WatchdogKeepalive;;
      _sync_replication_slots true;;
      mret "continue to run as a leader because failsafe mode is enabled and all members are accessible"
    else
      failsafe_set_active 0;;
      demote offline;;
      mret "demoted self because DCS is not accessible and I was a leader"
  else _sync_replication_slots true;; mret "DCS is not accessible".

(** The [finally] block *)
Definition end_cycle : M () :=
  leads ← is_leader;
  when leads (failsafe_set_active 0);;
  touch_member;; mret ().

(** [_run_cycle]: a [DCSError] is handled without the [finally] block. *)
Definition _run_cycle : M string := λ s,
  match cycle_body s with
  | (Raise DCSError, s) => _handle_dcs_error s
  | (Raise e, s) =>
      try_finally (if is_pg_error e then mret "Error communicating with PostgreSQL. Will try again later" else raise e) end_cycle s
  | (Ok msg, s) => try_finally (mret msg) end_cycle s
  end.

(** [run_cycle]: only [PatroniFatalException] and [SystemExit] leave it. *)
Definition run_cycle : M string := λ s,
  match (info ← _run_cycle; p ← paused; mret ((if p : bool then "PAUSE: " else "") +:+ info)) s with
  | (Raise e, s) =>
      match e with
      | PatroniFatalException | SystemExit => (Raise e, s)
      | _ => (Ok "Unexpected exception raised, please report it as a BUG", s)
      end
  | r => r
  end.

(** ** The end *)

(** The callback of [shutdown] for a clean shutdown: whether it deleted the leader key *)
Definition shutdown_on_shutdown (ckpt prev : Z) : M bool :=
  leads ← is_leader;
  if leads : bool then
    do (Sleep 1);;
    possible ← failover_possible ckpt;
    c ← cluster_;
    if possible : bool then dcs_test DeleteLock (Dcs.delete_leader (leader c) (Some prev));; mret true
    else lift_dcs (write_leader_optime prev);; mret false
  else mret false.

(** [shutdown] *)
Definition shutdown : M () :=
  cancel_executor;;
  p ← paused; f ← self;
  if p : bool then do WatchdogDisable
  else if join_aborted f then mret ()
  else
    wd ← ask WatchdogIsRunning;
    leads ← is_leader;
    timeout ← stop_timeout;
    r ← while_not_sync_standby
          (stop "fast" false (Some false) (if wd : bool then Some (do WatchdogDisable) else None)
             (if leads : bool then Some shutdown_on_shutdown else None)
             (if leads : bool then Some (notify_mpp_coordinator "before_demote") else None) timeout);
    running ← ask IsRunning;
    if negb running then
      leads ← is_leader;
      when (leads && negb (r : bool * bool).2)
        (l ← call checkpoint_locations; c ← cluster_;
         dcs_test DeleteLock (Dcs.delete_leader (leader c) (l : option Z * option Z).2);; mret ());;
      touch_member;; mret ()
    else mret ().

(** [watch]: the version of the leader key to wait for, if any *)
Definition watch_version : M pyval :=
  e ← executor; c ← cluster_; mine ← has_lock;
  mret (if busy e || negb (cluster_truthy c) || is_unlocked c || mine then VNone
        else match leader c with Some l => l_version l | None => VNone end).
End cycle.
