(* ===== verification/HaTrace.v ===== *)
(** * What the functions of the agent may record

    [emits p m]: the events a computation adds to the log all satisfy [p], whatever its
    result.  Each function of the cycle gets its footprint, a list of kinds of events; the
    properties of the log follow from the footprints and from the few places that record an
    event of the kind they are about. *)
From S2P Require Import Prelude PyDict PyVal Json Effects Collections Utils Tags DcsData GlobalConfig Slots Dcs Sync HaSync AsyncExec Failsafe Race HaState HaLock HaDemote HaFollow HaActions HaCycle.

Open Scope string_scope.
Open Scope list_scope.

(** ** Kinds of events *)

Inductive kind :=
  KGrant | KLoss | KDelete | KTake | KPromote | KSchedule | KPrimary | KAlive | KFailsafe | KStop | KDemote | KPrepromote | KOther.

#[export] Instance kind_eq_dec : EqDecision kind.
Proof. solve_decision. Defined.

Definition kind_of (e : event) : kind :=
  match e with
  | Asked (AcquireLock | UpdateLock) (Ok true) => KGrant
  | Asked (AcquireLock | UpdateLock) _ => KLoss
  | Asked DeleteLock _ => KDelete
  | Asked TakeLeader _ => KTake
  | Asked IsPrimary _ => KPrimary
  | Asked (FailsafeCall _) _ | FailsafeRead _ _ => KFailsafe
  | Asked SyncPrepromote _ => KPrepromote
  | Scheduled TaskPromote => KPromote
  | Scheduled _ => KSchedule
  | Did WatchdogKeepalive _ => KAlive
  | Stopped _ | ShutDown _ => KStop
  | Demoting _ => KDemote
  | _ => KOther
  end.

Definition kinds (K : list kind) (e : event) : bool := bool_decide (kind_of e ∈ K).

Section trace.
Context {DT : Datetime} {JS : Json} {W : Type} `{!RaceNode W, !SyncPostgres W, !SyncDcs W, !Backend W, !HaNode W}.
Notation M := (M (W := W)).
Implicit Types (p : event → bool) (s : loop W).

(** Whatever the result of [m], it adds events that satisfy [p] and keeps the configuration. *)
Definition emits {A} p (m : M A) : Prop :=
  ∀ s, (∃ l, log (m s).2 = l ++ log s ∧ Forall (λ e, p e = true) l) ∧ config_ (m s).2 = config_ s.

(** ** Primitives *)

(** Two runs one after the other *)
Lemma emits_join p s1 s2 s3 :
  (∃ l, log s2 = l ++ log s1 ∧ Forall (λ e, p e = true) l) ∧ config_ s2 = config_ s1 →
  (∃ l, log s3 = l ++ log s2 ∧ Forall (λ e, p e = true) l) ∧ config_ s3 = config_ s2 →
  (∃ l, log s3 = l ++ log s1 ∧ Forall (λ e, p e = true) l) ∧ config_ s3 = config_ s1.
Proof.
  intros [(l & Hl & Hall) Hc] [(l' & Hl' & Hall') Hc']. split; [|congruence]. exists (l' ++ l). rewrite Hl', Hl.
  split; [by rewrite app_assoc|by apply Forall_app].
Qed.

Lemma emits_silent {A} p (m : M A) : (∀ s, log (m s).2 = log s ∧ config_ (m s).2 = config_ s) → emits p m.
Proof. intros H s. destruct (H s) as [Hl Hc]. split; [|done]. exists []. by rewrite Hl. Qed.

Lemma emits_event {A} p (m : M A) :
  (∀ s, ∃ e, log (m s).2 = e :: log s ∧ p e = true ∧ config_ (m s).2 = config_ s) → emits p m.
Proof. intros H s. destruct (H s) as (e & He & Hp & Hc). split; [|done]. exists [e]. rewrite He. split; [done|by constructor]. Qed.

Lemma emits_mono {A} p q (m : M A) : emits p m → (∀ e, p e = true → q e = true) → emits q m.
Proof.
  intros Hm Hpq s. destruct (Hm s) as [(l & Hl & Hall) Hc]. split; [|done]. exists l. split; [done|].
  eapply Forall_impl; [exact Hall|]. auto.
Qed.

Lemma emits_weaken {A} K K' (m : M A) : emits (kinds K) m → forallb (λ k, bool_decide (k ∈ K')) K = true → emits (kinds K') m.
Proof.
  intros Hm HK. refine (emits_mono _ _ _ Hm _). intros e He%bool_decide_eq_true.
  rewrite forallb_forall in HK. apply HK. by apply list_elem_of_In.
Qed.

Lemma emits_ret {A} p (a : A) : emits p (eff_ret _ A a).
Proof. by apply emits_silent. Qed.

Lemma emits_mret {A} p (a : A) : emits p (mret a : M A).
Proof. by apply emits_silent. Qed.

Lemma emits_bind {A B} p (m : M A) (f : A → M B) : emits p m → (∀ a, emits p (f a)) → emits p (m ≫= f).
Proof.
  intros Hm Hf s. unfold mbind, M_bind, eff_bind. specialize (Hm s). destruct (m s) as [[a|e] s1]; simpl in *; [|done].
  eapply emits_join; [exact Hm|]. exact (Hf a s1).
Qed.

Lemma emits_gets {A} p (f : loop W → A) : emits p (gets f).
Proof. by apply emits_silent. Qed.

Lemma emits_puts p (f : loop W → loop W) : (∀ s, log (f s) = log s ∧ config_ (f s) = config_ s) → emits p (puts f).
Proof. intros H. by apply emits_silent. Qed.

Lemma emits_lift_exc {A} p (r : exc A) : emits p (lift_exc r).
Proof. by apply emits_silent. Qed.

Lemma emits_raise {A} p e : emits p (raise (A := A) e).
Proof. by apply emits_silent. Qed.

Lemma emits_call {A} p (op : W → exc A * W) : emits p (call op).
Proof. apply emits_silent. intros s. unfold call. by destruct (op _). Qed.

Lemma emits_lift_race {A} p (m : GlobalConfig → haM A) : emits p (lift_race m).
Proof. apply emits_silent. intros s. unfold lift_race. by destruct (m _ _) as [? []]. Qed.

Lemma emits_lift_sync {A} p (m : GlobalConfig → syncM A) : emits p (lift_sync m).
Proof. apply emits_silent. intros s. unfold lift_sync. by destruct (m _ _) as [? []]. Qed.

Lemma emits_lift_dcs {A} p (m : dcsM A) : emits p (lift_dcs m).
Proof. apply emits_silent. intros s. unfold lift_dcs. by destruct (m _) as [? []]. Qed.

Lemma emits_do p c : (∀ r, p (Did c r) = true) → emits p (do c).
Proof. intros H. apply emits_event. intros s. unfold do. destruct (perform _ _) as [r w]. by exists (Did c r). Qed.

Lemma emits_ask p t : (∀ r, p (Asked t r) = true) → emits p (ask t).
Proof. intros H. apply emits_event. intros s. unfold ask. destruct (query _ _) as [r w]. by exists (Asked t r). Qed.

Lemma emits_signal p mode : (∀ r, p (Signalled mode r) = true) → emits p (signal mode).
Proof. intros H. apply emits_event. intros s. unfold signal. destruct (signal_stop _ _) as [r w]. by exists (Signalled mode r). Qed.

Lemma emits_tell p e : p e = true → emits p (tell e).
Proof. intros H. apply emits_event. intros s. by exists e. Qed.

Lemma emits_dcs_test p t (m : dcsM bool) : (∀ r, p (Asked t r) = true) → emits p (dcs_test t m).
Proof.
  intros H. apply emits_event. intros s. unfold dcs_test, lift_dcs. destruct (m _) as [r [d w]]. by exists (Asked t r).
Qed.

Lemma emits_sync_test p t (m : GlobalConfig → syncM bool) : (∀ r, p (Asked t r) = true) → emits p (sync_test t m).
Proof.
  intros H. apply emits_event. intros s. unfold sync_test, lift_sync. destruct (m _ _) as [r [h w]]. by exists (Asked t r).
Qed.

Lemma emits_read_failsafe p : (∀ n f, p (FailsafeRead n f) = true) → emits p read_failsafe.
Proof. intros H. apply emits_event. intros s. by eexists. Qed.

Lemma emits_await p timeout : (∀ r, p (ShutDown r) = true) → emits p (await_shutdown timeout).
Proof.
  intros H. apply emits_event. intros s. unfold await_shutdown. destruct (wait_shutdown _ _) as [r w].
  eexists. split; [done|split; [apply H|done]].
Qed.

Lemma emits_try_run_async p a t : p (Scheduled t) = true → emits p (HaState.try_run_async a t).
Proof.
  intros H s. unfold HaState.try_run_async. destruct (AsyncExec.try_run_async _ _) as [[r|] e]; (split; [|done]).
  - by exists [].
  - exists [Scheduled t]. split; [done|by constructor].
Qed.

Lemma emits_try_except {A} p q (m h : M A) : emits p m → emits p h → emits p (try_except q m h).
Proof.
  intros Hm Hh s. unfold try_except. specialize (Hm s). destruct (m s) as [[a|e] s1]; simpl in *; [done|].
  destruct (q e); [|done]. eapply emits_join; [exact Hm|]. exact (Hh s1).
Qed.

Lemma emits_try_any {A} p (m h : M A) : emits p m → emits p h → emits p (try_any m h).
Proof. apply emits_try_except. Qed.

Lemma emits_try_finally {A} p (m : M A) f : emits p m → emits p f → emits p (try_finally m f).
Proof.
  intros Hm Hf s. unfold try_finally. specialize (Hm s). destruct (m s) as [r s1]; simpl in *.
  specialize (Hf s1). pose proof (emits_join p s s1 (f s1).2 Hm Hf) as H. by destruct (f s1) as [[[]|e] s2].
Qed.

Lemma emits_when p b (m : M ()) : emits p m → emits p (when b m).
Proof. intros H. destruct b; [done|apply emits_mret]. Qed.

Lemma emits_or_message p (m1 : M (option string)) m2 : emits p m1 → emits p m2 → emits p (or_message m1 m2).
Proof. intros H1 H2. apply emits_bind; [done|]. intros [msg|]; [apply emits_mret|done]. Qed.

Lemma emits_run_or p msg t : p (Scheduled t) = true → emits p (run_or msg t).
Proof. intros H. apply emits_bind; [by apply emits_try_run_async|]. intros a. apply emits_mret. Qed.

Lemma emits_false_on_error p (m : M bool) : emits p m → emits p (false_on_error m).
Proof. intros Hm. apply emits_try_except; [done|apply emits_mret]. Qed.
End trace.

(** ** Automation *)

Create HintDb emits discriminated.
#[export] Hint Constants Opaque : emits.
#[export] Hint Extern 0 (emits _ (mret _)) => apply emits_mret : emits.
#[export] Hint Resolve emits_ret emits_gets emits_lift_exc emits_raise emits_call emits_lift_race emits_lift_sync
  emits_lift_dcs : emits.

(** A footprint that was proved *)
Ltac emit_known := solve [eapply emits_weaken; [solve [eauto 1 with emits nocore]|reflexivity]].

(** The rules for functions that take a computation, added below *)
Ltac emit_extra := fail.

(** One step of a proof of [emits]: a primitive, a known footprint, or the structure of the computation *)
Ltac emit_step :=
  match goal with
  | |- ∀ _, _ => intro
  | |- emits _ (_ ≫= _) => apply emits_bind
  | |- emits _ (mbind _ _) => apply emits_bind
  | |- emits _ (do _) => apply emits_do; reflexivity
  | |- emits _ (ask _) => apply emits_ask; intro; repeat case_match; reflexivity
  | |- emits _ (tell _) => apply emits_tell; reflexivity
  | |- emits _ (signal _) => apply emits_signal; reflexivity
  | |- emits _ (dcs_test _ _) => apply emits_dcs_test; intros [[]|]; reflexivity
  | |- emits _ (sync_test _ _) => apply emits_sync_test; reflexivity
  | |- emits _ read_failsafe => apply emits_read_failsafe; reflexivity
  | |- emits _ (await_shutdown _) => apply emits_await; reflexivity
  | |- emits _ (HaState.try_run_async _ _) => apply emits_try_run_async; reflexivity
  | |- emits _ (run_or _ _) => apply emits_run_or; reflexivity
  | |- emits _ (puts _) => apply emits_puts; split; reflexivity
  | |- emits _ (try_except _ _ _) => apply emits_try_except
  | |- emits _ (try_any _ _) => apply emits_try_any
  | |- emits _ (try_finally _ _) => apply emits_try_finally
  | |- emits _ (false_on_error _) => apply emits_false_on_error
  | |- emits _ (when _ _) => apply emits_when
  | |- emits _ (or_message _ _) => apply emits_or_message
  | |- _ => emit_known
  | |- _ => emit_extra
  | |- emits _ (match ?x with _ => _ end) => destruct x
  | |- _ => solve [auto with emits nocore]
  end.
Ltac emit := repeat emit_step.

(** Unfolds a function and proves its footprint. *)
Ltac emit_unfold f := unfold f; emit.

(** ** Footprints *)

Section footprints.
Context {DT : Datetime} {JS : Json} {W : Type} `{!RaceNode W, !SyncPostgres W, !SyncDcs W, !Backend W, !HaNode W}.
Notation M := (M (W := W)).

Lemma emits_self : emits (kinds []) (self (W := W)).
Proof. emit_unfold @self. Qed.
Lemma emits_modify f : emits (kinds []) (modify (W := W) f).
Proof. emit_unfold @modify. Qed.
Lemma emits_cluster_ : emits (kinds []) (cluster_ (W := W)).
Proof. emit_unfold @cluster_. Qed.
Lemma emits_g_ : emits (kinds []) (g_ (W := W)).
Proof. emit_unfold @g_. Qed.
Lemma emits_configured {A} (f : GlobalConfig → A) : emits (kinds []) (configured (W := W) f).
Proof. emit_unfold @configured. Qed.
Lemma emits_executor : emits (kinds []) (executor (W := W)).
Proof. emit_unfold @executor. Qed.
Lemma emits_look : emits (kinds []) (look (W := W)).
Proof. by apply emits_silent. Qed.
Lemma emits_attr {A} (f : W → A) : emits (kinds []) (attr f).
Proof. by apply emits_silent. Qed.
#[local] Hint Resolve emits_self emits_modify emits_cluster_ emits_g_ emits_configured emits_executor emits_look emits_attr : emits.

Lemma emits_response : emits (kinds []) (response (W := W)).
Proof. emit_unfold @response. Qed.
Lemma emits_set_response t : emits (kinds []) (set_response (W := W) t).
Proof. emit_unfold @set_response. Qed.
#[local] Hint Resolve emits_response emits_set_response : emits.
Lemma emits_is_synchronous_mode_ : emits (kinds []) (is_synchronous_mode_ (W := W)).
Proof. emit_unfold @is_synchronous_mode_. Qed.
#[local] Hint Resolve emits_is_synchronous_mode_ : emits.
Lemma emits_is_quorum_commit_mode_ : emits (kinds []) (is_quorum_commit_mode_ (W := W)).
Proof. emit_unfold @is_quorum_commit_mode_. Qed.
#[local] Hint Resolve emits_is_quorum_commit_mode_ : emits.
Lemma emits_is_failsafe_mode : emits (kinds []) (is_failsafe_mode (W := W)).
Proof. emit_unfold @is_failsafe_mode. Qed.
#[local] Hint Resolve emits_is_failsafe_mode : emits.
Lemma emits_paused : emits (kinds []) (paused (W := W)).
Proof. emit_unfold @paused. Qed.
#[local] Hint Resolve emits_paused : emits.
Lemma emits_standby_cluster : emits (kinds []) (standby_cluster (W := W)).
Proof. emit_unfold @standby_cluster. Qed.
#[local] Hint Resolve emits_standby_cluster : emits.
Lemma emits_stop_timeout : emits (kinds []) (stop_timeout (W := W)).
Proof. emit_unfold @stop_timeout. Qed.
#[local] Hint Resolve emits_stop_timeout : emits.
Lemma emits_is_leader : emits (kinds []) (is_leader (W := W)).
Proof. emit_unfold @is_leader. Qed.
#[local] Hint Resolve emits_is_leader : emits.
Lemma emits_set_is_leader b : emits (kinds []) (set_is_leader (W := W) b).
Proof. emit_unfold @set_is_leader. Qed.
#[local] Hint Resolve emits_set_is_leader : emits.
Lemma emits_has_lock : emits (kinds []) (has_lock (W := W)).
Proof. emit_unfold @has_lock. Qed.
#[local] Hint Resolve emits_has_lock : emits.
Lemma emits_failsafe_set_active v : emits (kinds []) (failsafe_set_active (W := W) v).
Proof. emit_unfold @failsafe_set_active. Qed.
#[local] Hint Resolve emits_failsafe_set_active : emits.
Lemma emits_load_cluster_from_dcs : emits (kinds [KOther]) (load_cluster_from_dcs (W := W)).
Proof. emit_unfold @load_cluster_from_dcs. Qed.
#[local] Hint Resolve emits_load_cluster_from_dcs : emits.
Lemma emits_acquire_lock : emits (kinds [KGrant; KLoss]) (acquire_lock (W := W)).
Proof. emit_unfold @acquire_lock. Qed.
#[local] Hint Resolve emits_acquire_lock : emits.
Lemma emits__failsafe_config : emits (kinds []) (_failsafe_config (W := W)).
Proof. emit_unfold @_failsafe_config. Qed.
#[local] Hint Resolve emits__failsafe_config : emits.
Lemma emits_status_update : emits (kinds []) (status_update (W := W)).
Proof. emit_unfold @status_update. Qed.
#[local] Hint Resolve emits_status_update : emits.
Lemma emits_update_lock b : emits (kinds [KGrant; KLoss; KAlive]) (update_lock (W := W) b).
Proof. emit_unfold @update_lock. Qed.
#[local] Hint Resolve emits_update_lock : emits.
Lemma emits_notify_mpp_coordinator e : emits (kinds [KOther]) (notify_mpp_coordinator (W := W) e).
Proof. emit_unfold @notify_mpp_coordinator. Qed.
#[local] Hint Resolve emits_notify_mpp_coordinator : emits.
Lemma emits_get_effective_tags : emits (kinds []) (get_effective_tags (W := W)).
Proof. emit_unfold @get_effective_tags. Qed.
#[local] Hint Resolve emits_get_effective_tags : emits.
Lemma emits_set_last_timeline t : emits (kinds []) (set_last_timeline (W := W) t).
Proof. emit_unfold @set_last_timeline. Qed.
#[local] Hint Resolve emits_set_last_timeline : emits.

(** What builds the data of the member adds no event. *)
Definition d_silent {A} (m : D (W := W) A) : Prop := ∀ s, log (m s).2.2 = log s.2 ∧ config_ (m s).2.2 = config_ s.2.

Lemma emits_none {A} (m : M A) s : emits (kinds []) m → log (m s).2 = log s.
Proof.
  intros Hm. destruct (Hm s) as [([|e l] & -> & Hall) _]; [done|]. by apply Forall_cons_1 in Hall as [?%bool_decide_eq_true%elem_of_nil _].
Qed.
Lemma d_silent_ret {A} (a : A) : d_silent (mret a).
Proof. done. Qed.
Lemma d_silent_bind {A B} (m : D (W := W) A) (f : A → D (W := W) B) : d_silent m → (∀ a, d_silent (f a)) → d_silent (m ≫= f).
Proof.
  intros Hm Hf s. unfold mbind, D_bind, eff_bind. specialize (Hm s). destruct (m s) as [[a|e] s1]; [|done].
  destruct Hm as [<- <-]. apply Hf.
Qed.
Lemma d_silent_lift {A} (m : M A) : emits (kinds []) m → d_silent (lift_d m).
Proof. intros Hm s. unfold lift_d. pose proof (emits_none m s.2 Hm) as He. pose proof (proj2 (Hm s.2)) as Hc. by destruct (m s.2). Qed.
Lemma d_silent_put k v : d_silent (put_d k v).
Proof. done. Qed.
Lemma d_silent_puts (f : dict pyval * loop W → dict pyval * loop W) : (∀ s, (f s).2 = s.2) → d_silent (puts f).
Proof. intros Hf s. simpl. by rewrite Hf. Qed.
#[local] Hint Resolve d_silent_ret d_silent_put : emits.

Ltac d_step :=
  match goal with
  | |- ∀ _, _ => intro
  | |- d_silent (_ ≫= _) => apply d_silent_bind
  | |- d_silent (lift_d _) => apply d_silent_lift; emit
  | |- d_silent (puts _) => by apply d_silent_puts
  | |- d_silent (match ?x with _ => _ end) => destruct x
  | |- _ => solve [auto with emits nocore | done]
  end.

Lemma d_silent_put_nonzero k o : d_silent (put_nonzero k o).
Proof. unfold put_nonzero. repeat d_step. Qed.
#[local] Hint Resolve d_silent_put_nonzero : emits.
Lemma emits_cached_timeline c : emits (kinds []) (cached_timeline (W := W) c).
Proof. emit_unfold @cached_timeline. Qed.
#[local] Hint Resolve emits_cached_timeline : emits.
Lemma d_silent_standby a b : d_silent (standby_details a b).
Proof. unfold standby_details. repeat d_step. Qed.
#[local] Hint Resolve d_silent_standby : emits.
Lemma d_silent_position : d_silent position_details.
Proof. unfold position_details. repeat d_step. Qed.
Lemma emits_with_details d : emits (kinds []) (with_details (W := W) d).
Proof.
  apply emits_silent. intros s. unfold with_details. pose proof (d_silent_position (d, s)) as Hp.
  destruct (position_details (d, s)) as [[[]|[]] [d' s']]; exact Hp.
Qed.
#[local] Hint Resolve emits_with_details : emits.

Lemma emits_touch_member : emits (kinds [KOther]) (touch_member (W := W)).
Proof. emit_unfold @touch_member. Qed.
#[local] Hint Resolve emits_touch_member : emits.
Lemma emits__delete_leader l : emits (kinds [KDelete]) (_delete_leader (W := W) l).
Proof. emit_unfold @_delete_leader. Qed.
#[local] Hint Resolve emits__delete_leader : emits.
Lemma emits_release_leader_key_voluntarily l : emits (kinds [KDelete; KOther]) (release_leader_key_voluntarily (W := W) l).
Proof. emit_unfold @release_leader_key_voluntarily. Qed.
#[local] Hint Resolve emits_release_leader_key_voluntarily : emits.
Lemma emits_failover_possible l : emits (kinds []) (failover_possible (W := W) l).
Proof. emit_unfold @failover_possible. Qed.
#[local] Hint Resolve emits_failover_possible : emits.
Lemma emits_get_remote_member m : emits (kinds []) (get_remote_member (W := W) m).
Proof. emit_unfold @get_remote_member. Qed.
#[local] Hint Resolve emits_get_remote_member : emits.
Lemma emits__get_node_to_follow c : emits (kinds []) (_get_node_to_follow (W := W) c).
Proof. emit_unfold @_get_node_to_follow. Qed.
#[local] Hint Resolve emits__get_node_to_follow : emits.
Lemma emits_follow_node t r : emits (kinds [KOther]) (follow_node (W := W) t r).
Proof. emit_unfold @follow_node. Qed.
#[local] Hint Resolve emits_follow_node : emits.

(** [stop] adds what its callbacks do. *)
Lemma emits_stop K mode b c sp sd bs timeout :
  KStop ∈ K → KOther ∈ K → (∀ m, sp = Some m → emits (kinds K) m) → (∀ f, sd = Some f → ∀ x y, emits (kinds K) (f x y)) →
  (∀ m, bs = Some m → emits (kinds K) m) → emits (kinds K) (stop (W := W) mode b c sp sd bs timeout).
Proof.
  intros HS HO Hsp Hsd Hbs.
  assert (∀ e, kind_of e = KOther → kinds K e = true) as Ho by (intros e He; unfold kinds; rewrite He; by apply bool_decide_eq_true).
  assert (∀ e, kind_of e = KStop → kinds K e = true) as Hst by (intros e He; unfold kinds; rewrite He; by apply bool_decide_eq_true).
  assert (∀ A (m : M A), emits (kinds [KOther]) m → emits (kinds K) m) as Hw.
  { intros A m Hm. refine (emits_mono _ _ _ Hm _). intros e He%bool_decide_eq_true. apply Ho. by apply list_elem_of_singleton in He. }
  assert (emits (kinds K) (default (mret ()) sp)) as Hsp' by (destruct sp; [by apply Hsp|apply emits_mret]).
  unfold stop. apply emits_bind.
  - unfold _do_stop. apply emits_bind; [by apply emits_ask; auto|]. intros running.
    destruct (negb running); [apply emits_bind; [done|intros; apply emits_mret]|].
    apply emits_bind; [destruct c as [[]|]; try destruct (negb _); first [by apply emits_ask; auto|apply emits_mret]|]. intros starting.
    do 3 (apply emits_bind; [apply Hw; emit|]; intros _).
    apply emits_bind; [destruct bs; [by apply Hbs|apply emits_mret]|]. intros _.
    apply emits_bind; [apply emits_signal; auto|]. intros [sig|].
    + apply emits_bind; [by apply emits_when|intros; apply emits_mret].
    + apply emits_bind; [apply Hw; emit|]. intros _.
      apply emits_bind; [destruct sp; [apply emits_bind; [apply Hw; emit|intros _; by apply Hsp]|apply emits_mret]|]. intros _.
      apply emits_bind; [|intros; apply emits_bind; [apply Hw; emit|intros; apply emits_mret]].
      destruct sd as [f|]; [|apply emits_mret]. destruct (bool_decide _); [|apply emits_mret].
      apply emits_bind; [apply emits_await; auto|]. intros [[x y]|]; [by apply Hsd|apply emits_mret].
  - intros [[success signalled] called]. apply emits_bind; [apply Hw; destruct success; emit|]. intros _.
    apply emits_bind; [apply emits_tell; auto|intros; apply emits_mret].
Qed.

(** A call of [stop] with its callbacks *)
Ltac emit_stop :=
  apply emits_stop;
  [by apply (bool_decide_unpack _)|by apply (bool_decide_unpack _)|intros ? Hcb|intros ? Hcb ? ?|intros ? Hcb];
  repeat case_match; simplify_eq; emit.

Lemma emits_demote_on_shutdown m a b : emits (kinds [KDelete; KOther]) (demote_on_shutdown (W := W) m a b).
Proof. emit_unfold @demote_on_shutdown. Qed.
#[local] Hint Resolve emits_demote_on_shutdown : emits.
Lemma emits_demote_before_shutdown : emits (kinds [KOther]) (demote_before_shutdown (W := W)).
Proof. emit_unfold @demote_before_shutdown. Qed.
#[local] Hint Resolve emits_demote_before_shutdown : emits.
Lemma emits_after_demotion b : emits (kinds []) (after_demotion (W := W) b).
Proof. emit_unfold @after_demotion. Qed.
#[local] Hint Resolve emits_after_demotion : emits.
Lemma emits_demote_postgres m : emits (kinds [KStop; KDelete; KGrant; KLoss; KSchedule; KOther]) (demote_postgres (W := W) m).
Proof. emit_unfold @demote_postgres. emit_stop. Qed.
#[local] Hint Resolve emits_demote_postgres : emits.
Lemma emits_mysql_follow_leader : emits (kinds [KOther]) (mysql_follow_leader (W := W)).
Proof. emit_unfold @mysql_follow_leader. Qed.
#[local] Hint Resolve emits_mysql_follow_leader : emits.
Lemma emits__demote_mysql m : emits (kinds [KDelete; KOther]) (_demote_mysql (W := W) m).
Proof. emit_unfold @_demote_mysql. Qed.
#[local] Hint Resolve emits__demote_mysql : emits.
Lemma emits_demote m : emits (kinds [KDemote; KStop; KDelete; KGrant; KLoss; KSchedule; KOther]) (demote (W := W) m).
Proof. emit_unfold @demote. Qed.
#[local] Hint Resolve emits_demote : emits.
Lemma emits__handle_crash_recovery : emits (kinds [KSchedule; KOther]) (_handle_crash_recovery (W := W)).
Proof. emit_unfold @_handle_crash_recovery. Qed.
#[local] Hint Resolve emits__handle_crash_recovery : emits.
Lemma emits__handle_rewind_or_reinitialize : emits (kinds [KSchedule; KOther]) (_handle_rewind_or_reinitialize (W := W)).
Proof. emit_unfold @_handle_rewind_or_reinitialize. Qed.
#[local] Hint Resolve emits__handle_rewind_or_reinitialize : emits.
Lemma emits_follow_conf n r : emits (kinds [KSchedule; KOther]) (follow_conf (W := W) n r).
Proof. emit_unfold @follow_conf. Qed.
#[local] Hint Resolve emits_follow_conf : emits.
Lemma emits_follow_on n m : emits (kinds [KSchedule; KOther]) (follow_on (W := W) n m).
Proof. emit_unfold @follow_on. Qed.
#[local] Hint Resolve emits_follow_on : emits.
Lemma emits_follow a b c : emits (kinds [KDemote; KStop; KDelete; KGrant; KLoss; KSchedule; KOther; KPrimary]) (follow (W := W) a b c).
Proof. emit_unfold @follow. Qed.
#[local] Hint Resolve emits_follow : emits.
Lemma emits_enforce_follow_remote_member m : emits (kinds [KDemote; KStop; KDelete; KGrant; KLoss; KSchedule; KOther; KPrimary]) (enforce_follow_remote_member (W := W) m).
Proof. emit_unfold @enforce_follow_remote_member. Qed.
#[local] Hint Resolve emits_enforce_follow_remote_member : emits.
Lemma emits_start_crashed t s : emits (kinds [KSchedule; KOther]) (start_crashed (W := W) t s).
Proof. emit_unfold @start_crashed. Qed.
#[local] Hint Resolve emits_start_crashed : emits.
Lemma emits_crash_recovery s : emits (kinds [KSchedule; KOther]) (crash_recovery (W := W) s).
Proof. emit_unfold @crash_recovery. Qed.
#[local] Hint Resolve emits_crash_recovery : emits.
Lemma emits_recover_follow b : emits (kinds [KSchedule; KOther]) (recover_follow (W := W) b).
Proof. emit_unfold @recover_follow. Qed.
#[local] Hint Resolve emits_recover_follow : emits.
Lemma emits_recover_start b : emits (kinds [KSchedule; KOther]) (recover_start (W := W) b).
Proof. emit_unfold @recover_start. Qed.
#[local] Hint Resolve emits_recover_start : emits.
Lemma emits_recover : emits (kinds [KDemote; KStop; KDelete; KGrant; KLoss; KSchedule; KOther; KAlive]) (recover (W := W)).
Proof. emit_unfold @recover. Qed.
#[local] Hint Resolve emits_recover : emits.
Lemma emits_update_cluster_history : emits (kinds [KOther]) (update_cluster_history (W := W)).
Proof. emit_unfold @update_cluster_history. Qed.
#[local] Hint Resolve emits_update_cluster_history : emits.
Lemma emits_process_sync_replication_ : emits (kinds [KPrimary]) (process_sync_replication_ (W := W)).
Proof. emit_unfold @process_sync_replication_. Qed.
#[local] Hint Resolve emits_process_sync_replication_ : emits.
Lemma emits_pre_promote_failed : emits (kinds []) (pre_promote_failed (W := W)).
Proof. emit_unfold @pre_promote_failed. Qed.
#[local] Hint Resolve emits_pre_promote_failed : emits.
Lemma emits_primary_checks : emits (kinds [KDemote; KStop; KDelete; KGrant; KLoss; KSchedule; KOther; KPrimary]) (primary_checks (W := W)).
Proof. emit_unfold @primary_checks. Qed.
#[local] Hint Resolve emits_primary_checks : emits.
Lemma emits_promote m : emits (kinds [KPrepromote; KPromote; KOther]) (promote (W := W) m).
Proof. emit_unfold @promote. Qed.
#[local] Hint Resolve emits_promote : emits.
Lemma emits_enforce_primary_role a b : emits (kinds [KDemote; KStop; KDelete; KGrant; KLoss; KSchedule; KOther; KPrimary; KPrepromote; KPromote]) (enforce_primary_role (W := W) a b).
Proof. emit_unfold @enforce_primary_role. Qed.
#[local] Hint Resolve emits_enforce_primary_role : emits.
Lemma emits_should_run K d m : bool_decide (KOther ∈ K) = true → emits (kinds K) m →
  emits (kinds K) (should_run_scheduled_action (W := W) d m).
Proof.
  intros HK%bool_decide_eq_true Hm. unfold should_run_scheduled_action. emit; try done;
    apply emits_do; intros r; unfold kinds; by apply bool_decide_eq_true.
Qed.
Ltac emit_extra ::= match goal with
  | |- emits _ (should_run_scheduled_action _ _) => apply emits_should_run; [reflexivity|]
  | |- emits _ (stop _ _ _ _ _ _ _) => emit_stop
  end.

Lemma emits_write_failover a b c : emits (kinds [KOther]) (write_failover (W := W) a b c).
Proof. emit_unfold @write_failover. Qed.
#[local] Hint Resolve emits_write_failover : emits.
Lemma emits_failover_from_me a f : emits (kinds [KSchedule]) (failover_from_me (W := W) a f).
Proof. emit_unfold @failover_from_me. Qed.
#[local] Hint Resolve emits_failover_from_me : emits.
Lemma emits_process_manual_failover_from_leader : emits (kinds [KSchedule; KPrimary; KOther]) (process_manual_failover_from_leader (W := W)).
Proof. emit_unfold @process_manual_failover_from_leader. Qed.
#[local] Hint Resolve emits_process_manual_failover_from_leader : emits.
Lemma emits_restart_matches r : emits (kinds []) (restart_matches (W := W) r).
Proof. emit_unfold @restart_matches. Qed.
#[local] Hint Resolve emits_restart_matches : emits.
Lemma emits_delete_future_restart : emits (kinds [KOther]) (delete_future_restart (W := W)).
Proof. emit_unfold @delete_future_restart. Qed.
#[local] Hint Resolve emits_delete_future_restart : emits.
Lemma emits_schedule_future_restart r : emits (kinds [KOther]) (schedule_future_restart (W := W) r).
Proof. emit_unfold @schedule_future_restart. Qed.
#[local] Hint Resolve emits_schedule_future_restart : emits.
Lemma emits_is_sync_standby c : emits (kinds []) (is_sync_standby (W := W) c).
Proof. emit_unfold @is_sync_standby. Qed.
#[local] Hint Resolve emits_is_sync_standby : emits.
Lemma emits_wait_released n t : emits (kinds [KOther]) (wait_released (W := W) n t).
Proof. induction n as [|n IH]; simpl; emit. Qed.
#[local] Hint Resolve emits_wait_released : emits.
Lemma emits_while_not_sync {A} K (m : M A) : bool_decide (KOther ∈ K) = true → emits (kinds K) m → emits (kinds K) (while_not_sync_standby m).
Proof.
  intros HK Hm. assert (∀ B (c : M B), emits (kinds [KOther]) c → emits (kinds K) c) as Hw.
  { intros B c Hc. refine (emits_weaken _ _ _ Hc _). simpl. by rewrite HK. }
  unfold while_not_sync_standby. emit; try done; apply Hw; emit.
Qed.
Lemma emits_do_restart t : emits (kinds [KOther]) (do_restart (W := W) t).
Proof. unfold do_restart. emit; try (apply emits_while_not_sync; [reflexivity|]); emit. Qed.
Lemma emits_run_here {A} K (m : M (option A)) : emits (kinds K) m → emits (kinds K) (run_here m).
Proof. intros Hm. unfold run_here. emit; done. Qed.
#[local] Hint Resolve emits_do_restart : emits.
Ltac emit_extra ::= match goal with
  | |- emits _ (should_run_scheduled_action _ _) => apply emits_should_run; [reflexivity|]
  | |- emits _ (stop _ _ _ _ _ _ _) => emit_stop
  | |- emits _ (while_not_sync_standby _) => apply emits_while_not_sync; [reflexivity|]
  | |- emits _ (run_here _) => apply emits_run_here
  end.
Lemma emits_restart r b : emits (kinds [KSchedule; KOther]) (restart (W := W) r b).
Proof. emit_unfold @restart. Qed.
#[local] Hint Resolve emits_restart : emits.
Lemma emits_evaluate_scheduled_restart : emits (kinds [KSchedule; KOther]) (evaluate_scheduled_restart (W := W)).
Proof. emit_unfold @evaluate_scheduled_restart. Qed.
#[local] Hint Resolve emits_evaluate_scheduled_restart : emits.
Lemma emits_stop_now : emits (kinds [KStop; KOther]) (stop_now (W := W)).
Proof. emit_unfold @stop_now. Qed.
#[local] Hint Resolve emits_stop_now : emits.
Lemma emits_bootstrap : emits (kinds [KSchedule; KOther]) (bootstrap (W := W)).
Proof. emit_unfold @bootstrap. Qed.
#[local] Hint Resolve emits_bootstrap : emits.
Lemma emits_cancel_initialization {A} : emits (kinds [KStop; KOther]) (cancel_initialization (W := W) (A := A)).
Proof. emit_unfold @cancel_initialization. Qed.
#[local] Hint Resolve emits_cancel_initialization : emits.
Lemma emits_finish_bootstrap : emits (kinds [KTake; KStop; KOther]) (finish_bootstrap (W := W)).
Proof. emit_unfold @finish_bootstrap. Qed.
#[local] Hint Resolve emits_finish_bootstrap : emits.
Lemma emits_post_bootstrap : emits (kinds [KTake; KStop; KOther; KSchedule; KPrimary]) (post_bootstrap (W := W)).
Proof. emit_unfold @post_bootstrap. Qed.
#[local] Hint Resolve emits_post_bootstrap : emits.
Lemma emits_call_failsafe_members l : emits (kinds [KFailsafe]) (call_failsafe_members (W := W) l).
Proof. induction l as [|m l IH]; simpl; [emit|]. unfold call_failsafe_member. emit. Qed.
#[local] Hint Resolve emits_call_failsafe_members : emits.
Lemma emits_check_failsafe_topology : emits (kinds [KFailsafe]) (check_failsafe_topology (W := W)).
Proof. unfold check_failsafe_topology. emit. Qed.
#[local] Hint Resolve emits_check_failsafe_topology : emits.
Lemma emits_failsafe_active : emits (kinds []) (failsafe_active (W := W)).
Proof. emit_unfold @failsafe_active. Qed.
#[local] Hint Resolve emits_failsafe_active : emits.
Lemma emits__sync_replication_slots b : emits (kinds []) (_sync_replication_slots (W := W) b).
Proof. emit_unfold @_sync_replication_slots. Qed.
#[local] Hint Resolve emits__sync_replication_slots : emits.
Lemma emits__handle_mgr_gtid_fork : emits (kinds [KOther]) (_handle_mgr_gtid_fork (W := W)).
Proof. emit_unfold @_handle_mgr_gtid_fork. Qed.
#[local] Hint Resolve emits__handle_mgr_gtid_fork : emits.
Lemma emits_update_failover_key : emits (kinds [KOther]) (update_failover_key (W := W)).
Proof. emit_unfold @update_failover_key. Qed.
#[local] Hint Resolve emits_update_failover_key : emits.
Lemma emits_mysql_primary_cycle : emits (kinds [KDelete; KOther]) (mysql_primary_cycle (W := W)).
Proof. emit_unfold @mysql_primary_cycle. Qed.
#[local] Hint Resolve emits_mysql_primary_cycle : emits.
Lemma emits_keep_leading : emits (kinds [KDemote; KStop; KDelete; KGrant; KLoss; KSchedule; KOther; KPrimary; KPrepromote; KPromote]) (keep_leading (W := W)).
Proof. emit_unfold @keep_leading. Qed.
#[local] Hint Resolve emits_keep_leading : emits.
Lemma emits_lost_lock : emits (kinds [KDemote; KStop; KDelete; KGrant; KLoss; KSchedule; KOther; KPrimary]) (lost_lock (W := W)).
Proof. emit_unfold @lost_lock. Qed.
#[local] Hint Resolve emits_lost_lock : emits.
Lemma emits_paused_owner : emits (kinds [KPrimary; KDelete; KOther]) (paused_owner (W := W)).
Proof. emit_unfold @paused_owner. Qed.
#[local] Hint Resolve emits_paused_owner : emits.
Lemma emits_mysql_replica_cycle : emits (kinds [KOther]) (mysql_replica_cycle (W := W)).
Proof. emit_unfold @mysql_replica_cycle. Qed.
#[local] Hint Resolve emits_mysql_replica_cycle : emits.
Lemma emits_stop_background : emits (kinds [KDemote; KStop; KDelete; KGrant; KLoss; KSchedule; KOther]) (stop_background (W := W)).
Proof. emit_unfold @stop_background. Qed.
#[local] Hint Resolve emits_stop_background : emits.
Lemma emits_handle_long_action_in_progress : emits (kinds [KDemote; KStop; KDelete; KGrant; KLoss; KSchedule; KOther; KAlive]) (handle_long_action_in_progress (W := W)).
Proof. emit_unfold @handle_long_action_in_progress. Qed.
#[local] Hint Resolve emits_handle_long_action_in_progress : emits.
Lemma emits_handle_starting_instance : emits (kinds [KDemote; KStop; KDelete; KGrant; KLoss; KSchedule; KOther; KAlive; KPrimary]) (handle_starting_instance (W := W)).
Proof. emit_unfold @handle_starting_instance. Qed.
#[local] Hint Resolve emits_handle_starting_instance : emits.
Lemma emits_post_recover : emits (kinds [KDelete; KOther]) (post_recover (W := W)).
Proof. emit_unfold @post_recover. Qed.
#[local] Hint Resolve emits_post_recover : emits.
Lemma emits_handle_pause : emits (kinds [KOther]) (handle_pause (W := W)).
Proof. emit_unfold @handle_pause. Qed.
#[local] Hint Resolve emits_handle_pause : emits.
Lemma emits_ensure_keys : emits (kinds [KOther]) (ensure_keys (W := W)).
Proof. emit_unfold @ensure_keys. Qed.
#[local] Hint Resolve emits_ensure_keys : emits.
Lemma emits_after_recovery : emits (kinds [KDelete; KOther]) (after_recovery (W := W)).
Proof. emit_unfold @after_recovery. Qed.
#[local] Hint Resolve emits_after_recovery : emits.
Lemma emits_no_data_directory b : emits (kinds [KDelete; KStop; KSchedule; KOther]) (no_data_directory (W := W) b).
Proof. emit_unfold @no_data_directory. Qed.
#[local] Hint Resolve emits_no_data_directory : emits.
Lemma emits_check_system_id : emits (kinds [KDelete; KPrimary; KOther]) (check_system_id (W := W)).
Proof. emit_unfold @check_system_id. Qed.
#[local] Hint Resolve emits_check_system_id : emits.
Lemma emits_not_healthy : emits (kinds [KDemote; KStop; KDelete; KGrant; KLoss; KSchedule; KOther; KAlive]) (not_healthy (W := W)).
Proof. emit_unfold @not_healthy. Qed.
#[local] Hint Resolve emits_not_healthy : emits.
Lemma emits__handle_dcs_error : emits (kinds [KDemote; KStop; KDelete; KGrant; KLoss; KSchedule; KOther; KAlive; KPrimary; KFailsafe]) (_handle_dcs_error (W := W)).
Proof. emit_unfold @_handle_dcs_error. Qed.
#[local] Hint Resolve emits__handle_dcs_error : emits.
Lemma emits_end_cycle : emits (kinds [KOther]) (end_cycle (W := W)).
Proof. emit_unfold @end_cycle. Qed.
#[local] Hint Resolve emits_end_cycle : emits.
End footprints.

#[export] Hint Resolve emits_self emits_modify emits_cluster_ emits_g_ emits_configured emits_executor emits_look
  emits_attr emits_response emits_set_response emits_is_synchronous_mode_ emits_is_quorum_commit_mode_
  emits_is_failsafe_mode emits_paused emits_standby_cluster emits_stop_timeout emits_is_leader
  emits_set_is_leader emits_has_lock emits_failsafe_set_active emits_load_cluster_from_dcs
  emits_acquire_lock emits__failsafe_config emits_status_update emits_update_lock
  emits_notify_mpp_coordinator emits_get_effective_tags emits_set_last_timeline emits_cached_timeline
  emits_with_details emits_touch_member emits__delete_leader emits_release_leader_key_voluntarily
  emits_failover_possible emits_get_remote_member emits__get_node_to_follow emits_follow_node
  emits_demote_on_shutdown emits_demote_before_shutdown emits_after_demotion emits_demote_postgres
  emits_mysql_follow_leader emits__demote_mysql emits_demote emits__handle_crash_recovery
  emits__handle_rewind_or_reinitialize emits_follow_conf emits_follow_on emits_follow
  emits_enforce_follow_remote_member emits_start_crashed emits_crash_recovery emits_recover_follow
  emits_recover_start emits_recover emits_update_cluster_history emits_process_sync_replication_
  emits_pre_promote_failed emits_primary_checks emits_promote emits_enforce_primary_role
  emits_write_failover emits_failover_from_me emits_process_manual_failover_from_leader
  emits_restart_matches emits_delete_future_restart emits_schedule_future_restart
  emits_is_sync_standby emits_wait_released emits_do_restart emits_restart
  emits_evaluate_scheduled_restart emits_stop_now emits_bootstrap emits_cancel_initialization
  emits_finish_bootstrap emits_post_bootstrap emits_call_failsafe_members
  emits_check_failsafe_topology emits_failsafe_active emits__sync_replication_slots
  emits__handle_mgr_gtid_fork emits_update_failover_key emits_mysql_primary_cycle emits_keep_leading
  emits_lost_lock emits_paused_owner emits_mysql_replica_cycle emits_stop_background
  emits_handle_long_action_in_progress emits_handle_starting_instance emits_post_recover
  emits_handle_pause emits_ensure_keys emits_after_recovery emits_no_data_directory
  emits_check_system_id emits_not_healthy emits__handle_dcs_error emits_end_cycle : emits.
