(* ===== verification/HaSafety.v ===== *)
(** * Promotions, keepalives and the lock

    Properties of the order of the calls of a cycle, for every world: whatever PostgreSQL,
    the DCS and the other threads answer, and whenever they raise. *)
From S2P Require Import Prelude PyDict PyVal Json Effects Collections Utils Tags DcsData GlobalConfig Slots Dcs Sync HaSync AsyncExec Failsafe Race HaState HaLock HaDemote HaFollow HaActions HaCycle HaTrace.

Open Scope string_scope.
Open Scope list_scope.

(** ** Properties of logs *)

(** Each event [e] of the log satisfies [C e pre], where [pre] is what was recorded before it. *)
Fixpoint guarded (C : event → list event → bool) (l : list event) : Prop :=
  match l with [] => True | e :: pre => C e pre = true ∧ guarded C pre end.

Lemma guarded_at C l post e pre : guarded C l → l = post ++ e :: pre → C e pre = true.
Proof. intros Hg ->. induction post as [|e' post IH]; destruct Hg as [? Hg]; [done|by apply IH]. Qed.

(** The lock is held: of the events about the key the last one granted it. *)
Fixpoint holds (l : list event) : bool :=
  match l with
  | [] => false
  | e :: l => match kind_of e with KGrant => true | KLoss | KDelete => false | _ => holds l end
  end.

(** Since then, [process_sync_replication_prepromote] was called, and its last call returned [True]. *)
Fixpoint allowed (l : list event) : bool :=
  match l with
  | [] => false
  | Asked SyncPrepromote r :: _ => match r with Ok b => b | Raise _ => false end
  | e :: l => match kind_of e with KGrant | KLoss | KDelete => false | _ => allowed l end
  end.

Definition promotion_guard (e : event) (pre : list event) : bool :=
  match kind_of e with KPromote => holds pre && allowed pre | _ => true end.

Lemma kinds_elem K e : kinds K e = true ↔ kind_of e ∈ K.
Proof. apply bool_decide_eq_true. Qed.

Section safety.
Context {DT : Datetime} {JS : Json} {W : Type} `{!RaceNode W, !SyncPostgres W, !SyncDcs W, !Backend W, !HaNode W}.
Notation M := (M (W := W)).
Implicit Types (P : list event → Prop) (s : loop W).

(** Triples about the log *)
Definition on_log {A} P (m : M A) (Q : A → list event → Prop) P' : Prop :=
  triple (λ s, P (log s)) m (λ a s, Q a (log s)) (λ s, P' (log s)).

Lemma on_log_ret {A} P (a : A) (Q : A → list event → Prop) P' : (∀ l, P l → Q a l) → on_log P (mret a) Q P'.
Proof. intros H. apply triple_ret. auto. Qed.

Lemma on_log_bind {A B} P (m : M A) (f : A → M B) Q Q' P' :
  on_log P m Q P' → (∀ a, on_log (Q a) (f a) Q' P') → on_log P (m ≫= f) Q' P'.
Proof. apply triple_bind. Qed.

Lemma on_log_conseq {A} P (m : M A) (Q Q' : A → list event → Prop) R P' R' :
  on_log P m Q R → (∀ l, P' l → P l) → (∀ a l, Q a l → Q' a l) → (∀ l, R l → R' l) → on_log P' m Q' R'.
Proof. intros H HP HQ HR. eapply triple_conseq; [exact H|simpl; eauto..]. Qed.

Lemma stable_app K P l l' : (∀ e l, kind_of e ∈ K → P l → P (e :: l)) → Forall (λ e, kinds K e = true) l' → P l → P (l' ++ l).
Proof. intros HP Hall Hl. induction Hall as [|e l' He _ IH]; [done|]. apply HP; [by apply kinds_elem|done]. Qed.

(** A computation preserves what the events of its footprint preserve. *)
Lemma on_log_frame {A} K P (m : M A) : emits (kinds K) m → (∀ e l, kind_of e ∈ K → P l → P (e :: l)) → on_log P m (λ _, P) P.
Proof.
  intros Hm HP s Hs. destruct (Hm s) as [(l & Hl & Hall) _]. pose proof (stable_app _ _ _ _ HP Hall Hs) as H. rewrite <-Hl in H.
  by destruct (m s) as [[a|e] s'].
Qed.

(** The view of the cluster, which also changes the configuration *)
Lemma on_log_load_view P : (∀ e l, kind_of e ∈ [KOther] → P l → P (e :: l)) → on_log P load_view (λ _, P) P.
Proof.
  intros HP. assert (∀ A (m : M A), emits (kinds [KOther]) m → on_log P m (λ _, P) P) as Hf.
  { intros A m Hm. by apply (on_log_frame [KOther]). }
  assert (on_log P (load_cluster_from_dcs;;
         c ← cluster_; puts (λ s, set_config (GlobalConfig.update (config_ s) (Some c) None) s);;
         do ResetClusterInfo : M ()) (λ _, P) P) as H1.
  { eapply on_log_bind; [apply Hf; emit|]. intros ?. eapply on_log_bind; [apply Hf; emit|]. intros ?.
    eapply (on_log_bind _ _ _ (λ _, P)); [by intros s Hs|]. intros ?. apply Hf. emit. }
  intros s Hs. unfold load_view. specialize (H1 s Hs). destruct ((load_cluster_from_dcs;; _) s) as [[[]|e] s1]; [done|].
  destruct (is_exception e); [|done]. revert s1 H1. apply (Hf unit). emit.
Qed.

Lemma on_log_or_message P (m1 : M (option string)) (m2 : M string) (Q : list event → Prop) :
  on_log P m1 (λ r, match r with None => P | Some _ => Q end) Q → on_log P m2 (λ _, Q) Q →
  on_log P (or_message m1 m2) (λ _, Q) Q.
Proof. intros H1 H2. eapply on_log_bind; [exact H1|]. intros [msg|]; [by apply on_log_ret|exact H2]. Qed.

(** ** Promotion *)

Definition safe (l : list event) : Prop := guarded promotion_guard l.
Definition safe_held (l : list event) : Prop := safe l ∧ holds l = true.
Definition safe_allowed (l : list event) : Prop := safe_held l ∧ allowed l = true.

(** Every kind but promotions, and those that do not lose the lock *)
Definition no_promote : list kind :=
  [KGrant; KLoss; KDelete; KTake; KSchedule; KPrimary; KAlive; KFailsafe; KStop; KDemote; KPrepromote; KOther].
Definition keeps_lock : list kind := [KTake; KSchedule; KPrimary; KAlive; KFailsafe; KStop; KDemote; KPrepromote; KOther].
(** ... and those that do not repeat the check before a promotion *)
Definition keeps_allowed : list kind := [KTake; KSchedule; KPrimary; KAlive; KFailsafe; KStop; KDemote; KOther].

Ltac split_elem H := repeat (apply elem_of_cons in H as [H|H]); [..|by apply elem_of_nil in H].

Lemma safe_stable e l : kind_of e ∈ no_promote → safe l → safe (e :: l).
Proof. intros He Hl. split; [|done]. unfold promotion_guard. unfold no_promote in He. split_elem He; by rewrite He. Qed.

Lemma held_stable e l : kind_of e ∈ keeps_lock → safe_held l → safe_held (e :: l).
Proof.
  intros He [Hl Hh]. split.
  - apply safe_stable; [|done]. unfold keeps_lock in He. split_elem He; rewrite He; apply (bool_decide_unpack _); reflexivity.
  - simpl. unfold keeps_lock in He. split_elem He; by rewrite He.
Qed.

Lemma allowed_later e l : kind_of e ∈ keeps_allowed → allowed (e :: l) = allowed l.
Proof.
  intros He. assert (kind_of e ≠ KPrepromote ∧ kind_of e ≠ KGrant ∧ kind_of e ≠ KLoss ∧ kind_of e ≠ KDelete) as (? & ? & ? & ?).
  { unfold keeps_allowed in He. split_elem He; by rewrite He. }
  destruct e as [c r|t r|t|o|m r|c|t r|n f|b|m]; try done; [by destruct c|by destruct t, r as [[]|]|by destruct t].
Qed.

Lemma allowed_stable e l : kind_of e ∈ keeps_allowed → safe_allowed l → safe_allowed (e :: l).
Proof.
  intros He [Hl Ha]. split; [|by rewrite allowed_later].
  apply held_stable; [|done]. unfold keeps_allowed in He. split_elem He; rewrite He; by apply (bool_decide_unpack _).
Qed.

Lemma safe_frame {A} (m : M A) : emits (kinds no_promote) m → on_log safe m (λ _, safe) safe.
Proof. intros Hm. by eapply on_log_frame, safe_stable. Qed.
Lemma held_frame {A} (m : M A) : emits (kinds keeps_lock) m → on_log safe_held m (λ _, safe_held) safe.
Proof.
  intros Hm. eapply on_log_conseq; [by eapply on_log_frame, held_stable|done|done|by intros l [? _]].
Qed.
Lemma allowed_frame {A} (m : M A) : emits (kinds keeps_allowed) m → on_log safe_allowed m (λ _, safe_allowed) safe.
Proof. intros Hm. eapply on_log_conseq; [by eapply on_log_frame, allowed_stable|done|done|by intros l [[? _] _]]. Qed.
Lemma safe_of_held {A} (m : M A) : emits (kinds no_promote) m → on_log safe_held m (λ _, safe) safe.
Proof. intros Hm. eapply on_log_conseq; [by apply safe_frame|by intros l [? _]|done|done]. Qed.

(** A computation that is bound, by its footprint *)
Ltac held_step := eapply on_log_bind; [apply held_frame; emit|intros ?].
Ltac allowed_step := eapply on_log_bind; [apply allowed_frame; emit|intros ?].
Ltac safe_step := eapply on_log_bind; [apply safe_frame; emit|intros ?].
Tactic Notation "held_step" "as" simple_intropattern(x) := eapply on_log_bind; [apply held_frame; emit|intros x].
Tactic Notation "safe_step" "as" simple_intropattern(x) := eapply on_log_bind; [apply safe_frame; emit|intros x].

Lemma on_log_try_promote : on_log safe_allowed (HaState.try_run_async "promote" TaskPromote) (λ _, safe) safe.
Proof.
  intros s [[Hs Hh] Ha]. unfold HaState.try_run_async. destruct (AsyncExec.try_run_async _ _) as [[r|] e]; simpl; [done|].
  split; [|done]. unfold promotion_guard. simpl. by rewrite Hh, Ha.
Qed.

Lemma on_log_prepromote (m : GlobalConfig → syncM bool) :
  on_log safe_held (sync_test SyncPrepromote m) (λ b : bool, if b then safe_allowed else safe_held) safe.
Proof.
  intros s Hs. unfold sync_test, lift_sync. destruct (m _ _) as [r [h w]]. simpl.
  assert (safe_held (Asked SyncPrepromote r :: log s)) as Hh by (apply held_stable; [by apply (bool_decide_unpack _)|done]).
  destruct r as [[]|e]; simpl; [by split|done|by destruct Hh].
Qed.

Lemma on_log_promote msg : on_log safe_held (promote msg) (λ _, safe) safe.
Proof.
  unfold promote. held_step. eapply on_log_bind; [apply on_log_prepromote|]. intros [].
  2:{ apply on_log_ret. by intros l [? _]. }
  allowed_step. eapply (on_log_bind _ _ _ (λ _, safe)); [|intros ?; by apply on_log_ret].
  case_bool_decide; [apply on_log_ret; by intros l [[? _] _]|].
  do 4 allowed_step. eapply on_log_bind; [apply on_log_try_promote|]. intros ?. by apply on_log_ret.
Qed.

(** What a step of the cycle leaves: the lock is held when there is no message. *)
Definition held_unless (r : option string) : list event → Prop := match r with None => safe_held | Some _ => safe end.

Lemma on_log_message {A} (m : M A) msg : emits (kinds no_promote) m → on_log safe_held (m;; mret (Some msg)) held_unless safe.
Proof. intros Hm. eapply on_log_bind; [by apply safe_of_held|]. intros ?. by apply on_log_ret. Qed.

Lemma on_log_primary_checks : on_log safe_held primary_checks held_unless safe.
Proof.
  unfold primary_checks. held_step as []; [by apply on_log_ret|]. held_step. held_step.
  destruct (negb _).
  - held_step as []; apply on_log_message; emit.
  - held_step as []; [|by apply on_log_ret]. do 2 held_step.
    eapply on_log_bind; [apply safe_of_held; emit|]. intros ?. do 2 safe_step. by apply on_log_ret.
Qed.

Lemma on_log_enforce msg pmsg : on_log safe_held (enforce_primary_role msg pmsg) (λ _, safe) safe.
Proof.
  unfold enforce_primary_role. apply on_log_or_message; [apply on_log_primary_checks|].
  held_step as primary. held_step. destruct primary; [apply safe_of_held; emit|].
  case_bool_decide; [apply safe_of_held; emit|apply on_log_promote].
Qed.

(** Taking or renewing the lock *)
Lemma on_log_dcs_test t (m : dcsM bool) : t = AcquireLock ∨ t = UpdateLock →
  on_log safe (dcs_test t m) (λ b, if b then safe_held else safe) safe.
Proof.
  intros Ht s Hs. unfold dcs_test, lift_dcs. destruct (m _) as [[[]|e] [d w]]; simpl.
  - split; [split|]; destruct Ht as [-> | ->]; done.
  - split; [|done]. by destruct Ht as [-> | ->].
  - split; [|done]. by destruct Ht as [-> | ->].
Qed.

Lemma on_log_false_on_error (m : M bool) : on_log safe m (λ b, if b then safe_held else safe) safe →
  on_log safe (false_on_error m) (λ b, if b then safe_held else safe) safe.
Proof.
  intros Hm s Hs. unfold false_on_error, try_except. specialize (Hm s Hs). destruct (m s) as [[b|e] s']; [done|].
  by destruct (_ && _).
Qed.

Lemma on_log_acquire : on_log safe acquire_lock (λ b, if b then safe_held else safe) safe.
Proof.
  unfold acquire_lock. eapply on_log_bind; [apply on_log_false_on_error, on_log_dcs_test; by left|]. intros b.
  destruct b; [held_step|safe_step]; by apply on_log_ret.
Qed.

Lemma on_log_update st : on_log safe (update_lock st) (λ b, if b then safe_held else safe) safe.
Proof.
  unfold update_lock. eapply on_log_bind; [apply safe_frame; destruct st; emit|]. intros [lsn slots]. do 2 safe_step.
  eapply on_log_bind.
  { apply on_log_false_on_error. eapply on_log_bind; [apply safe_frame; emit|]. intros ?. apply on_log_dcs_test. by right. }
  intros b. destruct b; [do 2 held_step|do 2 safe_step]; by apply on_log_ret.
Qed.

Lemma on_log_mysql_primary : on_log safe_held mysql_primary_cycle held_unless safe.
Proof.
  unfold mysql_primary_cycle. held_step. held_step as action.
  destruct (_ =? _)%string; [apply on_log_message; emit|].
  destruct (_ =? _)%string; [held_step; apply on_log_ret; by intros l [? _]|].
  destruct (_ =? _)%string; [held_step; by apply on_log_ret|]. apply on_log_ret. by intros l [? _].
Qed.

Lemma on_log_keep_leading : on_log safe_held keep_leading (λ _, safe) safe.
Proof.
  unfold keep_leading. apply on_log_or_message.
  { eapply on_log_conseq; [apply held_frame; emit|done| |done]. intros [msg|] l; [by intros [? _]|done]. }
  held_step. held_step as standby. held_step as w. destruct standby.
  - apply safe_of_held. emit.
  - apply on_log_or_message; [|apply on_log_enforce]. destruct (is_mysql w); [apply on_log_mysql_primary|by apply on_log_ret].
Qed.

Lemma on_log_healthy : on_log safe process_healthy_cluster (λ _, safe) safe.
Proof.
  unfold process_healthy_cluster. safe_step as [].
  - apply on_log_or_message; [eapply on_log_conseq; [apply safe_frame; emit|done| |done]; by intros []|].
    eapply on_log_bind; [apply on_log_update|]. intros []; [apply on_log_keep_leading|apply safe_frame; emit].
  - apply safe_frame. emit.
Qed.

Lemma on_log_unhealthy : on_log safe process_unhealthy_cluster (λ _, safe) safe.
Proof.
  unfold process_unhealthy_cluster. safe_step as [].
  - eapply on_log_bind; [apply on_log_acquire|]. intros []; [|apply safe_frame; emit].
    do 2 held_step. held_step as []; [apply safe_of_held; emit|apply on_log_enforce].
  - apply safe_frame. emit.
Qed.

Lemma on_log_or_safe (m1 : M (option string)) m2 : emits (kinds no_promote) m1 → on_log safe m2 (λ _, safe) safe →
  on_log safe (or_message m1 m2) (λ _, safe) safe.
Proof.
  intros H1 H2. apply on_log_or_message; [|done]. eapply on_log_conseq; [by apply safe_frame|done| |done]. by intros [].
Qed.

Lemma on_log_cycle_body : on_log safe cycle_body (λ _, safe) safe.
Proof.
  unfold cycle_body. eapply on_log_bind; [apply on_log_load_view; intros e l He; apply safe_stable; set_solver|]. intros ?. do 3 safe_step. destruct (busy _); [apply safe_frame; emit|].
  apply on_log_or_safe; [emit|]. unfold settled. safe_step as []; [apply safe_frame; emit|].
  apply on_log_or_safe; [emit|]. safe_step as [[]|]; [apply safe_frame; emit| |apply safe_frame; emit].
  apply on_log_or_safe; [emit|]. safe_step. destruct (negb _); [apply safe_frame; emit|].
  unfold lead_or_follow. safe_step. eapply (on_log_bind _ _ _ (λ _, safe)); [|intros ?; apply safe_frame; emit].
  destruct (is_unlocked _); [apply on_log_unhealthy|]. eapply on_log_bind; [apply on_log_healthy|]. intros ?. apply safe_frame. emit.
Qed.

(** ** A whole cycle *)

(** What a computation whose triple is known leaves behind, whatever its end *)
Lemma on_log_end {A} P (m : M A) s : on_log P m (λ _, P) P → P (log s) → P (log (m s).2).
Proof. intros Hm Hs. specialize (Hm s Hs). by destruct (m s) as [[a|e] s']. Qed.

(** The rules of [_run_cycle] and [run_cycle], for any property of logs *)
Lemma on_log_try_finally {A} P (m : M A) f : on_log P m (λ _, P) P → on_log P f (λ _, P) P →
  on_log P (try_finally m f) (λ _, P) P.
Proof.
  intros Hm Hf s Hs. unfold try_finally. pose proof (on_log_end _ _ _ Hm Hs) as H1. destruct (m s) as [r s1]. simpl in H1.
  pose proof (on_log_end _ _ _ Hf H1) as H2. destruct (f s1) as [[[]|e] s2]; [by destruct r|done].
Qed.

Lemma on_log_run_cycle P : on_log P cycle_body (λ _, P) P → on_log P _handle_dcs_error (λ _, P) P →
  on_log P end_cycle (λ _, P) P → on_log P run_cycle (λ _, P) P.
Proof.
  intros Hb Hd He.
  assert (on_log P _run_cycle (λ _, P) P) as Hc.
  { intros s Hs. unfold _run_cycle. pose proof (on_log_end _ _ _ Hb Hs) as H1. destruct (cycle_body s) as [[msg|e] s1]; simpl in H1.
    - by apply (on_log_try_finally P (mret msg) end_cycle); [by apply on_log_ret|..].
    - assert (∀ r : M string, on_log P r (λ _, P) P → match try_finally r end_cycle s1 with
        | (Ok _, s') | (Raise _, s') => P (log s') end) as Hf by (intros r Hr; by apply (on_log_try_finally P r end_cycle)).
      destruct e; try (by apply Hf; repeat case_match; [by apply on_log_ret|intros ? ?]); [by apply Hd|..].
      all: apply Hf; simpl; first [by apply on_log_ret|by intros ? ?]. }
  intros s Hs. unfold run_cycle.
  assert (on_log P (info ← _run_cycle; p ← paused; mret ((if p : bool then "PAUSE: " else "") +:+ info)) (λ _, P) P) as Hi.
  { eapply on_log_bind; [exact Hc|]. intros info. eapply on_log_bind; [apply (on_log_frame []); [emit|]; by intros ? ? ?%elem_of_nil|].
    intros ?. by apply on_log_ret. }
  pose proof (on_log_end _ _ _ Hi Hs) as H1. destruct ((info ← _run_cycle; _) s) as [[msg|e] s1]; [done|]. by destruct e.
Qed.
End safety.
