(* ===== verification/HaProps.v ===== *)
(** * Properties of the cycle of the agent

    They hold in every world: a log is what the agent did, whatever it was told. *)
From S2P Require Import Prelude PyDict PyVal Json Effects Collections Utils Tags DcsData GlobalConfig Slots Dcs Sync HaSync AsyncExec Failsafe Race HaState HaLock HaDemote HaFollow HaActions HaCycle HaTrace HaSafety.

Open Scope string_scope.
Open Scope list_scope.

(** PostgreSQL was seen to be a primary; then the failsafe topology was read, the node is in it, and each
    other member of it was asked and has accepted: it is in [answered], or is met on the way back. *)
Fixpoint accepted (answered : list string) (l : list event) : bool :=
  match l with
  | Asked (FailsafeCall m) (Ok true) :: l => accepted (m_name m :: answered) l
  | FailsafeRead name (Some f) :: Asked IsPrimary (Ok true) :: _ =>
      Dict.mem name f && forallb (λ kv, bool_decide (kv.1 = name ∨ kv.1 ∈ answered)) f
  | _ => false
  end.

(** A keepalive comes right after the lock was granted, or after all of the failsafe topology accepted. *)
Definition alive_guard (e : event) (pre : list event) : bool :=
  match kind_of e with
  | KAlive => match pre with e' :: _ => bool_decide (kind_of e' = KGrant) | [] => false end || accepted [] pre
  | _ => true
  end.

(** PostgreSQL was stopped, or [pg_control] says that it shut down cleanly. *)
Definition stopped (l : list event) : bool :=
  existsb (λ e, match e with Stopped _ | ShutDown (Some _) => true | _ => false end) l.
Definition release_guard (e : event) (pre : list event) : bool :=
  match kind_of e with KDelete => stopped pre | _ => true end.

Section props.
Context {DT : Datetime} {JS : Json} {W : Type} `{!RaceNode W, !SyncPostgres W, !SyncDcs W, !Backend W, !HaNode W}.
Notation M := (M (W := W)).
Implicit Types (s : loop W) (l : list event).

(** An agent whose log is empty *)
Definition fresh s : loop W :=
  MkLoop (race_part s) (fields s) (config_ s) (sync_handler s) (dcs_client s) (executor_ s) (world_ s) [].

(** C4: a cycle hands the promotion of PostgreSQL to the executor only after it was granted the
    leader key in this very cycle, when it has not lost or deleted the key since, and when
    [process_sync_replication_prepromote] was called after that and its last call returned [True] -
    whatever the other components answer, and wherever an exception is raised. *)
Theorem promotion_guarded s : guarded promotion_guard (log (run_cycle (fresh s)).2).
Proof.
  apply (on_log_end safe); [|done]. apply on_log_run_cycle; [apply on_log_cycle_body|apply safe_frame; emit..].
Qed.

(** ** Keepalives *)

Definition alive l : Prop := guarded alive_guard l.
Definition not_alive : list kind :=
  [KGrant; KLoss; KDelete; KTake; KPromote; KSchedule; KPrimary; KFailsafe; KStop; KDemote; KPrepromote; KOther].

Lemma alive_stable e l : kind_of e ∈ not_alive → alive l → alive (e :: l).
Proof.
  intros He Hl. split; [|done]. unfold alive_guard. unfold not_alive in He.
  repeat (apply elem_of_cons in He as [He|He]); [..|by apply elem_of_nil in He]; by rewrite He.
Qed.
Lemma alive_frame {A} (m : M A) : emits (kinds not_alive) m → on_log alive m (λ _, alive) alive.
Proof. intros Hm. by eapply on_log_frame, alive_stable. Qed.

(** Proves that a computation keeps [alive]: by its footprint, or part by part. *)
Ltac alive_step :=
  match goal with
  | |- on_log _ (_ ≫= _) _ _ => first [solve [apply alive_frame; emit] | eapply (on_log_bind _ _ _ (λ _, alive)); [|intros ?]]
  | |- on_log _ (or_message _ _) _ _ => apply on_log_or_message
  | |- on_log _ _ (λ r, match r with None => _ | Some _ => _ end) _ =>
      eapply (on_log_conseq _ _ (λ _, alive)); [|done|by intros []|done]
  | |- _ => solve [auto with alive nocore | apply alive_frame; emit]
  | |- on_log _ (match ?x with _ => _ end) _ _ => destruct x
  end.
Ltac alive_tac := repeat alive_step.

Lemma alive_granted l : alive l → match l with e :: _ => kind_of e = KGrant | [] => False end →
  on_log (λ l', l' = l) (do WatchdogKeepalive : M ()) (λ _, alive) alive.
Proof.
  intros Hl Hg s Hs. unfold do. destruct (perform _ _) as [r w]. simpl. rewrite Hs.
  assert (alive (Did WatchdogKeepalive r :: l)) as Ha.
  { split; [|done]. unfold alive_guard. simpl. destruct l as [|e l]; [done|]. by rewrite bool_decide_eq_true_2. }
  by destruct r.
Qed.

Lemma alive_update_lock b : on_log alive (update_lock b) (λ _, alive) alive.
Proof.
  unfold update_lock. eapply (on_log_bind _ _ _ (λ _, alive)); [apply alive_frame; destruct b; emit|]. intros [lsn slots].
  do 2 (eapply (on_log_bind _ _ _ (λ _, alive)); [apply alive_frame; emit|intros ?]).
  set (granted := λ l, alive l ∧ match l with e :: _ => kind_of e = KGrant | [] => False end).
  eapply (on_log_bind _ _ _ (λ r : bool, if r then granted else alive)).
  - assert (∀ m : dcsM bool, on_log alive (dcs_test UpdateLock m) (λ r : bool, if r then granted else alive) alive) as Ht.
    { intros m s Hs. unfold dcs_test, lift_dcs. destruct (m _) as [[[]|e] [d w]]; simpl.
      - split; [|done]. by apply alive_stable; [apply (bool_decide_unpack _)|].
      - by apply alive_stable; [apply (bool_decide_unpack _)|].
      - by apply alive_stable; [apply (bool_decide_unpack _)|]. }
    intros s Hs. unfold false_on_error, try_except.
    assert (on_log alive (f ← _failsafe_config; dcs_test UpdateLock (Dcs.update_leader a a0 lsn slots f))
              (λ r : bool, if r then granted else alive) alive) as Hm.
    { eapply on_log_bind; [apply alive_frame; emit|]. intros ?. apply Ht. }
    specialize (Hm s Hs). destruct ((f ← _failsafe_config; _) s) as [[r|e] s']; [done|]. by destruct (_ && _).
  - intros [].
    + eapply (on_log_bind _ _ _ (λ _, granted)).
      { intros s Hs. pose proof (emits_none _ s (emits_set_is_leader true)) as He. pose proof (proj1 Hs) as Ha. rewrite <-He in Hs, Ha.
        by destruct (set_is_leader true s) as [[[]|e] s']. }
      intros ?. eapply (on_log_bind _ _ _ (λ _, alive)); [|intros ?; by apply on_log_ret].
      intros s [Hs Hg]. by apply (alive_granted (log s)).
    + alive_tac.
Qed.
#[local] Hint Resolve alive_update_lock : alive.

Lemma alive_recover : on_log alive recover (λ _, alive) alive.
Proof. unfold recover. alive_tac. Qed.
#[local] Hint Resolve alive_recover : alive.
Lemma alive_starting : on_log alive handle_starting_instance (λ _, alive) alive.
Proof. unfold handle_starting_instance. alive_tac. Qed.
Lemma alive_long_action : on_log alive handle_long_action_in_progress (λ _, alive) alive.
Proof. unfold handle_long_action_in_progress. alive_tac. Qed.
Lemma alive_not_healthy : on_log alive not_healthy (λ _, alive) alive.
Proof. unfold not_healthy. alive_tac. Qed.
Lemma alive_healthy : on_log alive process_healthy_cluster (λ _, alive) alive.
Proof. unfold process_healthy_cluster, keep_leading, enforce_primary_role, promote. alive_tac. Qed.
Lemma alive_unhealthy : on_log alive process_unhealthy_cluster (λ _, alive) alive.
Proof. unfold process_unhealthy_cluster, acquire_lock, enforce_primary_role, promote. alive_tac. Qed.
#[local] Hint Resolve alive_starting alive_long_action alive_not_healthy alive_healthy alive_unhealthy : alive.

Lemma alive_cycle_body : on_log alive cycle_body (λ _, alive) alive.
Proof.
  unfold cycle_body. eapply (on_log_bind _ _ _ (λ _, alive)).
  { apply on_log_load_view. intros e l He. apply alive_stable. set_solver. }
  intros ?. unfold settled, lead_or_follow. alive_tac.
Qed.

(** Failsafe mode: the calls of the members that are left would make the primary accepted. *)
Definition pending (ms : list Member) l : Prop :=
  alive l ∧ ∀ answered, (∀ m, m ∈ ms → m_name m ∈ answered) → accepted answered l = true.
Definition if_accepted (b : bool) : list event → Prop := if b then pending [] else alive.
Definition seen_primary l : Prop := alive l ∧ ∃ l', l = Asked IsPrimary (Ok true) :: l'.

Lemma silent_frame {A} P (m : M A) : emits (kinds []) m → (∀ l, P l → alive l) → on_log P m (λ _, P) alive.
Proof.
  intros Hm HP. eapply on_log_conseq; [eapply (on_log_frame [] P); [exact Hm|by intros ? ? ?%elem_of_nil]|done|done|done].
Qed.
Lemma pending_alive ms l : pending ms l → alive l.
Proof. by intros [? _]. Qed.
Lemma seen_alive l : seen_primary l → alive l.
Proof. by intros [? _]. Qed.
Lemma pending_frame {A} ms (m : M A) : emits (kinds []) m → on_log (pending ms) m (λ _, pending ms) alive.
Proof. intros Hm. apply silent_frame; [done|apply pending_alive]. Qed.

Lemma accepted_call m ms :
  on_log (pending (m :: ms)) (call_failsafe_member m) (λ b : bool, if b then pending ms else alive) alive.
Proof.
  intros s [Hs Ha]. unfold call_failsafe_member, try_any, try_except, ask. destruct (query _ _) as [r w]. simpl.
  assert (alive (Asked (FailsafeCall m) r :: log s)) as Hal.
  { apply alive_stable; [|done]. destruct r as [[]|]; apply (bool_decide_unpack _); reflexivity. }
  destruct r as [[]|e]; simpl; [|done|by destruct (is_exception e)].
  split; [done|]. intros answered Hall. apply Ha. intros m' [->|Hm]%elem_of_cons; [by left|right; by apply Hall].
Qed.

Lemma accepted_calls ms :
  on_log (pending ms) (call_failsafe_members ms) (λ rs, if_accepted (forallb (λ r, r.1.2) rs)) alive.
Proof.
  induction ms as [|m ms IH]; simpl; [by apply on_log_ret|].
  eapply on_log_bind; [apply accepted_call|]. intros [].
  - eapply on_log_bind; [apply pending_frame; emit|]. intros lsn. eapply on_log_bind; [exact IH|]. intros rs. by apply on_log_ret.
  - do 2 (eapply (on_log_bind _ _ _ (λ _, alive)); [alive_tac|intros ?]). by apply on_log_ret.
Qed.

(** What is left of the topology once it was read *)
Definition topology_left (r : string * option (dict pyval)) : list event → Prop :=
  match r with
  | (name, Some f) => if Dict.mem name f
      then pending (failsafe_members (List.filter (λ kv, negb (kv.1 =? name)%string) f)) else alive
  | (_, None) => alive
  end.

Lemma topology_read : on_log seen_primary read_failsafe topology_left alive.
Proof.
  intros s [Hs [l Hl]]. simpl. set (w := env_step _). rewrite Hl in Hs |- *.
  assert (alive (FailsafeRead (node_name w) (failsafe_key w) :: Asked IsPrimary (Ok true) :: l)) as Ha by (by apply alive_stable; [apply (bool_decide_unpack _)|]).
  destruct (failsafe_key w) as [f|]; [|done]. simpl. destruct (Dict.mem (node_name w) f) eqn:Hm; [|done].
  split; [done|]. intros answered Hall. simpl. rewrite Hm. apply forallb_forall. intros [k v] Hk. apply bool_decide_eq_true.
  destruct (decide (k = node_name w)) as [->|Hne]; [by left|right].
  apply (Hall (remote_member k [("api_url", v)])), list_elem_of_In, in_map_iff. exists (k, v). split; [done|].
  apply filter_In. split; [done|]. by apply negb_true_iff, String.eqb_neq.
Qed.

Lemma accepted_topology : on_log seen_primary check_failsafe_topology if_accepted alive.
Proof.
  unfold check_failsafe_topology. eapply on_log_bind; [apply topology_read|]. intros [name [f|]]; [|by apply on_log_ret].
  simpl. destruct (Dict.mem name f); [simpl|by apply on_log_ret].
  eapply on_log_bind; [apply pending_frame; emit|]. intros ?.
  destruct (failsafe_members _) as [|m ms]; [by apply on_log_ret|].
  eapply on_log_bind; [apply accepted_calls|]. intros rs. cbv beta zeta. destruct (forallb _ rs).
  - eapply on_log_bind; [apply pending_frame; emit|]. intros ?. by apply on_log_ret.
  - eapply (on_log_bind _ _ _ (λ _, alive)); [alive_tac|intros ?; by apply on_log_ret].
Qed.

Lemma alive_dcs_error : on_log alive _handle_dcs_error (λ _, alive) alive.
Proof.
  unfold _handle_dcs_error. do 2 (eapply (on_log_bind _ _ _ (λ _, alive)); [apply alive_frame; emit|intros ?]).
  destruct (negb _); [by apply on_log_ret|].
  eapply (on_log_bind _ _ _ (λ b : bool, if b then seen_primary else alive)).
  { intros s Hs. unfold ask. destruct (query _ _) as [r w]. simpl.
    assert (alive (Asked IsPrimary r :: log s)) as Ha by (apply alive_stable; [|done]; apply (bool_decide_unpack _); reflexivity).
    destruct r as [[]|]; [split; [done|by eexists]|done|done]. }
  intros []; [|alive_tac]. eapply on_log_bind; [apply silent_frame; [emit|apply seen_alive]|]. intros fs.
  eapply (on_log_bind _ _ _ if_accepted).
  { destruct fs; [apply accepted_topology|apply on_log_ret, seen_alive]. }
  intros []; [|alive_tac]. do 3 (eapply on_log_bind; [apply pending_frame; emit|intros ?]).
  eapply (on_log_bind _ _ _ (λ _, alive)); [|intros ?; alive_tac].
  intros s [Hs Ha]. unfold do. destruct (perform _ _) as [r w]. simpl.
  assert (alive (Did WatchdogKeepalive r :: log s)) as Hal.
  { split; [|done]. unfold alive_guard. simpl. rewrite Ha, orb_true_r; [done|]. by intros m ?%elem_of_nil. }
  by destruct r.
Qed.

(** C6: a cycle keeps the watchdog alive only right after the leader key was granted or renewed or,
    without the DCS, after it saw PostgreSQL run as a primary, then read a failsafe topology that has the node
    in it, and then asked each other member of that topology, all of which accepted - whatever the other components
    answer and wherever an exception is raised: otherwise the watchdog resets the node in time. *)
Theorem keepalive_guarded s : guarded alive_guard (log (run_cycle (fresh s)).2).
Proof.
  apply (on_log_end alive); [|done]. apply on_log_run_cycle; [apply alive_cycle_body|apply alive_dcs_error|apply alive_frame; emit].
Qed.

(** ** The release of the key *)

Definition released l : Prop := guarded release_guard l.
Definition released_stopped l : Prop := released l ∧ stopped l = true.
Definition no_delete : list kind :=
  [KGrant; KLoss; KTake; KPromote; KSchedule; KPrimary; KAlive; KFailsafe; KStop; KDemote; KPrepromote; KOther].
Definition every_kind : list kind := KDelete :: no_delete.

Lemma released_stable e l : kind_of e ∈ no_delete → released l → released (e :: l).
Proof.
  intros He Hl. split; [|done]. unfold release_guard. unfold no_delete in He.
  repeat (apply elem_of_cons in He as [He|He]); [..|by apply elem_of_nil in He]; by rewrite He.
Qed.
Lemma stopped_stable e l : kind_of e ∈ every_kind → released_stopped l → released_stopped (e :: l).
Proof.
  intros _ [Hl Hs]. split; [split; [|done]|].
  - unfold release_guard. by destruct (kind_of e).
  - simpl. by rewrite Hs, orb_true_r.
Qed.
Lemma released_frame {A} (m : M A) : emits (kinds no_delete) m → on_log released m (λ _, released) released.
Proof. intros Hm. by eapply on_log_frame, released_stable. Qed.
Lemma stopped_frame {A} (m : M A) : emits (kinds every_kind) m → on_log released_stopped m (λ _, released_stopped) released.
Proof.
  intros Hm. eapply on_log_conseq; [by eapply on_log_frame, stopped_stable|done|done|by intros l [? _]].
Qed.

(** What [stop] leaves, when its callbacks before the shutdown do not delete the key *)
Lemma released_stop mode b c sp sd bs timeout :
  (∀ m, sp = Some m → emits (kinds no_delete) m) → (∀ m, bs = Some m → emits (kinds no_delete) m) →
  (∀ f, sd = Some f → ∀ x y, emits (kinds every_kind) (f x y)) →
  on_log released (stop mode b c sp sd bs timeout) (λ _, released_stopped) released.
Proof.
  intros Hsp Hbs Hsd.
  assert (emits (kinds no_delete) (default (mret ()) sp)) as Hsp' by (destruct sp; [by apply Hsp|apply emits_mret]).
  assert (emits (kinds no_delete) (default (mret ()) bs)) as Hbs' by (destruct bs; [by apply Hbs|apply emits_mret]).
  unfold stop. eapply (on_log_bind _ _ _ (λ _ l, released l)).
  2: { intros [[success signalled] called]. eapply (on_log_bind _ _ _ (λ _, released)); [apply released_frame; destruct success; emit|].
    intros ?. eapply (on_log_bind _ _ _ (λ _, released_stopped)); [|intros ?; by apply on_log_ret].
    intros s Hs. simpl. split; [by apply released_stable; [apply (bool_decide_unpack _)|]|done]. }
  unfold _do_stop. eapply on_log_bind; [apply released_frame; emit|]. intros running.
  destruct (negb running); [eapply on_log_bind; [by apply released_frame|intros ?; by apply on_log_ret]|].
  eapply on_log_bind; [apply released_frame; destruct c as [[]|]; try destruct (negb _); emit|]. intros starting.
  do 3 (eapply on_log_bind; [apply released_frame; emit|intros ?]).
  eapply on_log_bind; [by apply released_frame|]. intros ?.
  eapply on_log_bind; [apply released_frame; emit|]. intros [sig|].
  - eapply on_log_bind; [by apply released_frame, emits_when|intros ?; by apply on_log_ret].
  - eapply on_log_bind; [apply released_frame; emit|]. intros ?.
    eapply on_log_bind; [apply released_frame; destruct sp; [apply emits_bind; [emit|intros ?; by apply Hsp]|emit]|]. intros ?.
    eapply (on_log_bind _ _ _ (λ _, released)); [|intros ?; apply released_frame; emit].
    destruct sd as [f|]; [|by apply on_log_ret]. destruct (bool_decide _); [|by apply on_log_ret].
    eapply (on_log_bind _ _ _ (λ r : option (Z * Z), if r then released_stopped else released)).
    + intros s Hs. unfold await_shutdown. destruct (wait_shutdown _ _) as [[[x|]|e] w]; simpl;
        [split; [|done]|..]; by apply released_stable; [apply (bool_decide_unpack _)|].
    + intros [[x y]|]; [|by apply on_log_ret]. eapply on_log_conseq; [apply stopped_frame; by apply Hsd|done| |done]. by intros ? l [? _].
Qed.

(** C7: a demotion of PostgreSQL, in any mode, deletes the leader key only after the call that stops
    PostgreSQL has returned, or once [pg_control] has shown a clean shutdown: while it stops,
    no other node can take the lock. *)
Theorem demote_releases_last (m : demote_mode) s : guarded release_guard (log (demote_postgres m (fresh s)).2).
Proof.
  apply (on_log_end released); [|done]. unfold demote_postgres.
  do 4 (eapply (on_log_bind _ _ _ (λ _, released)); [apply released_frame; emit|intros ?]).
  eapply (on_log_bind _ _ _ (λ _, released_stopped)).
  { apply released_stop.
    - intros m0 Hm. repeat case_match; simplify_eq; emit.
    - intros m0 Hm. repeat case_match; simplify_eq; emit.
    - intros f Hf x y. repeat case_match; simplify_eq; emit. }
  intros r. eapply on_log_conseq; [apply stopped_frame; emit|done|by intros ? l [? _]|done].
Qed.
End props.
