(* ===== verification/HaExamples.v ===== *)
(** * A world for the cycle of the agent

    A node [b] with scripted answers: its PostgreSQL, the DCS and the other parts answer from
    a few fields of the world.  The cycle runs on it, so the properties of the cycle are
    checked on complete runs. *)
From S2P Require Import Prelude PyDict PyVal Json Effects Collections Utils Tags DcsData GlobalConfig Slots Dcs Sync HaSync AsyncExec Failsafe Race HaState HaLock HaDemote HaFollow HaActions HaCycle.

Open Scope string_scope.
Open Scope Z_scope.

#[export] Existing Instance text_datetime.

(** What the DCS holds, whether PostgreSQL is a primary, whether the lock is granted and the
    answer of [signal_stop] *)
Record script := MkScript { sc_cluster : Cluster; sc_primary : bool; sc_grant : bool; sc_stop : option bool }.

Definition quiet {A} (a : A) (w : script) : exc A * script := (Ok a, w).

#[export] Instance script_node : RaceNode script := {
  node_name _ := "b"; node_tags _ := []; now _ := 100; Race.ttl _ := 30; has_timelines _ := true;
  Race.supports_multiple_sync _ := true; sysid _ := "7000000000000000001"; is_primary := sc_primary; is_starting _ := false;
  Race.get_primary_timeline _ := None; replica_cached_timeline _ _ := Some 1; Race.last_operation _ := 5;
  use_gtid _ := false; get_executed_gtid _ := ""; gtid_relation _ _ _ := ""; watchdog_is_healthy _ := true;
  failsafe_key _ := Some [("a", VStr "http://a"); ("b", VStr "http://b")]; request _ _ := Raise DCSError; as_completed _ l := l; as_completed_perm _ l := Permutation_refl l;
  clear_failover _ w := (Ok (), w);
}.

#[export] Instance script_postgres : SyncPostgres script := {
  pg_name _ := "b"; synchronous_commit _ := "on"; pg_stat_replication _ := [];
  Sync.last_operation _ := 5; synchronous_standby_names _ := ""; Sync.supports_multiple_sync _ := true;
  supports_quorum_commit _ := true; is_primary_running := sc_primary; Sync.get_primary_timeline _ := 1;
  query_txid_current := quiet (); reset_cluster_info_state := quiet (); config_set_synchronous_standby_names _ := quiet true;
}.

#[export] Instance script_sync : SyncDcs script := {
  hs_time _ := 0; loop_wait _ := 10; HaSync.sleep _ := quiet ();
  dcs_write_sync_state _ _ _ _ := quiet None; dcs_delete_sync_state _ := quiet true; user_synchronous_standby_names _ := None;
}.

#[export] Instance script_backend : Backend script := {
  clock _ := 100; Dcs.ttl _ := 30; _load_cluster _ w := (Ok (sc_cluster w), w); _load_groups _ := quiet [];
  _write_leader_optime _ := quiet true; _write_status _ := quiet true; _write_failsafe _ := quiet true;
  _update_leader _ w := (Ok (sc_grant w), w); attempt_to_acquire_leader w := (Ok (sc_grant w), w);
  set_failover_value _ _ := quiet true; set_sync_state_value _ _ := quiet VNone; Dcs._delete_leader _ := quiet true;
}.

(** The answers to the calls with a boolean result *)
Definition answers (t : test) (w : script) : bool :=
  match t with
  | IsPrimary => sc_primary w
  | FailsafeCall _ | IsRunning | IsHealthy | TouchMember _ | CheckpointAfterPromote | WatchdogActivate | CanCreateReplica => true
  | _ => false
  end.

#[export] Instance script_ha : HaNode script := {
  env_step w := w; response_done _ := None;
  perform _ := quiet (); query t w := (Ok (answers t w), w);
  signal_stop _ w := (Ok (sc_stop w), w); wait_shutdown _ := quiet None;
  pg_follow _ _ := quiet (Some true); check_recovery_conf _ := quiet (false, false); controldata := quiet [];
  checkpoint_locations := quiet (None, None); pg_slots := quiet []; pg_last_operation := quiet 5; get_history _ := quiet [];
  sync_slots _ := quiet []; run_mgr_cycle _ _ := quiet None; pg_restart _ := quiet (Some true); pg_clone _ _ := quiet true;
  mgr_status := quiet None; failsafe_lsn _ _ := None; timeline_wal_position := quiet (1, 5, Some 1, Some 5, Some 5);
  enrich_dcs_data := quiet; replication_state := quiet None; received_timeline := quiet None; pg_control_timeline := quiet None;
  seconds_until _ _ := Ok 0;
  role w := if sc_primary w then PRIMARY else REPLICA; pg_state _ := "running"; is_mysql _ := false; is_mgr_primary _ := false;
  mgr_pauses_on_fork _ := false; bootstrapping _ := false; cb_called _ := true; needs_rewind _ := false;
  needs_crash_recovery _ := false; requires_sysid_match _ := true; time_in_state _ := 0; postmaster_start_time _ := VNone;
  server_version _ := 160000; pending_restart _ := []; archive_command _ := None; mpp_is_worker _ := false;
  mpp_is_coordinator _ := false; dcs_is_raft _ := false; connection_string _ := "postgres://b"; proxy_url _ := "";
  api_connection_string _ := "http://b"; HaState.patroni_version _ := "4.0"; local_config _ := []; conn_kwargs _ _ := [];
  uuid1 _ := ""; rand _ n := 0%nat; can_advance _ := true; starting_postmaster _ := false; os_error_text _ := "";
}.

(** The member [b], and a cluster of it whose leader key is [b]'s, [a]'s or missing *)
Definition member_of (name : string) : Member :=
  MkMember (VInt 0) name VNone [("state", VStr "running"); ("api_url", VStr ("http://" +:+ name)); ("conn_url", VStr ("postgres://" +:+ name))].
Definition cluster_of (leader : option string) : Cluster :=
  MkCluster (Some "7000000000000000001") (Some (MkConfig (VInt 1) [("ttl", VInt 30)] (VInt 1)))
    ((λ n, MkLeader (VInt 1) VNone (member_of n)) <$> leader) status_empty
    (map member_of ["a"; "b"]) None (sync_empty VNone) None None [].

(** The agent on [b], which was told of a leader [last] before *)
Definition agent_of (config : GlobalConfig) (seen : Cluster) (w : script) : loop script :=
  MkLoop (MkHa seen None None 0) fields_init config sync_handler_init
    (dcs_init (MkMPP false 0 false 0) "b" "service" "batman") executor_init w [].

(** The events of a run, the oldest first *)
Definition run_of {A} (m : HaState.M (W := script) A) (s : loop script) : exc A * list event :=
  let '(r, s) := m s in (r, rev (log s)).

(** A replica that wins the race of a cluster without a leader hands the promotion over. *)
Example promotes_after_the_race :
  List.filter (λ e, match e with Asked AcquireLock _ | Asked SyncPrepromote _ | Scheduled _ => true | _ => false end)
    (run_of run_cycle (agent_of [] (cluster_of None) (MkScript (cluster_of None) false true None))).2 =
  [Asked AcquireLock (Ok true); Asked SyncPrepromote (Ok true); Scheduled TaskPromote].
Proof. vm_compute. reflexivity. Qed.

(** Without the DCS a primary keeps the watchdog alive once the other member of the topology has accepted. *)
Example alive_in_failsafe_mode :
  List.filter (λ e, match e with FailsafeRead _ _ | Asked (IsPrimary | FailsafeCall _) _ | Did WatchdogKeepalive _ => true | _ => false end)
    (run_of _handle_dcs_error (agent_of [("failsafe_mode", VBool true)] (cluster_of (Some "b"))
      (MkScript (cluster_of (Some "b")) true true None))).2 =
  [Asked IsPrimary (Ok true); FailsafeRead "b" (Some [("a", VStr "http://a"); ("b", VStr "http://b")]);
   Asked (FailsafeCall (remote_member "a" [("api_url", VStr "http://a")])) (Ok true); Did WatchdogKeepalive (Ok ())].
Proof. vm_compute. reflexivity. Qed.

(** The result of [stop] is not used by [demote]: when [pg_ctl] failed to stop a primary, a
    graceful demotion deletes the leader key all the same. *)
Example failed_stop_releases :
  List.filter (λ e, match e with Stopped _ | Asked DeleteLock _ => true | _ => false end)
    (run_of (demote graceful) (agent_of [] (cluster_of (Some "b")) (MkScript (cluster_of (Some "b")) true true (Some false)))).2 =
  [Stopped false; Asked DeleteLock (Ok true)].
Proof. vm_compute. reflexivity. Qed.
