(* ===== verification/HaDuty.v ===== *)
(** * A primary without the lock does not go on

    Outside the maintenance mode and outside a standby cluster, [process_healthy_cluster] and
    [process_unhealthy_cluster] that find PostgreSQL running as a primary either were granted the
    leader key or begin to demote it, also when they end with an exception. *)
From S2P Require Import Prelude PyDict PyVal Json Effects Collections Utils Tags DcsData GlobalConfig Slots Dcs Sync HaSync AsyncExec Failsafe Race HaState HaLock HaDemote HaFollow HaActions HaCycle HaTrace HaSafety HaProps HaExamples.

Open Scope string_scope.
Open Scope list_scope.

(** PostgreSQL was seen to be a primary. *)
Definition sees_primary (e : event) : bool := match e with Asked IsPrimary (Ok true) => true | _ => false end.
Definition seen_primary (l : list event) : bool := existsb sees_primary l.

(** The leader key was granted, or a demotion was begun or handed to the executor. *)
Definition deals (e : event) : bool :=
  match e with
  | Asked (AcquireLock | UpdateLock) (Ok true) | Demoting _ | Scheduled (TaskDemote _) => true
  | _ => false
  end.
Definition dealt_with (l : list event) : bool := existsb deals l.

Section duty.
Context {DT : Datetime} {JS : Json} {W : Type} `{!RaceNode W, !SyncPostgres W, !SyncDcs W, !Backend W, !HaNode W}.
Notation M := (M (W := W)).
Implicit Types (s : loop W) (l : list event).

(** Outside the maintenance mode and a standby cluster, what was seen has been dealt with. *)
Definition active_mode s : Prop := is_paused (config_ s) = false ∧ is_standby_cluster (config_ s) = false.
Definition calm s : Prop := active_mode s ∧ implb (seen_primary (log s)) (dealt_with (log s)) = true.
Definition dealt s : Prop := active_mode s ∧ dealt_with (log s) = true.

Lemma dealt_calm s : dealt s → calm s.
Proof. intros [Ha Hd]. split; [done|]. rewrite Hd. by destruct (seen_primary _). Qed.

(** Every kind of event but the answers of PostgreSQL about its role *)
Definition no_primary : list kind :=
  [KGrant; KLoss; KDelete; KTake; KPromote; KSchedule; KAlive; KFailsafe; KStop; KDemote; KPrepromote; KOther].
Definition all_kinds : list kind := KPrimary :: no_primary.

Lemma not_seen e : kind_of e ∈ no_primary → sees_primary e = false.
Proof. intros He. destruct (sees_primary e) eqn:Hs; [|done]. unfold sees_primary in Hs. repeat case_match; try done. exfalso. unfold no_primary in He. simpl in He. set_solver. Qed.

Lemma emits_active {A} p (m : M A) s : emits p m → active_mode s → active_mode (m s).2.
Proof. intros Hm Ha. unfold active_mode. by rewrite (proj2 (Hm s)). Qed.

Lemma calm_frame {A} (m : M A) : emits (kinds no_primary) m → triple calm m (λ _, calm) calm.
Proof.
  intros Hm s [Ha Hs].
  assert (calm (m s).2) as Hc.
  { split; [by eapply emits_active|]. destruct (Hm s) as [(l & -> & Hall) _].
    induction Hall as [|e l He _ IH]; [done|]. simpl. rewrite (not_seen e) by by apply kinds_elem. simpl.
    destruct (seen_primary (l ++ log s)); [|done]. simpl in *. by rewrite IH, orb_true_r. }
  by destruct (m s) as [[a|e] s'].
Qed.

Lemma dealt_frame {A} (m : M A) : emits (kinds all_kinds) m → triple dealt m (λ _, dealt) calm.
Proof.
  intros Hm s [Ha Hs].
  assert (dealt (m s).2) as Hd.
  { split; [by eapply emits_active|]. destruct (Hm s) as [(l & -> & Hall) _].
    induction l as [|e l IH]; [done|]. simpl. rewrite IH by by inversion Hall. by rewrite orb_true_r. }
  destruct (m s) as [[a|e] s']; [done|by apply dealt_calm].
Qed.

Lemma calm_of_dealt {A} (m : M A) : emits (kinds all_kinds) m → triple dealt m (λ _, calm) calm.
Proof. intros Hm. eapply triple_conseq; [by apply dealt_frame|done|intros ? ?; apply dealt_calm|done]. Qed.

(** ** Computations that neither raise nor record anything *)

Definition total {A} (m : M A) : Prop := ∀ s, ∃ a s', m s = (Ok a, s') ∧ log s' = log s ∧ config_ s' = config_ s.

Lemma total_ret {A} (a : A) : total (mret a).
Proof. intros s. by exists a, s. Qed.
Lemma total_gets {A} (f : loop W → A) : total (gets f).
Proof. intros s. by exists (f s), s. Qed.
Lemma total_look : total (look (W := W)).
Proof. intros s. by eexists _, _. Qed.
Lemma total_bind {A B} (m : M A) (f : A → M B) : total m → (∀ a, total (f a)) → total (m ≫= f).
Proof.
  intros Hm Hf s. destruct (Hm s) as (a & s1 & H1 & Hl & Hc). destruct (Hf a s1) as (b & s2 & H2 & Hl2 & Hc2).
  exists b, s2. unfold mbind, M_bind, eff_bind. rewrite H1. split_and!; [done|congruence|congruence].
Qed.

Lemma total_remote t : total (get_remote_member (W := W) t).
Proof.
  unfold get_remote_member. apply total_bind; [apply total_gets|]. intros g. apply total_bind; [apply total_look|].
  intros w. apply total_ret.
Qed.

Lemma total_node_to_follow c : total (_get_node_to_follow (W := W) c).
Proof.
  unfold _get_node_to_follow. apply total_bind; [apply total_gets|]. intros g. apply total_bind; [apply total_look|]. intros w.
  destruct (nostream _); [apply total_ret|]. apply total_bind; [|intros; apply total_ret].
  destruct (_ && _); [apply total_bind; [apply total_remote|intros; apply total_ret]|]. destruct (_ && _); apply total_ret.
Qed.

(** The continuation of a computation that neither raises nor records *)
Lemma triple_total {A B} (P : loop W → Prop) (m : M A) (f : A → M B) Q R :
  (∀ s s', log s' = log s → config_ s' = config_ s → P s → P s') → total m → (∀ a, triple P (f a) Q R) → triple P (m ≫= f) Q R.
Proof.
  intros HP Hm Hf s Hs. destruct (Hm s) as (a & s' & H1 & Hl & Hc). unfold mbind, M_bind, eff_bind. rewrite H1.
  apply Hf. by apply (HP s).
Qed.

(** ** A primary is demoted *)

Lemma demote_deals m : triple active_mode (demote m) (λ _, calm) calm.
Proof.
  intros s Ha. assert (dealt (add_event (Demoting m) s)) as Hd by (by split).
  unfold demote. change ((tell (Demoting m);; ?k) s) with (k (add_event (Demoting m) s)).
  refine (calm_of_dealt (mysql ← attr is_mysql; if mysql : bool then _demote_mysql m else demote_postgres m) _ _ Hd). emit.
Qed.

Lemma calm_event e s s' : sees_primary e = false → log s' = log s → config_ s' = config_ s → calm s → calm (add_event e s').
Proof.
  intros He Hl Hc [Ha Hs]. unfold calm, active_mode. simpl config_. rewrite Hc. split; [exact Ha|].
  change (implb (sees_primary e || seen_primary (log s')) (deals e || dealt_with (log s')) = true). rewrite He, Hl. simpl.
  destruct (seen_primary (log s)); [|done]. simpl in *. rewrite Hs. apply orb_true_r.
Qed.

(** After the question about its role *)
Definition pending (b : bool) s : Prop := if b then active_mode s else calm s.

Lemma triple_is_primary : triple calm (ask IsPrimary) pending calm.
Proof.
  intros s Hs. unfold ask. destruct (query _ _) as [r w].
  destruct r as [[]|e]; [by destruct Hs|by apply (calm_event _ s)..].
Qed.

Lemma active_eq s s' : log s' = log s → config_ s' = config_ s → active_mode s → active_mode s'.
Proof. intros _ Hc. unfold active_mode. by rewrite Hc. Qed.

Lemma triple_paused {B} (P : loop W → Prop) (f : bool → M B) Q R :
  (∀ s, P s → active_mode s) → triple P (f false) Q R → triple P (p ← paused; f p) Q R.
Proof.
  intros HP Hf s Hs. pose proof (HP s Hs) as [Ha _]. specialize (Hf s Hs).
  unfold paused, configured, gets, mbind, M_bind, eff_bind. by rewrite Ha.
Qed.

Lemma triple_standby {B} (P : loop W → Prop) (f : bool → M B) Q R :
  (∀ s, P s → active_mode s) → triple P (f false) Q R → triple P (p ← standby_cluster; f p) Q R.
Proof.
  intros HP Hf s Hs. pose proof (HP s Hs) as [_ Ha]. specialize (Hf s Hs).
  unfold standby_cluster, configured, gets, mbind, M_bind, eff_bind. by rewrite Ha.
Qed.

Lemma calm_follow a b c : triple calm (follow a b c) (λ _, calm) calm.
Proof.
  unfold follow. eapply triple_bind; [apply calm_frame; emit|]. intros ?.
  eapply triple_bind; [apply triple_is_primary|]. intros primary.
  assert (∀ s s', log s' = log s → config_ s' = config_ s → pending primary s → pending primary s') as Hp.
  { intros s s' Hl Hc. unfold pending, calm, active_mode. rewrite Hl, Hc. done. }
  apply triple_total; [exact Hp|apply total_gets|]. intros c0.
  apply triple_total; [exact Hp|apply total_node_to_follow|]. intros node.
  apply triple_paused; [intros s; destruct primary; [done|by intros [? _]]|]. destruct primary; [|apply calm_frame; emit].
  apply triple_standby; [done|]. eapply (triple_bind _ _ _ (λ _, calm)); [|intros ?; by apply triple_ret].
  eapply triple_bind; [apply demote_deals|]. intros ?. by apply triple_ret.
Qed.

Lemma calm_lost_lock : triple calm lost_lock (λ _, calm) calm.
Proof.
  unfold lost_lock. eapply triple_bind; [apply triple_is_primary|]. intros primary.
  apply triple_paused; [intros s; destruct primary; [done|by intros [? _]]|].
  destruct primary; [|by apply triple_ret]. eapply triple_bind; [apply demote_deals|]. intros ?. by apply triple_ret.
Qed.

(** A grant of the lock deals with everything that was seen. *)
Definition granted (b : bool) : loop W → Prop := if b then dealt else calm.

Lemma granted_dcs_test t (m : dcsM bool) : t = AcquireLock ∨ t = UpdateLock → triple calm (dcs_test t m) granted calm.
Proof.
  intros Ht s Hs. unfold dcs_test, lift_dcs. destruct (m _) as [r [d w]].
  destruct r as [[]|e]; [split; [apply Hs|]; by destruct Ht as [-> | ->]|apply (calm_event _ s)..]; try done; by destruct Ht as [-> | ->].
Qed.

Lemma granted_on_error (m : M bool) : triple calm m granted calm → triple calm (false_on_error m) granted calm.
Proof.
  intros Hm s Hs. unfold false_on_error, try_except. specialize (Hm s Hs). destruct (m s) as [[b|e] s']; [done|].
  by destruct (_ && _).
Qed.

Lemma granted_acquire : triple calm acquire_lock granted calm.
Proof.
  unfold acquire_lock. eapply triple_bind; [apply granted_on_error, granted_dcs_test; by left|]. intros [].
  - eapply triple_bind; [apply dealt_frame; emit|]. intros ?. by apply triple_ret.
  - eapply triple_bind; [apply calm_frame; emit|]. intros ?. by apply triple_ret.
Qed.

Lemma granted_update st : triple calm (update_lock st) granted calm.
Proof.
  unfold update_lock. eapply triple_bind; [apply calm_frame; destruct st; emit|]. intros [lsn slots].
  do 2 (eapply triple_bind; [apply calm_frame; emit|intros ?]).
  eapply triple_bind.
  { apply granted_on_error. eapply triple_bind; [apply calm_frame; emit|]. intros ?. apply granted_dcs_test. by right. }
  intros [].
  - do 2 (eapply triple_bind; [apply dealt_frame; emit|intros ?]). by apply triple_ret.
  - do 2 (eapply triple_bind; [apply calm_frame; emit|intros ?]). by apply triple_ret.
Qed.

Lemma calm_or_message (m1 : M (option string)) m2 :
  triple calm m1 (λ _, calm) calm → triple calm m2 (λ _, calm) calm → triple calm (or_message m1 m2) (λ _, calm) calm.
Proof. intros H1 H2. eapply triple_bind; [exact H1|]. intros [msg|]; [by apply triple_ret|exact H2]. Qed.

Lemma calm_healthy : triple calm process_healthy_cluster (λ _, calm) calm.
Proof.
  unfold process_healthy_cluster. eapply triple_bind; [apply calm_frame; emit|]. intros [].
  - apply calm_or_message.
    + unfold paused_owner. apply triple_paused; [by intros s [? _]|]. by apply triple_ret.
    + eapply triple_bind; [apply granted_update|]. intros []; [apply calm_of_dealt; emit|apply calm_lost_lock].
  - apply triple_standby; [by intros s [? _]|]. eapply triple_bind; [apply calm_frame; emit|]. intros w.
    apply calm_or_message; [destruct (is_mysql w); apply calm_frame; emit|].
    eapply triple_bind; [apply calm_frame; emit|]. intros c. apply calm_follow.
Qed.

Lemma calm_unhealthy : triple calm process_unhealthy_cluster (λ _, calm) calm.
Proof.
  unfold process_unhealthy_cluster. eapply triple_bind; [apply calm_frame; emit|]. intros [].
  - eapply triple_bind; [apply granted_acquire|]. intros []; [apply calm_of_dealt; emit|apply calm_follow].
  - do 4 (eapply triple_bind; [apply calm_frame; emit|intros ?]). 
    eapply triple_bind; [apply calm_frame; emit|]. intros ?. destruct (_ : bool); apply calm_follow.
Qed.

(** C5: outside the maintenance mode and outside a standby cluster, the agent that saw its PostgreSQL
    run as a primary - in the race of a cluster without a leader, or in a cluster with a
    leader - has either been granted the leader key or has begun to demote PostgreSQL when the
    step ends, whatever the other components answered and whatever exception ended it. *)
Theorem primary_dealt_with s : is_paused (config_ s) = false → is_standby_cluster (config_ s) = false →
  ∀ m : M string, m = process_healthy_cluster ∨ m = process_unhealthy_cluster →
  seen_primary (log (m (fresh s)).2) = true → dealt_with (log (m (fresh s)).2) = true.
Proof.
  intros Hp Hst m Hm Hseen.
  assert (triple calm m (λ _, calm) calm) as Ht by (destruct Hm as [-> | ->]; [apply calm_healthy|apply calm_unhealthy]).
  assert (calm (m (fresh s)).2) as [_ Hc]; [|by rewrite Hseen in Hc].
  specialize (Ht (fresh s)). destruct (m (fresh s)) as [[a|e] s']; apply Ht; by split.
Qed.
End duty.

(** The primary [b] of a cluster whose lock is [a]'s *)
Definition without_lock : loop script := agent_of [] (cluster_of (Some "a")) (MkScript (cluster_of (Some "a")) true true (Some false)).

Lemma primary_dealt_with_witness :
  seen_primary (log (process_healthy_cluster (fresh without_lock)).2) = true ∧
  dealt_with (log (process_healthy_cluster (fresh without_lock)).2) = true.
Proof.
  assert (seen_primary (log (process_healthy_cluster (fresh without_lock)).2) = true) as Hs by (vm_compute; reflexivity).
  split; [exact Hs|].
  apply (primary_dealt_with without_lock); [vm_compute; reflexivity|vm_compute; reflexivity|by left|exact Hs].
Defined.
