(* ===== verification/Validator.v ===== *)
(** * Configuration schemas ([patroni/validator.py])

    A schema is a tree whose leaves are types and functions.  [Schema.validate] walks over the
    configuration in step with it and yields a [Result] for everything it looks at.  The walk
    may insert defaults into the configuration, and some functions at the leaves read the
    configuration as a whole: [validate] takes what is around the value, [ctx], so that
    [ctx data] is the whole configuration at every moment of the walk. *)
From S2P Require Import Prelude PyDict PyVal.

Open Scope string_scope.
Open Scope Z_scope.

(** ** Results, types and functions at the leaves *)

(** The text of a [Result], [_error], is absent when it was copied from a success. *)
Record Result := MkResult { status : bool; _error : option string; level : Z; path : string; rdata : pyval }.

Definition Fails (message : string) : Result := MkResult false (Some message) 0 "" (VStr "").
Definition error (r : Result) : option string := if status r then None else _error r.

(** [Result.__repr__] *)
Definition result_str (r : Result) : string :=
  match error r with
  | Some (String _ _ as e) => path r +:+ " " +:+ py_str (rdata r) +:+ " " +:+ e
  | _ => path r
  end.

(** The types of Python that schemas use *)
Inductive pytype := TyStr | TyInt | TyBool | TyList | TyDict.

(** [isinstance]: [bool] is a subclass of [int]. *)
Definition isinstance (v : pyval) (t : pytype) : bool :=
  match t, v with
  | TyStr, VStr _ | TyInt, VInt _ | TyInt, VBool _ | TyBool, VBool _ | TyList, VList _ | TyDict, VDict _ => true
  | _, _ => false
  end.

Definition _get_type_name (t : pytype) : string :=
  match t with
  | TyStr => "a string" | TyInt => "an integer" | TyBool => "a boolean"
  | TyList => "an array" | TyDict => "a dictionary"
  end.

(** The result of a function at a leaf: its value, or the text of the exception it raised *)
Inductive check (A : Type) := Returns (a : A) | Throws (message : string).
Arguments Returns {A} a.
Arguments Throws {A} message.

#[export] Instance check_ret : MRet check := λ A a, Returns a.
#[export] Instance check_bind : MBind check := λ A B f m,
  match m with Returns a => f a | Throws e => Throws e end.

(** A function that validates a value, with its attribute [expected_type]; it may look at the
    whole configuration, [schema.data]. *)
Record callable := Callable { expected_type : option pytype; call : pyval → pyval → check bool }.

(** [Directory.validate] may raise, as it is not called in a [try]. *)
Definition directory := pyval → string → exc (list Result).

(** ** Schemas

    A key of a dictionary in a schema, and the schemas.  The argument of [Optional] is [VNone] when
    there is no default. *)
Inductive vkey :=
  | Key (name : string)
  | Optional (name : string) (dflt : pyval)
  | OrKey (args : list string)
  | AtMostOne (args : list string).

Inductive sch :=
  | SStr                               (* a string *)
  | SType (t : pytype)                 (* a type *)
  | SCall (f : callable)
  | SDict (l : list (vkey * sch))
  | SList (l : list sch)
  | SOr (args : list sch)
  | SCase (l : list (string * sch))
  | SDirectory (d : directory).

(** [_data_key] *)
Definition _data_key (data : dict pyval) (key : vkey) : list string :=
  match key with
  | Optional name _ => [name]
  | Key name => [name]
  | OrKey args =>
      if existsb (λ item, Dict.mem item data) args then List.filter (λ item, Dict.mem item data) args else args
  | AtMostOne args => List.filter (λ item, Dict.mem item data) args
  end.

(** [str] of a tuple of strings *)
Definition tuple_str (l : list string) : string :=
  match l with
  | [x] => "(" +:+ repr_str x +:+ ",)"
  | _ => "(" +:+ Str.join ", " (map repr_str l) +:+ ")"
  end.

(** [d + ("." + v.path if v.path else "")] *)
Definition sub_path (d : string) (v : Result) : string := d +:+ (if (path v =? "")%string then "" else "." +:+ path v).

(** The walk below the value at hand: the results and the value with its defaults *)
Definition walk (A : Type) : Type := (pyval → pyval) → A → exc (list Result * A).

Section walk.
Context (rec : sch → walk pyval).

(** [iter_list]: [key] is the index of the first item of [l], [before] what precedes it.  An item is
    shown in a result with the defaults that were inserted into it. *)
Fixpoint iter_items (validator : sch) (ctx : pyval → pyval) (key : Z) (before l : list pyval) {struct l} :
    exc (list Result * list pyval) :=
  match l with
  | [] => mret ([], [])
  | value :: l' =>
      '(rs, value') ← rec validator (λ x, ctx (VList (before ++ x :: l'))) value;
      let rs := map (λ v, MkResult (status v) (error v) (level v) (sub_path (pretty key) v) value') rs in
      '(rs', l'') ← iter_items validator ctx (key + 1) (before ++ [value'])%list l';
      mret (rs ++ rs', value' :: l'')%list
  end.

Definition iter_list (validators : list sch) : walk (list pyval) := λ ctx data,
  let empty := match data with [] => [MkResult false (Some "is an empty list") 0 "" (VList data)] | _ => [] end in
  '(rs, data') ← match validators with
                 | validator :: _ => iter_items validator ctx 0 [] data
                 | [] => mret ([], data)
                 end;
  mret (empty ++ rs, data')%list.

(** [validators[key]._schema[d]] *)
Fixpoint case_schema (l : list (string * sch)) (d : string) : walk pyval :=
  match l with
  | [] => λ _ _, Raise KeyError
  | (n, validator) :: l' => if (n =? d)%string then rec validator else case_schema l' d
  end.

(** [Schema(validator).validate], for the validator of the key [d] *)
Definition key_walk (key : vkey) (validator : sch) (d : string) : walk pyval :=
  match key, validator with
  | OrKey _, SCase cases | AtMostOne _, SCase cases => case_schema cases d
  | _, _ => rec validator
  end.

(** The body of the inner loop of [iter_dict], for the key [d] of the configuration *)
Definition iter_key (key : vkey) (validator : sch) (ctx : pyval → pyval) (d : string) (data : dict pyval) :
    exc (list Result * dict pyval) :=
  let found (data : dict pyval) (value : pyval) :=
    let ctx' := λ x, ctx (VDict (Dict.set d x data)) in
    '(rs, value') ← key_walk key validator d ctx' value;
    mret (map (λ v, MkResult (status v) (error v) (level v) (sub_path d v) (rdata v)) rs, Dict.set d value' data) in
  match Dict.get d data, key with
  | Some value, _ => found data value
  | None, Optional _ VNone => mret ([], data)
  | None, Optional _ dflt => found (Dict.set d dflt data) dflt
  | None, _ => mret ([MkResult false (Some "is not defined.") 0 d (VStr "")], data)
  end.

Fixpoint iter_keys (key : vkey) (validator : sch) (ctx : pyval → pyval) (ds : list string) (data : dict pyval) {struct ds} :
    exc (list Result * dict pyval) :=
  match ds with
  | [] => mret ([], data)
  | d :: ds' =>
      '(rs, data) ← iter_key key validator ctx d data;
      '(rs', data) ← iter_keys key validator ctx ds' data;
      mret (rs ++ rs', data)%list
  end.

Definition iter_entry (key : vkey) (validator : sch) : walk (dict pyval) := λ ctx data,
  match key with
  | AtMostOne args =>
      if (1 <? length (_data_key data key))%nat
      then mret ([Fails ("Multiple of " +:+ tuple_str args +:+ " provided")], data)
      else iter_keys key validator ctx (_data_key data key) data
  | _ => iter_keys key validator ctx (_data_key data key) data
  end.

(** [iter_dict] *)
Fixpoint iter_dict (validators : list (vkey * sch)) : walk (dict pyval) := λ ctx data,
  match validators with
  | [] => mret ([], data)
  | (key, validator) :: l =>
      '(rs, data) ← iter_entry key validator ctx data;
      '(rs', data) ← iter_dict l ctx data;
      mret (rs ++ rs', data)%list
  end.

(** The results that [iter_or] keeps of one alternative, and those that it reports *)
Definition or_results (r : list Result) : list Result :=
  if existsb status r && negb (forallb status r) then List.filter (λ x, negb (status x)) r else r.

Fixpoint up_to_level (max_level : Z) (l : list Result) : list Result :=
  match l with
  | [] => []
  | v :: l' =>
      if max_level <? level v then []
      else MkResult (status v) (error v) (level v) (path v) (rdata v) :: up_to_level (level v) l'
  end.

Definition level_le (a b : Result) : Prop := level a ≤ level b.

Fixpoint alternatives (args : list sch) (ctx : pyval → pyval) (data : pyval) : exc (list Result * pyval) :=
  match args with
  | [] => mret ([], data)
  | a :: args' =>
      '(r, data) ← rec a ctx data;
      '(rs, data) ← alternatives args' ctx data;
      mret (or_results r ++ rs, data)%list
  end.

#[export] Instance level_le_dec : RelDecision level_le.
Proof. intros a b. apply Z_le_dec. Defined.

(** [iter_or]; [sorted] is stable. *)
Definition iter_or (args : list sch) : walk pyval := λ ctx data,
  '(results, data) ← alternatives args ctx data;
  mret (if existsb status results then [] else up_to_level 3 (merge_sort level_le results), data).

End walk.

(** [Schema.validate]; [level=1] for the errors about a type *)
Definition typed_result (b : bool) (message : string) (data : pyval) : Result :=
  MkResult b (Some message) 1 "" data.

Definition run_callable (f : callable) (root data : pyval) : list Result :=
  let body :=
    match call f root data with
    | Returns _ => [MkResult true (Some "didn't pass validation") 0 "" data]
    | Throws e => [MkResult false (Some ("didn't pass validation: " +:+ e)) 0 "" data]
    end in
  match expected_type f with
  | Some t => if isinstance data t then body else [typed_result false ("is not " +:+ _get_type_name t) data]
  | None => body
  end.

Fixpoint validate (validator : sch) : walk pyval := λ ctx data,
  match validator with
  | SStr => mret ([typed_result (isinstance data TyStr) "is not a string" data], data)
  | SType t => mret ([typed_result (isinstance data t) ("is not " +:+ _get_type_name t) data], data)
  | SCall f => mret (run_callable f (ctx data) data, data)
  | SDict l =>
      match data with
      | VDict d => '(rs, d') ← iter_dict validate l ctx d; mret (rs, VDict d')
      | _ => mret ([typed_result false "is not a dictionary" data], data)
      end
  | SList l =>
      match data with
      | VList items => '(rs, items') ← iter_list validate l ctx items; mret (rs, VList items')
      | _ => mret ([typed_result false "is not a list" data], data)
      end
  | SOr args => iter_or validate args ctx data
  | SDirectory dir =>
      match data with
      | VStr name => rs ← dir (ctx data) name; mret (rs, data)
      | _ => mret ([], data)
      end
  | SCase _ => mret ([], data)
  end.

(** [Schema.__call__], with the configuration that the call leaves *)
Definition schema_call (validator : sch) (data : pyval) : exc (list string * pyval) :=
  '(rs, data) ← validate validator id data;
  mret (map result_str (List.filter (λ i, negb (status i)) rs), data).
