(* ===== verification/ValidatorSpec.v ===== *)
(** * What a schema accepts

    [conforms s v]: the reference definition of the configurations that a schema describes.
    [validate_sound], [validate_complete]: the walk of [Validator] reports nothing exactly on these,
    for schemas in which every name has one entry and alternatives give an answer ([wf_sch]). *)
From S2P Require Import Prelude PyDict PyVal Validator.

Open Scope string_scope.
Open Scope Z_scope.

(** ** The reference definition *)

Definition accepts (f : callable) (v : pyval) : Prop :=
  match expected_type f with Some t => isinstance v t = true | None => True end ∧ ∃ root b, call f root v = Returns b.

(** The names that an entry of a schema speaks of *)
Definition key_names (key : vkey) : list string :=
  match key with Key n | Optional n _ => [n] | OrKey args | AtMostOne args => args end.

Definition given (d : dict pyval) (n : string) : Prop := Dict.mem n d = true.

(** An entry is satisfied by a dictionary, when [conf n] is required of the value at [n]. *)
Definition entry_ok (key : vkey) (conf : string → pyval → Prop) (d : dict pyval) : Prop :=
  match key with
  | Key n => ∃ x, Dict.get n d = Some x ∧ conf n x
  | Optional n dflt => match Dict.get n d with Some x => conf n x | None => dflt = VNone ∨ conf n dflt end
  | OrKey args => (args = [] ∨ Exists (given d) args) ∧ Forall (λ n, ∀ x, Dict.get n d = Some x → conf n x) args
  | AtMostOne args =>
      (length (List.filter (λ n, Dict.mem n d) args) ≤ 1)%nat ∧ Forall (λ n, ∀ x, Dict.get n d = Some x → conf n x) args
  end.

Section conforms.
Context (conforms : sch → pyval → Prop).

Fixpoint case_conforms (l : list (string * sch)) (n : string) (v : pyval) : Prop :=
  match l with
  | [] => False
  | (m, s) :: l' => if (m =? n)%string then conforms s v else case_conforms l' n v
  end.

Definition value_conforms (key : vkey) (s : sch) (n : string) : pyval → Prop :=
  match key, s with
  | OrKey _, SCase cases | AtMostOne _, SCase cases => case_conforms cases n
  | _, _ => conforms s
  end.

Fixpoint dict_conforms (l : list (vkey * sch)) (d : dict pyval) : Prop :=
  match l with
  | [] => True
  | (key, s) :: l' => entry_ok key (value_conforms key s) d ∧ dict_conforms l' d
  end.

Fixpoint one_conforms (args : list sch) (v : pyval) : Prop :=
  match args with [] => False | a :: args' => conforms a v ∨ one_conforms args' v end.
End conforms.

Fixpoint conforms (s : sch) (v : pyval) {struct s} : Prop :=
  match s with
  | SStr => isinstance v TyStr = true
  | SType t => isinstance v t = true
  | SCall f => accepts f v
  | SDict l => ∃ d, v = VDict d ∧ dict_conforms conforms l d
  | SList l => ∃ items, v = VList items ∧ items ≠ [] ∧
      match l with a :: _ => Forall (conforms a) items | [] => True end
  | SOr args => one_conforms conforms args v
  | SCase _ => True
  | SDirectory dir =>
      match v with VStr name => ∃ root rs, dir root name = Ok rs ∧ forallb status rs = true | _ => True end
  end.

(** ** Well-formed schemas *)

(** The schemas that say something about every value *)
Fixpoint chatty (s : sch) : bool :=
  match s with
  | SStr | SType _ | SCall _ => true
  | SList (a :: _) => chatty a
  | _ => false
  end.

Definition covered (key : vkey) (s : sch) : bool :=
  match key, s with
  | OrKey args, SCase cases | AtMostOne args, SCase cases => bool_decide (args ⊆ cases.*1)
  | _, _ => true
  end.

Fixpoint wf_sch (s : sch) : bool :=
  match s with
  | SStr | SType _ | SCall _ | SDirectory _ => true
  | SDict l => bool_decide (NoDup (concat (map (λ e, key_names e.1) l))) && forallb (λ e, covered e.1 e.2 && wf_sch e.2) l
  | SList l => forallb wf_sch l
  | SOr args => negb (length args =? 0)%nat && forallb chatty args && forallb wf_sch args
  | SCase l => forallb (λ e, wf_sch e.2) l
  end.

(** No function at a leaf looks at the rest of the configuration. *)
Fixpoint rootless (s : sch) : Prop :=
  match s with
  | SStr | SType _ => True
  | SCall f => ∀ r r' v, call f r v = call f r' v
  | SDirectory dir => ∀ r r' v, dir r v = dir r' v
  | SDict l => foldr (λ e P, rootless e.2 ∧ P) True l
  | SList l => foldr (λ a P, rootless a ∧ P) True l
  | SOr args => foldr (λ a P, rootless a ∧ P) True args
  | SCase l => foldr (λ e P, rootless e.2 ∧ P) True l
  end.

(** ** Induction on schemas *)

Section sch_ind'.
Context (P : sch → Prop).

(** [P] of a schema, or of all those of a [Case] *)
Definition below (s : sch) : Prop := P s ∧ match s with SCase l => Forall (λ e, P e.2) l | _ => True end.

Context (Hstr : P SStr) (Htype : ∀ t, P (SType t)) (Hcall : ∀ f, P (SCall f))
  (Hdict : ∀ l, Forall (λ e, below e.2) l → P (SDict l)) (Hlist : ∀ l, Forall P l → P (SList l))
  (Hor : ∀ l, Forall P l → P (SOr l)) (Hcase : ∀ l, Forall (λ e, P e.2) l → P (SCase l))
  (Hdir : ∀ d, P (SDirectory d)).

Fixpoint sch_below (s : sch) : below s.
Proof.
  refine (match s with
  | SStr => conj Hstr I
  | SType t => conj (Htype t) I
  | SCall f => conj (Hcall f) I
  | SDict l => conj (Hdict l ((fix go l : Forall (λ e, below e.2) l :=
      match l with [] => Forall_nil_2 _ | e :: l' => Forall_cons_2 _ e l' (sch_below e.2) (go l') end) l)) I
  | SList l => conj (Hlist l ((fix go l : Forall P l :=
      match l with [] => Forall_nil_2 _ | a :: l' => Forall_cons_2 _ a l' (proj1 (sch_below a)) (go l') end) l)) I
  | SOr l => conj (Hor l ((fix go l : Forall P l :=
      match l with [] => Forall_nil_2 _ | a :: l' => Forall_cons_2 _ a l' (proj1 (sch_below a)) (go l') end) l)) I
  | SCase l => let H := (fix go l : Forall (λ e, P e.2) l :=
      match l with [] => Forall_nil_2 _ | e :: l' => Forall_cons_2 (λ e, P e.2) e l' (proj1 (sch_below e.2)) (go l') end) l
      in conj (Hcase l H) H
  | SDirectory d => conj (Hdir d) I
  end).
Defined.

Definition sch_ind' (s : sch) : P s := proj1 (sch_below s).
End sch_ind'.

(** ** Soundness *)

Abbreviation all_ok rs := (forallb status rs = true).

Lemma all_ok_app rs rs' : all_ok (rs ++ rs')%list ↔ all_ok rs ∧ all_ok rs'.
Proof. by rewrite forallb_app, andb_true_iff. Qed.

Lemma all_ok_map (f : Result → Result) rs : (∀ r, status (f r) = status r) → forallb status (map f rs) = forallb status rs.
Proof. intros Hf. induction rs as [|r rs IH]; [done|]. simpl. by rewrite Hf, IH. Qed.

Section frame.
Context (rec : sch → walk pyval).

Lemma iter_key_frame key s ctx d data rs data' n :
  iter_key rec key s ctx d data = Ok (rs, data') → n ≠ d → Dict.get n data' = Dict.get n data.
Proof.
  unfold iter_key. intros H Hn.
  assert (∀ data0 value rs0, Dict.get n data0 = Dict.get n data →
    ('(rs, value') ← key_walk rec key s d (λ x, ctx (VDict (Dict.set d x data0))) value;
     mret (map (λ v, MkResult (status v) (error v) (level v) (sub_path d v) (rdata v)) rs, Dict.set d value' data0)) = Ok (rs0, data') →
    Dict.get n data' = Dict.get n data) as Hfound.
  { intros data0 value rs0 H0 Hb. exc_inv Hb as r. destruct r as [r v']. injection Hb as _ <-. by rewrite Dict.get_set_ne. }
  destruct (Dict.get d data) as [x|]; [by eapply Hfound in H|].
  destruct key as [?|? dflt|?|?]; try by injection H as _ <-.
  destruct dflt; try (by injection H as _ <-); (eapply Hfound in H; [done|by rewrite Dict.get_set_ne]).
Qed.

Lemma iter_keys_frame key s ctx ds data rs data' n :
  iter_keys rec key s ctx ds data = Ok (rs, data') → n ∉ ds → Dict.get n data' = Dict.get n data.
Proof.
  revert data rs. induction ds as [|d ds IH]; intros data rs H Hn; [by injection H as _ <-|].
  apply not_elem_of_cons in Hn as [Hd Hn]. cbn in H. exc_inv H as r1. destruct r1 as [rs1 d1]. exc_inv H as r2. destruct r2 as [rs2 d2].
  injection H as _ <-. rewrite (IH d1 rs2), (iter_key_frame key s ctx d data rs1 d1); done.
Qed.

Lemma data_key_names data key n : n ∈ _data_key data key → n ∈ key_names key.
Proof.
  destruct key as [?|? ?|args|args]; simpl; try done.
  - destruct (existsb _ _); [|done]. intros [? ?]%list_elem_of_In%List.filter_In. by apply list_elem_of_In.
  - intros [? ?]%list_elem_of_In%List.filter_In. by apply list_elem_of_In.
Qed.

Lemma iter_entry_frame key s ctx data rs data' n :
  iter_entry rec key s ctx data = Ok (rs, data') → n ∉ key_names key → Dict.get n data' = Dict.get n data.
Proof.
  intros H Hn. assert (n ∉ _data_key data key) as Hd by (intros ?; by eapply Hn, data_key_names).
  unfold iter_entry in H. destruct key; try by eapply iter_keys_frame in H.
  destruct (_ <? _)%nat; [by injection H as _ <-|]. by eapply iter_keys_frame in H.
Qed.
End frame.

Lemma entry_ok_frame key conf d d' : (∀ n, n ∈ key_names key → Dict.get n d' = Dict.get n d) →
  entry_ok key conf d' ↔ entry_ok key conf d.
Proof.
  intros H. assert (∀ n, n ∈ key_names key → Dict.mem n d' = Dict.mem n d) as Hm by (intros n Hn; unfold Dict.mem; by rewrite H).
  assert (∀ (args : list string) (f g : string → bool), (∀ n, n ∈ args → f n = g n) → List.filter f args = List.filter g args) as Hfilter.
  { intros args f g Hfg. apply List.filter_ext_in. intros n Hn%list_elem_of_In. by apply Hfg. }
  destruct key as [n|n dflt|args|args]; simpl in *.
  - by rewrite H by set_solver.
  - by rewrite H by set_solver.
  - rewrite !Exists_exists, !Forall_forall. unfold given. split; intros [H1 H2]; (split; [destruct H1 as [|(n & Hn & Hg)]; [by left|right]; exists n; split; [done|]|]).
    + by rewrite <-Hm.
    + intros n Hn x Hx. apply H2; [done|]. by rewrite H.
    + by rewrite Hm.
    + intros n Hn x Hx. apply H2; [done|]. by rewrite <-H.
  - rewrite (Hfilter args _ (λ n, Dict.mem n d)) by done. rewrite !Forall_forall.
    split; intros [H1 H2]; (split; [done|]); intros n Hn x Hx; (apply H2; [done|]); [by rewrite H|by rewrite <-H].
Qed.

Section sound_entry.
Context (rec : sch → walk pyval) (key : vkey) (s : sch) (conf : string → pyval → Prop).
Context (Hrec : ∀ d ctx v rs v', key_walk rec key s d ctx v = Ok (rs, v') → all_ok rs → conf d v).

(** What is required of the key [d] *)
Definition key_ok (data : dict pyval) (d : string) : Prop :=
  match Dict.get d data, key with
  | Some x, _ => conf d x
  | None, Optional _ dflt => dflt = VNone ∨ conf d dflt
  | None, _ => False
  end.

Lemma iter_key_sound ctx d data rs data' : iter_key rec key s ctx d data = Ok (rs, data') → all_ok rs → key_ok data d.
Proof using Hrec.
  unfold iter_key, key_ok. intros H Hok.
  assert (∀ data0 value,
    ('(rs, value') ← key_walk rec key s d (λ x, ctx (VDict (Dict.set d x data0))) value;
     mret (map (λ v, MkResult (status v) (error v) (level v) (sub_path d v) (rdata v)) rs, Dict.set d value' data0)) = Ok (rs, data') →
    conf d value) as Hfound.
  { intros data0 value Hb. exc_inv Hb as r. destruct r as [r v']. injection Hb as <- _.
    rewrite all_ok_map in Hok by done. eauto. }
  destruct (Dict.get d data) as [x|]; [by eapply Hfound|].
  destruct key as [?|? dflt|?|?]; try (injection H as <- _; done).
  destruct (decide (dflt = VNone)) as [|Hne]; [by left|right]. destruct dflt; [done|..]; by eapply Hfound in H.
Qed.

Lemma iter_keys_sound ctx ds data rs data' : NoDup ds → iter_keys rec key s ctx ds data = Ok (rs, data') → all_ok rs →
  Forall (key_ok data) ds.
Proof using Hrec.
  intros Hnd. revert data rs. induction Hnd as [|d ds Hd Hnd IH]; intros data rs H Hok; [constructor|].
  cbn in H. exc_inv H as r1. destruct r1 as [rs1 d1]. exc_inv H as r2. destruct r2 as [rs2 d2].
  injection H as <- <-. apply all_ok_app in Hok as [Hok1 Hok2]. constructor; [by eapply iter_key_sound|].
  specialize (IH d1 rs2 ltac:(done) Hok2). rewrite Forall_forall in IH |- *. intros n Hn. specialize (IH n Hn). revert IH.
  unfold key_ok. rewrite (iter_key_frame rec key s ctx d data rs1 d1 n); [done|done|]. by intros ->.
Qed.

Lemma iter_entry_sound ctx data rs data' : NoDup (key_names key) → iter_entry rec key s ctx data = Ok (rs, data') → all_ok rs →
  entry_ok key conf data.
Proof using Hrec.
  intros Hnd H Hok.
  assert (∀ ds, NoDup ds → iter_keys rec key s ctx ds data = Ok (rs, data') → Forall (key_ok data) ds) as Hks
    by (intros; by eapply iter_keys_sound).
  assert (∀ (f : string → bool) args, NoDup args → NoDup (List.filter f args)) as Hfilter.
  { intros f args Ha. rewrite NoDup_ListNoDup in *. by apply List.NoDup_filter. }
  assert (∀ args, Forall (key_ok data) (List.filter (λ n, Dict.mem n data) args) →
    Forall (λ n, ∀ x, Dict.get n data = Some x → conf n x) args) as Hgiven.
  { intros args Hf. rewrite Forall_forall in Hf |- *. intros n Hn x Hx.
    specialize (Hf n). unfold key_ok in Hf. rewrite Hx in Hf. apply Hf, list_elem_of_In, List.filter_In.
    split; [by apply list_elem_of_In|]. unfold Dict.mem. by rewrite Hx. }
  unfold iter_entry in H. destruct key as [n|n dflt|args|args] eqn:Ek; cbn [_data_key key_names] in *.
  - apply Hks in H; [|done]. apply Forall_cons in H as [H _]. unfold key_ok in H. rewrite Ek in H. simpl.
    destruct (Dict.get n data); [eauto|done].
  - apply Hks in H; [|done]. apply Forall_cons in H as [H _]. unfold key_ok in H. rewrite Ek in H. simpl.
    by destruct (Dict.get n data).
  - destruct (existsb _ args) eqn:Ex.
    + apply Hks in H; [|by apply Hfilter]. split; [right|by apply Hgiven].
      apply existsb_exists in Ex as (n & Hn & Hm). apply Exists_exists. exists n. split; [by apply list_elem_of_In|done].
    + apply Hks in H; [|done]. assert (args = []) as ->.
      { destruct args as [|n args]; [done|exfalso]. apply Forall_cons in H as [H _]. simpl in Ex. apply orb_false_iff in Ex as [Ex _].
        unfold key_ok in H. rewrite Ek in H. unfold Dict.mem in Ex. by destruct (Dict.get n data). }
      split; [by left|constructor].
  - destruct (1 <? _)%nat eqn:El; [by injection H as <- _|]. apply Nat.ltb_ge in El. split; [done|].
    apply Hks in H; [|by apply Hfilter]. by apply Hgiven.
Qed.
End sound_entry.

Lemma iter_dict_sound rec (conf : sch → pyval → Prop) l ctx d rs d' :
  Forall (λ e, ∀ n ctx v rs v', key_walk rec e.1 e.2 n ctx v = Ok (rs, v') → all_ok rs → value_conforms conf e.1 e.2 n v) l →
  NoDup (concat (map (λ e, key_names e.1) l)) → iter_dict rec l ctx d = Ok (rs, d') → all_ok rs →
  dict_conforms conf l d.
Proof.
  intros Hl. revert d rs. induction Hl as [|[key s] l He Hl IH]; intros d rs Hnd H Hok; [done|]. cbn in Hnd, H.
  apply NoDup_app in Hnd as (Hk & Hdisj & Hnd). exc_inv H as r1. destruct r1 as [rs1 d1]. exc_inv H as r2. destruct r2 as [rs2 d2].
  injection H as <- <-. apply all_ok_app in Hok as [Hok1 Hok2]. split; [by eapply iter_entry_sound|].
  assert (∀ l', (∀ n, n ∈ concat (map (λ e, key_names e.1) l') → n ∉ key_names key) → dict_conforms conf l' d1 → dict_conforms conf l' d) as Hback.
  { clear -H0. induction l' as [|[key' s'] l' IH]; [done|]. cbn. intros Hd [Hc Hr]. split; [|apply IH; [|done]; set_solver].
    revert Hc. apply (entry_ok_frame key' _ d d1). intros n Hn. eapply iter_entry_frame; [exact H0|]. set_solver. }
  apply Hback; [|by eapply IH]. intros n Hn Hn'. by eapply Hdisj.
Qed.

(** ** Alternatives and lists *)

Lemma or_results_ok r : existsb status (or_results r) = true → all_ok r.
Proof.
  unfold or_results. destruct (existsb status r) eqn:E; simpl; [|congruence].
  destruct (forallb status r) eqn:F; simpl; [done|]. intros H. exfalso.
  apply existsb_exists in H as (x & [_ Hx]%List.filter_In & Hs). by rewrite Hs in Hx.
Qed.

Lemma or_results_all r : r ≠ [] → all_ok r → existsb status (or_results r) = true.
Proof.
  intros Hne Hok. unfold or_results. rewrite Hok, andb_false_r. destruct r as [|x r]; [done|]. simpl in *.
  by apply andb_true_iff in Hok as [-> _].
Qed.

Lemma or_results_incl r x : x ∈ or_results r → x ∈ r.
Proof.
  unfold or_results. destruct (_ && _); [|done]. intros [H _]%list_elem_of_In%List.filter_In. by apply list_elem_of_In.
Qed.

Lemma or_results_nil r : or_results r = [] → r = [].
Proof.
  unfold or_results. destruct (existsb status r && negb (forallb status r)) eqn:E; [|done].
  apply andb_true_iff in E as [_ E]. intros Hf. destruct (forallb status r) eqn:F; [done|]. exfalso.
  assert (forallb status r = true) as G; [|congruence]. apply forallb_forall. intros x Hx.
  destruct (status x) eqn:Ex; [done|]. exfalso. assert (x ∈ List.filter (λ x, negb (status x)) r) as H
    by (apply list_elem_of_In, List.filter_In; by rewrite Ex). rewrite Hf in H. by apply not_elem_of_nil in H.
Qed.

(** An alternative that says something about every value and leaves it as it is *)
Definition speaks (rec : sch → walk pyval) (a : sch) : Prop :=
  ∀ ctx v, ∃ r, rec a ctx v = Ok (r, v) ∧ r ≠ [] ∧ Forall (λ x, level x ≤ 1) r.

Lemma iter_items_speaks rec a ctx key before items : speaks rec a →
  ∃ r, iter_items rec a ctx key before items = Ok (r, items) ∧ (items ≠ [] → r ≠ []) ∧ Forall (λ x, level x ≤ 1) r.
Proof.
  intros Ha. revert key before. induction items as [|v items IH]; intros key before; [by exists []|]. cbn.
  destruct (Ha (λ x, ctx (VList (before ++ x :: items))) v) as (r & -> & Hne & Hl). cbn.
  destruct (IH (key + 1) (before ++ [v])%list) as (r' & -> & _ & Hl'). cbn. eexists. split; [done|]. split.
  - intros _. by destruct r.
  - apply Forall_app. split; [|done]. apply Forall_map. done.
Qed.

Lemma chatty_speaks s : chatty s = true → speaks validate s.
Proof.
  induction s as [|t|f|l IH|l IH|l IH|l IH|d] using sch_ind'; try done; intros Hc ctx v.
  - eexists. split; [done|]. split; [done|]. by repeat constructor.
  - eexists. split; [done|]. split; [done|]. by repeat constructor.
  - eexists. split; [done|]. unfold run_callable.
    destruct (expected_type f) as [t|]; [destruct (isinstance v t)|]; try destruct (call f _ _); split; try done; by repeat constructor.
  - destruct l as [|a l]; [done|]. apply Forall_cons in IH as [IH _]. specialize (IH Hc).
    destruct v as [| | | |items|]; try (eexists; split; [done|]; split; [done|]; by repeat constructor).
    cbn. unfold iter_list. destruct (iter_items_speaks validate a ctx 0 [] items IH) as (r & -> & Hne & Hl). cbn.
    eexists. split; [done|]. destruct items as [|x items]; cbn; [split; [done|by constructor]|]. split; [by apply Hne|done].
Qed.

Lemma alternatives_speak args ctx v : Forall (speaks validate) args →
  ∃ rs, alternatives validate args ctx v = Ok (rs, v) ∧ (args ≠ [] → rs ≠ []) ∧ Forall (λ x, level x ≤ 1) rs ∧
    (existsb status rs = true ↔ Exists (λ a, ∃ r, validate a ctx v = Ok (r, v) ∧ all_ok r) args).
Proof.
  intros Hs. induction Hs as [|a args Ha Hs IH]; [exists []; repeat split; try done; by intros ?%Exists_nil|].
  destruct (Ha ctx v) as (r & Hr & Hne & Hl). destruct IH as (rs & Hrs & _ & Hl' & Hok).
  cbn. rewrite Hr. cbn. rewrite Hrs. cbn. eexists. split; [done|]. split_and!.
  - intros _ [Hn _]%app_nil. by apply or_results_nil in Hn.
  - apply Forall_app. split; [|done]. rewrite Forall_forall in Hl |- *. intros x Hx. by apply Hl, or_results_incl.
  - rewrite existsb_app, orb_true_iff, Exists_cons, Hok. split.
    + intros [H|H]; [left|by right]. exists r. split; [done|by apply or_results_ok].
    + intros [(r' & Hr' & Hok')|H]; [left|by right]. rewrite Hr in Hr'. injection Hr' as <-. by apply or_results_all.
Qed.

Lemma up_to_level_ok l : Forall (λ x, level x ≤ 1) l → existsb status l = false → all_ok (up_to_level 3 l) → l = [].
Proof.
  intros Hl Hn. destruct l as [|x l]; [done|]. apply Forall_cons in Hl as [Hx _]. simpl in *.
  rewrite (proj2 (Z.ltb_ge 3 (level x))) by lia. apply orb_false_iff in Hn as [Hn _]. simpl. by rewrite Hn.
Qed.

Lemma iter_or_ok args ctx v : Forall (speaks validate) args → args ≠ [] →
  ∃ rs, iter_or validate args ctx v = Ok (rs, v) ∧
    (all_ok rs ↔ Exists (λ a, ∃ r, validate a ctx v = Ok (r, v) ∧ all_ok r) args).
Proof.
  intros Hs Hne. destruct (alternatives_speak args ctx v Hs) as (rs & Hrs & Hrne & Hl & Hok).
  unfold iter_or. rewrite Hrs. cbn. eexists. split; [done|]. rewrite <-Hok. destruct (existsb status rs) eqn:E; [done|].
  split; [|done]. intros Hu. exfalso. apply Hrne in Hne. pose proof (merge_sort_Permutation level_le rs) as Hp.
  apply up_to_level_ok in Hu; [|by rewrite Hp|].
  - rewrite Hu in Hp. by apply Permutation_nil in Hp.
  - destruct (existsb status (merge_sort level_le rs)) eqn:Ex; [|done]. apply existsb_exists in Ex as (x & Hx & Hs').
    rewrite <-E. symmetry. apply existsb_exists. exists x. split; [|done]. by rewrite <-Hp.
Qed.

Lemma iter_items_sound (conf : pyval → Prop) rec a ctx key before items rs items' :
  (∀ ctx v rs v', rec a ctx v = Ok (rs, v') → all_ok rs → conf v) →
  iter_items rec a ctx key before items = Ok (rs, items') → all_ok rs → Forall conf items.
Proof.
  intros Ha. revert key before rs items'. induction items as [|v items IH]; intros key before rs items' H Hok; [constructor|].
  cbn in H. exc_inv H as r1. destruct r1 as [rs1 v1]. exc_inv H as r2. destruct r2 as [rs2 l2]. injection H as <- <-.
  apply all_ok_app in Hok as [Hok1 Hok2]. rewrite all_ok_map in Hok1 by done. constructor; eauto.
Qed.

Lemma one_conforms_exists args v : one_conforms conforms args v ↔ Exists (λ a, conforms a v) args.
Proof.
  induction args as [|a args IH]; cbn; [by rewrite Exists_nil|]. by rewrite Exists_cons, IH.
Qed.

(** ** The two directions *)

Lemma speaks_args args : forallb chatty args = true → Forall (speaks validate) args.
Proof. rewrite forallb_forall, Forall_forall. intros H a Ha. by apply chatty_speaks, H, list_elem_of_In. Qed.

Lemma run_callable_ok f root v : all_ok (run_callable f root v) →
  match expected_type f with Some t => isinstance v t = true | None => True end ∧ ∃ b, call f root v = Returns b.
Proof.
  unfold run_callable. destruct (expected_type f) as [t|]; [destruct (isinstance v t)|];
    destruct (call f root v) as [b|]; try done; split; try done; by exists b.
Qed.

Lemma case_sound cases n ctx v rs v' :
  Forall (λ e, ∀ ctx v rs v', validate e.2 ctx v = Ok (rs, v') → all_ok rs → conforms e.2 v) cases →
  case_schema validate cases n ctx v = Ok (rs, v') → all_ok rs → case_conforms conforms cases n v.
Proof.
  intros Hc. induction Hc as [|[m s] cases Hs Hc IH]; [done|]. cbn. destruct (m =? n)%string; [apply Hs|apply IH].
Qed.

Lemma conforms_sound s ctx v rs v' : wf_sch s = true → validate s ctx v = Ok (rs, v') → all_ok rs → conforms s v.
Proof.
  revert ctx v rs v'. induction s as [|t|f|l IH|l IH|l IH|l IH|dir] using sch_ind'; intros ctx v rs v' Hwf H Hok.
  - cbn in H. injection H as <- _. cbn in Hok. by rewrite andb_true_r in Hok.
  - cbn in H. injection H as <- _. cbn in Hok. by rewrite andb_true_r in Hok.
  - cbn in H. injection H as <- _. apply run_callable_ok in Hok as [Ht (b & Hb)]. split; eauto.
  - cbn in H. destruct v as [| | | | |d]; try (injection H as <- _; done). exc_inv H as r. destruct r as [rs1 d1].
    injection H as <- _. exists d. split; [done|]. cbn in Hwf. apply andb_true_iff in Hwf as [Hnd%bool_decide_eq_true Hwf].
    eapply iter_dict_sound; [|done..]. rewrite forallb_forall in Hwf. rewrite Forall_forall in IH |- *.
    intros [key s] He n ctx' v1 rs' v2 Hr Hok'. specialize (IH _ He). apply list_elem_of_In in He. apply Hwf in He. cbn in *.
    apply andb_true_iff in He as [_ Hs]. destruct IH as [IHs IHc].
    assert (∀ cases, s = SCase cases → Forall (λ e, ∀ ctx v rs v', validate e.2 ctx v = Ok (rs, v') → all_ok rs → conforms e.2 v) cases) as Hcase.
    { intros cases ->. cbn in Hs. rewrite forallb_forall in Hs. rewrite Forall_forall in IHc |- *. intros e Hin ctx0 v0 rs0 v0' H1 H2.
      apply (IHc e Hin ctx0 v0 rs0 v0'); [by apply Hs, list_elem_of_In|done|done]. }
    destruct key; cbn in *; try (by eapply IHs); destruct s; cbn in *; try (by eapply IHs); eapply case_sound; eauto.
  - cbn in H. destruct v as [| | | |items|]; try (injection H as <- _; done). exc_inv H as r. destruct r as [rs1 l1].
    injection H as <- _. exists items. split; [done|]. unfold iter_list in *.
    match goal with H : context[match items with [] => _ | _ => _ end] |- _ => exc_inv H as r end. destruct r as [rs2 l2].
    match goal with H : mret _ = _ |- _ => injection H as <- _ end. apply all_ok_app in Hok as [He Hok].
    split; [by destruct items|]. destruct l as [|a l]; [done|]. cbn in Hwf. apply andb_true_iff in Hwf as [Hwf _].
    apply Forall_cons in IH as [IH _]. eapply iter_items_sound; [|done..]. intros. by eapply IH.
  - cbn in Hwf. rewrite !andb_true_iff, negb_true_iff, Nat.eqb_neq in Hwf. destruct Hwf as [[Hne Hch] Hwf].
    destruct (iter_or_ok l ctx v (speaks_args l Hch)) as (rs' & Hr & Hiff); [by intros ->|]. cbn in H. rewrite Hr in H.
    injection H as <- _. apply Hiff in Hok. apply one_conforms_exists. rewrite Exists_exists in Hok |- *.
    destruct Hok as (a & Ha & r & Hra & Hok). exists a. split; [done|]. rewrite Forall_forall in IH. rewrite forallb_forall in Hwf.
    eapply IH; [done|by apply Hwf, list_elem_of_In|done|done].
  - done.
  - cbn in H. destruct v; try done. cbn. exc_inv H as r. injection H as <- _. eauto.
Qed.

Lemma data_keys_nodup data key : NoDup (key_names key) → NoDup (_data_key data key).
Proof.
  assert (∀ (f : string → bool) args, NoDup args → NoDup (List.filter f args)) as Hf.
  { intros f args Ha. rewrite NoDup_ListNoDup in *. by apply List.NoDup_filter. }
  destruct key; cbn; try done; [destruct (existsb _ _); [|done]|]; apply Hf.
Qed.

Lemma data_keys_ok key conf data : entry_ok key conf data → Forall (key_ok key conf data) (_data_key data key) ∧
  match key with AtMostOne _ => (1 <? length (_data_key data key))%nat = false | _ => True end.
Proof.
  assert (∀ args, Forall (λ n, ∀ x, Dict.get n data = Some x → conf n x) args →
    Forall (key_ok key conf data) (List.filter (λ n, Dict.mem n data) args)) as Hfilter.
  { intros args Hf. rewrite Forall_forall in Hf |- *. intros n [Hn Hm]%list_elem_of_In%List.filter_In. unfold Dict.mem in Hm.
    unfold key_ok. destruct (Dict.get n data) eqn:E; [|done]. apply Hf; [by apply list_elem_of_In|done]. }
  destruct key as [n|n dflt|args|args]; cbn [entry_ok _data_key].
  - intros (x & Hx & Hc). split; [|done]. constructor; [|constructor]. unfold key_ok. by rewrite Hx.
  - intros H. split; [|done]. constructor; [|constructor]. unfold key_ok. by destruct (Dict.get n data).
  - intros [Hex Hall]. split; [|done]. destruct (existsb _ args) eqn:Ex; [by apply Hfilter|].
    destruct Hex as [->|Hex]; [constructor|exfalso]. apply Exists_exists in Hex as (n & Hn & Hm).
    assert (existsb (λ n, Dict.mem n data) args = true); [|congruence]. apply existsb_exists. exists n.
    by rewrite <-list_elem_of_In.
  - intros [Hl Hall]. split; [by apply Hfilter|by apply Nat.ltb_ge].
Qed.

(** A walk that reports nothing *)
Definition passes {A} (w : exc (list Result * A)) : Prop := ∃ rs a, w = Ok (rs, a) ∧ all_ok rs.

Section complete_entry.
Context (rec : sch → walk pyval) (key : vkey) (s : sch) (conf : string → pyval → Prop).
Context (Hrec : ∀ d ctx v, conf d v → passes (key_walk rec key s d ctx v)).

Lemma iter_key_complete ctx d data : key_ok key conf data d → passes (iter_key rec key s ctx d data).
Proof using Hrec.
  unfold key_ok, iter_key. intros H.
  assert (∀ data0 value, conf d value → passes (
    '(rs, value') ← key_walk rec key s d (λ x, ctx (VDict (Dict.set d x data0))) value;
     mret (map (λ v, MkResult (status v) (error v) (level v) (sub_path d v) (rdata v)) rs, Dict.set d value' data0))) as Hfound.
  { intros data0 value (rs & a & Hw & Hok)%(Hrec d (λ x, ctx (VDict (Dict.set d x data0)))). rewrite Hw. cbn.
    eexists _, _. split; [done|]. by rewrite all_ok_map. }
  destruct (Dict.get d data) as [x|]; [by apply Hfound|].
  destruct key as [?|? dflt|?|?]; try done. destruct dflt; [by eexists _, _|..]; destruct H as [|H]; try done; by apply Hfound.
Qed.

Lemma iter_keys_complete ctx ds data : NoDup ds → Forall (key_ok key conf data) ds → passes (iter_keys rec key s ctx ds data).
Proof using Hrec.
  intros Hnd. revert data. induction Hnd as [|d ds Hd Hnd IH]; intros data Hf; [by eexists _, _|].
  apply Forall_cons in Hf as [Hk Hf]. destruct (iter_key_complete ctx d data Hk) as (rs1 & d1 & H1 & Hok1). cbn. rewrite H1. cbn.
  assert (Forall (key_ok key conf d1) ds) as (rs2 & d2 & H2 & Hok2)%IH.
  { rewrite Forall_forall in Hf |- *. intros n Hn. specialize (Hf n Hn). revert Hf. unfold key_ok.
    rewrite (iter_key_frame rec key s ctx d data rs1 d1 n); [done|done|]. by intros ->. }
  rewrite H2. cbn. eexists _, _. split; [done|]. by apply all_ok_app.
Qed.

Lemma iter_entry_complete ctx data : NoDup (key_names key) → entry_ok key conf data → passes (iter_entry rec key s ctx data).
Proof using Hrec.
  intros Hnd [H Hl]%data_keys_ok. apply (iter_keys_complete ctx) in H; [|by apply data_keys_nodup].
  unfold iter_entry. clear Hrec Hnd. by destruct key; try rewrite Hl.
Qed.
End complete_entry.

Lemma dict_conforms_frame conf l d d' : (∀ n, n ∈ concat (map (λ e, key_names e.1) l) → Dict.get n d' = Dict.get n d) →
  dict_conforms conf l d → dict_conforms conf l d'.
Proof.
  induction l as [|[key s] l IH]; [done|]. cbn. intros H [Hk Hl]. split; [|apply IH; [|done]; set_solver].
  revert Hk. apply (entry_ok_frame key _ d' d). intros n Hn. rewrite H; [done|set_solver].
Qed.

Lemma iter_dict_complete rec (conf : sch → pyval → Prop) l ctx d :
  Forall (λ e, ∀ n ctx v, value_conforms conf e.1 e.2 n v → passes (key_walk rec e.1 e.2 n ctx v)) l →
  NoDup (concat (map (λ e, key_names e.1) l)) → dict_conforms conf l d → passes (iter_dict rec l ctx d).
Proof.
  intros Hl. revert d. induction Hl as [|[key s] l He Hl IH]; intros d Hnd Hc; [by eexists _, _|]. cbn in Hnd, Hc.
  apply NoDup_app in Hnd as (Hk & Hdisj & Hnd). destruct Hc as [Hc Hcl].
  destruct (iter_entry_complete rec key s _ He ctx d Hk Hc) as (rs1 & d1 & H1 & Hok1). cbn. rewrite H1. cbn.
  assert (dict_conforms conf l d1) as (rs2 & d2 & H2 & Hok2)%(IH d1 Hnd).
  { eapply dict_conforms_frame; [|done]. intros n Hn. eapply iter_entry_frame; [done|]. intros Hn'. by eapply Hdisj. }
  rewrite H2. cbn. eexists _, _. split; [done|]. by apply all_ok_app.
Qed.

Lemma iter_items_complete (conf : pyval → Prop) rec a ctx key before items :
  (∀ ctx v, conf v → passes (rec a ctx v)) → Forall conf items → passes (iter_items rec a ctx key before items).
Proof.
  intros Ha Hf. revert key before. induction Hf as [|v items Hv Hf IH]; intros key before; [by eexists _, _|]. cbn.
  destruct (Ha (λ x, ctx (VList (before ++ x :: items))) v Hv) as (rs1 & v1 & -> & Hok1). cbn.
  destruct (IH (key + 1) (before ++ [v1])%list) as (rs2 & l2 & -> & Hok2). cbn. eexists _, _. split; [done|].
  apply all_ok_app. split; [by rewrite all_ok_map|done].
Qed.

Lemma case_complete cases n ctx v :
  Forall (λ e, ∀ ctx v, conforms e.2 v → passes (validate e.2 ctx v)) cases →
  case_conforms conforms cases n v → passes (case_schema validate cases n ctx v).
Proof.
  intros Hc. induction Hc as [|[m s] cases Hs Hc IH]; [done|]. cbn. destruct (m =? n)%string; [apply Hs|apply IH].
Qed.

Lemma foldr_and {A} (P : A → Prop) l : foldr (λ a Q, P a ∧ Q) True l ↔ Forall P l.
Proof. induction l as [|a l IH]; [by rewrite Forall_nil|]. cbn. by rewrite Forall_cons, IH. Qed.

(** The induction hypotheses of a schema whose parts are well formed and look at nothing else *)
Lemma Forall_wf {A} (P : sch → Prop) (f : A → sch) l : forallb (λ e, wf_sch (f e)) l = true → foldr (λ e Q, rootless (f e) ∧ Q) True l →
  Forall (λ e, wf_sch (f e) = true → rootless (f e) → P (f e)) l → Forall (λ e, P (f e)) l.
Proof.
  rewrite (foldr_and (λ e, rootless (f e))), forallb_forall, !Forall_forall. intros Hw Hr H e He.
  apply H; [done| |by apply Hr]. by apply Hw, list_elem_of_In.
Qed.

Lemma conforms_complete s ctx v : wf_sch s = true → rootless s → conforms s v → passes (validate s ctx v).
Proof.
  revert ctx v. induction s as [|t|f|l IH|l IH|l IH|l IH|dir] using sch_ind'; intros ctx v Hwf Hroot Hc.
  - eexists _, _. split; [done|]. cbn in *. by rewrite Hc.
  - eexists _, _. split; [done|]. cbn in *. by rewrite Hc.
  - eexists _, _. split; [done|]. destruct Hc as (Ht & root & b & Hb). unfold run_callable.
    rewrite (Hroot _ root), Hb. destruct (expected_type f) as [t|]; [by rewrite Ht|done].
  - destruct Hc as (d & -> & Hc). cbn in Hwf. apply andb_true_iff in Hwf as [Hnd%bool_decide_eq_true Hwf].
    assert (Forall (λ e, ∀ n ctx v, value_conforms conforms e.1 e.2 n v → passes (key_walk validate e.1 e.2 n ctx v)) l) as Hrec.
    { cbn in Hroot. rewrite (foldr_and (λ e : vkey * sch, rootless e.2)) in Hroot. rewrite forallb_forall in Hwf. rewrite Forall_forall in IH, Hroot |- *.
      intros [key s] He n ctx' v. specialize (IH _ He). specialize (Hroot _ He). apply list_elem_of_In, Hwf in He. cbn in *.
      apply andb_true_iff in He as [_ Hs]. destruct IH as [IHs IHc].
      destruct key; cbn [value_conforms key_walk]; try (intros; by apply IHs);
        destruct s as [| | | | | |cases|]; cbn [value_conforms key_walk]; try (intros; by apply IHs); apply case_complete;
        (apply (Forall_wf (λ s, ∀ ctx v, conforms s v → passes (validate s ctx v)) snd); [done|done|]);
        rewrite Forall_forall in IHc |- *; intros e He' Hw Hr ctx1 v1; by apply IHc. }
    destruct (iter_dict_complete validate conforms l ctx d Hrec Hnd Hc) as (rs & d' & Hr & Hok). cbn. rewrite Hr. cbn. by eexists _, _.
  - destruct Hc as (items & -> & Hne & Hc). cbn. unfold iter_list.
    assert (passes (match l with validator :: _ => iter_items validate validator ctx 0 [] items | [] => mret ([], items) end)) as (rs & l' & -> & Hok).
    { destruct l as [|a l]; [by eexists _, _|]. eapply iter_items_complete; [|done]. intros ctx' v Hv.
      cbn in Hwf, Hroot. apply andb_true_iff in Hwf as [Hwf _]. apply Forall_cons in IH as [IH _]. destruct Hroot as [Hroot _]. by apply IH. }
    cbn. eexists _, _. split; [done|]. by destruct items.
  - cbn in Hwf. rewrite !andb_true_iff, negb_true_iff, Nat.eqb_neq in Hwf. destruct Hwf as [[Hne Hch] Hwf].
    destruct (iter_or_ok l ctx v (speaks_args l Hch)) as (rs & Hr & Hiff); [by intros ->|]. exists rs, v. split; [done|].
    apply Hiff. apply one_conforms_exists in Hc. cbn in Hroot. 
    assert (Forall (λ a, ∀ ctx v, conforms a v → passes (validate a ctx v)) l) as Hall.
    { apply (Forall_wf (λ s, ∀ ctx v, conforms s v → passes (validate s ctx v)) id); [done|done|].
      rewrite Forall_forall in IH |- *. intros a Ha Hw Hr1 ctx1 v1. by apply IH. }
   
    rewrite forallb_forall in Hch. rewrite Forall_forall in Hall. rewrite Exists_exists in Hc |- *. destruct Hc as (a & Ha & Hc). exists a. split; [done|].
    destruct (Hall a Ha ctx v Hc) as (r & v' & Hv & Hok). exists r. destruct (chatty_speaks a) with ctx v as (r' & Hr' & _); [by apply Hch, list_elem_of_In|].
    rewrite Hr' in Hv |- *. by injection Hv as -> ->.
  - by eexists _, _.
  - cbn in *. destruct v; try (by eexists _, _). destruct Hc as (root & rs & Hd & Hok). rewrite (Hroot _ root), Hd. by eexists _, _.
Qed.
