(* ===== verification/ValidatorLeaf.v ===== *)
(** * Validators of single settings ([patroni/validator.py])

    The functions and objects that the leaves of the schema call, over the class
    [ValidatorOs] of the file system, the network and the programs they look at (posix). *)
From Stdlib Require Import SpecFloat.
From S2P Require Import Prelude Lexing PyDict PyVal PyNum Collections Utils Validator.

Open Scope string_scope.
Open Scope Z_scope.

(** The output of a program; [OSError], or another exception, with its text *)
Inductive program_output := Output (s : string) | ProgramOSError (message : string) | ProgramError (message : string).

(** What validation asks: the file system, [shutil.which] (whether a program is found), [postgres
    --version], the addresses of a host (family and address), a connection ([connect_ex] on a
    new socket), the parsers of addresses, the modules of the DCS, and the texts of the
    exceptions that Python raises.  Everything is asked within one validation and is taken to stay
    as it is. *)
Class ValidatorOs := {
  path_exists : string → bool;
  path_isdir : string → bool;
  path_isfile : string → bool;
  listdir : string → check (list string);
  read_file : string → check string;
  which : pyval → pyval → exc bool;
  check_output : pyval → program_output;
  getaddrinfo : option string → option Z → check (list (Z * pyval));
  connect_ex : Z → string → Z → check Z;
  inet_aton : pyval → bool;
  inet_pton6 : pyval → bool;
  ignore_listen_port : bool;
  dcs_modules : list string;
  exn_text : pyexn → string
}.

(** [os.path.join] of two paths *)
Definition path_join (a b : string) : string :=
  if String.prefix "/" b then b
  else if (a =? "")%string || String.prefix "/" (Str.rev a) then a +:+ b else a +:+ "/" +:+ b.

Section leaves.
Context `{!ValidatorOs}.

Definition lift {A} (m : exc A) : check A := match m with Ok a => Returns a | Raise e => Throws (exn_text e) end.

(** [assert_] *)
Definition assert_ (condition : bool) (message : string) : check () := if condition then Returns tt else Throws message.

(** ** The format of the log *)

Definition validate_log_field (field : pyval) : bool :=
  match field with
  | VStr _ => true
  | VDict d => (length d =? 1)%nat && match d with (_, v) :: _ => isinstance v TyStr | [] => false end
  | _ => false
  end.

Definition validate_log_format (_ logformat : pyval) : check bool :=
  match logformat with
  | VStr _ => Returns true
  | VList l =>
      if (length l =? 0)%nat then Throws "should contain at least one item"
      else if negb (forallb validate_log_field l) then Throws "each item should be a string or a dictionary with string values"
      else Returns true
  | _ => Throws "Should be a string or a list"
  end.

(** ** Addresses *)

(** [split_host_port] of any value: [str.rsplit] is not an attribute of other types. *)
Definition split_value (value : pyval) : exc (string * Z) :=
  match value with VStr s => split_host_port s (VInt 1) | _ => Raise AttributeError end.

Definition wrong_value (also_attribute : bool) (e : pyexn) : bool :=
  match e with ValueError | TypeError => true | AttributeError => also_attribute | _ => false end.

Definition validate_connect_address (_ address : pyval) : check bool :=
  match split_value address with
  | Raise e => if wrong_value true e then Throws "contains a wrong value" else Throws (exn_text e)
  | Ok (host, _) =>
      if bool_decide (host ∈ ["127.0.0.1"; "0.0.0.0"; "*"; "::1"; "localhost"])
      then Throws ("must not contain " +:+ String dquote "127.0.0.1" +:+ String dquote ", " +:+ String dquote "0.0.0.0" +:+ String dquote ", " +:+
             String dquote "*" +:+ String dquote ", " +:+ String dquote "::1" +:+ String dquote ", " +:+ String dquote "localhost" +:+ String dquote "")
      else Returns true
  end.

(** The loop of [validate_host_port] *)
Fixpoint check_hosts (hosts : list string) (port : Z) (host_port : pyval) (listen : bool) : check bool :=
  match hosts with
  | [] => Returns true
  | host :: hosts' =>
      proto ← getaddrinfo (Some host) None;
      match proto with
      | [] => Throws (exn_text IndexError)
      | (family, _) :: _ =>
          r ← connect_ex family host port;
          if r =? 0
          then if listen && negb ignore_listen_port then Throws ("Port " +:+ pretty port +:+ " is already in use.")
               else check_hosts hosts' port host_port listen
          else if listen then check_hosts hosts' port host_port listen
          else Throws (py_str host_port +:+ " is not reachable")
      end
  end.

Definition validate_host_port (listen multiple_hosts : bool) (host_port : pyval) : check bool :=
  match split_value host_port with
  | Raise e => if wrong_value false e then Throws "contains a wrong value" else Throws (exn_text e)
  | Ok (hosts, port) =>
      let hosts := if multiple_hosts then Str.split_on "," hosts else [hosts] in
      hosts ← if bool_decide ("*" ∈ hosts)
              then if negb (length hosts =? 1)%nat then Throws "expecting '*' alone"
                   else addrs ← getaddrinfo None (Some port); mret (omap (λ a, as_str a.2) addrs)
              else mret hosts;
      check_hosts hosts port host_port listen
  end.

(** [all(validate_host_port(v) for v in value)]: it returns [True] or raises. *)
Fixpoint validate_host_ports (l : list pyval) : check bool :=
  match l with
  | [] => Returns true
  | v :: l' => b ← validate_host_port false false v; if b : bool then validate_host_ports l' else Returns false
  end.

Definition validate_host_port_list (_ value : pyval) : check bool :=
  match value with VList l => validate_host_ports l | _ => Throws (exn_text TypeError) end.

Definition comma_separated_host_port (_ string : pyval) : check bool :=
  match string with
  | VStr s => validate_host_ports (map (λ s, VStr (Str.strip s)) (Str.split_on "," s))
  | _ => Throws (exn_text AttributeError)
  end.

Definition validate_host_port_listen (_ host_port : pyval) : check bool := validate_host_port true false host_port.
Definition validate_host_port_listen_multiple_hosts (_ host_port : pyval) : check bool := validate_host_port true true host_port.

Definition is_ipv4_address (_ ip : pyval) : check bool :=
  if inet_aton ip then Returns true else Throws "Is not a valid ipv4 address".
Definition is_ipv6_address (_ ip : pyval) : check bool :=
  if inet_pton6 ip then Returns true else Throws "Is not a valid ipv6 address".

(** ** Programs and directories *)

(** [v.get(k, dflt)], where [v] may not be a dictionary *)
Definition attr_get (v : pyval) (k : string) (dflt : pyval) : exc pyval :=
  match v with VDict d => Ok (vget_or k dflt d) | _ => Raise AttributeError end.

(** [schema.data.get('postgresql', {}).get(k, dflt)] *)
Definition postgresql_get (data : pyval) (k : string) (dflt : pyval) : exc pyval :=
  pg ← attr_get data "postgresql" (VDict []); attr_get pg k dflt.

Definition get_bin_name (data : pyval) (bin_name : string) : exc pyval :=
  names ← postgresql_get data "bin_name" (VDict []);
  attr_get (py_or names (VDict [])) bin_name (VStr bin_name).

Definition validate_binary_name (data bin_name : pyval) : check bool :=
  if negb (truthy bin_name) then Throws "is an empty string" else
  bin_dir ← lift (postgresql_get data "bin_dir" VNone);
  found ← lift (which bin_name bin_dir);
  if found : bool then Returns true
  else Throws ("does not contain '" +:+ py_str bin_name +:+ "' in '" +:+ py_str (py_or bin_dir (VStr "$PATH")) +:+ "'").

(** [data_directory_is_empty] of [utils], [data_directory_empty] *)
Definition data_directory_is_empty (data_dir : string) : check bool :=
  if negb (path_exists data_dir) then Returns true else
  l ← listdir data_dir; Returns (forallb (λ n, String.prefix "." n || (n =? "lost+found")%string) l).

Definition data_directory_empty (data_dir : string) : check bool :=
  if path_isfile (path_join (path_join data_dir "global") "pg_control") then Returns false
  else data_directory_is_empty data_dir.

(** [float(s)]: decimal notations, with underscores between digits, [inf] and [nan] *)
Fixpoint digits_ (s : string) : string * string :=
  match s with
  | "" => ("", "")
  | String c s' =>
      if is_digit c then let '(a, b) := digits_ s' in (String c a, b)
      else match s' with
           | String d s'' => if Ascii.eqb c "_" && is_digit d then let '(a, b) := digits_ s'' in (String d a, b) else ("", s)
           | "" => ("", s)
           end
  end.

(** The digits at the start of [s], which must not start with an underscore *)
Definition digitpart (s : string) : string * string :=
  match s with String c _ => if is_digit c then digits_ s else ("", s) | "" => ("", "") end.

Definition float_exponent (s : string) : option Z :=
  match s with
  | "" => Some 0
  | String c s' =>
      if Ascii.eqb c "e" || Ascii.eqb c "E" then
        let '(neg, t) := sign s' in
        let '(ds, rest) := digitpart t in
        if negb (ds =? "")%string && (rest =? "")%string then Some (signed neg (digits_value 10 ds)) else None
      else None
  end.

Definition py_float (s : string) : exc spec_float :=
  let '(neg, t) := sign (Str.strip s) in
  if bool_decide (Str.lower t ∈ ["inf"; "infinity"]) then Ok (S754_infinity neg)
  else if bool_decide (Str.lower t = "nan") then Ok S754_nan else
  let '(ints, rest) := digitpart t in
  let '(frac, rest) := match rest with String "." rest' => digitpart rest' | _ => ("", rest) end in
  if ((ints =? "") && (frac =? ""))%string then Raise ValueError else
  match float_exponent rest with
  | Some ex => Ok (float_of_decimal neg (digits_value 10 (ints +:+ frac)) (ex - Z.of_nat (String.length frac)))
  | None => Raise ValueError
  end.

(** The dots with digits after them at the start of [s] *)
Fixpoint dotted (fuel : nat) (s : string) : string :=
  match fuel, s with
  | S fuel', String "." s' =>
      let '(ds, rest) := span is_digit s' in if (ds =? "")%string then "" else "." +:+ ds +:+ dotted fuel' rest
  | _, _ => ""
  end.

(** The version after two words in a text, and its first number: the regular expression of
    [get_postgres_version] *)
Definition word_space (s : string) : option string :=
  let '(w, rest) := span (λ c, negb (Str.is_space c)) s in
  match rest with String " " rest' => if (w =? "")%string then None else Some rest' | _ => None end.

Definition version_re (s : string) : option (string * string) :=
  s ← word_space s; s ← word_space s;
  let '(major, rest) := span is_digit s in
  if (major =? "")%string then None else Some (major +:+ dotted (String.length rest) rest, major).

Definition dot_count (s : string) : nat := length (Str.split_on "." s) - 1.

(** [get_postgres_version] and [get_major_version] of [utils] *)
Definition get_postgres_version (bin_dir bin_name : pyval) : check string :=
  binary ← if negb (truthy bin_dir) then mret bin_name
           else match bin_dir, bin_name with
                | VStr d, VStr n => mret (VStr (path_join d n))
                | _, _ => lift (Raise TypeError)
                end;
  match check_output binary with
  | ProgramOSError e => Throws ("Failed to get postgres version: " +:+ e)
  | ProgramError e => Throws e
  | Output version =>
      match version_re version with
      | None => Throws (exn_text AttributeError)
      | Some (v, major) =>
          let major_version := digits_value 10 major in
          Returns (if (major_version <? 10) && (dot_count v <? 2)%nat || (10 <=? major_version) && (dot_count v <? 1)%nat
                   then v +:+ ".0" else v)
      end
  end.

Definition get_major_version (bin_dir bin_name : pyval) : check string :=
  v ← get_postgres_version bin_dir bin_name;
  Returns (match rsplit1 "." v with
           | Some (a, b) => if negb (b =? "")%string && Str.all is_digit b then a else v
           | None => v
           end).

(** The part of [validate_data_dir] for a directory that is not empty and has a [PG_VERSION] *)
Definition check_version (data : pyval) (data_dir : string) : check bool :=
  version ← read_file (path_join data_dir "PG_VERSION");
  let pgversion := Str.strip version in
  f ← lift (py_float pgversion);
  let waldir := if SFleb (float_of_Z 10) f then "pg_wal" else "pg_xlog" in
  if negb (path_isdir (path_join data_dir waldir))
  then Throws ("data dir for the cluster is not empty, but doesn't contain " +:+ String dquote waldir +:+ String dquote " directory")
  else
  bin_dir ← lift (postgresql_get data "bin_dir" VNone);
  bin_name ← lift (get_bin_name data "postgres");
  major_version ← get_major_version bin_dir bin_name;
  if negb (pgversion =? major_version)%string
  then Throws ("data_dir directory postgresql version (" +:+ pgversion +:+ ") doesn't match with 'postgres --version' output ("
               +:+ major_version +:+ ")")
  else Returns true.

Definition validate_data_dir (data data_dir : pyval) : check bool :=
  match data_dir with
  | VStr dir =>
      if (dir =? "")%string then Throws "is an empty string"
      else if path_exists dir && negb (path_isdir dir) then Throws "is not a directory"
      else
      empty ← data_directory_empty dir;
      if empty : bool then Returns true
      else if negb (path_exists (path_join dir "PG_VERSION")) then Throws "doesn't look like a valid data directory"
      else check_version data dir
  | _ => if truthy data_dir then lift (Raise TypeError) else Throws "is an empty string"
  end.

(** [Directory._check_executables], [Directory.validate] *)
Fixpoint _check_executables (contains_executable : list pyval) (path : pyval) : exc (list Result) :=
  match contains_executable with
  | [] => mret []
  | program :: l =>
      found ← which program path;
      rs ← _check_executables l path;
      mret (if found : bool then rs
            else Fails ("does not contain '" +:+ py_str program +:+ "' in '" +:+ py_str (py_or path (VStr "$PATH")) +:+ "'") :: rs)
  end.

Definition directory_validate (contains : list string) (contains_executable : list pyval) (name : string) : exc (list Result) :=
  if (name =? "")%string then _check_executables contains_executable VNone
  else if negb (path_exists name) then mret [Fails ("Directory '" +:+ name +:+ "' does not exist.")]
  else if negb (path_isdir name) then mret [Fails ("'" +:+ name +:+ "' is not a directory.")]
  else
  let missing := List.filter (λ path, negb (path_exists (path_join name path))) contains in
  rs ← _check_executables contains_executable (VStr name);
  mret (map (λ path, Fails ("'" +:+ name +:+ "' does not contain '" +:+ path +:+ "'")) missing ++ rs)%list.

Definition Directory (contains contains_executable : list string) : directory :=
  λ _, directory_validate contains (map VStr contains_executable).

(** [BinDirectory] *)
Definition BINARIES : list string := ["pg_ctl"; "initdb"; "pg_controldata"; "pg_basebackup"; "postgres"; "pg_isready"].

Definition BinDirectory : directory := λ data name,
  names ← mapM (get_bin_name data) BINARIES;
  directory_validate [] names name.

(** ** Numbers and enumerations *)

Record IntValidator := MkIntValidator {
  iv_min : option Z; iv_max : option Z; base_unit : option string; aligned : option Z;
  iv_expected_type : option pytype; raise_assert : bool }.

Definition at_least (o : option Z) (value : Z) : bool := match o with Some m => m <=? value | None => true end.
Definition at_most (o : option Z) (value : Z) : bool := match o with Some m => value <=? m | None => true end.
Definition is_aligned (o : option Z) (value : Z) : bool := match o with Some a => value mod a =? 0 | None => true end.

(** [IntValidator.__call__] up to the assertion *)
Definition int_holds (iv : IntValidator) (value : pyval) : exc bool :=
  r ← parse_int value (match base_unit iv with Some u => VStr u | None => VNone end);
  mret (match (r : option Z) with
        | Some value => at_least (iv_min iv) value && at_most (iv_max iv) value && is_aligned (aligned iv) value
        | None => false
        end).

(** [IntValidator.__call__] *)
Definition int_call (iv : IntValidator) (value : pyval) : check bool :=
  ret ← lift (int_holds iv value);
  (if raise_assert iv then assert_ ret "Wrong value" else mret tt);;
  mret (ret : bool).

Record EnumValidator := MkEnumValidator { allowed_values : list string; case_sensitive : bool; enum_assert : bool }.

(** [EnumValidator.__call__] up to the assertion *)
Definition enum_holds (ev : EnumValidator) (value : pyval) : bool :=
  match value with
  | VStr s => if case_sensitive ev then bool_decide (s ∈ allowed_values ev)
              else CISet.mem s (CISet.of_list (allowed_values ev))
  | _ => false
  end.

(** [EnumValidator.__call__] *)
Definition enum_call (ev : EnumValidator) (value : pyval) : check bool :=
  let ret := enum_holds ev value in
  (if enum_assert ev then assert_ ret "Wrong value" else mret tt);;
  mret (ret : bool).

(** [validate_watchdog_mode]; it returns [None]. *)
Definition validate_watchdog_mode (_ value : pyval) : check bool :=
  assert_ (isinstance value TyStr || isinstance value TyBool) "expected type is not a string";;
  assert_ (match value with
           | VBool b => negb b
           | VStr s => bool_decide (s ∈ ["off"; "automatic"; "required"])
           | _ => false
           end) "Wrong value";;
  mret false.

End leaves.
