(* ===== verification/ValidatorSchema.v ===== *)
(** * The schema of the configuration of the agent ([patroni/validator.py])

    [schema], section by section, as a value of [sch]. *)
From S2P Require Import Prelude PyDict PyVal Utils Validator ValidatorLeaf.

Open Scope string_scope.
Open Scope Z_scope.

Section schema.
Context `{!ValidatorOs}.

Definition opt (name : string) : vkey := Optional name VNone.

(** The functions of the module with the attribute [expected_type] that they are given *)
Definition plain (f : pyval → pyval → check bool) : sch := SCall (Callable None f).
Definition typed (t : pytype) (f : pyval → pyval → check bool) : sch := SCall (Callable (Some t) f).
Definition host_port : sch := plain (λ _, validate_host_port false false).
Definition host_port_list : sch := typed TyList validate_host_port_list.
Definition comma_separated : sch := typed TyStr comma_separated_host_port.
Definition connect_address : sch := typed TyStr validate_connect_address.
Definition host_port_listen : sch := typed TyStr validate_host_port_listen.
Definition host_port_listen_multiple : sch := typed TyStr validate_host_port_listen_multiple_hosts.
Definition data_dir : sch := typed TyStr validate_data_dir.
Definition binary_name : sch := typed TyStr validate_binary_name.

Definition int_validator (iv : IntValidator) : sch := SCall (Callable (iv_expected_type iv) (λ _, int_call iv)).
Definition enum_validator (ev : EnumValidator) : sch := SCall (Callable None (λ _, enum_call ev)).

(** [IntValidator(min, max, raise_assert=True)], without and with [expected_type=int] *)
Definition number (min max : option Z) : sch := int_validator (MkIntValidator min max None None None true).
Definition integer (min max : option Z) : sch := int_validator (MkIntValidator min max None None (Some TyInt) true).
Definition enum (l : list string) (case_sensitive : bool) : sch := enum_validator (MkEnumValidator l case_sensitive true).

Definition str : sch := SType TyStr.
Definition bool_ : sch := SType TyBool.
Definition int : sch := SType TyInt.
Definition dict_ : sch := SType TyDict.

Definition userattributes : sch := SDict [(Key "username", SStr); (opt "password", SStr)].

Definition validate_etcd : sch := SDict [
  (OrKey ["host"; "hosts"; "srv"; "srv_suffix"; "url"; "proxy"], SCase [
    ("host", host_port);
    ("hosts", SOr [comma_separated; SList [host_port]]);
    ("srv", str); ("srv_suffix", str); ("url", str); ("proxy", str)]);
  (opt "protocol", str); (opt "username", str); (opt "password", str);
  (opt "cacert", str); (opt "cert", str); (opt "key", str)].

Definition thread_stack_size : sch := int_validator (MkIntValidator (Some 65536) None (Some "B") (Some 65535) (Some TyInt) true).

Definition schema_log : sch := SDict [
  (opt "type", enum ["plain"; "json"] true);
  (opt "level", enum ["DEBUG"; "INFO"; "WARN"; "WARNING"; "ERROR"; "FATAL"; "CRITICAL"] true);
  (opt "traceback_level", enum ["DEBUG"; "ERROR"] false);
  (opt "format", plain validate_log_format);
  (opt "dateformat", str); (opt "static_fields", dict_); (opt "max_queue_size", int); (opt "dir", str);
  (opt "file_num", int); (opt "file_size", int); (opt "mode", integer (Some 0) (Some 511));
  (opt "loggers", dict_); (opt "deduplicate_heartbeat_logs", bool_)].

Definition schema_ctl : sch := SDict [
  (opt "insecure", bool_); (opt "cacert", str); (opt "certfile", str); (opt "keyfile", str); (opt "keyfile_password", str)].

Definition schema_restapi : sch := SDict [
  (opt "thread_pool_size", integer (Some 5) None);
  (Key "listen", host_port_listen);
  (Key "connect_address", connect_address);
  (opt "authentication", SDict [(Key "username", str); (Key "password", str)]);
  (opt "certfile", str); (opt "keyfile", str); (opt "keyfile_password", str); (opt "cafile", str); (opt "ciphers", str);
  (opt "verify_client", enum ["none"; "optional"; "required"] true);
  (opt "allowlist", SList [str]);
  (opt "allowlist_include_members", bool_);
  (opt "http_extra_headers", dict_); (opt "https_extra_headers", dict_);
  (opt "request_queue_size", integer (Some 0) (Some 4096));
  (opt "server_tokens", enum ["minimal"; "productonly"; "original"] false)].

Definition schema_dcs_parameters : sch := SDict [
  (opt "max_connections", number (Some 1) (Some 262143));
  (opt "max_locks_per_transaction", number (Some 10) (Some 2147483647));
  (opt "max_prepared_transactions", number (Some 0) (Some 262143));
  (opt "max_replication_slots", number (Some 0) (Some 262143));
  (opt "max_wal_senders", number (Some 0) (Some 262143));
  (opt "max_worker_processes", number (Some 0) (Some 262143))].

Definition schema_standby_cluster : sch := SDict [
  (OrKey ["host"; "port"; "restore_command"], SCase [
    ("host", str); ("port", integer None (Some 65535)); ("restore_command", str)]);
  (opt "primary_slot_name", str); (opt "create_replica_methods", SList [str]);
  (opt "archive_cleanup_command", str); (opt "recovery_min_apply_delay", str)].

Definition schema_dcs : sch := SDict [
  (opt "ttl", number (Some 20) None);
  (opt "loop_wait", number (Some 1) None);
  (opt "retry_timeout", number (Some 3) None);
  (opt "maximum_lag_on_failover", number (Some 0) None);
  (opt "maximum_lag_on_syncnode", number (Some (-1)) None);
  (opt "member_slots_ttl", int_validator (MkIntValidator (Some 0) None (Some "s") None None true));
  (opt "postgresql", SDict [
    (opt "parameters", schema_dcs_parameters);
    (opt "use_pg_rewind", bool_); (opt "pg_hba", SList [str]); (opt "pg_ident", SList [str]);
    (opt "pg_ctl_timeout", number (Some 0) None); (opt "use_slots", bool_)]);
  (opt "primary_start_timeout", number (Some 0) None);
  (opt "primary_stop_timeout", number (Some 0) None);
  (opt "standby_cluster", schema_standby_cluster);
  (opt "synchronous_mode", bool_); (opt "synchronous_mode_strict", bool_);
  (opt "synchronous_node_count", number (Some 1) None)].

Definition schema_bootstrap : sch := SDict [
  (Key "dcs", schema_dcs); (opt "initdb", SList [SOr [str; dict_]]); (opt "method", str)].

Definition schema_consul : sch := SDict [
  (OrKey ["host"; "url"], SCase [("host", host_port); ("url", str)]);
  (opt "port", integer None (Some 65535));
  (opt "scheme", str); (opt "token", str); (opt "verify", bool_); (opt "cacert", str); (opt "cert", str); (opt "key", str);
  (opt "dc", str); (opt "checks", SList [str]); (opt "register_service", bool_); (opt "service_tags", SList [str]);
  (opt "service_check_interval", str); (opt "service_check_tls_server_name", str);
  (opt "consistency", enum ["default"; "consistent"; "stale"] true)].

Definition schema_exhibitor : sch := SDict [
  (Key "hosts", SList [str]); (Key "port", integer None (Some 65535)); (opt "poll_interval", integer (Some 1) None)].

Definition schema_raft : sch := SDict [
  (Key "self_addr", connect_address); (opt "bind_addr", host_port_listen); (Key "partner_addrs", host_port_list);
  (opt "data_dir", str); (opt "password", str)].

Definition schema_zookeeper : sch := SDict [
  (Key "hosts", SOr [comma_separated; SList [host_port]]);
  (opt "use_ssl", bool_); (opt "cacert", str); (opt "cert", str); (opt "key", str); (opt "key_password", str);
  (opt "verify", bool_); (opt "set_acls", dict_); (opt "auth_data", dict_)].

Definition schema_kubernetes : sch := SDict [
  (Key "labels", SDict []);
  (opt "bypass_api_service", bool_); (opt "namespace", str); (opt "scope_label", str); (opt "role_label", str);
  (opt "leader_label_value", str); (opt "follower_label_value", str); (opt "standby_leader_label_value", str);
  (opt "tmp_role_label", str); (opt "use_endpoints", bool_);
  (opt "pod_ip", SOr [plain is_ipv4_address; plain is_ipv6_address]);
  (opt "ports", SList [SDict [(Key "name", str); (Key "port", integer None (Some 65535))]]);
  (opt "cacert", str); (opt "retriable_http_codes", SOr [int; SList [int]]); (opt "bootstrap_labels", dict_)].

Definition schema_postgresql : sch := SDict [
  (Key "listen", host_port_listen_multiple);
  (Key "connect_address", connect_address);
  (opt "proxy_address", connect_address);
  (Key "authentication", SDict [
    (Key "replication", userattributes); (Key "superuser", userattributes); (opt "rewind", userattributes)]);
  (Key "data_dir", data_dir);
  (opt "bin_name", SDict [
    (opt "pg_ctl", binary_name); (opt "initdb", binary_name); (opt "pg_controldata", binary_name);
    (opt "pg_basebackup", binary_name); (opt "postgres", binary_name); (opt "pg_isready", binary_name);
    (opt "pg_rewind", binary_name)]);
  (Optional "bin_dir" (VStr ""), SDirectory BinDirectory);
  (opt "parameters", SDict [(opt "unix_socket_directories", str)]);
  (opt "pg_hba", SList [str]); (opt "pg_ident", SList [str]);
  (opt "pg_ctl_timeout", number (Some 0) None); (opt "use_pg_rewind", bool_)].

Definition schema_mysql : sch := SDict [
  (Key "name", str);
  (Key "listen", host_port_listen_multiple);
  (Key "connect_address", connect_address);
  (opt "data_dir", str); (opt "config_dir", str); (opt "bin_dir", str); (opt "parameters", dict_);
  (opt "port", integer (Some 0) (Some 65535)); (opt "server_id", integer (Some 0) None);
  (opt "authentication", SDict [(Key "replication", userattributes); (Key "superuser", userattributes)])].

Definition schema_tags : sch := SDict [
  (AtMostOne ["nofailover"; "failover_priority"], SCase [
    ("nofailover", bool_); ("failover_priority", integer (Some 0) None)]);
  (opt "clonefrom", bool_); (opt "noloadbalance", bool_); (opt "replicatefrom", str);
  (AtMostOne ["nosync"; "sync_priority"], SCase [("nosync", bool_); ("sync_priority", integer (Some 0) None)]);
  (opt "nostream", bool_)].

(** [m.split(".")[-1]] *)
Definition available_dcs : list string := map (λ m, match rsplit1 "." m with Some (_, n) => n | None => m end) dcs_modules.

Definition schema_of_dcs : list (string * sch) := [
  ("consul", schema_consul); ("etcd", validate_etcd); ("etcd3", validate_etcd); ("exhibitor", schema_exhibitor);
  ("raft", schema_raft); ("zookeeper", schema_zookeeper); ("kubernetes", schema_kubernetes)].

Definition schema : sch := SDict [
  (Key "name", str);
  (Key "scope", str);
  (opt "thread_pool_size", integer (Some 5) None);
  (opt "thread_stack_size", thread_stack_size);
  (opt "log", schema_log);
  (opt "ctl", schema_ctl);
  (Key "restapi", schema_restapi);
  (opt "bootstrap", schema_bootstrap);
  (OrKey available_dcs, SCase schema_of_dcs);
  (opt "database", SDict [(Key "type", enum ["postgresql"; "mysql"] true)]);
  (opt "citus", SDict [(Key "database", str); (Key "group", integer (Some 0) None)]);
  (opt "postgresql", schema_postgresql);
  (opt "mysql", schema_mysql);
  (opt "watchdog", SDict [
    (opt "mode", plain validate_watchdog_mode); (opt "device", str); (opt "safety_margin", integer (Some (-1)) None)]);
  (opt "tags", schema_tags)].

End schema.
