(* ===== verification/ValidatorProps.v ===== *)
(** * What an accepted configuration has

    The types and the bounds on which the rest of the agent relies, for every configuration in
    which [schema] finds no error; and configurations on which the validation goes wrong. *)
From S2P Require Import Prelude PyDict PyVal Utils Tags Validator ValidatorSpec ValidatorLeaf ValidatorSchema.

Open Scope string_scope.
Open Scope Z_scope.

(** ** Reading a schema *)

(** An entry is in a list of entries. *)
Ltac entry := solve [repeat first [apply list_elem_of_here | apply list_elem_of_further]].

Lemma dict_conforms_entry conf l d key s : dict_conforms conf l d → (key, s) ∈ l → entry_ok key (value_conforms conf key s) d.
Proof.
  induction l as [|[key' s'] l IH]; [by intros _ ?%elem_of_nil|].
  intros [Hk Hl] [Heq|Hin]%elem_of_cons; [by injection Heq as -> ->|by apply IH].
Qed.

(** The value under a key that is required, or under an optional one without a default *)
Lemma conforms_key l n s v : conforms (SDict l) v → (Key n, s) ∈ l →
  ∃ d x, v = VDict d ∧ Dict.get n d = Some x ∧ conforms s x.
Proof. intros (d & -> & Hd) Hin. destruct (dict_conforms_entry _ _ _ _ _ Hd Hin) as (x & Hx & Hc). eauto. Qed.

Lemma conforms_opt l n s d x : conforms (SDict l) (VDict d) → (opt n, s) ∈ l → Dict.get n d = Some x → conforms s x.
Proof.
  intros (d' & [= <-] & Hd) Hin Hx. pose proof (dict_conforms_entry _ _ _ _ _ Hd Hin) as H. cbn in H. by rewrite Hx in H.
Qed.

Lemma isinstance_str v : isinstance v TyStr = true → ∃ s, v = VStr s.
Proof. destruct v; try done. eauto. Qed.

Section accepted.
Context `{Os : ValidatorOs}.

(** ** What the leaves accept *)

Lemma lift_returns {A} (m : exc A) a : lift m = Returns a → m = Ok a.
Proof. destruct m; [by intros [= ->]|done]. Qed.

(** An integer within its bounds *)
Definition int_ok (iv : IntValidator) (v : pyval) : Prop :=
  ∃ z, parse_int v (match base_unit iv with Some u => VStr u | None => VNone end) = Ok (Some z) ∧
    at_least (iv_min iv) z = true ∧ at_most (iv_max iv) z = true ∧ is_aligned (aligned iv) z = true.

Lemma int_validator_conforms iv v : raise_assert iv = true →
  conforms (int_validator iv) v ↔
  match iv_expected_type iv with Some t => isinstance v t = true | None => True end ∧ int_ok iv v.
Proof.
  intros Ha. cbn. unfold accepts. cbn. unfold int_call, int_holds, int_ok. rewrite Ha. split; intros [Ht Hz]; (split; [done|]).
  - destruct Hz as (_ & b & Hz). destruct (parse_int v _) as [[z|]|e] in Hz |- *; try done. exists z. split; [done|].
    cbn in Hz. destruct (at_least _ z), (at_most _ z), (is_aligned _ z); done.
  - destruct Hz as (z & Hz & H1 & H2 & H3). exists VNone, true. rewrite Hz. cbn [lift mbind check_bind exc_bind mret exc_ret]. by rewrite H1, H2, H3.
Qed.

Lemma number_conforms lo v : conforms (number (Some lo) None) v → ∃ z, parse_int v VNone = Ok (Some z) ∧ lo ≤ z.
Proof.
  intros [_ (z & Hz & Hlo & _)]%int_validator_conforms; [|done]. exists z. split; [done|]. by apply Z.leb_le.
Qed.

Lemma connect_address_conforms v : conforms connect_address v →
  ∃ s host port, v = VStr s ∧ split_host_port s (VInt 1) = Ok (host, port) ∧
    host ∉ ["127.0.0.1"; "0.0.0.0"; "*"; "::1"; "localhost"].
Proof.
  intros [Hs (root & b & H)]. apply isinstance_str in Hs as (s & ->). cbn in H. unfold validate_connect_address in H. cbn [split_value] in H.
  destruct (split_host_port s (VInt 1)) as [[host port]|e] eqn:E; [|by destruct (wrong_value true e)].
  exists s, host, port. split_and!; [done|done|]. intros Hin. by rewrite bool_decide_eq_true_2 in H.
Qed.

(** An address on which the node listens *)
Lemma listen_conforms v : conforms host_port_listen v →
  ∃ s host port, v = VStr s ∧ split_host_port s (VInt 1) = Ok (host, port).
Proof.
  intros [Hs (root & b & H)]. apply isinstance_str in Hs as (s & ->). cbn in H. unfold validate_host_port_listen, validate_host_port in H. cbn [split_value] in H.
  destruct (split_host_port s (VInt 1)) as [[host port]|e] eqn:E; [by exists s, host, port|by destruct (wrong_value false e)].
Qed.

(** ** Tags *)

Lemma parse_int_none : parse_int VNone VNone = Ok None.
Proof. vm_compute. reflexivity. Qed.

Lemma parse_int_bool b : parse_int (VBool b) VNone = Ok None.
Proof. by destruct b; vm_compute. Qed.

(** At most one of the two tags is given, with its type, and both properties read the same from it. *)
Lemma tag_pair_agree (d : dict pyval) b p :
  entry_ok (AtMostOne [b; p]) (value_conforms conforms (AtMostOne [b; p]) (SCase [(b, bool_); (p, integer (Some 0) None)])) d → b ≠ p →
  ∃ r z, _bool_tag d b p = Ok r ∧ _priority_tag d b p = Ok z ∧ 0 ≤ z ∧ (r = true ↔ z = 0).
Proof.
  intros [Hone Hall] Hne. apply Forall_cons in Hall as [Hb Hall]. apply Forall_cons in Hall as [Hp _].
  cbn in Hone. cbn [value_conforms case_conforms] in Hb, Hp.
  rewrite String.eqb_refl in Hb. rewrite (proj2 (String.eqb_neq b p) Hne), String.eqb_refl in Hp.
  unfold _bool_tag, _priority_tag, tags, tags_section, id, vget. cbv zeta.
  destruct (Dict.get b d) as [x|] eqn:Eb; destruct (Dict.get p d) as [y|] eqn:Ep; cbn [from_option id].
  - unfold Dict.mem in Hone. rewrite Eb, Ep in Hone. cbn in Hone. lia.
  - specialize (Hb x eq_refl). cbn in Hb. destruct x as [|b0| | | |]; try done. rewrite parse_int_none.
    exists b0, (if b0 then 0 else 1). by destruct b0.
  - specialize (Hp y eq_refl). apply int_validator_conforms in Hp as [_ (z & Hz & Hlo & _)]; [|done].
    cbn [base_unit] in Hz. rewrite Hz. cbn. exists (z <=? 0), z. apply Z.leb_le in Hlo. rewrite Z.leb_le.
    split_and!; [done|done|done|lia].
  - rewrite parse_int_none. exists false, 1. done.
Qed.

(** The tags of an accepted configuration: a node is barred exactly when its priority is zero. *)
Lemma tags_agree (t : pyval) : conforms schema_tags t → ∃ d, t = VDict d ∧
  (∃ r z, nofailover d = Ok r ∧ failover_priority d = Ok z ∧ 0 ≤ z ∧ (r = true ↔ z = 0)) ∧
  (∃ r z, nosync d = Ok r ∧ sync_priority d = Ok z ∧ 0 ≤ z ∧ (r = true ↔ z = 0)).
Proof.
  intros (d & -> & Hd). exists d. split; [done|].
  split; apply tag_pair_agree; try done; (eapply dict_conforms_entry; [exact Hd|]); entry.
Qed.

(** ** The schema of the agent *)

(** The modules of the DCS are modules that the schema knows, each once. *)
Definition known_dcs : Prop := NoDup available_dcs ∧ available_dcs ⊆ schema_of_dcs.*1.

Lemma schema_wf : known_dcs → wf_sch schema = true.
Proof.
  intros [Hnd Hsub].
  assert (∀ l : list string, NoDup l → l ⊆ schema_of_dcs.*1 →
    bool_decide (NoDup (["name"; "scope"; "thread_pool_size"; "thread_stack_size"; "log"; "ctl"; "restapi"; "bootstrap"] ++ l ++
      ["database"; "citus"; "postgresql"; "mysql"; "watchdog"; "tags"])) = true) as Hnames.
  { intros l Hl Hs. apply bool_decide_eq_true. apply NoDup_app. split; [by apply (bool_decide_unpack _); vm_compute|].
    assert (∀ n, n ∈ l → n ∈ ["consul"; "etcd"; "etcd3"; "exhibitor"; "raft"; "zookeeper"; "kubernetes"]) as Hk by (intros n Hn; by apply Hs in Hn).
    split.
    - intros n Hn [Hl'|Hr]%elem_of_app; [apply Hk in Hl'|]; set_solver.
    - apply NoDup_app. split; [done|]. split; [|by apply (bool_decide_unpack _); vm_compute].
      intros n Hn%Hk Hr. set_solver. }
  unfold schema. cbn [wf_sch]. apply andb_true_iff. split; [exact (Hnames _ Hnd Hsub)|].
  cbn [forallb covered fst snd]. rewrite (bool_decide_eq_true_2 (available_dcs ⊆ _) Hsub). vm_compute. reflexivity.
Qed.

Lemma call_conforms data data' : known_dcs → schema_call schema data = Ok ([], data') → conforms schema data.
Proof.
  intros Hk%schema_wf H. unfold schema_call in H. exc_inv H as r. destruct r as [rs d']. injection H as Hf _.
  eapply conforms_sound; [done|done|]. apply map_eq_nil in Hf. apply forallb_forall. intros r Hr.
  destruct (status r) eqn:E; [done|exfalso]. assert (r ∈ List.filter (λ i, negb (status i)) rs) as Hin
    by (apply list_elem_of_In, List.filter_In; by rewrite E). rewrite Hf in Hin. by apply not_elem_of_nil in Hin.
Qed.

(** The parts of an accepted configuration *)
Lemma restapi_accepted v : conforms schema_restapi v → ∃ api listen lhost lport address host port, v = VDict api ∧
  Dict.get "listen" api = Some (VStr listen) ∧ split_host_port listen (VInt 1) = Ok (lhost, lport) ∧
  Dict.get "connect_address" api = Some (VStr address) ∧ split_host_port address (VInt 1) = Ok (host, port) ∧
  host ∉ ["127.0.0.1"; "0.0.0.0"; "*"; "::1"; "localhost"].
Proof.
  intros Hc. destruct (conforms_key _ "listen" host_port_listen _ Hc ltac:(entry)) as (api & x & -> & Hx & Hl).
  destruct (conforms_key _ "connect_address" connect_address _ Hc ltac:(entry)) as (? & y & [= <-] & Hy & Ha).
  apply listen_conforms in Hl as (l & lh & lp & -> & Hl). apply connect_address_conforms in Ha as (a & h & p & -> & Ha & Hloc).
  by exists api, l, lh, lp, a, h, p.
Qed.

Lemma bootstrap_accepted v : conforms schema_bootstrap v → ∃ bd dcs, v = VDict bd ∧ Dict.get "dcs" bd = Some (VDict dcs) ∧
  ∀ k lo x, (k, lo) ∈ [("ttl", 20); ("loop_wait", 1); ("retry_timeout", 3)] → Dict.get k dcs = Some x →
    ∃ z, parse_int x VNone = Ok (Some z) ∧ lo ≤ z.
Proof.
  intros Hc. destruct (conforms_key _ "dcs" schema_dcs _ Hc ltac:(entry)) as (bd & x & -> & Hx & Hd).
  assert (∃ dcs, x = VDict dcs) as (dcs & ->) by (destruct Hd as (dcs & -> & _); eauto).
  exists bd, dcs. split_and!; [done|done|]. intros k lo y Hin Hy. apply number_conforms. eapply (conforms_opt _ k); [exact Hd| |exact Hy].
  rewrite !elem_of_cons, elem_of_nil in Hin. destruct Hin as [[= -> ->]|[[= -> ->]|[[= -> ->]|[]]]]; entry.
Qed.

Lemma dcs_accepted d : known_dcs → available_dcs ≠ [] → conforms schema (VDict d) →
  ∃ dcs section, dcs ∈ available_dcs ∧ Dict.get dcs d = Some (VDict section).
Proof.
  intros [_ Hk] Hne (d' & [= <-] & Hd). pose proof (dict_conforms_entry _ _ _ (OrKey available_dcs) (SCase schema_of_dcs) Hd ltac:(entry)) as [Hex Hall].
  destruct Hex as [|Hex]; [done|]. apply Exists_exists in Hex as (n & Hn & Hg). unfold given, Dict.mem in Hg.
  destruct (Dict.get n d) as [x|] eqn:E; [|done]. rewrite Forall_forall in Hall. specialize (Hall n Hn x E).
  specialize (Hk n Hn). exists n. cbn in Hk. cbn [value_conforms] in Hall. rewrite !elem_of_cons, elem_of_nil in Hk.
  destruct Hk as [->|[->|[->|[->|[->|[->|[->|[]]]]]]]]; destruct Hall as (section & -> & _); by exists section.
Qed.

(** C20: a configuration in which the validation finds no error is a dictionary with a name and a scope that are
    text; a REST API that listens on and advertises a host and a port, the advertised one not local; the
    section of a DCS, when a DCS module is available; when it has a [bootstrap] section, [ttl], [loop_wait] and
    [retry_timeout] there that are numbers not below their minimum, where they are given; and when it has tags, tags whose
    properties do not raise, where a node is barred from promotion, or from being synchronous, exactly when its
    priority is zero.  (Of the other sections nothing is claimed here; see [bin_dir_unchecked].) *)
Theorem accepted_configuration data data' : known_dcs → schema_call schema data = Ok ([], data') → ∃ d, data = VDict d ∧
  (∃ name scope, Dict.get "name" d = Some (VStr name) ∧ Dict.get "scope" d = Some (VStr scope)) ∧
  (∃ api listen lhost lport address host port, Dict.get "restapi" d = Some (VDict api) ∧
     Dict.get "listen" api = Some (VStr listen) ∧ split_host_port listen (VInt 1) = Ok (lhost, lport) ∧
     Dict.get "connect_address" api = Some (VStr address) ∧ split_host_port address (VInt 1) = Ok (host, port) ∧
     host ∉ ["127.0.0.1"; "0.0.0.0"; "*"; "::1"; "localhost"]) ∧
  (available_dcs ≠ [] → ∃ dcs section, dcs ∈ available_dcs ∧ Dict.get dcs d = Some (VDict section)) ∧
  (∀ b, Dict.get "bootstrap" d = Some b → ∃ bd dcs, b = VDict bd ∧ Dict.get "dcs" bd = Some (VDict dcs) ∧
     ∀ k lo x, (k, lo) ∈ [("ttl", 20); ("loop_wait", 1); ("retry_timeout", 3)] → Dict.get k dcs = Some x →
       ∃ z, parse_int x VNone = Ok (Some z) ∧ lo ≤ z) ∧
  (∀ t, Dict.get "tags" d = Some t → ∃ td, t = VDict td ∧
     (∃ r z, nofailover td = Ok r ∧ failover_priority td = Ok z ∧ 0 ≤ z ∧ (r = true ↔ z = 0)) ∧
     (∃ r z, nosync td = Ok r ∧ sync_priority td = Ok z ∧ 0 ≤ z ∧ (r = true ↔ z = 0))).
Proof.
  intros Hk Hcall. pose proof (call_conforms _ _ Hk Hcall) as Hc.
  destruct (conforms_key _ "name" str _ Hc ltac:(entry)) as (d & x & -> & Hx & (name & ->)%isinstance_str).
  destruct (conforms_key _ "scope" str _ Hc ltac:(entry)) as (? & y & [= <-] & Hy & (scope & ->)%isinstance_str).
  destruct (conforms_key _ "restapi" schema_restapi _ Hc ltac:(entry)) as (? & r & [= <-] & Hr & (api & l & lh & lp & a & h & p & -> & Hrest)%restapi_accepted).
  exists d. split_and!; [done|by exists name, scope|by exists api, l, lh, lp, a, h, p|by intros; apply dcs_accepted|..].
  - intros b Hb. apply bootstrap_accepted. by eapply (conforms_opt _ "bootstrap"); [exact Hc|entry|].
  - intros t Ht. apply tags_agree. by eapply (conforms_opt _ "tags"); [exact Hc|entry|].
Qed.
End accepted.

(** ** Behaviour that the schema does not mean *)

Section surprises.
Context `{Os : ValidatorOs}.

(** A [postgresql.bin_dir] that is not text is never reported. *)
Lemma bin_dir_unchecked ctx v : isinstance v TyStr = false → validate (SDirectory BinDirectory) ctx v = Ok ([], v).
Proof. by destruct v. Qed.

(** [thread_stack_size] must be a multiple of 65535, where 64kB are meant: the default of the agent,
    512kB, is rejected. *)
Lemma stack_size_multiples z : conforms thread_stack_size (VInt z) ↔ 65536 ≤ z ∧ z mod 65535 = 0.
Proof.
  unfold thread_stack_size. rewrite int_validator_conforms by done. cbn [iv_expected_type isinstance]. unfold int_ok. cbn.
  assert (parse_int (VInt z) (VStr "B") = Ok (Some z)) as Hz by (by destruct (parse_int_printed z (VStr "B")) as (_ & ? & _)).
  split.
  - intros [_ (z' & Hp & H1 & _ & H3)]. rewrite Hz in Hp. injection Hp as <-. apply Z.leb_le in H1. by apply Z.eqb_eq in H3.
  - intros [H1 H2]. split; [done|]. exists z. split_and!; [done|by apply Z.leb_le|done|by apply Z.eqb_eq].
Qed.

Lemma default_stack_size_rejected : ¬ conforms thread_stack_size (VInt 524288).
Proof. rewrite stack_size_multiples. intros [_ ?]. done. Qed.

(** With text in place of the dictionary [postgresql.bin_name] the validation itself raises. *)
Lemma bin_name_raises data pg s name : attr_get data "postgresql" (VDict []) = Ok (VDict pg) →
  Dict.get "bin_name" pg = Some (VStr s) → s ≠ "" → BinDirectory data name = Raise AttributeError.
Proof.
  intros Hpg Hb Hs. unfold BinDirectory, BINARIES, get_bin_name, postgresql_get. cbn [mapM]. rewrite Hpg. cbn.
  unfold vget_or. rewrite Hb. cbn. unfold py_or. cbn. by rewrite (proj2 (String.eqb_neq s "") Hs).
Qed.
End surprises.

(** ** An accepted configuration *)

(** A machine on which every directory is empty, every program is found, and only etcd listens. *)
#[local] Instance toy_os : ValidatorOs := {
  path_exists _ := true; path_isdir _ := true; path_isfile _ := false; listdir _ := Returns []; read_file _ := Throws "no file";
  which _ _ := Ok true; check_output _ := Output "postgres (PostgreSQL) 16.2";
  getaddrinfo host _ := Returns [(2, VStr (default "0.0.0.0" host))];
  connect_ex _ _ port := Returns (if port =? 2379 then 0 else 111);
  inet_aton _ := true; inet_pton6 _ := false; ignore_listen_port := false;
  dcs_modules := ["patroni.dcs.consul"; "patroni.dcs.etcd"; "patroni.dcs.etcd3"; "patroni.dcs.exhibitor"; "patroni.dcs.kubernetes";
    "patroni.dcs.raft"; "patroni.dcs.zookeeper"];
  exn_text _ := "error" }.

Definition toy_config : pyval := VDict [
  ("scope", VStr "batman"); ("name", VStr "node1");
  ("restapi", VDict [("listen", VStr "*:8008"); ("connect_address", VStr "10.0.0.1:8008")]);
  ("etcd", VDict [("hosts", VList [VStr "10.0.0.5:2379"])]);
  ("bootstrap", VDict [("dcs", VDict [("ttl", VInt 30); ("loop_wait", VStr "10"); ("retry_timeout", VInt 10)]);
                       ("initdb", VList [VDict [("encoding", VStr "UTF8")]; VStr "data-checksums"])]);
  ("postgresql", VDict [("listen", VStr "*:5432"); ("connect_address", VStr "10.0.0.1:5432"); ("data_dir", VStr "/data");
     ("authentication", VDict [("replication", VDict [("username", VStr "rep")]); ("superuser", VDict [("username", VStr "su")])])]);
  ("tags", VDict [("failover_priority", VInt 0); ("nosync", VBool false)])].

Definition toy_result : pyval := match schema_call schema toy_config with Ok (_, d) => d | Raise _ => VNone end.

(** The default of [bin_dir] is inserted. *)
Example toy_default : match toy_result with VDict d => attr_get (vget "postgresql" d) "bin_dir" VNone | _ => Ok VNone end = Ok (VStr "").
Proof. vm_compute. reflexivity. Qed.

Lemma accepted_configuration_witness : known_dcs ∧ schema_call schema toy_config = Ok ([], toy_result) ∧ ∃ d, toy_config = VDict d.
Proof.
  assert (known_dcs) as Hk by (split; [by apply (bool_decide_unpack _); vm_compute|by apply (bool_decide_unpack _); vm_compute]).
  assert (schema_call schema toy_config = Ok ([], toy_result)) as Hc by (vm_compute; reflexivity).
  split_and!; [done|done|]. destruct (accepted_configuration toy_config toy_result Hk Hc) as (d & Hd & _). by exists d.
Defined.

(** ** The walk and the reference definition *)

(** C39: in a schema whose names have one entry each and whose alternatives say something about every value, the walk over a
    value reports no error only on values that the schema describes - also in the agent's own schema, see [schema_wf] -
    and, when no function of the schema looks at the rest of the configuration (those of [bin_dir] and [data_dir] do), on all
    values that it describes. *)
Theorem validate_iff s ctx v : wf_sch s = true →
  (passes (validate s ctx v) → conforms s v) ∧ (rootless s → conforms s v → passes (validate s ctx v)).
Proof. intros Hwf. split; [intros (rs & v' & Hr & Hok); by eapply conforms_sound|by intros Hroot; apply conforms_complete]. Qed.

Definition toy_etcd : pyval := VDict [("hosts", VStr "10.0.0.5:2379, 10.0.0.6:2379"); ("username", VStr "patroni")].

Lemma validate_iff_witness : wf_sch validate_etcd = true ∧ conforms validate_etcd toy_etcd.
Proof.
  assert (wf_sch validate_etcd = true) as Hw by (vm_compute; reflexivity). split; [done|].
  apply (validate_iff validate_etcd id toy_etcd Hw). eexists _, _. split; vm_compute; reflexivity.
Defined.

(** Errors as the module prints them *)
Example toy_errors :
  fst <$> schema_call validate_etcd (VDict [("host", VStr "10.0.0.5:2380"); ("hosts", VInt 1); ("cert", VBool true)])
  = Ok ["host 10.0.0.5:2380 didn't pass validation: 10.0.0.5:2380 is not reachable"; "hosts 1 is not a string"; "hosts 1 is not a list"; "cert True is not a string"].
Proof. vm_compute. reflexivity. Qed.
