(* ===== verification/Config.v ===== *)
(** * The configuration of the agent ([patroni/config.py], [Config])

    The effective configuration is built from defaults, the dynamic configuration of the DCS and
    the local one (files and environment).  [deepcopy] is the value itself, values being immutable;
    the dictionary that [set_dynamic_configuration] is given is changed in place, and part of its result.
    [postgresql.parameters] of the effective configuration is a [CaseInsensitiveDict], shown by its items.
    Every [ConfigParseError] is an [OtherException]. *)
From S2P Require Import Prelude Lexing PyDict PyVal Effects Json Collections Utils DcsData ValidatorLeaf.

Open Scope string_scope.
Open Scope Z_scope.

(** ** Parameters that are set on the command line ([patroni/postgresql/config.py]) *)

Inductive guc_validator :=
  | _false_validator | _bool_validator | _bool_is_true_validator
  | enum_validator (ev : EnumValidator) | int_validator (iv : IntValidator).

Definition validates (v : guc_validator) (value : pyval) : exc bool :=
  match v with
  | _false_validator => mret false
  | _bool_validator => mret (bool_decide (parse_bool value ≠ None))
  | _bool_is_true_validator => mret (bool_decide (parse_bool value = Some true))
  | enum_validator ev => mret (enum_holds ev value)
  | int_validator iv => int_holds iv value
  end.

Definition int_min (n : Z) : guc_validator := int_validator (MkIntValidator (Some n) None None None None false).

(** [ConfigHandler.CMDLINE_OPTIONS]: default, validator, first version *)
Definition CMDLINE_OPTIONS : CIDict.t (pyval * guc_validator * Z) := CIDict.of_dict [
  ("listen_addresses", (VNone, _false_validator, 90100));
  ("port", (VNone, _false_validator, 90100));
  ("cluster_name", (VNone, _false_validator, 90500));
  ("wal_level", (VStr "hot_standby", enum_validator (MkEnumValidator ["hot_standby"; "replica"; "logical"] false false), 90100));
  ("hot_standby", (VStr "on", _bool_is_true_validator, 90100));
  ("max_connections", (VInt 100, int_min 25, 90100));
  ("max_wal_senders", (VInt 10, int_min 3, 90100));
  ("wal_keep_segments", (VInt 8, int_min 1, 90100));
  ("wal_keep_size", (VStr "128MB", int_validator (MkIntValidator (Some 16) None (Some "MB") None None false), 130000));
  ("max_prepared_transactions", (VInt 0, int_min 0, 90100));
  ("max_locks_per_transaction", (VInt 64, int_min 32, 90100));
  ("track_commit_timestamp", (VStr "off", _bool_validator, 90500));
  ("max_replication_slots", (VInt 10, int_min 4, 90400));
  ("max_worker_processes", (VInt 8, int_min 2, 90400));
  ("wal_log_hints", (VStr "on", _bool_validator, 90400))].

(** ** Dictionaries *)

Fixpoint fold_exc {S A} (f : S → A → exc S) (l : list A) (s : S) : exc S :=
  match l with
  | [] => mret s
  | x :: l => s ← f s x; fold_exc f l s
  end.

(** [v.items()], [v[k] = x], [k in v], [v[k]], [v.setdefault(k, x)] for any value; [k in v] looks for a text in a
    text. *)
Definition items (v : pyval) : exc (dict pyval) := match v with VDict d => Ok d | _ => Raise AttributeError end.
Definition setitem (k : string) (x v : pyval) : exc pyval :=
  match v with VDict d => Ok (VDict (Dict.set k x d)) | _ => Raise TypeError end.
Definition isin (k : string) (v : pyval) : exc bool :=
  match v with
  | VDict d => Ok (Dict.mem k d)
  | VList l => Ok (bool_decide (VStr k ∈ l))
  | VStr s => Ok (has_text k s)
  | _ => Raise TypeError
  end.
Definition getitem (k : string) (v : pyval) : exc pyval :=
  match v with
  | VDict d => match Dict.get k d with Some x => Ok x | None => Raise KeyError end
  | _ => Raise TypeError
  end.
Definition setdefault (k : string) (x v : pyval) : exc (pyval * pyval) :=
  match v with
  | VDict d => match Dict.get k d with Some y => Ok (y, v) | None => Ok (x, VDict (Dict.set k x d)) end
  | _ => Raise AttributeError
  end.

(** A section that is known to be a dictionary *)
Definition section (k : string) (config : dict pyval) : dict pyval := default [] (as_dict (vget k config)).
Definition in_section (k : string) (f : dict pyval → dict pyval) (config : dict pyval) : dict pyval :=
  Dict.set k (VDict (f (section k config))) config.

(** [update] of a [CaseInsensitiveDict] *)
Definition ci_update (params new : dict pyval) : dict pyval :=
  map snd (foldl (λ d kv, CIDict.set kv.1 kv.2 d) (CIDict.of_dict params) new).

(** ** The defaults *)

(** [__DEFAULT_CONFIG] *)
Definition default_parameters : dict pyval :=
  omap (λ kv, if bool_decide (kv.2.1.1 = VNone) || bool_decide (kv.1 ∈ ["wal_keep_segments"; "wal_keep_size"])
              then None else Some (kv.1, kv.2.1.1)) (map snd CMDLINE_OPTIONS).

Definition standby_cluster_keys : list string :=
  ["create_replica_methods"; "host"; "port"; "primary_slot_name"; "restore_command"; "archive_cleanup_command";
   "recovery_min_apply_delay"].

Definition get_default_config : dict pyval := [
  ("ttl", VInt 30); ("loop_wait", VInt 10); ("retry_timeout", VInt 10);
  ("standby_cluster", VDict (map (λ k, (k, VStr "")) standby_cluster_keys));
  ("postgresql", VDict [("use_slots", VBool true); ("parameters", VDict (ci_update [] default_parameters))])].

(** ** Building the effective configuration *)

(** [_process_postgresql_parameters], for one parameter *)
Definition process_parameter (is_local : bool) (pg_params : dict pyval) (kv : string * pyval) : exc (dict pyval) :=
  let '(name, value) := kv in
  match CIDict.get name CMDLINE_OPTIONS with
  | None => mret (Dict.set name value pg_params)
  | Some (_, validator, _) =>
      if is_local then mret pg_params else
      valid ← validates validator value;
      if valid : bool then
        int_val ← match validator with int_validator _ => parse_int value VNone | _ => mret None end;
        mret (Dict.set name (match int_val with Some z => VInt z | None => value end) pg_params)
      else mret pg_params
  end.

(** [_process_postgresql_parameters] *)
Definition _process_postgresql_parameters (parameters : pyval) (is_local : bool) : exc (dict pyval) :=
  match py_or parameters (VDict []) with
  | VDict d => fold_exc (process_parameter is_local) d []
  | _ => Raise OtherException
  end.

Definition update_parameters (value : pyval) (is_local : bool) (config : dict pyval) : exc (dict pyval) :=
  new ← _process_postgresql_parameters value is_local;
  mret (in_section "postgresql" (in_section "parameters" (λ p, ci_update p new)) config).

(** The settings of [postgresql] that are local *)
Definition local_settings : list string :=
  ["connect_address"; "proxy_address"; "listen"; "config_dir"; "data_dir"; "pgpass"; "authentication"].

(** [_safe_copy_dynamic_configuration], for one setting *)
Definition copy_setting (config : dict pyval) (kv : string * pyval) : exc (dict pyval) :=
  let '(name, value) := kv in
  if (name =? "postgresql")%string then
    l ← items (py_or value (VDict []));
    fold_exc (λ config kv,
      if (kv.1 =? "parameters")%string then update_parameters kv.2 false config
      else if bool_decide (kv.1 ∈ local_settings) then mret config
      else mret (in_section "postgresql" (Dict.set kv.1 kv.2) config)) l config
  else if (name =? "standby_cluster")%string then
    l ← items (py_or value (VDict []));
    mret (foldl (λ config kv,
      if bool_decide (kv.1 ∈ standby_cluster_keys) then in_section "standby_cluster" (Dict.set kv.1 kv.2) config else config) config l)
  else if Dict.mem name config then z ← py_int value; mret (Dict.set name (VInt z) config)
  else mret config.

(** [_safe_copy_dynamic_configuration] *)
Definition _safe_copy_dynamic_configuration (dynamic_configuration : dict pyval) : exc (dict pyval) :=
  fold_exc copy_setting dynamic_configuration get_default_config.

(** Whether a [citus] section is kept *)
Definition citus_valid (value : pyval) : bool :=
  match value with
  | VDict d => match vget "group" d, vget "database" d with (VInt _ | VBool _), VStr _ => true | _, _ => false end
  | _ => false
  end.

(** The local configuration, for one setting *)
Definition local_setting (config : dict pyval) (kv : string * pyval) : exc (dict pyval) :=
  let '(name, value) := kv in
  if (name =? "citus")%string then mret (if citus_valid value then Dict.set name value config else config)
  else if (name =? "postgresql")%string then
    l ← items (py_or value (VDict []));
    fold_exc (λ config kv,
      if (kv.1 =? "parameters")%string then update_parameters kv.2 true config
      else if (kv.1 =? "use_slots")%string then mret config
      else mret (in_section "postgresql" (Dict.set kv.1 kv.2) config)) l config
  else if negb (Dict.mem name config) || (name =? "watchdog")%string
  then mret (Dict.set name (if truthy value then value else VDict []) config)
  else mret config.

(** [restapi.auth] and [ctl.auth] *)
Definition add_auth (config : dict pyval) (k : string) : exc (dict pyval) :=
  match Dict.get k config with
  | None => mret config
  | Some v =>
      b ← isin "authentication" v;
      if negb b then mret config else
      auth ← getitem "authentication" v;
      match auth with
      | VDict d =>
          username ← getitem "username" auth;
          password ← getitem "password" auth;
          v ← setitem "auth" (VStr (py_str username +:+ ":" +:+ py_str password)) v;
          mret (Dict.set k v config)
      | _ => Raise TypeError
      end
  end.

(** [exhibitor] inside [zookeeper]; a text and a list have no such [pop]. *)
Definition move_exhibitor (config : dict pyval) : exc (dict pyval) :=
  match Dict.get "zookeeper" config with
  | None => mret config
  | Some v =>
      b ← isin "exhibitor" v;
      if negb b then mret config else
      match v with
      | VDict d => mret (Dict.del "zookeeper" (Dict.set "exhibitor" (vget "exhibitor" d) config))
      | VStr _ => Raise AttributeError
      | _ => Raise TypeError
      end
  end.

(** The section [authentication] of [postgresql], with the parameters of a connection that are allowed *)
Definition _AUTH_ALLOWED_PARAMETERS : list string :=
  ["username"; "password"; "sslmode"; "sslcert"; "sslkey"; "sslpassword"; "sslrootcert"; "sslcrl"; "sslcrldir";
   "gssencmode"; "channel_binding"; "sslnegotiation"].

Definition with_authentication (pg : dict pyval) : dict pyval :=
  if Dict.mem "authentication" pg then pg else
  let pg := Dict.set "use_pg_rewind" (VBool (Dict.mem "pg_rewind" pg)) pg in
  Dict.set "authentication" (VDict (omap (λ u, pair u <$> Dict.get u pg) ["replication"; "superuser"])) pg.

Definition pg_authentication (pg : dict pyval) : exc (dict pyval) :=
  let pg := with_authentication pg in
  let auth := vget "authentication" pg in
  b ← isin "superuser" auth;
  auth ← (if negb b && Dict.mem "pg_rewind" pg then setitem "superuser" (vget "pg_rewind" pg) auth else mret auth);
  l ← items auth;
  l ← mapM (λ kv, d ← items kv.2; mret (kv.1, VDict (List.filter (λ nv, bool_decide (nv.1 ∈ _AUTH_ALLOWED_PARAMETERS)) d))) l;
  mret (Dict.set "authentication" (VDict l) pg).

(** Citus needs synchronous replication. *)
Definition citus_bootstrap (config : dict pyval) : exc (dict pyval) :=
  if negb (Dict.mem "citus" config) then mret config else
  let bootstrap := vget_or "bootstrap" (VDict []) config in
  '(dcs, bootstrap) ← setdefault "dcs" (VDict []) bootstrap;
  '(_, dcs) ← setdefault "synchronous_mode" (VStr "quorum") dcs;
  bootstrap ← setitem "dcs" dcs bootstrap;
  mret (Dict.set "bootstrap" bootstrap config).

Definition present (ks : list string) (config : dict pyval) : dict pyval := omap (λ k, pair k <$> Dict.get k config) ks.

(** The name and the scope of a MySQL node *)
Definition mysql_identity (config : dict pyval) : exc (dict pyval) :=
  match py_or (vget "database" config) (VDict []) with
  | VDict database =>
      if negb (bool_decide (vget_or "type" (VStr "postgresql") database = VStr "mysql")) then mret config else
      match py_or (vget "mysql" config) (VDict []) with
      | VDict [] => mret config
      | VDict mysql =>
          let mysql := Dict.update mysql (present ["name"; "scope"] config) in
          let config := Dict.set "mysql" (VDict mysql) config in
          mret (match Dict.get "name" config, Dict.get "name" mysql with
                | None, Some n => Dict.set "name" n config
                | _, _ => config
                end)
      | _ => Raise AttributeError
      end
  | _ => Raise AttributeError
  end.

(** The name of the node, old style *)
Definition pg_name (config : dict pyval) : dict pyval :=
  match Dict.get "name" config, Dict.get "name" (section "postgresql" config) with
  | None, Some n => Dict.set "name" n config
  | _, _ => config
  end.

(** [_build_effective_configuration] *)
Definition _build_effective_configuration (dynamic_configuration local_configuration : dict pyval) : exc (dict pyval) :=
  config ← _safe_copy_dynamic_configuration dynamic_configuration;
  config ← fold_exc local_setting local_configuration config;
  config ← fold_exc add_auth ["ctl"; "restapi"] config;
  config ← move_exhibitor config;
  pg ← pg_authentication (section "postgresql" config);
  config ← citus_bootstrap (pg_name (Dict.set "postgresql" (VDict pg) config));
  mysql_identity (in_section "postgresql" (λ pg, Dict.update pg (present ["name"; "scope"; "retry_timeout"; "citus"] config)) config).

(** ** Timeouts *)

(** [__get_and_maybe_adjust_int_value], with the default of the setting *)
Definition get_and_maybe_adjust_int_value (param : string) (dflt min_value : Z) : eff (dict pyval) Z := λ config,
  match py_int (vget_or param (VInt dflt) config) with
  | Raise e => (Raise e, config)
  | Ok value => if value <? min_value then (Ok min_value, Dict.set param (VInt min_value) config) else (Ok value, config)
  end.

(** [_validate_and_adjust_timeouts] *)
Definition _validate_and_adjust_timeouts : eff (dict pyval) () :=
  let min_loop_wait := 1 in
  loop_wait ← get_and_maybe_adjust_int_value "loop_wait" 10 min_loop_wait;
  retry_timeout ← get_and_maybe_adjust_int_value "retry_timeout" 10 3;
  ttl ← get_and_maybe_adjust_int_value "ttl" 30 20;
  if ttl <? min_loop_wait + 2 * retry_timeout then
    puts (Dict.set "loop_wait" (VInt min_loop_wait));;
    puts (Dict.set "retry_timeout" (VInt ((ttl - min_loop_wait) / 2)))
  else if ttl <? loop_wait + 2 * retry_timeout then
    puts (Dict.set "loop_wait" (VInt (ttl - 2 * retry_timeout)))
  else mret ().

(** ** The object *)

Record Config := MkConfig {
  _modify_version : pyval;
  _dynamic_configuration : dict pyval;
  environment_configuration : dict pyval;
  config_file : option string;
  _local_configuration : dict pyval;
  effective_configuration : dict pyval;
  _data_dir : string;
  _cache_needs_saving : bool
}.

Definition get (key : string) (dflt : pyval) (c : Config) : pyval := vget_or key dflt (effective_configuration c).
Definition contains (key : string) (c : Config) : bool := Dict.mem key (effective_configuration c).
Definition getkey (key : string) (c : Config) : exc pyval := getitem key (VDict (effective_configuration c)).

(** [set_dynamic_configuration] of a dictionary: whether something has changed, and the dictionary with the
    timeouts adjusted *)
Definition set_dictionary (configuration : dict pyval) (c : Config) : bool * dict pyval * Config :=
  if deep_compare (_dynamic_configuration c) configuration then (false, configuration, c) else
  match _validate_and_adjust_timeouts configuration with
  | (Ok _, configuration) =>
      match _build_effective_configuration configuration (_local_configuration c) with
      | Ok effective => (true, configuration, MkConfig (_modify_version c) configuration (environment_configuration c) (config_file c)
                                                (_local_configuration c) effective (_data_dir c) true)
      | Raise _ => (false, configuration, c)
      end
  | (Raise _, configuration) => (false, configuration, c)
  end.

Definition set_modify_version (v : pyval) (c : Config) : Config :=
  MkConfig v (_dynamic_configuration c) (environment_configuration c) (config_file c) (_local_configuration c)
    (effective_configuration c) (_data_dir c) (_cache_needs_saving c).

(** [set_dynamic_configuration] of what was read from the DCS *)
Definition set_dynamic_configuration (configuration : ClusterConfig) (c : Config) : bool * dict pyval * Config :=
  if bool_decide (_modify_version c = c_modify_version configuration) then (false, c_data configuration, c)
  else set_dictionary (c_data configuration) (set_modify_version (c_modify_version configuration) c).

(** [_validate_contradictory_tags]: the tags that are warned about *)
Definition validate_tag (tags : pyval) (bool_name priority_name : string) : exc (list string) :=
  b ← isin bool_name tags;
  if negb b then mret [] else
  match tags with
  | VDict d =>
      priority_tag ← parse_int (vget priority_name d) VNone;
      mret (match priority_tag with
            | Some p => if (truthy (vget bool_name d) && (0 <? p)) || (negb (truthy (vget bool_name d)) && (p <=? 0)) then [bool_name] else []
            | None => []
            end)
  | _ => Raise AttributeError
  end.

Definition _validate_contradictory_tags (c : Config) : exc (list string) :=
  let tags := get "tags" (VDict []) c in
  a ← validate_tag tags "nofailover" "failover_priority";
  b ← validate_tag tags "nosync" "sync_priority";
  mret (a ++ b)%list.

(** ** Files *)

(** The files that are read, and the parser of YAML *)
Class ConfigFiles := {
  os_exists : string → bool;
  os_isfile : string → bool;
  os_isdir : string → bool;
  os_listdir : string → exc (list string);
  os_read : string → exc string;
  yaml_load : string → exc pyval
}.

Section files.
Context `{!ConfigFiles, !Json}.

Definition ends_with (suffix s : string) : bool := String.prefix (Str.rev suffix) (Str.rev s).

(** [_load_config_path] *)
Definition _load_config_path (path : string) : exc (dict pyval) :=
  files ← (if os_isfile path then mret [path]
           else if os_isdir path then
             l ← os_listdir path;
             mret (omap (λ f, let fname := path_join path f in
                              if (ends_with ".yml" f || ends_with ".yaml" f) && os_isfile fname then Some fname else None) (Str.sorted l))
           else Raise OtherException);
  fold_exc (λ overall_config fname,
    text ← os_read fname;
    config ← yaml_load text;
    match config with
    | VDict config => mret (patch_config overall_config config).1
    | _ => Raise OtherException
    end) files [].

(** [_load_config_file] *)
Definition _load_config_file (environment : dict pyval) (path : string) : exc (dict pyval) :=
  config ← _load_config_path path;
  mret (patch_config config environment).1.

(** [reload_local_configuration]: whether it says that something has changed.  An exception leaves what was
    assigned before. *)
Definition reload_local_configuration (c : Config) : bool * Config :=
  match config_file c with
  | None => (false, c)
  | Some file =>
      match _load_config_file (environment_configuration c) file with
      | Raise _ => (false, c)
      | Ok configuration =>
          if deep_compare (_local_configuration c) configuration then (false, c) else
          match _build_effective_configuration (_dynamic_configuration c) configuration with
          | Raise _ => (false, c)
          | Ok new_configuration =>
              let c := MkConfig (_modify_version c) (_dynamic_configuration c) (environment_configuration c) (config_file c)
                         configuration new_configuration (_data_dir c) (_cache_needs_saving c) in
              (match _validate_contradictory_tags c with Ok _ => true | Raise _ => false end, c)
          end
      end
  end.

Definition CACHE_FILENAME : string := "patroni.dynamic.json".
Definition _cache_file (c : Config) : string := path_join (_data_dir c) CACHE_FILENAME.

(** [_load_cache] *)
Definition _load_cache (c : Config) : Config :=
  if negb (os_isfile (_cache_file c)) then c else
  match (text ← os_read (_cache_file c); loads text) with
  | Ok (VDict d) => (set_dictionary d c).2
  | _ => c
  end.

(** [__init__]: the directory of the data *)
Definition data_dir_of (effective : dict pyval) : exc string :=
  database ← items (vget_or "database" (VDict []) effective);
  db_config ← (let postgresql := vget_or "postgresql" (VDict []) effective in
               match vget_or "type" (VStr "postgresql") database with
               | VStr db_type => mret (vget_or db_type postgresql effective)
               | VList _ | VDict _ => Raise TypeError
               | _ => mret postgresql
               end);
  db_config ← items db_config;
  match vget_or "data_dir" (VStr "") db_config with VStr s => mret s | _ => Raise TypeError end.

(** [__init__], given the settings of the environment and the variable PATRONI_CONFIGURATION; [validator] is
    absent for patronictl. *)
Definition config_init (environment : dict pyval) (config_env : option string) (configfile : string)
    (validator : option (pyval → exc (list string))) : exc Config :=
  let config_file := if negb (configfile =? "")%string && os_exists configfile then Some configfile else None in
  loaded ← (match config_file, config_env with
            | Some file, _ => d ← _load_config_file environment file; mret (VDict d)
            | None, Some ((String _ _) as text) => v ← yaml_load text; mret (py_or v (VDict environment))
            | None, _ => mret (VDict environment)
            end);
  (match validator with
   | Some f => errors ← f loaded; if bool_decide (errors = []) then mret () else Raise OtherException
   | None => mret ()
   end);;
  local ← items loaded;
  effective ← _build_effective_configuration [] local;
  data_dir ← data_dir_of effective;
  let c := MkConfig (VInt (-1)) [] environment config_file local effective data_dir false in
  match validator with
  | Some _ =>
      let c := _load_cache c in
      _validate_contradictory_tags c;;
      mret (MkConfig (_modify_version c) (_dynamic_configuration c) (environment_configuration c) config_file
              (_local_configuration c) (effective_configuration c) (_data_dir c) false)
  | None => mret c
  end.

(** [default_validator] *)
Definition default_validator (conf : pyval) : exc (list string) := if truthy conf then mret [] else Raise OtherException.

End files.

(** ** Saving the dynamic configuration *)

(** The file operations of [save_cache]: permissions after the data directory, [tempfile.mkstemp] (the path),
    [os.fdopen], [json.dump] with the end of the block, [shutil.move], [os.chmod], [os.close], [os.path.exists],
    [os.remove] *)
Class CacheFiles (W : Type) := {
  set_permissions_from : string → W → exc () * W;
  mkstemp : string → string → W → exc string * W;
  fdopen : string → W → exc () * W;
  dump : string → string → W → exc () * W;
  move : string → string → W → exc string * W;
  chmod : string → W → exc () * W;
  close_fd : string → W → exc () * W;
  file_exists : string → W → bool;
  remove_file : string → W → exc () * W
}.

Section save.
Context {W : Type} `{!CacheFiles W, !Json}.

(** The local variables [tmpfile], and the file of the open descriptor [fd] *)
Record saving := MkSaving { tmpfile : option string; fd : option string; disk : W }.

Definition on_disk {A} (op : W → exc A * W) : eff saving A := λ s,
  let '(r, w) := op (disk s) in (r, MkSaving (tmpfile s) (fd s) w).
Definition assign (t f : option string) : eff saving () := puts (λ s, MkSaving t f (disk s)).

(** The [try] *)
Definition save_body (c : Config) (cache_file : string) : eff saving () :=
  on_disk (set_permissions_from (_data_dir c));;
  t ← on_disk (mkstemp CACHE_FILENAME (_data_dir c));
  assign (Some t) (Some t);;
  on_disk (fdopen t);;
  assign (Some t) None;;
  on_disk (dump t (dumps (VDict (_dynamic_configuration c))));;
  t' ← on_disk (move t cache_file);
  assign (Some t') None;;
  on_disk (chmod cache_file).

(** The handler *)
Definition save_failed : eff saving () :=
  s ← gets id;
  (match fd s with Some f => try_except (λ _, true) (on_disk (close_fd f)) (mret ()) | None => mret () end);;
  s ← gets id;
  match tmpfile s with
  | Some t => if negb (t =? "")%string && file_exists t (disk s) then try_except (λ _, true) (on_disk (remove_file t)) (mret ()) else mret ()
  | None => mret ()
  end.

(** [save_cache] *)
Definition save_cache (c : Config) (w : W) : Config * W :=
  if negb (_cache_needs_saving c) then (c, w) else
  let '(r, s) := save_body c (path_join (_data_dir c) CACHE_FILENAME) (MkSaving None None w) in
  match r with
  | Ok _ => (MkConfig (_modify_version c) (_dynamic_configuration c) (environment_configuration c) (config_file c)
              (_local_configuration c) (effective_configuration c) (_data_dir c) false, disk s)
  | Raise _ => (c, disk (save_failed s).2)
  end.
End save.
