(* ===== verification/ConfigEnv.v ===== *)
(** * The configuration in environment variables ([patroni/config.py], [_build_environment_configuration])

    The variables that are read are removed from the environment; what they say has the
    shape of a configuration file. *)
From S2P Require Import Prelude Lexing PyDict PyVal Effects Json Collections Utils DcsData Config.

Open Scope string_scope.
Open Scope Z_scope.

(** The environment, and the configuration that is built, a [defaultdict] of dictionaries *)
Record building := MkBuilding { environ : dict string; built : dict pyval }.

Definition M := eff building.

(** [str.upper] *)
Definition upper_ascii (c : ascii) : ascii :=
  if bool_decide (97 ≤ nat_of_ascii c ≤ 122)%nat then ascii_of_nat (nat_of_ascii c - 32) else c.
Fixpoint upper (s : string) : string :=
  match s with EmptyString => "" | String c s => String (upper_ascii c) (upper s) end.

Definition PATRONI_ENV_PREFIX : string := "PATRONI_".

(** [os.environ.pop(name, None)], [_popenv] *)
Definition pop_variable (name : string) : M (option string) := λ s,
  (Ok (Dict.get name (environ s)), MkBuilding (Dict.del name (environ s)) (built s)).
Definition _popenv (name : string) : M (option string) := pop_variable (PATRONI_ENV_PREFIX +:+ upper name).

(** A variable that is set and not empty *)
Definition nonempty (o : option string) : option string := match o with Some "" => None | o => o end.

(** [ret[k] = v], [ret[first][second] = v], [ret.get(first, {}).pop(second, None)] *)
Definition put (k : string) (v : pyval) : M () := puts (λ s, MkBuilding (environ s) (Dict.set k v (built s))).
Definition put_in (first second : string) (v : pyval) : M () := λ s,
  match vget_or first (VDict []) (built s) with
  | VDict d => (Ok (), MkBuilding (environ s) (Dict.set first (VDict (Dict.set second v d)) (built s)))
  | _ => (Raise TypeError, s)
  end.
Definition pop_in (first second : string) : M pyval := λ s,
  match Dict.get first (built s) with
  | None => (Ok VNone, s)
  | Some (VDict d) => (Ok (vget second d), MkBuilding (environ s) (Dict.set first (VDict (Dict.del second d)) (built s)))
  | Some _ => (Raise AttributeError, s)
  end.

Section environment.
Context `{!ConfigFiles}.

Definition set_value (param : string) : M () :=
  value ← _popenv param;
  match nonempty value with Some v => put param (VStr v) | None => mret () end.

(** [_fix_log_env] *)
Definition _fix_log_env (names : string * string) : M () :=
  value ← _popenv names.2;
  let name := PATRONI_ENV_PREFIX +:+ "LOG_" +:+ upper names.1 in
  match nonempty value with
  | Some v => puts (λ s, if Dict.mem name (environ s) then s else MkBuilding (Dict.set name v (environ s)) (built s))
  | None => mret ()
  end.

(** [_set_section_values] *)
Definition _set_section_values (section : string) (params : list string) : M () :=
  for_each params (λ param,
    value ← _popenv (section +:+ "_" +:+ param);
    match nonempty value with Some v => put_in section param (VStr v) | None => mret () end).

(** The names of programs *)
Definition set_binary (binary : string) : M () :=
  value ← _popenv ("POSTGRESQL_BIN_" +:+ binary);
  match nonempty value with
  | Some v => s ← gets built;
              let names := section "bin_name" (section "postgresql" s) in
              put_in "postgresql" "bin_name" (VDict (Dict.set binary (VStr v) names))
  | None => mret ()
  end.

(** A value that is read back, parsed, and put again unless it is [None] *)
Definition reparse (parse : pyval → exc pyval) (skip : pyval → bool) (place : string * string) : M () :=
  value ← pop_in place.1 place.2;
  if truthy value then
    value ← lift_exc (parse value);
    if skip value then mret () else put_in place.1 place.2 value
  else mret ().

Definition is_none (v : pyval) : bool := bool_decide (v = VNone).
Definition of_bool (o : option bool) : pyval := match o with Some b => VBool b | None => VNone end.
Definition of_int (o : option Z) : pyval := match o with Some z => VInt z | None => VNone end.

Definition parse_bool_value (v : pyval) : exc pyval := mret (of_bool (parse_bool v)).
Definition parse_int_value (v : pyval) : exc pyval := z ← parse_int v VNone; mret (of_int z).

(** [_parse_list], [_parse_dict] *)
Definition load_or_none (text : string) : pyval := match yaml_load text with Ok v => v | Raise _ => VNone end.
Definition _parse_list (value : string) : pyval :=
  load_or_none (if String.prefix "-" (Str.strip value) || has_text "[" value then value else "[" +:+ value +:+ "]").
Definition _parse_dict (value : string) : pyval :=
  load_or_none (if String.prefix "{" (Str.strip value) then value else "{" +:+ value +:+ "}").
Definition on_text (f : string → pyval) (v : pyval) : exc pyval := match v with VStr s => mret (f s) | _ => Raise AttributeError end.

(** [re.search] of [%\(\w+\)] *)
Definition is_word (c : ascii) : bool :=
  let n := nat_of_ascii c in
  is_digit c || bool_decide (65 ≤ n ≤ 90)%nat || bool_decide (97 ≤ n ≤ 122)%nat || (n =? 95)%nat.
Fixpoint has_log_field (s : string) : bool :=
  match s with
  | EmptyString => false
  | String c s' =>
      match s with
      | String "%" (String "(" rest) => let '(w, after) := span is_word rest in negb (w =? "")%string && String.prefix ")" after
      | _ => false
      end || has_log_field s'
  end.

Definition parse_logformat : M () :=
  s ← gets built;
  match vget "format" (section "log" s) with
  | VStr f => if negb (f =? "")%string && negb (has_log_field f)
              then let v := _parse_list f in if truthy v then put_in "log" "format" v else mret ()
              else mret ()
  | _ => mret ()
  end.

(** [_get_auth] *)
Definition _get_auth (name : string) (params : list string) : M (dict pyval) :=
  (fix go (l : list string) (d : dict pyval) : M (dict pyval) :=
     match l with
     | [] => mret d
     | param :: l => value ← _popenv (name +:+ "_" +:+ param);
                     go l (match nonempty value with Some v => Dict.set param (VStr v) d | None => d end)
     end) params [].

Definition user_password : list string := ["username"; "password"].

Definition section_auth (section : string) : M () :=
  auth ← _get_auth section user_password;
  if bool_decide (auth = []) then mret () else put_in section "authentication" (VDict auth).

Fixpoint pg_auth (l : list string) (authentication : dict pyval) : M (dict pyval) :=
  match l with
  | [] => mret authentication
  | user_type :: l =>
      entry ← _get_auth user_type _AUTH_ALLOWED_PARAMETERS;
      pg_auth l (if bool_decide (entry = []) then authentication else Dict.set user_type (VDict entry) authentication)
  end.

(** ** The variables of the DCS *)

Definition dcs_suffixes : list string :=
  ["HOST"; "HOSTS"; "PORT"; "USE_PROXIES"; "PROTOCOL"; "SRV"; "SRV_SUFFIX"; "URL"; "PROXY"; "CACERT"; "CERT"; "KEY"; "VERIFY";
   "TOKEN"; "CHECKS"; "DC"; "CONSISTENCY"; "REGISTER_SERVICE"; "SERVICE_CHECK_INTERVAL"; "SERVICE_CHECK_TLS_SERVER_NAME";
   "SERVICE_TAGS"; "NAMESPACE"; "CONTEXT"; "USE_ENDPOINTS"; "SCOPE_LABEL"; "ROLE_LABEL"; "POD_IP"; "PORTS"; "LABELS";
   "BYPASS_API_SERVICE"; "RETRIABLE_HTTP_CODES"; "KEY_PASSWORD"; "USE_SSL"; "SET_ACLS"; "GROUP"; "DATABASE";
   "LEADER_LABEL_VALUE"; "FOLLOWER_LABEL_VALUE"; "STANDBY_LEADER_LABEL_VALUE"; "TMP_ROLE_LABEL"; "AUTH_DATA"; "BOOTSTRAP_LABELS"].

(** [param[len(prefix):].split('_', 1)] *)
Definition name_and_suffix (param : string) : string * string := default (param, "") (cut "_" param).

(** The value of a variable; [None] when it is skipped *)
Definition dcs_value (name suffix value : string) : exc (option pyval) :=
  if (name =? "CITUS")%string then
    if (suffix =? "GROUP")%string then v ← parse_int_value (VStr value); mret (Some v)
    else if (suffix =? "DATABASE")%string then mret (Some (VStr value)) else mret None
  else if (suffix =? "PORT")%string then
    if (value =? "")%string then mret (Some (VStr "")) else v ← parse_int_value (VStr value); mret (Some v)
  else if bool_decide (suffix ∈ ["HOSTS"; "PORTS"; "CHECKS"; "SERVICE_TAGS"; "RETRIABLE_HTTP_CODES"]) then
    mret (Some (if (value =? "")%string then VStr "" else _parse_list value))
  else if bool_decide (suffix ∈ ["LABELS"; "SET_ACLS"; "AUTH_DATA"; "BOOTSTRAP_LABELS"]) then mret (Some (_parse_dict value))
  else if bool_decide (suffix ∈ ["USE_PROXIES"; "REGISTER_SERVICE"; "USE_ENDPOINTS"; "BYPASS_API_SERVICE"; "VERIFY"]) then
    mret (Some (of_bool (parse_bool (VStr value))))
  else mret (Some (VStr value)).

Definition set_dcs_variable (param : string) : M () :=
  match cut PATRONI_ENV_PREFIX param with
  | Some ("", rest) =>
      let '(name, suffix) := name_and_suffix rest in
      if bool_decide (suffix ∈ dcs_suffixes) && negb (name =? "")%string then
        value ← pop_variable param;
        v ← lift_exc (dcs_value name suffix (default "" value));
        match v with
        | Some v => if is_none v then mret () else put_in (Str.lower name) (Str.lower suffix) v
        | None => mret ()
        end
      else mret ()
  | _ => mret ()
  end.

Definition dcs_auth (dcs : string) : M () :=
  s ← gets built;
  match Dict.get dcs s with
  | None => mret ()
  | Some (VDict d) => auth ← _get_auth dcs user_password; put dcs (VDict (Dict.update d auth))
  | Some _ => lift_exc (Raise AttributeError)
  end.

(** [_build_environment_configuration] *)
Definition build_environment : M () :=
  for_each ["name"; "namespace"; "scope"; "thread_pool_size"; "thread_stack_size"] set_value;;
  for_each [("level", "loglevel"); ("format", "logformat"); ("dateformat", "log_datefmt")] _fix_log_env;;
  _set_section_values "restapi" ["listen"; "connect_address"; "certfile"; "keyfile"; "keyfile_password"; "cafile"; "ciphers";
    "verify_client"; "http_extra_headers"; "https_extra_headers"; "allowlist"; "allowlist_include_members";
    "request_queue_size"; "server_tokens"];;
  _set_section_values "ctl" ["insecure"; "cacert"; "certfile"; "keyfile"; "keyfile_password"];;
  _set_section_values "postgresql" ["listen"; "connect_address"; "proxy_address"; "config_dir"; "data_dir"; "pgpass"; "bin_dir"];;
  _set_section_values "log" ["type"; "level"; "traceback_level"; "format"; "dateformat"; "static_fields"; "max_queue_size"; "dir";
    "mode"; "file_size"; "file_num"; "loggers"; "deduplicate_heartbeat_logs"];;
  _set_section_values "raft" ["data_dir"; "self_addr"; "partner_addrs"; "password"; "bind_addr"];;
  for_each ["pg_ctl"; "initdb"; "pg_controldata"; "pg_basebackup"; "postgres"; "pg_isready"; "pg_rewind"] set_binary;;
  for_each [("restapi", "allowlist_include_members"); ("ctl", "insecure"); ("log", "deduplicate_heartbeat_logs")]
    (reparse parse_bool_value is_none);;
  for_each [("restapi", "request_queue_size"); ("restapi", "thread_pool_size"); ("log", "max_queue_size"); ("log", "file_size");
            ("log", "file_num"); ("log", "mode")] (reparse parse_int_value is_none);;
  for_each [("raft", "partner_addrs"); ("restapi", "allowlist")] (reparse (on_text _parse_list) (λ v, negb (truthy v)));;
  parse_logformat;;
  for_each [("restapi", "http_extra_headers"); ("restapi", "https_extra_headers"); ("log", "static_fields"); ("log", "loggers")]
    (reparse (on_text _parse_dict) (λ v, negb (truthy v)));;
  for_each ["ctl"; "restapi"] section_auth;;
  authentication ← pg_auth ["replication"; "superuser"; "rewind"] [];
  (if bool_decide (authentication = []) then mret () else put_in "postgresql" "authentication" (VDict authentication));;
  params ← gets (λ s, Dict.keys (environ s));
  for_each params set_dcs_variable;;
  for_each ["etcd"; "etcd3"] dcs_auth.

Definition _build_environment_configuration (env : dict string) : exc (dict pyval) * dict string :=
  let '(r, s) := build_environment (MkBuilding env []) in
  (match r with Ok _ => Ok (built s) | Raise e => Raise e end, environ s).

End environment.

(** ** What is left of the environment *)

Section kept.
Context `{!ConfigFiles}.

(** Variables of other programs stay as they are. *)
Definition keeps_others {A} (m : M A) : Prop := ∀ s k, String.prefix PATRONI_ENV_PREFIX k = false →
  Dict.get k (environ (m s).2) = Dict.get k (environ s).

Lemma others_ret {A} (a : A) : keeps_others (eff_ret building A a).
Proof. done. Qed.
Lemma others_bind {A B} (m : M A) (f : A → M B) : keeps_others m → (∀ a, keeps_others (f a)) → keeps_others (eff_bind building A B f m).
Proof.
  intros Hm Hf s k Hk. unfold eff_bind. specialize (Hm s k Hk). destruct (m s) as [[a|e] s']; [|done]. by rewrite (Hf a s' k Hk).
Qed.
Lemma others_each {A} (l : list A) (f : A → M ()) : (∀ x, keeps_others (f x)) → keeps_others (for_each l f).
Proof. intros Hf. induction l as [|x l IH]; [apply others_ret|]. apply others_bind; [apply Hf|done]. Qed.
Lemma others_gets {A} (f : building → A) : keeps_others (gets f).
Proof. done. Qed.
Lemma others_lift {A} (r : exc A) : keeps_others (lift_exc r).
Proof. done. Qed.
Lemma others_put k v : keeps_others (put k v).
Proof. done. Qed.
Lemma others_put_in a b v : keeps_others (put_in a b v).
Proof. intros s k Hk. unfold put_in. by destruct (vget_or a (VDict []) (built s)). Qed.
Lemma others_pop_in a b : keeps_others (pop_in a b).
Proof. intros s k Hk. unfold pop_in. by destruct (Dict.get a (built s)) as [[]|]. Qed.

Lemma prefixed s : String.prefix PATRONI_ENV_PREFIX (PATRONI_ENV_PREFIX +:+ s) = true.
Proof. cbn. by destruct s. Qed.

Lemma others_pop_variable name : String.prefix PATRONI_ENV_PREFIX name = true → keeps_others (pop_variable name).
Proof. intros Hn s k Hk. cbn. rewrite Dict.get_del_ne; [done|]. intros ->. congruence. Qed.
Lemma others_popenv name : keeps_others (_popenv name).
Proof. apply others_pop_variable, prefixed. Qed.

Ltac others_step := first
  [ apply others_bind; [|intros ?] | apply others_popenv | apply others_ret | apply others_gets | apply others_lift | apply others_put
  | apply others_put_in | apply others_pop_in | apply others_each; intros ? | case_match ].
Ltac others := repeat others_step.

Lemma others_get_auth name params : keeps_others (_get_auth name params).
Proof. unfold _get_auth. generalize ([] : dict pyval). induction params as [|p l IH]; intros d; [apply others_ret|]. others; apply IH. Qed.

Lemma others_pg_auth l d : keeps_others (pg_auth l d).
Proof. revert d. induction l as [|u l IH]; intros d; [apply others_ret|]. apply others_bind; [apply others_get_auth|]. intros e. apply IH. Qed.

Lemma others_fix_log names : keeps_others (_fix_log_env names).
Proof.
  apply others_bind; [apply others_popenv|]. intros v. destruct (nonempty v) as [x|]; [|apply others_ret]. intros s k Hk.
  unfold puts. cbn [snd].
  destruct (Dict.mem _ (environ s)); [done|]. cbn. rewrite Dict.get_set_ne; [done|].
  intros ->. by rewrite prefixed in Hk.
Qed.

Lemma cut_empty p s rest : cut p s = Some ("", rest) → String.prefix p s = true.
Proof.
  intros Hc. destruct (String.prefix p s) eqn:E; [done|]. destruct s as [|c s]; cbn in Hc; cbn in E; rewrite E in Hc; [done|].
  by destruct (cut p s) as [[]|].
Qed.

Lemma others_dcs param : keeps_others (set_dcs_variable param).
Proof.
  unfold set_dcs_variable. destruct (cut PATRONI_ENV_PREFIX param) as [[[|c b] rest]|] eqn:E; try apply others_ret.
  destruct (name_and_suffix rest) as [name suffix]. case_match; [|apply others_ret].
  apply others_bind; [apply others_pop_variable; by eapply cut_empty|]. intros v. others.
Qed.

Lemma others_set_value param : keeps_others (set_value param).
Proof. unfold set_value. others. Qed.
Lemma others_section sec params : keeps_others (_set_section_values sec params).
Proof. unfold _set_section_values. others. Qed.
Lemma others_binary b : keeps_others (set_binary b).
Proof. unfold set_binary. others. Qed.
Lemma others_reparse parse skip place : keeps_others (reparse parse skip place).
Proof. unfold reparse. others. Qed.
Lemma others_logformat : keeps_others parse_logformat.
Proof. unfold parse_logformat. others. Qed.
Lemma others_section_auth sec : keeps_others (section_auth sec).
Proof. apply others_bind; [apply others_get_auth|]. intros a. others. Qed.
Lemma others_dcs_auth dcs : keeps_others (dcs_auth dcs).
Proof.
  unfold dcs_auth. apply others_bind; [apply others_gets|]. intros s. destruct (Dict.get dcs s) as [[| | | | |d]|]; try apply others_lift.
  apply others_bind; [apply others_get_auth|]. intros a. apply others_put.
Qed.

(** Only variables whose names begin with PATRONI_ are taken out of the environment, or are set. *)
Lemma environment_others_kept env k : String.prefix PATRONI_ENV_PREFIX k = false →
  Dict.get k (_build_environment_configuration env).2 = Dict.get k env.
Proof.
  intros Hk. unfold _build_environment_configuration.
  assert (keeps_others build_environment) as Hb.
  { unfold build_environment. repeat lazymatch goal with |- keeps_others (mbind _ _) => apply others_bind; [|intros ?] end;
      lazymatch goal with
      | |- keeps_others (_set_section_values _ _) => apply others_section
      | |- keeps_others (for_each _ set_value) => apply others_each; exact others_set_value
      | |- keeps_others (for_each _ _fix_log_env) => apply others_each; exact others_fix_log
      | |- keeps_others (for_each _ set_binary) => apply others_each; exact others_binary
      | |- keeps_others (for_each _ (reparse _ _)) => apply others_each; exact (others_reparse _ _)
      | |- keeps_others (for_each _ section_auth) => apply others_each; exact others_section_auth
      | |- keeps_others (for_each _ set_dcs_variable) => apply others_each; exact others_dcs
      | |- keeps_others (for_each _ dcs_auth) => apply others_each; exact others_dcs_auth
      | |- keeps_others parse_logformat => exact others_logformat
      | |- keeps_others (pg_auth _ _) => apply others_pg_auth
      | |- keeps_others (gets _) => apply others_gets
      | |- keeps_others (if ?b then _ else _) => destruct b; [apply others_ret|apply others_put_in]
      end. }
  specialize (Hb (MkBuilding env []) k Hk). by destruct (build_environment (MkBuilding env [])) as [r s].
Qed.
End kept.
