(* ===== verification/ConfigProps.v ===== *)
(** * Properties of the configuration of the agent

    [config_run]: the states of [Config] over its life, with files and a DCS that hold anything.  In all of
    them the timeouts keep the rule that the leader lease depends on, the parameters that Patroni manages
    are valid, and the settings of the node itself are those of its local configuration. *)
From S2P Require Import Prelude Lexing PyDict PyVal Effects Json Collections Utils DcsData ValidatorLeaf Config.

Open Scope string_scope.
Open Scope Z_scope.

(** ** Folds *)

Lemma fold_exc_inv {S A} (I : S → Prop) (f : S → A → exc S) l s s' :
  (∀ s x s', x ∈ l → I s → f s x = Ok s' → I s') → I s → fold_exc f l s = Ok s' → I s'.
Proof.
  revert s. induction l as [|x l IH]; intros s Hf Hs; cbn; [by intros [= <-]|]. intros H.
  exc_inv H as s1. apply (IH s1); [|by eapply Hf; [left| |]|done]. intros; eapply Hf; [by right|done..].
Qed.

Lemma fold_exc_app {S A} (f : S → A → exc S) l l' s : fold_exc f (l ++ l') s = (s ← fold_exc f l s; fold_exc f l' s).
Proof. revert s. induction l as [|x l IH]; intros s; cbn; [done|]. by destruct (f s x); cbn. Qed.

Lemma foldl_inv {S A} (I : S → Prop) (f : S → A → S) l s : (∀ s x, I s → I (f s x)) → I s → I (foldl f s l).
Proof. intros Hf. revert s. induction l as [|x l IH]; intros s Hs; [done|]. by apply IH, Hf. Qed.

(** A key that [f] does not touch *)
Lemma get_in_section_ne k n f config : k ≠ n → Dict.get k (in_section n f config) = Dict.get k config.
Proof. intros Hk. unfold in_section. by rewrite Dict.get_set_ne. Qed.
Lemma section_in_section n f config : section n (in_section n f config) = f (section n config).
Proof. unfold in_section, section at 1. unfold vget. by rewrite Dict.get_set_eq. Qed.
Lemma section_ne k n v config : k ≠ n → section k (Dict.set n v config) = section k config.
Proof. intros Hk. unfold section, vget. by rewrite Dict.get_set_ne. Qed.
Lemma section_set k d config : section k (Dict.set k (VDict d) config) = d.
Proof. unfold section, vget. by rewrite Dict.get_set_eq. Qed.

(** ** The timeouts of the effective configuration *)

Definition timeouts : list string := ["ttl"; "loop_wait"; "retry_timeout"].

(** A step that leaves the timeouts as they are *)
Definition keeps_timeouts (c c' : dict pyval) : Prop := ∀ k, k ∈ timeouts → Dict.get k c' = Dict.get k c.

Lemma keeps_refl c : keeps_timeouts c c.
Proof. by intros k Hk. Qed.
Lemma keeps_trans c1 c2 c3 : keeps_timeouts c1 c2 → keeps_timeouts c2 c3 → keeps_timeouts c1 c3.
Proof. intros H1 H2 k Hk. by rewrite H2, H1. Qed.
Lemma keeps_set k v c : k ∉ timeouts → keeps_timeouts c (Dict.set k v c).
Proof. intros Hk k' Hk'. rewrite Dict.get_set_ne; [done|]. by intros ->. Qed.
Lemma keeps_del k c : k ∉ timeouts → keeps_timeouts c (Dict.del k c).
Proof. intros Hk k' Hk'. rewrite Dict.get_del_ne; [done|]. by intros ->. Qed.
Lemma keeps_section k f c : k ∉ timeouts → keeps_timeouts c (in_section k f c).
Proof. apply keeps_set. Qed.

Ltac not_timeout := vm_compute; intros Hin; repeat (apply elem_of_cons in Hin as [Hin|Hin]; [discriminate|]); by apply elem_of_nil in Hin.

Lemma keeps_update_parameters v b c c' : update_parameters v b c = Ok c' → keeps_timeouts c c'.
Proof. unfold update_parameters. intros H. exc_inv H as new. injection H as <-. apply keeps_section. not_timeout. Qed.

Lemma keeps_fold {A} (f : dict pyval → A → exc (dict pyval)) l c c' :
  (∀ c x c', x ∈ l → f c x = Ok c' → keeps_timeouts c c') → fold_exc f l c = Ok c' → keeps_timeouts c c'.
Proof.
  intros Hf. apply (fold_exc_inv (keeps_timeouts c)); [|apply keeps_refl].
  intros s x s' Hx Hs Hfx. eapply keeps_trans; [done|]. by eapply Hf.
Qed.

(** What the dynamic configuration says about a timeout *)
Lemma copy_setting_get c kv c' k : k ∈ timeouts → Dict.mem k c = true → copy_setting c kv = Ok c' →
  Dict.mem k c' = true ∧
  if decide (kv.1 = k) then ∃ z, py_int kv.2 = Ok z ∧ Dict.get k c' = Some (VInt z) else Dict.get k c' = Dict.get k c.
Proof.
  destruct kv as [n v]. intros Hk Hm H. cbn [fst snd].
  assert (∀ c', keeps_timeouts c c' → n ≠ k →
    Dict.mem k c' = true ∧ if decide (n = k) then ∃ z, py_int v = Ok z ∧ Dict.get k c' = Some (VInt z) else Dict.get k c' = Dict.get k c) as Hsame.
  { intros c1 Hc1 Hn. rewrite decide_False by done. unfold Dict.mem in *. by rewrite (Hc1 k Hk). }
  unfold copy_setting in H. destruct (String.eqb_spec n "postgresql") as [->|Hpg].
  { exc_inv H as l. apply Hsame; [|intros <-; revert Hk; not_timeout]. eapply keeps_fold; [|exact H].
    intros s [n' v'] s' _ Hs. cbn in Hs. destruct (n' =? "parameters")%string; [by eapply keeps_update_parameters|].
    case_bool_decide; injection Hs as <-; [apply keeps_refl|apply keeps_section; not_timeout]. }
  destruct (String.eqb_spec n "standby_cluster") as [->|Hsb].
  { exc_inv H as l. injection H as <-. apply Hsame; [|intros <-; revert Hk; not_timeout].
    apply (foldl_inv (keeps_timeouts c)); [|apply keeps_refl]. intros s x Hs. eapply keeps_trans; [exact Hs|].
    case_bool_decide; [apply keeps_section; not_timeout|apply keeps_refl]. }
  destruct (Dict.mem n c) eqn:En.
  - exc_inv H as z. injection H as <-. destruct (decide (n = k)) as [->|Hn].
    + unfold Dict.mem. rewrite Dict.get_set_eq. split; [done|]. eauto.
    + unfold Dict.mem in *. by rewrite Dict.get_set_ne.
  - injection H as <-. apply Hsame; [apply keeps_refl|]. intros ->. congruence.
Qed.

Lemma copy_get dyn c c' k : k ∈ timeouts → Dict.wf dyn → Dict.mem k c = true → fold_exc copy_setting dyn c = Ok c' →
  match Dict.get k dyn with Some v => ∃ z, py_int v = Ok z ∧ Dict.get k c' = Some (VInt z) | None => Dict.get k c' = Dict.get k c end.
Proof.
  intros Hk. revert c. induction dyn as [|[n v] dyn IH]; intros c Hwf Hm H; [by injection H as <-|].
  cbn in H. exc_inv H as c1. apply (copy_setting_get c (n, v) c1 k Hk Hm) in H0 as [Hm1 Hg]. cbn [fst snd] in Hg.
  unfold Dict.wf, Dict.keys in Hwf. cbn in Hwf. apply NoDup_cons in Hwf as [Hni Hwf].
  specialize (IH c1 Hwf Hm1 H). cbn [Dict.get]. destruct (decide (k = n)) as [->|Hn].
  - rewrite decide_True in Hg by done. assert (Dict.get n dyn = None) as Hd by (by apply Dict.get_None).
    rewrite Hd in IH. by rewrite IH.
  - rewrite decide_False in Hg by done. destruct (Dict.get k dyn); [done|]. by rewrite IH.
Qed.

(** The local configuration and what follows do not change the timeouts. *)
Lemma keeps_local c kv c' : (∀ k, k ∈ timeouts → Dict.mem k c = true) → local_setting c kv = Ok c' → keeps_timeouts c c'.
Proof.
  destruct kv as [n v]. intros Hm H. unfold local_setting in H. destruct (String.eqb_spec n "citus") as [->|_].
  { injection H as <-. destruct (citus_valid v); [apply keeps_set; not_timeout|apply keeps_refl]. }
  destruct (String.eqb_spec n "postgresql") as [->|_].
  { exc_inv H as l. eapply keeps_fold; [|exact H]. intros s [n' v'] s' _ Hs. cbn in Hs.
    destruct (n' =? "parameters")%string; [by eapply keeps_update_parameters|].
    destruct (n' =? "use_slots")%string; injection Hs as <-; [apply keeps_refl|apply keeps_section; not_timeout]. }
  destruct (negb (Dict.mem n c) || (n =? "watchdog")%string) eqn:En; injection H as <-; [|apply keeps_refl].
  apply keeps_set. intros Hn. rewrite (Hm n Hn) in En. cbn in En. apply String.eqb_eq in En as ->. revert Hn. not_timeout.
Qed.

Lemma mem_keeps c c' : keeps_timeouts c c' → (∀ k, k ∈ timeouts → Dict.mem k c = true) → ∀ k, k ∈ timeouts → Dict.mem k c' = true.
Proof. intros Hk Hm k Hin. unfold Dict.mem in *. rewrite Hk by done. by apply Hm. Qed.

Lemma keeps_local_all local c c' : (∀ k, k ∈ timeouts → Dict.mem k c = true) → fold_exc local_setting local c = Ok c' → keeps_timeouts c c'.
Proof.
  intros Hm H. enough (keeps_timeouts c c' ∧ ∀ k, k ∈ timeouts → Dict.mem k c' = true) by tauto.
  revert H. apply (fold_exc_inv (λ c', keeps_timeouts c c' ∧ ∀ k, k ∈ timeouts → Dict.mem k c' = true)); [|split; [apply keeps_refl|done]].
  intros s x s' _ [Hs Hms] Hx. apply keeps_local in Hx; [|done]. split; [by eapply keeps_trans|by eapply mem_keeps].
Qed.

Lemma keeps_auth c k c' : k ∈ ["ctl"; "restapi"] → add_auth c k = Ok c' → keeps_timeouts c c'.
Proof.
  intros Hk H. unfold add_auth in H. destruct (Dict.get k c) as [v|]; [|injection H as <-; apply keeps_refl].
  exc_inv H as b. destruct b; cbn in H; [|injection H as <-; apply keeps_refl]. exc_inv H as auth.
  destruct auth; try done. exc_inv H as u. exc_inv H as p. exc_inv H as v'. injection H as <-.
  apply keeps_set. intros Hin. revert Hk. revert Hin. set_unfold. naive_solver.
Qed.

Lemma keeps_exhibitor c c' : move_exhibitor c = Ok c' → keeps_timeouts c c'.
Proof.
  unfold move_exhibitor. intros H. destruct (Dict.get "zookeeper" c) as [v|]; [|injection H as <-; apply keeps_refl].
  exc_inv H as b. destruct b; cbn in H; [|injection H as <-; apply keeps_refl]. destruct v; try done. injection H as <-.
  eapply keeps_trans; [apply keeps_set|apply keeps_del]; not_timeout.
Qed.

Lemma keeps_pg_name c : keeps_timeouts c (pg_name c).
Proof. unfold pg_name. destruct (Dict.get "name" c), (Dict.get "name" (section "postgresql" c)); try apply keeps_refl. apply keeps_set. not_timeout. Qed.

Lemma keeps_citus c c' : citus_bootstrap c = Ok c' → keeps_timeouts c c'.
Proof.
  unfold citus_bootstrap. intros H. destruct (negb _); [injection H as <-; apply keeps_refl|]. exc_inv H as p. destruct p as [dcs bt].
  exc_inv H as q. destruct q as [? dcs']. exc_inv H as bt'. injection H as <-. apply keeps_set. not_timeout.
Qed.

Lemma keeps_mysql c c' : mysql_identity c = Ok c' → keeps_timeouts c c'.
Proof.
  unfold mysql_identity. intros H. destruct (py_or (vget "database" c) _) as [| | | | |database]; try done.
  destruct (negb _); [injection H as <-; apply keeps_refl|]. destruct (py_or (vget "mysql" c) _) as [| | | | |[|kv d]]; try done;
    [injection H as <-; apply keeps_refl|]. injection H as <-.
  set (m := Dict.update _ _). eapply keeps_trans; [apply (keeps_set "mysql" (VDict m)); not_timeout|].
  destruct (Dict.get "name" (Dict.set "mysql" (VDict m) c)), (Dict.get "name" m); try apply keeps_refl. apply keeps_set. not_timeout.
Qed.

(** The timeouts of the effective configuration are those of the dynamic one, or the defaults. *)
Lemma build_timeout dyn local c k : k ∈ timeouts → Dict.wf dyn → _build_effective_configuration dyn local = Ok c →
  match Dict.get k dyn with
  | Some v => ∃ z, py_int v = Ok z ∧ Dict.get k c = Some (VInt z)
  | None => Dict.get k c = Dict.get k get_default_config
  end.
Proof.
  intros Hk Hwf H. unfold _build_effective_configuration in H.
  exc_inv H as c1. exc_inv H as c2. exc_inv H as c3. exc_inv H as c4. exc_inv H as pg. exc_inv H as c5.
  assert (∀ k, k ∈ timeouts → Dict.mem k get_default_config = true) as Hm.
  { intros k' Hk'. revert Hk'. unfold timeouts. set_unfold. intros [->|[->|[->|[]]]]; done. }
  assert (∀ k, k ∈ timeouts → Dict.mem k c1 = true) as Hm1.
  { intros k' Hk'. pose proof (copy_get dyn _ c1 k' Hk' Hwf (Hm k' Hk') ltac:(eassumption)) as Hg. unfold Dict.mem.
    destruct (Dict.get k' dyn); [destruct Hg as (z & _ & ->); done|]. rewrite Hg. by apply Hm. }
  assert (keeps_timeouts c1 c) as Hc.
  { eapply keeps_trans; [by eapply keeps_local_all|]. eapply keeps_trans; [eapply (keeps_fold add_auth); [|eassumption]; intros; by eapply keeps_auth|].
    eapply keeps_trans; [by apply keeps_exhibitor|]. eapply keeps_trans; [|eapply keeps_trans; [|by apply keeps_mysql]; apply keeps_section; not_timeout].
    eapply keeps_trans; [|by apply keeps_citus]. eapply keeps_trans; [|apply keeps_pg_name]. apply keeps_set. not_timeout. }
  pose proof (copy_get dyn _ c1 k Hk Hwf (Hm k Hk) ltac:(eassumption)) as Hg. by rewrite (Hc k Hk).
Qed.

(** ** Adjusting the timeouts *)

(** The rule: the lease of the leader outlives a cycle with two retries. *)
Definition rule (ttl loop_wait retry_timeout : Z) : Prop := 20 ≤ ttl ∧ 1 ≤ loop_wait ∧ 3 ≤ retry_timeout ∧ loop_wait + 2 * retry_timeout ≤ ttl.

Definition int_of (k : string) (dflt : Z) (d : dict pyval) : exc Z := py_int (vget_or k (VInt dflt) d).

Lemma int_of_eq k z dflt d : int_of k dflt (Dict.set k (VInt z) d) = Ok z.
Proof. unfold int_of, vget_or. by rewrite Dict.get_set_eq. Qed.
Lemma int_of_ne k k' v dflt d : k ≠ k' → int_of k dflt (Dict.set k' v d) = int_of k dflt d.
Proof. intros Hk. unfold int_of, vget_or. by rewrite Dict.get_set_ne. Qed.

Lemma adjust_one param dflt mn d z d' : get_and_maybe_adjust_int_value param dflt mn d = (Ok z, d') →
  int_of param dflt d' = Ok z ∧ mn ≤ z ∧ (Dict.wf d → Dict.wf d') ∧ ∀ k df, k ≠ param → int_of k df d' = int_of k df d.
Proof.
  unfold get_and_maybe_adjust_int_value. fold (int_of param dflt d). destruct (int_of param dflt d) as [v|e] eqn:E; [|done].
  destruct (Z.ltb_spec v mn); intros [= <- <-].
  - split_and!; [apply int_of_eq|lia|apply Dict.wf_set|]. intros k df Hk. by apply int_of_ne.
  - split_and!; [done|lia|done|done].
Qed.

Lemma adjust_rule d d' : _validate_and_adjust_timeouts d = (Ok (), d') → Dict.wf d →
  Dict.wf d' ∧ ∃ ttl lw rt, int_of "ttl" 30 d' = Ok ttl ∧ int_of "loop_wait" 10 d' = Ok lw ∧ int_of "retry_timeout" 10 d' = Ok rt ∧ rule ttl lw rt.
Proof.
  unfold _validate_and_adjust_timeouts. intros H Hwf. unfold mbind, eff_bind in H.
  destruct (get_and_maybe_adjust_int_value "loop_wait" 10 1 d) as [[lw|] d1] eqn:E1; [|done].
  destruct (get_and_maybe_adjust_int_value "retry_timeout" 10 3 d1) as [[rt|] d2] eqn:E2; [|done].
  destruct (get_and_maybe_adjust_int_value "ttl" 30 20 d2) as [[ttl|] d3] eqn:E3; [|done].
  apply adjust_one in E1 as (A1 & B1 & C1 & D1), E2 as (A2 & B2 & C2 & D2), E3 as (A3 & B3 & C3 & D3).
  assert (int_of "retry_timeout" 10 d3 = Ok rt) as R3 by (by rewrite D3).
  assert (int_of "loop_wait" 10 d3 = Ok lw) as L3 by (by rewrite D3, D2).
  assert (Dict.wf d3) as Hwf3 by auto. unfold rule.
  destruct (Z.ltb_spec ttl (1 + 2 * rt)); [|destruct (Z.ltb_spec ttl (lw + 2 * rt))]; injection H as <-.
  - split; [by do 2 apply Dict.wf_set|]. exists ttl, 1, ((ttl - 1) / 2).
    rewrite !(int_of_ne "ttl"), (int_of_ne "loop_wait"), !int_of_eq by done. split_and!; try done.
    + apply Z.div_le_lower_bound; lia.
    + pose proof (Z.mul_div_le (ttl - 1) 2). lia.
  - split; [by apply Dict.wf_set|]. exists ttl, (ttl - 2 * rt), rt. rewrite (int_of_ne "ttl"), (int_of_ne "retry_timeout"), int_of_eq by done.
    split_and!; try done; lia.
  - split; [done|]. exists ttl, lw, rt. split_and!; try done; lia.
Qed.

(** A dynamic configuration with good timeouts *)
Definition timely (d : dict pyval) : Prop :=
  Dict.wf d ∧ ∃ ttl lw rt, int_of "ttl" 30 d = Ok ttl ∧ int_of "loop_wait" 10 d = Ok lw ∧ int_of "retry_timeout" 10 d = Ok rt ∧ rule ttl lw rt.

Lemma timely_nil : timely [].
Proof. split; [apply Dict.wf_nil|]. exists 30, 10, 10. repeat split; done. Qed.

Lemma build_int dyn local eff k dflt z : k ∈ timeouts → Dict.wf dyn → _build_effective_configuration dyn local = Ok eff →
  Dict.get k get_default_config = Some (VInt dflt) → int_of k dflt dyn = Ok z → Dict.get k eff = Some (VInt z).
Proof.
  intros Hk Hwf Hb Hd Hz. pose proof (build_timeout dyn local eff k Hk Hwf Hb) as Ht. unfold int_of, vget_or in Hz.
  destruct (Dict.get k dyn) as [v|]; cbn in Hz; [|injection Hz as <-; by rewrite Ht].
  destruct Ht as (z' & Hz' & ->). congruence.
Qed.

(** ** The life of the object *)

(** The constructor, and its methods in any order, with any files and any configuration in the DCS.  A
    dictionary, also one that is read from the cache, has each key once. *)
Inductive config_run : Config → Prop :=
  | run_init (F : ConfigFiles) (J : Json) environment config_env configfile validator c :
      (∀ path text d, os_read path = Ok text → loads text = Ok (VDict d) → Dict.wf d) →
      config_init environment config_env configfile validator = Ok c → config_run c
  | run_set cc c : Dict.wf (c_data cc) → config_run c → config_run (set_dynamic_configuration cc c).2
  | run_set_dictionary d c : Dict.wf d → config_run c → config_run (set_dictionary d c).2
  | run_reload (F : ConfigFiles) c : config_run c → config_run (reload_local_configuration c).2
  | run_save W (F : CacheFiles W) (J : Json) w c : config_run c → config_run (save_cache c w).1.

(** The configurations that an effective one was built from *)
Definition built_from (c : Config) : Prop :=
  _build_effective_configuration (_dynamic_configuration c) (_local_configuration c) = Ok (effective_configuration c) ∧
  timely (_dynamic_configuration c).

Lemma built_set_dictionary d c : Dict.wf d → built_from c → built_from (set_dictionary d c).2.
Proof.
  intros Hd Hc. unfold set_dictionary. destruct (deep_compare _ d); [done|].
  destruct (_validate_and_adjust_timeouts d) as [[[]|e] d'] eqn:Ea; [|done].
  destruct (_build_effective_configuration d' _) as [eff|] eqn:Eb; [|done]. split; [done|].
  apply adjust_rule in Ea as [Hwf Hr]; [|done]. split; [done|exact Hr].
Qed.

Lemma built_reload (F : ConfigFiles) c : built_from c → built_from (reload_local_configuration c).2.
Proof.
  intros Hc. unfold reload_local_configuration. destruct (config_file c) as [file|]; [|done].
  destruct (_load_config_file _ file) as [local|]; [|done]. destruct (deep_compare _ local); [done|].
  destruct (_build_effective_configuration _ local) as [eff|] eqn:Eb; [|done]. split; [exact Eb|apply Hc].
Qed.

Lemma built_init (F : ConfigFiles) (J : Json) environment config_env configfile validator c :
  (∀ path text d, os_read path = Ok text → loads text = Ok (VDict d) → Dict.wf d) →
  config_init environment config_env configfile validator = Ok c → built_from c.
Proof.
  intros Hwf H. unfold config_init in H. exc_inv H as loaded. exc_inv H as u. exc_inv H as local. exc_inv H as eff. exc_inv H as dir.
  set (c0 := MkConfig _ _ _ _ local eff dir false) in H. assert (built_from c0) as Hc0 by (split; [done|apply timely_nil]). clearbody c0.
  destruct validator; [|by injection H as <-]. exc_inv H as tags. injection H as <-.
  assert (built_from (_load_cache c0)) as Hl; [|exact Hl].
  unfold _load_cache. destruct (os_isfile (_cache_file c0)); cbn [negb]; [|done]. destruct (os_read (_cache_file c0)) as [text|] eqn:Er; [|done]. cbn.
  destruct (loads text) as [[| | | | |d]|] eqn:El; try done. apply built_set_dictionary; [|done]. by eapply Hwf.
Qed.

Lemma run_built c : config_run c → built_from c.
Proof.
  induction 1 as [F J env ce cf v c Hwf Hc|cc c Hwf _ IH|d c Hwf _ IH|F c _ IH|W F J w c _ IH].
  - by eapply built_init.
  - unfold set_dynamic_configuration. destruct (bool_decide _); [done|]. by apply built_set_dictionary.
  - by apply built_set_dictionary.
  - by apply built_reload.
  - unfold save_cache. destruct (negb _); [done|]. destruct (save_body _ _ _) as [[?|?] ?]; exact IH.
Qed.

(** C16: the timeouts that the agent runs with always fit together: whatever the DCS, the files and the cache
    hold, and in whatever order they are read, [ttl], [loop_wait] and [retry_timeout] of the effective
    configuration are integers with [ttl] at least 20, [loop_wait] at least 1, [retry_timeout] at least 3
    and [loop_wait + 2 * retry_timeout] at most [ttl]. *)
Theorem timeouts_rule c : config_run c →
  ∃ ttl lw rt, Config.get "ttl" VNone c = VInt ttl ∧ Config.get "loop_wait" VNone c = VInt lw ∧
    Config.get "retry_timeout" VNone c = VInt rt ∧ 20 ≤ ttl ∧ 1 ≤ lw ∧ 3 ≤ rt ∧ lw + 2 * rt ≤ ttl.
Proof.
  intros (Hb & Hwf & ttl & lw & rt & Ht & Hl & Hr & Hrule)%run_built. exists ttl, lw, rt.
  pose proof (λ k dflt z Hk, build_int _ _ _ k dflt z Hk Hwf Hb) as Hi. unfold Config.get, vget_or.
  rewrite (Hi "ttl" 30 ttl (list_elem_of_here _ _) eq_refl Ht), (Hi "loop_wait" 10 lw ltac:(set_solver) eq_refl Hl),
    (Hi "retry_timeout" 10 rt ltac:(set_solver) eq_refl Hr). done.
Qed.

(** ** The managed parameters *)

(** A parameter that Patroni manages passes its validator. *)
Definition valid_parameter (kv : string * pyval) : Prop :=
  match CIDict.get kv.1 CMDLINE_OPTIONS with Some (_, v, _) => validates v kv.2 = Ok true | None => True end.

Definition managed (c : dict pyval) : Prop := Forall valid_parameter (section "parameters" (section "postgresql" c)).

(** An integer that is read without a unit is read the same with one. *)
Lemma parse_int_unit value unit z z' : parse_int value VNone = Ok (Some z) → parse_int value unit = Ok (Some z') → z' = z.
Proof.
  unfold parse_int. destruct (strtol value true) as [val u]. destruct (if _ : bool then strtod value else _) as [val' u'].
  destruct val' as [n|]; [|done]. destruct (Str.strip u' =? "")%string.
  - intros H1 H2. rewrite H1 in H2. congruence.
  - intros H1. exfalso. unfold convert_to_base_unit in H1. cbn in H1. done.
Qed.

Lemma parse_int_int z unit : parse_int (VInt z) unit = Ok (Some z).
Proof. unfold parse_int. destruct (strtol_pretty z) as [-> _]. done. Qed.

Lemma int_validates iv value z : int_holds iv value = Ok true → parse_int value VNone = Ok (Some z) → int_holds iv (VInt z) = Ok true.
Proof.
  intros H Hz. unfold int_holds in *. exc_inv H as r. rewrite parse_int_int. destruct r as [z'|]; [|done].
  by apply (parse_int_unit value _ z z' Hz) in H0 as ->.
Qed.

Lemma process_valid b d new : fold_exc (process_parameter b) d [] = Ok new → Forall valid_parameter new.
Proof.
  apply fold_exc_inv; [|constructor]. intros s [n v] s' _ Hs H. unfold process_parameter in H.
  destruct (CIDict.get n CMDLINE_OPTIONS) as [[[dflt val] ver]|] eqn:En.
  - destruct b; [by injection H as <-|]. exc_inv H as valid. destruct valid; [|by injection H as <-].
    exc_inv H as o. injection H as <-. apply Dict.Forall_set; [|done]. unfold valid_parameter. cbn [fst snd]. rewrite En.
    destruct val; try (injection H1 as <-; done). destruct o as [z|]; [|done]. by eapply int_validates.
  - injection H as <-. apply Dict.Forall_set; [|done]. unfold valid_parameter. cbn [fst]. by rewrite En.
Qed.

Lemma ci_update_valid params new : Forall valid_parameter params → Forall valid_parameter new → Forall valid_parameter (ci_update params new).
Proof.
  intros Hp Hn. unfold ci_update. apply Forall_fmap. apply (CIDict.Forall_fold valid_parameter new); [done|].
  by apply (CIDict.Forall_fold valid_parameter params).
Qed.

Lemma managed_update v b c c' : managed c → update_parameters v b c = Ok c' → managed c'.
Proof.
  unfold update_parameters, _process_postgresql_parameters. intros Hc H. exc_inv H as new. injection H as <-.
  unfold managed. rewrite !section_in_section. apply ci_update_valid; [done|]. destruct (py_or v _); try done. by eapply process_valid.
Qed.

Lemma managed_same c c' : section "parameters" (section "postgresql" c') = section "parameters" (section "postgresql" c) → managed c → managed c'.
Proof. unfold managed. by intros ->. Qed.

Lemma managed_ne k v c : k ≠ "postgresql" → managed c → managed (Dict.set k v c).
Proof. intros Hk. apply managed_same. by rewrite section_ne. Qed.

Lemma managed_pg k v c : k ≠ "parameters" → managed c → managed (in_section "postgresql" (Dict.set k v) c).
Proof. intros Hk. apply managed_same. by rewrite section_in_section, section_ne. Qed.

Lemma managed_default : managed get_default_config.
Proof.
  unfold managed. assert (Forall valid_parameter default_parameters) as Hd.
  { assert (forallb (λ kv, match CIDict.get kv.1 CMDLINE_OPTIONS with
                           | Some (_, v, _) => match validates v kv.2 with Ok b => b | Raise _ => false end
                           | None => true
                           end) default_parameters = true) as H by (by vm_compute).
    rewrite forallb_forall in H. apply Forall_forall. intros kv Hin%list_elem_of_In. specialize (H kv Hin). unfold valid_parameter.
    destruct (CIDict.get kv.1 CMDLINE_OPTIONS) as [[[d v] n]|]; [|exact I]. destruct (validates v kv.2) as [[]|]; congruence. }
  change (section "parameters" (section "postgresql" get_default_config)) with (ci_update [] default_parameters).
  apply ci_update_valid; [constructor|done].
Qed.

Lemma managed_copy c kv c' : managed c → copy_setting c kv = Ok c' → managed c'.
Proof.
  destruct kv as [n v]. intros Hc H. unfold copy_setting in H. destruct (String.eqb_spec n "postgresql") as [->|Hpg].
  { exc_inv H as l. revert H. apply (fold_exc_inv managed); [|done]. intros s [n' v'] s' _ Hs Hx. cbn in Hx.
    destruct (String.eqb_spec n' "parameters"); [by eapply managed_update|].
    case_bool_decide; injection Hx as <-; [done|by apply managed_pg]. }
  destruct (n =? "standby_cluster")%string.
  { exc_inv H as l. injection H as <-. apply foldl_inv; [|done]. intros s x Hs. case_bool_decide; [by apply managed_ne|done]. }
  destruct (Dict.mem n c); [|by injection H as <-]. exc_inv H as z. injection H as <-. by apply managed_ne.
Qed.

Lemma managed_local c kv c' : managed c → local_setting c kv = Ok c' → managed c'.
Proof.
  destruct kv as [n v]. intros Hc H. unfold local_setting in H. destruct (String.eqb_spec n "citus") as [->|_].
  { injection H as <-. destruct (citus_valid v); [by apply managed_ne|done]. }
  destruct (String.eqb_spec n "postgresql") as [->|Hpg].
  { exc_inv H as l. revert H. apply (fold_exc_inv managed); [|done]. intros s [n' v'] s' _ Hs Hx. cbn in Hx.
    destruct (String.eqb_spec n' "parameters"); [by eapply managed_update|].
    destruct (n' =? "use_slots")%string; injection Hx as <-; [done|by apply managed_pg]. }
  destruct (_ || _); injection H as <-; [by apply managed_ne|done].
Qed.

(** ** The section [postgresql] after the merge *)

(** The settings that the end of [_build_effective_configuration] writes *)
Definition written : list string := ["authentication"; "use_pg_rewind"; "name"; "scope"; "retry_timeout"; "citus"].

(** A step that leaves the section as it is *)
Definition same_pg (c c' : dict pyval) : Prop := section "postgresql" c' = section "postgresql" c.

Lemma same_pg_set k v c : k ≠ "postgresql" → same_pg c (Dict.set k v c).
Proof. intros Hk. by apply section_ne. Qed.

Lemma same_pg_auth c k c' : k ≠ "postgresql" → add_auth c k = Ok c' → same_pg c c'.
Proof.
  intros Hk H. unfold add_auth in H. destruct (Dict.get k c) as [v|]; [|by injection H as <-].
  exc_inv H as b. destruct b; cbn in H; [|by injection H as <-]. exc_inv H as auth.
  destruct auth; try done. exc_inv H as u. exc_inv H as p. exc_inv H as v'. injection H as <-. by apply same_pg_set.
Qed.

Lemma same_pg_exhibitor c c' : move_exhibitor c = Ok c' → same_pg c c'.
Proof.
  unfold move_exhibitor. intros H. destruct (Dict.get "zookeeper" c) as [v|]; [|by injection H as <-].
  exc_inv H as b. destruct b; cbn in H; [|by injection H as <-]. destruct v; try done. injection H as <-.
  unfold same_pg, section, vget. rewrite Dict.get_del_ne, Dict.get_set_ne by done. done.
Qed.

Lemma same_pg_name c : same_pg c (pg_name c).
Proof. unfold pg_name. destruct (Dict.get "name" c), (Dict.get "name" (section "postgresql" c)); try done. by apply same_pg_set. Qed.

Lemma same_pg_citus c c' : citus_bootstrap c = Ok c' → same_pg c c'.
Proof.
  unfold citus_bootstrap. intros H. destruct (negb _); [by injection H as <-|]. exc_inv H as p. destruct p as [dcs bt].
  exc_inv H as q. destruct q as [? dcs']. exc_inv H as bt'. injection H as <-. by apply same_pg_set.
Qed.

Lemma same_pg_mysql c c' : mysql_identity c = Ok c' → same_pg c c'.
Proof.
  unfold mysql_identity. intros H. destruct (py_or (vget "database" c) _) as [| | | | |database]; try done.
  destruct (negb _); [by injection H as <-|]. destruct (py_or (vget "mysql" c) _) as [| | | | |[|kv d]]; try done;
    [by injection H as <-|]. injection H as <-.
  set (m := Dict.update _ _). assert (same_pg c (Dict.set "mysql" (VDict m) c)) as Hs by (by apply same_pg_set).
  destruct (Dict.get "name" (Dict.set "mysql" (VDict m) c)), (Dict.get "name" m); try done.
  unfold same_pg in *. rewrite <- Hs. by apply same_pg_set.
Qed.

Lemma get_authentication pg pg' k : k ∉ written → pg_authentication pg = Ok pg' → Dict.get k pg' = Dict.get k pg.
Proof.
  intros Hk H. unfold pg_authentication in H. exc_inv H as b. exc_inv H as auth. exc_inv H as l. exc_inv H as l'. injection H as <-.
  rewrite Dict.get_set_ne by (intros ->; apply Hk; by left). unfold with_authentication. destruct (Dict.mem _ pg); [done|].
  rewrite !Dict.get_set_ne; [done|..]; intros ->; apply Hk; set_solver.
Qed.

Lemma get_update_notin {V} k (d d' : dict V) : k ∉ Dict.keys d' → Dict.get k (Dict.update d d') = Dict.get k d.
Proof.
  unfold Dict.update, Dict.keys. revert d. induction d' as [|[k' v] d' IH]; intros d Hk; [done|]. cbn in *.
  apply not_elem_of_cons in Hk as [Hne Hk]. by rewrite IH, Dict.get_set_ne.
Qed.

Lemma keys_present ks config k : k ∈ Dict.keys (present ks config) → k ∈ ks.
Proof.
  unfold Dict.keys, present. intros ([k' v] & -> & Hin)%list_elem_of_fmap. apply list_elem_of_omap in Hin as (k'' & Hin & Hg).
  destruct (Dict.get k'' config); [|done]. by injection Hg as <- <-.
Qed.

(** What the merge leaves in the section, up to the settings that are written afterwards *)
Lemma build_section dyn local c : _build_effective_configuration dyn local = Ok c →
  ∃ c1 c2, _safe_copy_dynamic_configuration dyn = Ok c1 ∧ fold_exc local_setting local c1 = Ok c2 ∧
    ∀ k, k ∉ written → Dict.get k (section "postgresql" c) = Dict.get k (section "postgresql" c2).
Proof.
  intros H. unfold _build_effective_configuration in H.
  exc_inv H as c1. exc_inv H as c2. exc_inv H as c3. exc_inv H as c4. exc_inv H as pg. exc_inv H as c5.
  exists c1, c2. split_and!; [done..|]. intros k Hk. apply same_pg_mysql in H. rewrite H, section_in_section.
  rewrite get_update_notin by (intros Hin%keys_present; apply Hk; unfold written; set_solver).
  assert (same_pg c2 c3) as E3.
  { eapply (fold_exc_inv (same_pg c2)); [|done|eassumption]. intros s x s' Hx Hs Ha. unfold same_pg in *. rewrite <- Hs.
    eapply same_pg_auth; [|exact Ha]. revert Hx. set_unfold. naive_solver. }
  assert (section "postgresql" c5 = pg) as ->.
  { match goal with Hc : citus_bootstrap _ = Ok c5 |- _ => apply same_pg_citus in Hc; rewrite Hc end.
    rewrite same_pg_name. by apply section_set. }
  match goal with Hp : pg_authentication _ = Ok pg |- _ => rewrite (get_authentication _ _ _ Hk Hp) end.
  match goal with He : move_exhibitor _ = Ok c4 |- _ => apply same_pg_exhibitor in He; rewrite He end. by rewrite E3.
Qed.

Lemma build_managed dyn local c : _build_effective_configuration dyn local = Ok c → managed c.
Proof.
  intros (c1 & c2 & H1 & H2 & Hs)%build_section. apply (managed_same c2).
  - unfold section at 1 3, vget. by rewrite Hs by (vm_compute; intros Hin; set_solver).
  - revert H2. apply fold_exc_inv; [intros s x s' _; apply managed_local|]. revert H1. apply fold_exc_inv; [intros s x s' _; apply managed_copy|].
    apply managed_default.
Qed.

(** C22: in every state of the agent, whatever the DCS and the local configuration hold, each entry of
    [postgresql.parameters] of the effective configuration whose name, in any case, is one of the parameters that Patroni itself
    passes on the command line ([CMDLINE_OPTIONS]) has a value that passes the validator of that parameter. *)
Theorem managed_parameters_valid c name value : config_run c →
  (name, value) ∈ section "parameters" (section "postgresql" (effective_configuration c)) →
  match CIDict.get name CMDLINE_OPTIONS with Some (_, v, _) => validates v value = Ok true | None => True end.
Proof.
  intros [Hb _]%run_built Hin. apply build_managed in Hb. unfold managed in Hb. rewrite Forall_forall in Hb. exact (Hb _ Hin).
Qed.

(** ** The settings of the node itself *)

(** The local settings that the merge leaves alone *)
Definition node_settings : list string := ["connect_address"; "proxy_address"; "listen"; "config_dir"; "data_dir"; "pgpass"].

Lemma copy_node_setting dyn c1 k : k ∈ node_settings → _safe_copy_dynamic_configuration dyn = Ok c1 → Dict.get k (section "postgresql" c1) = None.
Proof.
  intros Hk. apply (fold_exc_inv (λ c, Dict.get k (section "postgresql" c) = None)).
  2:{ revert Hk. unfold node_settings. set_unfold. intros [->|[->|[->|[->|[->|[->|[]]]]]]]; by vm_compute. }
  assert (k ≠ "parameters" ∧ k ∈ local_settings) as [Hnp Hloc] by (revert Hk; unfold node_settings, local_settings; set_unfold; naive_solver).
  intros c [n v] c' _ Hc H. unfold copy_setting in H. destruct (String.eqb_spec n "postgresql") as [->|Hpg].
  { exc_inv H as l. revert H. apply (fold_exc_inv (λ c, Dict.get k (section "postgresql" c) = None)); [|done].
    intros s [n' v'] s' _ Hs Hx. cbn in Hx. destruct (String.eqb_spec n' "parameters") as [->|].
    - unfold update_parameters in Hx. exc_inv Hx as new. injection Hx as <-. by rewrite section_in_section, get_in_section_ne.
    - case_bool_decide as Hn'; injection Hx as <-; [done|]. rewrite section_in_section, Dict.get_set_ne; [done|]. by intros ->. }
  destruct (n =? "standby_cluster")%string.
  { exc_inv H as l. injection H as <-. apply (foldl_inv (λ c, Dict.get k (section "postgresql" c) = None)); [|done].
    intros s x Hs. case_bool_decide; [|done]. unfold in_section. by rewrite section_ne. }
  destruct (Dict.mem n c); [|by injection H as <-]. exc_inv H as z. injection H as <-. by rewrite section_ne.
Qed.

Lemma local_pg_fold k l c c' : k ∈ node_settings → Dict.wf l →
  fold_exc (λ config (kv : string * pyval),
      if (kv.1 =? "parameters")%string then update_parameters kv.2 true config
      else if (kv.1 =? "use_slots")%string then mret config
      else mret (in_section "postgresql" (Dict.set kv.1 kv.2) config)) l c = Ok c' →
  Dict.get k (section "postgresql" c') = match Dict.get k l with Some v => Some v | None => Dict.get k (section "postgresql" c) end.
Proof.
  intros Hk. assert (k ≠ "parameters" ∧ k ≠ "use_slots") as [Hnp Hnu] by (revert Hk; unfold node_settings; set_unfold; naive_solver).
  revert c. induction l as [|[n v] l IH]; intros c Hwf H; [by injection H as <-|].
  unfold Dict.wf, Dict.keys in Hwf. cbn in Hwf. apply NoDup_cons in Hwf as [Hni Hwf]. cbn [fold_exc fst snd] in H. exc_inv H as c1.
  rewrite (IH c1 Hwf H). cbn [Dict.get].
  assert (Dict.get k (section "postgresql" c1) = if decide (k = n) then Some v else Dict.get k (section "postgresql" c)) as ->.
  { destruct (String.eqb_spec n "parameters") as [->|]; [|destruct (String.eqb_spec n "use_slots") as [->|]].
    - unfold update_parameters in H0. exc_inv H0 as new. injection H0 as <-. rewrite decide_False by done. by rewrite section_in_section, get_in_section_ne.
    - injection H0 as <-. by rewrite decide_False.
    - injection H0 as <-. by rewrite section_in_section, Dict.get_set. }
  destruct (decide (k = n)) as [->|]; [|done]. by assert (Dict.get n l = None) as -> by (by apply Dict.get_None).
Qed.

(** The section of a configuration of which the values of [postgresql] are known *)
Definition pg_of (d : dict pyval) : dict pyval := match py_or (vget "postgresql" d) (VDict []) with VDict l => l | _ => [] end.

Lemma local_node_setting k local c c' : k ∈ node_settings → Dict.wf local → Dict.wf (pg_of local) →
  Dict.get k (section "postgresql" c) = None → fold_exc local_setting local c = Ok c' →
  Dict.get k (section "postgresql" c') = Dict.get k (pg_of local).
Proof.
  intros Hk. assert (∀ local c c', Dict.get "postgresql" local = None → Dict.wf local → fold_exc local_setting local c = Ok c' → same_pg c c') as Hrest.
  { clear. intros local c c' Hg Hwf. revert Hg. induction local as [|[n v] local IH] in c, Hwf |- *; intros Hg H; [by injection H as <-|].
    unfold Dict.wf, Dict.keys in Hwf. cbn in Hwf. apply NoDup_cons in Hwf as [Hni Hwf]. cbn in Hg. destruct (decide ("postgresql" = n)) as [|Hn]; [done|].
    cbn [fold_exc] in H. exc_inv H as c1. specialize (IH c1 Hwf Hg H). unfold same_pg in *. rewrite IH.
    unfold local_setting in H0. destruct (n =? "citus")%string; [injection H0 as <-; destruct (citus_valid v); [by apply section_ne|done]|].
    rewrite (proj2 (String.eqb_neq n "postgresql")) in H0 by congruence.
    destruct (_ || _); injection H0 as <-; [by apply section_ne|done]. }
  intros Hwf Hwp Hc. revert c Hc. induction local as [|[n v] local IH]; intros c Hc H; [by injection H as <-|].
  unfold Dict.wf, Dict.keys in Hwf. cbn in Hwf. apply NoDup_cons in Hwf as [Hni Hwf]. cbn [fold_exc] in H. exc_inv H as c1.
  unfold pg_of, vget in *. cbn [Dict.get] in Hwp |- *. destruct (decide ("postgresql" = n)) as [<-|Hn].
  - apply Hrest in H; [|by apply Dict.get_None|done]. rewrite H. cbn [default] in Hwp |- *. unfold local_setting in H0. cbn in H0.
    exc_inv H0 as l. cbn in Hwp |- *. destruct (py_or v (VDict [])) as [| | | | |l'] eqn:Ev; try done. injection H1 as ->.
    rewrite (local_pg_fold k l c c1 Hk Hwp H0), Hc. by destruct (Dict.get k l).
  - apply (IH Hwf Hwp c1); [|done]. assert (same_pg c c1) as Hs; [|by rewrite Hs].
    apply (Hrest [(n, v)] c c1); [by cbn; rewrite decide_False| |cbn [fold_exc]; by rewrite H0]. apply NoDup_singleton.
Qed.

(** C21: in every state of the agent, [data_dir], [config_dir], [pgpass], [listen], [connect_address] and [proxy_address] in the
    section [postgresql] of the effective configuration are those of that section of the local configuration, and are absent when it
    does not have them, whatever the DCS holds.  The local configuration and its section have each key once, as every dictionary. *)
Theorem node_settings_local c k : config_run c → k ∈ node_settings →
  Dict.wf (_local_configuration c) → Dict.wf (pg_of (_local_configuration c)) →
  Dict.get k (section "postgresql" (effective_configuration c)) = Dict.get k (pg_of (_local_configuration c)).
Proof.
  intros [Hb _]%run_built Hk Hwf Hwp. apply build_section in Hb as (c1 & c2 & H1 & H2 & Hs).
  rewrite Hs by (revert Hk; unfold node_settings, written; set_unfold; naive_solver).
  eapply local_node_setting; [done..| |exact H2]. by eapply copy_node_setting.
Qed.

(** ** Examples *)

#[local] Instance no_files : ConfigFiles := {
  os_exists _ := false; os_isfile _ := false; os_isdir _ := false;
  os_listdir _ := Raise OSError; os_read _ := Raise OSError; yaml_load _ := Raise OtherException
}.

Definition toy_local : dict pyval :=
  [("name", VStr "a"); ("ttl", VInt 1); ("postgresql", VDict [("data_dir", VStr "/data"); ("authentication", VDict []);
     ("parameters", VDict [("max_connections", VInt 7); ("work_mem", VStr "4MB")])])].
Definition toy_dynamic : dict pyval :=
  [("ttl", VInt 20); ("loop_wait", VInt 30); ("retry_timeout", VStr "12");
   ("postgresql", VDict [("data_dir", VStr "/elsewhere");
     ("parameters", VDict [("Max_Connections", VInt 10); ("wal_keep_size", VStr "1GB"); ("max_wal_senders", VStr "5")])])].

Definition toy_init : exc Config := config_init toy_local None "" None.
Definition toy_start : Config := match toy_init with Ok c => c | Raise _ => MkConfig VNone [] [] None [] [] "" false end.
Definition toy_config : Config := (set_dictionary toy_dynamic toy_start).2.

Lemma toy_config_run : config_run toy_config.
Proof.
  apply run_set_dictionary; [repeat constructor; vm_compute; set_solver|].
  apply (run_init no_files json_text toy_local None "" None); [done|by vm_compute].
Qed.

Lemma timeouts_rule_witness : (∃ ttl lw rt, Config.get "ttl" VNone toy_config = VInt ttl ∧ Config.get "loop_wait" VNone toy_config = VInt lw ∧
    Config.get "retry_timeout" VNone toy_config = VInt rt ∧ 20 ≤ ttl ∧ 1 ≤ lw ∧ 3 ≤ rt ∧ lw + 2 * rt ≤ ttl) ∧
  Config.get "loop_wait" VNone toy_config = VInt 1 ∧ Config.get "retry_timeout" VNone toy_config = VInt 9.
Proof. split; [exact (timeouts_rule toy_config toy_config_run)|by vm_compute]. Defined.

Lemma managed_parameters_valid_witness : int_holds (MkIntValidator (Some 3) None None None None false) (VInt 5) = Ok true.
Proof. apply (managed_parameters_valid toy_config "max_wal_senders" (VInt 5) toy_config_run). vm_compute. set_solver. Defined.

Lemma node_settings_local_witness : vget "data_dir" (section "postgresql" (effective_configuration toy_config)) = VStr "/data".
Proof.
  unfold vget. rewrite (node_settings_local toy_config "data_dir" toy_config_run); [vm_compute; reflexivity|set_solver|..];
    apply (bool_decide_eq_true_1 (NoDup _)); vm_compute; reflexivity.
Defined.

(** A disk on which permissions cannot be changed *)
#[local] Instance toy_disk : CacheFiles (dict string) := {
  set_permissions_from _ w := (Ok (), w);
  mkstemp p dir w := (Ok (dir +:+ "/" +:+ p +:+ "x"), Dict.set (dir +:+ "/" +:+ p +:+ "x") "" w);
  fdopen _ w := (Ok (), w);
  dump t s w := (Ok (), Dict.set t s w);
  move a b w := (Ok b, Dict.set b (default "" (Dict.get a w)) (Dict.del a w));
  chmod _ w := (Raise OSError, w);
  close_fd _ w := (Ok (), w);
  file_exists f w := Dict.mem f w;
  remove_file f w := (Ok (), Dict.del f w)
}.

(** When the permissions of the new cache cannot be set, the cache is removed, as [tmpfile] is then the cache
    itself: neither the old content nor the new one is left. *)
Lemma failed_chmod_removes_cache : Dict.get "/data/patroni.dynamic.json" [("/data/patroni.dynamic.json", "{}")] = Some "{}" ∧
  (save_cache toy_config [("/data/patroni.dynamic.json", "{}")]).2 = [].
Proof. by vm_compute. Qed.
