(* ===== verification/Retry.v ===== *)
(** * Retries and polling ([patroni/utils.py])

    [Retry] calls a function until it does not raise one of [retry_exceptions], and
    [polling_loop] does something at intervals.  Times are in hundredths of a second, the unit of
    the jitter.  The object is part of the state, as the function that is called may look at
    it and change its delay. *)
From S2P Require Import Prelude PyVal Effects.

Open Scope Z_scope.

Record Retry := MkRetry {
  max_tries : Z; delay : Z; backoff : Z; max_jitter : Z; max_delay : Z;
  deadline : option Z; retry_exceptions : pyexn → bool;
  _attempts : Z; _cur_delay : Z; _cur_stoptime : option Z }.

Definition set_attempts (n : Z) (r : Retry) : Retry :=
  MkRetry (max_tries r) (delay r) (backoff r) (max_jitter r) (max_delay r) (deadline r) (retry_exceptions r)
    n (_cur_delay r) (_cur_stoptime r).
Definition set_cur_delay (d : Z) (r : Retry) : Retry :=
  MkRetry (max_tries r) (delay r) (backoff r) (max_jitter r) (max_delay r) (deadline r) (retry_exceptions r)
    (_attempts r) d (_cur_stoptime r).
Definition set_stoptime (t : option Z) (r : Retry) : Retry :=
  MkRetry (max_tries r) (delay r) (backoff r) (max_jitter r) (max_delay r) (deadline r) (retry_exceptions r)
    (_attempts r) (_cur_delay r) t.

(** [__init__] with the delays of the class: 0.1, 2, 0.8 *)
Definition retry_init (max_tries max_delay : Z) (deadline : option Z) (exceptions : pyexn → bool) : Retry :=
  MkRetry max_tries 10 2 80 max_delay deadline exceptions 0 10 None.

(** [reset], [copy], [update_delay], [stoptime] *)
Definition reset (r : Retry) : Retry := set_stoptime None (set_cur_delay (delay r) (set_attempts 0 r)).
Definition copy (r : Retry) : Retry := reset r.
Definition update_delay (r : Retry) : Retry := set_cur_delay (Z.min (_cur_delay r * backoff r) (max_delay r)) r.
Definition stoptime (r : Retry) : Z := default 0 (_cur_stoptime r).

(** The state of a computation that retries: its [Retry], the clock, [time.sleep], [random.randint(0, n)],
    and the attribute [sleeptime] of an exception *)
Class RetryHost (S : Type) := {
  retry_of : S → Retry;
  put_retry : Retry → S → S;
  time : S → Z;
  sleep_func : Z → S → S;
  randint : Z → S → Z * S;
  exn_sleeptime : pyexn → option Z
}.

Section retry.
Context {S : Type} `{!RetryHost S}.

Definition on_retry (f : Retry → Retry) (s : S) : S := put_retry (f (retry_of s)) s.

(** [sleeptime] *)
Definition sleeptime (s : S) : Z * S :=
  let '(n, s) := randint (max_jitter (retry_of s)) s in (_cur_delay (retry_of s) + n, s).

(** [ensure_deadline]; [raise_ex] is the class of the exception, if any. *)
Definition ensure_deadline (timeout : Z) (raise_ex : option pyexn) : eff S bool := λ s,
  if stoptime (retry_of s) - time s <? timeout
  then (match raise_ex with Some e => Raise e | None => Ok false end, s)
  else (Ok true, s).

(** The stop time is set before the first call. *)
Definition start_deadline (s : S) : S :=
  match deadline (retry_of s), _cur_stoptime (retry_of s) with
  | Some d, None => on_retry (set_stoptime (Some (time s + d))) s
  | _, _ => s
  end.

(** What follows an exception that is retried: [None] when the loop goes on *)
Definition after_failure (e : pyexn) (s : S) : option pyexn * S :=
  if _attempts (retry_of s) =? max_tries (retry_of s) then (Some RetryFailedError, s) else
  let s := on_retry (λ r, set_attempts (_attempts r + 1) r) s in
  let '(t, s) := match exn_sleeptime e with Some t => (t, s) | None => sleeptime s end in
  match _cur_stoptime (retry_of s) with
  | Some stop => if stop <=? time s + t then (Some RetryFailedError, s) else (None, on_retry update_delay (sleep_func t s))
  | None => (None, on_retry update_delay (sleep_func t s))
  end.

(** The loop of [__call__]: [None] when the fuel is not enough *)
Fixpoint retry_loop {A} (fuel : nat) (func : eff S A) (s : S) : option (exc A * S) :=
  match fuel with
  | O => None
  | Datatypes.S fuel =>
      let '(r, s) := func (start_deadline s) in
      match r with
      | Ok a => Some (Ok a, s)
      | Raise e =>
          if retry_exceptions (retry_of s) e then
            let '(stop, s) := after_failure e s in
            match stop with Some e' => Some (Raise e', s) | None => retry_loop fuel func s end
          else Some (Raise e, s)
      end
  end.

(** Rounds that are enough when there is a deadline: every pause is [delay] at least. *)
Definition retry_fuel (r : Retry) : nat := Z.to_nat (default 0 (deadline r) / Z.min (delay r) (max_delay r)) + 2.

(** [__call__] *)
Definition retry_call {A} (func : eff S A) : eff S A := λ s,
  let s := on_retry reset s in default (Raise OtherException, s) (retry_loop (retry_fuel (retry_of s)) func s).

End retry.

(** [polling_loop]: a [for] loop over it; [body] is told the iteration and ends the loop with [true]. *)
Class Ticking (S : Type) := { wall : S → Z; pause : Z → S → S }.

Section polling.
Context {S : Type} `{!Ticking S}.

Fixpoint polling_rounds (fuel : nat) (end_time interval iteration : Z) (body : Z → S → bool * S) (s : S) : option S :=
  match fuel with
  | O => None
  | Datatypes.S fuel =>
      if wall s <? end_time then
        let '(stop, s) := body iteration s in
        if stop : bool then Some s else polling_rounds fuel end_time interval (iteration + 1) body (pause interval s)
      else Some s
  end.

Definition polling_loop (timeout interval : Z) (body : Z → S → bool * S) (s : S) : option S :=
  polling_rounds (Z.to_nat (timeout / interval) + 2) (wall s + timeout) interval 0 body s.
End polling.

(** ** Termination *)

(** What the host promises: the object is stored, the clock does not run backwards, a sleep is not shorter
    than was asked for, and jitter is not negative. *)
Class RetryLaws {S : Type} (H : RetryHost S) := {
  retry_put r s : retry_of (put_retry r s) = r;
  time_put r s : time (put_retry r s) = time s;
  retry_sleep t s : retry_of (sleep_func t s) = retry_of s;
  time_sleep t s : time s + t ≤ time (sleep_func t s);
  retry_randint n s : retry_of (randint n s).2 = retry_of s;
  randint_range n s : 0 ≤ n → 0 ≤ (randint n s).1;
  time_randint n s : time s ≤ time (randint n s).2;
  exn_sleeptime_none e : exn_sleeptime e = None
}.

Section ends.
Context {S : Type} {H : RetryHost S} {L : RetryLaws H}.

(** A function that leaves the object as it is, but for a longer delay *)
Definition keeps_retry {A} (func : eff S A) : Prop := ∀ s,
  let r := retry_of s in let r' := retry_of (func s).2 in
  time s ≤ time (func s).2 ∧ _cur_stoptime r' = _cur_stoptime r ∧ deadline r' = deadline r ∧ delay r' = delay r ∧
  max_delay r' = max_delay r ∧ max_jitter r' = max_jitter r ∧ backoff r' = backoff r ∧
  Z.min (_cur_delay r) (max_delay r) ≤ _cur_delay r'.

(** The object while the loop runs: it stops at [stop], and every pause is [d] at least. *)
Definition running (d stop : Z) (s : S) : Prop :=
  let r := retry_of s in
  _cur_stoptime r = Some stop ∧ d ≤ _cur_delay r ∧ d ≤ max_delay r ∧ 1 ≤ backoff r ∧ 0 ≤ max_jitter r ∧ deadline r ≠ None.

Lemma running_start d stop s : running d stop s → start_deadline s = s.
Proof. intros (Hs & _). unfold start_deadline. rewrite Hs. by destruct (deadline _). Qed.

Lemma after_failure_running d stop e s : 0 < d → running d stop s →
  match after_failure e s with
  | (Some _, _) => True
  | (None, s') => running d stop s' ∧ time s + d ≤ time s' ∧ time s + d < stop
  end.
Proof using L.
  intros Hd (Hs & Hc & Hm & Hb & Hj & Hdl). unfold after_failure. destruct (_ =? _); [done|].
  rewrite exn_sleeptime_none. unfold sleeptime, on_retry. rewrite retry_put.
  set (r1 := set_attempts _ _). destruct (randint (max_jitter r1) (put_retry r1 s)) as [n s2] eqn:Er.
  pose proof (retry_randint (max_jitter r1) (put_retry r1 s)) as H2. pose proof (randint_range (max_jitter r1) (put_retry r1 s) Hj) as Hn.
  pose proof (time_randint (max_jitter r1) (put_retry r1 s)) as Ht. rewrite Er in H2, Hn, Ht. cbn in H2, Hn, Ht.
  rewrite retry_put in H2. rewrite time_put in Ht. rewrite H2. cbn [_cur_stoptime r1 set_attempts _cur_delay]. rewrite Hs.
  destruct (Z.leb_spec stop (time s2 + (_cur_delay (retry_of s) + n))); [done|].
  pose proof (time_sleep (_cur_delay (retry_of s) + n) s2) as Hsl. rewrite time_put, retry_sleep, H2.
  split; [|lia]. unfold running. rewrite retry_put. cbn. split_and!; try done. nia.
Qed.

Lemma retry_rounds_end {A} (func : eff S A) d stop fuel s : keeps_retry func → 0 < d → running d stop s →
  (Z.to_nat ((stop - time s) / d) + 1 < fuel)%nat ∨ (stop ≤ time s + d ∧ (0 < fuel)%nat) → retry_loop fuel func s ≠ None.
Proof using L.
  intros Hf Hd. revert s. induction fuel as [|fuel IH]; intros s Hr Hfuel; [lia|]. cbn [retry_loop].
  rewrite (running_start d stop s Hr). destruct (func s) as [[a|e] s1] eqn:E; [done|].
  destruct (retry_exceptions _ e); [|done]. pose proof (Hf s) as Hk. rewrite E in Hk. cbn in Hk.
  destruct Hk as (Ht & Hst & Hde & Hdl & Hmd & Hmj & Hbo & Hcd). destruct Hr as (Hs & Hc & Hm & Hb & Hj & Hdn).
  assert (running d stop s1) as Hr1 by (unfold running; cbn; split_and!; first [congruence|lia]).
  pose proof (after_failure_running d stop e s1 Hd Hr1) as Ha. destruct (after_failure e s1) as [[e'|] s2]; [done|].
  destruct Ha as (Hr2 & Ht2 & Hlt). apply IH; [done|].
  assert (Z.to_nat ((stop - time s) / d) + 1 < Datatypes.S fuel)%nat as Hf1 by (destruct Hfuel; [done|lia]).
  assert (1 ≤ (stop - time s) / d) as H1 by (apply Z.div_le_lower_bound; lia).
  assert ((stop - time s2) / d ≤ (stop - time s) / d - 1) as H2.
  { replace ((stop - time s) / d - 1) with ((stop - time s + (-1) * d) / d) by (rewrite Z.div_add by lia; lia).
    apply Z.div_le_mono; lia. }
  destruct (decide (0 ≤ (stop - time s2) / d)); [left; lia|].
  right. split; [|lia]. assert ((stop - time s2) / d < 0) as Hneg by lia.
  destruct (decide (stop ≤ time s2 + d)); [done|]. exfalso. assert (0 ≤ (stop - time s2) / d); [apply Z.div_pos; lia|lia].
Qed.

(** [retry_call] has enough rounds: it returns what the loop returns. *)
Lemma retry_call_ends {A} (func : eff S A) s : keeps_retry func →
  let r := retry_of s in
  is_Some (deadline r) → 0 ≤ default 0 (deadline r) → 0 < delay r → 0 < max_delay r → 1 ≤ backoff r → 0 ≤ max_jitter r →
  ∃ res, retry_loop (retry_fuel (reset r)) func (on_retry reset s) = Some res ∧ retry_call func s = res.
Proof using L.
  intros Hf r [d Hd] Hpos Hdelay Hmax Hb Hj. unfold retry_call.
  assert (retry_of (on_retry reset s) = reset r) as Hr by (unfold on_retry; by rewrite retry_put). rewrite Hr.
  destruct (retry_loop (retry_fuel (reset r)) func (on_retry reset s)) as [res|] eqn:E; [by exists res|exfalso]. revert E.
  set (fuel := retry_fuel (reset r)). set (m := Z.min (delay r) (max_delay r)).
  assert (fuel = Z.to_nat (d / m) + 2)%nat as Hfuel by (unfold fuel, retry_fuel; cbn; by rewrite Hd).
  set (s0 := on_retry reset s) in *. set (s1 := start_deadline s0).
  assert (retry_loop fuel func s0 = retry_loop fuel func s1) as ->.
  { assert (start_deadline s1 = s1) as H1.
    { unfold s1, start_deadline at 2 3. rewrite Hr. cbn. rewrite Hd. unfold start_deadline, on_retry. rewrite retry_put. cbn. rewrite Hr. cbn. by rewrite Hd. }
    destruct fuel; [done|]. cbn [retry_loop]. fold s1. by rewrite H1. }
  rewrite Hd in Hpos. simpl in Hpos.
  assert (s1 = on_retry (set_stoptime (Some (time s0 + d))) s0) as Hs1 by (unfold s1, start_deadline; rewrite Hr; cbn; by rewrite Hd).
  apply (retry_rounds_end func m (time s0 + d)); [done|unfold m; lia| |].
  - rewrite Hs1. unfold running, on_retry. rewrite retry_put, Hr. cbn. unfold m. rewrite Hd. split_and!; try done; lia.
  - left. assert (time s1 = time s0) as -> by (rewrite Hs1; unfold on_retry; by rewrite time_put).
    replace (time s0 + d - time s0) with d by lia. lia.
Qed.

Lemma retry_loop_more {A} (func : eff S A) fuel fuel' s res :
  (fuel ≤ fuel')%nat → retry_loop fuel func s = Some res → retry_loop fuel' func s = Some res.
Proof.
  revert fuel' s. induction fuel as [|fuel IH]; intros [|fuel'] s Hf; try (done || lia). cbn [retry_loop].
  destruct (func (start_deadline s)) as [[a|e] s1]; [done|]. destruct (retry_exceptions _ e); [|done].
  destruct (after_failure e s1) as [[e'|] s2]; [done|]. apply IH. lia.
Qed.

Lemma after_failure_error e e' (s s' : S) : after_failure e s = (Some e', s') → e' = RetryFailedError.
Proof.
  unfold after_failure. destruct (_ =? _); [by intros [= <- _]|]. destruct (match exn_sleeptime e with Some t => _ | None => _ end) as [t s2].
  destruct (_cur_stoptime _) as [stop|]; [|done]. by destruct (stop <=? _); [intros [= <- _]|].
Qed.

(** The outcome of a call that is not tried again *)
Definition final {A} (res : exc A * S) : Prop :=
  match res.1 with Ok _ => True | Raise e => retry_exceptions (retry_of res.2) e = false end.

Lemma retry_loop_outcome {A} (func : eff S A) fuel s res : retry_loop fuel func s = Some res →
  (final res ∧ ∃ s1, func s1 = res) ∨ res.1 = Raise RetryFailedError.
Proof.
  revert s. induction fuel as [|fuel IH]; intros s; [done|]. cbn [retry_loop].
  destruct (func (start_deadline s)) as [[a|e] s1] eqn:E; [intros [= <-]; left; split; [done|by eexists]|].
  destruct (retry_exceptions (retry_of s1) e) eqn:Er; [|intros [= <-]; left; split; [exact Er|by eexists]].
  destruct (after_failure e s1) as [[e'|] s2] eqn:Ea; [|apply IH]. apply after_failure_error in Ea as ->. intros [= <-]. by right.
Qed.

(** C35: a call with a deadline always returns, however often the function fails and whatever it does to lengthen its pauses:
    with any number of rounds from [retry_fuel] on the loop has one and the same outcome, which is that of [retry_call].  It is
    the outcome of one call of the function, a value or an exception that is not to be retried, or it is [RetryFailedError].
    (The pauses of the object are positive and [backoff] is at least 1; a clock that does not run backwards, pauses that are
    not shorter than asked for, and exceptions without a pause of their own are the laws [RetryLaws].) *)
Theorem retry_returns {A} (func : eff S A) s : keeps_retry func →
  let r := retry_of s in
  is_Some (deadline r) → 0 ≤ default 0 (deadline r) → 0 < delay r → 0 < max_delay r → 1 ≤ backoff r → 0 ≤ max_jitter r →
  (∀ fuel, (retry_fuel (reset r) ≤ fuel)%nat → retry_loop fuel func (on_retry reset s) = Some (retry_call func s)) ∧
  ((final (retry_call func s) ∧ ∃ s1, func s1 = retry_call func s) ∨ (retry_call func s).1 = Raise RetryFailedError).
Proof using L.
  intros Hf r Hd Hpos Hdelay Hmax Hb Hj. destruct (retry_call_ends func s Hf Hd Hpos Hdelay Hmax Hb Hj) as (res & He & ->).
  split; [|by eapply retry_loop_outcome]. intros fuel Hfuel. by eapply retry_loop_more.
Qed.
End ends.

(** A clock, and a function that does not succeed before a moment *)
#[local] Instance clock_host : RetryHost (Retry * Z) := {|
  retry_of := fst; put_retry r s := (r, s.2); time := snd; sleep_func t s := (s.1, s.2 + Z.max 0 t);
  randint n s := (Z.max 0 n / 2, s); exn_sleeptime _ := None |}.

Definition opens_at (t : Z) : eff (Retry * Z) Z := λ s, if t <=? s.2 then (Ok s.2, s) else (Raise DCSError, (s.1, s.2 + 1)).
Definition ten_seconds : Retry := retry_init (-1) 360 (Some 1000) (λ e, match e with DCSError => true | _ => false end).

Lemma clock_laws : RetryLaws clock_host.
Proof.
  split; try done; cbn; intros; try lia; try (apply Z.div_pos; lia).
Qed.

Lemma retry_returns_witness :
  retry_loop 102 (opens_at 500) (reset ten_seconds, 0) = Some (retry_call (opens_at 500) (ten_seconds, 0)) ∧
  (retry_call (opens_at 500) (ten_seconds, 0)).1 = Ok 515 ∧
  (retry_call (opens_at 2000) (ten_seconds, 0)).1 = Raise RetryFailedError.
Proof.
  split; [|by vm_compute].
  refine (proj1 (retry_returns (H := clock_host) (L := clock_laws) (opens_at 500) (ten_seconds, 0) _ _ _ _ _ _ _) 102%nat _);
    [|by eexists|by vm_compute..|vm_compute; lia].
  intros s. unfold opens_at. destruct (500 <=? s.2); cbn; split_and!; (done || lia).
Defined.

(** ** What a loop preserves *)

Section preserves.
Context {S : Type} `{!RetryHost S} (I : S → Prop).
Context (Iput : ∀ r s, I s → I (put_retry r s)) (Isleep : ∀ t s, I s → I (sleep_func t s)) (Irand : ∀ n s, I s → I (randint n s).2).

Lemma after_failure_inv e s : I s → I (after_failure e s).2.
Proof using Type*.
  intros Hs. unfold after_failure. destruct (_ =? _); [done|].
  assert (∀ r, I (on_retry r s)) as H1 by (intros r; by apply Iput).
  assert (I (match exn_sleeptime e with Some t => (t, on_retry (λ r, set_attempts (_attempts r + 1) r) s)
    | None => sleeptime (on_retry (λ r, set_attempts (_attempts r + 1) r) s) end).2) as H2.
  { destruct (exn_sleeptime e); [by apply H1|]. unfold sleeptime.
    pose proof (Irand (max_jitter (retry_of (on_retry (λ r, set_attempts (_attempts r + 1) r) s))) _ (H1 (λ r, set_attempts (_attempts r + 1) r))) as H.
    by destruct (randint _ _). }
  destruct (match exn_sleeptime e with Some t => _ | None => _ end) as [t s2]. cbn in H2 |- *.
  destruct (_cur_stoptime _) as [stop|]; [destruct (stop <=? _); [done|]|]; by apply Iput, Isleep.
Qed.

(** A result is the result of the last call. *)
Lemma triple_retry {A} (func : eff S A) (Q : A → S → Prop) : triple I func Q I → triple I (retry_call func) Q I.
Proof using Type*.
  intros Hf s Hs. unfold retry_call. set (s0 := on_retry reset s). assert (I s0) as H0 by by apply Iput.
  generalize (retry_fuel (retry_of s0)). intros fuel. clearbody s0. clear s Hs.
  assert (match retry_loop fuel func s0 with Some (Ok a, s') => Q a s' | Some (Raise _, s') => I s' | None => True end) as Hl.
  { revert s0 H0. induction fuel as [|fuel IH]; intros s Hs; [done|]. cbn [retry_loop].
    assert (I (start_deadline s)) as H1 by (unfold start_deadline; destruct (deadline (retry_of s)), (_cur_stoptime (retry_of s)); try done; by apply Iput).
    specialize (Hf _ H1). destruct (func (start_deadline s)) as [[a|e] s1]; [done|].
    destruct (retry_exceptions (retry_of s1) e); [|done]. pose proof (after_failure_inv e s1 Hf) as Ha.
    destruct (after_failure e s1) as [[e'|] s2]; [done|]. by apply IH. }
  destruct (retry_loop fuel func s0) as [[[a|e] s']|]; done.
Qed.
End preserves.

(** What the calls of a loop add to a log *)
Lemma adds_retry {S E A} `{!RetryHost S} (log : S → list E) (P : E → Prop) (func : eff S A) :
  (∀ r s, log (put_retry r s) = log s) → (∀ t s, log (sleep_func t s) = log s) → (∀ n s, log (randint n s).2 = log s) →
  adds log P func → adds log P (retry_call func).
Proof.
  intros Hput Hsleep Hrand Hf s.
  set (I := λ s', ∃ new, log s' = (new ++ log s)%list ∧ Forall P new).
  assert (triple I (retry_call func) (λ _, I) I) as Ht.
  { apply triple_retry.
    - intros r s'. unfold I. by rewrite Hput.
    - intros t s'. unfold I. by rewrite Hsleep.
    - intros n s'. unfold I. by rewrite Hrand.
    - intros s' (n1 & H1 & Hn1). destruct (Hf s') as (n2 & H2 & Hn2).
      assert (I (func s').2) as Hi.
      { exists (n2 ++ n1)%list. rewrite H2, H1, app_assoc. split; [done|by apply Forall_app]. }
      destruct (func s') as [[a|e] s'']; exact Hi. }
  specialize (Ht s ltac:(by exists [])). by destruct (retry_call func s) as [[a|e] s'].
Qed.
