(* ===== verification/Etcd3Cache.v ===== *)
(** * The watcher of etcd and its cache ([patroni/dcs/etcd3.py], [KVCache])

    A thread follows the changes of etcd under the prefix of the cluster and keeps a copy of the
    keys, from which the agent reads; the agent also applies its own writes to the copy as soon
    as they are confirmed.  Keys and values are those before
    base64, which keeps them apart. *)
From S2P Require Import Prelude PyDict PyVal Effects Utils.

Open Scope string_scope.
Open Scope Z_scope.

(** A key with its value, absent when it is empty, its revision and its lease *)
Record node := MkNode { n_key : string; n_value : option string; mod_revision : Z; n_lease : option string }.

(** What changes a key: [PUT] with the new node, or [DELETE] with the key and the revision *)
Inductive event := EPut (kv : node) | EDelete (key : string) (revision : Z).

Definition e_key (e : event) : string := match e with EPut n => n_key n | EDelete k _ => k end.
Definition e_rev (e : event) : Z := match e with EPut n => mod_revision n | EDelete _ r => r end.

(** ** [StaleEtcdNodeGuard] ([patroni/dcs/etcd.py]) *)

Record Guard := MkGuard { _cluster_id : string; _raft_term : Z }.

Definition _reset_cluster_raft_term : Guard := MkGuard "" 0.

(** [_check_cluster_raft_term]: an absent id or term is the empty string; [StaleEtcdNode] is raised when the
    result is [None]. *)
Definition _check_cluster_raft_term (cluster_id value : string) (g : Guard) : option () * Guard :=
  if (cluster_id =? "")%string || (value =? "")%string then (Some (), g) else
  let g := if negb (_cluster_id g =? "")%string && negb (_cluster_id g =? cluster_id)%string then MkGuard (_cluster_id g) 0 else g in
  let g := MkGuard cluster_id (_raft_term g) in
  match Lexing.int_of_string value with
  | None => (Some (), g)
  | Some raft_term => if raft_term <? _raft_term g then (None, g) else (Some (), MkGuard cluster_id raft_term)
  end.

(** ** The cache *)

(** The keys of which changes matter, and the name of the node *)
Record watched := MkWatched { config_key : string; leader_key : string; optime_key : string; status_key : string; own_name : string }.

(** The cache, whether it can be read, whether the HA loop is woken up, and the last term *)
Record KVCache := MkCache { _object_cache : dict node; _is_ready : bool; woken : bool; guard : Guard }.

Definition put_cache (d : dict node) (c : KVCache) : KVCache := MkCache d (_is_ready c) (woken c) (guard c).

(** [set]: whether the value is newer, and the old one *)
Definition set (value : node) (overwrite : bool) (c : KVCache) : (bool * option node) * KVCache :=
  let old := Dict.get (n_key value) (_object_cache c) in
  let ret := match old with Some o => mod_revision o <? mod_revision value | None => true end in
  let same := match old with Some o => mod_revision o =? mod_revision value | None => false end in
  ((ret, old), if ret || (overwrite && same) then put_cache (Dict.set (n_key value) value (_object_cache c)) c else c).

(** [delete] *)
Definition delete (name : string) (revision : Z) (c : KVCache) : (bool * option node) * KVCache :=
  let old := Dict.get name (_object_cache c) in
  match old with
  | Some o => if mod_revision o <? revision then ((true, old), put_cache (Dict.del name (_object_cache c)) c) else ((false, old), c)
  | None => ((true, old), c)
  end.

(** [copy], [get] *)
Definition copy (c : KVCache) : list node := Dict.values (_object_cache c).
Definition get (name : string) (c : KVCache) : option node := Dict.get name (_object_cache c).

(** [value_changed] of [_process_event] *)
Definition value_changed (w : watched) (key : string) (old_value new_value : option string) : bool :=
  negb (bool_decide (old_value = new_value)) &&
  ((key =? leader_key w)%string
   || ((key =? optime_key w)%string || (key =? status_key w)%string) && negb (bool_decide (new_value = None))
   || (key =? config_key w)%string && negb (bool_decide (old_value = None)) && negb (bool_decide (new_value = None))).

(** [_process_event]: the values of a node [None] or the empty string are those of an absent key. *)
Definition _process_event (w : watched) (e : event) (c : KVCache) : KVCache :=
  let '((success, old), c) := match e with
                              | EDelete key revision => delete key revision c
                              | EPut kv => set kv true c
                              end in
  if success then
    let key := e_key e in
    let new_value := match e with EPut kv => n_value kv | EDelete _ _ => None end in
    if value_changed w key (old ≫= n_value) new_value
       && (negb ((key =? optime_key w)%string || (key =? status_key w)%string)
           || negb (bool_decide ((get (leader_key w) c ≫= n_value) = Some (own_name w))))
    then MkCache (_object_cache c) (_is_ready c) true (guard c) else c
  else c.

(** A message of the watch: an error, or a result *)
Record message := MkMessage { m_error : option pyexn; m_canceled : bool; m_cluster_id : string; m_raft_term : string; m_events : list event }.

(** [_process_message]; [Etcd3WatchCanceled] is an [EtcdException], [StaleEtcdNode] is another exception. *)
Definition _process_message (w : watched) (m : message) (c : KVCache) : exc () * KVCache :=
  match m_error m with
  | Some e => (Raise e, c)
  | None =>
      if m_canceled m then (Raise EtcdException, c) else
      let '(r, g) := _check_cluster_raft_term (m_cluster_id m) (m_raft_term m) (guard c) in
      let c := MkCache (_object_cache c) (_is_ready c) (woken c) g in
      match r with
      | None => (Raise OtherException, c)
      | Some _ => (Ok (), foldl (λ c e, _process_event w e c) c (m_events m))
      end
  end.

(** [_build_cache], up to the watch: the keys that [prefix] returned become the cache. *)
Definition load_snapshot (kvs : list node) (cluster_id raft_term : string) (c : KVCache) : exc () * KVCache :=
  let d := Dict.of_items (map (λ n, (n_key n, n)) kvs) in
  let '(r, g) := _check_cluster_raft_term cluster_id raft_term _reset_cluster_raft_term in
  match r with
  | None => (Raise OtherException, MkCache d (_is_ready c) (woken c) g)
  | Some _ => (Ok (), MkCache d true (woken c) g)
  end.

(** The loop over the messages of the watch, and what follows its end: the cache cannot be read. *)
Fixpoint follow (w : watched) (l : list message) (c : KVCache) : KVCache :=
  match l with
  | [] => c
  | m :: l' => let '(r, c) := _process_message w m c in match r with Ok _ => follow w l' c | Raise _ => c end
  end.

Definition _build_cache (w : watched) (kvs : list node) (cluster_id raft_term : string) (l : list message) (c : KVCache) : KVCache :=
  let '(r, c) := load_snapshot kvs cluster_id raft_term c in
  match r with
  | Raise _ => c
  | Ok _ => let c := follow w l c in MkCache (_object_cache c) false (woken c) (guard c)
  end.

(** ** The state of etcd

    [final l]: the keys after the events [l]; the revisions of the events of a key increase. *)
Definition apply_event (e : event) (d : string → option node) : string → option node :=
  λ k, if decide (k = e_key e) then match e with EPut n => Some n | EDelete _ _ => None end else d k.
Definition final (l : list event) : string → option node := foldl (λ d e, apply_event e d) (λ _, None) l.

Definition increasing (l : list event) : Prop :=
  ∀ i j e e', l !! i = Some e → l !! j = Some e' → (i < j)%nat → e_key e = e_key e' → e_rev e < e_rev e'.

(** What the two threads do with the cache: the watcher processes the next event, or the agent applies a
    write [e] of its own that etcd has confirmed.  The fields it has sent are its value. *)
Inductive action := Watched (e : event) | Own (e : event).

Definition act (w : watched) (a : action) (c : KVCache) : KVCache :=
  match a with
  | Watched e => _process_event w e c
  | Own (EPut n) => (set n false c).2
  | Own (EDelete k r) => (delete k r c).2
  end.

Definition stream (l : list action) : list event := omap (λ a, match a with Watched e => Some e | Own _ => None end) l.

(** ** Convergence *)

Definition is_put (e : event) : bool := match e with EPut _ => true | EDelete _ _ => false end.

(** The event of etcd that confirms a write *)
Definition confirms (e e' : event) : Prop := e_key e = e_key e' ∧ e_rev e = e_rev e' ∧ is_put e = is_put e'.

(** Every own write is applied before the watcher has seen it. *)
Fixpoint early (l : list action) : Prop :=
  match l with
  | [] => True
  | Watched _ :: l' => early l'
  | Own e :: l' => (∃ e', e' ∈ stream l' ∧ confirms e e') ∧ early l'
  end.

Lemma final_snoc l e : final (l ++ [e]) = apply_event e (final l).
Proof. unfold final. by rewrite foldl_app. Qed.

Lemma final_put l k n : final l k = Some n → EPut n ∈ l ∧ n_key n = k.
Proof.
  induction l as [|e l IH] using rev_ind; [done|]. rewrite final_snoc. unfold apply_event.
  case_decide as Hk; [|intros [? ?]%IH; set_solver]. destruct e as [n'|k' r]; [|done]. intros [= ->]. set_solver.
Qed.

Lemma increasing_app l1 e e' l2 : increasing (l1 ++ l2) → e ∈ l1 → e' ∈ l2 → e_key e = e_key e' → e_rev e < e_rev e'.
Proof.
  intros H [i Hi]%list_elem_of_lookup [j Hj]%list_elem_of_lookup Hk. pose proof (lookup_lt_Some _ _ _ Hi).
  apply (H i (length l1 + j)%nat e e'); [by apply lookup_app_l_Some|by rewrite lookup_app_r, Nat.add_comm, Nat.add_sub by lia|lia|done].
Qed.

(** What the cache has for a key while [rest] is to come: the state, or something that is to come *)
Definition tracks (done : list event) (rest : list action) (c : KVCache) (k : string) : Prop :=
  match get k c with
  | Some n => final done k = Some n ∨ ∃ e, e ∈ stream rest ∧ is_put e = true ∧ e_key e = k ∧ e_rev e = mod_revision n
  | None => final done k = None ∨ ∃ e, e ∈ stream rest ∧ is_put e = false ∧ e_key e = k
  end.

Lemma get_process w e c : _object_cache (_process_event w e c) =
  _object_cache (match e with EDelete key revision => delete key revision c | EPut kv => set kv true c end).2.
Proof.
  unfold _process_event. destruct (match e with EDelete key revision => _ | EPut kv => _ end) as [[ok old] c'].
  destruct ok; [|done]. by destruct (_ && _).
Qed.

Lemma cache_get_set k n b c : get k (set n b c).2 =
  if decide (k = n_key n) then
    match get k c with
    | Some o => if (mod_revision o <? mod_revision n) || (b && (mod_revision o =? mod_revision n)) then Some n else Some o
    | None => Some n
    end
  else get k c.
Proof.
  unfold set, get. cbn. case_decide as Hk; [subst|].
  - destruct (Dict.get (n_key n) (_object_cache c)) as [o|] eqn:E; cbn; [|by rewrite Dict.get_set_eq].
    destruct (_ || _); cbn; [by rewrite Dict.get_set_eq|done].
  - destruct (_ || _); cbn; [by rewrite Dict.get_set_ne|done].
Qed.

Lemma cache_get_delete k name r c : get k (delete name r c).2 =
  if decide (k = name) then match get k c with Some o => if mod_revision o <? r then None else Some o | None => None end else get k c.
Proof.
  unfold delete, get. case_decide as Hk; [subst|].
  - destruct (Dict.get name (_object_cache c)) as [o|] eqn:E; cbn; [|done]. destruct (_ <? r); cbn; [by rewrite Dict.get_del_eq|done].
  - destruct (Dict.get name (_object_cache c)) as [o|] eqn:E; cbn; [|done]. destruct (_ <? r); cbn; [by rewrite Dict.get_del_ne|done].
Qed.

(** The watcher's next event *)
Lemma tracks_watched w e done rest c k : increasing (done ++ e :: stream rest) → (∀ k, tracks done (Watched e :: rest) c k) →
  tracks (done ++ [e]) rest (_process_event w e c) k.
Proof.
  intros Hinc Ht. specialize (Ht k). unfold tracks in *.
  assert (get k (_process_event w e c) = get k (match e with EDelete key revision => delete key revision c | EPut kv => set kv true c end).2) as Hg
    by (unfold get; by rewrite get_process).
  assert (∀ n, final done k = Some n → k = e_key e → mod_revision n < e_rev e) as Hold.
  { intros n [Hn Hk]%final_put Hke. apply (increasing_app done (EPut n) e (e :: stream rest)); [done|done|set_solver|cbn; congruence]. }
  assert (∀ e', e' ∈ stream (Watched e :: rest) → e_key e' ≠ e_key e ∨ e_rev e' ≠ e_rev e ∨ is_put e' ≠ is_put e → e' ∈ stream rest) as Hrest.
  { cbn. intros e' [->|He']%elem_of_cons Hd; [naive_solver|done]. }
  rewrite Hg, final_snoc. unfold apply_event. destruct (decide (k = e_key e)) as [Hk|Hk].
  - destruct e as [n|key r]; cbn [e_key e_rev] in *; [rewrite cache_get_set|rewrite cache_get_delete]; rewrite decide_True by done.
    + destruct (get k c) as [o|]; [|by left]. destruct (Z.ltb_spec (mod_revision o) (mod_revision n)); [by left|].
      destruct (Z.eqb_spec (mod_revision o) (mod_revision n)); [by left|]. cbn. right.
      destruct Ht as [Hf|(e' & He' & Hp & Hk' & Hr')]; [apply Hold in Hf; [lia|done]|].
      exists e'. split_and!; try done. apply Hrest; [done|]. right. left. cbn. congruence.
    + destruct (get k c) as [o|]; [|by left]. destruct (Z.ltb_spec (mod_revision o) r); [by left|]. right.
      destruct Ht as [Hf|(e' & He' & Hp & Hk' & Hr')]; [apply Hold in Hf; [lia|done]|].
      exists e'. split_and!; try done. apply Hrest; [done|]. right. right. by rewrite Hp.
  - assert (get k (match e with EDelete key revision => delete key revision c | EPut kv => set kv true c end).2 = get k c) as ->.
    { destruct e; cbn in Hk; [rewrite cache_get_set|rewrite cache_get_delete]; by rewrite decide_False. }
    destruct (get k c); (destruct Ht as [?|(e' & He' & ?)]; [by left|right]); exists e'; (split; [|done]); apply Hrest; try done; left; naive_solver.
Qed.

(** An own write that etcd has confirmed *)
Lemma tracks_own w e done rest c k : (∃ e', e' ∈ stream rest ∧ confirms e e') → (∀ k, tracks done (Own e :: rest) c k) →
  tracks done rest (act w (Own e) c) k.
Proof.
  intros (e' & He' & Hk & Hr & Hp) Ht. specialize (Ht k). unfold tracks in *. cbn [stream omap list_omap] in Ht. fold (stream rest) in Ht.
  destruct e as [n|key r]; cbn [act e_key e_rev is_put] in *; [rewrite cache_get_set|rewrite cache_get_delete]; case_decide as Hd; try done.
  - assert (∃ e, e ∈ stream rest ∧ is_put e = true ∧ e_key e = k ∧ e_rev e = mod_revision n) as Hn by (exists e'; split_and!; congruence).
    destruct (get k c) as [o|]; [|by right]. cbn. rewrite orb_false_r. destruct (_ <? _); [by right|done].
  - destruct (get k c) as [o|]; [|done]. destruct (_ <? r); [|done]. right. exists e'. split_and!; congruence.
Qed.

Lemma tracks_run w done rest c : increasing (done ++ stream rest) → early rest → (∀ k, tracks done rest c k) →
  ∀ k, get k (foldl (λ c a, act w a c) c rest) = final (done ++ stream rest) k.
Proof.
  revert done c. induction rest as [|a rest IH]; intros done c Hinc He Ht k.
  - cbn. rewrite app_nil_r. specialize (Ht k). unfold tracks in Ht. cbn in Ht.
    destruct (get k c); destruct Ht as [?|(? & ?%elem_of_nil & _)]; done.
  - destruct a as [e|e]; cbn [foldl stream omap list_omap].
    + fold (stream rest). cbn in Hinc, He. fold (stream rest) in Hinc. replace (done ++ e :: stream rest)%list with ((done ++ [e]) ++ stream rest)%list in * by by rewrite <-app_assoc.
      apply IH; [done|done|]. intros k'. apply tracks_watched; [by rewrite <-app_assoc in Hinc|done].
    + fold (stream rest). cbn in Hinc, He. destruct He as [Hc He]. apply IH; [done|done|]. intros k'. by apply tracks_own.
Qed.

(** The snapshot that starts the cache *)
Definition snapshot_of (past : list event) (c : KVCache) : Prop := ∀ k, get k c = final past k.

(** C32: whatever the order in which the watcher's events and the node's own writes reach the cache, as long as
    every own write is applied before the watcher has seen it, the cache has the keys of etcd once the watcher
    has caught up. *)
Theorem cache_converges w past acts c : snapshot_of past c → increasing (past ++ stream acts) → early acts →
  snapshot_of (past ++ stream acts) (foldl (λ c a, act w a c) c acts).
Proof.
  intros Hs Hinc He k. apply tracks_run; [done|done|]. intros k'. unfold tracks. rewrite Hs.
  destruct (final past k'); by left.
Qed.

(** An own write that is applied after the watcher has seen that the key was deleted stays in the cache. *)
Lemma late_write_resurrects w n r c : mod_revision n < r → get (n_key n) c = None →
  let acts := [Watched (EPut n); Watched (EDelete (n_key n) r); Own (EPut n)] in
  final (stream acts) (n_key n) = None ∧ get (n_key n) (foldl (λ c a, act w a c) c acts) = Some n.
Proof.
  intros Hr Hc acts. split; [cbn; unfold final, apply_event; cbn; by rewrite decide_True|]. unfold acts. cbn [foldl act].
  assert (get (n_key n) (_process_event w (EPut n) c) = Some n) as H1.
  { unfold get. rewrite get_process. fold (get (n_key n) (set n true c).2). rewrite cache_get_set, decide_True, Hc by done. done. }
  assert (get (n_key n) (_process_event w (EDelete (n_key n) r) (_process_event w (EPut n) c)) = None) as H2.
  { unfold get. rewrite get_process. fold (get (n_key n) (delete (n_key n) r (_process_event w (EPut n) c)).2).
    rewrite cache_get_delete, decide_True, H1 by done. by rewrite (proj2 (Z.ltb_lt _ _) Hr). }
  by rewrite cache_get_set, decide_True, H2 by done.
Qed.

Definition toy_watched : watched := MkWatched "config" "leader" "optime" "status" "a".
Definition toy_cache : KVCache := MkCache [] true false (MkGuard "c" 1).
Definition toy_actions : list action :=
  [Own (EPut (MkNode "leader" (Some "a") 7 (Some "l"))); Watched (EPut (MkNode "sync" (Some "s") 6 None));
   Watched (EPut (MkNode "leader" (Some "a") 7 (Some "l"))); Own (EDelete "leader" 9); Watched (EDelete "leader" 9)].

Lemma cache_converges_witness : get "leader" (foldl (λ c a, act toy_watched a c) toy_cache toy_actions) = None ∧
  get "sync" (foldl (λ c a, act toy_watched a c) toy_cache toy_actions) = Some (MkNode "sync" (Some "s") 6 None).
Proof.
  assert (snapshot_of ([] ++ stream toy_actions) (foldl (λ c a, act toy_watched a c) toy_cache toy_actions)) as H.
  { apply (cache_converges toy_watched [] toy_actions toy_cache); [done| |].
    - intros i j e e' Hi Hj Hij. do 3 (destruct i as [|i]; [do 4 (destruct j as [|j]; [try lia; by simplify_eq/=|]); done|]); done.
    - cbn. split_and!; [|  |done]; eexists; (split; [|split_and!; done || reflexivity]); set_solver. }
  split; [rewrite (H "leader")|rewrite (H "sync")]; vm_compute; reflexivity.
Defined.
