(* ===== verification/Etcd3.v ===== *)
(** * The etcd backend of the DCS client ([patroni/dcs/etcd3.py], [Etcd3])

    The calls of the client about the keys of a cluster, over [EtcdNet]: the requests to the
    servers of etcd, the clock and the cache of the watcher.  Every request is recorded with its
    result.  Keys and values are those before base64.  [AbstractEtcd] of
    [patroni/dcs/etcd.py] handles the exceptions. *)
From S2P Require Import Prelude Lexing PyDict PyVal Effects Json Utils Tags DcsData GlobalConfig Slots Dcs RaftDcs Retry Etcd3Cache.

Open Scope string_scope.
Open Scope Z_scope.

(** ** Requests *)

Record put_fields := MkPut { p_key : string; p_value : string; p_lease : option string }.

Inductive compare :=
  | CmpValue (key value : string)
  | CmpCreate (key create_revision : string)
  | CmpMod (key : string) (mod_revision : pyval).

Inductive operation :=
  | OpPut (f : put_fields)
  | OpDelete (key : string) (range_end : option string)
  | OpTxn (c : compare) (success : operation).

Inductive request :=
  | RPut (f : put_fields)
  | RDeleteRange (key : string) (range_end : option string)
  | RTxn (c : compare) (success : operation) (failure : option operation)
  | RRange (key : string) (range_end : option string) (serializable : bool)
  | RLeaseGrant (TTL : Z)
  | RLeaseKeepalive (ID : string).

(** What is read of a response: the revision, [succeeded], that of the nested transaction, the keys, the
    new lease and the remaining time of a lease *)
Record response := MkResponse {
  revision : Z; succeeded : bool; nested_succeeded : bool; kvs : list node; ID : string; TTL : option string }.

(** The world of a client: a request, which may sleep and lengthen the delay of the [Retry] it is given, the
    clock and [random.randint], and the cache of the watcher, with the wait for it and its restart. *)
Class EtcdNet (W : Type) := {
  rpc : request → Retry * W → exc response * (Retry * W);
  etcd_time : W → Z;
  etcd_sleep : Z → W → W;
  etcd_randint : Z → W → Z * W;
  has_cache : W → bool;
  cache_of : W → KVCache;
  put_kv_cache : KVCache → W → W;
  _wait_cache : W → exc () * W;
  _restart_watcher : W → W
}.

(** The object: its settings, its lease and what it remembers *)
Record Etcd3 := MkEtcd3 {
  _ctl : bool; _ttl : Z; _loop_wait : Z; _lease : option string; _last_lease_refresh : Z; do_not_watch : bool; _has_failed : bool }.

Record host (W : Type) := MkHost { obj : Etcd3; rt : Retry; world : W; sent : list (request * exc response) }.
Arguments MkHost {W} _ _ _ _.
Arguments obj {W} _.
Arguments rt {W} _.
Arguments world {W} _.
Arguments sent {W} _.

Section host.
Context {W : Type} `{!EtcdNet W}.

Definition M (A : Type) : Type := eff (host W) A.

Definition put_world (w : W) (s : host W) : host W := MkHost (obj s) (rt s) w (sent s).

#[export] Instance etcd_retry : RetryHost (host W) := {
  retry_of := rt;
  put_retry r s := MkHost (obj s) r (world s) (sent s);
  time s := etcd_time (world s);
  sleep_func t s := put_world (etcd_sleep t (world s)) s;
  randint n s := let '(k, w) := etcd_randint n (world s) in (k, put_world w s);
  exn_sleeptime _ := None
}.

Definition with_obj (f : Etcd3 → Etcd3) : M () := puts (λ s, MkHost (f (obj s)) (rt s) (world s) (sent s)).
Definition set_lease (l : option string) (o : Etcd3) : Etcd3 :=
  MkEtcd3 (_ctl o) (_ttl o) (_loop_wait o) l (_last_lease_refresh o) (do_not_watch o) (_has_failed o).
Definition set_last_refresh (t : Z) (o : Etcd3) : Etcd3 :=
  MkEtcd3 (_ctl o) (_ttl o) (_loop_wait o) (_lease o) t (do_not_watch o) (_has_failed o).
Definition set_has_failed (b : bool) (o : Etcd3) : Etcd3 :=
  MkEtcd3 (_ctl o) (_ttl o) (_loop_wait o) (_lease o) (_last_lease_refresh o) (do_not_watch o) b.

(** [_lease]; the empty string is no lease. *)
Definition lease_of (o : Etcd3) : option string := match _lease o with Some "" => None | l => l end.
Definition lease_ : M (option string) := gets (λ s, lease_of (obj s)).
Definition failed (b : bool) : M () := with_obj (set_has_failed b).

(** ** The client *)

(** [Etcd3Client.call_rpc]: the request and its result *)
Definition send (req : request) : M response := λ s,
  let '(r, (rt', w')) := rpc req (rt s, world s) in (r, MkHost (obj s) rt' w' ((req, r) :: sent s)).

(** The writes of a successful request that are applied to the cache *)
Definition own_write (rev : Z) (o : operation) : list action :=
  match o with
  | OpPut f => [Own (EPut (MkNode (p_key f) (Some (p_value f)) rev (p_lease f)))]
  | OpDelete key None => [Own (EDelete key rev)]
  | _ => []
  end.

Definition own_writes (req : request) (ret : response) : list action :=
  match req with
  | RTxn _ success failure =>
      if succeeded ret || match failure with Some (OpTxn _ _) => nested_succeeded ret | _ => false end
      then own_write (revision ret) success else []
  | RPut f => own_write (revision ret) (OpPut f)
  | RDeleteRange key range_end => own_write (revision ret) (OpDelete key range_end)
  | _ => []
  end.

(** [PatroniEtcd3Client.call_rpc]; the keys of which changes matter are not used by an own write. *)
Definition call_rpc (req : request) : M response :=
  ret ← send req;
  puts (λ s, if has_cache (world s)
             then put_world (put_kv_cache (foldl (λ c a, act (MkWatched "" "" "" "" "") a c) (cache_of (world s)) (own_writes req ret)) (world s)) s
             else s);;
  mret ret.

(** [txn]: [None] is the empty dictionary.  Without [failure] the watcher is restarted when the
    comparison did not hold. *)
Definition txn (c : compare) (success : operation) (failure : option operation) : M (option response) :=
  ret ← call_rpc (RTxn c success failure);
  let res := if bool_decide (failure ≠ None) || succeeded ret then Some ret else None in
  (match failure, res with
   | None, None => puts (λ s, if has_cache (world s) then put_world (_restart_watcher (world s)) s else s)
   | _, _ => mret ()
   end);;
  mret res.

(** [put], [deleterange], [deleteprefix], [lease_grant], [lease_keepalive] *)
Definition put (key value : string) (lease : option string) (create_revision : option string) (mod_rev : pyval) : M (option response) :=
  let fields := MkPut key value lease in
  match create_revision, mod_rev with
  | Some r, _ => txn (CmpCreate key r) (OpPut fields) None
  | None, VNone => ret ← call_rpc (RPut fields); mret (Some ret)
  | None, r => txn (CmpMod key r) (OpPut fields) None
  end.

Definition deleterange (key : string) (range_end : option string) (mod_rev : pyval) : M (option response) :=
  match mod_rev with
  | VNone => ret ← call_rpc (RDeleteRange key range_end); mret (Some ret)
  | r => txn (CmpMod key r) (OpDelete key range_end) None
  end.

(** [prefix_range_end]: the last character, below the greatest one, is replaced by the next *)
Fixpoint bump_last (l : list ascii) : list ascii :=
  match l with
  | [] => []
  | c :: l' => if (nat_of_ascii c <? 255)%nat then ascii_of_nat (nat_of_ascii c + 1) :: l' else c :: bump_last l'
  end.
Definition prefix_range_end (v : string) : string := String.string_of_list_ascii (rev (bump_last (rev (String.list_ascii_of_string v)))).

Definition deleteprefix (key : string) : M (option response) := deleterange key (Some (prefix_range_end key)) VNone.

Definition lease_grant (ttl : Z) : M string := ret ← call_rpc (RLeaseGrant ttl); mret (ID ret).
Definition lease_keepalive (l : string) : M bool :=
  ret ← call_rpc (RLeaseKeepalive l);
  mret (match TTL ret with Some t => negb (t =? "")%string | None => false end).

Definition prefix (key : string) (serializable : bool) : M (list node) :=
  ret ← call_rpc (RRange key (Some (prefix_range_end key)) serializable); mret (kvs ret).

(** ** [AbstractEtcd] *)

(** [etcd.EtcdException] and its subclasses *)
Definition is_etcd (e : pyexn) : bool :=
  match e with
  | EtcdException | EtcdConnectionFailed | EtcdClientError | LeaseNotFound | DeadlineExceeded | FailedPrecondition => true
  | _ => false
  end.
Definition is_client_error (e : pyexn) : bool :=
  match e with EtcdClientError | LeaseNotFound | DeadlineExceeded | FailedPrecondition => true | _ => false end.

(** The exceptions that the object's [_retry] repeats a call on *)
Definition retry_errors (e : pyexn) : bool := match e with DeadlineExceeded | FailedPrecondition => true | _ => false end.

(** [retry(method)] with a copy of [_retry]; [_retry_] is a further call with the same copy. *)
Definition retry {A} (m : M A) : M A :=
  puts (λ s, MkHost (obj s) (Retry.copy (rt s)) (world s) (sent s));; retry_call m.
Definition _retry_ {A} (m : M A) : M A := retry_call m.

(** [handle_etcd_exceptions], for the methods with [catch_etcd_errors]; an error of the module is a [DCSError]. *)
Definition catch_etcd_errors (m : M bool) : M bool := λ s,
  let '(r, s) := m s in
  match r with
  | Ok a => (failed false;; mret a) s
  | Raise SystemExit => (Raise SystemExit, s)
  | Raise e => if is_etcd e || match e with RetryFailedError => true | _ => false end
               then (failed true;; mret false) s
               else (failed true;; lift_exc (Raise DCSError)) s
  end.

(** [_run_and_handle_exceptions] *)
Definition run_and_handle {A} (m : M A) : M A := λ s,
  let '(r, s) := m s in
  match r with
  | Ok a => (Ok a, s)
  | Raise SystemExit => (Raise SystemExit, s)
  | Raise (RetryFailedError | EtcdConnectionFailed) => (Raise DCSError, s)
  | Raise e => if is_etcd e then (failed true;; lift_exc (Raise ReturnFalseException)) s
               else (failed true;; lift_exc (Raise DCSError)) s
  end.

(** [catch_return_false_exception] ([patroni/dcs/__init__.py]) *)
Definition catch_return_false (m : M bool) : M bool :=
  try_except (λ e, match e with ReturnFalseException => true | _ => false end) m (mret false).

Definition truthy_response (r : option response) : bool := match r with Some _ => true | None => false end.

(** ** The lease *)

(** [_do_refresh_lease]: whether there is a new lease *)
Definition _do_refresh_lease (force : bool) : M bool :=
  o ← gets obj;
  now ← gets (λ s, etcd_time (world s));
  if negb force && bool_decide (lease_of o ≠ None) && (now <? _last_lease_refresh o + _loop_wait o) then mret false else
  (match lease_of o with
   | Some l => alive ← lease_keepalive l; if alive : bool then mret () else with_obj (set_lease None)
   | None => mret ()
   end);;
  l ← lease_;
  (if bool_decide (l = None) then id ← lease_grant (_ttl o); with_obj (set_lease (Some id)) else mret ());;
  now ← gets (λ s, etcd_time (world s));
  with_obj (set_last_refresh now);;
  mret (bool_decide (l = None)).

(** [refresh_lease] *)
Definition refresh_lease : M bool :=
  try_except (λ e, is_client_error e || match e with RetryFailedError => true | _ => false end)
    (retry (_do_refresh_lease false)) (lift_exc (Raise DCSError)).

(** [set_ttl]; [super().set_ttl] says whether it has changed. *)
Definition set_ttl (ttl : Z) : M () :=
  o ← gets obj;
  let changed := negb (_ttl o =? ttl) in
  with_obj (λ o, MkEtcd3 (_ctl o) ttl (_loop_wait o) (if changed then None else _lease o) (_last_lease_refresh o) changed (_has_failed o)).

(** [watch] up to the wait: whether it returns at once, which it does after a change of [ttl].  The next
    refresh of the lease is a real one. *)
Definition watch : M bool :=
  with_obj (set_last_refresh 0);;
  o ← gets obj;
  with_obj (λ o, MkEtcd3 (_ctl o) (_ttl o) (_loop_wait o) (_lease o) (_last_lease_refresh o) false (_has_failed o));;
  mret (do_not_watch o).

Section dcs.
Context `{!Datetime, !Json} (d : AbstractDCS).

(** ** Reading a cluster *)

(** [cluster_prefix] *)
Definition cluster_prefix : string :=
  if mpp_coordinator (_mpp d) then _base_path d +:+ "/" else client_path d "".

(** [get_cluster]: from the cache, or with a request *)
Definition get_cluster (path : string) : M (list node) :=
  s ← gets id;
  if has_cache (world s) && String.prefix cluster_prefix path then
    (λ s, let '(r, w) := _wait_cache (world s) in (r, put_world w s));;
    gets (λ s, Etcd3Cache.copy (cache_of (world s)))
  else retry (prefix path (negb (_ctl (obj s)))).

Section nodes.
Context (parse_connection_string : string → pyval * pyval).

Definition node_value (n : node) : pyval := VStr (default "" (n_value n)).
Definition node_lease (n : node) : pyval := match n_lease n with Some l => VStr l | None => VNone end.
Definition opt_node_value (o : option node) : pyval := match o with Some n => node_value n | None => VNone end.
Definition opt_revision (o : option node) : pyval := match o with Some n => VInt (mod_revision n) | None => VNone end.

(** [member] *)
Definition member (key : string) (n : node) : Member :=
  member_from_node parse_connection_string (VInt (mod_revision n)) (basename key) (node_lease n) (default "" (n_value n)).

Definition etcd_members (nodes : dict node) : list Member :=
  omap (λ kv, if String.prefix "members/" kv.1 && (slashes kv.1 =? 1)%nat then Some (member kv.1 kv.2) else None) nodes.

(** The leader: the first member of that name, or one without data *)
Definition etcd_leader (members : list Member) (o : option node) : option Leader :=
  (λ n, let name := default "" (n_value n) in
        MkLeader (VInt (mod_revision n)) (node_lease n)
          (default (MkMember (VInt (-1)) name VNone []) (head (List.filter (λ m, (m_name m =? name)%string) members)))) <$> o.

(** [_cluster_from_nodes] *)
Definition _cluster_from_nodes (nodes : dict node) : exc Cluster :=
  let node k := Dict.get k nodes in
  let status := match node "status" with Some n => Some n | None => node "optime/leader" end in
  let members := etcd_members nodes in
  failover ← (match node "failover" with
              | Some n => f ← failover_from_node (VInt (mod_revision n)) (node_value n); mret (Some f)
              | None => mret None
              end);
  mret (MkCluster
    ((λ n, default "" (n_value n)) <$> node "initialize")
    ((λ n, config_from_node (VInt (mod_revision n)) (node_value n) VNone) <$> node "config")
    (etcd_leader members (node "leader"))
    (status_from_node (opt_node_value status))
    members failover
    (sync_from_node (opt_revision (node "sync")) (opt_node_value (node "sync")))
    ((λ n, history_from_node (VInt (mod_revision n)) (node_value n)) <$> node "history")
    (match node "failsafe" with Some n => loads_dict (node_value n) | None => None end)
    []).

(** [_postgresql_cluster_loader] *)
Definition _postgresql_cluster_loader (path : string) : M Cluster :=
  l ← get_cluster path;
  lift_exc (_cluster_from_nodes (Dict.of_items
    (omap (λ n, if String.prefix path (n_key n) then Some (drop_chars (String.length path) (n_key n), n) else None) l))).

(** [_mpp_cluster_loader] *)
Fixpoint load_groups (groups : list (Z * dict node)) : exc (list (Z * Cluster)) :=
  match groups with
  | [] => mret []
  | (g, nodes) :: groups => c ← _cluster_from_nodes nodes; l ← load_groups groups; mret ((g, c) :: l)
  end.

Definition _mpp_cluster_loader : M (list (Z * Cluster)) :=
  let path := _base_path d +:+ "/" in
  l ← get_cluster path;
  lift_exc (load_groups (foldl (λ groups n,
    match split_once (drop_chars (String.length path) (n_key n)) with
    | Some (g, key) => if is_group g then add_to_group (default 0 (int_of_string g)) key n groups else groups
    | None => groups
    end) [] l)).

(** [_load_cluster]: any exception becomes an error of the module. *)
Definition _load_cluster {A} (loader : M A) : M A := λ s,
  let '(r, s) := loader s in
  match r with
  | Ok a => (failed false;; mret a) s
  | Raise SystemExit => (Raise SystemExit, s)
  | Raise _ => (failed true;; lift_exc (Raise DCSError)) s
  end.

End nodes.

(** [touch_member], given the client's current view *)
Definition touch_member (cluster : option Cluster) (data : dict pyval) : M bool := catch_etcd_errors (
  ok ← try_except (λ e, match e with DCSError => true | _ => false end) (refresh_lease;; mret true) (mret false);
  if negb ok then mret false else
  l ← lease_;
  let same := match cluster ≫= (λ c, get_member c (VStr (_name d)) false) with
              | Some (inl m) => bool_decide (m_session m = match l with Some l => VStr l | None => VNone end) && deep_compare data (m_data m)
              | _ => false
              end in
  if same then mret true else
  try_except (λ e, match e with LeaseNotFound => true | _ => false end)
    (r ← put (member_path d) (dumps (VDict data)) l None VNone; mret (truthy_response r))
    (with_obj (set_lease None);; mret false)).

(** [take_leader] *)
Definition take_leader : M bool := catch_etcd_errors (
  l ← lease_; r ← retry (put (leader_path d) (_name d) l None VNone); mret (truthy_response r)).

(** [put(leader_path, name, lease, create_revision='0')] *)
Definition create_leader : M (option response) := l ← lease_; put (leader_path d) (_name d) l (Some "0") VNone.

(** [_do_attempt_to_acquire_leader]: the time limits are in seconds. *)
Definition _do_attempt_to_acquire_leader : M bool :=
  try_except (λ e, match e with LeaseNotFound => true | _ => false end)
    (r ← _retry_ create_leader; mret (truthy_response r))
    (with_obj (set_lease None);;
     ok ← ensure_deadline 0 None;
     if negb ok then mret false else
     _retry_ (_do_refresh_lease false);;
     ensure_deadline 100 (Some DCSError);;
     r ← _retry_ create_leader; mret (truthy_response r)).

(** [attempt_to_acquire_leader] *)
Definition attempt_to_acquire_leader : M bool := catch_return_false (
  run_and_handle (retry (_do_refresh_lease false));;
  ensure_deadline 100 (Some DCSError);;
  run_and_handle _do_attempt_to_acquire_leader).

(** The transaction of [_update_leader]: the lease of an own key is replaced, a key that does not exist is created. *)
Definition update_txn (l : string) : M (option response) :=
  let fields := MkPut (leader_path d) (_name d) (Some l) in
  txn (CmpValue (leader_path d) (_name d)) (OpPut fields) (Some (OpTxn (CmpCreate (leader_path d) "0") (OpPut fields))).

(** [_update_leader] *)
Definition _update_leader (leader : Leader) : M bool := catch_return_false (
  run_and_handle (retry (_do_refresh_lease true));;
  l ← lease_;
  match l with
  | None => mret false
  | Some l =>
      if bool_decide (l_session leader = VStr l) then mret true else
      ensure_deadline 100 (Some DCSError);;
      r ← run_and_handle (_retry_ (update_txn l));
      mret (match r with Some r => succeeded r || nested_succeeded r | None => false end)
  end).

(** [_delete_leader] *)
Definition _delete_leader : M bool := catch_etcd_errors (
  r ← txn (CmpValue (leader_path d) (_name d)) (OpDelete (leader_path d) None) None; mret (truthy_response r)).

(** ** The other keys *)

Definition put_key (path value : string) (version : pyval) : M bool := catch_etcd_errors (
  r ← put path value None None version; mret (truthy_response r)).

Definition set_failover_value (value : string) (version : pyval) : M bool := put_key (failover_path d) value version.
Definition set_config_value (value : string) (version : pyval) : M bool := put_key (config_path d) value version.
Definition _write_leader_optime (last_lsn : string) : M bool := put_key (leader_optime_path d) last_lsn VNone.
Definition _write_status (value : string) : M bool := put_key (status_path d) value VNone.
Definition _write_failsafe (value : string) : M bool := put_key (failsafe_path d) value VNone.
Definition set_history_value (value : string) : M bool := put_key (history_path d) value VNone.

Definition initialize (create_new : bool) (sysid : string) : M bool := catch_etcd_errors (
  r ← retry (put (initialize_path d) sysid None (if create_new then Some "0" else None) VNone); mret (truthy_response r)).

(** [set_sync_state_value]: the new revision, or [False] *)
Definition set_sync_state_value (value : string) (version : pyval) : M pyval := λ s,
  let '(r, s) := (r ← retry (put (sync_path d) value None None version);
                  mret (match r with Some r => VInt (revision r) | None => VBool false end)) s in
  match r with
  | Ok v => (failed false;; mret v) s
  | Raise SystemExit => (Raise SystemExit, s)
  | Raise e => if is_etcd e || match e with RetryFailedError => true | _ => false end
               then (failed true;; mret (VBool false)) s else (failed true;; lift_exc (Raise DCSError)) s
  end.

Definition delete_key (m : M (option response)) : M bool := catch_etcd_errors (r ← retry m; mret (truthy_response r)).
Definition delete_sync_state (version : pyval) : M bool := delete_key (deleterange (sync_path d) None version).
Definition cancel_initialization : M bool := delete_key (deleterange (initialize_path d) None VNone).
Definition delete_cluster : M bool := delete_key (deleteprefix (client_path d "")).

(** ** The backend of the client *)

Definition etcd3_backend (parse_connection_string : string → pyval * pyval) : Backend (host W) := {|
  clock s := etcd_time (world s) / 100;
  Dcs.ttl s := _ttl (obj s);
  Dcs._load_cluster path := _load_cluster (_postgresql_cluster_loader parse_connection_string path);
  Dcs._load_groups _ := _load_cluster (_mpp_cluster_loader parse_connection_string);
  Dcs._write_leader_optime := _write_leader_optime;
  Dcs._write_status := _write_status;
  Dcs._write_failsafe := _write_failsafe;
  Dcs._update_leader o := match o with Some leader => _update_leader leader | None => lift_exc (Raise AttributeError) end;
  Dcs.attempt_to_acquire_leader := attempt_to_acquire_leader;
  Dcs.set_failover_value := set_failover_value;
  Dcs.set_sync_state_value := set_sync_state_value;
  Dcs._delete_leader _ := _delete_leader;
|}.
End dcs.
End host.
