(* ===== verification/Etcd3Lease.v ===== *)
(** * What the clients of etcd send ([patroni/dcs/etcd3.py])

    [allowed]: the requests of a node about the keys of its cluster, and those about the leader key with
    one of its own leases only.  Every method of [Etcd3] keeps to it, whatever etcd answers and whenever
    its leases run out ([client_sends_allowed]). *)
From S2P Require Import Prelude Lexing PyDict PyVal Effects Json Utils Tags DcsData GlobalConfig Slots Dcs RaftLease RaftDcs Retry Etcd3Cache Etcd3.

Open Scope string_scope.
Open Scope Z_scope.

(** ** The keys of a cluster *)

Lemma client_path_app `{!Datetime} (d : AbstractDCS) : ∃ p, ∀ path, client_path d path = p +:+ lstrip_chars (Ascii.eqb "/") path.
Proof.
  unfold client_path. destruct (mpp_enabled (_mpp d)); cbn.
  - exists (_base_path d +:+ "/" +:+ pretty (mpp_group (_mpp d)) +:+ "/"). intros path.
    by rewrite !Str.str_app_assoc.
  - exists (_base_path d +:+ "/"). intros path. by rewrite !Str.str_app_assoc.
Qed.

Lemma client_path_ne `{!Datetime} (d : AbstractDCS) a : lstrip_chars (Ascii.eqb "/") a ≠ "leader" → client_path d a ≠ leader_path d.
Proof.
  destruct (client_path_app d) as [p Hp]. unfold leader_path. rewrite !Hp. intros Ha He%app_inj. done.
Qed.

(** ** What the methods send *)

Section requests.
Context {W : Type} `{!EtcdNet W, !Datetime, !Json} (d : AbstractDCS) (T : Z).

(** The leases that etcd has granted to the client *)
Definition grants (log : list (request * exc response)) : list string :=
  omap (λ e, match e with (RLeaseGrant _, Ok r) => Some (ID r) | _ => None end) log.

Definition op_key (o : operation) : option string :=
  match o with OpPut f => Some (p_key f) | OpDelete k None => Some k | _ => None end.

(** The requests of the node [d], with its own [leases] *)
Inductive allowed (leases : list string) : request → Prop :=
  | allowed_acquire l : l ∈ leases →
      allowed leases (RTxn (CmpCreate (leader_path d) "0") (OpPut (MkPut (leader_path d) (_name d) (Some l))) None)
  | allowed_update l : l ∈ leases →
      allowed leases (RTxn (CmpValue (leader_path d) (_name d)) (OpPut (MkPut (leader_path d) (_name d) (Some l)))
        (Some (OpTxn (CmpCreate (leader_path d) "0") (OpPut (MkPut (leader_path d) (_name d) (Some l))))))
  | allowed_delete : allowed leases (RTxn (CmpValue (leader_path d) (_name d)) (OpDelete (leader_path d) None) None)
  | allowed_take l : (∀ x, l = Some x → x ∈ leases) → allowed leases (RPut (MkPut (leader_path d) (_name d) l))
  | allowed_delete_cluster e : allowed leases (RDeleteRange (client_path d "") (Some e))
  | allowed_grant : allowed leases (RLeaseGrant T)
  | allowed_keepalive l : l ∈ leases → allowed leases (RLeaseKeepalive l)
  | allowed_range k e b : allowed leases (RRange k e b)
  | allowed_put k v l : k ≠ leader_path d → allowed leases (RPut (MkPut k v l))
  | allowed_remove k : k ≠ leader_path d → allowed leases (RDeleteRange k None)
  | allowed_txn c o k : op_key o = Some k → k ≠ leader_path d → allowed leases (RTxn c o None).

Lemma allowed_mono leases leases' req : leases ⊆ leases' → allowed leases req → allowed leases' req.
Proof. intros Hs []; try (constructor; try done; set_solver). by econstructor. Qed.

(** Every request of a log was allowed with the leases granted before it. *)
Fixpoint good (log : list (request * exc response)) : Prop :=
  match log with
  | [] => True
  | (req, _) :: log' => allowed (grants log') req ∧ good log'
  end.

(** The lease of the client was granted to it; [L] are leases that are known to be granted. *)
Definition Inv (L : list string) (s : host W) : Prop :=
  (∀ l, lease_of (obj s) = Some l → l ∈ grants (sent s)) ∧ _ttl (obj s) = T ∧ good (sent s) ∧ L ⊆ grants (sent s).

Definition keeps (L : list string) {A} (m : M A) : Prop := triple (Inv L) m (λ _, Inv L) (Inv L).

Lemma Inv_weaken L L' s : L' ⊆ L → Inv L s → Inv L' s.
Proof. intros Hs (H1 & H2 & H3 & H4). split_and!; try done. set_solver. Qed.

Lemma keeps_ret L {A} (a : A) : keeps L (eff_ret (host W) A a).
Proof. by apply triple_ret. Qed.
Lemma keeps_bind L {A B} (m : M A) (f : A → M B) : keeps L m → (∀ a, keeps L (f a)) → keeps L (eff_bind (host W) A B f m).
Proof. intros Hm Hf. eapply triple_bind; [exact Hm|done]. Qed.
Lemma keeps_gets L {A} (g : host W → A) : keeps L (gets g).
Proof. by apply triple_gets. Qed.
Lemma keeps_lift L {A} (r : exc A) : keeps L (lift_exc r).
Proof. by apply triple_lift. Qed.
Lemma keeps_try L {A} p (m h : M A) : keeps L m → keeps L h → keeps L (try_except p m h).
Proof.
  intros Hm Hh s Hs. unfold try_except. specialize (Hm s Hs). destruct (m s) as [[a|e] s']; [done|].
  destruct (p e); [by apply Hh|done].
Qed.

(** The state around the requests may change. *)
Lemma keeps_puts L (f : host W → host W) :
  (∀ s, lease_of (obj (f s)) = lease_of (obj s) ∨ lease_of (obj (f s)) = None) → (∀ s, _ttl (obj (f s)) = _ttl (obj s)) →
  (∀ s, sent (f s) = sent s) → keeps L (puts f).
Proof.
  intros Hl Ht Hs s (H1 & H2 & H3 & H4). unfold puts, Inv. rewrite Hs, Ht. split_and!; try done.
  intros l Hl'. destruct (Hl s) as [He|He]; rewrite He in Hl'; [by apply H1|done].
Qed.

Lemma keeps_failed L b : keeps L (failed b).
Proof. apply keeps_puts; try done. by left. Qed.

Lemma keeps_retry_call L {A} (m : M A) : keeps L m → keeps L (retry_call m).
Proof.
  intros Hm. unfold keeps. apply (triple_retry (Inv L)); try done.
  intros n s Hs. cbn. by destruct (etcd_randint n (world s)).
Qed.

Lemma keeps_retry L {A} (m : M A) : keeps L m → keeps L (retry m).
Proof. intros Hm. apply keeps_bind; [apply keeps_puts; try done; by left|]. intros _. by apply keeps_retry_call. Qed.

(** A request that is allowed with the known leases *)
Lemma keeps_send L req : allowed L req → keeps L (send req).
Proof.
  intros Ha s (H1 & H2 & H3 & H4). unfold send. destruct (rpc req (rt s, world s)) as [r [rt' w']] eqn:E.
  assert (Inv L (MkHost (obj s) rt' w' ((req, r) :: sent s))) as Hi.
  { assert (grants (sent s) ⊆ grants ((req, r) :: sent s)) as Hg by (cbn; destruct req, r; set_solver).
    unfold Inv. cbn [obj sent]. split_and!; [set_solver|done| |set_solver]. split; [by eapply allowed_mono|done]. }
  by destruct r.
Qed.

Lemma keeps_call_rpc L req : allowed L req → keeps L (call_rpc req).
Proof.
  intros Ha. apply keeps_bind; [by apply keeps_send|]. intros ret. apply keeps_bind; [|intros _; apply keeps_ret].
  apply keeps_puts; intros s; destruct (has_cache _); auto.
Qed.

Lemma keeps_txn L c o f : allowed L (RTxn c o f) → keeps L (txn c o f).
Proof.
  intros Ha. apply keeps_bind; [by apply keeps_call_rpc|]. intros ret. apply keeps_bind; [|intros _; apply keeps_ret].
  destruct f; [apply keeps_ret|]. destruct (if _ : bool then _ else _); [apply keeps_ret|].
  apply keeps_puts; intros s; destruct (has_cache _); auto.
Qed.

(** A known lease may be used. *)
Lemma keeps_lease L {A} (f : option string → M A) : keeps L (f None) → (∀ l, keeps (l :: L) (f (Some l))) →
  keeps L (eff_bind (host W) _ A f lease_).
Proof.
  intros Hn Hsome s Hs. unfold eff_bind, lease_, gets. destruct (lease_of (obj s)) as [l|] eqn:E; [|by apply Hn].
  assert (Inv (l :: L) s) as Hi.
  { destruct Hs as (H1 & H2 & H3 & H4). split_and!; try done. apply H1 in E. set_solver. }
  specialize (Hsome l s Hi). destruct (f (Some l) s) as [[a|e] s']; (eapply Inv_weaken; [|exact Hsome]); set_solver.
Qed.

Lemma keeps_obj L {A} (f : Etcd3 → M A) :
  (∀ o, _ttl o = T → keeps (option_list (lease_of o) ++ L) (f o)) → keeps L (eff_bind (host W) _ A f (gets obj)).
Proof.
  intros Hf s Hs. unfold eff_bind, gets. pose proof Hs as (H1 & H2 & H3 & H4).
  assert (Inv (option_list (lease_of (obj s)) ++ L) s) as Hi.
  { split_and!; try done. destruct (lease_of (obj s)) as [l|] eqn:E; cbn; [|done]. specialize (H1 l eq_refl). set_solver. }
  specialize (Hf (obj s) H2 s Hi). destruct (f (obj s) s) as [[a|e] s']; (eapply Inv_weaken; [|exact Hf]); set_solver.
Qed.

(** A new lease is a granted one. *)
Lemma keeps_grant L {A} (f : string → M A) : (∀ l, keeps (l :: L) (f l)) → keeps L (eff_bind (host W) _ A f (lease_grant T)).
Proof.
  intros Hf s Hs. unfold lease_grant, call_rpc. unfold eff_bind at 1. unfold mbind, eff_bind.
  pose proof (keeps_send L (RLeaseGrant T) (allowed_grant L) s Hs) as Hi. unfold send in Hi |- *.
  destruct (rpc (RLeaseGrant T) (rt s, world s)) as [r [rt' w']]. destruct r as [ret|e]; [|done].
  set (g := λ s : host W, if has_cache (world s) then _ else s). unfold puts. cbn -[Inv].
  set (s1 := MkHost (obj s) rt' w' ((RLeaseGrant T, Ok ret) :: sent s)) in *.
  assert (Inv (ID ret :: L) (g s1)) as Hg.
  { destruct Hi as (H1 & H2 & H3 & H4). assert (sent (g s1) = sent s1 ∧ obj (g s1) = obj s1) as [E1 E2] by (unfold g; destruct (has_cache _); done).
    unfold Inv. rewrite E1, E2. split_and!; try done. cbn. cbn in H4. set_solver. }
  specialize (Hf (ID ret) (g s1) Hg). destruct (f (ID ret) (g s1)) as [[a|e] s']; (eapply Inv_weaken; [|exact Hf]); set_solver.
Qed.

Lemma keeps_set_lease L l : l ∈ L → keeps L (with_obj (set_lease (Some l))).
Proof.
  intros Hl s (H1 & H2 & H3 & H4). unfold with_obj, puts, Inv. cbn. split_and!; try done.
  intros x Hx. unfold lease_of in Hx. cbn in Hx. assert (x = l) as -> by (destruct l; [done|congruence]). set_solver.
Qed.

(** ** The methods *)

(** etcd does not grant a lease without a name. *)
Context (HID : ∀ ttl s r s', rpc (RLeaseGrant ttl) s = (Ok r, s') → ID r ≠ "").

Definition has_lease (s : host W) : Prop := lease_of (obj s) ≠ None.

(** [m] leaves the client with a lease when it returns. *)
Definition leases L {A} (m : M A) : Prop := triple (Inv L) m (λ _ s, Inv L s ∧ has_lease s) (Inv L).

Lemma grant_name l s s' : lease_grant T s = (Ok l, s') → l ≠ "".
Proof using HID.
  unfold lease_grant, call_rpc, send. unfold mbind, eff_bind. destruct (rpc _ _) as [[r|e] [rt' w']] eqn:E; [|done].
  intros [= <- _]. by eapply HID.
Qed.

Lemma keeps_keepalive L l : l ∈ L → keeps L (lease_keepalive l).
Proof. intros Hl. apply keeps_bind; [apply keeps_call_rpc; by constructor|]. intros ret. apply keeps_ret. Qed.

Lemma keeps_refresh L force : keeps L (_do_refresh_lease force).
Proof.
  apply keeps_obj. intros o Ho. apply keeps_bind; [apply keeps_gets|]. intros now. destruct (_ && _); [apply keeps_ret|].
  apply keeps_bind.
  { destruct (lease_of o) as [l|]; [|apply keeps_ret]. apply keeps_bind; [apply keeps_keepalive; set_solver|].
    intros alive. destruct alive; [apply keeps_ret|]. apply keeps_puts; try done. by right. }
  intros _. apply keeps_lease; [|intros l]; cbn [bool_decide]; apply keeps_bind; try (intros _; apply keeps_bind; [apply keeps_gets|]; intros t;
    apply keeps_bind; [apply keeps_puts; try done; by left|intros _; apply keeps_ret]).
  - rewrite Ho. apply keeps_grant. intros l. apply keeps_set_lease. set_solver.
  - apply keeps_ret.
Qed.

Lemma refresh_has_lease force s b s' : _do_refresh_lease force s = (Ok b, s') → _ttl (obj s) = T → has_lease s'.
Proof using HID.
  intros Hr Ht. unfold _do_refresh_lease in Hr. eff_inv Hr. injection Hm as <- <-. eff_inv Hr. injection Hm as <- <-.
  destruct (_ && _) eqn:E.
  - injection Hr as _ <-. apply andb_true_iff in E as [E _]. apply andb_true_iff in E as [_ E]. by apply bool_decide_eq_true in E.
  - clear E. eff_inv Hr. clear Hm. eff_inv Hr. injection Hm as <- <-. eff_inv Hr.
    assert (has_lease s1) as Hl.
    { destruct (bool_decide (lease_of (obj s0) = None)) eqn:El.
      - eff_inv Hm. rewrite Ht in Hm0. apply grant_name in Hm0. injection Hm as _ <-. unfold has_lease, lease_of. cbn. by destruct a1.
      - injection Hm as _ <-. by apply bool_decide_eq_false in El. }
    eff_inv Hr. injection Hm0 as <- <-. eff_inv Hr. injection Hm0 as <- <-. by injection Hr as _ <-.
Qed.

Lemma leases_refresh L force : leases L (_do_refresh_lease force).
Proof using HID.
  intros s Hs. pose proof (keeps_refresh L force s Hs) as Hk. pose proof (refresh_has_lease force s) as Hh.
  destruct (_do_refresh_lease force s) as [[b|e] s']; [|done]. split; [done|]. eapply Hh; [done|]. by destruct Hs as (_ & ? & _).
Qed.

Lemma leases_keeps L {A} (m : M A) : leases L m → keeps L m.
Proof. intros Hm. eapply triple_conseq; [exact Hm|done| |done]. by intros a s' [Hi _]. Qed.

Lemma leases_retry_call L {A} (m : M A) : leases L m → leases L (retry_call m).
Proof.
  intros Hm. apply (triple_retry (Inv L)); try done. intros n s Hs. cbn. by destruct (etcd_randint n (world s)).
Qed.

Lemma leases_retry L {A} (m : M A) : leases L m → leases L (retry m).
Proof.
  intros Hm. eapply triple_bind; [apply (keeps_puts L); try done; by left|]. intros []. by apply leases_retry_call.
Qed.

(** After a computation that leaves a lease, the leader key is only created with it. *)
Lemma leases_bind L {A B} (m : M A) (f : A → M B) : leases L m → (∀ a, triple (λ s, Inv L s ∧ has_lease s) (f a) (λ _, Inv L) (Inv L)) →
  keeps L (eff_bind (host W) A B f m).
Proof. intros Hm Hf. eapply triple_bind; [exact Hm|done]. Qed.

Lemma run_and_handle_triple {A} P (m : M A) Q L : triple P m Q (Inv L) → triple P (run_and_handle m) Q (Inv L).
Proof.
  intros Hm s Hs. unfold run_and_handle. specialize (Hm s Hs). destruct (m s) as [[a|e] s']; [done|].
  pose proof (keeps_failed L true s' Hm) as Hf. unfold mbind, eff_bind, lift_exc.
  destruct e; try done; cbn [is_etcd]; by destruct (failed true s') as [[[]|?] ?].
Qed.

Lemma keeps_run_and_handle L {A} (m : M A) : keeps L m → keeps L (run_and_handle m).
Proof. apply run_and_handle_triple. Qed.

Lemma keeps_catch L (m : M bool) : keeps L m → keeps L (catch_etcd_errors m).
Proof.
  intros Hm s Hs. unfold catch_etcd_errors. specialize (Hm s Hs). destruct (m s) as [[a|e] s'].
  - pose proof (keeps_failed L false s' Hm) as Hf. unfold mbind, eff_bind. by destruct (failed false s') as [[[]|?] ?].
  - pose proof (keeps_failed L true s' Hm) as Hf. unfold mbind, eff_bind, lift_exc.
    destruct e; try done; cbn [is_etcd orb]; by destruct (failed true s') as [[[]|?] ?].
Qed.

Lemma keeps_catch_return_false L (m : M bool) : keeps L m → keeps L (catch_return_false m).
Proof. intros Hm. apply keeps_try; [done|apply keeps_ret]. Qed.

Lemma keeps_deadline L t e : keeps L (ensure_deadline t e).
Proof. intros s Hs. unfold ensure_deadline. destruct (_ <? t); [by destruct e|done]. Qed.

(** A key that is not the leader key *)
Lemma keeps_put_other L k v l cr mr : k ≠ leader_path d → keeps L (put k v l cr mr).
Proof.
  intros Hk. unfold put. assert (∀ c f, p_key f = k → keeps L (txn c (OpPut f) None)) as Htxn.
  { intros c f <-. apply keeps_txn. by apply (allowed_txn L c (OpPut f) (p_key f)). }
  destruct cr; [by apply Htxn|]. destruct mr; try by apply Htxn.
  apply keeps_bind; [apply keeps_call_rpc; by constructor|]. intros ret. apply keeps_ret.
Qed.

Lemma keeps_deleterange_other L k mr : k ≠ leader_path d → keeps L (deleterange k None mr).
Proof.
  intros Hk. unfold deleterange. assert (∀ c, keeps L (txn c (OpDelete k None) None)) as Htxn.
  { intros c. apply keeps_txn. by apply (allowed_txn L c (OpDelete k None) k). }
  destruct mr; try apply Htxn. apply keeps_bind; [apply keeps_call_rpc; by constructor|]. intros ret. apply keeps_ret.
Qed.

Ltac other_key := apply client_path_ne; vm_compute; discriminate.

Lemma member_path_other : member_path d ≠ leader_path d.
Proof. apply client_path_ne. cbn. discriminate. Qed.

Lemma keeps_put_key L path v mr : path ≠ leader_path d → keeps L (put_key path v mr).
Proof. intros Hp. apply keeps_catch, keeps_bind; [by apply keeps_put_other|]. intros r. apply keeps_ret. Qed.

Lemma keeps_delete_key L m : keeps L m → keeps L (delete_key m).
Proof. intros Hm. apply keeps_catch, keeps_bind; [by apply keeps_retry|]. intros r. apply keeps_ret. Qed.

(** The leader key is created with the lease that the client has. *)
Lemma create_leader_triple L : triple (λ s, Inv L s ∧ has_lease s) (create_leader d) (λ _, Inv L) (Inv L).
Proof.
  intros s [Hs Hl]. unfold create_leader. unfold mbind, eff_bind, lease_, gets. unfold has_lease in Hl.
  destruct (lease_of (obj s)) as [l|] eqn:E; [|done].
  assert (Inv (l :: L) s) as Hi by (destruct Hs as (H1 & H2 & H3 & H4); split_and!; try done; apply H1 in E; set_solver).
  assert (keeps (l :: L) (put (leader_path d) (_name d) (Some l) (Some "0") VNone)) as Hk.
  { apply keeps_txn. apply allowed_acquire. set_solver. }
  specialize (Hk s Hi). destruct (put _ _ _ _ _ s) as [[a|e] s']; (eapply Inv_weaken; [|exact Hk]); set_solver.
Qed.

(** A retried computation keeps what every call of it keeps, with a lease. *)
Lemma retry_call_lease L {A} (m : M A) :
  (∀ s, has_lease s → has_lease (m s).2) → triple (λ s, Inv L s ∧ has_lease s) m (λ _, Inv L) (Inv L) →
  triple (λ s, Inv L s ∧ has_lease s) (retry_call m) (λ _, Inv L) (Inv L).
Proof.
  intros Hl Hm. set (I := λ s, Inv L s ∧ has_lease s).
  assert (triple I (retry_call m) (λ _, I) I) as Ht.
  { apply triple_retry; try done.
    - intros n s Hs. cbn. by destruct (etcd_randint n (world s)).
    - intros s [Hs Hh]. specialize (Hm s (conj Hs Hh)). specialize (Hl s Hh). unfold I. by destruct (m s) as [[a|e] s']. }
  eapply triple_conseq; [exact Ht|done|by intros a s [? _]|by intros s [? _]].
Qed.

Lemma create_leader_lease s : has_lease s → has_lease (create_leader d s).2.
Proof.
  intros Hs. unfold create_leader. unfold mbind, eff_bind, lease_, gets. generalize (lease_of (obj s)). intros o.
  unfold put, txn, call_rpc, send. unfold mbind, eff_bind. destruct (rpc _ _) as [[r|e] [rt' w']]; [|done].
  cbn. destruct (has_cache w'); cbn; destruct (succeeded r); cbn; try done; by destruct (has_cache _).
Qed.

Lemma do_attempt_triple L : triple (λ s, Inv L s ∧ has_lease s) (_do_attempt_to_acquire_leader d) (λ _, Inv L) (Inv L).
Proof using HID.
  assert (triple (λ s, Inv L s ∧ has_lease s) (r ← _retry_ (create_leader d); mret (truthy_response r)) (λ _, Inv L) (Inv L)) as Hc.
  { eapply (triple_bind _ _ _ (λ _, Inv L)); [|intros a; by apply triple_ret]. apply retry_call_lease; [apply create_leader_lease|apply create_leader_triple]. }
  assert (keeps L (with_obj (set_lease None);; ok ← ensure_deadline 0 None; if negb ok then mret false else
     _retry_ (_do_refresh_lease false);; ensure_deadline 100 (Some DCSError);; r ← _retry_ (create_leader d); mret (truthy_response r))) as Hh.
  { apply keeps_bind; [apply keeps_puts; try done; by right|]. intros []. apply keeps_bind; [apply keeps_deadline|]. intros ok.
    destruct ok; [|apply keeps_ret]. apply leases_bind; [apply leases_retry_call, leases_refresh|]. intros _.
    eapply (triple_bind _ _ _ (λ _ s, Inv L s ∧ has_lease s)); [|intros a; exact Hc].
    intros s [Hs Hl]. unfold ensure_deadline. by destruct (_ <? 100). }
  intros s Hs. unfold _do_attempt_to_acquire_leader, try_except. specialize (Hc s Hs).
  destruct ((r ← _retry_ (create_leader d); mret (truthy_response r)) s) as [[a|e] s']; [done|].
  destruct e; try done. by apply Hh.
Qed.

Lemma keeps_attempt L : keeps L (attempt_to_acquire_leader d).
Proof using HID.
  apply keeps_catch_return_false. eapply triple_bind.
  - apply run_and_handle_triple, leases_retry, leases_refresh.
  - intros a. eapply (triple_bind _ _ _ (λ _ s, Inv L s ∧ has_lease s)); [|intros b; apply run_and_handle_triple, do_attempt_triple].
    intros s [Hs Hl]. unfold ensure_deadline. by destruct (_ <? 100).
Qed.

Lemma keeps_update L leader : keeps L (_update_leader d leader).
Proof.
  apply keeps_catch_return_false, keeps_bind; [apply keeps_run_and_handle, keeps_retry, keeps_refresh|]. intros _.
  apply keeps_lease; [apply keeps_ret|]. intros l. case_bool_decide; [apply keeps_ret|].
  apply keeps_bind; [apply keeps_deadline|]. intros _. apply keeps_bind; [|intros r; apply keeps_ret].
  apply keeps_run_and_handle, keeps_retry_call, keeps_txn, allowed_update. set_solver.
Qed.

Lemma keeps_take L : keeps L (take_leader d).
Proof.
  apply keeps_catch, keeps_lease; [|intros l]; (apply keeps_bind; [|intros r; apply keeps_ret]); apply keeps_retry;
    (apply keeps_bind; [|intros r; apply keeps_ret]); apply keeps_call_rpc, allowed_take; [done|].
  intros x [= ->]. set_solver.
Qed.

Lemma keeps_delete L : keeps L (_delete_leader d).
Proof. apply keeps_catch, keeps_bind; [apply keeps_txn; constructor|]. intros r. apply keeps_ret. Qed.

Lemma keeps_touch L cluster data : keeps L (touch_member d cluster data).
Proof.
  apply keeps_catch, keeps_bind.
  { apply keeps_try; [|apply keeps_ret]. apply keeps_bind; [|intros _; apply keeps_ret].
    apply keeps_try; [apply keeps_retry, keeps_refresh|apply keeps_lift]. }
  intros ok. destruct ok; [|apply keeps_ret]. apply keeps_bind; [apply keeps_gets|]. intros l.
  destruct (match _ with Some _ => _ | None => false end); [apply keeps_ret|].
  apply keeps_try; [|apply keeps_bind; [apply keeps_puts; try done; by right|intros _; apply keeps_ret]].
  apply keeps_bind; [|intros r; apply keeps_ret]. apply keeps_put_other, member_path_other.
Qed.

(** ** A client and its history *)

Inductive method : ∀ {A}, M (W := W) A → Prop :=
  | method_refresh force : method (_do_refresh_lease force)
  | method_watch : method watch
  | method_attempt : method (attempt_to_acquire_leader d)
  | method_update leader : method (_update_leader d leader)
  | method_take : method (take_leader d)
  | method_delete : method (_delete_leader d)
  | method_touch cluster data : method (touch_member d cluster data)
  | method_failover v r : method (set_failover_value d v r)
  | method_config v r : method (set_config_value d v r)
  | method_optime v : method (_write_leader_optime d v)
  | method_status v : method (_write_status d v)
  | method_failsafe v : method (_write_failsafe d v)
  | method_history v : method (set_history_value d v)
  | method_initialize b v : method (initialize d b v)
  | method_sync v r : method (set_sync_state_value d v r)
  | method_delete_sync r : method (delete_sync_state d r)
  | method_cancel : method (cancel_initialization d)
  | method_delete_cluster : method (delete_cluster d)
  | method_load parse path : method (_load_cluster (_postgresql_cluster_loader d parse path))
  | method_load_groups parse : method (_load_cluster (_mpp_cluster_loader d parse)).

Lemma keeps_prefix L path b : keeps L (prefix path b).
Proof. apply keeps_bind; [apply keeps_call_rpc; constructor|]. intros ret. apply keeps_ret. Qed.

Lemma keeps_get_cluster L path : keeps L (get_cluster d path).
Proof.
  apply keeps_bind; [apply keeps_gets|]. intros s0. destruct (_ && _); [|apply keeps_retry, keeps_prefix].
  apply keeps_bind; [|intros []; apply keeps_gets]. intros s Hs. destruct (_wait_cache (world s)) as [r w]. by destruct r.
Qed.

Lemma keeps_load L {A} (m : M A) : keeps L m → keeps L (_load_cluster m).
Proof.
  intros Hm s Hs. unfold _load_cluster. specialize (Hm s Hs). destruct (m s) as [[a|e] s'].
  - pose proof (keeps_failed L false s' Hm) as Hf. unfold mbind, eff_bind. by destruct (failed false s') as [[[]|?] ?].
  - pose proof (keeps_failed L true s' Hm) as Hf. unfold mbind, eff_bind, lift_exc. destruct e; try done; by destruct (failed true s') as [[[]|?] ?].
Qed.

Lemma keeps_sync L v r : keeps L (set_sync_state_value d v r).
Proof.
  assert (keeps L (r ← retry (put (sync_path d) v None None r); mret (match r with Some r => VInt (revision r) | None => VBool false end))) as Hm.
  { apply keeps_bind; [apply keeps_retry, keeps_put_other; other_key|]. intros o. apply keeps_ret. }
  intros s Hs. unfold set_sync_state_value. specialize (Hm s Hs). destruct ((r ← retry _; _) s) as [[a|e] s'].
  - pose proof (keeps_failed L false s' Hm) as Hf. unfold mbind, eff_bind. by destruct (failed false s') as [[[]|?] ?].
  - pose proof (keeps_failed L true s' Hm) as Hf. unfold mbind, eff_bind, lift_exc.
    destruct e; try done; cbn [is_etcd orb]; by destruct (failed true s') as [[[]|?] ?].
Qed.

Lemma method_keeps L {A} (m : M A) : method m → keeps L m.
Proof using HID.
  intros Hm. destruct Hm; try (apply keeps_put_key; other_key).
  - apply keeps_refresh.
  - apply keeps_bind; [apply keeps_puts; try done; by left|]. intros []. apply keeps_bind; [apply keeps_gets|]. intros o.
    apply keeps_bind; [apply keeps_puts; try done; by left|]. intros []. apply keeps_ret.
  - apply keeps_attempt.
  - apply keeps_update.
  - apply keeps_take.
  - apply keeps_delete.
  - apply keeps_touch.
  - apply keeps_catch, keeps_bind; [apply keeps_retry, keeps_put_other; other_key|]. intros r. apply keeps_ret.
  - apply keeps_sync.
  - apply keeps_delete_key, keeps_deleterange_other. other_key.
  - apply keeps_delete_key, keeps_deleterange_other. other_key.
  - apply keeps_delete_key. apply keeps_bind; [apply keeps_call_rpc; constructor|]. intros r. apply keeps_ret.
  - apply keeps_load, keeps_bind; [apply keeps_get_cluster|]. intros l. apply keeps_lift.
  - apply keeps_load, keeps_bind; [apply keeps_get_cluster|]. intros l. apply keeps_lift.
Qed.

(** The client: a new object without a lease, its methods one after the other; the world around it may
    change between two calls. *)
Inductive client_run : host W → Prop :=
  | client_start o r w : _lease o = None → _ttl o = T → client_run (MkHost o r w [])
  | client_call s w {A} (m : M A) : client_run s → method m → client_run (m (put_world w s)).2.

Lemma client_run_inv s : client_run s → Inv [] s.
Proof using HID.
  induction 1 as [o r w Hl Ht|s w A m Hs IH Hm].
  - split_and!; try done. intros l. unfold lease_of. cbn. by rewrite Hl.
  - assert (Inv [] (put_world w s)) as Hi by exact IH. pose proof (method_keeps [] m Hm _ Hi) as Hk. by destruct (m (put_world w s)) as [[a|e] s'].
Qed.

(** [req] is sent by the client when it has been granted no more than [leases]. *)
Definition client_sends (leases : list string) (req : request) : Prop :=
  ∃ s later r before, client_run s ∧ sent s = (later ++ (req, r) :: before)%list ∧ grants before ⊆ leases.

Lemma client_sends_allowed leases req : client_sends leases req → allowed leases req.
Proof using HID.
  intros (s & later & r & before & Hs%client_run_inv & Hlog & Hg). destruct Hs as (_ & _ & Hgood & _). rewrite Hlog in Hgood.
  clear Hlog. induction later as [|[req' r'] later IH]; [|apply IH, Hgood]. destruct Hgood as [Ha _]. by eapply allowed_mono.
Qed.
End requests.
