(* ===== verification/Etcd3Refine.v ===== *)
(** * The leader key of etcd is a lease

    [EtcdStore], [EtcdPromises]: what etcd documents about transactions, leases and keys that are attached
    to them.  [etcd_step]: the system of agents that send what their methods send ([client_sends]), in any
    order and any number of times, and of leases that run out.  It refines the abstract [Lease] of
    [RaftLease]. *)
From S2P Require Import Prelude Lexing PyDict PyVal Effects Json Utils Tags DcsData GlobalConfig Slots Dcs RaftLease Retry Etcd3Cache Etcd3 Etcd3Lease.

Open Scope string_scope.
Open Scope Z_scope.

(** ** The store *)

(** A key with its value and lease; a lease with the time it was granted for and its end; whether a comparison
    holds; how a request is served at a time; what the end of a lease does. *)
Class EtcdStore (St : Type) := {
  value_at : string → St → option (string * option string);
  lease_at : string → St → option (Z * Z);
  holds : compare → St → bool;
  serve : Z → request → St → exc response * St;
  revoke : string → St → St
}.

Section promises.
Context {St : Type} `{!EtcdStore St}.

Definition same_leases (st st' : St) : Prop := ∀ l, lease_at l st' = lease_at l st.
Definition same_keys_but (k : string) (st st' : St) : Prop := ∀ k', k' ≠ k → value_at k' st' = value_at k' st.

(** The effect of an operation; a lease that is attached must exist. *)
Fixpoint effect (o : operation) (st st' : St) : Prop :=
  match o with
  | OpPut f => value_at (p_key f) st' = Some (p_value f, p_lease f) ∧ same_keys_but (p_key f) st st' ∧ same_leases st st' ∧
      (∀ l, p_lease f = Some l → lease_at l st ≠ None)
  | OpDelete k None => value_at k st' = None ∧ same_keys_but k st st' ∧ same_leases st st'
  | OpDelete k (Some _) => (∀ k', value_at k' st' = value_at k' st ∨ value_at k' st' = None) ∧ same_leases st st'
  | OpTxn c success => if holds c st then effect success st st' else st' = st
  end.

Class EtcdPromises := {
  serve_error now req st e st' : serve now req st = (Raise e, st') → st' = st;
  serve_put now f st r st' : serve now (RPut f) st = (Ok r, st') → effect (OpPut f) st st';
  serve_delete now k e st r st' : serve now (RDeleteRange k e) st = (Ok r, st') → effect (OpDelete k e) st st';
  serve_txn now c s f st r st' : serve now (RTxn c s f) st = (Ok r, st') →
    if holds c st then effect s st st' else match f with Some f => effect f st st' | None => st' = st end;
  serve_range now k e b st r st' : serve now (RRange k e b) st = (Ok r, st') → st' = st;
  serve_grant now ttl st r st' : serve now (RLeaseGrant ttl) st = (Ok r, st') →
    lease_at (ID r) st = None ∧ lease_at (ID r) st' = Some (ttl, now + ttl) ∧
    (∀ l, l ≠ ID r → lease_at l st' = lease_at l st) ∧ (∀ k, value_at k st' = value_at k st);
  serve_keepalive now l st r st' : serve now (RLeaseKeepalive l) st = (Ok r, st') →
    (lease_at l st' = lease_at l st ∨ ∃ ttl e, lease_at l st = Some (ttl, e) ∧ lease_at l st' = Some (ttl, now + ttl)) ∧
    (∀ l', l' ≠ l → lease_at l' st' = lease_at l' st) ∧ (∀ k, value_at k st' = value_at k st);
  revoke_lease l st : lease_at l (revoke l st) = None;
  revoke_other l l' st : l' ≠ l → lease_at l' (revoke l st) = lease_at l' st;
  revoke_key l k st : value_at k (revoke l st) =
    match value_at k st with Some (v, Some l') => if (l' =? l)%string then None else Some (v, Some l') | o => o end;
  holds_value k v st : holds (CmpValue k v) st = true ↔ ∃ l, value_at k st = Some (v, l);
  holds_create k st : holds (CmpCreate k "0") st = true ↔ value_at k st = None
}.
End promises.
Arguments EtcdPromises St {_}.

(** ** Steps of the lease *)

Section lease_steps.
Context (T : Z) (lab : Lease.label).

Definition lsteps (s s' : Lease.state) : Prop := ∃ ls, Lease.steps T 0 ls s s' ∧ Forall (λ l, l = lab) ls.

Lemma lsteps_refl s : lsteps s s.
Proof. exists []. split; constructor. Qed.
Lemma lsteps_one s s' s'' : Lease.step T 0 lab s s' → lsteps s' s'' → lsteps s s''.
Proof. intros H1 (ls & H2 & Hf). exists (lab :: ls). split; [by econstructor|by constructor]. Qed.
Lemma lsteps_step s s' : Lease.step T 0 lab s s' → lsteps s s'.
Proof. intros Hs. eapply lsteps_one; [exact Hs|apply lsteps_refl]. Qed.
Lemma lsteps_trans s s' s'' : lsteps s s' → lsteps s' s'' → lsteps s s''.
Proof.
  intros (ls & Hs & Hf) H2. revert Hf. induction Hs as [s|l ls s s1 s2 H1 Hs IH]; intros Hf; [done|].
  apply Forall_cons in Hf as [-> Hf]. eapply lsteps_one; [exact H1|]. by apply IH.
Qed.

(** Requests that were made, or that are made now *)
Lemma lsteps_add h r r' t : (∀ x, x ∈ r' → x ∈ r ∨ t + T ≤ x.2) → lsteps (Lease.MkState h r t) (Lease.MkState h (r' ++ r) t).
Proof.
  intros Hr. induction r' as [|x r' IH]; [apply lsteps_refl|].
  eapply lsteps_trans; [apply IH; set_solver|]. apply lsteps_step. destruct (Hr x ltac:(set_solver)) as [Hx|Hx].
  - apply (Lease.step_forget T 0 lab ((x :: r') ++ r) (Lease.MkState h (r' ++ r) t)). cbn. set_solver.
  - destruct x as [n e]. cbn in Hx. apply (Lease.step_request T 0 lab n e (Lease.MkState h (r' ++ r) t)). cbn. lia.
Qed.

Lemma lsteps_forget h r r' t : r' ⊆ r → lsteps (Lease.MkState h r t) (Lease.MkState h r' t).
Proof. intros Hs. apply lsteps_step. by apply (Lease.step_forget T 0 lab r' (Lease.MkState h r t)). Qed.

Lemma lsteps_requests h r r' t : (∀ x, x ∈ r' → x ∈ r ∨ t + T ≤ x.2) → lsteps (Lease.MkState h r t) (Lease.MkState h r' t).
Proof. intros Hr. eapply lsteps_trans; [by apply (lsteps_add h r r')|]. apply lsteps_forget. set_solver. Qed.
End lease_steps.

(** ** The system *)

Section system.
Context {St : Type} `{!EtcdStore St, !EtcdPromises St} (K : string) (T : Z).

(** The store, the time of its clock, and who was granted which lease *)
Record system := MkSystem { st : St; now : Z; owners : list (string * string) }.

Definition leases_of (n : string) (s : system) : list string := omap (λ o, if (o.2 =? n)%string then Some o.1 else None) (owners s).

(** A key of the leader without a lease is not an abstract lease, see [take_leader_unleased]. *)
Definition leased (req : request) : Prop := match req with RPut f => p_key f = K → p_lease f ≠ None | _ => True end.

Definition label_of (n : string) (req : request) : Lease.label :=
  match req with
  | RPut f => if (p_key f =? K)%string then Lease.administered else Lease.quiet
  | RDeleteRange _ (Some _) => Lease.administered
  | RTxn _ (OpDelete k None) _ => if (k =? K)%string then Lease.released n else Lease.quiet
  | _ => Lease.quiet
  end.

Definition new_owners (n : string) (req : request) (res : exc response) : list (string * string) :=
  match req, res with RLeaseGrant _, Ok r => [(ID r, n)] | _, _ => [] end.

(** The lease that a system stands for *)
Definition end_of (l : string) (x : St) : option Z := snd <$> lease_at l x.
Definition holder_of (x : St) : option (string * Z) :=
  match value_at K x with Some (v, Some l) => (λ e, (v, e)) <$> end_of l x | _ => None end.
Definition requests_of (x : St) (o : list (string * string)) : list (string * Z) :=
  omap (λ p, (λ e, (p.2, e)) <$> end_of p.1 x) o.
Definition abstract (s : system) : Lease.state := Lease.MkState (holder_of (st s)) (requests_of (st s) (owners s)) (now s).

(** The leader key has a live lease of the node that is its value, and the leases of the agents are granted for [T]. *)
Definition sound (s : system) : Prop :=
  (∀ v lo, value_at K (st s) = Some (v, lo) → ∃ l te, lo = Some l ∧ lease_at l (st s) = Some te ∧ (l, v) ∈ owners s) ∧
  (∀ l n ttl e, (l, n) ∈ owners s → lease_at l (st s) = Some (ttl, e) → ttl = T).

Lemma elem_leases_of n l s : l ∈ leases_of n s ↔ (l, n) ∈ owners s.
Proof.
  unfold leases_of. rewrite list_elem_of_omap. split.
  - intros ([l' n'] & Hin & Hl). cbn in Hl. destruct (String.eqb_spec n' n) as [->|]; [|done]. by injection Hl as ->.
  - intros Hin. exists (l, n). split; [done|]. cbn. by rewrite String.eqb_refl.
Qed.

Lemma elem_requests_of x o n e : (n, e) ∈ requests_of x o ↔ ∃ l ttl, (l, n) ∈ o ∧ lease_at l x = Some (ttl, e).
Proof.
  unfold requests_of, end_of. rewrite list_elem_of_omap. split.
  - intros ([l n'] & Hin & Hl). cbn in Hl. destruct (lease_at l x) as [[ttl e']|] eqn:E; [|done]. injection Hl as -> ->. eauto.
  - intros (l & ttl & Hin & Hl). exists (l, n). split; [done|]. cbn. by rewrite Hl.
Qed.

Lemma holder_some x v l te : value_at K x = Some (v, Some l) → lease_at l x = Some te → holder_of x = Some (v, te.2).
Proof. intros Hv Hl. unfold holder_of, end_of. by rewrite Hv, Hl. Qed.
Lemma holder_none x : value_at K x = None → holder_of x = None.
Proof. intros Hv. unfold holder_of. by rewrite Hv. Qed.

(** The holder of a sound system is one of the requests. *)
Lemma holder_requested s v e : sound s → holder_of (st s) = Some (v, e) → (v, e) ∈ requests_of (st s) (owners s).
Proof.
  intros [Hk _] Hh. unfold holder_of in Hh. destruct (value_at K (st s)) as [[v' [l|]]|]; [|done|done].
  destruct (Hk _ _ eq_refl) as (l' & [ttl e'] & [= <-] & Hl & Ho). unfold end_of in Hh. rewrite Hl in Hh. injection Hh as -> ->.
  apply elem_requests_of. eauto.
Qed.

Lemma end_of_same st st' l : same_leases st st' → end_of l st' = end_of l st.
Proof. intros Hl. unfold end_of. by rewrite Hl. Qed.

Lemma requests_same st st' o : same_leases st st' → requests_of st' o = requests_of st o.
Proof. intros Hl. unfold requests_of. induction o as [|[l n] o IH]; [done|]. cbn. by rewrite (end_of_same st st' l Hl), IH. Qed.

Lemma holder_same st st' : value_at K st' = value_at K st → same_leases st st' → holder_of st' = holder_of st.
Proof. intros Hk Hl. unfold holder_of. rewrite Hk. destruct (value_at K st) as [[v [l|]]|]; try done. by rewrite (end_of_same st st' l Hl). Qed.

(** ** What a request does *)

(** A step that leaves the leases as they are *)
Definition refined (lab : Lease.label) (s s' : system) : Prop := lsteps T lab (abstract s) (abstract s') ∧ sound s'.

Lemma refined_refl lab s : sound s → refined lab s s.
Proof. intros Hs. split; [apply lsteps_refl|done]. Qed.

Lemma same_leases_step lab s st' : same_leases (st s) st' →
  Lease.step T 0 lab (abstract s) (Lease.MkState (holder_of st') (Lease.requests (abstract s)) (now s)) →
  lsteps T lab (abstract s) (abstract (MkSystem st' (now s) (owners s))).
Proof.
  intros Hl Hs. apply lsteps_step.
  change (abstract (MkSystem st' (now s) (owners s))) with (Lease.MkState (holder_of st') (requests_of st' (owners s)) (now s)).
  by rewrite (requests_same (st s) st' (owners s) Hl).
Qed.

Lemma sound_same s st' : sound s → same_leases (st s) st' →
  (∀ v lo, value_at K st' = Some (v, lo) → value_at K (st s) = Some (v, lo) ∨
    ∃ l te, lo = Some l ∧ lease_at l (st s) = Some te ∧ (l, v) ∈ owners s) →
  sound (MkSystem st' (now s) (owners s)).
Proof.
  intros [Hk Ht] Hl Hv. split; cbn.
  - intros v lo [Hv'|(l & te & ? & ? & ?)]%Hv; [|by rewrite <- Hl in *; eauto].
    destruct (Hk v lo Hv') as (l & te & ? & ? & ?). exists l, te. by rewrite Hl.
  - intros l n ttl e Ho. rewrite Hl. by eapply Ht.
Qed.

Lemma same_holder_step lab s h : holder_of (st s) = h →
  Lease.step T 0 lab (abstract s) (Lease.MkState h (Lease.requests (abstract s)) (now s)).
Proof. intros <-. apply (Lease.step_stutter T 0 lab (abstract s)). Qed.

Lemma refined_other lab s st' : sound s → value_at K st' = value_at K (st s) → same_leases (st s) st' →
  refined lab s (MkSystem st' (now s) (owners s)).
Proof.
  intros Hs Hv Hl. split.
  - apply same_leases_step; [done|]. apply same_holder_step. by rewrite (holder_same (st s) st').
  - apply sound_same; [done..|]. rewrite Hv. by left.
Qed.

Lemma refined_none lab s st' : sound s → value_at K st' = None → same_leases (st s) st' →
  (holder_of (st s) = None ∨ (∃ v e, holder_of (st s) = Some (v, e) ∧ lab = Lease.released v) ∨ lab = Lease.administered) →
  refined lab s (MkSystem st' (now s) (owners s)).
Proof.
  intros Hs Hv Hl Hlab. split.
  - apply same_leases_step; [done|]. rewrite (holder_none st') by done. destruct Hlab as [Hh|[(v & e & Hh & ->)| ->]].
    + by apply same_holder_step.
    + exact (Lease.step_release T 0 v e (abstract s) Hh).
    + by apply (Lease.step_administer T 0 None (abstract s)).
  - apply sound_same; [done..|]. by rewrite Hv.
Qed.

Lemma refined_put lab s st' v l : sound s → effect (OpPut (MkPut K v (Some l))) (st s) st' → (l, v) ∈ owners s →
  (holder_of (st s) = None ∨ (∃ e, holder_of (st s) = Some (v, e)) ∨ lab = Lease.administered) →
  refined lab s (MkSystem st' (now s) (owners s)).
Proof.
  intros Hs (Hv & Hother & Hl & Hlive) Ho Hlab. cbn in Hv, Hlive. destruct (lease_at l (st s)) as [te|] eqn:El; [|by destruct (Hlive l eq_refl)].
  assert ((v, te.2) ∈ Lease.requests (abstract s)) as Hr by (destruct te as [ttl e]; apply elem_requests_of; eauto).
  split.
  - apply same_leases_step; [done|]. rewrite (holder_some st' v l te) by (done || by rewrite Hl). destruct Hlab as [Hh|[[e Hh]| ->]].
    + exact (Lease.step_grant T 0 lab v te.2 (abstract s) Hh Hr).
    + exact (Lease.step_renew T 0 lab v e te.2 (abstract s) Hh Hr).
    + apply (Lease.step_administer T 0 (Some (v, te.2)) (abstract s)). by intros n e [= <- <-].
  - apply sound_same; [done..|]. rewrite Hv. intros v' lo [= <- <-]. right. eauto.
Qed.

Lemma holder_value s v l : sound s → value_at K (st s) = Some (v, l) → ∃ e, holder_of (st s) = Some (v, e).
Proof. intros [Hk _] Hv. destruct (Hk _ _ Hv) as (l' & te & -> & Hl & _). rewrite (holder_some (st s) v l' te Hv Hl). eauto. Qed.

(** A put of the leader key when it does not exist *)
Lemma refined_create lab s st' v l : sound s → (l, v) ∈ owners s →
  (if holds (CmpCreate K "0") (st s) then effect (OpPut (MkPut K v (Some l))) (st s) st' else st' = st s) →
  refined lab s (MkSystem st' (now s) (owners s)).
Proof using EtcdPromises0.
  intros Hs Ho He. destruct (holds _ _) eqn:Eh.
  - apply (proj1 (holds_create K (st s))) in Eh. eapply refined_put; eauto. left. by apply holder_none.
  - subst st'. by apply refined_other.
Qed.
(** A lease is granted or prolonged. *)
Lemma refined_leases s st' o' : sound s → (∀ k, value_at k st' = value_at k (st s)) →
  (∀ l, lease_at l st' = lease_at l (st s) ∨ lease_at l st' = Some (T, now s + T)) → owners s ⊆ o' →
  (∀ l n, (l, n) ∈ o' → (l, n) ∈ owners s ∨ lease_at l st' = Some (T, now s + T)) →
  refined Lease.quiet s (MkSystem st' (now s) o').
Proof.
  intros [Hk Ht] Hv Hl Ho Hn. set (r := requests_of (st s) (owners s)). set (r' := requests_of st' o').
  assert (∀ x, x ∈ r' → x ∈ r ∨ now s + T ≤ x.2) as Hr.
  { intros [n e] (l & ttl & Hin & Hle)%elem_requests_of. cbn. destruct (Hl l) as [El|El]; [|right; rewrite El in Hle; by injection Hle as <- <-].
    destruct (Hn l n Hin) as [Hin'|Hin']; [|right; rewrite Hin' in Hle; by injection Hle as <- <-].
    left. apply elem_requests_of. rewrite El in Hle. eauto. }
  assert (∀ l te, lease_at l (st s) = Some te → ∃ te', lease_at l st' = Some te') as Hlive.
  { intros l te Hle. destruct (Hl l) as [->| ->]; eauto. }
  split; [|split].
  - eapply lsteps_trans; [by apply (lsteps_add T Lease.quiet (holder_of (st s)) r r')|].
    eapply lsteps_trans; [|by apply (lsteps_forget T Lease.quiet (holder_of st') (r' ++ r) r'); set_solver].
    apply lsteps_step. destruct (value_at K (st s)) as [[v lo]|] eqn:Ev.
    + destruct (Hk v lo eq_refl) as (l & te & -> & Hle & Hin). destruct (Hlive l te Hle) as [[ttl' e'] Hle'].
      rewrite (holder_some (st s) v l te Ev Hle), (holder_some st' v l (ttl', e')) by (done || by rewrite Hv).
      apply (Lease.step_renew T 0 Lease.quiet v te.2 e' (Lease.MkState (Some (v, te.2)) (r' ++ r) (now s))); [done|].
      cbn. apply elem_of_app. left. apply elem_requests_of. exists l, ttl'. split; [by apply Ho|done].
    + rewrite (holder_none (st s)), (holder_none st') by (done || by rewrite Hv). apply Lease.step_stutter.
  - cbn. rewrite Hv. intros v lo Hkv. destruct (Hk v lo Hkv) as (l & te & -> & Hle & Hin). destruct (Hlive l te Hle) as [te' Hle'].
    exists l, te'. split_and!; [done..|by apply Ho].
  - cbn. intros l n ttl e Hin Hle. destruct (Hl l) as [El|El]; [|rewrite El in Hle; by injection Hle as <- <-].
    destruct (Hn l n Hin) as [Hin'|Hin']; [|rewrite Hin' in Hle; by injection Hle as <- <-]. eapply Ht; [exact Hin'|]. by rewrite <- El.
Qed.

Lemma refined_grant s n ttl r st' : sound s → ttl = T → serve (now s) (RLeaseGrant ttl) (st s) = (Ok r, st') →
  refined Lease.quiet s (MkSystem st' (now s) ((ID r, n) :: owners s)).
Proof using EtcdPromises0.
  intros Hs -> (Hnew & Hl & Hother & Hv)%serve_grant. apply refined_leases; try done; [|set_solver|].
  - intros l. destruct (decide (l = ID r)) as [->|Hne]; [by right|left; by apply Hother].
  - intros l n' [[= -> ->]|Hin]%elem_of_cons; [by right|by left].
Qed.

Lemma refined_keepalive s n l r st' : sound s → (l, n) ∈ owners s → serve (now s) (RLeaseKeepalive l) (st s) = (Ok r, st') →
  refined Lease.quiet s (MkSystem st' (now s) (owners s)).
Proof using EtcdPromises0.
  intros Hs Ho (Hl & Hother & Hv)%serve_keepalive. apply refined_leases; try done; [|by left].
  intros l'. destruct (decide (l' = l)) as [->|Hne]; [|left; by apply Hother].
  destruct Hl as [Hl|(ttl & e & Hl & Hl')]; [by left|right]. destruct Hs as [_ Ht]. by rewrite Hl', (Ht l n ttl e Ho Hl).
Qed.

(** A lease runs out, and takes the leader key with it. *)
Lemma refined_expire s l ttl e : sound s → lease_at l (st s) = Some (ttl, e) → e ≤ now s →
  refined Lease.quiet s (MkSystem (revoke l (st s)) (now s) (owners s)).
Proof using EtcdPromises0.
  intros [Hk Ht] Hl He.
  assert (∀ l' te, lease_at l' (revoke l (st s)) = Some te → lease_at l' (st s) = Some te) as Hback.
  { intros l' te Hle. destruct (decide (l' = l)) as [->|Hne]; [by rewrite revoke_lease in Hle|by rewrite revoke_other in Hle]. }
  split; [|split].
  - eapply lsteps_trans with (s' := Lease.MkState (holder_of (revoke l (st s))) (Lease.requests (abstract s)) (now s)).
    + apply lsteps_step. unfold holder_of. rewrite revoke_key. destruct (value_at K (st s)) as [[v [l'|]]|] eqn:Ev.
      * destruct (Hk v _ eq_refl) as (l'' & te & [= <-] & Hle & _). pose proof (holder_some (st s) v l' te Ev Hle) as Hh.
        destruct (String.eqb_spec l' l) as [->|Hne].
        -- rewrite Hl in Hle. injection Hle as <-. exact (Lease.step_lapse T 0 Lease.quiet v e (abstract s) Hh ltac:(cbn; lia)).
        -- apply same_holder_step. unfold end_of. by rewrite Hh, revoke_other, Hle.
      * destruct (Hk v _ eq_refl) as (? & ? & ? & _). done.
      * apply same_holder_step. by apply holder_none.
    + apply lsteps_forget. intros [n' e'] (l' & ttl' & Hin & Hle)%elem_requests_of. apply elem_requests_of. eauto.
  - cbn. rewrite revoke_key. intros v lo Hv. destruct (value_at K (st s)) as [[v' [l'|]]|] eqn:Ev; [| |done].
    + destruct (String.eqb_spec l' l) as [->|Hne]; [done|]. injection Hv as <- <-. destruct (Hk v' _ eq_refl) as (l'' & te & [= <-] & ? & ?).
      exists l', te. by rewrite revoke_other.
    + destruct (Hk v' _ eq_refl) as (? & ? & ? & _). done.
  - cbn. intros l' n ttl' e' Hin Hle%Hback. by eapply Ht.
Qed.
End system.
Arguments MkSystem {St} _ _ _.
Arguments st {St} _.
Arguments now {St} _.
Arguments owners {St} _.

(** ** The agents *)

Section agents.
Context {W : Type} `{!EtcdNet W, !Datetime, !Json} {St : Type} `{!EtcdStore St, !EtcdPromises St}.
Context (HID : ∀ ttl s r s', rpc (W := W) (RLeaseGrant ttl) s = (Ok r, s') → ID r ≠ "") (K : string) (T : Z).

Inductive etcd_step : Lease.label → system (St := St) → system (St := St) → Prop :=
  | etcd_pass t s : now s ≤ t → etcd_step Lease.quiet s (MkSystem (st s) t (owners s))
  | etcd_request d req res st' s :
      leader_path d = K → client_sends (W := W) d T (leases_of (_name d) s) req → leased K req →
      serve (now s) req (st s) = (res, st') →
      etcd_step (label_of K (_name d) req) s (MkSystem st' (now s) (new_owners (_name d) req res ++ owners s))
  | etcd_expire l ttl e s :
      lease_at l (st s) = Some (ttl, e) → e ≤ now s → etcd_step Lease.quiet s (MkSystem (revoke l (st s)) (now s) (owners s)).

Inductive etcd_steps : list Lease.label → system (St := St) → system (St := St) → Prop :=
  | etcd_steps_nil s : etcd_steps [] s s
  | etcd_steps_cons l ls s s' s'' : etcd_step l s s' → etcd_steps ls s' s'' → etcd_steps (l :: ls) s s''.


Lemma refined_request d req res st' s :
  leader_path d = K → allowed d T (leases_of (_name d) s) req → leased K req → sound K T s →
  serve (now s) req (st s) = (res, st') →
  refined K T (label_of K (_name d) req) s (MkSystem st' (now s) (new_owners (_name d) req res ++ owners s)).
Proof using EtcdPromises0.
  intros Hd Ha Hlease Hs Hserve. destruct res as [r|e].
  2:{ apply serve_error in Hserve as ->. destruct req; by apply refined_other. }
  destruct Ha as [l Hl|l Hl| |l Hl|e| |l Hl|k e b|k v l Hk|k Hk|c o k Ho Hk];
    revert Hlease Hserve; rewrite ?Hd; try rewrite Hd in Hk; intros Hlease Hserve; cbn [new_owners app label_of].
  - apply serve_txn in Hserve. eapply refined_create; [done|by apply elem_leases_of|exact Hserve].
  - apply serve_txn in Hserve. destruct (holds (CmpValue K (_name d)) (st s)) eqn:Eh.
    + apply holds_value in Eh as [lo Eh]. eapply refined_put; [done|exact Hserve|by apply elem_leases_of|].
      right. left. by eapply holder_value.
    + eapply refined_create; [done|by apply elem_leases_of|exact Hserve].
  - rewrite String.eqb_refl. apply serve_txn in Hserve. destruct (holds (CmpValue K (_name d)) (st s)) eqn:Eh.
    + apply holds_value in Eh as [lo Eh]. destruct Hserve as (Hv & _ & Hl). apply refined_none; [done..|].
      right. left. destruct (holder_value K T s _ _ Hs Eh) as [e He]. eauto.
    + subst st'. by apply refined_other.
  - cbn [p_key]. rewrite String.eqb_refl. apply serve_put in Hserve. destruct l as [l|]; [|by destruct (Hlease eq_refl)].
    eapply refined_put; [done|exact Hserve|apply elem_leases_of; by apply Hl|by right; right].
  - apply serve_delete in Hserve as [Hv Hl]. destruct (Hv K) as [HK|HK]; [by apply refined_other|].
    apply refined_none; [done..|by right; right].
  - by eapply refined_grant.
  - eapply refined_keepalive; [done|by apply elem_leases_of|exact Hserve].
  - apply serve_range in Hserve as ->. by apply refined_other.
  - cbn [p_key]. apply serve_put in Hserve as (_ & Hother & Hl & _). apply refined_other; [done|by apply Hother|done].
  - apply serve_delete in Hserve as (_ & Hother & Hl). apply refined_other; [done|by apply Hother|done].
  - apply serve_txn in Hserve. destruct (holds c (st s)); [|subst st'; by apply refined_other].
    destruct o as [f|k' [e|]|c' o]; try done; injection Ho as <-; destruct Hserve as (_ & Hother & Hl); first destruct Hl as [Hl _];
      (apply refined_other; [done|by apply Hother|done]).
Qed.

Lemma refined_step lab s s' : sound K T s → etcd_step lab s s' → refined K T lab s s'.
Proof using EtcdPromises0 HID.
  intros Hs Hstep. destruct Hstep as [t s Ht|d req res st' s Hd Hsend Hlease Hserve|l ttl e s Hl He].
  - split; [|done]. by apply lsteps_step, (Lease.step_pass T 0 Lease.quiet t (abstract K s)).
  - eapply refined_request; try done. by eapply client_sends_allowed.
  - by eapply refined_expire.
Qed.

Lemma lsteps_app ls1 ls2 s s' s'' : Lease.steps T 0 ls1 s s' → Lease.steps T 0 ls2 s' s'' → Lease.steps T 0 (ls1 ++ ls2) s s''.
Proof. induction 1 as [|l ls s s1 s2 H1 _ IH]; intros H2; [done|]. cbn. econstructor; [exact H1|by apply IH]. Qed.

Lemma refined_steps ls s s' : sound K T s → etcd_steps ls s s' →
  (∃ ls', ls' ⊆ ls ∧ Lease.steps T 0 ls' (abstract K s) (abstract K s')) ∧ sound K T s'.
Proof using EtcdPromises0 HID.
  intros Hs Hsteps. induction Hsteps as [s|l ls s s1 s2 H1 _ IH]; [split; [|done]; exists []; split; [done|constructor]|].
  destruct (refined_step _ _ _ Hs H1) as [(ls1 & Hl1 & Hf) Hs1]. destruct (IH Hs1) as [(ls2 & Hsub & Hl2) Hs2]. split; [|done].
  exists (ls1 ++ ls2)%list. split; [|by eapply lsteps_app]. intros x [Hx|Hx]%elem_of_app; [|set_solver].
  rewrite Forall_forall in Hf. specialize (Hf x Hx). set_solver.
Qed.
(** A system without a leader key, and no lease that was granted *)
Definition initial (st0 : St) (t : Z) : system := MkSystem st0 t [].

Lemma sound_empty st0 t : value_at K st0 = None → sound K T (initial st0 t).
Proof. intros Hk. split; cbn; [by rewrite Hk|]. by intros ? ? ? ? ?%elem_of_nil. Qed.

(** C11: the leader key of etcd refines an abstract lease, step by step: from every state that is reached by
    agents - each with its own lease, sending in any order and any number of times what the methods of [Etcd3]
    send, a leader key that is put being put with a lease - and by leases that run out at any time after their
    end, each further request or end of a lease is a sequence of steps of the abstract lease that all carry the
    step's own label: the holder changes only when the key is free, by a renewal of its holder, after the end of
    its lease, by a release of its holder, or by a write or deletion that is meant to be without a condition. *)
Theorem etcd_refines_lease st0 t ls s lab s' : value_at K st0 = None → etcd_steps ls (initial st0 t) s → etcd_step lab s s' →
  ∃ n, Lease.steps T 0 (replicate n lab) (abstract K s) (abstract K s').
Proof using EtcdPromises0 HID.
  intros Hk Hsteps Hstep. destruct (refined_steps _ _ _ (sound_empty st0 t Hk) Hsteps) as [_ Hs].
  destruct (refined_step _ _ _ Hs Hstep) as [(ls' & Hl & Hf) _]. exists (length ls').
  replace (replicate (length ls') lab) with ls'; [done|]. clear Hl. by induction Hf as [|l ls' -> _ IH]; cbn; [|f_equal].
Qed.

(** C12: the leader keeps the key: when the key is held by [n] and no lease that was granted to [n] ends before
    [e], the key is [n]'s as long as the clock is before [e], whatever the other agents send, unless [n]
    gives the key up, or the key is written without a condition. *)
Theorem etcd_lease_kept st0 t ls0 s ls s' n e : value_at K st0 = None → etcd_steps ls0 (initial st0 t) s → etcd_steps ls s s' →
  Forall (Lease.undisturbed n) ls → Lease.holds_until n e (abstract K s) → e ≤ now s + T → now s' < e →
  ∃ l, value_at K (st s') = Some (n, Some l).
Proof using EtcdPromises0 HID.
  intros Hk Hpast Hss Hu Hn He Hnow. destruct (refined_steps _ _ _ (sound_empty st0 t Hk) Hpast) as [_ Hs].
  destruct (refined_steps _ _ _ Hs Hss) as [(ls' & Hsub & Hl) _].
  assert (Forall (Lease.undisturbed n) ls') as Hu' by (rewrite Forall_forall in *; eauto).
  destruct (Lease.holds_steps _ _ _ _ _ _ _ Hl Hu' Hn) as (e' & Hh & _); [cbn; lia..|].
  cbn in Hh. unfold holder_of, end_of in Hh. destruct (value_at K (st s')) as [[v [l|]]|]; [|done|done].
  destruct (lease_at l (st s')); [|done]. injection Hh as -> _. eauto.
Qed.
End agents.

(** ** Examples *)

(** A store: the value of each key with its lease, the leases with their end *)
Record toy := MkToy { t_keys : string → option (string * option string); t_leases : dict (Z * Z) }.

Definition toy_holds (c : compare) (x : toy) : bool :=
  match c, t_keys x (match c with CmpValue k _ | CmpCreate k _ | CmpMod k _ => k end) with
  | CmpValue _ v, Some (v', _) => (v' =? v)%string
  | CmpCreate _ r, None => (r =? "0")%string
  | _, _ => false
  end.

(** [None]: a lease that does not exist *)
Fixpoint toy_apply (o : operation) (x : toy) : option toy :=
  match o with
  | OpPut (MkPut k v l) =>
      if match l with Some l => Dict.mem l (t_leases x) | None => true end then Some (MkToy (λ k', if (k' =? k)%string then Some (v, l) else t_keys x k') (t_leases x)) else None
  | OpDelete k None => Some (MkToy (λ k', if (k' =? k)%string then None else t_keys x k') (t_leases x))
  | OpDelete k (Some _) => Some (MkToy (λ k', if String.prefix k k' then None else t_keys x k') (t_leases x))
  | OpTxn c o => if toy_holds c x then toy_apply o x else Some x
  end.

Definition toy_response (ok nested : bool) (l : string) : response := MkResponse 0 ok nested [] l (Some "30").
Definition toy_new_lease (x : toy) : string := "lease" +:+ pretty (length (t_leases x)).

Definition toy_done (ok nested : bool) (x : toy) (o : option toy) : exc response * toy :=
  match o with Some x' => (Ok (toy_response ok nested ""), x') | None => (Raise LeaseNotFound, x) end.

Definition toy_serve (t : Z) (req : request) (x : toy) : exc response * toy :=
  match req with
  | RPut f => toy_done true false x (toy_apply (OpPut f) x)
  | RDeleteRange k e => toy_done true false x (toy_apply (OpDelete k e) x)
  | RTxn c s f =>
      if toy_holds c x then toy_done true false x (toy_apply s x)
      else match f with
           | Some (OpTxn c' o as f) => toy_done false (toy_holds c' x) x (toy_apply f x)
           | Some f => toy_done false false x (toy_apply f x)
           | None => (Ok (toy_response false false ""), x)
           end
  | RRange _ _ _ => (Ok (toy_response true false ""), x)
  | RLeaseGrant ttl =>
      let l := toy_new_lease x in
      if Dict.mem l (t_leases x) then (Raise DeadlineExceeded, x)
      else (Ok (toy_response true false l), MkToy (t_keys x) (Dict.set l (ttl, t + ttl) (t_leases x)))
  | RLeaseKeepalive l =>
      match Dict.get l (t_leases x) with
      | Some (ttl, _) => (Ok (toy_response true false ""), MkToy (t_keys x) (Dict.set l (ttl, t + ttl) (t_leases x)))
      | None => (Ok (MkResponse 0 true false [] "" None), x)
      end
  end.

#[export] Instance toy_store : EtcdStore toy := {
  value_at k x := t_keys x k;
  lease_at l x := Dict.get l (t_leases x);
  holds := toy_holds;
  serve := toy_serve;
  revoke l x := MkToy (λ k, match t_keys x k with Some (v, Some l') => if (l' =? l)%string then None else Some (v, Some l') | o => o end)
    (Dict.del l (t_leases x))
}.

Lemma toy_effect o x x' : toy_apply o x = Some x' → effect o x x'.
Proof.
  revert x x'. induction o as [[k v l]|k [e|]|c o IH]; intros x x'; cbn.
  - destruct (match l with Some _ => _ | None => _ end) eqn:El; [|done]. intros [= <-]. cbn. split_and!; [by rewrite String.eqb_refl| |done|].
    + intros k' Hk. cbn. by apply String.eqb_neq in Hk as ->.
    + intros l' -> Hl. apply Dict.mem_true in El. by apply Dict.get_None in Hl.
  - intros [= <-]. cbn. split; [|done]. intros k'. destruct (String.prefix k k'); auto.
  - intros [= <-]. cbn. cbn. split_and!; [by rewrite String.eqb_refl| |done]. intros k' Hk. cbn. by apply String.eqb_neq in Hk as ->.
  - destruct (toy_holds c x); [apply IH|by intros [= <-]].
Qed.

Lemma toy_done_inv ok nested x o r x' : toy_done ok nested x o = (r, x') → match r with Ok _ => o = Some x' | Raise _ => x' = x end.
Proof. destruct o; cbn; by intros [= <- <-]. Qed.

#[export] Instance toy_promises : EtcdPromises toy.
Proof.
  assert (∀ t req x, match toy_serve t req x with (Raise _, x') => x' = x | _ => True end) as Herr.
  { intros t req x. destruct req as [f|k e|c s [[f|k e|c' o]|]| | |l]; cbn [toy_serve]; repeat case_match; simplify_eq; try done;
      match goal with Hd : toy_done _ _ _ _ = _ |- _ => by apply toy_done_inv in Hd end. }
  split.
  - intros t req x e x' Hs. specialize (Herr t req x). cbn in Hs. by rewrite Hs in Herr.
  - intros t f x r x' Hs%toy_done_inv. by apply toy_effect.
  - intros t k e x r x' Hs%toy_done_inv. by apply toy_effect.
  - intros t c s f x r x' Hs. cbn in Hs |- *. destruct (toy_holds c x); [apply toy_done_inv in Hs; by apply toy_effect|].
    destruct f as [[f|k e|c' o]|]; [apply toy_done_inv in Hs; by apply toy_effect..|by injection Hs as _ <-].
  - intros t k e b x r x' Hs. by injection Hs as _ <-.
  - intros t ttl x r x' Hs. cbn in Hs |- *. destruct (Dict.mem _ _) eqn:Em; [done|]. injection Hs as <- <-. cbn.
    split_and!; [by apply Dict.mem_false_get|apply Dict.get_set_eq| |done]. intros l Hl. by rewrite Dict.get_set_ne.
  - intros t l x r x' Hs. cbn in Hs |- *. destruct (Dict.get l (t_leases x)) as [[ttl e]|] eqn:El; injection Hs as <- <-; cbn.
    + split_and!; [right; exists ttl, e; by rewrite Dict.get_set_eq| |done]. intros l' Hl. by rewrite Dict.get_set_ne.
    + split_and!; [by left|done..].
  - intros l x. apply Dict.get_del_eq.
  - intros l l' x Hl. cbn. by rewrite Dict.get_del_ne.
  - done.
  - intros k v x. cbn. destruct (t_keys x k) as [[v' l]|]; [|split; [done|by intros [? ?]]].
    destruct (String.eqb_spec v' v) as [->|]; split; try done; eauto. by intros [? [= ? _]].
  - intros k x. cbn. by destruct (t_keys x k) as [[v' l]|].
Qed.

(** An agent that has its own store and clock *)
#[export] Instance toy_net : EtcdNet (toy * Z) := {
  rpc req s := let '(r, x) := toy_serve (s.2.2 / 100) req s.2.1 in (r, (s.1, (x, s.2.2)));
  etcd_time w := w.2;
  etcd_sleep t w := (w.1, w.2 + t);
  etcd_randint n w := (0, w);
  has_cache _ := false;
  cache_of _ := toy_cache;
  put_kv_cache _ w := w;
  _wait_cache w := (Ok (), w);
  _restart_watcher w := w
}.

Lemma toy_names ttl s r s' : rpc (W := toy * Z) (RLeaseGrant ttl) s = (Ok r, s') → ID r ≠ "".
Proof. cbn. destruct (Dict.mem _ _); by intros [= <- _]. Qed.

#[local] Existing Instance text_datetime.
Definition toy_empty : toy := MkToy (λ _, None) [].
Definition agent_a : AbstractDCS := dcs_init (MkMPP false 0 false 0) "a" "service" "batman".
Definition toy_retry : Retry := retry_init (-1) 360000 (Some 1000) retry_errors.
Definition toy_host (l : option string) : host (toy * Z) := MkHost (MkEtcd3 false 30 1000 l 0 false false) toy_retry (toy_empty, 0) [].

(** [take_leader] without a lease, as after [touch_member] has lost it, writes a leader key that no lease
    takes away. *)
Lemma take_leader_unleased : let '(r, s) := take_leader agent_a (toy_host None) in
  r = Ok true ∧ value_at (leader_path agent_a) (world s).1 = Some ("a", None) ∧
  ∀ l, value_at (leader_path agent_a) (revoke l (world s).1) = Some ("a", None).
Proof. by vm_compute. Qed.

(** [a] acquires the key with a new lease, and refreshes it. *)
Definition a_acquires : host (toy * Z) := (attempt_to_acquire_leader agent_a (toy_host None)).2.
Definition leader_key : string := "/service/batman/leader".
Definition a_txn : request := RTxn (CmpCreate leader_key "0") (OpPut (MkPut leader_key "a" (Some "lease0"))) None.
Definition a_granted : system := MkSystem (toy_serve 0 (RLeaseGrant 30) toy_empty).2 0 [("lease0", "a")].
Definition a_leads : system := MkSystem (toy_serve 0 a_txn (st a_granted)).2 0 [("lease0", "a")].
Definition a_still_leads : system := MkSystem (st a_leads) 29 [("lease0", "a")].

Lemma a_acquires_runs : client_run (W := toy * Z) agent_a 30 a_acquires.
Proof.
  unfold a_acquires. change (toy_host None) with (put_world (toy_empty, 0) (toy_host None)).
  apply client_call; [by apply client_start|constructor].
Qed.

Lemma a_is_granted : etcd_step (W := toy * Z) leader_key 30 Lease.quiet (initial toy_empty 0) a_granted.
Proof.
  apply (etcd_request leader_key 30 agent_a (RLeaseGrant 30) (toy_serve 0 (RLeaseGrant 30) toy_empty).1 (st a_granted) (initial toy_empty 0)); [by vm_compute| |done|by vm_compute].
  exists a_acquires, [(a_txn, Ok (toy_response true false ""))], (Ok (toy_response true false "lease0")), [].
  split_and!; [exact a_acquires_runs|by vm_compute|done].
Qed.

Lemma a_puts_key : etcd_step (W := toy * Z) leader_key 30 Lease.quiet a_granted a_leads.
Proof.
  apply (etcd_request leader_key 30 agent_a a_txn (Ok (toy_response true false "")) (st a_leads) a_granted); [by vm_compute| |done|by vm_compute].
  exists a_acquires, [], (Ok (toy_response true false "")), [(RLeaseGrant 30, Ok (toy_response true false "lease0"))].
  split_and!; [exact a_acquires_runs|by vm_compute|]. by vm_compute.
Qed.

Lemma etcd_a_run : etcd_steps (W := toy * Z) leader_key 30 [Lease.quiet; Lease.quiet] (initial toy_empty 0) a_leads.
Proof. eapply etcd_steps_cons; [exact a_is_granted|]. eapply etcd_steps_cons; [exact a_puts_key|apply etcd_steps_nil]. Qed.

Lemma etcd_refines_lease_witness :
  (∃ n, Lease.steps 30 0 (replicate n Lease.quiet) (abstract leader_key a_granted) (abstract leader_key a_leads)) ∧
  Lease.holder (abstract leader_key a_granted) = None ∧ Lease.holder (abstract leader_key a_leads) = Some ("a", 30).
Proof.
  split; [|by vm_compute]. apply (etcd_refines_lease toy_names leader_key 30 toy_empty 0 [Lease.quiet] a_granted); [done| |exact a_puts_key].
  eapply etcd_steps_cons; [exact a_is_granted|apply etcd_steps_nil].
Defined.

Lemma etcd_lease_kept_witness : ∃ l, value_at leader_key (st a_still_leads) = Some ("a", Some l).
Proof.
  apply (etcd_lease_kept toy_names leader_key 30 toy_empty 0 [Lease.quiet; Lease.quiet] a_leads [Lease.quiet] a_still_leads "a" 30); [done|exact etcd_a_run|..].
  - eapply etcd_steps_cons; [by apply (etcd_pass leader_key 30 29 a_leads)|apply etcd_steps_nil].
  - by repeat constructor.
  - split; [exists 30; by vm_compute|]. intros e'. vm_compute. intros He. apply list_elem_of_singleton in He. by injection He as ->.
  - done.
  - done.
Defined.
